(* ===== verification/_CoqProject ===== *)
-Q . S2P
Prelude.v
EntropyInterface.v
EntropySeq.v
RangeCoder.v
EntCode.v
RangeSpec.v
RangeDone.v
RangeSafe.v
RangeMem.v
RangeRoundTrip.v
RangeProps.v
CwrsTable.v
Cwrs.v
CwrsSmall.v
CwrsProps.v
Laplace.v
FixedPoint.v
MathOps.v
QuantBands.v
QuantCoarse.v
EnergyProps.v
Memory.v
Packet.v
PacketProofs.v
PacketBuild.v
Extensions.v
ExtProofs.v
Repacketizer.v
RepackProofs.v
RepackParse.v
RepackCat.v
RepackPad.v
PacketProps.v
SilkMath.v
SilkTables.v
SilkPulses.v
SilkPulsesProofs.v
SilkGains.v
SilkStereo.v
SilkIndices.v
SilkIndicesProofs.v
SilkNLSF.v
SilkProps.v
CeltMode.v
Rate.v
RateProofs.v
PulseCache.v
PulseCacheProofs.v
RateProps.v
CeltSide.v
CeltSideProofs.v
Vq.v
VqProofs.v
BandOps.v
Theta.v
Bands.v
AllBands.v
ThetaProofs.v
BandsSync.v
BandsSafe.v
AllBandsSync.v
BandsResynth.v
BandsProps.v
CeltFrame.v
CeltFrameProofs.v
CeltProps.v
OpusDecode.v
OpusDecodeProofs.v
OpusDecodeFrame.v
OpusProps.v
OpusControl.v
OpusDecide.v
OpusEncoder.v
OpusEncodeProofs.v
OpusEncodeProps.v
Multistream.v
MultistreamProofs.v
MultistreamProps.v
MsEncoder.v
MsEncodeProps.v
