(* ===== verification/Prelude.v ===== *)
(** * libopus in KizunaLink: a verification library

    KizunaLink is an audio node; the code it decodes and encodes speech and music
    with is the C library libopus, vendored under src/kizunalink/native/opus/.
    This development models the parts of libopus that decide what the bits of a
    packet mean: the entropy coder, the symbols that CELT and SILK code with it, the
    bit allocation that both ends must agree on, the coding of the CELT spectrum, the
    layer that frames, merges, pads and splits packets, and the drivers on top: the Opus
    decoder, the decisions and the state of the Opus encoder, and the multistream layer.
    All paths below are relative to src/kizunalink/native/opus/.

    ** How the parts fit together

    An Opus packet is a TOC byte, frame sizes, frames and padding with
    extensions (src/opus.c, src/opus_decoder.c, src/extensions.c,
    src/repacketizer.c).  Each frame is one range-coded string
    (celt/entcode.h, entenc.c, entdec.c) written from the front, with raw bits
    written from the back of the same buffer.  CELT codes band energies
    (celt/quant_bands.c with celt/laplace.c), derives from the bits that
    are left how many each band gets (celt/rate.c), and codes the shape of each band
    (celt/bands.c, vq.c) as angles between its parts and pulse vectors
    (celt/cwrs.c).  SILK codes side information (silk/encode_indices.c), gains,
    stereo predictors and excitation pulses (silk/encode_pulses.c, shell_coder.c,
    code_signs.c).  The drivers (src/opus_decoder.c, opus_encoder.c) keep the state of
    one stream between packets: which of SILK and CELT (or both) a frame uses, how one mode
    fades into the other, what to do without a packet; src/opus_multistream_encoder.c and
    opus_multistream_decoder.c run one coder for each stream of a packet, split the rate between them and
    route samples between streams and channels.
    A decoder has no other input than the packet and its own
    state, so the central properties are that it finds the values that the
    encoder went on with, and that no packet at all makes it leave its arrays.

    ** Files

    - Prelude: C integers and arrays, loops with fuel, tactics, the hint database [opus].
    - EntropyInterface: the class [EntropyCoder], what the entropy coder promises
      to its clients: [sync] (encoder and decoder agree) and [yields] (what a
      decoder returns on arbitrary data).  EntropySeq: sequences of symbols.
    - RangeCoder: celt/entcode.h, entcode.c, entenc.c, entdec.c, mfrngcod.h, one
      definition per C function on the record [ec_ctx].  EntCode: the integer
      helpers.  RangeSpec, RangeDone: the encoder refines exact interval
      arithmetic.  RangeSafe, RangeMem: the decoder and the buffer.
      RangeRoundTrip: the range coder is an instance of [EntropyCoder].
      RangeProps: its theorems.
    - CwrsTable, Cwrs, CwrsSmall, CwrsProps: celt/cwrs.c, with its tables and its
      SMALL_FOOTPRINT build.
    - FixedPoint, MathOps: the macros and functions of the fixed-point build
      (celt/fixed_generic.h, arch.h, mathops.c, mathops.h).
    - Laplace, QuantBands, QuantCoarse, EnergyProps: celt/laplace.c and
      celt/quant_bands.c (fixed-point build).
    - CeltMode, Rate, PulseCache: the static mode (celt/modes.c,
      static_modes_float.h), celt/rate.c, celt/rate.h and, for custom modes,
      [compute_pulse_cache] and [log2_frac].  RateProofs,
      PulseCacheProofs, RateProps: their theorems.
    - CeltSide: the side information of a frame in celt/celt_encoder.c and
      celt/celt_decoder.c, from the time-frequency flags to the fine energies.
      CeltSideProofs: its lemmas.
    - Vq: celt/vq.c (rotation, pulse search, quantisation).  BandOps: the helpers
      of celt/bands.c (bit-exact trigonometry, Haar and Hadamard steps, stereo).
      Theta: [compute_theta], the record [band_port] of the operations that differ
      between encoder and decoder, and the class [SignalAnalysis], what the
      band coder asks of the two functions that look at the signal ([stereo_itheta]
      and [op_pvq_search], which have an implementation per processor).  Bands:
      [quant_partition], [quant_band], [quant_band_stereo].  AllBands:
      [quant_all_bands].  VqProofs, ThetaProofs, BandsSync (both ends agree),
      BandsSafe, AllBandsSync (the loop over the bands), BandsResynth (the standard mode meets
      what they assume, and resynthesis does not change the packet), BandsProps: theorems.
      BandsProps gives the instance [c_analysis] of [SignalAnalysis] with the portable
      functions, on the coefficients they are made for.
    - CeltFrame: all that [celt_encode_with_ec] and [celt_decode_with_ec] do with the
      range coder in a frame.  CeltFrameProofs, CeltProps: theorems.
    - Memory: a byte memory with pointers, the error type [res] ([Fault] is an
      access outside the memory).  Packet: parsing, src/opus.c and the packet
      queries of src/opus_decoder.c.  Extensions: src/extensions.c.
      Repacketizer: src/repacketizer.c.  PacketProofs, PacketBuild, ExtProofs,
      RepackProofs, RepackParse, RepackCat, RepackPad, PacketProps: theorems.
    - SilkMath, SilkTables, SilkPulses, SilkGains, SilkStereo, SilkIndices,
      SilkNLSF: the files of silk/ named in each; SilkPulsesProofs,
      SilkIndicesProofs, SilkProps: theorems.
    - OpusDecode: src/opus_decoder.c, one definition for each stage of [opus_decode_frame]
      and each function, on the record [OpusDecoder].  The SILK and CELT
      decoders are the class [Synthesis]: what the driver calls of them; which requests the CELT decoder accepts is
      [celt_ctl_ret], from celt/celt_decoder.c, and a refused one fails the assertion of [must_ctl] ([MUST_SUCCEED]).
      OpusDecodeProofs: the class [SynthesisLaws] (called in turn, SILK writes one frame, reports its length and reads on in the
      packet, and fails only on the first call for it; CELT writes in its block and, concealing, returns its
      frame size and overwrites the block or adds to it), the calculus
      [must] of calls that do not fail, and each stage.  OpusDecodeFrame: a frame and a packet, and that what concealment
      leaves does not depend on the old samples.  OpusProps: the states that
      calls of the API lead to ([reachable]) and the theorems, with an instance of both classes.
    - OpusControl: the functions that the encoder decides with (frame size, rates,
      FEC, DTX, redundancy, TOC byte).  OpusDecide: the decisions of
      [opus_encode_native] up to the frames to code ([encode_plan]).  OpusEncoder: the
      record [OpusEncoder], creation, [opus_encoder_ctl], what a packet leaves in the
      state, and the frames that a sequence of calls sends ([enc_calls]), the general DTX included.  OpusEncodeProofs, OpusEncodeProps: theorems.
    - Multistream: src/opus_multistream.c and opus_multistream_decoder.c on top of OpusDecode.
      MultistreamProofs, MultistreamProps: theorems.  MsEncoder: src/opus_multistream_encoder.c; what a
      stream encoder returns is the class [StreamEncode].  MsEncodeProps: the class
      [StreamLaws] (a packet of the frame's duration that fits), an instance, and the theorems.

    ** Conventions

    A C integer is a [Z]; a conversion to a w-bit type is written out ([u8],
    [u32], [i16], ...) where the code stores or computes in that type.
    Arithmetic in [int] that the code keeps far from the limits is done in [Z].
    An array is a [list Z]; where a theorem is about bounds (packets,
    extensions, the repacketizer) every access goes through [Memory] and a wrong one is [Fault];
    elsewhere [rd] and [wr] are total and the theorems show that indices
    are in range.  Loops are structural where the C loop counts; otherwise
    they have fuel: the normalisation loops of the range coder run at most
    4 times; the lacing and padding loops get the length of the packet
    plus one, as each round consumes a byte; the scaling loop of SILK
    pulses gets 8 rounds (C33 shows that 7 shifts are enough) and the
    count of its extra bits 11; the Laplace tails get their values; the vector
    search of the bit allocation gets the number of vectors
    ([vector_search_ok] shows that it has ended by then).  A round trip through
    a packet ([packet_ok]) assumes that the encoder reported no error and fewer than 2^31 bits.
    The splits of a band are structural in [LM+1]; the loops that change its time
    resolution get the number of steps asked for.  In celt/bands.c the code works in place on the spectrum and on
    [norm]; here a function returns what it leaves there, and [norm] is the list of what has been written.
    [opus_decode_frame] calls itself for concealment; the fuel of two is enough (C7, C15), as a
    frame asks for concealment, long concealment for its pieces, and these for nothing more; the loops
    over lost frames get the number of samples asked for, as each round fills some.
    Where encoder and decoder share a C function with a flag [encode], the model has one function of a port.

    ** Theorems

    - C1-C5, RangeProps: any sequence of coding calls decodes to what was
      encoded; the encoder computes the exact interval; both ends count the
      same bits; the decoder is safe on all data; the encoder stays in its
      buffer; also, shrinking keeps the code.
    - C7, C15, OpusProps: from every reachable state the decoder is safe on all packets and
      returns their duration (recovering a lost packet, the frame size asked for), and a lost packet is always concealed, every sample of it.
    - C9, C18, OpusEncodeProps: from every reachable state the encoder plans packets
      that their first byte can announce, and in the frames it sends the general DTX starts and pauses in time.
    - C13, MultistreamProps: every output channel holds the stream that its mapping names.
    - C6, C30, MsEncodeProps: the layouts of the mapping families bring every channel back to
      its place, and a multistream packet fits and carries the packets of all streams.
    - C8, C40, RateProps: the static tables are those of the generator, and the allocation
      accounts for every eighth of a bit; also, [log2_frac] is
      conservative and [bits2pulses] is optimal.
    - C10, C11, CwrsProps: the pulse vector code round trips and is a bijection;
      both builds agree.
    - C12, C14, C17, C19, C39, BandsProps: the pulse search finds exactly K pulses; the bands
      decode safely from arbitrary data; angles round trip; a partition keeps
      to its budget; and the decoder reconstructs exactly what an encoder that
      resynthesises has, for every frame of the standard mode.
    - C20, EnergyProps: the one case in which coarse energies differ between both ends, beside
      the round trips of Laplace coding and coarse energies, with the choice between the two passes.
    - C16, CeltProps: a whole frame round trips, the composition of
      all the parts above, with the three cases at the end of the budget in which it does not.
    - C21-C29, PacketProps: parsing and extensions are safe on all data and round
      trip; the repacketizer keeps its invariant, writes packets that parse to
      its frames, pads and unpads in place; C22 says exactly when an out-of-bounds read happens.
    - C31-C38, SilkProps: excitation, side information, gains, stereo and line
      spectral frequencies.

    ** Not modelled, and why

    The signal path (transforms, filters, pitch, noise shaping, resamplers,
    concealment: celt/mdct.c, celt_lpc.c, silk/NSQ.c, PLC.c, ...) computes in floating point
    or in build-dependent fixed point and its correctness is a matter of audio quality; of
    celt/bands.c this is the energies, (de)normalisation, anti-collapse and the spreading decision.
    The drivers inside the codecs (celt/celt_encoder.c, silk/enc_API.c, dec_API.c, ...) mix this
    signal path with the coding calls modelled here, and so does [opus_encode_frame_native]: of it
    the model has what it leaves in the state, given how the coding ended.  The Opus
    decoder is that of the fixed-point build with 16-bit output, without deep PLC and DRED.  The surround analysis and
    the projection API (matrices) are not modelled.
    Of a CELT frame, silent frames (which set
    the bit counter forward), variable bit rate (the encoder shrinks the packet in the
    middle of a frame), the FUZZING build and the correction of the energies after a loss are not modelled.
    [op_pvq_search_c] is not used with a coefficient of -32768, where [ABS16] overflows.
    dnn/ is generated weights and inference.  Assembly and SIMD files are variants of the portable
    routines.  The Rust crates around the library are not C and not part of
    it. *)

From stdpp Require Export base list list_numbers numbers tactics.
From Stdlib Require Export ZArith Lia.

#[global] Open Scope Z_scope.

(** ** Machine integers

    Every C integer is a [Z]; the conversions below are the wrap-around of the
    type the C code stores into. *)

Definition u8 (x : Z) : Z := x mod 2 ^ 8.
Definition u16 (x : Z) : Z := x mod 2 ^ 16.
Definition u32 (x : Z) : Z := x mod 2 ^ 32.
Definition i16 (x : Z) : Z := (x + 2 ^ 15) mod 2 ^ 16 - 2 ^ 15.
Definition i32 (x : Z) : Z := (x + 2 ^ 31) mod 2 ^ 32 - 2 ^ 31.

#[global] Arguments u8 : simpl never.
#[global] Arguments u16 : simpl never.
#[global] Arguments u32 : simpl never.
#[global] Arguments i16 : simpl never.
#[global] Arguments i32 : simpl never.

(** C's truth values. *)
Definition b2z (b : bool) : Z := if b then 1 else 0.

Lemma b2z_range b : 0 <= b2z b <= 1.
Proof. destruct b; cbn; lia. Qed.

(** ** C arrays

    An array is a [list Z]. [rd] and [wr] are the element access at an index
    that the caller has shown to be in range; out of range [rd] gives 0 and
    [wr] does nothing. *)

Definition rd (l : list Z) (i : Z) : Z :=
  if i <? 0 then 0 else nth (Z.to_nat i) l 0.
Definition wr (l : list Z) (i v : Z) : list Z :=
  if i <? 0 then l else <[Z.to_nat i := v]> l.

#[global] Arguments rd : simpl never.
#[global] Arguments wr : simpl never.
#[global] Arguments Z.shiftl : simpl never.
#[global] Arguments Z.shiftr : simpl never.
#[global] Arguments Z.land : simpl never.
#[global] Arguments Z.lor : simpl never.
#[global] Arguments Z.pow : simpl never.

Declare Scope c_scope.
Delimit Scope c_scope with c.
Notation "a .[ i ]" := (rd a i) (at level 1, left associativity, i at level 200, format "a .[ i ]") : c_scope.
Notation "a .[ i <- v ]" := (wr a i v)
  (at level 1, left associativity, i at level 200, v at level 200, format "a .[ i  <-  v ]") : c_scope.
#[global] Open Scope c_scope.

(** [len l] is the number of elements of an array, in [Z]. *)
Definition len {A} (l : list A) : Z := Z.of_nat (length l).

(** Arrays of bytes. *)
Definition bytes (l : list Z) : Prop := Forall (fun b => 0 <= b < 256) l.

(** ** Loops *)

(** [while_fuel n c b s] runs the C loop [while (c) b] at most [n] times. *)
Fixpoint while_fuel {S : Type} (n : nat) (c : S -> bool) (b : S -> S) (s : S) : S :=
  match n with
  | O => s
  | S n' => if c s then while_fuel n' c b (b s) else s
  end.

Section While.
Context {S : Type} (c : S -> bool) (b : S -> S).

(** The loop rule: an invariant [P], and a natural-number measure that the body
    decreases and that the fuel bounds, give the invariant and the exit test. *)
Lemma while_fuel_rule (P : S -> Prop) (m : S -> nat) n s :
  (forall s, P s -> c s = true -> P (b s) /\ (m (b s) < m s)%nat) ->
  P s -> (m s <= n)%nat ->
  P (while_fuel n c b s) /\ c (while_fuel n c b s) = false.
Proof.
  intros Hb. revert s; induction n as [|n IH]; intros s HP Hm; simpl.
  - split; [done|]. destruct (c s) eqn:E; [|done].
    destruct (Hb s HP E); lia.
  - destruct (c s) eqn:E; [|done].
    destruct (Hb s HP E). apply IH; [done|lia].
Qed.

(** A property that the body reflects backwards, the loop does. *)
Lemma while_fuel_reflect (P : S -> Prop) n s :
  (forall s, P (b s) -> P s) -> P (while_fuel n c b s) -> P s.
Proof.
  intros Hb. revert s; induction n as [|n IH]; intros s H; simpl in H; [done|].
  destruct (c s); [|done]. by apply Hb, IH.
Qed.

(** What the body does not change, the loop does not. *)
Lemma while_fuel_const {T} (f : S -> T) n s :
  (forall s, f (b s) = f s) -> f (while_fuel n c b s) = f s.
Proof.
  intros Hb. revert s; induction n as [|n IH]; intros s; simpl; [done|].
  destruct (c s); [|done]. by rewrite IH, Hb.
Qed.
End While.

Lemma while_fuel_S {S} (c : S -> bool) b n s :
  while_fuel (Datatypes.S n) c b s = if c s then while_fuel n c b (b s) else s.
Proof. done. Qed.
Lemma while_fuel_O {S} (c : S -> bool) b s : while_fuel O c b s = s.
Proof. done. Qed.
#[global] Arguments while_fuel : simpl never.

(** ** Exhaustive checks

    [zforall n lo f] tests [f] on [lo], ..., [lo + n - 1]; a finite case
    analysis is one evaluation of it. *)
Fixpoint zforall (n : nat) (lo : Z) (f : Z -> bool) : bool :=
  match n with O => true | S n' => f lo && zforall n' (lo + 1) f end.

Lemma zforall_intro n : forall lo p, (forall i, lo <= i < lo + Z.of_nat n -> p i = true) -> zforall n lo p = true.
Proof. induction n as [|n IH]; intros lo p Hp; [done|]. cbn [zforall]. rewrite (Hp lo) by lia. apply IH. intros i Hi. apply Hp. lia. Qed.
Lemma zforall_spec n lo f x :
  zforall n lo f = true -> lo <= x < lo + Z.of_nat n -> f x = true.
Proof.
  revert lo; induction n as [|n IH]; intros lo H Hx; simpl in H; [lia|].
  apply andb_true_iff in H as [H1 H2]. destruct (decide (x = lo)) as [->|]; [done|].
  apply (IH (lo + 1)); [done|lia].
Qed.

(** ** Automation *)

(** [lia] and [nia] on goals with division and remainder. *)
Ltac dlia := Z.div_mod_to_equations; lia.
Ltac dnia := Z.div_mod_to_equations; nia.

(** Case analysis on the integer comparison that a goal branches on. *)
Ltac case_cmp :=
  match goal with
  | |- context [?a <? ?b] => destruct (Z.ltb_spec a b)
  | |- context [?a <=? ?b] => destruct (Z.leb_spec a b)
  | |- context [?a >? ?b] => destruct (Z.gtb_spec a b)
  | |- context [?a >=? ?b] => destruct (Z.geb_spec a b)
  | |- context [?a =? ?b] => destruct (Z.eqb_spec a b)
  end.

(** ** Lemmas on machine integers *)

Create HintDb opus discriminated.
Create Rewrite HintDb opus.

Lemma u32_small x : 0 <= x < 2 ^ 32 -> u32 x = x.
Proof. apply Z.mod_small. Qed.
Lemma u32_range x : 0 <= u32 x < 2 ^ 32.
Proof. apply Z.mod_pos_bound; lia. Qed.
Lemma u8_small x : 0 <= x < 256 -> u8 x = x.
Proof. apply Z.mod_small. Qed.
Lemma u8_range x : 0 <= u8 x < 256.
Proof. apply Z.mod_pos_bound; lia. Qed.
Lemma i32_small x : - 2 ^ 31 <= x < 2 ^ 31 -> i32 x = x.
Proof. intros. unfold i32. rewrite Z.mod_small; lia. Qed.
Lemma i16_small x : - 2 ^ 15 <= x < 2 ^ 15 -> i16 x = x.
Proof. intros. unfold i16. rewrite Z.mod_small; lia. Qed.
#[export] Hint Resolve u32_range u8_range : opus.

Lemma land_255 x : Z.land x 255 = x mod 256.
Proof. exact (Z.land_ones x 8 ltac:(lia)). Qed.
Lemma land_pow2_pred x n : 0 <= n -> Z.land x (2 ^ n - 1) = x mod 2 ^ n.
Proof.
  intros. rewrite <- Z.land_ones by done. by rewrite Z.ones_equiv, Z.sub_1_r.
Qed.

(** The bits [m .. m+n) of a number depend only on its low [m+n] bits. *)
Lemma div_mod_pow2 x m n :
  0 <= m -> 0 <= n -> (x / 2 ^ m) mod 2 ^ n = (x mod 2 ^ (m + n)) / 2 ^ m.
Proof.
  intros. rewrite Z.pow_add_r, Z.rem_mul_r by lia.
  rewrite Z.mul_comm, Z.div_add, (Z.div_small (x mod _)) by (try apply Z.mod_pos_bound; lia). done.
Qed.

Lemma mod_mod_pow2 x m n : 0 <= m <= n -> (x mod 2 ^ n) mod 2 ^ m = x mod 2 ^ m.
Proof.
  intros. apply Z.mod_mod_divide. exists (2 ^ (n - m)). rewrite <- Z.pow_add_r by lia. f_equal. lia.
Qed.

Lemma lor_range a b n : 0 <= a < 2 ^ n -> 0 <= b < 2 ^ n -> 0 <= Z.lor a b < 2 ^ n.
Proof.
  intros Ha Hb. assert (0 <= n) by (destruct (Z.le_gt_cases 0 n); [done|]; rewrite Z.pow_neg_r in Ha; lia).
  assert (Z.lor a b = Z.lor a b mod 2 ^ n) as ->; [|apply Z.mod_pos_bound; lia].
  rewrite <- !Z.land_ones, Z.land_lor_distr_l, !Z.land_ones by lia. by rewrite !Z.mod_small.
Qed.

(** Or of numbers with disjoint bits is their sum. *)
Lemma lor_add_pow2 x y n : 0 <= n -> 0 <= x < 2 ^ n -> Z.lor x (y * 2 ^ n) = x + y * 2 ^ n.
Proof.
  intros Hn Hx. assert (Z.land x (y * 2 ^ n) = 0) as E.
  { apply Z.bits_inj'; intros i Hi. rewrite Z.land_spec, Z.bits_0.
    destruct (decide (i < n)) as [Hin|Hin].
    - by rewrite Z.mul_pow2_bits_low, andb_false_r.
    - rewrite <- (Z.mod_small x (2 ^ n)), Z.mod_pow2_bits_high by lia. done. }
  by rewrite Z.add_nocarry_lxor, Z.lxor_lor.
Qed.

(** ** Numbers as digit strings

    [besum f n] is the number whose base-256 digits are [f 0], ..., [f (n-1)],
    most significant first; [lesum f n] has the least significant first. *)

Fixpoint besum (f : nat -> Z) (n : nat) : Z :=
  match n with O => 0 | S k => besum f k * 256 + f k end.
Fixpoint lesum (f : nat -> Z) (n : nat) : Z :=
  match n with O => 0 | S k => lesum f k + f k * 256 ^ Z.of_nat k end.

Section Digits.
Context (f : nat -> Z).
Hypothesis f_digit : forall i, 0 <= f i < 256.

Lemma besum_range n : 0 <= besum f n < 256 ^ Z.of_nat n.
Proof.
  induction n as [|n IH]; simpl besum; [lia|].
  rewrite Nat2Z.inj_succ, Z.pow_succ_r by lia. specialize (f_digit n). lia.
Qed.

Lemma lesum_range n : 0 <= lesum f n < 256 ^ Z.of_nat n.
Proof.
  induction n as [|n IH]; simpl lesum; [lia|].
  rewrite Nat2Z.inj_succ, Z.pow_succ_r by lia. specialize (f_digit n). nia.
Qed.

(** The first [m] digits of a longer number. *)
Lemma besum_add m k :
  exists t, 0 <= t < 256 ^ Z.of_nat k /\ besum f (m + k) = besum f m * 256 ^ Z.of_nat k + t.
Proof.
  induction k as [|k (t & Ht & IH)]; [exists 0; rewrite Nat.add_0_r; lia|].
  exists (t * 256 + f (m + k)%nat). rewrite Nat.add_succ_r. simpl besum.
  rewrite IH, Nat2Z.inj_succ, Z.pow_succ_r by lia. specialize (f_digit (m + k)%nat). lia.
Qed.

Lemma lesum_add m k :
  exists t, lesum f (m + k) = lesum f m + t * 256 ^ Z.of_nat m.
Proof.
  induction k as [|k [t IH]]; [exists 0; rewrite Nat.add_0_r; lia|].
  exists (t + f (m + k)%nat * 256 ^ Z.of_nat k). rewrite Nat.add_succ_r. simpl lesum.
  rewrite IH, Nat2Z.inj_add, Z.pow_add_r by lia. lia.
Qed.

Lemma pow256 n : 256 ^ Z.of_nat n = 2 ^ (8 * Z.of_nat n).
Proof. rewrite Z.pow_mul_r by lia. done. Qed.

(** The low bits do not depend on how many digits are summed. *)
Lemma lesum_mod_add j k m :
  0 <= m <= 8 * Z.of_nat j -> lesum f (j + k) mod 2 ^ m = lesum f j mod 2 ^ m.
Proof.
  intros Hm. destruct (lesum_add j k) as [t ->]. rewrite pow256.
  replace (8 * Z.of_nat j) with ((8 * Z.of_nat j - m) + m) by lia.
  rewrite Z.pow_add_r, Z.mul_assoc by lia. apply Z.mod_add. lia.
Qed.

Lemma lesum_mod j j' m :
  0 <= m <= 8 * Z.of_nat j -> m <= 8 * Z.of_nat j' ->
  lesum f j mod 2 ^ m = lesum f j' mod 2 ^ m.
Proof.
  intros. destruct (Nat.le_ge_cases j j') as [H'|H'].
  - replace j' with (j + (j' - j))%nat by lia. by rewrite lesum_mod_add.
  - replace j with (j' + (j - j'))%nat by lia. by rewrite lesum_mod_add by lia.
Qed.
End Digits.

Lemma besum_ext f g n : (forall i, (i < n)%nat -> f i = g i) -> besum f n = besum g n.
Proof.
  induction n as [|n IH]; intros H; simpl; [done|]. rewrite IH by (intros; apply H; lia).
  by rewrite H by lia.
Qed.
Lemma lesum_ext f g n : (forall i, (i < n)%nat -> f i = g i) -> lesum f n = lesum g n.
Proof.
  induction n as [|n IH]; intros H; simpl; [done|]. rewrite IH by (intros; apply H; lia).
  by rewrite H by lia.
Qed.

(** ** Lemmas on arrays *)

Lemma rd_wr_eq l i v : 0 <= i < len l -> (l.[i <- v]).[i] = v.
Proof.
  intros H. unfold rd, wr, len in *. destruct (Z.ltb_spec i 0); [lia|].
  rewrite nth_lookup, list_lookup_insert_eq by lia. done.
Qed.
Lemma rd_wr_ne l i j v : i <> j -> (l.[i <- v]).[j] = l.[j].
Proof.
  intros H. unfold rd, wr. destruct (Z.ltb_spec i 0), (Z.ltb_spec j 0); try done.
  rewrite !nth_lookup, list_lookup_insert_ne by lia. done.
Qed.
Lemma wr_same l i : l.[i <- l.[i]] = l.
Proof.
  unfold wr, rd. destruct (i <? 0); [done|]. rewrite nth_lookup.
  destruct (l !! Z.to_nat i) eqn:E; simpl; [by apply list_insert_id|].
  apply list_insert_ge. by apply lookup_ge_None.
Qed.
Lemma len_wr l i v : len (l.[i <- v]) = len l.
Proof. unfold wr, len. destruct (_ <? _); [done|]. by rewrite length_insert. Qed.
Lemma bytes_wr l i v : bytes l -> 0 <= v < 256 -> bytes (l.[i <- v]).
Proof. unfold wr, bytes. intros. destruct (_ <? _); [done|]. by apply Forall_insert. Qed.
Lemma bytes_rd l i : bytes l -> 0 <= l.[i] < 256.
Proof.
  intros H. unfold rd. destruct (_ <? _); [lia|]. rewrite nth_lookup.
  destruct (l !! Z.to_nat i) eqn:E; simpl; [|lia].
  by eapply Forall_lookup_1 in H; [|exact E].
Qed.
Lemma rd_Forall (P : Z -> Prop) l i : P 0 -> Forall P l -> P l.[i].
Proof.
  intros H0 H. unfold rd. destruct (_ <? _); [done|]. rewrite nth_lookup.
  destruct (l !! Z.to_nat i) eqn:E; [|done]. exact (Forall_lookup_1 _ _ _ _ H E).
Qed.
Lemma rd_cons_S x l i : 0 <= i -> (x :: l).[1 + i] = l.[i].
Proof.
  intros H. unfold rd. destruct (Z.ltb_spec (1 + i) 0), (Z.ltb_spec i 0); try lia.
  by replace (Z.to_nat (1 + i)) with (S (Z.to_nat i)) by lia.
Qed.
Lemma rd_app_l l1 l2 i : i < len l1 -> (l1 ++ l2).[i] = l1.[i].
Proof.
  unfold rd, len. intros H. destruct (Z.ltb_spec i 0); [done|]. rewrite app_nth1; [done|lia].
Qed.
Lemma rd_app_r l1 l2 i : 0 <= i -> (l1 ++ l2).[len l1 + i] = l2.[i].
Proof.
  unfold rd, len. intros H. destruct (Z.ltb_spec (Z.of_nat (length l1) + i) 0), (Z.ltb_spec i 0); try lia.
  rewrite app_nth2 by lia. f_equal. lia.
Qed.
Lemma len_app {A} (l1 l2 : list A) : len (l1 ++ l2) = len l1 + len l2.
Proof. unfold len. rewrite length_app. lia. Qed.
Lemma rd_out l i : len l <= i -> l.[i] = 0.
Proof.
  intros H. unfold rd, len in *. destruct (_ <? _); [done|]. apply nth_overflow. lia.
Qed.
Lemma rd_imap (f : nat -> Z -> Z) l k :
  0 <= k < len l -> rd (imap f l) k = f (Z.to_nat k) l.[k].
Proof.
  intros H. unfold rd, len in *. destruct (Z.ltb_spec k 0); [lia|].
  rewrite !nth_lookup, list_lookup_imap.
  destruct (lookup_lt_is_Some_2 l (Z.to_nat k)) as [x ->]; [lia|]. done.
Qed.
Lemma rd_take l n k : 0 <= k < Z.of_nat n -> rd (take n l) k = l.[k].
Proof.
  intros H. unfold rd. destruct (Z.ltb_spec k 0); [lia|].
  rewrite !nth_lookup, lookup_take_lt by lia. done.
Qed.
Lemma len_take {A} (l : list A) n : Z.of_nat n <= len l -> len (take n l) = Z.of_nat n.
Proof. intros. unfold len in *. rewrite length_take. lia. Qed.
Lemma bytes_take l n : bytes l -> bytes (take n l).
Proof. apply Forall_take. Qed.
#[export] Hint Resolve bytes_wr bytes_rd bytes_take : opus.
#[export] Hint Rewrite @len_wr : opus.
