(* ===== verification/EntropyInterface.v ===== *)
(** * What an entropy coder promises to the code that uses it

    The C modules that code symbols (PVQ indices, Laplace values, SILK indices
    and pulses) call the entropy coder through the functions of entenc.h and
    entdec.h.  [EntropyCoder] is that interface: the operations under their C
    names, and the relation [sync e d] - the value that [e] encodes is the one that [d] decodes
    at the same point of a packet - with its laws.  The theorems
    about those modules are proved against this class; the range coder is its
    instance (RangeRoundTrip.v). *)

From S2P Require Import Prelude.

(** ** Probability tables

    An inverse cumulative table [icdf] of total 2^ftb: it does not increase and
    ends in 0; symbol [s] has frequency [icdf(s-1) - icdf(s)] with
    [icdf(-1) = 2^ftb]. *)

Fixpoint nonincreasing (hi : Z) (l : list Z) : bool :=
  match l with [] => true | x :: l' => (x <=? hi) && nonincreasing x l' end.

Definition icdf_valid (icdf : list Z) (ftb : Z) : bool :=
  nonincreasing (2 ^ ftb) icdf && (0 <? len icdf) && (icdf.[len icdf - 1] =? 0).

Definition icdf_upper (icdf : list Z) (ftb s : Z) : Z :=
  if s >? 0 then icdf.[s - 1] else 2 ^ ftb.

(** Symbol [s] of the table can be coded: it has a nonzero probability. *)
Definition icdf_codable (icdf : list Z) (ftb s : Z) : bool :=
  (0 <=? s) && (s <? len icdf) && (icdf.[s] <? icdf_upper icdf ftb s).

(** ** Decoding arbitrary data

    [yields inv d P]: from any state of the invariant the decoder [d] returns a
    value with [P] and keeps the invariant. *)
Definition yields {D A : Type} (inv : D -> Prop) (d : D -> A * D) (P : A -> Prop) : Prop :=
  forall s, inv s -> P (d s).1 /\ inv (d s).2.

Class EntropyCoder (E D : Type) := {
  ec_encode : Z -> Z -> Z -> E -> E;
  ec_encode_bin : Z -> Z -> Z -> E -> E;
  ec_enc_bit_logp : bool -> Z -> E -> E;
  ec_enc_icdf : Z -> list Z -> Z -> E -> E;
  ec_enc_icdf16 : Z -> list Z -> Z -> E -> E;
  ec_enc_uint : Z -> Z -> E -> E;
  ec_enc_bits : Z -> Z -> E -> E;
  ec_tell_enc : E -> Z;
  ec_tell_frac_enc : E -> Z;
  ec_storage_enc : E -> Z;

  ec_decode : Z -> D -> Z * D;
  ec_decode_bin : Z -> D -> Z * D;
  ec_dec_update : Z -> Z -> Z -> D -> D;
  ec_dec_bit_logp : Z -> D -> bool * D;
  ec_dec_icdf : list Z -> Z -> D -> Z * D;
  ec_dec_icdf16 : list Z -> Z -> D -> Z * D;
  ec_dec_uint : Z -> D -> Z * D;
  ec_dec_bits : Z -> D -> Z * D;
  ec_tell_dec : D -> Z;
  ec_tell_frac_dec : D -> Z;
  ec_storage_dec : D -> Z;

  (** [sync e d]: an encoder [e] that also returns a value, and a decoder [d]
      that returns the same value when it reads what [e] wrote. *)
  sync : forall {A : Type}, (E -> A * E) -> (D -> A * D) -> Prop;

  sync_ext : forall {A} (e e' : E -> A * E) (d d' : D -> A * D),
    (forall s, e s = e' s) -> (forall s, d s = d' s) -> sync e d -> sync e' d';
  sync_ret : forall {A} (x : A), sync (fun s => (x, s)) (fun s => (x, s));
  (** The encoder may keep more ([X]) than the decoder learns ([f x]). *)
  sync_bind_proj : forall {A B X} (f : X -> A) e1 (e2 : X -> E -> B * E)
      (d1 : D -> A * D) (d2 : A -> D -> B * D),
    sync (fun s => (f (e1 s).1, (e1 s).2)) d1 -> (forall s, sync (e2 (e1 s).1) (d2 (f (e1 s).1))) ->
    sync (fun s => let '(x, s) := e1 s in e2 x s) (fun s => let '(a, s) := d1 s in d2 a s);
  (** An encoder that behaves in every state like one of several encoders for [d]. *)
  sync_pointwise : forall {A} (e : E -> A * E) (d : D -> A * D),
    (forall s, exists e', sync e' d /\ e' s = e s) -> sync e d;
  sync_tell : sync (fun s => (ec_tell_enc s, s)) (fun s => (ec_tell_dec s, s));
  sync_tell_frac : sync (fun s => (ec_tell_frac_enc s, s)) (fun s => (ec_tell_frac_dec s, s));
  tell_frac_nonneg : forall s, 0 <= ec_tell_frac_enc s;
  sync_storage : sync (fun s => (ec_storage_enc s, s)) (fun s => (ec_storage_dec s, s));

  storage_bit_logp : forall logp s, ec_storage_dec (ec_dec_bit_logp logp s).2 = ec_storage_dec s;

  (** A frequency interval [fl, fh) of [ft]: [ec_decode] gives a value in it,
      from which the caller finds the symbol and the interval again. *)
  codes_freq : forall {A} fl fh ft (k : Z -> A * Z * Z) x,
    0 <= fl < fh -> fh <= ft -> ft <= 2 ^ 16 ->
    (forall fs, fl <= fs < fh -> k fs = (x, fl, fh)) ->
    sync (fun s => (x, ec_encode fl fh ft s))
      (fun s => let '(fs, s) := ec_decode ft s in
                let '(a, l, h) := k fs in (a, ec_dec_update l h ft s));
  codes_freq_bin : forall {A} fl fh bits (k : Z -> A * Z * Z) x,
    0 <= bits <= 16 -> 0 <= fl < fh -> fh <= 2 ^ bits ->
    (forall fs, fl <= fs < fh -> k fs = (x, fl, fh)) ->
    sync (fun s => (x, ec_encode_bin fl fh bits s))
      (fun s => let '(fs, s) := ec_decode_bin bits s in
                let '(a, l, h) := k fs in (a, ec_dec_update l h (2 ^ bits) s));
  codes_bit_logp : forall b logp,
    1 <= logp <= 16 -> sync (fun c => (b, ec_enc_bit_logp b logp c)) (ec_dec_bit_logp logp);
  codes_icdf : forall s icdf ftb,
    0 <= ftb <= 16 -> icdf_valid icdf ftb = true -> icdf_codable icdf ftb s = true ->
    sync (fun c => (s, ec_enc_icdf s icdf ftb c)) (ec_dec_icdf icdf ftb);
  codes_icdf16 : forall s icdf ftb,
    0 <= ftb <= 16 -> icdf_valid icdf ftb = true -> icdf_codable icdf ftb s = true ->
    sync (fun c => (s, ec_enc_icdf16 s icdf ftb c)) (ec_dec_icdf16 icdf ftb);
  codes_uint : forall fl ft,
    1 < ft < 2 ^ 32 -> 0 <= fl < ft -> sync (fun c => (fl, ec_enc_uint fl ft c)) (ec_dec_uint ft);
  codes_bits : forall fl bits,
    0 < bits <= 25 -> 0 <= fl < 2 ^ bits -> sync (fun c => (fl, ec_enc_bits fl bits c)) (ec_dec_bits bits);

  (** The states a decoder can be in on any packet, well formed or not, and the
      range of what each primitive then returns. *)
  dec_inv : D -> Prop;
  yields_freq : forall {A} ft (k : Z -> A * Z * Z) (P : A -> Prop),
    0 < ft <= 2 ^ 16 ->
    (forall fs, 0 <= fs < ft -> P (k fs).1.1 /\ 0 <= (k fs).1.2 <= fs /\ fs < (k fs).2 <= ft) ->
    yields dec_inv (fun s => let '(fs, s) := ec_decode ft s in
                             let '(a, l, h) := k fs in (a, ec_dec_update l h ft s)) P;
  yields_freq_bin : forall {A} bits (k : Z -> A * Z * Z) (P : A -> Prop),
    0 <= bits <= 16 ->
    (forall fs, 0 <= fs < 2 ^ bits ->
       P (k fs).1.1 /\ 0 <= (k fs).1.2 <= fs /\ fs < (k fs).2 <= 2 ^ bits) ->
    yields dec_inv (fun s => let '(fs, s) := ec_decode_bin bits s in
                             let '(a, l, h) := k fs in (a, ec_dec_update l h (2 ^ bits) s)) P;
  yields_bit_logp : forall logp, 1 <= logp <= 16 ->
    yields dec_inv (ec_dec_bit_logp logp) (fun _ => True);
  yields_icdf : forall icdf ftb, 0 <= ftb <= 16 -> icdf_valid icdf ftb = true ->
    yields dec_inv (ec_dec_icdf icdf ftb) (fun s =>
      0 <= s < len icdf /\ (icdf.[0] < 2 ^ ftb -> icdf_codable icdf ftb s = true));
  yields_icdf16 : forall icdf ftb, 0 <= ftb <= 16 -> icdf_valid icdf ftb = true ->
    yields dec_inv (ec_dec_icdf16 icdf ftb) (fun s =>
      0 <= s < len icdf /\ (icdf.[0] < 2 ^ ftb -> icdf_codable icdf ftb s = true));
  yields_uint : forall ft, 1 < ft < 2 ^ 32 ->
    yields dec_inv (ec_dec_uint ft) (fun x => 0 <= x < ft);
  yields_bits : forall bits, 0 < bits <= 25 ->
    yields dec_inv (ec_dec_bits bits) (fun x => 0 <= x < 2 ^ bits)
}.

Lemma yields_ret {D A} (inv : D -> Prop) (x : A) (P : A -> Prop) :
  P x -> yields inv (fun s => (x, s)) P.
Proof. intros H s Hs. done. Qed.

Lemma yields_bind {D A B} (inv : D -> Prop) (d1 : D -> A * D) (d2 : A -> D -> B * D) P Q :
  yields inv d1 P -> (forall a, P a -> yields inv (d2 a) Q) ->
  yields inv (fun s => let '(a, s) := d1 s in d2 a s) Q.
Proof.
  intros H1 H2 s Hs. destruct (H1 s Hs) as [HP Hi]. destruct (d1 s) as [a s1].
  exact (H2 a HP s1 Hi).
Qed.

Lemma yields_impl {D A} (inv : D -> Prop) (d : D -> A * D) (P Q : A -> Prop) :
  yields inv d P -> (forall a, P a -> Q a) -> yields inv d Q.
Proof. intros H1 H2 s Hs. destruct (H1 s Hs). auto. Qed.

(** ** Coding a known value

    [codes e d x]: what [e] encodes, [d] decodes to [x]. *)

Definition codes `{EntropyCoder E D} {A} (e : E -> E) (d : D -> A * D) (x : A) : Prop :=
  sync (fun s => (x, e s)) d.

Section Codes.
Context `{EntropyCoder E D}.

Lemma sync_bind {A B} e1 (e2 : A -> E -> B * E) (d1 : D -> A * D) (d2 : A -> D -> B * D) :
  sync e1 d1 -> (forall s, sync (e2 (e1 s).1) (d2 (e1 s).1)) ->
  sync (fun s => let '(a, s) := e1 s in e2 a s) (fun s => let '(a, s) := d1 s in d2 a s).
Proof.
  intros H1 H2. apply (sync_bind_proj (fun a => a) e1 e2 d1 d2); [|done].
  eapply sync_ext; [| |exact H1]; [|done]. intros s. by destruct (e1 s).
Qed.

Lemma codes_ext {A} e e' (d d' : D -> A * D) x :
  (forall s, e s = e' s) -> (forall s, d s = d' s) -> codes e d x -> codes e' d' x.
Proof. intros He Hd. apply sync_ext; [|done]. intros s. by rewrite He. Qed.

Lemma codes_ret {A} (x : A) : codes (fun s => s) (fun s => (x, s)) x.
Proof. apply sync_ret. Qed.

Lemma codes_bind {A B} e1 e2 (d1 : D -> A * D) (d2 : A -> D -> B * D) x y :
  codes e1 d1 x -> codes e2 (d2 x) y ->
  codes (fun s => e2 (e1 s)) (fun s => let '(a, s) := d1 s in d2 a s) y.
Proof.
  intros H1 H2.
  exact (sync_bind (fun s => (x, e1 s)) (fun _ s => (y, e2 s)) d1 d2 H1 (fun _ => H2)).
Qed.

(** A value coded first, then a part that may use it. *)
Lemma codes_then {A B} e1 (d1 : D -> A * D) x (e2 : E -> B * E) d2 :
  codes e1 d1 x -> sync e2 (d2 x) ->
  sync (fun s => e2 (e1 s)) (fun s => let '(a, s) := d1 s in d2 a s).
Proof.
  intros H1 H2. exact (sync_bind (fun s => (x, e1 s)) (fun _ s => e2 s) d1 d2 H1 (fun _ => H2)).
Qed.

(** Both sides may use the number of bits so far. *)
Lemma sync_with_tell {A} (e : Z -> E -> A * E) (d : Z -> D -> A * D) :
  (forall t, sync (e t) (d t)) ->
  sync (fun s => e (ec_tell_enc s) s) (fun s => d (ec_tell_dec s) s).
Proof.
  intros Ht. exact (sync_bind (fun s => (ec_tell_enc s, s)) e (fun s => (ec_tell_dec s, s)) d
                      sync_tell (fun _ => Ht _)).
Qed.

Lemma sync_with_tell_frac {A} (e : Z -> E -> A * E) (d : Z -> D -> A * D) :
  (forall t, sync (e t) (d t)) ->
  sync (fun s => e (ec_tell_frac_enc s) s) (fun s => d (ec_tell_frac_dec s) s).
Proof.
  intros Ht. exact (sync_bind (fun s => (ec_tell_frac_enc s, s)) e (fun s => (ec_tell_frac_dec s, s)) d
                      sync_tell_frac (fun _ => Ht _)).
Qed.

Lemma sync_with_storage {A} (e : Z -> E -> A * E) (d : Z -> D -> A * D) :
  (forall n, sync (e n) (d n)) ->
  sync (fun s => e (ec_storage_enc s) s) (fun s => d (ec_storage_dec s) s).
Proof.
  intros Hn. exact (sync_bind (fun s => (ec_storage_enc s, s)) e (fun s => (ec_storage_dec s, s)) d
                      sync_storage (fun _ => Hn _)).
Qed.

Lemma codes_tell {A} (e : Z -> E -> E) (d : Z -> D -> A * D) x :
  (forall t, codes (e t) (d t) x) ->
  codes (fun s => e (ec_tell_enc s) s) (fun s => d (ec_tell_dec s) s) x.
Proof. apply (sync_with_tell (fun t s => (x, e t s))). Qed.
End Codes.

(** ** Facts about tables *)

Lemma nonincreasing_le hi l i j :
  nonincreasing hi l = true -> 0 <= i <= j -> j < len l -> l.[j] <= l.[i] <= hi.
Proof.
  revert hi i j. induction l as [|x l IH]; intros hi i j; unfold len; simpl; [lia|].
  intros [H1 H2]%andb_true_iff Hij Hj. apply Z.leb_le in H1.
  assert (forall k, 0 < k -> rd (x :: l) k = l.[k - 1]) as Hs.
  { intros k Hk. unfold rd. destruct (Z.ltb_spec k 0), (Z.ltb_spec (k - 1) 0); try lia.
    by replace (Z.to_nat k) with (S (Z.to_nat (k - 1))) by lia. }
  assert (forall k, 0 < k < len (x :: l) -> rd (x :: l) k <= x) as Hx.
  { intros k Hk. unfold len in Hk. simpl in Hk. rewrite Hs by lia.
    apply (IH x (k - 1) (k - 1)); unfold len; try done; lia. }
  unfold len in *. simpl in *.
  destruct (decide (i = 0)) as [->|].
  - change (rd (x :: l) 0) with x. split; [|done].
    destruct (decide (j = 0)) as [->|]; [done|]. apply Hx. lia.
  - rewrite !Hs by lia. destruct (IH x (i - 1) (j - 1) H2 ltac:(lia) ltac:(lia)). lia.
Qed.

Lemma icdf_nonneg icdf ftb i :
  icdf_valid icdf ftb = true -> 0 <= i < len icdf -> 0 <= icdf.[i] <= 2 ^ ftb.
Proof.
  unfold icdf_valid. intros [[H1 H2]%andb_true_iff H3]%andb_true_iff Hi.
  apply Z.eqb_eq in H3. pose proof (nonincreasing_le _ _ i (len icdf - 1) H1). lia.
Qed.

Lemma icdf_below icdf ftb s i :
  icdf_valid icdf ftb = true -> 0 <= i < s -> s < len icdf ->
  icdf_upper icdf ftb s <= icdf.[i].
Proof.
  unfold icdf_valid. intros [[H1 H2]%andb_true_iff H3]%andb_true_iff Hi Hs.
  unfold icdf_upper. destruct (Z.gtb_spec s 0); [|lia].
  pose proof (nonincreasing_le _ _ i (s - 1) H1). lia.
Qed.
