(* ===== verification/EntropySeq.v ===== *)
(** * Sequences of coded symbols

    Encoders that only write and decoders that return what they read, put
    together the way the C functions call them one after the other; the rules
    that carry [codes] and [yields] through a sequence. *)

From S2P Require Import Prelude EntropyInterface.

Definition enc_skip {E : Type} : E -> E := fun s => s.
Definition enc_seq {E : Type} (e1 e2 : E -> E) : E -> E := fun s => e2 (e1 s).
Definition dec_ret {D A : Type} (x : A) : D -> A * D := fun s => (x, s).
Definition dec_bind {D A B : Type} (d : D -> A * D) (k : A -> D -> B * D) : D -> B * D :=
  fun s => let '(a, s) := d s in k a s.

(** A value read off the state, such as the position. *)
Definition read {S A : Type} (f : S -> A) : S -> A * S := fun s => (f s, s).

(** A symbol written for the value [x]. *)
Definition emit {S A : Type} (x : A) (e : S -> S) : S -> A * S := fun s => (x, e s).

Declare Scope coder_scope.
Delimit Scope coder_scope with coder.
Notation "e1 >>> e2" := (enc_seq e1 e2) (at level 62, right associativity) : coder_scope.
Notation "x <~ d ; k" := (dec_bind d (fun x => k))
  (at level 20, d at level 100, k at level 200, only parsing) : coder_scope.
Notation "' p <~ d ; k" := (dec_bind d (fun x => let 'p := x in k))
  (at level 20, p pattern, d at level 100, k at level 200, only parsing) : coder_scope.
#[global] Open Scope coder_scope.

(** [for (i=0;i<n;i++) f(i)] over the elements of a list. *)
Fixpoint enc_all {E X : Type} (f : X -> E -> E) (l : list X) : E -> E :=
  match l with [] => enc_skip | x :: l => f x >>> enc_all f l end.
Fixpoint dec_all {D X A : Type} (f : X -> D -> A * D) (l : list X) : D -> list A * D :=
  match l with
  | [] => dec_ret []
  | x :: l => a <~ f x; r <~ dec_all f l; dec_ret (a :: r)
  end.

Section Codes.
Context `{EntropyCoder E D}.

Lemma codes_skip {A} (x : A) : codes enc_skip (dec_ret x) x.
Proof. exact (codes_ret x). Qed.

Lemma codes_seq {A B} e1 e2 (d1 : D -> A * D) (d2 : A -> D -> B * D) x y :
  codes e1 d1 x -> codes e2 (d2 x) y -> codes (e1 >>> e2) (dec_bind d1 d2) y.
Proof. exact (codes_bind e1 e2 d1 d2 x y). Qed.

(** The last symbol, with what the decoder makes of it. *)
Lemma codes_last {A B} e (d : D -> A * D) (k : A -> D -> B * D) x y :
  codes e d x -> codes enc_skip (k x) y -> codes e (dec_bind d k) y.
Proof.
  intros H1 H2. apply (codes_ext (e >>> enc_skip) _ (dec_bind d k)); [done..|].
  by eapply codes_seq; [exact H1|].
Qed.

Lemma codes_map {A B} e (d : D -> A * D) (f : A -> B) x y :
  codes e d x -> f x = y -> codes e (dec_bind d (fun a => dec_ret (f a))) y.
Proof. intros H1 <-. eapply codes_last; [exact H1|apply codes_skip]. Qed.

(** A loop: round [e w] of the encoder is read by round [h w] of the decoder as [r w]. *)
Lemma codes_each_map {W X Y A} (f : X -> E -> E) (g : Y -> D -> A * D) (e : W -> X) (h : W -> Y)
    (r : W -> A) ws :
  (forall w, In w ws -> codes (f (e w)) (g (h w)) (r w)) ->
  codes (enc_all f (map e ws)) (dec_all g (map h ws)) (map r ws).
Proof.
  intros Hf. induction ws as [|w ws IH]; [apply codes_skip|]. cbn [enc_all dec_all map].
  eapply codes_seq; [apply Hf; by left|]. eapply (codes_map _ _ (fun l => r w :: l)); [|done].
  apply IH. intros v Hv. apply Hf. by right.
Qed.

Lemma codes_each {X Y A} (f : X -> E -> E) (g : Y -> D -> A * D) (h : X -> Y) (r : X -> A) xs :
  (forall x, In x xs -> codes (f x) (g (h x)) (r x)) ->
  codes (enc_all f xs) (dec_all g (map h xs)) (map r xs).
Proof. intros Hf. rewrite <- (map_id xs) at 1. by apply codes_each_map. Qed.

(** A decoder that runs the same code in every round. *)
Lemma codes_times {X A} (f : X -> E -> E) (d : D -> A * D) (r : X -> A) xs : forall i,
  (forall x, In x xs -> codes (f x) d (r x)) ->
  codes (enc_all f xs) (dec_all (fun _ => d) (seq i (length xs))) (map r xs).
Proof.
  induction xs as [|x xs IH]; intros i Hf; [apply codes_skip|]. cbn [enc_all dec_all map length seq].
  eapply codes_seq; [apply Hf; by left|]. eapply (codes_map _ _ (fun l => r x :: l)); [|done].
  apply IH. intros y Hy. apply Hf. by right.
Qed.

Lemma yields_seq {A B} inv (d1 : D -> A * D) (d2 : A -> D -> B * D) P Q :
  yields inv d1 P -> (forall a, P a -> yields inv (d2 a) Q) -> yields inv (dec_bind d1 d2) Q.
Proof. exact (yields_bind inv d1 d2 P Q). Qed.

Lemma yields_done {A} inv (x : A) (P : A -> Prop) : P x -> yields inv (dec_ret (D := D) x) P.
Proof. exact (yields_ret inv x P). Qed.

Lemma yields_each {X A} inv (g : X -> D -> A * D) xs (P : A -> Prop) :
  (forall x, In x xs -> yields inv (g x) P) ->
  yields inv (dec_all g xs) (fun l => length l = length xs /\ Forall P l).
Proof.
  intros Hg. induction xs as [|x xs IH]; [by apply yields_done|]. cbn [dec_all].
  eapply yields_seq; [apply Hg; by left|]. intros a Ha.
  eapply yields_seq; [apply IH; intros y Hy; apply Hg; by right|]. intros r [Hl Hr].
  apply yields_done. split; [cbn [length]; by rewrite Hl|by constructor].
Qed.

(** ** Encoders that return more than the decoder learns *)

Definition view {X A : Type} (f : X -> A) (e : E -> X * E) : E -> A * E := fun s => (f (e s).1, (e s).2).

Lemma sync_view {A} (e : E -> A * E) (d : D -> A * D) : sync e d -> sync (view (fun x => x) e) d.
Proof. apply sync_ext; [|done]. intros s. unfold view. by destruct (e s). Qed.

Lemma sync_view_ret {A X} (f : X -> A) x : sync (view f (dec_ret x)) (dec_ret (f x)).
Proof. exact (sync_ret (f x)). Qed.

Lemma sync_view_bind {A B X Y} (f : X -> A) (g : Y -> B) e1 (e2 : X -> E -> Y * E)
    (d1 : D -> A * D) (d2 : A -> D -> B * D) :
  sync (view f e1) d1 -> (forall s, sync (view g (e2 (e1 s).1)) (d2 (f (e1 s).1))) ->
  sync (view g (dec_bind e1 e2)) (dec_bind d1 d2).
Proof.
  intros H1 H2. eapply sync_ext; [| |exact (sync_bind_proj f e1 (fun x => view g (e2 x)) d1 d2 H1 H2)]; [|done].
  intros s. unfold view, dec_bind. by destruct (e1 s).
Qed.

Lemma sync_bind_view {A B X} (f : X -> A) e1 (e2 : X -> E -> B * E) (d1 : D -> A * D) (d2 : A -> D -> B * D) :
  sync (view f e1) d1 -> (forall s, sync (e2 (e1 s).1) (d2 (f (e1 s).1))) ->
  sync (dec_bind e1 e2) (dec_bind d1 d2).
Proof. exact (sync_bind_proj f e1 e2 d1 d2). Qed.

Lemma sync_seq {A B} e1 (e2 : A -> E -> B * E) (d1 : D -> A * D) (d2 : A -> D -> B * D) :
  sync e1 d1 -> (forall s, sync (e2 (e1 s).1) (d2 (e1 s).1)) -> sync (dec_bind e1 e2) (dec_bind d1 d2).
Proof. exact (sync_bind e1 e2 d1 d2). Qed.

(** A written value, then a part that knows it. *)
Lemma sync_emit {A B} (x : A) e1 (d1 : D -> A * D) (e2 : A -> E -> B * E) (d2 : A -> D -> B * D) :
  codes e1 d1 x -> sync (e2 x) (d2 x) -> sync (dec_bind (emit x e1) e2) (dec_bind d1 d2).
Proof. intros H1 H2. exact (sync_bind (emit x e1) e2 d1 d2 H1 (fun _ => H2)). Qed.

Lemma sync_done {A} (x : A) : sync (dec_ret x) (dec_ret x).
Proof. exact (sync_ret x). Qed.

(** ** Tables all of whose symbols have a probability *)

Definition table_ok (t : list Z) : bool :=
  icdf_valid t 8 && zforall (length t) 0 (icdf_codable t 8).

Lemma codes_table t s :
  table_ok t = true -> 0 <= s < len t -> codes (ec_enc_icdf s t 8) (ec_dec_icdf t 8) s.
Proof.
  intros [Hv Hc]%andb_true_iff Hs. apply codes_icdf; [lia|done|].
  apply (zforall_spec _ _ _ _ Hc). unfold len in Hs. lia.
Qed.

Lemma yields_table t :
  table_ok t = true -> yields dec_inv (ec_dec_icdf t 8) (fun s => 0 <= s < len t).
Proof.
  intros [Hv _]%andb_true_iff. eapply yields_impl; [by apply yields_icdf|]. cbv beta. tauto.
Qed.
End Codes.
