(* ===== verification/RangeCoder.v ===== *)
(** * The entropy coder context, encoder and decoder (celt/entcode, entenc, entdec)

    The state [ec_ctx] is the C [struct ec_ctx]; every function of [entcode.c],
    [entenc.c] and [entdec.c] is a function on it.  Values of C type
    [opus_uint32] are kept reduced modulo 2^32 at every store ([u32]). *)

From S2P Require Import Prelude.

(** ** Constants of celt/mfrngcod.h and celt/entcode.h *)

Definition EC_SYM_BITS : Z := 8.
Definition EC_CODE_BITS : Z := 32.
Definition EC_SYM_MAX : Z := 255.
Definition EC_CODE_SHIFT : Z := EC_CODE_BITS - EC_SYM_BITS - 1.
Definition EC_CODE_TOP : Z := Z.shiftl 1 (EC_CODE_BITS - 1).
Definition EC_CODE_BOT : Z := Z.shiftr EC_CODE_TOP EC_SYM_BITS.
Definition EC_CODE_EXTRA : Z := (EC_CODE_BITS - 2) mod EC_SYM_BITS + 1.
Definition EC_WINDOW_SIZE : Z := 32.
Definition EC_UINT_BITS : Z := 8.
Definition BITRES : Z := 3.

(** ** The context *)

Record ec_ctx := Mk_ec_ctx {
  buf : list Z;
  storage : Z;
  end_offs : Z;
  end_window : Z;
  nend_bits : Z;
  nbits_total : Z;
  offs : Z;
  rng : Z;
  val : Z;
  ext : Z;
  rem : Z;
  error : Z
}.

Definition set_buf (v : list Z) (c : ec_ctx) : ec_ctx :=
  Mk_ec_ctx v c.(storage) c.(end_offs) c.(end_window) c.(nend_bits) c.(nbits_total) c.(offs) c.(rng) c.(val) c.(ext) c.(rem) c.(error).
Definition set_storage (v : Z) (c : ec_ctx) : ec_ctx :=
  Mk_ec_ctx c.(buf) v c.(end_offs) c.(end_window) c.(nend_bits) c.(nbits_total) c.(offs) c.(rng) c.(val) c.(ext) c.(rem) c.(error).
Definition set_end_offs (v : Z) (c : ec_ctx) : ec_ctx :=
  Mk_ec_ctx c.(buf) c.(storage) v c.(end_window) c.(nend_bits) c.(nbits_total) c.(offs) c.(rng) c.(val) c.(ext) c.(rem) c.(error).
Definition set_end_window (v : Z) (c : ec_ctx) : ec_ctx :=
  Mk_ec_ctx c.(buf) c.(storage) c.(end_offs) v c.(nend_bits) c.(nbits_total) c.(offs) c.(rng) c.(val) c.(ext) c.(rem) c.(error).
Definition set_nend_bits (v : Z) (c : ec_ctx) : ec_ctx :=
  Mk_ec_ctx c.(buf) c.(storage) c.(end_offs) c.(end_window) v c.(nbits_total) c.(offs) c.(rng) c.(val) c.(ext) c.(rem) c.(error).
Definition set_nbits_total (v : Z) (c : ec_ctx) : ec_ctx :=
  Mk_ec_ctx c.(buf) c.(storage) c.(end_offs) c.(end_window) c.(nend_bits) v c.(offs) c.(rng) c.(val) c.(ext) c.(rem) c.(error).
Definition set_offs (v : Z) (c : ec_ctx) : ec_ctx :=
  Mk_ec_ctx c.(buf) c.(storage) c.(end_offs) c.(end_window) c.(nend_bits) c.(nbits_total) v c.(rng) c.(val) c.(ext) c.(rem) c.(error).
Definition set_rng (v : Z) (c : ec_ctx) : ec_ctx :=
  Mk_ec_ctx c.(buf) c.(storage) c.(end_offs) c.(end_window) c.(nend_bits) c.(nbits_total) c.(offs) v c.(val) c.(ext) c.(rem) c.(error).
Definition set_val (v : Z) (c : ec_ctx) : ec_ctx :=
  Mk_ec_ctx c.(buf) c.(storage) c.(end_offs) c.(end_window) c.(nend_bits) c.(nbits_total) c.(offs) c.(rng) v c.(ext) c.(rem) c.(error).
Definition set_ext (v : Z) (c : ec_ctx) : ec_ctx :=
  Mk_ec_ctx c.(buf) c.(storage) c.(end_offs) c.(end_window) c.(nend_bits) c.(nbits_total) c.(offs) c.(rng) c.(val) v c.(rem) c.(error).
Definition set_rem (v : Z) (c : ec_ctx) : ec_ctx :=
  Mk_ec_ctx c.(buf) c.(storage) c.(end_offs) c.(end_window) c.(nend_bits) c.(nbits_total) c.(offs) c.(rng) c.(val) c.(ext) v c.(error).
Definition set_error (v : Z) (c : ec_ctx) : ec_ctx :=
  Mk_ec_ctx c.(buf) c.(storage) c.(end_offs) c.(end_window) c.(nend_bits) c.(nbits_total) c.(offs) c.(rng) c.(val) c.(ext) c.(rem) v.

(** ** celt/ecintrin.h *)

(** [EC_MINI] on unsigned operands. *)
Definition EC_MINI (a b : Z) : Z := u32 (a + Z.land (u32 (b - a)) (u32 (- b2z (b <? a)))).

(** ** celt/entcode.c *)

(** The branch-free logarithm: 0 on 0, else one more than the position of the
    top bit.  [EC_ILOG] is this function or the processor's count of leading
    zeros. *)
Definition ec_ilog (v : Z) : Z :=
  let ret := b2z (negb (v =? 0)) in
  let m := Z.shiftl (b2z (negb (Z.land v 0xFFFF0000 =? 0))) 4 in
  let v := Z.shiftr v m in
  let ret := Z.lor ret m in
  let m := Z.shiftl (b2z (negb (Z.land v 0xFF00 =? 0))) 3 in
  let v := Z.shiftr v m in
  let ret := Z.lor ret m in
  let m := Z.shiftl (b2z (negb (Z.land v 0xF0 =? 0))) 2 in
  let v := Z.shiftr v m in
  let ret := Z.lor ret m in
  let m := Z.shiftl (b2z (negb (Z.land v 0xC =? 0))) 1 in
  let v := Z.shiftr v m in
  let ret := Z.lor ret m in
  ret + b2z (negb (Z.land v 0x2 =? 0)).
Definition EC_ILOG (v : Z) : Z := ec_ilog v.

Definition ec_range_bytes (c : ec_ctx) : Z := c.(offs).
Definition ec_get_error (c : ec_ctx) : Z := c.(error).

Definition ec_tell (c : ec_ctx) : Z := c.(nbits_total) - EC_ILOG c.(rng).

Definition correction : list Z :=
  [35733; 38967; 42495; 46340; 50535; 55109; 60097; 65535].

Definition ec_tell_frac (c : ec_ctx) : Z :=
  let nbits := u32 (Z.shiftl c.(nbits_total) BITRES) in
  let l := EC_ILOG c.(rng) in
  let r := Z.shiftr c.(rng) (l - 16) in
  let b := Z.shiftr r 12 - 8 in
  let b := b + b2z (r >? correction.[b]) in
  let l := Z.shiftl l 3 + b in
  u32 (nbits - l).

(** The loop form of [ec_tell_frac] that the source keeps for reference. *)
Definition ec_tell_frac_loop (c : ec_ctx) : Z :=
  let nbits := u32 (Z.shiftl c.(nbits_total) BITRES) in
  let l := EC_ILOG c.(rng) in
  let r := Z.shiftr c.(rng) (l - 16) in
  let step '(l, r) :=
    let r := Z.shiftr (u32 (r * r)) 15 in
    let b := Z.shiftr r 16 in
    (Z.lor (Z.shiftl l 1) b, Z.shiftr r b) in
  let '(l, r) := step (step (step (l, r))) in
  u32 (nbits - l).

Definition celt_udiv (n d : Z) : Z := n / d.
Definition IMUL32 (a b : Z) : Z := u32 (a * b).

(** ** The range encoder, celt/entenc.c *)

Definition ec_write_byte (c : ec_ctx) (value : Z) : ec_ctx * Z :=
  if u32 (c.(offs) + c.(end_offs)) >=? c.(storage) then (c, -1)
  else (set_offs (u32 (c.(offs) + 1)) (set_buf c.(buf).[c.(offs) <- u8 value] c), 0).

Definition ec_write_byte_at_end (c : ec_ctx) (value : Z) : ec_ctx * Z :=
  if u32 (c.(offs) + c.(end_offs)) >=? c.(storage) then (c, -1)
  else
    let c := set_end_offs (u32 (c.(end_offs) + 1)) c in
    (set_buf c.(buf).[u32 (c.(storage) - c.(end_offs)) <- u8 value] c, 0).

(** [this->error |= ec_write_byte(this, value)] *)
Definition write_or_error (w : ec_ctx * Z) : ec_ctx :=
  set_error (Z.lor w.1.(error) w.2) w.1.

(** The [do ... while (--ext > 0)] loop of [ec_enc_carry_out]; [n] is [ext]. *)
Fixpoint carry_out_syms (n : nat) (sym : Z) (c : ec_ctx) : ec_ctx :=
  match n with
  | O => c
  | S n' =>
      let c := write_or_error (ec_write_byte c sym) in
      carry_out_syms n' sym (set_ext (u32 (c.(ext) - 1)) c)
  end.

Definition ec_enc_carry_out (c : ec_ctx) (_c : Z) : ec_ctx :=
  if negb (_c =? EC_SYM_MAX) then
    let carry := Z.shiftr _c EC_SYM_BITS in
    let c := if c.(rem) >=? 0 then write_or_error (ec_write_byte c (c.(rem) + carry)) else c in
    let c := if c.(ext) >? 0 then
               carry_out_syms (Z.to_nat c.(ext)) (Z.land (EC_SYM_MAX + carry) EC_SYM_MAX) c
             else c in
    set_rem (Z.land _c EC_SYM_MAX) c
  else set_ext (u32 (c.(ext) + 1)) c.

Definition enc_normalize_step (c : ec_ctx) : ec_ctx :=
  let c := ec_enc_carry_out c (Z.shiftr c.(val) EC_CODE_SHIFT) in
  let c := set_val (Z.land (u32 (Z.shiftl c.(val) EC_SYM_BITS)) (EC_CODE_TOP - 1)) c in
  let c := set_rng (u32 (Z.shiftl c.(rng) EC_SYM_BITS)) c in
  set_nbits_total (c.(nbits_total) + EC_SYM_BITS) c.

(** Three rounds raise any nonzero range above [EC_CODE_BOT]. *)
Definition ec_enc_normalize (c : ec_ctx) : ec_ctx :=
  while_fuel 4 (fun c => c.(rng) <=? EC_CODE_BOT) enc_normalize_step c.

Definition ec_enc_init (_buf : list Z) (_size : Z) : ec_ctx :=
  {| buf := _buf; end_offs := 0; end_window := 0; nend_bits := 0;
     nbits_total := EC_CODE_BITS + 1; offs := 0; rng := EC_CODE_TOP; rem := -1;
     val := 0; ext := 0; storage := _size; error := 0 |}.

Definition ec_encode (_fl _fh _ft : Z) (c : ec_ctx) : ec_ctx :=
  let r := celt_udiv c.(rng) _ft in
  let c :=
    if _fl >? 0 then
      let c := set_val (u32 (c.(val) + (c.(rng) - IMUL32 r (_ft - _fl)))) c in
      set_rng (IMUL32 r (_fh - _fl)) c
    else set_rng (u32 (c.(rng) - IMUL32 r (_ft - _fh))) c in
  ec_enc_normalize c.

Definition ec_encode_bin (_fl _fh _bits : Z) (c : ec_ctx) : ec_ctx :=
  let r := Z.shiftr c.(rng) _bits in
  let c :=
    if _fl >? 0 then
      let c := set_val (u32 (c.(val) + (c.(rng) - IMUL32 r (u32 (Z.shiftl 1 _bits) - _fl)))) c in
      set_rng (IMUL32 r (_fh - _fl)) c
    else set_rng (u32 (c.(rng) - IMUL32 r (u32 (Z.shiftl 1 _bits) - _fh))) c in
  ec_enc_normalize c.

Definition ec_enc_bit_logp (_val : bool) (_logp : Z) (c : ec_ctx) : ec_ctx :=
  let r := c.(rng) in
  let l := c.(val) in
  let s := Z.shiftr r _logp in
  let r := u32 (r - s) in
  let c := if _val then set_val (u32 (l + r)) c else c in
  ec_enc_normalize (set_rng (if _val then s else r) c).

Definition ec_enc_icdf (_s : Z) (_icdf : list Z) (_ftb : Z) (c : ec_ctx) : ec_ctx :=
  let r := Z.shiftr c.(rng) _ftb in
  let c :=
    if _s >? 0 then
      let c := set_val (u32 (c.(val) + (c.(rng) - IMUL32 r _icdf.[_s - 1]))) c in
      set_rng (IMUL32 r (_icdf.[_s - 1] - _icdf.[_s])) c
    else set_rng (u32 (c.(rng) - IMUL32 r _icdf.[_s])) c in
  ec_enc_normalize c.

(** The 16-bit table variant has the same body. *)
Definition ec_enc_icdf16 (_s : Z) (_icdf : list Z) (_ftb : Z) (c : ec_ctx) : ec_ctx :=
  let r := Z.shiftr c.(rng) _ftb in
  let c :=
    if _s >? 0 then
      let c := set_val (u32 (c.(val) + (c.(rng) - IMUL32 r _icdf.[_s - 1]))) c in
      set_rng (IMUL32 r (_icdf.[_s - 1] - _icdf.[_s])) c
    else set_rng (u32 (c.(rng) - IMUL32 r _icdf.[_s])) c in
  ec_enc_normalize c.

(** The flushing loop [do ... while (used >= EC_SYM_BITS)] of [ec_enc_bits] and
    [ec_enc_done]: the state is (context, window, used). *)
Definition enc_flush_step (t : ec_ctx * Z * Z) : ec_ctx * Z * Z :=
  let '(c, window, used) := t in
  (write_or_error (ec_write_byte_at_end c (Z.land window EC_SYM_MAX)),
   Z.shiftr window EC_SYM_BITS, used - EC_SYM_BITS).

Definition enc_flush_more (t : ec_ctx * Z * Z) : bool := t.2 >=? EC_SYM_BITS.

(** [used] is at most 32, so at most four bytes are flushed. *)
Definition ec_enc_bits (_fl _bits : Z) (c : ec_ctx) : ec_ctx :=
  let window := c.(end_window) in
  let used := c.(nend_bits) in
  let '(c, window, used) :=
    if used + _bits >? EC_WINDOW_SIZE then
      while_fuel 4 enc_flush_more enc_flush_step (enc_flush_step (c, window, used))
    else (c, window, used) in
  let window := Z.lor window (u32 (Z.shiftl _fl used)) in
  let used := used + _bits in
  set_nbits_total (c.(nbits_total) + _bits) (set_nend_bits used (set_end_window window c)).

Definition ec_enc_uint (_fl _ft : Z) (c : ec_ctx) : ec_ctx :=
  let _ft := u32 (_ft - 1) in
  let ftb := EC_ILOG _ft in
  if ftb >? EC_UINT_BITS then
    let ftb := ftb - EC_UINT_BITS in
    let ft := Z.shiftr _ft ftb + 1 in
    let fl := Z.shiftr _fl ftb in
    let c := ec_encode fl (fl + 1) ft c in
    ec_enc_bits (Z.land _fl (u32 (Z.shiftl 1 ftb) - 1)) ftb c
  else ec_encode _fl (_fl + 1) (_ft + 1) c.

Definition ec_enc_patch_initial_bits (_val _nbits : Z) (c : ec_ctx) : ec_ctx :=
  let shift := EC_SYM_BITS - _nbits in
  let mask := Z.shiftl (Z.shiftl 1 _nbits - 1) shift in
  if c.(offs) >? 0 then
    set_buf c.(buf).[0 <- u8 (Z.lor (Z.ldiff c.(buf).[0] mask) (Z.shiftl _val shift))] c
  else if c.(rem) >=? 0 then
    set_rem (Z.lor (Z.ldiff c.(rem) mask) (Z.shiftl _val shift)) c
  else if c.(rng) <=? Z.shiftr EC_CODE_TOP _nbits then
    set_val (Z.lor (Z.ldiff c.(val) (u32 (Z.shiftl mask EC_CODE_SHIFT)))
               (u32 (Z.shiftl _val (EC_CODE_SHIFT + shift)))) c
  else set_error (-1) c.

(** [OPUS_MOVE] inside one buffer: [n] bytes from [src] to [dst]. *)
Definition opus_move (b : list Z) (dst src n : Z) : list Z :=
  imap (fun i x => let i := Z.of_nat i in
                   if (dst <=? i) && (i <? dst + n) then b.[i - dst + src] else x) b.

Definition ec_enc_shrink (_size : Z) (c : ec_ctx) : ec_ctx :=
  let c := set_buf (opus_move c.(buf) (_size - c.(end_offs)) (c.(storage) - c.(end_offs))
                      c.(end_offs)) c in
  set_storage _size c.

(** [OPUS_CLEAR] of [n] bytes from index [i]. *)
Definition opus_clear (b : list Z) (i n : Z) : list Z :=
  imap (fun k x => let k := Z.of_nat k in
                   if (i <=? k) && (k <? i + n) then 0 else x) b.

(** The [while (l > 0)] loop of [ec_enc_done]: (context, end, l). *)
Definition enc_done_step (t : ec_ctx * Z * Z) : ec_ctx * Z * Z :=
  let '(c, e, l) := t in
  (ec_enc_carry_out c (Z.shiftr e EC_CODE_SHIFT),
   Z.land (u32 (Z.shiftl e EC_SYM_BITS)) (EC_CODE_TOP - 1), l - EC_SYM_BITS).
Definition enc_done_more (t : ec_ctx * Z * Z) : bool := t.2 >? 0.

(** The choice of the final code value: (end, l). *)
Definition enc_done_end (c : ec_ctx) : Z * Z :=
  let l := EC_CODE_BITS - EC_ILOG c.(rng) in
  let msk := Z.shiftr (EC_CODE_TOP - 1) l in
  let e := Z.ldiff (u32 (c.(val) + msk)) msk in
  if Z.lor e msk >=? u32 (c.(val) + c.(rng)) then
    let l := l + 1 in
    let msk := Z.shiftr msk 1 in
    (Z.ldiff (u32 (c.(val) + msk)) msk, l)
  else (e, l).

(** The end of [ec_enc_done]: clear the unused space and put the last raw bits
    into the free part of a byte. *)
Definition enc_done_tail (c : ec_ctx) (window used l : Z) : ec_ctx :=
  if c.(error) =? 0 then
    let c := set_buf (opus_clear c.(buf) c.(offs) (c.(storage) - c.(offs) - c.(end_offs))) c in
    if used >? 0 then
      if c.(end_offs) >=? c.(storage) then set_error (-1) c
      else
        let l := - l in
        let '(c, window) :=
          if (u32 (c.(offs) + c.(end_offs)) >=? c.(storage)) && (l <? used) then
            (set_error (-1) c, Z.land window (Z.shiftl 1 l - 1))
          else (c, window) in
        let p := c.(storage) - c.(end_offs) - 1 in
        set_buf c.(buf).[p <- Z.lor c.(buf).[p] (u8 window)] c
    else c
  else c.

Definition ec_enc_done (c : ec_ctx) : ec_ctx :=
  let '(e, l) := enc_done_end c in
  let '(c, e, l) := while_fuel 2 enc_done_more enc_done_step (c, e, l) in
  let c := if (c.(rem) >=? 0) || (c.(ext) >? 0) then ec_enc_carry_out c 0 else c in
  let '(c, window, used) :=
    while_fuel 4 enc_flush_more enc_flush_step (c, c.(end_window), c.(nend_bits)) in
  enc_done_tail c window used l.

(** ** The range decoder, celt/entdec.c

    A decoder call returns the C result and the new context. *)

Definition ec_read_byte (c : ec_ctx) : Z * ec_ctx :=
  if c.(offs) <? c.(storage) then (c.(buf).[c.(offs)], set_offs (c.(offs) + 1) c)
  else (0, c).

Definition ec_read_byte_from_end (c : ec_ctx) : Z * ec_ctx :=
  if c.(end_offs) <? c.(storage) then
    let c := set_end_offs (c.(end_offs) + 1) c in
    (c.(buf).[c.(storage) - c.(end_offs)], c)
  else (0, c).

Definition dec_normalize_step (c : ec_ctx) : ec_ctx :=
  let c := set_nbits_total (c.(nbits_total) + EC_SYM_BITS) c in
  let c := set_rng (u32 (Z.shiftl c.(rng) EC_SYM_BITS)) c in
  let sym := c.(rem) in
  let '(b, c) := ec_read_byte c in
  let c := set_rem b c in
  let sym := Z.shiftr (Z.lor (Z.shiftl sym EC_SYM_BITS) c.(rem)) (EC_SYM_BITS - EC_CODE_EXTRA) in
  set_val (Z.land (u32 (u32 (Z.shiftl c.(val) EC_SYM_BITS) + Z.ldiff EC_SYM_MAX sym))
             (EC_CODE_TOP - 1)) c.

Definition ec_dec_normalize (c : ec_ctx) : ec_ctx :=
  while_fuel 4 (fun c => c.(rng) <=? EC_CODE_BOT) dec_normalize_step c.

(** [ext] keeps whatever the memory held; it is written before it is read. *)
Definition ec_dec_init (_buf : list Z) (_storage : Z) : ec_ctx :=
  let c := {| buf := _buf; storage := _storage; end_offs := 0; end_window := 0; nend_bits := 0;
              nbits_total := EC_CODE_BITS + 1
                - ((EC_CODE_BITS - EC_CODE_EXTRA) / EC_SYM_BITS) * EC_SYM_BITS;
              offs := 0; rng := Z.shiftl 1 EC_CODE_EXTRA; val := 0; ext := 0; rem := 0;
              error := 0 |} in
  let '(b, c) := ec_read_byte c in
  let c := set_rem b c in
  let c := set_val (c.(rng) - 1 - Z.shiftr c.(rem) (EC_SYM_BITS - EC_CODE_EXTRA)) c in
  ec_dec_normalize c.

Definition ec_decode (_ft : Z) (c : ec_ctx) : Z * ec_ctx :=
  let c := set_ext (celt_udiv c.(rng) _ft) c in
  let s := c.(val) / c.(ext) in
  (_ft - EC_MINI (u32 (s + 1)) _ft, c).

Definition ec_decode_bin (_bits : Z) (c : ec_ctx) : Z * ec_ctx :=
  let c := set_ext (Z.shiftr c.(rng) _bits) c in
  let s := c.(val) / c.(ext) in
  (u32 (Z.shiftl 1 _bits) - EC_MINI (u32 (s + 1)) (u32 (Z.shiftl 1 _bits)), c).

Definition ec_dec_update (_fl _fh _ft : Z) (c : ec_ctx) : ec_ctx :=
  let s := IMUL32 c.(ext) (_ft - _fh) in
  let c := set_val (u32 (c.(val) - s)) c in
  let c := set_rng (if _fl >? 0 then IMUL32 c.(ext) (_fh - _fl) else u32 (c.(rng) - s)) c in
  ec_dec_normalize c.

Definition ec_dec_bit_logp (_logp : Z) (c : ec_ctx) : bool * ec_ctx :=
  let r := c.(rng) in
  let d := c.(val) in
  let s := Z.shiftr r _logp in
  let ret := d <? s in
  let c := if negb ret then set_val (u32 (d - s)) c else c in
  (ret, ec_dec_normalize (set_rng (if ret then s else u32 (r - s)) c)).

(** The search loop of [ec_dec_icdf]: gives (t, s, ret). *)
Fixpoint dec_icdf_loop (n : nat) (icdf : list Z) (r d s ret : Z) : Z * Z * Z :=
  let t := s in
  let ret := ret + 1 in
  let s := IMUL32 r icdf.[ret] in
  match n with
  | O => (t, s, ret)
  | S n' => if d <? s then dec_icdf_loop n' icdf r d s ret else (t, s, ret)
  end.

Definition ec_dec_icdf (_icdf : list Z) (_ftb : Z) (c : ec_ctx) : Z * ec_ctx :=
  let s := c.(rng) in
  let d := c.(val) in
  let r := Z.shiftr s _ftb in
  let '(t, s, ret) := dec_icdf_loop (length _icdf) _icdf r d s (-1) in
  let c := set_val (u32 (d - s)) c in
  let c := set_rng (u32 (t - s)) c in
  (ret, ec_dec_normalize c).

Definition ec_dec_icdf16 (_icdf : list Z) (_ftb : Z) (c : ec_ctx) : Z * ec_ctx :=
  let s := c.(rng) in
  let d := c.(val) in
  let r := Z.shiftr s _ftb in
  let '(t, s, ret) := dec_icdf_loop (length _icdf) _icdf r d s (-1) in
  let c := set_val (u32 (d - s)) c in
  let c := set_rng (u32 (t - s)) c in
  (ret, ec_dec_normalize c).

(** The refill loop of [ec_dec_bits]: (context, window, available). *)
Definition dec_fill_step (t : ec_ctx * Z * Z) : ec_ctx * Z * Z :=
  let '(c, window, available) := t in
  let '(b, c) := ec_read_byte_from_end c in
  (c, Z.lor window (u32 (Z.shiftl b available)), available + EC_SYM_BITS).
Definition dec_fill_more (t : ec_ctx * Z * Z) : bool := t.2 <=? EC_WINDOW_SIZE - EC_SYM_BITS.

Definition ec_dec_bits (_bits : Z) (c : ec_ctx) : Z * ec_ctx :=
  let window := c.(end_window) in
  let available := c.(nend_bits) in
  let '(c, window, available) :=
    if available <? _bits then
      while_fuel 4 dec_fill_more dec_fill_step (dec_fill_step (c, window, available))
    else (c, window, available) in
  let ret := Z.land window (u32 (Z.shiftl 1 _bits) - 1) in
  let window := Z.shiftr window _bits in
  let available := available - _bits in
  (ret, set_nbits_total (c.(nbits_total) + _bits)
          (set_nend_bits available (set_end_window window c))).

Definition ec_dec_uint (_ft : Z) (c : ec_ctx) : Z * ec_ctx :=
  let _ft := u32 (_ft - 1) in
  let ftb := EC_ILOG _ft in
  if ftb >? EC_UINT_BITS then
    let ftb := ftb - EC_UINT_BITS in
    let ft := Z.shiftr _ft ftb + 1 in
    let '(s, c) := ec_decode ft c in
    let c := ec_dec_update s (s + 1) ft c in
    let '(b, c) := ec_dec_bits ftb c in
    let t := Z.lor (u32 (Z.shiftl s ftb)) b in
    if t <=? _ft then (t, c) else (_ft, set_error 1 c)
  else
    let _ft := _ft + 1 in
    let '(s, c) := ec_decode _ft c in
    (s, ec_dec_update s (s + 1) _ft c).
