(* ===== verification/EntCode.v ===== *)
(** * Integer helpers of the entropy coder (celt/entcode.c, celt/ecintrin.h)

    The branch-free logarithm is the integer logarithm, [EC_MINI] is the
    minimum, the two forms of [ec_tell_frac] agree, and the division by a table
    of reciprocals ([celt_udiv] with [USE_SMALL_DIV_TABLE]) is exact. *)

From S2P Require Import Prelude RangeCoder.

(** ** celt_udiv with the table of reciprocals *)

(** The table has 129 entries in C, the last one 0 and never read. *)
Definition SMALL_DIV_TABLE : list Z := [
   0xFFFFFFFF; 0x55555555; 0x33333333; 0x24924924;
   0x1C71C71C; 0x1745D174; 0x13B13B13; 0x11111111;
   0x0F0F0F0F; 0x0D79435E; 0x0C30C30C; 0x0B21642C;
   0x0A3D70A3; 0x097B425E; 0x08D3DCB0; 0x08421084;
   0x07C1F07C; 0x07507507; 0x06EB3E45; 0x06906906;
   0x063E7063; 0x05F417D0; 0x05B05B05; 0x0572620A;
   0x05397829; 0x05050505; 0x04D4873E; 0x04A7904A;
   0x047DC11F; 0x0456C797; 0x04325C53; 0x04104104;
   0x03F03F03; 0x03D22635; 0x03B5CC0E; 0x039B0AD1;
   0x0381C0E0; 0x0369D036; 0x03531DEC; 0x033D91D2;
   0x0329161F; 0x03159721; 0x03030303; 0x02F14990;
   0x02E05C0B; 0x02D02D02; 0x02C0B02C; 0x02B1DA46;
   0x02A3A0FD; 0x0295FAD4; 0x0288DF0C; 0x027C4597;
   0x02702702; 0x02647C69; 0x02593F69; 0x024E6A17;
   0x0243F6F0; 0x0239E0D5; 0x02302302; 0x0226B902;
   0x021D9EAD; 0x0214D021; 0x020C49BA; 0x02040810;
   0x01FC07F0; 0x01F44659; 0x01ECC07B; 0x01E573AC;
   0x01DE5D6E; 0x01D77B65; 0x01D0CB58; 0x01CA4B30;
   0x01C3F8F0; 0x01BDD2B8; 0x01B7D6C3; 0x01B20364;
   0x01AC5701; 0x01A6D01A; 0x01A16D3F; 0x019C2D14;
   0x01970E4F; 0x01920FB4; 0x018D3018; 0x01886E5F;
   0x0183C977; 0x017F405F; 0x017AD220; 0x01767DCE;
   0x01724287; 0x016E1F76; 0x016A13CD; 0x01661EC6;
   0x01623FA7; 0x015E75BB; 0x015AC056; 0x01571ED3;
   0x01539094; 0x01501501; 0x014CAB88; 0x0149539E;
   0x01460CBC; 0x0142D662; 0x013FB013; 0x013C995A;
   0x013991C2; 0x013698DF; 0x0133AE45; 0x0130D190;
   0x012E025C; 0x012B404A; 0x01288B01; 0x0125E227;
   0x01234567; 0x0120B470; 0x011E2EF3; 0x011BB4A4;
   0x01194538; 0x0116E068; 0x011485F0; 0x0112358E;
   0x010FEF01; 0x010DB20A; 0x010B7E6E; 0x010953F3;
   0x01073260; 0x0105197F; 0x0103091B; 0x01010101
].

Definition celt_udiv_small (n d : Z) : Z :=
  if d >? 256 then n / d
  else
    let t := EC_ILOG (Z.land d (u32 (- d))) in
    let q := Z.shiftr (SMALL_DIV_TABLE.[Z.shiftr d t] * Z.shiftr n (t - 1)) 32 in
    u32 (q + b2z (u32 (n - q * d) >=? d)).

(** ** The integer logarithm *)

(** A mask of the upper half of [2k] bits tests the size of a [2k]-bit number. *)
Lemma land_upper v k :
  0 <= k -> 0 <= v < 2 ^ (2 * k) ->
  negb (Z.land v (Z.ones k * 2 ^ k) =? 0) = (2 ^ k <=? v).
Proof.
  intros Hk Hv. rewrite <- Z.shiftl_mul_pow2 by done.
  assert (Z.land v (Z.shiftl (Z.ones k) k) = Z.shiftl (v / 2 ^ k) k) as ->.
  { apply Z.bits_inj'. intros i Hi. rewrite Z.land_spec, !Z.shiftl_spec by done.
    destruct (decide (i < k)).
    { rewrite !(Z.testbit_neg_r _ (i - k)) by lia. by rewrite andb_false_r. }
    rewrite Z.div_pow2_bits by lia. replace (i - k + k) with i by lia.
    destruct (decide (i < 2 * k)).
    - rewrite Z.ones_spec_low, andb_true_r by lia. done.
    - rewrite <- (Z.mod_small v (2 ^ (2 * k))), Z.mod_pow2_bits_high by lia. done. }
  rewrite Z.shiftl_mul_pow2 by done. pose proof (Z.pow_pos_nonneg 2 k).
  destruct (Z.eqb_spec (v / 2 ^ k * 2 ^ k) 0) as [E|E], (Z.leb_spec (2 ^ k) v) as [L|L]; try done.
  - assert (1 <= v / 2 ^ k) by (apply Z.div_le_lower_bound; lia). nia.
  - rewrite Z.div_small in E by lia. lia.
Qed.

(** One halving step: the top half is moved down when it is not empty. *)
Lemma ilog_step v k :
  0 < k -> 0 < v < 2 ^ (2 * k) ->
  exists b, negb (Z.land v (Z.ones k * 2 ^ k) =? 0) = b /\
    0 < Z.shiftr v (b2z b * k) < 2 ^ k /\
    Z.log2 v = b2z b * k + Z.log2 (Z.shiftr v (b2z b * k)).
Proof.
  intros Hk Hv. rewrite land_upper by lia. eexists; split; [done|].
  pose proof (Z.pow_pos_nonneg 2 k).
  destruct (Z.leb_spec (2 ^ k) v); simpl b2z; rewrite ?Z.mul_1_l, ?Z.mul_0_l, ?Z.shiftr_0_r; [|lia].
  rewrite Z.log2_shiftr by lia. rewrite Z.shiftr_div_pow2 by lia.
  assert (k <= Z.log2 v) by (rewrite <- (Z.log2_pow2 k) by lia; apply Z.log2_le_mono; lia).
  replace (2 * k) with (k + k) in Hv by lia. rewrite Z.pow_add_r in Hv by lia.
  split; [split|lia].
  - apply Z.lt_le_trans with 1; [lia|]. apply Z.div_le_lower_bound; lia.
  - apply Z.div_lt_upper_bound; lia.
Qed.

Lemma ec_ilog_log2 v : 0 < v < 2 ^ 32 -> ec_ilog v = Z.log2 v + 1.
Proof.
  intros Hv. unfold ec_ilog.
  destruct (ilog_step v 16) as (b1 & E1 & R1 & ->); [lia..|].
  change (Z.ones 16 * 2 ^ 16) with 0xFFFF0000 in E1. rewrite E1.
  replace (Z.shiftl (b2z b1) 4) with (b2z b1 * 16) by (by destruct b1).
  set (v1 := Z.shiftr v _) in *.
  destruct (ilog_step v1 8) as (b2 & E2 & R2 & ->); [lia..|].
  change (Z.ones 8 * 2 ^ 8) with 0xFF00 in E2. rewrite E2.
  replace (Z.shiftl (b2z b2) 3) with (b2z b2 * 8) by (by destruct b2).
  set (v2 := Z.shiftr v1 _) in *.
  destruct (ilog_step v2 4) as (b3 & E3 & R3 & ->); [lia..|].
  change (Z.ones 4 * 2 ^ 4) with 0xF0 in E3. rewrite E3.
  replace (Z.shiftl (b2z b3) 2) with (b2z b3 * 4) by (by destruct b3).
  set (v3 := Z.shiftr v2 _) in *.
  destruct (ilog_step v3 2) as (b4 & E4 & R4 & ->); [lia..|].
  change (Z.ones 2 * 2 ^ 2) with 0xC in E4. rewrite E4.
  replace (Z.shiftl (b2z b4) 1) with (b2z b4 * 2) by (by destruct b4).
  set (v4 := Z.shiftr v3 _) in *. clearbody v4.
  replace (negb (v =? 0)) with true by (destruct (Z.eqb_spec v 0); [lia|done]).
  assert (v4 = 1 \/ v4 = 2 \/ v4 = 3) as [-> | [-> | ->]] by lia;
    by destruct b1, b2, b3, b4.
Qed.

Lemma ec_ilog_bounds v : 0 < v < 2 ^ 32 -> 2 ^ (ec_ilog v - 1) <= v < 2 ^ ec_ilog v.
Proof.
  intros Hv. rewrite ec_ilog_log2 by done. replace (Z.log2 v + 1 - 1) with (Z.log2 v) by lia.
  apply Z.log2_spec. lia.
Qed.

(** ** EC_MINI *)

Lemma EC_MINI_min a b :
  0 <= a < 2 ^ 32 -> 0 <= b < 2 ^ 32 -> EC_MINI a b = Z.min a b.
Proof.
  intros Ha Hb. unfold EC_MINI. destruct (Z.ltb_spec b a).
  - change (u32 (- b2z true)) with (2 ^ 32 - 1). rewrite land_pow2_pred by lia.
    unfold u32. rewrite Z.mod_mod by lia. rewrite Z.add_mod_idemp_r by lia.
    rewrite Z.mod_small; lia.
  - change (u32 (- b2z false)) with 0. rewrite Z.land_0_r, u32_small; lia.
Qed.

(** ** The fractional bit count *)

(** One step of the loop form. *)
Definition tell_step (p : Z * Z) : Z * Z :=
  let r := Z.shiftr (u32 (p.2 * p.2)) 15 in
  (2 * p.1 + Z.shiftr r 16, Z.shiftr r (Z.shiftr r 16)).

(** The three fractional bits that each form computes from the 16-bit mantissa. *)
Definition tell_fast_bits (r : Z) : Z :=
  let b := Z.shiftr r 12 - 8 in b + b2z (r >? correction.[b]).
Definition tell_loop_bits (r : Z) : Z := (tell_step (tell_step (tell_step (0, r)))).1.

(** Both forms agree on every mantissa. *)
Lemma tell_bits_agree r : 2 ^ 15 <= r < 2 ^ 16 -> tell_fast_bits r = tell_loop_bits r.
Proof.
  intros Hr. apply Z.eqb_eq.
  apply (zforall_spec (Z.to_nat (2 ^ 15)) (2 ^ 15) (fun r => tell_fast_bits r =? tell_loop_bits r));
    [vm_compute; reflexivity|lia].
Qed.

Lemma tell_step_shift l r :
  (forall b, 0 <= b <= 1 -> Z.lor (Z.shiftl l 1) b = 2 * l + b) /\
  (2 ^ 15 <= r < 2 ^ 16 ->
   0 <= Z.shiftr (Z.shiftr (u32 (r * r)) 15) 16 <= 1 /\ 2 ^ 15 <= (tell_step (l, r)).2 < 2 ^ 16).
Proof.
  split.
  - intros b Hb. rewrite Z.lor_comm, Z.shiftl_mul_pow2, lor_add_pow2 by lia. lia.
  - intros Hr. unfold tell_step; simpl. rewrite u32_small by nia.
    rewrite !Z.shiftr_div_pow2 by (try apply Z.div_pos; nia).
    set (q := r * r / 2 ^ 15). assert (2 ^ 15 <= q < 2 ^ 17) as Hq.
    { subst q. split; [apply Z.div_le_lower_bound|apply Z.div_lt_upper_bound]; nia. }
    assert (q / 2 ^ 16 = 0 \/ q / 2 ^ 16 = 1) as Hb by dlia.
    split; [lia|]. rewrite Z.shiftr_div_pow2 by lia.
    destruct Hb as [E|E]; rewrite E; dlia.
Qed.

(** The loop of the reference form, one step. *)
Definition tell_loop_step (p : Z * Z) : Z * Z :=
  let '(l, r) := p in
  let r := Z.shiftr (u32 (r * r)) 15 in
  let b := Z.shiftr r 16 in
  (Z.lor (Z.shiftl l 1) b, Z.shiftr r b).

Lemma tell_loop_step_eq l r :
  2 ^ 15 <= r < 2 ^ 16 ->
  tell_loop_step (l, r) = (2 * l + (tell_step (0, r)).1, (tell_step (0, r)).2) /\
  2 ^ 15 <= (tell_step (0, r)).2 < 2 ^ 16.
Proof.
  intros Hr. destruct (tell_step_shift l r) as [H1 H2]. destruct (H2 Hr) as [H3 H4].
  split; [|done]. unfold tell_loop_step. cbv zeta. by rewrite (H1 _ H3).
Qed.

Lemma tell_frac_agree c :
  2 ^ 15 <= c.(rng) < 2 ^ 32 -> ec_tell_frac c = ec_tell_frac_loop c.
Proof.
  intros Hr. unfold ec_tell_frac, ec_tell_frac_loop. cbv zeta.
  pose proof (ec_ilog_bounds (rng c) ltac:(lia)) as Hl. fold (EC_ILOG (rng c)) in Hl.
  set (l := EC_ILOG (rng c)) in *. set (r := Z.shiftr (rng c) (l - 16)).
  assert (16 <= l) as H16.
  { destruct (Z.le_gt_cases 16 l); [done|].
    pose proof (Z.pow_le_mono_r 2 l 15 ltac:(lia) ltac:(lia)). lia. }
  assert (2 ^ 15 <= r < 2 ^ 16) as Hr'.
  { subst r. rewrite Z.shiftr_div_pow2 by lia. pose proof (Z.pow_pos_nonneg 2 (l - 16)).
    split; [apply Z.div_le_lower_bound|apply Z.div_lt_upper_bound]; try lia;
      rewrite <- Z.pow_add_r by lia; replace (l - 16 + 15) with (l - 1) by lia;
      replace (l - 16 + 16) with l by lia; lia. }
  clearbody r l.
  pose proof (tell_bits_agree r Hr') as Hb. unfold tell_fast_bits in Hb. cbv zeta in Hb. rewrite Hb.
  match goal with |- u32 (?n - _) = _ =>
    transitivity (let '(l', _) := tell_loop_step (tell_loop_step (tell_loop_step (l, r))) in
                  u32 (n - l')); [|done] end.
  destruct (tell_loop_step_eq l r Hr') as [-> R1].
  destruct (tell_loop_step_eq (2 * l + (tell_step (0, r)).1) _ R1) as [-> R2].
  match goal with |- context [tell_loop_step (?a, ?b)] =>
    destruct (tell_loop_step_eq a b R2) as [-> _] end.
  do 2 f_equal. rewrite Z.shiftl_mul_pow2 by lia. unfold tell_loop_bits, tell_step. simpl. lia.
Qed.

(** ** Division by the table of reciprocals *)

(** What makes a table entry [T] right for the divisor [d = m * 2^(t-1)]. *)
Definition udiv_entry_ok (d : Z) : bool :=
  let t := EC_ILOG (Z.land d (u32 (- d))) in
  let m := d / 2 ^ (t - 1) in
  let T := SMALL_DIV_TABLE.[Z.shiftr d t] in
  (1 <=? t) && (d =? m * 2 ^ (t - 1)) && (1 <=? m) && (2 ^ 32 - m <=? T * m) && (T * m <=? 2 ^ 32).

Lemma udiv_entries d : 1 <= d <= 256 -> udiv_entry_ok d = true.
Proof.
  intros Hd. apply (zforall_spec 256 1 udiv_entry_ok); [vm_compute; reflexivity|lia].
Qed.

(** The quotient estimate is right or one too small. *)
Lemma udiv_estimate T m x :
  1 <= m -> 0 <= x < 2 ^ 32 -> 2 ^ 32 - m <= T * m <= 2 ^ 32 ->
  x / m - 1 <= T * x / 2 ^ 32 <= x / m.
Proof.
  intros Hm Hx HT. pose proof (Z.div_mod x m ltac:(lia)) as E.
  pose proof (Z.mod_pos_bound x m ltac:(lia)) as Hr. set (q := x / m) in *.
  split.
  - apply Z.div_le_lower_bound; [lia|]. nia.
  - apply Z.lt_succ_r, Z.div_lt_upper_bound; [lia|]. nia.
Qed.

Lemma celt_udiv_small_div n d :
  0 <= n < 2 ^ 32 -> 0 < d -> celt_udiv_small n d = n / d.
Proof.
  intros Hn Hd. unfold celt_udiv_small. destruct (Z.gtb_spec d 256); [done|].
  pose proof (udiv_entries d ltac:(lia)) as Ht. unfold udiv_entry_ok in Ht. cbv zeta in *.
  set (t := EC_ILOG _) in *. set (T := SMALL_DIV_TABLE.[_]) in *.
  set (m := d / 2 ^ (t - 1)) in *. rewrite !andb_true_iff in Ht.
  destruct Ht as ((((H1 & H2) & H3) & H4) & H5).
  apply Z.leb_le in H1, H3, H4, H5. apply Z.eqb_eq in H2. clearbody t T m.
  rewrite !Z.shiftr_div_pow2 by lia. set (x := n / 2 ^ (t - 1)).
  pose proof (Z.pow_pos_nonneg 2 (t - 1) ltac:(lia) ltac:(lia)) as Hp.
  assert (n / d = x / m) as Hq by (subst x; rewrite Z.div_div by lia; f_equal; lia).
  assert (0 <= x < 2 ^ 32) as Hx.
  { subst x. split; [apply Z.div_pos; lia|apply Z.div_lt_upper_bound; nia]. }
  pose proof (udiv_estimate T m x ltac:(lia) Hx ltac:(lia)) as He. rewrite <- Hq in He.
  set (q := T * x / 2 ^ 32) in *. pose proof (Z.div_mod n d ltac:(lia)) as E.
  pose proof (Z.mod_pos_bound n d ltac:(lia)) as Hr.
  pose proof (Z.div_pos n d ltac:(lia) ltac:(lia)).
  assert (n / d <= n) by (apply Z.div_le_upper_bound; nia).
  assert (m <= d) by nia. assert (0 <= T) by nia.
  assert (0 <= q) by (subst q; apply Z.div_pos; [apply Z.mul_nonneg_nonneg|]; lia).
  assert (q = n / d \/ q = n / d - 1) as [Eq|Eq] by lia; rewrite Eq.
  - rewrite (u32_small (n - _)) by lia. case_cmp; [lia|]. rewrite u32_small; simpl; lia.
  - rewrite (u32_small (n - _)) by lia. case_cmp; [|lia]. rewrite u32_small; simpl; lia.
Qed.
