(* ===== verification/RangeSpec.v ===== *)
(** * The range coder as interval arithmetic

    The abstract specification of the range coder is exact interval
    arithmetic: an encoder state is an interval [low, low + arng) of code values
    at a scale of 31 + 8*nsym bits, together with the raw bits written from the
    other end of the packet.  This file defines that specification, the
    abstraction function from the C encoder state, and shows that every encoder
    operation refines it ([enc_narrow_ok], [enc_bits_ok], [enc_done_ok]). *)

From S2P Require Import Prelude RangeCoder.

(** ** The abstract coder *)

Record aenc := Mk_aenc { low : Z; arng : Z; nsym : nat; raw : Z; nraw : Z }.

Definition a_init : aenc := {| low := 0; arng := 2 ^ 31; nsym := 0; raw := 0; nraw := 0 |}.

(** Rescaling by one digit, repeated while the range is at most 2^23. *)
Definition a_step (a : aenc) : aenc :=
  {| low := low a * 256; arng := arng a * 256; nsym := S (nsym a); raw := raw a; nraw := nraw a |}.
Definition a_norm (a : aenc) : aenc := while_fuel 4 (fun a => arng a <=? 2 ^ 23) a_step a.

(** Narrowing to the sub-interval of size [r] at offset [o]. *)
Definition a_narrow (o r : Z) (a : aenc) : aenc :=
  {| low := low a + o; arng := r; nsym := nsym a; raw := raw a; nraw := nraw a |}.
Definition a_op (o r : Z) (a : aenc) : aenc := a_norm (a_narrow o r a).

(** Appending [n] raw bits of value [x]. *)
Definition a_bits (x n : Z) (a : aenc) : aenc :=
  {| low := low a; arng := arng a; nsym := nsym a; raw := raw a + x * 2 ^ nraw a;
     nraw := nraw a + n |}.

(** The number of whole bits, as [nbits_total] counts them. *)
Definition a_nbits (a : aenc) : Z := 33 + 8 * Z.of_nat (nsym a) + nraw a.

(** ** Packets and the codes they hold *)

Section Packet.
Variable F : list Z.

(** The digit at position [i] from the front, or from the end; a read past the
    packet gives 0. *)
Definition fb (i : nat) : Z := F.[Z.of_nat i].
Definition eb (j : nat) : Z := F.[len F - 1 - Z.of_nat j].

(** The leading 31 + 8*n bits of the packet, and its trailing [m] raw bits. *)
Definition code (n : nat) : Z := besum fb (n + 4) / 2.
Definition rawcode (m : Z) : Z := lesum eb (Z.to_nat m) mod 2 ^ m.

(** A packet is compatible with an encoder state: its code is in the interval
    and its raw bits are those written. *)
Definition fits (a : aenc) : Prop :=
  low a <= code (nsym a) < low a + arng a /\ rawcode (nraw a) = raw a.
End Packet.

(** ** The abstraction of the C encoder state *)

(** The number formed by the bytes written at the front. *)
Definition written (c : ec_ctx) : Z := besum (fb c.(buf)) (Z.to_nat c.(offs)).
(** One for the buffered symbol, if any. *)
Definition rem_len (c : ec_ctx) : Z := b2z (c.(rem) >=? 0).
(** The number formed by all digits put out so far: the written bytes, the
    buffered symbol [rem] and [ext] symbols 255. *)
Definition digits_hd (c : ec_ctx) : Z :=
  if c.(rem) >=? 0 then written c * 256 + c.(rem) else written c.
Definition digits (c : ec_ctx) : Z := (digits_hd c + 1) * 256 ^ c.(ext) - 1.
Definition ndigits (c : ec_ctx) : Z := c.(offs) + rem_len c + c.(ext).
(** Digits can only grow, by carries, up to this bound. *)
Definition digits_cap (c : ec_ctx) : Z := (written c + 1) * 256 ^ (c.(ext) + rem_len c).

(** The raw bytes written at the end, the next one to be written at [end_offs]. *)
Definition endbyte (c : ec_ctx) (j : nat) : Z := c.(buf).[c.(storage) - 1 - Z.of_nat j].
Definition endraw (c : ec_ctx) : Z := lesum (endbyte c) (Z.to_nat c.(end_offs)).

Definition abs (c : ec_ctx) : aenc :=
  {| low := digits c * 2 ^ 31 + c.(val);
     arng := c.(rng);
     nsym := Z.to_nat (ndigits c);
     raw := endraw c + 2 ^ (8 * c.(end_offs)) * c.(end_window);
     nraw := 8 * c.(end_offs) + c.(nend_bits) |}.

(** Well-formedness of the buffer and of the carry state. *)
Record buf_ok (c : ec_ctx) : Prop := {
  bo_storage : 0 <= c.(storage) < 2 ^ 32;
  bo_len : c.(storage) <= len c.(buf);
  bo_bytes : bytes c.(buf);
  bo_offs : 0 <= c.(offs);
  bo_end : 0 <= c.(end_offs);
  bo_fit : c.(offs) + c.(end_offs) <= c.(storage);
  bo_ext : 0 <= c.(ext) < 2 ^ 32;
  bo_error : c.(error) = 0
}.

(** Nothing is written before the first symbol is buffered. *)
Definition rem_ok (c : ec_ctx) : Prop :=
  -1 <= c.(rem) <= 255 /\ (c.(rem) = -1 -> c.(offs) = 0).

(** The encoder invariant between operations, before normalization. *)
Record enc_inv (c : ec_ctx) : Prop := {
  ei_buf : buf_ok c;
  ei_rem : rem_ok c;
  ei_val : 0 <= c.(val);
  ei_rng : 0 < c.(rng) <= 2 ^ 31;
  ei_top : c.(val) + c.(rng) < 2 ^ 32;
  ei_cap : digits c * 2 ^ 31 + c.(val) + c.(rng) <= digits_cap c * 2 ^ 31;
  ei_nend : 0 <= c.(nend_bits) <= 32;
  ei_window : 0 <= c.(end_window) < 2 ^ c.(nend_bits);
  ei_bits : c.(nbits_total) = a_nbits (abs c)
}.

(** The invariant of the encoder: the range is normalized. *)
Definition enc_ok (c : ec_ctx) : Prop := enc_inv c /\ 2 ^ 23 < c.(rng).

(** No write failed, and [nbits_total] has not overflowed its C type. *)
Definition good (c : ec_ctx) : Prop := c.(error) = 0 /\ c.(nbits_total) < 2 ^ 31.

#[local] Arguments write_or_error : simpl never.
#[local] Arguments ec_write_byte : simpl never.
#[local] Arguments ec_enc_carry_out : simpl never.
#[local] Arguments ec_write_byte_at_end : simpl never.

(** ** Bytes written at the front *)

Lemma lor_eq_0 a b : Z.lor a b = 0 -> a = 0 /\ b = 0.
Proof. apply Z.lor_eq_0_iff. Qed.

(** A successful write of a byte, in one equation. *)
Lemma write_byte_ok c v :
  buf_ok c -> error (write_or_error (ec_write_byte c v)) = 0 ->
  c.(offs) + c.(end_offs) < c.(storage) /\
  write_or_error (ec_write_byte c v)
    = set_offs (c.(offs) + 1) (set_buf c.(buf).[c.(offs) <- u8 v] c).
Proof.
  intros [] H. unfold write_or_error, ec_write_byte in *.
  rewrite u32_small in * by lia.
  destruct (Z.geb_spec (offs c + end_offs c) (storage c)).
  - simpl in H. apply lor_eq_0 in H. lia.
  - rewrite u32_small in * by lia. split; [done|]. simpl. unfold set_error, set_offs, set_buf; simpl.
    by rewrite bo_error0.
Qed.

Lemma write_byte_buf c v :
  buf_ok c -> error (write_or_error (ec_write_byte c v)) = 0 ->
  let c' := write_or_error (ec_write_byte c v) in
  buf_ok c' /\ written c' = written c * 256 + u8 v /\ endraw c' = endraw c.
Proof.
  intros Hb He. destruct (write_byte_ok c v Hb He) as [Hlt ->]. clear He.
  destruct Hb. cbv zeta. split_and!.
  - constructor; simpl; rewrite ?len_wr; try done; try lia.
    apply bytes_wr; [done|apply u8_range].
  - unfold written; simpl. rewrite Z2Nat.inj_add by lia. rewrite Nat.add_1_r. simpl besum.
    f_equal.
    + f_equal. apply besum_ext. intros i Hi. unfold fb. apply rd_wr_ne. lia.
    + unfold fb. rewrite Z2Nat.id by lia. apply rd_wr_eq. lia.
  - unfold endraw; simpl. apply lesum_ext. intros i Hi. unfold endbyte; simpl.
    apply rd_wr_ne. lia.
Qed.

(** A context whose front part changed: what a front write keeps. *)
Definition same_rest (c c' : ec_ctx) : Prop :=
  c'.(storage) = c.(storage) /\ c'.(end_offs) = c.(end_offs) /\
  c'.(end_window) = c.(end_window) /\ c'.(nend_bits) = c.(nend_bits) /\
  c'.(nbits_total) = c.(nbits_total) /\ c'.(rng) = c.(rng) /\ c'.(val) = c.(val).

(** The error flag is never cleared. *)
Lemma write_sticky c v : error (write_or_error (ec_write_byte c v)) = 0 -> error c = 0.
Proof.
  unfold write_or_error, ec_write_byte. by case_match; simpl; intros [? _]%lor_eq_0.
Qed.
Lemma syms_sticky n sym c : error (carry_out_syms n sym c) = 0 -> error c = 0.
Proof.
  revert c; induction n as [|n IH]; intros c H; simpl in H; [done|].
  apply IH in H. exact (write_sticky _ _ H).
Qed.

(** The run of buffered 255s, written as 255s or, after a carry, as 0s. *)
Lemma syms_ok n sym c :
  buf_ok c -> c.(ext) = Z.of_nat n -> sym = 255 \/ sym = 0 ->
  error (carry_out_syms n sym c) = 0 ->
  let c' := carry_out_syms n sym c in
  buf_ok c' /\ same_rest c c' /\ endraw c' = endraw c /\ c'.(ext) = 0 /\ c'.(rem) = c.(rem) /\
  c'.(offs) = c.(offs) + c.(ext) /\
  written c' + b2z (sym =? 255) = (written c + b2z (sym =? 255)) * 256 ^ c.(ext).
Proof.
  intros Hb Hn Hs He. cbv zeta. revert c Hb Hn He.
  induction n as [|n IH]; intros c Hb Hn He; cbn [carry_out_syms] in He |- *; cbv zeta in *.
  - rewrite Hn. unfold same_rest. repeat (split; [try done; try lia|]); lia.
  - assert (error (write_or_error (ec_write_byte c sym)) = 0) as He1 by exact (syms_sticky _ _ _ He).
    destruct (write_byte_buf c sym Hb He1) as (Hb' & Hw & Hr).
    destruct (write_byte_ok c sym Hb He1) as [_ Heq].
    destruct Hb. rewrite Heq in *. clear Heq. cbn [ext set_offs set_buf] in *.
    rewrite Hn, u32_small in * by lia.
    apply IH in He as (B & R & E & X & M & O & W);
      [|destruct Hb'; constructor; simpl in *; try done; lia|simpl; lia].
    clear IH. unfold same_rest in *. simpl in *.
    split_and!; try tauto; try lia; try congruence.
    { rewrite <- Hr. exact E. }
    change (written (set_ext _ _)) with
      (written (set_offs (offs c + 1) (set_buf (buf c).[offs c <- u8 sym] c))) in W.
    rewrite Hw in W. rewrite W.
    replace (Z.of_nat (S n)) with (Z.succ (Z.of_nat n)) by lia.
    replace (Z.succ (Z.of_nat n) - 1) with (Z.of_nat n) by lia.
    rewrite Z.pow_succ_r by lia. destruct Hs as [-> | ->]; simpl; rewrite u8_small by lia; lia.
Qed.

(** The two writes of [ec_enc_carry_out]. *)
Definition carry_flush (c : ec_ctx) (carry : Z) : ec_ctx :=
  let c := if c.(rem) >=? 0 then write_or_error (ec_write_byte c (c.(rem) + carry)) else c in
  if c.(ext) >? 0 then
    carry_out_syms (Z.to_nat c.(ext)) (Z.land (EC_SYM_MAX + carry) EC_SYM_MAX) c
  else c.

Lemma carry_out_flush c x :
  ec_enc_carry_out c x =
  if negb (x =? EC_SYM_MAX) then set_rem (Z.land x EC_SYM_MAX) (carry_flush c (Z.shiftr x 8))
  else set_ext (u32 (c.(ext) + 1)) c.
Proof. done. Qed.

Lemma same_rest_refl c : same_rest c c.
Proof. by repeat split. Qed.
Lemma same_rest_trans c1 c2 c3 : same_rest c1 c2 -> same_rest c2 c3 -> same_rest c1 c3.
Proof. unfold same_rest. intuition congruence. Qed.

(** The first write: the buffered symbol, with its carry. *)
Lemma flush_rem_ok c carry :
  let c1 := if c.(rem) >=? 0 then write_or_error (ec_write_byte c (c.(rem) + carry)) else c in
  buf_ok c -> 0 <= carry <= 1 -> (c.(rem) < 0 -> carry = 0) -> c.(rem) + carry <= 255 ->
  error c1 = 0 ->
  buf_ok c1 /\ same_rest c c1 /\ endraw c1 = endraw c /\ c1.(ext) = c.(ext) /\
  c1.(offs) = c.(offs) + rem_len c /\ written c1 = digits_hd c + carry.
Proof.
  intros c1 Hb Hc Hneg Hrem He. subst c1. unfold rem_len, digits_hd.
  destruct (Z.geb_spec (rem c) 0).
  - destruct (write_byte_buf c _ Hb He) as (B & W & E).
    destruct (write_byte_ok c _ Hb He) as [_ Heq]. split; [done|].
    split; [rewrite Heq; by repeat split|]. split; [done|].
    rewrite W, u8_small by lia. rewrite Heq. simpl. lia.
  - rewrite Hneg by lia. split_and!; try done; simpl; lia.
Qed.

Lemma flush_ok c carry :
  buf_ok c -> 0 <= carry <= 1 -> (c.(rem) < 0 -> carry = 0) -> c.(rem) + carry <= 255 ->
  error (carry_flush c carry) = 0 ->
  let c' := carry_flush c carry in
  buf_ok c' /\ same_rest c c' /\ endraw c' = endraw c /\ c'.(ext) = 0 /\
  c'.(offs) = ndigits c /\ written c' = digits c + carry.
Proof.
  intros Hb Hc Hneg Hrem He. pose proof (flush_rem_ok c carry) as H1. cbv zeta in *.
  unfold carry_flush in *. cbv zeta in *.
  set (c1 := if rem c >=? 0 then _ else _) in *. unfold ndigits, digits.
  destruct (Z.gtb_spec (ext c1) 0) as [Hx|Hx].
  - destruct H1 as (B & R & E & X & O & W); try done; [by eapply syms_sticky|].
    assert (Z.land (EC_SYM_MAX + carry) EC_SYM_MAX = if carry =? 0 then 255 else 0) as Hsym.
    { assert (carry = 0 \/ carry = 1) as [-> | ->] by lia; done. }
    rewrite Hsym in *.
    destruct (syms_ok (Z.to_nat (ext c1)) (if carry =? 0 then 255 else 0) c1)
      as (B' & R' & E' & X' & _ & O' & W'); try done.
    { rewrite Z2Nat.id; [done|]. destruct B; lia. }
    { destruct (carry =? 0); auto. }
    split_and!; try done; try congruence; [by eapply same_rest_trans|].
    revert W'. rewrite W, <- X.
    match goal with |- _ -> ?x = _ => generalize x; intros w end.
    assert (carry = 0 \/ carry = 1) as [-> | ->] by lia; simpl; lia.
  - destruct H1 as (B & R & E & X & O & W); try done.
    assert (ext c = 0) as Hx0 by (destruct Hb; lia). rewrite Hx0 in *.
    split_and!; try done; lia.
Qed.

(** A symbol put out with its carry appends a digit. *)
Lemma carry_out_ok c x :
  buf_ok c -> rem_ok c -> 0 <= x < 512 -> digits c * 256 + x < digits_cap c * 256 ->
  c.(ext) + 1 < 2 ^ 32 -> error (ec_enc_carry_out c x) = 0 ->
  let c' := ec_enc_carry_out c x in
  buf_ok c' /\ rem_ok c' /\ same_rest c c' /\ endraw c' = endraw c /\
  digits c' = digits c * 256 + x /\ ndigits c' = ndigits c + 1 /\
  digits_cap c' = (if x =? 255 then digits_cap c * 256 else (digits c' / 256 + 1) * 256).
Proof.
  intros Hb [Hr Hr1] Hx Hcap Hext. rewrite carry_out_flush. unfold EC_SYM_MAX.
  cbv zeta. assert (0 <= ext c) as Hext0 by (destruct Hb; lia).
  destruct (Z.eqb_spec x 255) as [->|Hne]; simpl negb; cbv iota; intros He.
  - rewrite u32_small in * by lia. unfold digits, digits_cap, ndigits, digits_hd, rem_len in *.
    simpl in *. change (written (set_ext _ c)) with (written c).
    replace (ext c + 1 + b2z (rem c >=? 0)) with (Z.succ (ext c + b2z (rem c >=? 0))) by lia.
    replace (ext c + 1) with (Z.succ (ext c)) by lia.
    rewrite !Z.pow_succ_r by (destruct (rem c >=? 0); simpl; lia).
    split_and!; try lia; [destruct Hb; constructor; simpl; try done; lia|done|by repeat split|done].
  - rewrite Z.shiftr_div_pow2 in * by lia. rewrite land_255 in *. change (2 ^ 8) with 256 in *.
    set (carry := x / 256) in *.
    assert (0 <= carry <= 1 /\ x mod 256 = x - 256 * carry) as [Hc Hm] by (subst carry; dlia).
    pose proof (Z.mod_pos_bound x 256 ltac:(lia)) as Hmp.
    assert (1 <= 256 ^ ext c) as Hpow by (pose proof (Z.pow_pos_nonneg 256 (ext c)); lia).
    unfold digits, digits_cap, digits_hd, rem_len in Hcap.
    destruct (flush_ok c carry) as (B & R & E & X & O & W); try done.
    + intros Hneg. destruct (Z.geb_spec (rem c) 0); [lia|]. simpl in Hcap.
      rewrite Z.add_0_r in Hcap. subst carry. dlia.
    + destruct (Z.geb_spec (rem c) 0); [|lia]. simpl in Hcap.
      rewrite Z.pow_add_r in Hcap by lia.
      destruct (decide (rem c = 255 /\ carry = 1)) as [[Er Ec]|]; [|lia].
      rewrite Er in Hcap. assert (256 <= x) by (subst carry; dlia). lia.
    + set (c1 := carry_flush c carry) in *.
      set (c' := set_rem (x mod 256) c1).
      assert (digits c' = digits c * 256 + x) as D.
      { unfold digits at 1, digits_hd. simpl. rewrite X. destruct (Z.geb_spec (x mod 256) 0); [|lia].
        change (written c') with (written c1). rewrite W. lia. }
      split_and!; try done.
      * destruct B; constructor; done.
      * unfold rem_ok; simpl. lia.
      * unfold ndigits at 1, rem_len; simpl. rewrite X, O.
        destruct (Z.geb_spec (x mod 256) 0); simpl; lia.
      * unfold digits_cap at 1, rem_len; simpl. rewrite X.
        destruct (Z.geb_spec (x mod 256) 0); [|lia]. simpl.
        change (written c') with (written c1). rewrite W, D.
        replace (digits c * 256 + x) with (x mod 256 + (digits c + carry) * 256) by lia.
        rewrite Z.div_add by lia. rewrite Z.div_small by lia. lia.
Qed.

(** ** Normalization *)

Lemma carry_out_sticky c x : error (ec_enc_carry_out c x) = 0 -> error c = 0.
Proof.
  rewrite carry_out_flush. unfold carry_flush. case_match; simpl; [|done].
  cbv zeta. intros He. case_match.
  - apply syms_sticky in He. destruct (rem c >=? 0); [by eapply write_sticky|done].
  - destruct (rem c >=? 0); [by eapply write_sticky|done].
Qed.

Lemma shift_val v : 0 <= v < 2 ^ 32 ->
  Z.land (u32 (Z.shiftl v EC_SYM_BITS)) (EC_CODE_TOP - 1) = (v * 256) mod 2 ^ 31.
Proof.
  intros. change (EC_CODE_TOP - 1) with (2 ^ 31 - 1). rewrite land_pow2_pred by lia.
  rewrite Z.shiftl_mul_pow2 by done. unfold u32, EC_SYM_BITS.
  rewrite Z.mod_mod_divide; [done|]. by exists 2.
Qed.

Lemma ext_bound c : enc_inv c -> c.(nbits_total) < 2 ^ 31 -> c.(ext) + 1 < 2 ^ 32.
Proof.
  intros [[] [] ? ? ? ? ? ? Hn] Hb. unfold a_nbits in Hn. simpl in Hn. unfold ndigits, rem_len in Hn.
  destruct (rem c >=? 0); simpl in Hn; lia.
Qed.

Lemma write_rest c v : same_rest c (write_or_error (ec_write_byte c v)).
Proof. unfold write_or_error, ec_write_byte. case_match; by repeat split. Qed.
Lemma syms_rest n sym c : same_rest c (carry_out_syms n sym c).
Proof.
  revert c; induction n as [|n IH]; intros c; [apply same_rest_refl|].
  cbn [carry_out_syms]. cbv zeta. set (c1 := write_or_error _).
  eapply same_rest_trans; [exact (write_rest c sym : same_rest c c1)|].
  exact (IH (set_ext (u32 (ext c1 - 1)) c1)).
Qed.
Lemma carry_out_rest c x : same_rest c (ec_enc_carry_out c x).
Proof.
  rewrite carry_out_flush. unfold carry_flush. case_match; [|by repeat split].
  set (c1 := if rem c >=? 0 then _ else _).
  assert (same_rest c c1) as H1.
  { subst c1. case_match; [apply write_rest|apply same_rest_refl]. }
  cbv zeta. case_match; [|done].
  eapply same_rest_trans; [exact H1|]. apply (syms_rest _ _ c1).
Qed.

Lemma enc_step_good c : good (enc_normalize_step c) -> good c.
Proof.
  unfold good, enc_normalize_step. cbv zeta.
  pose proof (carry_out_rest c (Z.shiftr (val c) EC_CODE_SHIFT)) as (_&_&_&_&E&_).
  pose proof (carry_out_sticky c (Z.shiftr (val c) EC_CODE_SHIFT)) as He.
  set (c1 := ec_enc_carry_out _ _) in *. clearbody c1.
  cbn [error nbits_total set_val set_rng set_nbits_total]. rewrite E. unfold EC_SYM_BITS.
  intuition lia.
Qed.

Lemma enc_step_ok c :
  enc_inv c -> c.(rng) <= 2 ^ 23 -> good (enc_normalize_step c) ->
  enc_inv (enc_normalize_step c) /\ abs (enc_normalize_step c) = a_step (abs c).
Proof.
  intros Hinv Hr Hg. pose proof (enc_step_good c Hg) as [_ Hnb].
  pose proof (ext_bound c Hinv Hnb) as Hext. destruct Hinv, Hg as [He _].
  unfold enc_normalize_step in *. cbv zeta in *.
  rewrite Z.shiftr_div_pow2 in * by done. change (2 ^ EC_CODE_SHIFT) with (2 ^ 23) in *.
  set (x := val c / 2 ^ 23) in *.
  destruct (carry_out_ok c x) as (B & R & S & E & D & N & C); try done; try (subst x; dlia).
  set (c1 := ec_enc_carry_out c x) in *. clearbody c1. clear He.
  destruct S as (S1 & S2 & S3 & S4 & S5 & S6 & S7).
  cbn [val rng nbits_total set_val set_rng]. rewrite S7, S6, S5. rewrite shift_val by lia.
  rewrite Z.shiftl_mul_pow2 by done. change (2 ^ EC_SYM_BITS) with 256 in *.
  rewrite (u32_small (rng c * 256)) by lia.
  set (v' := (val c * 256) mod 2 ^ 31).
  assert (val c * 256 = x * 2 ^ 31 + v' /\ 0 <= v' < 2 ^ 31) as [Hv Hv'].
  { subst x v'. change (2 ^ 31) with (2 ^ 23 * 256). rewrite Z.mul_mod_distr_r by lia. dlia. }
  clearbody v'.
  assert (0 <= ndigits c) as Hnd.
  { destruct ei_buf0. unfold ndigits, rem_len. destruct (_ >=? _); simpl; lia. }
  set (c2 := set_nbits_total _ _).
  assert (abs c2 = a_step (abs c)) as HA.
  { unfold abs, a_step; simpl. change (digits c2) with (digits c1). change (ndigits c2) with (ndigits c1).
    change (endraw c2) with (endraw c1). rewrite D, N, E, S2, S3, S4. f_equal; lia. }
  split; [|done]. constructor; try done; simpl; try lia.
  - destruct B; by constructor.
  - change (digits c2) with (digits c1). change (digits_cap c2) with (digits_cap c1).
    rewrite C. destruct (Z.eqb_spec x 255); [lia|].
    assert (x < 512) by (subst x; dlia). rewrite D.
    replace ((digits c * 256 + x) / 256) with (digits c + x / 256) by dlia.
    assert (x = x / 256 * 256 + x mod 256 /\ 0 <= x mod 256 < 256 /\ x / 256 <= 1) by dlia.
    destruct (decide (x mod 256 = 255)) as [Hx|Hx]; lia.
  - by rewrite S3, S4.
  - rewrite HA, ei_bits0. unfold a_nbits, a_step, EC_SYM_BITS. simpl. lia.
Qed.

(** The number of rounds that normalization needs. *)
Definition rounds (r : Z) : nat :=
  if r <=? 2 ^ 7 then 3 else if r <=? 2 ^ 15 then 2 else if r <=? 2 ^ 23 then 1 else 0.

(** Running the concrete and the abstract loop side by side. *)
Lemma enc_while_ok n c :
  enc_inv c -> good (while_fuel n (fun c => c.(rng) <=? EC_CODE_BOT) enc_normalize_step c) ->
  let c' := while_fuel n (fun c => c.(rng) <=? EC_CODE_BOT) enc_normalize_step c in
  enc_inv c' /\ abs c' = while_fuel n (fun a => arng a <=? 2 ^ 23) a_step (abs c) /\ good c.
Proof.
  cbv zeta. revert c. induction n as [|n IH]; intros c Hi; rewrite ?while_fuel_S; [by simpl|].
  change EC_CODE_BOT with (2 ^ 23) in *. change (arng (abs c)) with (rng c).
  destruct (Z.leb_spec (rng c) (2 ^ 23)) as [Hr|Hr]; [|by simpl]. intros Hg.
  assert (good (enc_normalize_step c)) as Hg1.
  { eapply while_fuel_reflect; [apply enc_step_good|exact Hg]. }
  destruct (enc_step_ok c Hi Hr Hg1) as [Hi1 <-].
  destruct (IH _ Hi1 Hg) as (? & ? & _). split_and!; try done. by apply enc_step_good.
Qed.

(** ** Facts about the abstract normalization *)

Lemma a_norm_rng a : 0 < arng a <= 2 ^ 31 -> 2 ^ 23 < arng (a_norm a) <= 2 ^ 31.
Proof.
  intros Ha. unfold a_norm.
  destruct (while_fuel_rule (fun a => arng a <=? 2 ^ 23) a_step (fun a => 0 < arng a <= 2 ^ 31)
              (fun a => rounds (arng a)) 4 a) as [H1 H2].
  - intros b Hb Hc. apply Z.leb_le in Hc. simpl. split; [lia|].
    unfold rounds. repeat case_cmp; lia.
  - done.
  - unfold rounds. repeat case_cmp; lia.
  - apply Z.leb_gt in H2. lia.
Qed.

Section Fits.
Context (F : list Z) (HF : bytes F).

Lemma fb_digit i : 0 <= fb F i < 256.
Proof. by apply bytes_rd. Qed.
Lemma eb_digit i : 0 <= eb F i < 256.
Proof. by apply bytes_rd. Qed.

(** One more digit refines the code. *)
Lemma code_S n : code F n = code F (S n) / 256.
Proof.
  unfold code. simpl. pose proof (fb_digit (n + 4)). rewrite Z.div_div by lia.
  replace (2 * 256) with (256 * 2) by lia. rewrite <- Z.div_div by lia.
  rewrite (Z.add_comm _ (fb F (n + 4))), Z.div_add, (Z.div_small (fb F (n + 4))) by lia. done.
Qed.

Lemma fits_step a : fits F (a_step a) -> fits F a.
Proof.
  intros [H1 H2]. split; [|done]. simpl in *. rewrite code_S. dlia.
Qed.

Lemma fits_while n a :
  fits F (while_fuel n (fun a => arng a <=? 2 ^ 23) a_step a) -> fits F a.
Proof.
  revert a. induction n as [|n IH]; intros a; [done|]. rewrite while_fuel_S.
  destruct (_ <=? _); [|done]. intros H. by apply fits_step, IH.
Qed.

(** A packet that fits a narrowed state fits the state, inside the sub-interval. *)
Lemma fits_op a o r :
  0 <= o -> 0 < r -> o + r <= arng a -> fits F (a_op o r a) ->
  fits F a /\ low a + o <= code F (nsym a) < low a + o + r.
Proof.
  intros. destruct (fits_while 4 (a_narrow o r a)) as [H3 H4]; [done|]. simpl in *.
  split; [split; [lia|done]|lia].
Qed.

Lemma fits_bits a x n :
  0 <= n -> 0 <= nraw a -> 0 <= raw a < 2 ^ nraw a -> 0 <= x < 2 ^ n -> fits F (a_bits x n a) ->
  fits F a /\
  forall j, nraw a + n <= 8 * Z.of_nat j -> (lesum (eb F) j / 2 ^ nraw a) mod 2 ^ n = x.
Proof.
  intros Hn Hm Hr Hx [H1 H2]. simpl in *. unfold rawcode in H2.
  assert (forall j, nraw a + n <= 8 * Z.of_nat j ->
            lesum (eb F) j mod 2 ^ (nraw a + n) = raw a + x * 2 ^ nraw a) as H3.
  { intros j Hj. rewrite <- H2. apply lesum_mod; lia. }
  split; [split; [done|]|].
  - unfold rawcode. rewrite (lesum_mod _ _ (Z.to_nat (nraw a + n))) by lia.
    rewrite <- (mod_mod_pow2 _ _ (nraw a + n)), H3 by lia.
    rewrite Z.mod_add by lia. by apply Z.mod_small.
  - intros j Hj. rewrite div_mod_pow2, H3, Z.div_add, Z.div_small by lia. done.
Qed.
End Fits.

(** ** Narrowing operations refine the abstract coder *)

Lemma set_val_id c : set_val (val c) c = c.
Proof. by destruct c. Qed.

Lemma enc_narrow_ok c o r :
  enc_ok c -> 0 <= o -> 0 < r -> o + r <= c.(rng) ->
  let c' := ec_enc_normalize (set_rng r (set_val (c.(val) + o) c)) in
  good c' -> enc_ok c' /\ abs c' = a_op o r (abs c) /\ good c.
Proof.
  intros [Hi Hr] Ho Hr0 Hor c' Hg. set (c1 := set_rng r (set_val (val c + o) c)) in *.
  assert (abs c1 = a_narrow o r (abs c)) as HA.
  { unfold abs, a_narrow; simpl. change (digits c1) with (digits c). f_equal. lia. }
  assert (enc_inv c1) as Hi1.
  { destruct Hi. constructor; try done; try (simpl; lia).
    - destruct ei_buf0; by constructor.
    - change (digits c1) with (digits c). change (digits_cap c1) with (digits_cap c). simpl. lia. }
  destruct (enc_while_ok 4 c1 Hi1 Hg) as (H1 & H2 & H3). rewrite HA in H2. split_and!; [|done|done].
  split; [done|]. change (2 ^ 23 < arng (abs c')). unfold c', ec_enc_normalize. rewrite H2.
  apply (a_norm_rng (a_narrow o r (abs c))). destruct Hi. simpl. lia.
Qed.

(** ** Raw bits written at the end *)

Lemma write_end_sticky c v : error (write_or_error (ec_write_byte_at_end c v)) = 0 -> error c = 0.
Proof.
  unfold write_or_error, ec_write_byte_at_end. by case_match; simpl; intros [? _]%lor_eq_0.
Qed.

(** The part of the state that a write at the end keeps. *)
Definition same_front (c c' : ec_ctx) : Prop :=
  written c' = written c /\ c'.(offs) = c.(offs) /\ c'.(rem) = c.(rem) /\ c'.(ext) = c.(ext) /\
  c'.(val) = c.(val) /\ c'.(rng) = c.(rng) /\ c'.(nbits_total) = c.(nbits_total) /\
  c'.(storage) = c.(storage).

Lemma same_front_digits c c' :
  same_front c c' -> digits c' = digits c /\ ndigits c' = ndigits c /\ digits_cap c' = digits_cap c.
Proof.
  intros (H1 & H2 & H3 & H4 & _). unfold digits, ndigits, digits_cap, digits_hd, rem_len.
  by rewrite H1, H2, H3, H4.
Qed.

Lemma write_end_ok c v :
  buf_ok c -> error (write_or_error (ec_write_byte_at_end c v)) = 0 ->
  let c' := write_or_error (ec_write_byte_at_end c v) in
  buf_ok c' /\ same_front c c' /\ c'.(end_offs) = c.(end_offs) + 1 /\
  endraw c' = endraw c + u8 v * 256 ^ c.(end_offs).
Proof.
  intros [] He. unfold write_or_error, ec_write_byte_at_end in *.
  rewrite u32_small in * by lia.
  destruct (Z.geb_spec (offs c + end_offs c) (storage c)).
  { simpl in He. apply lor_eq_0 in He. lia. }
  rewrite u32_small in * by lia. cbn [fst snd end_offs storage buf set_end_offs set_buf] in *.
  rewrite u32_small in * by lia. cbv zeta.
  set (i := storage c - (end_offs c + 1)). split_and!.
  - constructor; simpl; rewrite ?len_wr; try done; try lia.
    apply bytes_wr; [done|apply u8_range].
  - unfold same_front; simpl. split_and!; try done. unfold written; simpl.
    apply besum_ext. intros k Hk. unfold fb. apply rd_wr_ne. subst i. lia.
  - done.
  - unfold endraw; simpl. rewrite Z2Nat.inj_add by lia. rewrite Nat.add_1_r. simpl lesum.
    rewrite Z2Nat.id by lia. f_equal.
    + apply lesum_ext. intros k Hk. unfold endbyte; simpl. apply rd_wr_ne. subst i. lia.
    + f_equal. unfold endbyte; simpl. rewrite Z2Nat.id by lia.
      replace (storage c - 1 - end_offs c) with i by lia. apply rd_wr_eq. subst i. lia.
Qed.

(** The flushing loops of [ec_enc_bits] and [ec_enc_done], from a context [c0]
    and a window [w0] of [u0] bits: the raw bits written plus the window stay
    the same. *)
Definition flushed (c0 : ec_ctx) (w0 u0 : Z) (t : ec_ctx * Z * Z) : Prop :=
  0 <= t.2 <= 32 /\
  (t.1.1.(error) = 0 ->
   buf_ok t.1.1 /\ same_front c0 t.1.1 /\ 0 <= t.1.2 < 2 ^ t.2 /\
   endraw t.1.1 + 2 ^ (8 * t.1.1.(end_offs)) * t.1.2 = endraw c0 + 2 ^ (8 * c0.(end_offs)) * w0 /\
   8 * t.1.1.(end_offs) + t.2 = 8 * c0.(end_offs) + u0).

Lemma flush_step_ok c0 w0 u0 t :
  flushed c0 w0 u0 t -> 8 <= t.2 -> flushed c0 w0 u0 (enc_flush_step t).
Proof.
  destruct t as [[c w] used]. unfold flushed, enc_flush_step, EC_SYM_BITS, EC_SYM_MAX.
  cbn [fst snd].
  intros [Hu H] H8. split; [lia|]. intros He.
  destruct (H (write_end_sticky _ _ He)) as (B & S & W & E & U).
  destruct (write_end_ok _ _ B He) as (B' & S' & O' & E').
  set (c' := write_or_error _) in *. rewrite land_255 in E'. clearbody c'.
  rewrite Z.shiftr_div_pow2 by lia. change (2 ^ 8) with 256.
  split_and!; try done; try lia.
  - unfold same_front in *. intuition congruence.
  - apply Z.div_pos; lia.
  - apply Z.div_lt_upper_bound; [lia|]. change 256 with (2 ^ 8). rewrite <- Z.pow_add_r by lia.
    replace (8 + (used - 8)) with used by lia. lia.
  - rewrite E', O', <- E, u8_small by (apply Z.mod_pos_bound; lia).
    replace (8 * (end_offs c + 1)) with (8 + 8 * end_offs c) by lia.
    assert (0 <= end_offs c) by (destruct B; lia).
    rewrite Z.pow_add_r by lia. change 256 with (2 ^ 8) at 2. rewrite <- Z.pow_mul_r by lia.
    pose proof (Z.div_mod w 256). nia.
Qed.

Lemma flush_loop_ok c0 w0 u0 t :
  flushed c0 w0 u0 t ->
  let t' := while_fuel 4 enc_flush_more enc_flush_step t in
  flushed c0 w0 u0 t' /\ t'.2 < 8.
Proof.
  intros H. destruct (while_fuel_rule enc_flush_more enc_flush_step (flushed c0 w0 u0)
    (fun t => Z.to_nat (t.2 / 8)) 4 t) as [H1 H2].
  - intros s Hs Hc. unfold enc_flush_more, EC_SYM_BITS in Hc. apply Z.geb_le in Hc.
    split; [by apply flush_step_ok|]. destruct s as [[c w] u]. simpl in *.
    unfold EC_SYM_BITS. dlia.
  - done.
  - destruct H as [H _]. dlia.
  - split; [done|]. unfold enc_flush_more in H2. rewrite Z.geb_leb, Z.leb_gt in H2. exact H2.
Qed.

Lemma flush_step_good t : good (enc_flush_step t).1.1 -> good t.1.1.
Proof.
  destruct t as [[c w] u]. unfold good. cbn [fst snd enc_flush_step]. intros [He Hn].
  split; [by eapply write_end_sticky|]. revert Hn.
  unfold write_or_error, ec_write_byte_at_end. by case_match.
Qed.

Lemma enc_bits_good x n c : 0 <= n -> good (ec_enc_bits x n c) -> good c.
Proof.
  intros Hn. unfold ec_enc_bits.
  match goal with |- context [if ?b then ?x else (c, ?w, ?u)] =>
    set (t := if b then x else (c, w, u)) end. assert (good t.1.1 -> good c) as Ht.
  { subst t. case_match; [|done]. intros H1.
    apply (flush_step_good (c, end_window c, nend_bits c)).
    revert H1. apply (while_fuel_reflect _ _ (fun t => good t.1.1)). apply flush_step_good. }
  clearbody t. destruct t as [[c' w'] u']. unfold good in *. simpl in *. intros. apply Ht. lia.
Qed.

Lemma enc_bits_ok x n c :
  enc_ok c -> 0 < n <= 25 -> 0 <= x < 2 ^ n -> good (ec_enc_bits x n c) ->
  enc_ok (ec_enc_bits x n c) /\ abs (ec_enc_bits x n c) = a_bits x n (abs c).
Proof.
  intros [Hi Hr] Hn Hx. unfold ec_enc_bits. destruct Hi.
  match goal with |- context [if ?b then ?x else (c, ?w, ?u)] =>
    set (t := if b then x else (c, w, u)) end.
  assert (flushed c c.(end_window) c.(nend_bits) t /\ t.2 + n <= 32) as [Ht Hu].
  { assert (flushed c (end_window c) (nend_bits c) (c, end_window c, nend_bits c)) as H0.
    { unfold flushed; simpl. split; [done|]. intros _. split_and!; try done; lia. }
    subst t. unfold EC_WINDOW_SIZE. destruct (Z.gtb_spec (nend_bits c + n) 32); [|done].
    destruct (flush_loop_ok _ _ _ _ (flush_step_ok _ _ _ _ H0 ltac:(simpl; lia))) as [H1 H2].
    split; [done|lia]. }
  clearbody t. destruct t as [[c1 w] u]. unfold flushed in Ht. cbn [fst snd] in *.
  destruct Ht as [Hu0 Ht]. intros [He Hnb]. simpl in He.
  destruct (Ht He) as (B & S & W & E & U). clear Ht.
  pose proof (same_front_digits _ _ S) as (D1 & D2 & D3).
  destruct S as (S1 & S2 & S3 & S4 & S5 & S6 & S7 & S8).
  assert (0 <= end_offs c1) by (destruct B; lia).
  assert (0 <= x * 2 ^ u < 2 ^ (u + n)) as Hxu by (rewrite Z.pow_add_r by lia; nia).
  pose proof (Z.pow_le_mono_r 2 (u + n) 32 ltac:(lia) ltac:(lia)) as Hle.
  rewrite Z.shiftl_mul_pow2, u32_small, lor_add_pow2 by lia.
  set (c2 := set_nbits_total _ _).
  assert (abs c2 = a_bits x n (abs c)) as HA.
  { unfold abs, a_bits; simpl. change (digits c2) with (digits c1).
    change (ndigits c2) with (ndigits c1). change (endraw c2) with (endraw c1).
    rewrite D1, D2, S5, S6. f_equal; [|lia].
    rewrite Z.mul_add_distr_l, Z.add_assoc, E. f_equal.
    rewrite <- U, Z.pow_add_r by lia. lia. }
  split; [|done]. split; [|simpl; lia]. constructor; try (simpl; done); try (simpl; lia).
  - destruct B; by constructor.
  - unfold rem_ok in *. simpl. by rewrite S2, S3.
  - change (digits c2) with (digits c1). change (digits_cap c2) with (digits_cap c1).
    simpl. rewrite D1, D3. lia.
  - simpl. rewrite Z.pow_add_r in * by lia. nia.
  - rewrite HA. unfold a_nbits in *. simpl in *. lia.
Qed.
