(* ===== verification/RangeDone.v ===== *)
(** * Finishing a packet (ec_enc_init and ec_enc_done)

    [ec_enc_done] chooses a code value that lies in the final interval whatever
    bits follow it, writes its digits and the remaining raw bits, and merges the
    last raw bits into a free part of a byte.  The result is that the packet it
    leaves in the buffer fits the encoder state ([enc_done_fits]). *)

From S2P Require Import Prelude RangeCoder EntCode RangeSpec.

#[local] Arguments write_or_error : simpl never.
#[local] Arguments ec_write_byte : simpl never.
#[local] Arguments ec_enc_carry_out : simpl never.
#[local] Arguments ec_write_byte_at_end : simpl never.

(** ** The initial state *)

Lemma enc_init_ok b size :
  0 <= size < 2 ^ 32 -> size <= len b -> bytes b ->
  enc_ok (ec_enc_init b size) /\ abs (ec_enc_init b size) = a_init.
Proof.
  intros Hs Hl Hb. split; [|done]. split; [|done].
  constructor; try done; simpl; try lia. constructor; simpl; try done; lia.
Qed.

(** ** The final code value *)

Lemma ldiff_align x s : 0 <= s -> Z.ldiff x (2 ^ s - 1) = x - x mod 2 ^ s.
Proof.
  intros Hs. replace (2 ^ s - 1) with (Z.ones s) by (rewrite Z.ones_equiv; lia).
  rewrite Z.ldiff_ones_r, Z.shiftl_mul_pow2, Z.shiftr_div_pow2 by done. dlia.
Qed.

Lemma lor_align e s : 0 <= s -> e mod 2 ^ s = 0 -> Z.lor e (2 ^ s - 1) = e + (2 ^ s - 1).
Proof.
  intros Hs He. pose proof (Z.pow_pos_nonneg 2 s ltac:(lia) Hs).
  rewrite Z.lor_comm. replace e with (e / 2 ^ s * 2 ^ s) by dlia.
  rewrite lor_add_pow2 by lia. lia.
Qed.

(** Rounding [v] up to a multiple of 2^s. *)
Lemma round_up v s :
  0 <= s -> 0 <= v ->
  let e := (v + (2 ^ s - 1)) - (v + (2 ^ s - 1)) mod 2 ^ s in
  e mod 2 ^ s = 0 /\ v <= e < v + 2 ^ s.
Proof.
  intros Hs Hv e. pose proof (Z.pow_pos_nonneg 2 s ltac:(lia) Hs) as Hp.
  pose proof (Z.mod_pos_bound (v + (2 ^ s - 1)) (2 ^ s) Hp).
  split; [|subst e; lia]. subst e.
  by rewrite Zminus_mod_idemp_r, Z.sub_diag, Zmod_0_l.
Qed.

(** The final value and its number of significant bits: any code that agrees
    with [e] on the leading [l] of 31 bits is in [val, val + rng). *)
Lemma enc_done_end_ok c e l :
  0 <= c.(val) -> 2 ^ 23 < c.(rng) <= 2 ^ 31 -> c.(val) + c.(rng) < 2 ^ 32 ->
  enc_done_end c = (e, l) ->
  0 <= l <= 9 /\ c.(val) <= e /\ e + 2 ^ (31 - l) <= c.(val) + c.(rng) /\ e mod 2 ^ (31 - l) = 0.
Proof.
  intros Hv Hr Ht. unfold enc_done_end. cbv zeta.
  pose proof (ec_ilog_bounds (rng c) ltac:(lia)) as Hl. fold (EC_ILOG (rng c)) in Hl.
  set (g := EC_ILOG (rng c)) in *.
  assert (24 <= g <= 32) as Hg.
  { split; [destruct (Z.le_gt_cases 24 g); [done|] | destruct (Z.le_gt_cases g 32); [done|]].
    - pose proof (Z.pow_le_mono_r 2 g 23 ltac:(lia) ltac:(lia)). lia.
    - pose proof (Z.pow_le_mono_r 2 32 (g - 1) ltac:(lia) ltac:(lia)). lia. }
  unfold EC_CODE_BITS. change (EC_CODE_TOP - 1) with (Z.ones 31).
  assert (Z.shiftr (Z.ones 31) (32 - g) = 2 ^ (g - 1) - 1) as Hm.
  { rewrite Z.shiftr_div_pow2, Z.ones_div_pow2 by lia. rewrite Z.ones_equiv.
    replace (31 - (32 - g)) with (g - 1) by lia. lia. }
  assert (Z.shiftr (2 ^ (g - 1) - 1) 1 = 2 ^ (g - 2) - 1) as Hm1.
  { replace (2 ^ (g - 1)) with (2 * 2 ^ (g - 2))
      by (rewrite <- Z.pow_succ_r by lia; f_equal; lia).
    rewrite Z.shiftr_div_pow2 by lia. change (2 ^ 1) with 2. dlia. }
  rewrite Hm, Hm1. rewrite !ldiff_align by lia.
  assert (2 ^ (g - 1) = 2 * 2 ^ (g - 2)) as Hd
    by (rewrite <- Z.pow_succ_r by lia; f_equal; lia).
  pose proof (Z.pow_pos_nonneg 2 (g - 2) ltac:(lia) ltac:(lia)) as Hp.
  rewrite !u32_small by lia.
  destruct (round_up (val c) (g - 1) ltac:(lia) Hv) as [A1 A2].
  destruct (round_up (val c) (g - 2) ltac:(lia) Hv) as [B1 B2].
  set (e1 := val c + (2 ^ (g - 1) - 1) - _) in *.
  set (e2 := val c + (2 ^ (g - 2) - 1) - _) in *.
  rewrite lor_align by (done || lia).
  destruct (Z.geb_spec (e1 + (2 ^ (g - 1) - 1)) (val c + rng c)); intros [= <- <-].
  - replace (31 - (32 - g + 1)) with (g - 2) by lia. split_and!; try done; try lia.
  - replace (31 - (32 - g)) with (g - 1) by lia. split_and!; try done; try lia.
Qed.

(** ** Writing the digits of the final value *)

Definition done_inv (c : ec_ctx) (e : Z) : Prop :=
  buf_ok c /\ rem_ok c /\ 0 <= e < 2 ^ 32 /\ digits c * 2 ^ 31 + e < digits_cap c * 2 ^ 31.

(** The state after [m] rounds of the loop from [c], [e]. *)
Definition done_after (c : ec_ctx) (e m : Z) (c' : ec_ctx) (e' : Z) : Prop :=
  done_inv c' e' /\ same_rest c c' /\ endraw c' = endraw c /\
  ndigits c' = ndigits c + m /\ (0 < m -> e' < 2 ^ 31) /\ (m = 0 -> e' = e) /\
  digits c' * 2 ^ 31 + e' = (digits c * 2 ^ 31 + e) * 256 ^ m.

Lemma ext_le_ndigits c : buf_ok c -> 0 <= c.(ext) <= ndigits c.
Proof. intros []. unfold ndigits, rem_len. destruct (_ >=? _); simpl; lia. Qed.

Lemma done_step_ok c e :
  done_inv c e -> ndigits c + 1 < 2 ^ 32 ->
  error (ec_enc_carry_out c (Z.shiftr e EC_CODE_SHIFT)) = 0 ->
  done_after c e 1 (ec_enc_carry_out c (Z.shiftr e EC_CODE_SHIFT))
    (Z.land (u32 (Z.shiftl e EC_SYM_BITS)) (EC_CODE_TOP - 1)).
Proof.
  intros (B & R & He & Hc) Hx Herr. rewrite shift_val by done.
  pose proof (ext_le_ndigits c B) as Hext.
  rewrite Z.shiftr_div_pow2 in * by done. change (2 ^ EC_CODE_SHIFT) with (2 ^ 23) in *.
  set (x := e / 2 ^ 23) in *. assert (0 <= x < 512) as Hx5 by (subst x; dlia).
  destruct (carry_out_ok c x) as (B' & R' & S & E & D & N & C); try done; try (subst x; dlia).
  assert (e * 256 = x * 2 ^ 31 + (e * 256) mod 2 ^ 31) as Hv.
  { subst x. change (2 ^ 31) with (2 ^ 23 * 256). rewrite Z.mul_mod_distr_r by lia. dlia. }
  pose proof (Z.mod_pos_bound (e * 256) (2 ^ 31) ltac:(lia)) as Hv'.
  unfold done_after, done_inv. split_and!; try done; try lia.
  rewrite C. destruct (Z.eqb_spec x 255); [lia|]. rewrite D.
  assert (digits c * 256 + x < ((digits c * 256 + x) / 256 + 1) * 256) by dlia. lia.
Qed.

Lemma done_after_trans c e m c1 e1 c2 e2 :
  0 <= m -> done_after c e m c1 e1 -> done_after c1 e1 1 c2 e2 -> done_after c e (m + 1) c2 e2.
Proof.
  intros Hm (_ & S1 & E1 & N1 & _ & _ & D1) (I & S2 & E2 & N2 & L2 & _ & D2). unfold done_after.
  split_and!; try done; try congruence; try lia; [by eapply same_rest_trans|].
  rewrite D2, D1, Z.pow_add_r by lia. lia.
Qed.

Lemma done_step_sticky t : (enc_done_step t).1.1.(error) = 0 -> t.1.1.(error) = 0.
Proof. destruct t as [[c e] l]. apply carry_out_sticky. Qed.

(** The loop runs [m] rounds, the least number with [l <= 8 * m]. *)
Lemma done_loop_ok c e l :
  done_inv c e -> 0 <= l <= 9 -> ndigits c + 2 < 2 ^ 32 ->
  let t := while_fuel 2 enc_done_more enc_done_step (c, e, l) in
  t.1.1.(error) = 0 ->
  exists m, 0 <= m <= 2 /\ l <= 8 * m < l + 8 /\ t.2 = l - 8 * m /\ done_after c e m t.1.1 t.1.2.
Proof.
  intros Hi Hl Hn. cbv zeta. rewrite !while_fuel_S. change (enc_done_more (c, e, l)) with (l >? 0).
  destruct (Z.gtb_spec l 0) as [H0|H0].
  2:{ intros _. exists 0. cbn [fst snd]. split_and!; try lia.
      unfold done_after. split_and!; try done; lia. }
  change (enc_done_more (enc_done_step (c, e, l))) with (l - 8 >? 0).
  destruct (Z.gtb_spec (l - 8) 0) as [H1|H1].
  - rewrite while_fuel_O. intros Herr. pose proof (done_step_sticky _ Herr) as Herr1.
    cbn [fst snd enc_done_step] in *.
    destruct (done_step_ok c e) as (I1 & S1 & E1 & N1 & L1 & L0 & D1); try done; [lia|].
    exists 2. split_and!; try (unfold EC_SYM_BITS; lia).
    eapply (done_after_trans _ _ 1); [lia|by split_and!|].
    apply done_step_ok; [done| |exact Herr]. rewrite N1. lia.
  - intros Herr. cbn [fst snd enc_done_step] in *. exists 1. split_and!; try (unfold EC_SYM_BITS; lia).
    apply done_step_ok; try done. lia.
Qed.

(** ** Flushing what is buffered *)

Lemma rest_front c c' : same_rest c c' -> endraw c' = endraw c ->
  endraw c' + 2 ^ (8 * c'.(end_offs)) * c'.(end_window)
    = endraw c + 2 ^ (8 * c.(end_offs)) * c.(end_window).
Proof. intros (S1 & S2 & S3 & _) ->. by rewrite S2, S3. Qed.

(** After the last flush every digit is a written byte. *)
Lemma done_flush_ok c :
  buf_ok c -> rem_ok c -> digits c < digits_cap c ->
  let c' := if (c.(rem) >=? 0) || (c.(ext) >? 0) then ec_enc_carry_out c 0 else c in
  error c' = 0 ->
  buf_ok c' /\ same_rest c c' /\ endraw c' = endraw c /\
  c'.(offs) = ndigits c /\ written c' = digits c.
Proof.
  intros B R Hc c' He. subst c'.
  destruct (Z.geb_spec (rem c) 0) as [H|H]; simpl in *;
    [|destruct (Z.gtb_spec (ext c) 0) as [H'|H']; simpl in *].
  3:{ unfold ndigits, rem_len, digits, digits_hd. destruct R as [R1 R2], B.
      replace (ext c) with 0 by lia. destruct (Z.geb_spec (rem c) 0); [lia|]. simpl.
      unfold written. rewrite R2 by lia. by split_and!. }
  1,2: rewrite carry_out_flush in *; simpl in *; change (Z.shiftr 0 8) with 0 in *;
    destruct R as [R1 R2];
    destruct (flush_ok c 0) as (B' & S & E & X & O & W); try done; try lia;
    split_and!; try done; [destruct B'; by constructor|];
    change (written (set_rem _ ?x)) with (written x); lia.
Qed.

(** ** The tail of the packet *)

Lemma rd_clear b i n k :
  0 <= k < len b -> rd (opus_clear b i n) k = if (i <=? k) && (k <? i + n) then 0 else b.[k].
Proof. intros Hk. unfold opus_clear. rewrite rd_imap by done. by rewrite Z2Nat.id by lia. Qed.
Lemma len_clear b i n : len (opus_clear b i n) = len b.
Proof. unfold opus_clear, len. by rewrite length_imap. Qed.
Lemma bytes_clear b i n : bytes b -> bytes (opus_clear b i n).
Proof.
  unfold bytes, opus_clear. rewrite !Forall_lookup. intros H k x Hk.
  rewrite list_lookup_imap in Hk. destruct (b !! k) eqn:E; [|done]. simpl in Hk.
  injection Hk as <-. case_match; [lia|]. by eapply H.
Qed.

(** The packet after the unused space is cleared and [m] is merged into the
    byte before the raw bytes. *)
Definition done_packet (c : ec_ctx) (m : Z) : list Z :=
  let b := opus_clear c.(buf) c.(offs) (c.(storage) - c.(offs) - c.(end_offs)) in
  let p := c.(storage) - c.(end_offs) - 1 in
  take (Z.to_nat c.(storage)) (b.[p <- Z.lor b.[p] m]).

Section DonePacket.
Context (c : ec_ctx) (window used l : Z).
Context (B : buf_ok c) (Hw : 0 <= window < 2 ^ used) (Hu : 0 <= used < 8) (Hl : -8 < l <= 0).
(** The free low bits of the last written byte are zero, and there is room for
    the raw bits in them if no byte is free. *)
Context (Hfree : written c mod 2 ^ (- l) = 0).
Context (Hroom : used = 0 \/ c.(end_offs) < c.(storage)).
Context (Hbusy : c.(offs) + c.(end_offs) >= c.(storage) -> used <= - l).

Let p := c.(storage) - c.(end_offs) - 1.
Let F := done_packet c window.

Lemma done_packet_len : len F = c.(storage).
Proof.
  destruct B. unfold F, done_packet. rewrite len_take; [lia|].
  rewrite len_wr, len_clear. lia.
Qed.

(** The byte that takes the last raw bits has its low [used] bits clear. *)
Lemma done_free_bits :
  c.(offs) + c.(end_offs) = c.(storage) -> 0 < c.(offs) -> c.(buf).[c.(offs) - 1] mod 2 ^ used = 0.
Proof.
  intros He Ho. rewrite <- (mod_mod_pow2 _ _ (- l)) by lia.
  replace (buf c).[offs c - 1] with (written c - besum (fb (buf c)) (Z.to_nat (offs c - 1)) * 256).
  - rewrite Zminus_mod, Hfree. replace 256 with (2 ^ (8 + l) * 2 ^ (- l))
      by (rewrite <- Z.pow_add_r by lia; change 256 with (2 ^ 8); f_equal; lia).
    rewrite Z.mul_assoc, Z.mod_mul by lia. by rewrite !Zmod_0_l.
  - unfold written. replace (Z.to_nat (offs c)) with (S (Z.to_nat (offs c - 1))) by lia.
    simpl. unfold fb at 2. rewrite Z2Nat.id by lia. lia.
Qed.

Lemma done_byte k :
  0 <= k < c.(storage) ->
  F.[k] = (if (c.(offs) <=? k) && (k <? c.(storage) - c.(end_offs)) then 0 else c.(buf).[k])
          + (if k =? p then window else 0).
Proof.
  intros Hk. destruct B. unfold F, p, done_packet. rewrite rd_take by lia.
  set (b := opus_clear _ _ _).
  assert (forall j, 0 <= j < storage c ->
    b.[j] = if (offs c <=? j) && (j <? storage c - end_offs c) then 0 else (buf c).[j]) as Hb.
  { intros j Hj. subst b. rewrite rd_clear by lia.
    by replace (offs c + (storage c - offs c - end_offs c)) with (storage c - end_offs c) by lia. }
  destruct (Z.eqb_spec k (storage c - end_offs c - 1)) as [E|E].
  - rewrite <- E, rd_wr_eq by (subst b; rewrite len_clear; lia). rewrite Hb by done.
    match goal with |- Z.lor ?y _ = _ => set (x := y) end. assert (x mod 2 ^ used = 0) as Hx.
    { subst x. repeat case_cmp; simpl; rewrite ?Zmod_0_l; try done; try lia.
      replace k with (offs c - 1) by lia. apply done_free_bits; lia. }
    rewrite Z.lor_comm. replace x with (x / 2 ^ used * 2 ^ used) by dlia.
    rewrite lor_add_pow2 by lia. lia.
  - rewrite rd_wr_ne by lia. rewrite Hb by done. lia.
Qed.

(** The code in the front of the packet: the written digits, and something
    below their last significant bit. *)
Lemma done_packet_front :
  exists d, 0 <= d < 2 ^ (- l) /\ besum (fb F) (Z.to_nat c.(offs)) = written c + d.
Proof.
  pose proof (Z.pow_pos_nonneg 2 (- l) ltac:(lia) ltac:(lia)) as Hp. destruct B.
  assert (forall n, Z.of_nat n <= offs c -> Z.of_nat n <= p ->
    besum (fb F) n = besum (fb (buf c)) n) as Hpre.
  { intros n Hn Hnp. apply besum_ext. intros i Hi. unfold fb. rewrite done_byte by lia.
    repeat case_cmp; simpl; lia. }
  destruct (Z.le_gt_cases (offs c) p) as [Hop|Hop].
  { exists 0. split; [lia|]. unfold written. rewrite Hpre by lia. lia. }
  destruct (Z.eq_dec (offs c) 0) as [Ho|Ho].
  { exists 0. unfold written. rewrite Ho. simpl. lia. }
  unfold p in *. exists window. pose proof (Z.pow_le_mono_r 2 used (- l) ltac:(lia) ltac:(lia)).
  split; [lia|]. unfold written.
  replace (Z.to_nat (offs c)) with (S (Z.to_nat (offs c - 1))) by lia. simpl.
  rewrite Hpre by lia. unfold fb at 2 4. rewrite Z2Nat.id by lia. rewrite done_byte by lia.
  repeat case_cmp; simpl; lia.
Qed.

(** The raw bits at the end of the packet. *)
Lemma done_packet_raw :
  rawcode F (8 * c.(end_offs) + used) = endraw c + 2 ^ (8 * c.(end_offs)) * window.
Proof.
  pose proof done_packet_len as HlF. destruct B.
  assert (lesum (eb F) (Z.to_nat (end_offs c)) = endraw c) as He.
  { apply lesum_ext. intros i Hi. unfold eb, endbyte. rewrite HlF, done_byte by lia.
    unfold p. repeat case_cmp; simpl; lia. }
  unfold rawcode. destruct Hroom as [Hu0|Hr].
  - replace window with 0 by (rewrite Hu0 in Hw; change (2 ^ 0) with 1 in Hw; lia).
    rewrite Hu0, (lesum_mod _ _ (Z.to_nat (end_offs c))) by lia. rewrite He.
    rewrite Z.mod_small; [lia|]. unfold endraw.
    replace (8 * end_offs c + 0) with (8 * Z.of_nat (Z.to_nat (end_offs c))) by lia.
    rewrite <- pow256. apply lesum_range. intros i. by apply bytes_rd.
  - rewrite (lesum_mod _ _ (S (Z.to_nat (end_offs c)))) by lia. simpl. rewrite He.
    rewrite Z2Nat.id by lia. unfold eb. rewrite Z2Nat.id, HlF, done_byte by lia.
    replace (storage c - 1 - end_offs c) with p by (unfold p; lia). rewrite Z.eqb_refl.
    set (x := if _ && _ then 0 else _).
    assert (x mod 2 ^ used = 0) as Hx.
    { subst x. unfold p. repeat case_cmp; simpl; rewrite ?Zmod_0_l; try done; try lia.
      replace (storage c - end_offs c - 1) with (offs c - 1) by lia. apply done_free_bits; lia. }
    replace x with (x / 2 ^ used * 2 ^ used) by dlia. rewrite Z.pow_add_r by lia.
    change 256 with (2 ^ 8). rewrite <- Z.pow_mul_r by lia.
    replace (endraw c + (x / 2 ^ used * 2 ^ used + window) * 2 ^ (8 * end_offs c)) with
      (endraw c + 2 ^ (8 * end_offs c) * window + x / 2 ^ used * (2 ^ (8 * end_offs c) * 2 ^ used))
      by lia.
    rewrite Z.mod_add by lia. apply Z.mod_small. unfold endraw.
    pose proof (lesum_range (endbyte c) ltac:(intros; by apply bytes_rd) (Z.to_nat (end_offs c))) as HR.
    rewrite pow256, Z2Nat.id in HR by lia. nia.
Qed.

Lemma done_packet_bytes : bytes F.
Proof.
  destruct B. unfold F, done_packet. apply bytes_take, bytes_wr; [by apply bytes_clear|].
  change 256 with (2 ^ 8). apply lor_range; [by apply bytes_rd, bytes_clear|].
  pose proof (Z.pow_le_mono_r 2 used 8). lia.
Qed.
End DonePacket.

(** ** The whole of ec_enc_done *)

Lemma done_tail_ok c window used l :
  buf_ok c -> 0 <= window < 2 ^ used -> 0 <= used < 8 -> -8 < l <= 0 ->
  error (enc_done_tail c window used l) = 0 ->
  (used = 0 \/ c.(end_offs) < c.(storage)) /\
  (c.(offs) + c.(end_offs) >= c.(storage) -> used <= - l) /\
  storage (enc_done_tail c window used l) = c.(storage) /\
  take (Z.to_nat c.(storage)) (buf (enc_done_tail c window used l)) = done_packet c window.
Proof.
  intros B Hw Hu Hl. pose proof B as []. unfold enc_done_tail, done_packet. rewrite bo_error.
  change (0 =? 0) with true. cbv iota zeta. cbn [set_buf end_offs storage offs buf].
  destruct (Z.gtb_spec used 0) as [H0|H0].
  - destruct (Z.geb_spec (end_offs c) (storage c)) as [H1|H1]; [by simpl|].
    rewrite u32_small by lia. pose proof (Z.pow_le_mono_r 2 used 8) as H8.
    destruct (Z.geb_spec (offs c + end_offs c) (storage c)) as [H2|H2];
      [destruct (Z.ltb_spec (- l) used) as [H3|H3]|]; simpl; intros Herr; try done.
    all: rewrite (u8_small window) by lia; split_and!; try done; lia.
  - assert (used = 0) as -> by lia. change (2 ^ 0) with 1 in Hw. intros _.
    assert (window = 0) as -> by lia. rewrite Z.lor_0_r, wr_same. simpl. split_and!; try done; lia.
Qed.

(** [enc_done_tail] never clears the error. *)
Lemma done_tail_sticky c window used l :
  error (enc_done_tail c window used l) = 0 -> error c = 0.
Proof.
  unfold enc_done_tail. destruct (Z.eqb_spec (error c) 0); [done|]. done.
Qed.

Lemma flush_loop_sticky n t :
  (while_fuel n enc_flush_more enc_flush_step t).1.1.(error) = 0 -> t.1.1.(error) = 0.
Proof.
  apply (while_fuel_reflect _ _ (fun t => error t.1.1 = 0)).
  intros [[c w] u]. apply write_end_sticky.
Qed.

(** The code in the packet: [n] digits of the state, then [m] more. *)
Lemma code_between F n m D d (l : Z) :
  bytes F -> 0 <= l <= 8 * Z.of_nat m -> (m <= 3)%nat ->
  besum (fb F) (n + m) = D + d -> 0 <= d < 2 ^ (8 * Z.of_nat m - l) ->
  D * 2 ^ (31 - 8 * Z.of_nat m) <= code F n < D * 2 ^ (31 - 8 * Z.of_nat m) + 2 ^ (31 - l).
Proof.
  intros HF Hl Hm Hb Hd. unfold code.
  destruct (besum_add (fb F) ltac:(intros; by apply bytes_rd) (n + m) (4 - m)) as (t & Ht & E).
  replace (n + m + (4 - m))%nat with (n + 4)%nat in E by lia. rewrite E, Hb.
  rewrite pow256 in *. replace (8 * Z.of_nat (4 - m)) with (1 + (31 - 8 * Z.of_nat m)) in * by lia.
  rewrite Z.pow_add_r in * by lia. change (2 ^ 1) with 2 in *.
  replace (31 - l) with ((8 * Z.of_nat m - l) + (31 - 8 * Z.of_nat m)) by lia.
  rewrite Z.pow_add_r by lia. set (P := 2 ^ (31 - 8 * Z.of_nat m)) in *.
  set (Q := 2 ^ (8 * Z.of_nat m - l)) in *.
  split; [apply Z.div_le_lower_bound|apply Z.div_lt_upper_bound]; nia.
Qed.

(** The digits [D1] written for the value [D0 * 2^31 + e], in [m] more bytes. *)
Lemma done_value D0 e l m D1 e1 :
  0 <= l -> 0 <= m <= 2 -> l <= 8 * m < l + 8 -> e mod 2 ^ (31 - l) = 0 ->
  0 <= e1 -> (0 < m -> e1 < 2 ^ 31) -> (m = 0 -> e1 < 2 ^ 31) ->
  D1 * 2 ^ 31 + e1 = (D0 * 2 ^ 31 + e) * 256 ^ m ->
  e1 = 0 /\ D1 mod 2 ^ (8 * m - l) = 0 /\ D0 * 2 ^ 31 + e = D1 * 2 ^ (31 - 8 * m).
Proof.
  intros Hl Hm Hlm He H0 H1 H2 HD.
  assert (256 ^ m = 2 ^ (8 * m)) as Hp by (rewrite Z.pow_mul_r by lia; done).
  assert (D1 * 2 ^ 31 + e1 = 2 ^ 31 * (2 ^ (8 * m - l) * (D0 * 2 ^ l + e / 2 ^ (31 - l)))) as HX.
  { rewrite HD, Hp. replace e with (e / 2 ^ (31 - l) * 2 ^ (31 - l)) at 1 by dlia.
    replace (2 ^ 31) with (2 ^ l * 2 ^ (31 - l)) by (rewrite <- Z.pow_add_r by lia; f_equal; lia).
    replace (2 ^ (8 * m)) with (2 ^ l * 2 ^ (8 * m - l))
      by (rewrite <- Z.pow_add_r by lia; f_equal; lia). lia. }
  set (X := 2 ^ (8 * m - l) * _) in HX.
  assert (e1 = 0 /\ D1 = X) as [-> ->] by lia. split_and!; [done| |].
  - subst X. rewrite Z.mul_comm. apply Z.mod_mul. lia.
  - apply (Z.mul_cancel_r _ _ (2 ^ (8 * m))); [lia|]. rewrite <- Z.mul_assoc, <- Z.pow_add_r by lia.
    replace (31 - 8 * m + 8 * m) with 31 by lia. lia.
Qed.

Lemma same_rest_raw c c' : same_rest c c' -> endraw c' = endraw c ->
  raw (abs c') = raw (abs c) /\ nraw (abs c') = nraw (abs c).
Proof. intros (S1 & S2 & S3 & S4 & _) E. simpl. by rewrite E, S2, S3, S4. Qed.

(** The two flushes in a row: bytes written for all digits, fewer than 8 raw
    bits left. *)
Lemma done_flushes_ok c1 :
  let c2 := if (c1.(rem) >=? 0) || (c1.(ext) >? 0) then ec_enc_carry_out c1 0 else c1 in
  let t := while_fuel 4 enc_flush_more enc_flush_step (c2, c2.(end_window), c2.(nend_bits)) in
  t.1.1.(error) = 0 ->
  error c1 = 0 /\
  (buf_ok c1 -> rem_ok c1 -> digits c1 < digits_cap c1 ->
   0 <= c1.(nend_bits) <= 32 -> 0 <= c1.(end_window) < 2 ^ c1.(nend_bits) ->
   buf_ok t.1.1 /\ storage t.1.1 = c1.(storage) /\
   offs t.1.1 = ndigits c1 /\ written t.1.1 = digits c1 /\
   0 <= t.1.2 < 2 ^ t.2 /\ 0 <= t.2 < 8 /\
   endraw t.1.1 + 2 ^ (8 * end_offs t.1.1) * t.1.2 = raw (abs c1) /\
   8 * end_offs t.1.1 + t.2 = nraw (abs c1)).
Proof.
  intros c2 t Herr. pose proof (flush_loop_sticky 4 _ Herr) as H2. cbn [fst] in H2. split.
  { revert H2. subst c2. case_match; [apply carry_out_sticky|done]. }
  intros B R C Hn Hw. destruct (done_flush_ok c1 B R C H2) as (B2 & S2 & E2 & O2 & W2).
  fold c2 in B2, S2, E2, O2, W2.
  destruct (same_rest_raw _ _ S2 E2) as [<- <-].
  destruct S2 as (S21 & S22 & S23 & S24 & _).
  destruct (flush_loop_ok c2 (end_window c2) (nend_bits c2) (c2, end_window c2, nend_bits c2))
    as [[Hu H3] Hu8].
  { unfold flushed. cbn [fst snd]. rewrite S23, S24. split; [done|]. intros _. split_and!; try done; lia. }
  fold t in Hu, H3, Hu8. destruct (H3 Herr) as (B3 & F3 & W3 & E3 & U3).
  destruct F3 as (F1 & F2 & _ & _ & _ & _ & _ & F8).
  split_and!; try done; try lia; congruence.
Qed.

(** [ec_enc_done] up to its tail: the packet's digits spell a value [e] that
    has [l] significant bits and lies well inside the interval. *)
Lemma enc_done_pretail c :
  enc_ok c -> c.(nbits_total) < 2 ^ 31 -> error (ec_enc_done c) = 0 ->
  exists c3 w u e l m,
    ec_enc_done c = enc_done_tail c3 w u (l - 8 * m) /\
    0 <= l /\ 0 <= m <= 2 /\ l <= 8 * m < l + 8 /\
    c.(val) <= e /\ e + 2 ^ (31 - l) <= c.(val) + c.(rng) /\
    digits c * 2 ^ 31 + e = written c3 * 2 ^ (31 - 8 * m) /\
    written c3 mod 2 ^ (8 * m - l) = 0 /\ offs c3 = ndigits c + m /\
    buf_ok c3 /\ storage c3 = c.(storage) /\ 0 <= w < 2 ^ u /\ 0 <= u < 8 /\
    endraw c3 + 2 ^ (8 * end_offs c3) * w = raw (abs c) /\
    8 * end_offs c3 + u = nraw (abs c).
Proof.
  intros [[] Hr] Hnb. unfold ec_enc_done.
  assert (ndigits c + 2 < 2 ^ 32) as Hnd.
  { pose proof (ext_le_ndigits c ei_buf). unfold a_nbits in ei_bits. simpl in ei_bits.
    destruct ei_buf. lia. }
  destruct (enc_done_end c) as [e l] eqn:Ee.
  apply enc_done_end_ok in Ee as (Hl & He1 & He2 & He3); [|lia..].
  pose proof (Z.pow_pos_nonneg 2 (31 - l) ltac:(lia) ltac:(lia)) as Hpl.
  assert (done_inv c e) as Hinv by (unfold done_inv; split_and!; try done; lia).
  pose proof (done_loop_ok c e l Hinv Hl Hnd) as H1. cbv zeta in H1.
  destruct (while_fuel 2 enc_done_more enc_done_step (c, e, l)) as [[c1 e1] l1].
  cbn [fst snd] in H1. pose proof (done_flushes_ok c1) as H2. cbv zeta in H2.
  destruct (while_fuel 4 enc_flush_more enc_flush_step _) as [[c3 w] u].
  cbn [fst snd] in H2. intros Herr. destruct (H2 (done_tail_sticky _ _ _ _ Herr)) as [Herr1 H3].
  destruct (H1 Herr1) as (m & Hm & Hlm & -> & (I & S & E & N & L & L0 & D)).
  destruct I as (B1 & R1 & He1r & C1).
  destruct (done_value (digits c) e l m (digits c1) e1) as (-> & Hdiv & Hval); try done; try lia.
  { intros ->. rewrite L0 by done. replace l with 0 in He2 by lia.
    change (2 ^ (31 - 0)) with (2 ^ 31) in He2. lia. }
  destruct (same_rest_raw _ _ S E) as [E1 E2]. destruct S as (S1 & S2 & S3 & S4 & _).
  destruct H3 as (B3 & St & O3 & W3 & Hw & Hu & R3 & U3); try done; [lia|by rewrite S4|by rewrite S3, S4|].
  exists c3, w, u, e, l, m. rewrite W3, O3, R3, U3.
  split_and!; try done; try lia; congruence.
Qed.

(** The packet that [ec_enc_done] leaves fits the state it was called in. *)
Lemma enc_done_fits c :
  enc_ok c -> c.(nbits_total) < 2 ^ 31 -> error (ec_enc_done c) = 0 ->
  let F := take (Z.to_nat c.(storage)) (buf (ec_enc_done c)) in
  fits F (abs c) /\ bytes F /\ len F = c.(storage) /\ storage (ec_enc_done c) = c.(storage).
Proof.
  intros Hok Hnb Herr. pose proof Hok as [[] _].
  assert (0 <= ndigits c) as Hnd0 by (pose proof (ext_le_ndigits c ei_buf); lia).
  destruct (enc_done_pretail c Hok Hnb Herr)
    as (c3 & w & u & e & l & m & E & Hl & Hm & Hlm & He1 & He2 & Hval & Hdiv & Ho & B & St & Hw & Hu & Hraw & Hnraw).
  rewrite E in *.
  destruct (done_tail_ok c3 w u (l - 8 * m)) as (T1 & T2 & T3 & T4); try done; [lia|].
  replace (8 * m - l) with (- (l - 8 * m)) in Hdiv by lia. rewrite St in *. cbv zeta. rewrite T4.
  assert (bytes (done_packet c3 w)) as HF
    by (eapply (done_packet_bytes c3 w u (l - 8 * m)); try done; lia).
  split_and!; try done; [|rewrite (done_packet_len c3 w u (l - 8 * m)); try done; lia].
  destruct (done_packet_front c3 w u (l - 8 * m)) as (d & Hd & Hb); try done; try lia.
  assert (rawcode (done_packet c3 w) (nraw (abs c)) = raw (abs c)) as Hrc.
  { rewrite <- Hnraw, <- Hraw. apply (done_packet_raw c3 w u (l - 8 * m)); try done; lia. }
  split; [|done]. simpl.
  pose proof (code_between (done_packet c3 w) (Z.to_nat (ndigits c)) (Z.to_nat m) (written c3) d l
                HF) as Hc.
  rewrite Z2Nat.id in Hc by lia.
  replace (Z.to_nat (ndigits c) + Z.to_nat m)%nat with (Z.to_nat (offs c3)) in Hc by lia.
  replace (8 * m - l) with (- (l - 8 * m)) in Hc by lia.
  specialize (Hc ltac:(lia) ltac:(lia) Hb Hd). lia.
Qed.
