(* ===== verification/RangeSafe.v ===== *)
(** * The range decoder, on packets of the encoder and on arbitrary data

    [tracks F a d] says that the decoder state [d], reading the packet [F],
    is at the point where the encoder was in state [a].  Every decoder
    operation keeps the relation when [F] fits the state that the encoder
    operation leads to, and gives the encoded value.

    A decoder reads packets from the network, so it must behave on every
    sequence of bytes.  [dec_ok] is the invariant of the decoder context: the
    code value is inside the range, the read positions are inside the packet
    and the bit window is consistent.  [ec_dec_init] establishes it on any
    packet and every decoding primitive keeps it and returns a value in the
    range its caller relies on. *)

From S2P Require Import Prelude RangeCoder EntCode RangeSpec.
From S2P Require Import Prelude EntropyInterface RangeCoder EntCode.

Record tracks (F : list Z) (a : aenc) (d : ec_ctx) : Prop := {
  tr_buf : d.(buf) = F;
  tr_storage : d.(storage) = len F;
  tr_rng : d.(rng) = arng a;
  tr_val : d.(val) = low a + arng a - 1 - code F (nsym a);
  tr_rem : d.(rem) = fb F (nsym a + 3);
  tr_offs : d.(offs) = Z.min (Z.of_nat (nsym a) + 4) (len F);
  tr_nbits : d.(nbits_total) = a_nbits a;
  tr_raw : exists j,
    d.(end_offs) = Z.min (Z.of_nat j) (len F) /\
    d.(nend_bits) = 8 * Z.of_nat j - nraw a /\ 0 <= d.(nend_bits) <= 32 /\
    d.(end_window) = lesum (eb F) j / 2 ^ nraw a;
}.

(** The abstract states that a normalized encoder visits. *)
Record a_ok (a : aenc) : Prop := {
  ao_rng : 2 ^ 23 < arng a <= 2 ^ 31;
  ao_nraw : 0 <= nraw a;
  ao_raw : 0 <= raw a < 2 ^ nraw a
}.

Section Dec.
Context (F : list Z) (HF : bytes F).

(** ** Reading a digit *)

Lemma read_byte_ok d n :
  d.(buf) = F -> d.(storage) = len F -> d.(offs) = Z.min (Z.of_nat n) (len F) ->
  ec_read_byte d = (fb F n, set_offs (Z.min (Z.of_nat n + 1) (len F)) d).
Proof.
  intros Hb Hs Ho. unfold ec_read_byte. rewrite Hs, Ho, Hb.
  destruct (Z.ltb_spec (Z.min (Z.of_nat n) (len F)) (len F)).
  - f_equal; [unfold fb; f_equal; lia|f_equal; lia].
  - unfold fb. rewrite rd_out by lia. f_equal.
    replace (Z.min (Z.of_nat n + 1) (len F)) with (offs d) by lia. by destruct d.
Qed.

Lemma ldiff_255 s : Z.ldiff 255 s = 255 - s mod 256.
Proof.
  replace (Z.ldiff 255 s) with (Z.land (Z.lnot s) 255).
  - rewrite land_255. unfold Z.lnot. dlia.
  - apply Z.bits_inj'. intros i Hi. rewrite Z.land_spec, Z.lnot_spec, Z.ldiff_spec by done.
    by destruct (Z.testbit s i), (Z.testbit 255 i).
Qed.

(** The digit that normalization takes from the old and the new byte. *)
Lemma code_step n :
  code F (S n) = code F n * 256 + (Z.shiftr (Z.lor (Z.shiftl (fb F (n + 3)) 8) (fb F (n + 4))) 1) mod 256.
Proof.
  pose proof (fb_digit F HF (n + 3)) as H3. pose proof (fb_digit F HF (n + 4)) as H4.
  rewrite Z.lor_comm, Z.shiftl_mul_pow2, lor_add_pow2 by lia. rewrite Z.shiftr_div_pow2 by lia.
  unfold code. replace (S n + 4)%nat with (S (S (n + 3))) by lia.
  replace (n + 4)%nat with (S (n + 3)) in * by lia. simpl besum.
  set (B := besum (fb F) (n + 3)). change (2 ^ 8) with 256. change (2 ^ 1) with 2. dlia.
Qed.

(** ** Normalization *)

Lemma dec_step_ok a d :
  tracks F a d -> fits F (a_step a) -> 0 < arng a <= 2 ^ 23 ->
  tracks F (a_step a) (dec_normalize_step d).
Proof.
  intros [] Hf Hr. apply fits_step in Hf as [Hc _]; [|done].
  unfold dec_normalize_step. cbv zeta.
  erewrite (read_byte_ok _ (nsym a + 4)); [|done|done|simpl; lia].
  cbn [rem val set_rem set_offs set_rng set_nbits_total rng nbits_total].
  change (EC_SYM_BITS - EC_CODE_EXTRA) with 1. unfold EC_SYM_BITS, EC_SYM_MAX.
  change (EC_CODE_TOP - 1) with (2 ^ 31 - 1).
  rewrite ldiff_255, tr_rem0. set (s := Z.shiftr _ 1 mod 256).
  assert (0 <= s < 256) as Hs by (apply Z.mod_pos_bound; lia).
  assert (code F (S (nsym a)) = code F (nsym a) * 256 + s) as Hcs by apply code_step.
  rewrite !Z.shiftl_mul_pow2 by lia. change (2 ^ 8) with 256.
  rewrite tr_rng0, tr_val0.
  rewrite (u32_small (arng a * 256)), (u32_small (_ * 256)), u32_small, land_pow2_pred, Z.mod_small by lia.
  constructor; simpl; try done.
  - rewrite Hcs. lia.
  - by replace (nsym a + 4)%nat with (S (nsym a + 3)) by lia.
  - lia.
  - rewrite tr_nbits0. unfold a_nbits. simpl. lia.
Qed.

Lemma dec_while_ok n a d :
  tracks F a d -> 0 < arng a ->
  fits F (while_fuel n (fun a => arng a <=? 2 ^ 23) a_step a) ->
  tracks F (while_fuel n (fun a => arng a <=? 2 ^ 23) a_step a)
    (while_fuel n (fun c => c.(rng) <=? EC_CODE_BOT) dec_normalize_step d).
Proof.
  revert a d. induction n as [|n IH]; intros a d Ht Hr; [done|].
  rewrite !while_fuel_S. change EC_CODE_BOT with (2 ^ 23). rewrite (tr_rng _ _ _ Ht).
  destruct (Z.leb_spec (arng a) (2 ^ 23)); [|done]. intros Hf.
  apply IH; [|simpl; lia|done]. apply dec_step_ok; [done| |lia].
  by eapply fits_while.
Qed.

Lemma dec_narrow_ok a d o r :
  tracks F a d -> 0 < r -> fits F (a_op o r a) ->
  tracks F (a_op o r a)
    (ec_dec_normalize (set_rng r (set_val (d.(val) - (d.(rng) - o - r)) d))).
Proof.
  intros Ht Hr Hf. apply dec_while_ok; [|done|done].
  destruct Ht. constructor; simpl; try done. lia.
Qed.

Lemma tracks_ext a d x : tracks F a d -> tracks F a (set_ext x d).
Proof. intros []. by constructor. Qed.

(** ** Raw bits *)

Lemma read_end_ok d j :
  d.(buf) = F -> d.(storage) = len F -> d.(end_offs) = Z.min (Z.of_nat j) (len F) ->
  ec_read_byte_from_end d = (eb F j, set_end_offs (Z.min (Z.of_nat j + 1) (len F)) d).
Proof.
  intros Hb Hs Ho. unfold ec_read_byte_from_end. rewrite Hs, Ho.
  destruct (Z.ltb_spec (Z.min (Z.of_nat j) (len F)) (len F)).
  - cbn [buf storage end_offs set_end_offs]. rewrite Hs, Hb.
    f_equal; [unfold eb; f_equal; lia|f_equal; lia].
  - replace (Z.min (Z.of_nat j + 1) (len F)) with (end_offs d) by lia.
    unfold eb. replace (rd F _) with 0; [by destruct d|].
    unfold rd. destruct (Z.ltb_spec (len F - 1 - Z.of_nat j) 0); [done|lia].
Qed.

(** The state of the refill loop: [j] bytes read, [m] bits already consumed. *)
Definition filling (d0 : ec_ctx) (m : Z) (t : ec_ctx * Z * Z) : Prop :=
  exists j,
    t.1.1 = set_end_offs (Z.min (Z.of_nat j) (len F)) d0 /\
    t.2 = 8 * Z.of_nat j - m /\ 0 <= t.2 <= 32 /\ t.1.2 = lesum (eb F) j / 2 ^ m.

Lemma fill_step_ok d0 m t :
  d0.(buf) = F -> d0.(storage) = len F -> 0 <= m ->
  filling d0 m t -> t.2 <= 24 ->
  filling d0 m (dec_fill_step t) /\ (dec_fill_step t).2 = t.2 + 8.
Proof.
  intros Hb Hs Hm (j & E1 & E2 & E3 & E4) H24. destruct t as [[d w] av]. cbn [fst snd] in *. subst d.
  unfold dec_fill_step. rewrite (read_end_ok _ j) by done. cbn [fst snd].
  unfold EC_SYM_BITS. split; [|done]. exists (S j). cbn [fst snd]. split_and!; try lia.
  { unfold set_end_offs; simpl. f_equal. lia. }
  pose proof (eb_digit F HF j) as Hd.
  pose proof (lesum_range (eb F) (eb_digit F HF) j) as HL. rewrite pow256 in HL.
  pose proof (Z.pow_le_mono_r 2 av 24 ltac:(lia) ltac:(lia)).
  rewrite Z.shiftl_mul_pow2, u32_small by nia. rewrite E4. simpl. rewrite pow256.
  replace (8 * Z.of_nat j) with (av + m) in * by lia. rewrite Z.pow_add_r in * by lia.
  rewrite Z.mul_assoc, Z.div_add by lia. apply lor_add_pow2; [lia|].
  split; [apply Z.div_pos; lia|apply Z.div_lt_upper_bound; lia].
Qed.

Lemma fill_loop_ok d0 m t :
  d0.(buf) = F -> d0.(storage) = len F -> 0 <= m -> filling d0 m t -> t.2 <= 24 ->
  let t' := while_fuel 4 dec_fill_more dec_fill_step (dec_fill_step t) in
  filling d0 m t' /\ 24 < t'.2.
Proof.
  intros Hb Hs Hm Ht H24. destruct (fill_step_ok d0 m t) as [H1 _]; try done.
  destruct (while_fuel_rule dec_fill_more dec_fill_step (filling d0 m)
              (fun t => Z.to_nat ((32 - t.2) / 8)) 4 (dec_fill_step t)) as [H2 H3].
  - intros s Hf Hc. change ((s.2 <=? 24) = true) in Hc. apply Z.leb_le in Hc.
    destruct (fill_step_ok d0 m s) as [H4 H5]; try done. split; [done|]. rewrite H5.
    destruct Hf as (j & _ & _ & Hr & _). dlia.
  - done.
  - destruct H1 as (j & _ & _ & Hr & _). dlia.
  - split; [done|]. change (((while_fuel 4 dec_fill_more dec_fill_step (dec_fill_step t)).2 <=? 24) = false) in H3.
    by apply Z.leb_gt in H3.
Qed.

Lemma dec_bits_ok a d x n :
  tracks F a d -> a_ok a -> 0 < n <= 25 -> 0 <= x < 2 ^ n -> fits F (a_bits x n a) ->
  exists d', ec_dec_bits n d = (x, d') /\ tracks F (a_bits x n a) d'.
Proof.
  intros Ht [] Hn Hx Hf. apply fits_bits in Hf as [_ Hj]; try done; try lia.
  pose proof Ht as []. destruct tr_raw0 as (j & R1 & R2 & R3 & R4).
  assert (filling d (nraw a) (d, end_window d, nend_bits d)) as H0.
  { exists j. cbn [fst snd]. split_and!; try done; try lia. rewrite <- R1. by destruct d. }
  unfold ec_dec_bits. match goal with |- context [if ?b then ?x else (d, ?w, ?u)] =>
    set (t := if b then x else (d, w, u)) end.
  assert (filling d (nraw a) t /\ n <= t.2) as [(k & K1 & K2 & K3 & K4) Hn2].
  { subst t. destruct (Z.ltb_spec (nend_bits d) n); [|done].
    destruct (fill_loop_ok d (nraw a) (d, end_window d, nend_bits d)) as [H1 H2]; try done.
    { cbn [snd]. lia. }
    split; [done|]. lia. }
  clearbody t. destruct t as [[d1 w] av]. cbn [fst snd] in *. subst d1.
  pose proof (Z.pow_lt_mono_r 2 n 32 ltac:(lia) ltac:(lia) ltac:(lia)).
  rewrite Z.shiftl_mul_pow2, Z.mul_1_l, u32_small by lia.
  rewrite land_pow2_pred, K4, Hj by lia. eexists. split; [done|].
  constructor; simpl; try done; [rewrite tr_nbits0; unfold a_nbits; simpl; lia|].
  exists k. split_and!; try done; try lia.
  rewrite Z.shiftr_div_pow2, Z.div_div, <- Z.pow_add_r by lia. done.
Qed.

(** ** The initial state *)

(** During [ec_dec_init], after [n] bytes. *)
Definition starting (n : nat) (d : ec_ctx) : Prop :=
  d.(buf) = F /\ d.(storage) = len F /\ d.(rng) = 2 ^ (8 * Z.of_nat n - 1) /\
  d.(val) = 2 ^ (8 * Z.of_nat n - 1) - 1 - besum (fb F) n / 2 /\
  d.(rem) = fb F (n - 1) /\ d.(offs) = Z.min (Z.of_nat n) (len F) /\
  d.(nbits_total) = 8 * Z.of_nat n + 1 /\ d.(end_offs) = 0 /\ d.(nend_bits) = 0 /\
  d.(end_window) = 0.

Lemma starting_step n d :
  (0 < n <= 3)%nat -> starting n d -> starting (S n) (dec_normalize_step d).
Proof.
  intros Hn (E1 & E2 & E3 & E4 & E5 & E6 & E7 & E8 & E9 & E10).
  unfold dec_normalize_step. cbv zeta.
  rewrite (read_byte_ok _ n) by done.
  cbn [rem val set_rem set_offs set_rng set_nbits_total rng nbits_total].
  change (EC_SYM_BITS - EC_CODE_EXTRA) with 1. unfold EC_SYM_BITS, EC_SYM_MAX.
  change (EC_CODE_TOP - 1) with (2 ^ 31 - 1).
  rewrite ldiff_255, E3, E4, E5. destruct n as [|n]; [lia|].
  replace (S n - 1)%nat with n by lia.
  pose proof (fb_digit F HF n) as H3. pose proof (fb_digit F HF (S n)) as H4.
  pose proof (besum_range (fb F) (fb_digit F HF) (S n)) as HB. rewrite pow256 in HB.
  rewrite Z.lor_comm, !Z.shiftl_mul_pow2, lor_add_pow2, (Z.shiftr_div_pow2 _ 1) by lia.
  simpl besum in *. set (B := besum (fb F) n) in *. change (2 ^ 8) with 256. change (2 ^ 1) with 2.
  replace (8 * Z.of_nat (S n)) with (1 + (8 * Z.of_nat (S n) - 1)) in HB by lia.
  rewrite Z.pow_add_r in HB by lia. change (2 ^ 1) with 2 in HB.
  set (P := 2 ^ (8 * Z.of_nat (S n) - 1)) in *.
  assert (2 ^ (8 * Z.of_nat (S (S n)) - 1) = P * 256) as HP.
  { subst P. change 256 with (2 ^ 8). rewrite <- Z.pow_add_r by lia. f_equal. lia. }
  assert (0 < P <= 2 ^ 23) as HP2.
  { subst P. split; [lia|apply Z.pow_le_mono_r; lia]. }
  set (x := (fb F (S n) + fb F n * 256) / 2 mod 256).
  assert ((P - 1 - (B * 256 + fb F n) / 2) * 256 + (255 - x)
          = P * 256 - 1 - ((B * 256 + fb F n) * 256 + fb F (S n)) / 2) as Hx by (subst x; dlia).
  assert (0 <= x < 256) by (subst x; dlia).
  assert (0 <= (P - 1 - (B * 256 + fb F n) / 2) < P) by dlia.
  rewrite (u32_small (_ * 256)), (u32_small (P * 256)), u32_small, land_pow2_pred, Z.mod_small by lia.
  unfold starting. change (besum (fb F) (S (S n))) with ((B * 256 + fb F n) * 256 + fb F (S n)).
  rewrite HP, <- Hx. split_and!; simpl; try done; lia.
Qed.

Lemma dec_init_ok : tracks F a_init (ec_dec_init F (len F)).
Proof.
  unfold ec_dec_init.
  erewrite (read_byte_ok _ 0); [|done|done|simpl; unfold len; lia].
  set (d := set_val _ _).
  assert (starting 1 d) as H1.
  { pose proof (fb_digit F HF 0). subst d. unfold starting; simpl. split_and!; try done; try lia.
    change (EC_SYM_BITS - EC_CODE_EXTRA) with 1. rewrite Z.shiftr_div_pow2 by lia. done. }
  clearbody d. unfold ec_dec_normalize. rewrite while_fuel_S.
  pose proof (starting_step 1 d ltac:(lia) H1) as H2.
  pose proof (starting_step 2 _ ltac:(lia) H2) as H3. pose proof (starting_step 3 _ ltac:(lia) H3) as H4.
  assert (forall n d, starting n d -> rng d = 2 ^ (8 * Z.of_nat n - 1)) as Hr by by intros ?? (_&_&?&_).
  rewrite (Hr _ _ H1). simpl.
  rewrite while_fuel_S, (Hr _ _ H2). simpl. rewrite while_fuel_S, (Hr _ _ H3). simpl.
  rewrite while_fuel_S, (Hr _ _ H4). simpl.
  destruct H4 as (E1 & E2 & E3 & E4 & E5 & E6 & E7 & E8 & E9 & E10).
  constructor; try done.
  exists 0%nat. rewrite E8, E9, E10. unfold len. split_and!; try done; lia.
Qed.
End Dec.

Record dec_ok (c : ec_ctx) : Prop := {
  do_rng : 2 ^ 23 < c.(rng) <= 2 ^ 31;
  do_val : 0 <= c.(val) < c.(rng);
  do_bytes : bytes c.(buf);
  do_storage : 0 <= c.(storage) <= len c.(buf);
  do_offs : 0 <= c.(offs) <= c.(storage);
  do_end : 0 <= c.(end_offs) <= c.(storage);
  do_rem : 0 <= c.(rem) < 256;
  do_nend : 0 <= c.(nend_bits) <= 32;
  do_window : 0 <= c.(end_window) < 2 ^ c.(nend_bits)
}.

(** Before normalization the range may be small. *)
Definition dec_pre (c : ec_ctx) : Prop :=
  0 <= c.(val) < c.(rng) /\ c.(rng) <= 2 ^ 31 /\ bytes c.(buf) /\
  0 <= c.(storage) <= len c.(buf) /\ 0 <= c.(offs) <= c.(storage) /\
  0 <= c.(end_offs) <= c.(storage) /\ 0 <= c.(rem) < 256 /\
  0 <= c.(nend_bits) <= 32 /\ 0 <= c.(end_window) < 2 ^ c.(nend_bits).

Lemma dec_pre_ok c : dec_pre c -> 2 ^ 23 < c.(rng) -> dec_ok c.
Proof. unfold dec_pre. intros H Hr. constructor; tauto || lia. Qed.

(** ** Normalization *)

Lemma read_byte_safe c :
  bytes c.(buf) -> 0 <= c.(offs) <= c.(storage) ->
  exists b o, ec_read_byte c = (b, set_offs o c) /\ 0 <= b < 256 /\ 0 <= o <= c.(storage).
Proof.
  intros Hb Ho. unfold ec_read_byte. destruct (Z.ltb_spec (offs c) (storage c)).
  - eexists _, _. split; [done|]. split; [by apply bytes_rd|lia].
  - exists 0, (offs c). split; [by destruct c|lia].
Qed.

Lemma dec_step_safe c :
  dec_pre c -> rng c <= 2 ^ 23 ->
  dec_pre (dec_normalize_step c) /\ rng (dec_normalize_step c) = 256 * rng c.
Proof.
  intros (H1 & H2 & H3 & H4 & H5 & H6 & H7 & H8 & H9) Hr. unfold dec_normalize_step. cbv zeta.
  set (c1 := set_rng _ _).
  destruct (read_byte_safe c1) as (b & o & -> & Hb & Ho); [done..|].
  change (storage c1) with (storage c) in Ho.
  match goal with |- context [Z.ldiff EC_SYM_MAX ?s] => set (sym := s) end.
  assert (0 <= Z.ldiff EC_SYM_MAX sym <= 255) as Hs.
  { unfold EC_SYM_MAX. rewrite Z.ldiff_land. rewrite Z.land_comm, land_255.
    pose proof (Z.mod_pos_bound (Z.lnot sym) 256). lia. }
  unfold dec_pre. cbn [set_val set_rem set_offs set_rng set_nbits_total c1
    buf storage end_offs end_window nend_bits offs rng val rem].
  unfold EC_SYM_BITS in *. rewrite !Z.shiftl_mul_pow2 by lia. change (2 ^ 8) with 256.
  rewrite (u32_small (rng c * 256)), (u32_small (val c * 256)) by lia.
  rewrite u32_small by lia. change (EC_CODE_TOP - 1) with (2 ^ 31 - 1).
  rewrite land_pow2_pred, Z.mod_small by lia. split_and!; try lia; done.
Qed.

Lemma dec_while_safe n c :
  dec_pre c -> 2 ^ 23 < rng c * 256 ^ Z.of_nat n ->
  dec_ok (while_fuel n (fun c => rng c <=? EC_CODE_BOT) dec_normalize_step c).
Proof.
  revert c. induction n as [|n IH]; intros c Hp Hr.
  - rewrite while_fuel_O. apply dec_pre_ok; [done|]. simpl in Hr. lia.
  - rewrite while_fuel_S. change EC_CODE_BOT with (2 ^ 23).
    destruct (Z.leb_spec (rng c) (2 ^ 23)); [|by apply dec_pre_ok].
    destruct (dec_step_safe c Hp ltac:(lia)) as [Hp' E]. apply IH; [done|]. rewrite E.
    rewrite Nat2Z.inj_succ, Z.pow_succ_r in Hr by lia. lia.
Qed.

Lemma dec_normalize_safe c : dec_pre c -> dec_ok (ec_dec_normalize c).
Proof.
  intros H. apply dec_while_safe; [done|]. destruct H as (H & _). change (256 ^ Z.of_nat 4) with (2 ^ 32). lia.
Qed.

Lemma dec_init_safe b n : bytes b -> 0 <= n <= len b -> dec_ok (ec_dec_init b n).
Proof.
  intros Hb Hn. unfold ec_dec_init. set (c := Mk_ec_ctx _ _ _ _ _ _ _ _ _ _ _ _).
  destruct (read_byte_safe c) as (x & o & -> & Hx & Ho); [done|simpl; lia|]. cbv zeta.
  apply dec_normalize_safe. unfold dec_pre.
  cbn [set_val set_rem set_offs c buf storage end_offs end_window nend_bits offs rng val rem].
  change (Z.shiftl 1 EC_CODE_EXTRA) with 128. change (EC_SYM_BITS - EC_CODE_EXTRA) with 1.
  rewrite Z.shiftr_div_pow2 by lia. simpl in Ho. change (2 ^ 0) with 1. split_and!; done || dlia.
Qed.

(** Narrowing to a sub-interval that holds the code value. *)
Lemma dec_narrow_safe c t v r :
  dec_ok c -> 0 <= v < r -> r <= 2 ^ 31 ->
  dec_ok (ec_dec_normalize (set_rng r (set_val v (set_ext t c)))).
Proof. intros [] Hv Hr. apply dec_normalize_safe. unfold dec_pre. simpl. tauto. Qed.

(** ** Frequency intervals *)

Section Freq.
Context (ft : Z) (c : ec_ctx) (q : Z).
Hypothesis (Hc : dec_ok c) (Hft : 0 < ft <= 2 ^ 16) (Hq : 1 <= q /\ q * ft <= rng c).

Definition found : Z := ft - EC_MINI (u32 (val c / q + 1)) ft.

Lemma found_bounds :
  0 <= found < ft /\ q * (ft - found - 1) <= val c /\ (0 < found -> val c < q * (ft - found)).
Proof.
  destruct Hc. unfold found. set (w := val c / q).
  pose proof (Z.div_mod (val c) q ltac:(lia)) as E.
  pose proof (Z.mod_pos_bound (val c) q ltac:(lia)). fold w in E.
  assert (0 <= w) by (apply Z.div_pos; lia). assert (w <= val c) by nia.
  rewrite u32_small, EC_MINI_min by lia.
  destruct (Z.min_spec (w + 1) ft) as [[Hm ->]|[Hm ->]]; split_and!; try lia; nia.
Qed.

Lemma update_safe fl fh :
  0 <= fl <= found -> found < fh <= ft -> dec_ok (ec_dec_update fl fh ft (set_ext q c)).
Proof.
  intros H1 H2. pose proof found_bounds as (F1 & F2 & F3). pose proof Hc as [].
  unfold ec_dec_update. cbv zeta. cbn [ext val rng set_ext set_val].
  assert (forall k, 0 <= k <= ft -> IMUL32 q k = q * k) as HI.
  { intros k Hk. unfold IMUL32. apply u32_small. nia. }
  rewrite !HI by lia.
  assert (q * (ft - fh) <= val c) by nia. rewrite (u32_small (val c - _)) by nia.
  assert (q * (ft - fh) <= rng c) by nia. rewrite (u32_small (rng c - _)) by nia.
  destruct (Z.gtb_spec fl 0); apply dec_narrow_safe; try done; try nia; lia.
Qed.
End Freq.

Lemma dec_freq_safe {A} ft (k : Z -> A * Z * Z) (P : A -> Prop) :
  0 < ft <= 2 ^ 16 ->
  (forall fs, 0 <= fs < ft -> P (k fs).1.1 /\ 0 <= (k fs).1.2 <= fs /\ fs < (k fs).2 <= ft) ->
  yields dec_ok (fun s => let '(fs, s) := ec_decode ft s in
                          let '(a, l, h) := k fs in (a, ec_dec_update l h ft s)) P.
Proof.
  intros Hft Hk c Hc. unfold ec_decode, celt_udiv. cbv zeta. cbn [ext val set_ext].
  pose proof (do_rng c Hc).
  assert (1 <= rng c / ft /\ rng c / ft * ft <= rng c) as Hq.
  { pose proof (Z.div_mod (rng c) ft ltac:(lia)). pose proof (Z.mod_pos_bound (rng c) ft).
    split; [apply Z.div_le_lower_bound; lia|lia]. }
  fold (found ft c (rng c / ft)).
  pose proof (found_bounds ft c _ Hc Hft Hq) as (F1 & _).
  destruct (Hk _ F1) as (K1 & K2 & K3). pose proof (update_safe ft c _ Hc Hft Hq) as Hu.
  destruct (k _) as [[a l] h]. split; [done|]. apply Hu; done.
Qed.

Lemma dec_freq_bin_safe {A} bits (k : Z -> A * Z * Z) (P : A -> Prop) :
  0 <= bits <= 16 ->
  (forall fs, 0 <= fs < 2 ^ bits ->
     P (k fs).1.1 /\ 0 <= (k fs).1.2 <= fs /\ fs < (k fs).2 <= 2 ^ bits) ->
  yields dec_ok (fun s => let '(fs, s) := ec_decode_bin bits s in
                          let '(a, l, h) := k fs in (a, ec_dec_update l h (2 ^ bits) s)) P.
Proof.
  intros Hb Hk c Hc. unfold ec_decode_bin. cbv zeta. cbn [ext val set_ext].
  pose proof (do_rng c Hc). pose proof (Z.pow_pos_nonneg 2 bits ltac:(lia) ltac:(lia)).
  assert (2 ^ bits <= 2 ^ 16) as Hp by (apply Z.pow_le_mono_r; lia).
  rewrite Z.shiftr_div_pow2, Z.shiftl_mul_pow2, Z.mul_1_l by lia.
  rewrite (u32_small (2 ^ bits)) by lia.
  assert (1 <= rng c / 2 ^ bits /\ rng c / 2 ^ bits * 2 ^ bits <= rng c) as Hq.
  { pose proof (Z.div_mod (rng c) (2 ^ bits) ltac:(lia)). pose proof (Z.mod_pos_bound (rng c) (2 ^ bits)).
    split; [apply Z.div_le_lower_bound; lia|lia]. }
  fold (found (2 ^ bits) c (rng c / 2 ^ bits)).
  pose proof (found_bounds (2 ^ bits) c _ Hc ltac:(lia) Hq) as (F1 & _).
  destruct (Hk _ F1) as (K1 & K2 & K3). pose proof (update_safe (2 ^ bits) c _ Hc ltac:(lia) Hq) as Hu.
  destruct (k _) as [[a l] h]. split; [done|]. apply Hu; done.
Qed.

(** ** Binary symbols and tables *)

Lemma set_ext_same c : set_ext (ext c) c = c.
Proof. by destruct c. Qed.
Lemma set_val_same c : set_val (val c) c = c.
Proof. by destruct c. Qed.

Lemma dec_bit_logp_safe logp :
  1 <= logp <= 16 -> yields dec_ok (ec_dec_bit_logp logp) (fun _ => True).
Proof.
  intros Hl c Hc. split; [done|]. unfold ec_dec_bit_logp. cbv zeta. cbn [snd].
  pose proof Hc as []. rewrite Z.shiftr_div_pow2 by lia.
  pose proof (Z.pow_pos_nonneg 2 logp ltac:(lia) ltac:(lia)).
  assert (2 ^ 1 <= 2 ^ logp) by (apply Z.pow_le_mono_r; lia).
  assert (0 <= rng c / 2 ^ logp < rng c).
  { split; [apply Z.div_pos; lia|]. apply Z.div_lt_upper_bound; nia. }
  destruct (Z.ltb_spec (val c) (rng c / 2 ^ logp)); simpl negb; cbv iota.
  - pose proof (dec_narrow_safe c (ext c) (val c) (rng c / 2 ^ logp)) as H3.
    rewrite set_ext_same, set_val_same in H3. apply H3; done || lia.
  - rewrite !u32_small by lia.
    pose proof (dec_narrow_safe c (ext c) (val c - rng c / 2 ^ logp) (rng c - rng c / 2 ^ logp)) as H3.
    rewrite set_ext_same in H3. apply H3; done || lia.
Qed.

Section Icdf.
Context (icdf : list Z) (ftb : Z).
Hypothesis (Hftb : 0 <= ftb <= 16) (Hval : icdf_valid icdf ftb = true).

(** Where the search stops: the code value is in [s, t), and [t] is where the
    interval of symbol [ret] starts. *)
Definition stopped (r g d : Z) (o : Z * Z * Z) : Prop :=
  let '(t, s, ret) := o in
  0 <= ret < len icdf /\ s = r * icdf.[ret] /\ 0 <= s <= d /\ d < t <= g /\
  (0 < ret -> t = r * icdf.[ret - 1]).

Lemma icdf_loop_safe r g d n s ret :
  0 <= r -> r * 2 ^ ftb <= g -> g <= 2 ^ 31 -> 0 <= d < s -> s <= g ->
  -1 <= ret -> len icdf <= ret + Z.of_nat n + 1 -> ret + 1 < len icdf ->
  (0 <= ret -> s = r * icdf.[ret]) ->
  stopped r g d (dec_icdf_loop n icdf r d s ret).
Proof.
  intros Hr Hg Hg2. revert s ret. induction n as [|n IH]; intros s ret Hd Hs H1 H2 H3 H4.
  all: cbn [dec_icdf_loop]; cbv zeta; unfold IMUL32.
  all: pose proof (icdf_nonneg _ _ (ret + 1) Hval ltac:(lia)) as Hn.
  all: rewrite u32_small by nia.
  - assert (icdf.[ret + 1] = 0) as E.
    { unfold icdf_valid in Hval. rewrite !andb_true_iff in Hval. destruct Hval as [_ Hz].
      apply Z.eqb_eq in Hz. by replace (ret + 1) with (len icdf - 1) by lia. }
    cbn [stopped]. replace (ret + 1 - 1) with ret by lia. rewrite E. split_and!; lia || nia || (intros; apply H4; lia).
  - destruct (Z.ltb_spec d (r * icdf.[ret + 1])).
    + apply IH; try lia; try nia.
      destruct (decide (ret + 1 = len icdf - 1)) as [E|]; [|lia].
      unfold icdf_valid in Hval. rewrite !andb_true_iff in Hval. destruct Hval as [_ Hz].
      apply Z.eqb_eq in Hz. rewrite <- E in Hz. nia.
    + cbn [stopped]. replace (ret + 1 - 1) with ret by lia. split_and!; lia || nia || (intros; apply H4; lia).
Qed.

Lemma dec_icdf_safe :
  yields dec_ok (ec_dec_icdf icdf ftb) (fun s =>
    0 <= s < len icdf /\ (icdf.[0] < 2 ^ ftb -> icdf_codable icdf ftb s = true)).
Proof.
  intros c Hc. unfold ec_dec_icdf. cbv zeta. pose proof Hc as [].
  pose proof (Z.pow_pos_nonneg 2 ftb ltac:(lia) ltac:(lia)).
  rewrite Z.shiftr_div_pow2 by lia. set (r := rng c / 2 ^ ftb).
  pose proof (Z.div_mod (rng c) (2 ^ ftb) ltac:(lia)) as E. fold r in E.
  pose proof (Z.mod_pos_bound (rng c) (2 ^ ftb) ltac:(lia)).
  assert (0 <= r) by (apply Z.div_pos; lia).
  assert (0 < len icdf) as Hl.
  { unfold icdf_valid in Hval. rewrite !andb_true_iff in Hval. lia. }
  pose proof (icdf_loop_safe r (rng c) (val c) (length icdf) (rng c) (-1)) as Hs.
  destruct (dec_icdf_loop _ _ _ _ _ _) as [[t s] ret]. cbn [stopped fst snd] in *.
  destruct Hs as (S1 & S2 & S3 & S4 & S5); unfold len in *; try lia; try nia. fold (len icdf) in *.
  rewrite !u32_small by lia. split.
  - split; [done|]. intros Hi. unfold icdf_codable, icdf_upper.
    destruct (Z.gtb_spec ret 0) as [Hp|Hp].
    + specialize (S5 ltac:(lia)). assert (icdf.[ret] < icdf.[ret - 1]) by nia. lia.
    + replace ret with 0 by lia. lia.
  - pose proof (dec_narrow_safe c (ext c) (val c - s) (t - s)) as H3.
    rewrite set_ext_same in H3. apply H3; done || lia.
Qed.

Lemma dec_icdf16_safe :
  yields dec_ok (ec_dec_icdf16 icdf ftb) (fun s =>
    0 <= s < len icdf /\ (icdf.[0] < 2 ^ ftb -> icdf_codable icdf ftb s = true)).
Proof. exact dec_icdf_safe. Qed.
End Icdf.

(** ** Raw bits and integers *)

(** The bit window while it is refilled. *)
Definition fill_ok (t : ec_ctx * Z * Z) : Prop :=
  let '(c, window, available) := t in
  dec_ok c /\ 0 <= available <= 32 /\ 0 <= window < 2 ^ available.

Lemma fill_step_safe t :
  fill_ok t -> t.2 <= 24 -> fill_ok (dec_fill_step t) /\ (dec_fill_step t).2 = t.2 + 8.
Proof.
  destruct t as [[c w] a]. cbn [fst snd]. intros (Hc & Ha & Hw) Hle.
  unfold dec_fill_step, ec_read_byte_from_end. pose proof Hc as [].
  set (t := if end_offs c <? storage c then _ else _).
  assert (0 <= t.1 < 256 /\ dec_ok t.2) as Ht.
  { subst t. destruct (Z.ltb_spec (end_offs c) (storage c)); cbn [fst snd]; [|split; [lia|done]].
    split; [by apply bytes_rd|]. constructor; simpl; lia || done. }
  destruct t as [b c1]. cbn [fst snd] in Ht. destruct Ht as [Hb Hc1]. cbn [fill_ok fst snd]. unfold EC_SYM_BITS.
  split; [|lia]. split; [done|]. split; [lia|].
  pose proof (Z.pow_pos_nonneg 2 a ltac:(lia) ltac:(lia)) as Hp.
  rewrite Z.shiftl_mul_pow2 by lia.
  assert (2 ^ (a + 8) <= 2 ^ 32) as Hle2 by (apply Z.pow_le_mono_r; lia).
  rewrite Z.pow_add_r in Hle2 by lia. change (2 ^ 8) with 256 in Hle2.
  rewrite u32_small by nia. rewrite lor_add_pow2 by lia.
  rewrite Z.pow_add_r by lia. change (2 ^ 8) with 256. nia.
Qed.

Lemma fill_loop_safe n t :
  fill_ok t -> 24 < t.2 + 8 * Z.of_nat n ->
  fill_ok (while_fuel n dec_fill_more dec_fill_step t) /\
  24 < (while_fuel n dec_fill_more dec_fill_step t).2.
Proof.
  revert t. induction n as [|n IH]; intros t Ht Hn.
  - rewrite while_fuel_O. split; [done|lia].
  - rewrite while_fuel_S. unfold dec_fill_more at 1 3.
    change (EC_WINDOW_SIZE - EC_SYM_BITS) with 24.
    destruct (Z.leb_spec t.2 24); [|split; [done|lia]].
    destruct (fill_step_safe t Ht ltac:(lia)) as [H1 H2]. apply IH; [done|lia].
Qed.

Lemma dec_bits_safe bits :
  0 < bits <= 25 -> yields dec_ok (ec_dec_bits bits) (fun x => 0 <= x < 2 ^ bits).
Proof.
  intros Hb c Hc. unfold ec_dec_bits. cbv zeta.
  match goal with |- context [if ?b then ?x else (c, ?w, ?u)] =>
    set (t := if b then x else (c, w, u)) end.
  assert (fill_ok t /\ bits <= t.2) as [Ht Hle].
  { subst t. assert (fill_ok (c, end_window c, nend_bits c)) as H0.
    { split; [done|]. destruct Hc. done. }
    destruct (Z.ltb_spec (nend_bits c) bits); [|by split].
    destruct (fill_step_safe _ H0) as [H1 H2]; [cbn; lia|].
    destruct (fill_loop_safe 4 _ H1) as [H3 H4]; [rewrite H2; destruct H0 as (_ & ? & _); cbn [snd]; lia|].
    split; [done|lia]. }
  destruct t as [[c1 w] a]. destruct Ht as (Hc1 & Ha & Hw). cbn [fst snd] in *.
  pose proof (Z.pow_pos_nonneg 2 bits ltac:(lia) ltac:(lia)).
  assert (2 ^ bits <= 2 ^ 25) by (apply Z.pow_le_mono_r; lia).
  rewrite Z.shiftl_mul_pow2, Z.mul_1_l, u32_small, land_pow2_pred, Z.shiftr_div_pow2 by lia.
  split; [apply Z.mod_pos_bound; lia|]. destruct Hc1. constructor; simpl; try done; try lia.
  split; [apply Z.div_pos; lia|]. apply Z.div_lt_upper_bound; [lia|].
  rewrite <- Z.pow_add_r by lia. replace (bits + (a - bits)) with a by lia. lia.
Qed.

Lemma dec_set_error_safe c x : dec_ok c -> dec_ok (set_error x c).
Proof. by intros []. Qed.

Lemma dec_sym_safe ft :
  0 < ft <= 2 ^ 16 ->
  yields dec_ok (fun s => let '(s0, s) := ec_decode ft s in (s0, ec_dec_update s0 (s0 + 1) ft s))
    (fun x => 0 <= x < ft).
Proof.
  intros H. apply (dec_freq_safe ft (fun fs => (fs, fs, fs + 1)) (fun x => 0 <= x < ft)); [done|].
  cbn. lia.
Qed.

Lemma dec_uint_safe ft : 1 < ft < 2 ^ 32 -> yields dec_ok (ec_dec_uint ft) (fun x => 0 <= x < ft).
Proof.
  intros Hft c Hc. unfold ec_dec_uint, EC_ILOG. cbv zeta. rewrite u32_small by lia.
  pose proof (ec_ilog_bounds (ft - 1) ltac:(lia)) as Hi. unfold EC_UINT_BITS.
  pose proof (Z.log2_lt_pow2 (ft - 1) 32 ltac:(lia)) as Hl32.
  pose proof (ec_ilog_log2 (ft - 1) ltac:(lia)) as El.
  destruct (Z.gtb_spec (ec_ilog (ft - 1)) 8) as [Hgt|Hle].
  - set (b := ec_ilog (ft - 1) - 8) in *.
    assert (1 <= b <= 24) as Hb by lia.
    set (q := Z.shiftr (ft - 1) b + 1).
    assert (0 < q <= 256) as Hq.
    { subst q. rewrite Z.shiftr_div_pow2 by lia.
      pose proof (Z.pow_pos_nonneg 2 b ltac:(lia) ltac:(lia)).
      assert (0 <= (ft - 1) / 2 ^ b < 256); [|lia]. split; [apply Z.div_pos; lia|].
      apply Z.div_lt_upper_bound; [lia|]. change 256 with (2 ^ 8).
      rewrite <- Z.pow_add_r by lia. replace (b + 8) with (ec_ilog (ft - 1)) by lia. lia. }
    destruct (dec_sym_safe q ltac:(lia) c Hc) as [Hs Hc1].
    destruct (ec_decode q c) as [s0 c0]. cbn [fst snd] in Hs, Hc1.
    destruct (dec_bits_safe b ltac:(lia) _ Hc1) as [Hx Hc2].
    destruct (ec_dec_bits b _) as [x c2]. cbn [fst snd] in Hx, Hc2.
    assert (0 <= Z.lor (u32 (Z.shiftl s0 b)) x) as Hlor.
    { apply Z.lor_nonneg. split; [apply u32_range|lia]. }
    destruct (Z.leb_spec (Z.lor (u32 (Z.shiftl s0 b)) x) (ft - 1)); cbn [fst snd]; split;
      lia || done || by apply dec_set_error_safe.
  - assert (ft <= 256) as Hf.
    { assert (2 ^ ec_ilog (ft - 1) <= 2 ^ 8) as Hp by (apply Z.pow_le_mono_r; lia).
      change (2 ^ 8) with 256 in Hp. lia. }
    replace (ft - 1 + 1) with ft by lia. exact (dec_sym_safe ft ltac:(lia) c Hc).
Qed.
