(* ===== verification/RangeMem.v ===== *)
(** * The encoder stays inside its buffer

    Whatever the arguments of the calls, and whether or not an error occurred
    before, the encoder writes only the [storage] bytes it was given:
    [writes_in n c c'] says that going from [c] to [c'] changed no byte outside
    the first [n], and [in_bounds] that the write positions are inside. *)

From S2P Require Import Prelude RangeCoder.

Record in_bounds (n : Z) (c : ec_ctx) : Prop := {
  ib_storage : c.(storage) = n;
  ib_offs : 0 <= c.(offs);
  ib_end : 0 <= c.(end_offs);
  ib_fit : c.(offs) + c.(end_offs) <= n
}.

Definition same_above (n : Z) (b b' : list Z) : Prop :=
  len b' = len b /\ forall i, n <= i -> b'.[i] = b.[i].

(** The encoder state is in bounds, and its buffer agrees with [b0] above [n]. *)
Definition mem_ok (n : Z) (b0 : list Z) (c : ec_ctx) : Prop :=
  in_bounds n c /\ same_above n b0 c.(buf).

Section Mem.
Context (n : Z) (b0 : list Z).
Hypothesis Hn : 0 <= n < 2 ^ 32.
Abbreviation ok := (mem_ok n b0).

Lemma same_above_wr b i v : same_above n b0 b -> 0 <= i < n -> same_above n b0 b.[i <- v].
Proof.
  intros [H1 H2] Hi. split; [by rewrite len_wr|]. intros j Hj. rewrite rd_wr_ne by lia. auto.
Qed.

Lemma mem_write_byte c v : ok c -> ok (ec_write_byte c v).1.
Proof.
  intros [[] Hs]. unfold ec_write_byte. rewrite u32_small by lia.
  destruct (Z.geb_spec (offs c + end_offs c) (storage c)); cbn [fst]; [by split|].
  rewrite u32_small by lia. split; [constructor; simpl; lia|]. simpl. apply same_above_wr; [done|lia].
Qed.

Lemma mem_write_byte_at_end c v : ok c -> ok (ec_write_byte_at_end c v).1.
Proof.
  intros [[] Hs]. unfold ec_write_byte_at_end. rewrite u32_small by lia.
  destruct (Z.geb_spec (offs c + end_offs c) (storage c)); cbn [fst]; [by split|]. cbv zeta.
  cbn [fst set_end_offs storage end_offs buf]. rewrite (u32_small (end_offs c + 1)) by lia.
  rewrite u32_small by lia.
  split; [constructor; simpl; lia|]. simpl. apply same_above_wr; [done|lia].
Qed.

(** Setting the fields that are not positions keeps [ok]. *)
Lemma mem_fields c c' :
  ok c -> storage c' = storage c -> offs c' = offs c -> end_offs c' = end_offs c -> buf c' = buf c -> ok c'.
Proof. intros [[] Hs] E1 E2 E3 E4. split; [constructor; lia|by rewrite E4]. Qed.

Lemma mem_write_or_error w : ok w.1 -> ok (write_or_error w).
Proof. intros H. by apply (mem_fields w.1). Qed.

Lemma mem_syms k sym c : ok c -> ok (carry_out_syms k sym c).
Proof.
  revert c. induction k as [|k IH]; intros c H; [done|]. cbn [carry_out_syms]. cbv zeta.
  apply IH. eapply mem_fields; [apply mem_write_or_error, mem_write_byte, H|done..].
Qed.

Lemma mem_carry_out c x : ok c -> ok (ec_enc_carry_out c x).
Proof.
  intros H. unfold ec_enc_carry_out. cbv zeta.
  destruct (negb _); [|by apply (mem_fields c)].
  set (c1 := if rem c >=? 0 then _ else _).
  assert (ok c1) as H1 by (subst c1; case_match; [by apply mem_write_or_error, mem_write_byte|done]).
  clearbody c1. set (c2 := if ext c1 >? 0 then _ else _).
  assert (ok c2) as H2 by (subst c2; case_match; [by apply mem_syms|done]).
  by apply (mem_fields c2).
Qed.

Lemma mem_while {S} (P : S -> Prop) k (c : S -> bool) b s :
  (forall s, P s -> P (b s)) -> P s -> P (while_fuel k c b s).
Proof.
  intros Hb. revert s. induction k as [|k IH]; intros s Hs; [by rewrite while_fuel_O|].
  rewrite while_fuel_S. case_match; auto.
Qed.

Lemma mem_normalize c : ok c -> ok (ec_enc_normalize c).
Proof.
  apply mem_while. clear c. intros c H. unfold enc_normalize_step. cbv zeta.
  eapply mem_fields; [apply (mem_carry_out c (Z.shiftr (val c) EC_CODE_SHIFT)), H|done..].
Qed.

Lemma mem_narrow c v r : ok c -> ok (ec_enc_normalize (set_rng r (set_val v c))).
Proof. intros H. apply mem_normalize. by apply (mem_fields c). Qed.

Lemma mem_narrow_rng c r : ok c -> ok (ec_enc_normalize (set_rng r c)).
Proof. intros H. apply mem_normalize. by apply (mem_fields c). Qed.

Lemma mem_flush_step t : ok t.1.1 -> ok (enc_flush_step t).1.1.
Proof.
  destruct t as [[c w] u]. cbn [fst snd enc_flush_step]. intros H.
  by apply mem_write_or_error, mem_write_byte_at_end.
Qed.

Lemma mem_flush k t : ok t.1.1 -> ok (while_fuel k enc_flush_more enc_flush_step t).1.1.
Proof. apply (mem_while (fun t => ok t.1.1)). apply mem_flush_step. Qed.

Lemma mem_encode fl fh ft c : ok c -> ok (ec_encode fl fh ft c).
Proof. intros H. unfold ec_encode. cbv zeta. case_match; auto using mem_narrow, mem_narrow_rng. Qed.

Lemma mem_encode_bin fl fh bits c : ok c -> ok (ec_encode_bin fl fh bits c).
Proof. intros H. unfold ec_encode_bin. cbv zeta. case_match; auto using mem_narrow, mem_narrow_rng. Qed.

Lemma mem_bit_logp v logp c : ok c -> ok (ec_enc_bit_logp v logp c).
Proof. intros H. unfold ec_enc_bit_logp. cbv zeta. case_match; auto using mem_narrow, mem_narrow_rng. Qed.

Lemma mem_icdf s icdf ftb c : ok c -> ok (ec_enc_icdf s icdf ftb c).
Proof. intros H. unfold ec_enc_icdf. cbv zeta. case_match; auto using mem_narrow, mem_narrow_rng. Qed.

Lemma mem_icdf16 s icdf ftb c : ok c -> ok (ec_enc_icdf16 s icdf ftb c).
Proof. exact (mem_icdf s icdf ftb c). Qed.

Lemma mem_bits x bits c : ok c -> ok (ec_enc_bits x bits c).
Proof.
  intros H. unfold ec_enc_bits.
  match goal with |- context [if ?b then ?x else (c, ?w, ?u)] =>
    set (t := if b then x else (c, w, u)) end.
  assert (ok t.1.1) as Ht.
  { subst t. case_match; [|done]. apply mem_flush, mem_flush_step. done. }
  clearbody t. destruct t as [[c1 w] u]. by apply (mem_fields c1).
Qed.

Lemma mem_uint x ft c : ok c -> ok (ec_enc_uint x ft c).
Proof. intros H. unfold ec_enc_uint. cbv zeta. case_match; auto using mem_bits, mem_encode. Qed.

Lemma mem_patch v k c : ok c -> ok (ec_enc_patch_initial_bits v k c).
Proof.
  intros H. unfold ec_enc_patch_initial_bits. cbv zeta.
  destruct (Z.gtb_spec (offs c) 0); [|repeat case_match; by apply (mem_fields c)].
  destruct H as [[] Hs]. split; [by constructor|]. simpl. apply same_above_wr; [done|lia].
Qed.

Lemma len_imap (f : nat -> Z -> Z) (b : list Z) : len (imap f b) = len b.
Proof. unfold len. by rewrite length_imap. Qed.

Lemma mem_clear b i k : same_above n b0 b -> i + k <= n -> same_above n b0 (opus_clear b i k).
Proof.
  intros [H1 H2] Hi. unfold opus_clear. split; [by rewrite len_imap|]. intros j Hj.
  destruct (Z.ltb_spec j (len b)) as [Hl|Hl].
  - rewrite rd_imap by lia. destruct (Z.leb_spec i (Z.of_nat (Z.to_nat j))), (Z.ltb_spec (Z.of_nat (Z.to_nat j)) (i + k)); cbn; try lia; auto.
  - rewrite <- H2 by lia. rewrite !rd_out; rewrite ?len_imap; lia.
Qed.

Lemma mem_tail c w u l : ok c -> ok (enc_done_tail c w u l).
Proof.
  intros H. unfold enc_done_tail. case_match; [|done]. cbv zeta.
  set (c1 := set_buf (opus_clear _ _ _) c).
  assert (ok c1) as H1.
  { destruct H as [[] Hs]. split; [by constructor|]. apply mem_clear; [done|]. simpl in *. lia. }
  clearbody c1. case_match; [|done].
  destruct (Z.geb_spec (end_offs c1) (storage c1)); [by apply (mem_fields c1)|].
  match goal with |- context [if ?b then ?x else (c1, ?w)] => set (t := if b then x else (c1, w)) end.
  assert (ok t.1 /\ end_offs t.1 = end_offs c1 /\ storage t.1 = storage c1) as (Ht & E1 & E2).
  { subst t. case_match; [|done]. split; [|done]. by apply (mem_fields c1). }
  clearbody t. destruct t as [c2 w2]. cbn [fst] in *. destruct Ht as [[] Hs].
  split; [by constructor|]. simpl. apply same_above_wr; [done|lia].
Qed.

Lemma mem_done c : ok c -> ok (ec_enc_done c).
Proof.
  intros H. unfold ec_enc_done. destruct (enc_done_end c) as [e l].
  assert (ok (while_fuel 2 enc_done_more enc_done_step (c, e, l)).1.1) as H1.
  { apply (mem_while (fun t : ec_ctx * Z * Z => ok t.1.1)); [|done].
    intros [[c1 e1] l1] Hc. by apply mem_carry_out. }
  destruct (while_fuel 2 _ _ _) as [[c1 e1] l1]. cbn [fst] in H1. cbv zeta.
  set (c2 := if _ || _ then _ else _).
  assert (ok c2) as H2 by (subst c2; case_match; [by apply mem_carry_out|done]).
  clearbody c2. pose proof (mem_flush 4 (c2, end_window c2, nend_bits c2) H2) as H3.
  destruct (while_fuel 4 _ _ _) as [[c3 w] u]. by apply mem_tail.
Qed.

Lemma mem_init : n <= len b0 -> ok (ec_enc_init b0 n).
Proof. intros H. split; [constructor; simpl; lia|done]. Qed.
End Mem.

(** Shrinking the buffer moves the raw bytes and keeps the rest. *)
Lemma shrink_mem n m c :
  in_bounds n c -> offs c + end_offs c <= m <= n ->
  in_bounds m (ec_enc_shrink m c) /\ same_above m (buf c) (buf (ec_enc_shrink m c)) /\
  (forall i, 0 <= i < offs c -> (buf (ec_enc_shrink m c)).[i] = (buf c).[i]) /\
  (n <= len (buf c) -> forall j, 0 <= j < end_offs c ->
     (buf (ec_enc_shrink m c)).[m - 1 - j] = (buf c).[n - 1 - j]).
Proof.
  intros [] Hm. unfold ec_enc_shrink. cbn [set_storage set_buf buf].
  assert (forall i, 0 <= i -> (opus_move (buf c) (m - end_offs c) (storage c - end_offs c) (end_offs c)).[i]
    = if (m - end_offs c <=? i) && (i <? m) && (i <? len (buf c)) then (buf c).[i - m + storage c] else (buf c).[i]) as HM.
  { intros i Hi. unfold opus_move. destruct (Z.ltb_spec i (len (buf c))) as [Hl|Hl].
    - rewrite rd_imap, Z2Nat.id by lia. replace (m - end_offs c + end_offs c) with m by lia.
      rewrite andb_true_r. case_match; [f_equal; lia|done].
    - rewrite andb_false_r. rewrite !rd_out; rewrite ?len_imap; lia. }
  split; [constructor; simpl; lia|]. split; [split|split].
  - unfold opus_move. apply len_imap.
  - intros i Hi. rewrite HM by lia.
    destruct (Z.ltb_spec i m); [lia|]. by rewrite andb_false_r.
  - intros i Hi. rewrite HM by lia. destruct (Z.leb_spec (m - end_offs c) i); [lia|done].
  - intros Hl j Hj. rewrite HM by lia.
    destruct (Z.leb_spec (m - end_offs c) (m - 1 - j)); [|lia].
    destruct (Z.ltb_spec (m - 1 - j) m); [|lia]. destruct (Z.ltb_spec (m - 1 - j) (len (buf c))); [|lia].
    cbn [andb]. f_equal. lia.
Qed.
