(* ===== verification/RangeRoundTrip.v ===== *)
(** * The range coder implements the entropy coder interface

    [rc_codes e d x] and [rc_sync e d] are the meaning of [codes] and [sync] for the
    range coder: the
    encoder [e] keeps the encoder invariant, and any packet that fits the state
    after [e] makes a decoder at the state before [e] return [x] and reach the
    state after [e].  Every primitive has it, hence the instance
    [RangeEntropyCoder], and a whole packet decodes to what was encoded
    ([packet_decodes]). *)

From S2P Require Import Prelude EntropyInterface RangeCoder EntCode RangeSpec RangeDone RangeSafe.

#[local] Arguments ec_enc_normalize : simpl never.
#[local] Arguments ec_dec_normalize : simpl never.

Definition rc_codes {A : Type} (e : ec_ctx -> ec_ctx) (d : ec_ctx -> A * ec_ctx) (x : A) : Prop :=
  forall c,
    (good (e c) -> good c) /\
    (enc_ok c -> good (e c) ->
     enc_ok (e c) /\ storage (e c) = storage c /\
     forall F, bytes F -> len F = storage c -> fits F (abs (e c)) ->
       fits F (abs c) /\
       forall s, tracks F (abs c) s -> exists s', d s = (x, s') /\ tracks F (abs (e c)) s').

(** The same for an encoder that returns the value it codes. *)
Definition rc_sync {A : Type} (e : ec_ctx -> A * ec_ctx) (d : ec_ctx -> A * ec_ctx) : Prop :=
  forall c,
    (good (e c).2 -> good c) /\
    (enc_ok c -> good (e c).2 ->
     enc_ok (e c).2 /\ storage (e c).2 = storage c /\
     forall F, bytes F -> len F = storage c -> fits F (abs (e c).2) ->
       fits F (abs c) /\
       forall s, tracks F (abs c) s ->
         exists s', d s = ((e c).1, s') /\ tracks F (abs (e c).2) s').

(** ** Composition *)

Lemma rc_codes_ext {A} e e' (d d' : ec_ctx -> A * ec_ctx) x :
  (forall s, e s = e' s) -> (forall s, d s = d' s) -> rc_codes e d x -> rc_codes e' d' x.
Proof.
  intros He Hd H c. rewrite <- !He. destruct (H c) as [H1 H2]. split; [done|].
  intros H3 H4. destruct (H2 H3 H4) as (H5 & H6 & H7). split_and!; try done.
  intros F HF HFl Hf. destruct (H7 F HF HFl Hf) as [H8 H9]. split; [done|].
  intros s. rewrite <- Hd. apply H9.
Qed.

Lemma rc_codes_ret {A} (x : A) : rc_codes (fun s => s) (fun s => (x, s)) x.
Proof. intros c. split; [done|]. intros. split_and!; try done. intros. split; [done|]. eauto. Qed.

Lemma rc_codes_bind {A B} e1 e2 (d1 : ec_ctx -> A * ec_ctx) (d2 : A -> ec_ctx -> B * ec_ctx) x y :
  rc_codes e1 d1 x -> rc_codes e2 (d2 x) y ->
  rc_codes (fun s => e2 (e1 s)) (fun s => let '(a, s) := d1 s in d2 a s) y.
Proof.
  intros H1 H2 c. destruct (H1 c) as [G1 K1], (H2 (e1 c)) as [G2 K2]. split; [by auto|].
  intros Hok Hg. destruct (K1 Hok (G2 Hg)) as (Hok1 & Hs1 & F1).
  destruct (K2 Hok1 Hg) as (Hok2 & Hs2 & F2). split_and!; [done|congruence|].
  intros F HF HFl Hf. destruct (F2 F HF ltac:(congruence) Hf) as [Hf1 T2].
  destruct (F1 F HF HFl Hf1) as [Hf0 T1].
  split; [done|]. intros s Hs. destruct (T1 s Hs) as (s1 & -> & Hs1'). by apply T2.
Qed.

Lemma rc_sync_ext {A} (e e' : ec_ctx -> A * ec_ctx) (d d' : ec_ctx -> A * ec_ctx) :
  (forall s, e s = e' s) -> (forall s, d s = d' s) -> rc_sync e d -> rc_sync e' d'.
Proof.
  intros He Hd H c. rewrite <- !He. destruct (H c) as [H1 H2]. split; [done|].
  intros H3 H4. destruct (H2 H3 H4) as (H5 & H6 & H7). split_and!; try done.
  intros F HF HFl Hf. destruct (H7 F HF HFl Hf) as [H8 H9]. split; [done|].
  intros s. rewrite <- Hd. apply H9.
Qed.

Lemma rc_sync_bind {A B X} (f : X -> A) e1 (e2 : X -> ec_ctx -> B * ec_ctx)
    (d1 : ec_ctx -> A * ec_ctx) (d2 : A -> ec_ctx -> B * ec_ctx) :
  rc_sync (fun s => (f (e1 s).1, (e1 s).2)) d1 -> (forall s, rc_sync (e2 (e1 s).1) (d2 (f (e1 s).1))) ->
  rc_sync (fun s => let '(x, s) := e1 s in e2 x s) (fun s => let '(a, s) := d1 s in d2 a s).
Proof.
  intros H1 H2 c. destruct (H1 c) as [G1 K1]. specialize (H2 c).
  destruct (e1 c) as [a c1]. cbn [fst snd] in *. destruct (H2 c1) as [G2 K2]. split; [by auto|].
  intros Hok Hg. destruct (K1 Hok (G2 Hg)) as (Hok1 & Hs1 & F1).
  destruct (K2 Hok1 Hg) as (Hok2 & Hs2 & F2). split_and!; [done|congruence|].
  intros F HF HFl Hf. destruct (F2 F HF ltac:(congruence) Hf) as [Hf1 T2].
  destruct (F1 F HF HFl Hf1) as [Hf0 T1].
  split; [done|]. intros s Hs. destruct (T1 s Hs) as (s1 & -> & Hs1'). by apply T2.
Qed.

(** The two sides count the same number of bits. *)
Lemma tracks_tell c F s : enc_ok c -> tracks F (abs c) s -> ec_tell s = ec_tell c.
Proof.
  intros [[] _] []. unfold ec_tell. rewrite tr_rng, tr_nbits. by rewrite ei_bits.
Qed.

(** A value that both sides can read off their state. *)
Lemma rc_sync_pointwise {A} (e d : ec_ctx -> A * ec_ctx) :
  (forall s, exists e', rc_sync e' d /\ e' s = e s) -> rc_sync e d.
Proof. intros H c. destruct (H c) as (e' & Hs & E). specialize (Hs c). by rewrite E in Hs. Qed.

Lemma rc_sync_read {A} (f : ec_ctx -> A) :
  (forall c F s, enc_ok c -> len F = storage c -> tracks F (abs c) s -> f s = f c) ->
  rc_sync (fun s => (f s, s)) (fun s => (f s, s)).
Proof.
  intros Hf c. split; [done|]. intros Hok Hg. split_and!; try done.
  intros F HF HFl Hfit. split; [done|]. intros s Hs. cbn [fst snd]. rewrite (Hf c F s); eauto.
Qed.

Lemma rc_sync_tell : rc_sync (fun s => (ec_tell s, s)) (fun s => (ec_tell s, s)).
Proof. apply rc_sync_read. intros c F s Hok _ Hs. by apply (tracks_tell c F s). Qed.

Lemma tracks_tell_frac c F s : enc_ok c -> tracks F (abs c) s -> ec_tell_frac s = ec_tell_frac c.
Proof.
  intros [[] _] []. unfold ec_tell_frac. rewrite tr_rng, tr_nbits. by rewrite ei_bits.
Qed.

Lemma rc_sync_tell_frac : rc_sync (fun s => (ec_tell_frac s, s)) (fun s => (ec_tell_frac s, s)).
Proof. apply rc_sync_read. intros c F s Hok _ Hs. by apply (tracks_tell_frac c F s). Qed.

Lemma enc_tell_frac_nonneg s : 0 <= ec_tell_frac s.
Proof. apply u32_range. Qed.

Lemma rc_sync_storage : rc_sync (fun s => (storage s, s)) (fun s => (storage s, s)).
Proof. apply rc_sync_read. intros c F s _ HF Hs. destruct Hs. congruence. Qed.

Lemma dec_normalize_storage s : storage (ec_dec_normalize s) = storage s.
Proof.
  apply (while_fuel_const _ _ storage). clear s. intros s. unfold dec_normalize_step, ec_read_byte.
  cbv zeta. destruct (_ <? _); reflexivity.
Qed.

Lemma dec_bit_logp_storage logp s : storage (ec_dec_bit_logp logp s).2 = storage s.
Proof.
  unfold ec_dec_bit_logp. cbv zeta. cbn [snd]. rewrite dec_normalize_storage. by destruct (_ <? _).
Qed.

(** ** Operations that narrow the interval *)

Lemma enc_normalize_good c : good (ec_enc_normalize c) -> good c.
Proof. unfold ec_enc_normalize. apply while_fuel_reflect. apply enc_step_good. Qed.

Lemma a_ok_abs c : enc_ok c -> a_ok (abs c).
Proof.
  intros [[] Hr]. destruct ei_buf. constructor; simpl; try lia.
  assert (0 <= endraw c < 2 ^ (8 * end_offs c)) as He.
  { replace (8 * end_offs c) with (8 * Z.of_nat (Z.to_nat (end_offs c))) by lia.
    rewrite <- pow256. apply lesum_range. intros i. by apply bytes_rd. }
  rewrite Z.pow_add_r by lia. nia.
Qed.

Lemma normalize_storage c : storage (ec_enc_normalize c) = storage c.
Proof.
  unfold ec_enc_normalize. apply (while_fuel_const _ _ storage). clear c. intros c.
  unfold enc_normalize_step. cbv zeta.
  destruct (carry_out_rest c (Z.shiftr (val c) EC_CODE_SHIFT)) as (Hs & _).
  cbn [storage set_val set_rng set_nbits_total]. done.
Qed.

(** The C encoder [e] computes the abstract step [f]. *)
Definition rc_refines (e : ec_ctx -> ec_ctx) (f : aenc -> aenc) : Prop :=
  forall c, enc_ok c -> good (e c) -> enc_ok (e c) /\ abs (e c) = f (abs c).

(** An encoder that narrows to the sub-interval [o], [r] of the range. *)
Definition narrows (e : ec_ctx -> ec_ctx) (o r : Z -> Z) : Prop :=
  (forall g, 2 ^ 23 < g <= 2 ^ 31 -> 0 <= o g /\ 0 < r g /\ o g + r g <= g) /\
  exists V R : ec_ctx -> Z,
    (forall c, e c = ec_enc_normalize (set_rng (R c) (set_val (V c) c))) /\
    (forall c, enc_ok c -> V c = val c + o (rng c) /\ R c = r (rng c)).

Lemma narrows_refines e o r :
  narrows e o r -> rc_refines e (fun a => a_op (o (arng a)) (r (arng a)) a).
Proof.
  intros [Hsub (V & R & He & HVR)] c Hok. rewrite He. intros Hg.
  destruct (HVR c Hok) as [EV ER]. rewrite EV, ER in *.
  pose proof (a_ok_abs c Hok) as [Hrng _ _]. simpl in Hrng.
  destruct (Hsub (rng c) Hrng) as (H1 & H2 & H3).
  destruct (enc_narrow_ok c (o (rng c)) (r (rng c))) as (Hok' & HA & _); done.
Qed.

(** With a decoder that recognizes the symbol when the code lies in the
    sub-interval, such an encoder codes the symbol. *)
Lemma rc_codes_narrow {A} (e : ec_ctx -> ec_ctx) (d : ec_ctx -> A * ec_ctx) x (o r : Z -> Z) :
  narrows e o r ->
  (forall s, 2 ^ 23 < rng s <= 2 ^ 31 ->
     rng s - o (rng s) - r (rng s) <= val s < rng s - o (rng s) -> 0 <= val s ->
     exists t, d s = (x, ec_dec_normalize (set_rng (r (rng s))
                       (set_val (val s - (rng s - o (rng s) - r (rng s))) (set_ext t s))))) ->
  rc_codes e d x.
Proof.
  intros Hn Hd c. pose proof (narrows_refines _ _ _ Hn c) as Href.
  destruct Hn as [Hsub (V & R & He & _)]. split.
  { rewrite He. intros H. by apply enc_normalize_good in H. }
  intros Hok Hg. destruct (Href Hok Hg) as [Hok' HA].
  pose proof (a_ok_abs c Hok) as [Hrng _ _]. simpl in Hrng.
  destruct (Hsub (rng c) Hrng) as (H1 & H2 & H3).
  split_and!; [done|by rewrite He, normalize_storage|]. rewrite HA.
  intros F HF _ Hf. pose proof Hf as Hf'. apply fits_op in Hf' as [Hf0 Hc]; try done.
  split; [done|]. intros s Hs. pose proof Hs as []. simpl in tr_rng, tr_val.
  destruct (Hd s) as [t ->]; [rewrite tr_rng; lia|rewrite tr_rng, tr_val; simpl in Hc; lia| |].
  { rewrite tr_val. destruct Hf0. simpl in *. lia. }
  eexists. split; [done|]. rewrite tr_rng.
  apply (dec_narrow_ok F HF _ (set_ext t s)) in Hf; [|by apply tracks_ext|done].
  revert Hf. simpl. by rewrite tr_rng.
Qed.

(** ** Frequency intervals *)

Section Freq.
Context (fl fh ft : Z) (q : Z -> Z).
Hypothesis (Hfl : 0 <= fl < fh) (Hfh : fh <= ft) (Hft : ft <= 2 ^ 16).
Hypothesis Hq : forall g, 2 ^ 23 < g <= 2 ^ 31 -> 1 <= q g /\ q g * ft <= g.

Definition freq_off (g : Z) : Z := if fl >? 0 then g - q g * (ft - fl) else 0.
Definition freq_rng (g : Z) : Z := if fl >? 0 then q g * (fh - fl) else g - q g * (ft - fh).

Lemma freq_sub g :
  2 ^ 23 < g <= 2 ^ 31 ->
  0 <= freq_off g /\ 0 < freq_rng g /\ freq_off g + freq_rng g <= g /\
  g - freq_off g - freq_rng g = q g * (ft - fh).
Proof.
  intros Hg. destruct (Hq g Hg) as [H1 H2]. unfold freq_off, freq_rng.
  destruct (Z.gtb_spec fl 0); nia.
Qed.

(** The narrowing as the C code writes it. *)
Lemma freq_exact c k :
  enc_ok c -> 0 <= k <= ft -> IMUL32 (q (rng c)) k = q (rng c) * k.
Proof.
  intros Hok Hk. pose proof (a_ok_abs c Hok) as [Hr _ _]. simpl in Hr.
  destruct (Hq _ Hr). unfold IMUL32. apply u32_small. nia.
Qed.

Lemma freq_enc c :
  enc_ok c ->
  (if fl >? 0 then u32 (val c + (rng c - IMUL32 (q (rng c)) (ft - fl))) else val c)
    = val c + freq_off (rng c) /\
  (if fl >? 0 then IMUL32 (q (rng c)) (fh - fl) else u32 (rng c - IMUL32 (q (rng c)) (ft - fh)))
    = freq_rng (rng c).
Proof.
  intros Hok. pose proof (a_ok_abs c Hok) as [Hr _ _]. simpl in Hr.
  pose proof (freq_sub _ Hr) as (H1 & H2 & H3 & H4). destruct Hok as [[] ?].
  unfold freq_off, freq_rng in *. destruct (Z.gtb_spec fl 0).
  - rewrite !freq_exact by (done || lia). rewrite u32_small; lia.
  - rewrite !freq_exact by (done || lia). rewrite u32_small; lia.
Qed.

(** The value that [ec_decode] returns lies in the interval. *)
Lemma freq_dec s :
  2 ^ 23 < rng s <= 2 ^ 31 -> 0 <= val s ->
  rng s - freq_off (rng s) - freq_rng (rng s) <= val s < rng s - freq_off (rng s) ->
  fl <= ft - EC_MINI (u32 (val s / q (rng s) + 1)) ft < fh.
Proof.
  intros Hr H0 Hv. destruct (Hq _ Hr) as [H1 H2].
  pose proof (freq_sub _ Hr) as (A1 & A2 & A3 & A4). rewrite A4 in Hv.
  set (w := val s / q (rng s)).
  assert (0 <= w <= val s) as Hw.
  { subst w. split; [apply Z.div_pos; lia|]. apply Z.div_le_upper_bound; nia. }
  rewrite u32_small, EC_MINI_min by lia.
  assert (ft - fh <= w) as Hlo by (subst w; apply Z.div_le_lower_bound; lia).
  unfold freq_off in Hv. destruct (Z.gtb_spec fl 0); [|lia].
  assert (w < ft - fl) as Hhi by (subst w; apply Z.div_lt_upper_bound; lia). lia.
Qed.

Lemma freq_update s :
  2 ^ 23 < rng s <= 2 ^ 31 -> 0 <= val s < rng s - freq_off (rng s) ->
  rng s - freq_off (rng s) - freq_rng (rng s) <= val s ->
  ec_dec_update fl fh ft (set_ext (q (rng s)) s)
  = ec_dec_normalize (set_rng (freq_rng (rng s))
      (set_val (val s - (rng s - freq_off (rng s) - freq_rng (rng s))) (set_ext (q (rng s)) s))).
Proof.
  intros Hr Hv Hv2. destruct (Hq _ Hr) as [H1 H2].
  pose proof (freq_sub _ Hr) as (A1 & A2 & A3 & A4). rewrite A4 in *.
  unfold ec_dec_update. cbv zeta. cbn [ext val rng set_ext set_val].
  assert (forall k, 0 <= k <= ft -> IMUL32 (q (rng s)) k = q (rng s) * k) as HI.
  { intros k Hk. unfold IMUL32. apply u32_small. nia. }
  rewrite !HI by lia. rewrite (u32_small (val s - _)) by nia. do 2 f_equal.
  unfold freq_rng. destruct (Z.gtb_spec fl 0); [done|]. apply u32_small. nia.
Qed.
End Freq.

Lemma q_div ft g : 1 <= ft <= 2 ^ 16 -> 2 ^ 23 < g <= 2 ^ 31 -> 1 <= g / ft /\ g / ft * ft <= g.
Proof.
  intros Hf Hg. split; [apply Z.div_le_lower_bound; lia|].
  rewrite Z.mul_comm. apply Z.mul_div_le. lia.
Qed.

Lemma narrows_freq fl fh ft :
  0 <= fl < fh -> fh <= ft -> ft <= 2 ^ 16 ->
  narrows (ec_encode fl fh ft) (freq_off fl ft (fun g => g / ft)) (freq_rng fl fh ft (fun g => g / ft)).
Proof.
  intros H1 H2 H3. set (q := fun g => g / ft).
  assert (forall g, 2 ^ 23 < g <= 2 ^ 31 -> 1 <= q g /\ q g * ft <= g) as Hq
    by (intros; apply q_div; lia).
  split; [intros g Hg; pose proof (freq_sub fl fh ft q H1 H2 Hq g Hg); tauto|].
  exists (fun c => if fl >? 0 then u32 (val c + (rng c - IMUL32 (q (rng c)) (ft - fl))) else val c).
  exists (fun c => if fl >? 0 then IMUL32 (q (rng c)) (fh - fl)
              else u32 (rng c - IMUL32 (q (rng c)) (ft - fh))).
  split; [|intros c Hok; by apply freq_enc].
  intros c. unfold ec_encode, celt_udiv. cbv zeta. fold (q (rng c)).
  destruct (fl >? 0); [done|]. by rewrite set_val_id.
Qed.

Lemma rc_codes_freq {A} fl fh ft (k : Z -> A * Z * Z) x :
  0 <= fl < fh -> fh <= ft -> ft <= 2 ^ 16 ->
  (forall fs, fl <= fs < fh -> k fs = (x, fl, fh)) ->
  rc_codes (ec_encode fl fh ft)
    (fun s => let '(fs, s) := ec_decode ft s in
              let '(a, l, h) := k fs in (a, ec_dec_update l h ft s)) x.
Proof.
  intros H1 H2 H3 Hk. set (q := fun g => g / ft).
  assert (forall g, 2 ^ 23 < g <= 2 ^ 31 -> 1 <= q g /\ q g * ft <= g) as Hq
    by (intros; apply q_div; lia).
  apply (rc_codes_narrow _ _ _ (freq_off fl ft q) (freq_rng fl fh ft q)); [by apply narrows_freq|].
  intros s Hr Hv H0. unfold ec_decode, celt_udiv. cbv zeta. cbn [ext val set_ext].
  change (rng s / ft) with (q (rng s)). rewrite Hk by (by apply freq_dec). eexists. f_equal.
    apply freq_update; try done; lia.
Qed.

Lemma q_shift bits g :
  0 <= bits <= 16 -> 2 ^ 23 < g <= 2 ^ 31 -> 1 <= Z.shiftr g bits /\ Z.shiftr g bits * 2 ^ bits <= g.
Proof.
  intros Hb Hg. rewrite Z.shiftr_div_pow2 by lia.
  apply q_div; [|done]. pose proof (Z.pow_le_mono_r 2 bits 16). lia.
Qed.

Lemma shiftl_1 bits : 0 <= bits <= 16 -> u32 (Z.shiftl 1 bits) = 2 ^ bits.
Proof.
  intros Hb. rewrite Z.shiftl_mul_pow2, Z.mul_1_l by lia. apply u32_small.
  pose proof (Z.pow_lt_mono_r 2 bits 32). lia.
Qed.

Lemma narrows_freq_bin fl fh bits :
  0 <= bits <= 16 -> 0 <= fl < fh -> fh <= 2 ^ bits ->
  narrows (ec_encode_bin fl fh bits) (freq_off fl (2 ^ bits) (fun g => Z.shiftr g bits))
    (freq_rng fl fh (2 ^ bits) (fun g => Z.shiftr g bits)).
Proof.
  intros Hb H1 H2. set (q := fun g => Z.shiftr g bits).
  assert (2 ^ bits <= 2 ^ 16) as H3 by (apply Z.pow_le_mono_r; lia).
  assert (forall g, 2 ^ 23 < g <= 2 ^ 31 -> 1 <= q g /\ q g * 2 ^ bits <= g) as Hq
    by (intros; by apply q_shift).
  split; [intros g Hg; pose proof (freq_sub fl fh (2 ^ bits) q H1 H2 Hq g Hg); tauto|].
  exists (fun c => if fl >? 0 then u32 (val c + (rng c - IMUL32 (q (rng c)) (2 ^ bits - fl))) else val c).
  exists (fun c => if fl >? 0 then IMUL32 (q (rng c)) (fh - fl)
              else u32 (rng c - IMUL32 (q (rng c)) (2 ^ bits - fh))).
  split; [|intros c Hok; by apply freq_enc].
  intros c. unfold ec_encode_bin. cbv zeta. rewrite shiftl_1 by done. fold (q (rng c)).
  destruct (fl >? 0); [done|]. by rewrite set_val_id.
Qed.

Lemma rc_codes_freq_bin {A} fl fh bits (k : Z -> A * Z * Z) x :
  0 <= bits <= 16 -> 0 <= fl < fh -> fh <= 2 ^ bits ->
  (forall fs, fl <= fs < fh -> k fs = (x, fl, fh)) ->
  rc_codes (ec_encode_bin fl fh bits)
    (fun s => let '(fs, s) := ec_decode_bin bits s in
              let '(a, l, h) := k fs in (a, ec_dec_update l h (2 ^ bits) s)) x.
Proof.
  intros Hb H1 H2 Hk. set (q := fun g => Z.shiftr g bits).
  assert (2 ^ bits <= 2 ^ 16) as H3 by (apply Z.pow_le_mono_r; lia).
  assert (forall g, 2 ^ 23 < g <= 2 ^ 31 -> 1 <= q g /\ q g * 2 ^ bits <= g) as Hq
    by (intros; by apply q_shift).
  apply (rc_codes_narrow _ _ _ (freq_off fl (2 ^ bits) q) (freq_rng fl fh (2 ^ bits) q));
    [by apply narrows_freq_bin|].
  intros s Hr Hv H0. unfold ec_decode_bin. cbv zeta. cbn [ext val set_ext].
  rewrite shiftl_1 by done. change (Z.shiftr (rng s) bits) with (q (rng s)). rewrite Hk by (by apply freq_dec). eexists. f_equal.
    apply freq_update; try done; lia.
Qed.

Lemma set_ext_id s : set_ext (ext s) s = s.
Proof. by destruct s. Qed.

Lemma q_logp logp g :
  1 <= logp <= 16 -> 2 ^ 23 < g <= 2 ^ 31 -> 1 <= Z.shiftr g logp /\ 2 * Z.shiftr g logp <= g.
Proof.
  intros Hl Hg. destruct (q_shift logp g ltac:(lia) Hg) as [H1 H2].
  pose proof (Z.pow_le_mono_r 2 1 logp ltac:(lia) ltac:(lia)). nia.
Qed.

Lemma narrows_bit_logp (b : bool) logp :
  1 <= logp <= 16 ->
  narrows (ec_enc_bit_logp b logp) (fun g => if b then g - Z.shiftr g logp else 0)
    (fun g => if b then Z.shiftr g logp else g - Z.shiftr g logp).
Proof.
  intros Hl. split; [intros g Hg; destruct (q_logp logp g Hl Hg), b; lia|].
  exists (fun c => if b then u32 (val c + u32 (rng c - Z.shiftr (rng c) logp)) else val c).
  exists (fun c => if b then Z.shiftr (rng c) logp else u32 (rng c - Z.shiftr (rng c) logp)).
  split.
  - intros c. unfold ec_enc_bit_logp. cbv zeta. destruct b; [done|]. by rewrite set_val_id.
  - intros c Hok. pose proof (a_ok_abs c Hok) as [Hr _ _]. simpl in Hr. destruct Hok as [[] _].
    destruct (q_logp logp _ Hl Hr). destruct b; rewrite ?u32_small; rewrite ?u32_small; lia.
Qed.

Lemma rc_codes_bit_logp b logp :
  1 <= logp <= 16 -> rc_codes (ec_enc_bit_logp b logp) (ec_dec_bit_logp logp) b.
Proof.
  intros Hl. eapply rc_codes_narrow; [by apply narrows_bit_logp|].
  intros s Hr Hv H0. destruct (q_logp logp _ Hl Hr). exists (ext s). rewrite set_ext_id.
  unfold ec_dec_bit_logp. cbv zeta. destruct b.
  - destruct (Z.ltb_spec (val s) (Z.shiftr (rng s) logp)); [|lia]. simpl. do 3 f_equal.
    replace (val s - _) with (val s) by lia. by rewrite set_val_id.
  - destruct (Z.ltb_spec (val s) (Z.shiftr (rng s) logp)); [lia|]. simpl. rewrite !u32_small by lia.
    do 4 f_equal. lia.
Qed.

(** ** Symbols of a table *)

Section Icdf.
Context (s : Z) (icdf : list Z) (ftb : Z).
Hypothesis (Hftb : 0 <= ftb <= 16) (Hval : icdf_valid icdf ftb = true)
  (Hcod : icdf_codable icdf ftb s = true).

Definition icdf_q (g : Z) : Z := Z.shiftr g ftb.
Definition icdf_up (g : Z) : Z := if s >? 0 then icdf_q g * icdf.[s - 1] else g.

Lemma icdf_facts :
  0 <= s < len icdf /\ 0 <= icdf.[s] <= 2 ^ ftb /\
  (0 < s -> icdf.[s] < icdf.[s - 1] <= 2 ^ ftb) /\ (s = 0 -> icdf.[s] < 2 ^ ftb).
Proof.
  pose proof Hcod as H. unfold icdf_codable in H. rewrite !andb_true_iff in H.
  destruct H as [[H1 H2] H3]. apply Z.leb_le in H1. apply Z.ltb_lt in H2, H3.
  pose proof (icdf_nonneg _ _ s Hval ltac:(lia)). unfold icdf_upper in H3.
  split_and!; try lia.
  - intros. destruct (Z.gtb_spec s 0); [|lia]. pose proof (icdf_nonneg _ _ (s - 1) Hval ltac:(lia)). lia.
  - intros ->. done.
Qed.

Lemma icdf_sub g :
  2 ^ 23 < g <= 2 ^ 31 ->
  1 <= icdf_q g /\ 0 <= icdf_q g * icdf.[s] < icdf_up g /\ icdf_up g <= g /\ icdf_q g * 2 ^ ftb <= g.
Proof.
  intros Hg. destruct (q_shift ftb g Hftb Hg) as [H1 H2]. fold (icdf_q g) in *.
  destruct icdf_facts as (F1 & F2 & F3 & F4). unfold icdf_up. destruct (Z.gtb_spec s 0) as [H|H].
  - specialize (F3 ltac:(lia)). nia.
  - specialize (F4 ltac:(lia)). nia.
Qed.

Lemma icdf_exact g i :
  2 ^ 23 < g <= 2 ^ 31 -> 0 <= icdf.[i] <= 2 ^ ftb -> IMUL32 (icdf_q g) icdf.[i] = icdf_q g * icdf.[i].
Proof.
  intros Hg Hi. destruct (icdf_sub g Hg) as (H1 & _ & _ & H4). unfold IMUL32. apply u32_small. nia.
Qed.

(** The search loop stops exactly at [s]. *)
Lemma dec_icdf_loop_ok g d n k t :
  2 ^ 23 < g <= 2 ^ 31 -> icdf_q g * icdf.[s] <= d < icdf_up g ->
  0 <= k <= s -> (Z.to_nat (s - k) <= n)%nat -> t = (if k >? 0 then icdf_q g * icdf.[k - 1] else g) ->
  dec_icdf_loop n icdf (icdf_q g) d t (k - 1) = (icdf_up g, icdf_q g * icdf.[s], s).
Proof.
  intros Hg Hd. destruct (icdf_sub g Hg) as (H1 & H2 & H3 & H4).
  destruct icdf_facts as (F1 & F2 & F3 & F4).
  revert k t. induction n as [|n IH]; intros k t Hk Hn Ht; simpl.
  - assert (k = s) as -> by lia. replace (s - 1 + 1) with s by lia.
    rewrite icdf_exact by done. f_equal. f_equal. unfold icdf_up. rewrite Ht. done.
  - replace (k - 1 + 1) with k by lia.
    destruct (decide (k = s)) as [->|Hne].
    + rewrite icdf_exact by done. destruct (Z.ltb_spec d (icdf_q g * icdf.[s])); [lia|].
      f_equal. f_equal. unfold icdf_up. rewrite Ht. done.
    + pose proof (icdf_nonneg _ _ k Hval ltac:(lia)) as Hnn. rewrite icdf_exact by done.
      pose proof (icdf_below _ _ s k Hval ltac:(lia) ltac:(lia)) as Hb.
      unfold icdf_upper in Hb. unfold icdf_up in Hd. destruct (Z.gtb_spec s 0); [|lia].
      destruct (Z.ltb_spec d (icdf_q g * icdf.[k])); [|nia].
      rewrite <- (IH (k + 1) (icdf_q g * icdf.[k])); [f_equal; lia|lia..|].
      destruct (Z.gtb_spec (k + 1) 0); [|lia]. by replace (k + 1 - 1) with k by lia.
Qed.

Lemma narrows_icdf :
  narrows (ec_enc_icdf s icdf ftb) (fun g => g - icdf_up g) (fun g => icdf_up g - icdf_q g * icdf.[s]).
Proof.
  destruct icdf_facts as (F1 & F2 & F3 & F4).
  split; [intros g Hg; pose proof (icdf_sub g Hg); lia|].
  exists (fun c => if s >? 0 then u32 (val c + (rng c - IMUL32 (icdf_q (rng c)) icdf.[s - 1])) else val c).
  exists (fun c => if s >? 0 then IMUL32 (icdf_q (rng c)) (icdf.[s - 1] - icdf.[s])
              else u32 (rng c - IMUL32 (icdf_q (rng c)) icdf.[s])).
  split.
  - intros c. unfold ec_enc_icdf. cbv zeta. fold (icdf_q (rng c)).
    destruct (s >? 0); [done|]. by rewrite set_val_id.
  - intros c Hok. pose proof (a_ok_abs c Hok) as [Hr _ _]. simpl in Hr.
    destruct (icdf_sub _ Hr) as (H1 & H2 & H3 & H4). destruct Hok as [[] _].
    unfold icdf_up in *. destruct (Z.gtb_spec s 0).
    + specialize (F3 ltac:(lia)). rewrite icdf_exact by (done || lia).
      unfold IMUL32. rewrite !u32_small by nia. lia.
    + rewrite icdf_exact by done. rewrite u32_small by nia. lia.
Qed.

Lemma rc_codes_icdf : rc_codes (ec_enc_icdf s icdf ftb) (ec_dec_icdf icdf ftb) s.
Proof.
  destruct icdf_facts as (F1 & F2 & F3 & F4). eapply rc_codes_narrow; [apply narrows_icdf|].
  intros st Hr Hv H0. cbv beta in *. destruct (icdf_sub _ Hr) as (H1 & H2 & H3 & H4).
  exists (ext st). rewrite set_ext_id. unfold ec_dec_icdf. cbv zeta. fold (icdf_q (rng st)).
  change (-1) with (0 - 1).
  rewrite (dec_icdf_loop_ok (rng st) (val st) (length icdf) 0 (rng st)); try done; try lia.
  2:{ unfold len in F1. lia. }
  rewrite !u32_small by lia. do 4 f_equal. lia.
Qed.

Lemma rc_codes_icdf16 : rc_codes (ec_enc_icdf16 s icdf ftb) (ec_dec_icdf16 icdf ftb) s.
Proof. exact rc_codes_icdf. Qed.
End Icdf.

(** ** Raw bits and integers *)

Lemma flush_step_storage t : storage (enc_flush_step t).1.1 = storage t.1.1.
Proof.
  destruct t as [[c w] u]. cbn [fst snd enc_flush_step].
  unfold write_or_error, ec_write_byte_at_end. by case_match.
Qed.

Lemma enc_bits_storage x n c : storage (ec_enc_bits x n c) = storage c.
Proof.
  unfold ec_enc_bits.
  match goal with |- context [if ?b then ?x else (c, ?w, ?u)] =>
    set (t := if b then x else (c, w, u)) end.
  assert (storage t.1.1 = storage c) as Ht.
  { subst t. case_match; [|done].
    rewrite (while_fuel_const _ _ (fun t => storage t.1.1)) by apply flush_step_storage.
    apply (flush_step_storage (c, _, _)). }
  clearbody t. by destruct t as [[c1 w] u].
Qed.

Lemma rc_codes_bits fl bits :
  0 < bits <= 25 -> 0 <= fl < 2 ^ bits -> rc_codes (ec_enc_bits fl bits) (ec_dec_bits bits) fl.
Proof.
  intros Hb Hx c. split; [apply enc_bits_good; lia|]. intros Hok Hg.
  destruct (enc_bits_ok fl bits c Hok Hb Hx Hg) as [Hok1 HA].
  split_and!; [done|apply enc_bits_storage|]. rewrite HA. intros F HF _ Hf.
  pose proof (a_ok_abs c Hok) as Ha. pose proof Ha as []. split.
  - apply fits_bits in Hf; try done; [tauto|lia].
  - intros s Hs. by apply dec_bits_ok.
Qed.

(** Splitting an integer into the part that is range coded and raw bits. *)
Lemma uint_split fl ftb :
  0 <= ftb <= 24 -> 0 <= fl < 2 ^ 32 ->
  Z.lor (u32 (Z.shiftl (Z.shiftr fl ftb) ftb)) (Z.land fl (u32 (Z.shiftl 1 ftb) - 1)) = fl.
Proof.
  intros Hb Hf. rewrite !Z.shiftl_mul_pow2, Z.mul_1_l, Z.shiftr_div_pow2 by lia.
  pose proof (Z.pow_lt_mono_r 2 ftb 32 ltac:(lia) ltac:(lia) ltac:(lia)) as Hp.
  pose proof (Z.pow_pos_nonneg 2 ftb ltac:(lia) ltac:(lia)).
  pose proof (Z.div_mod fl (2 ^ ftb) ltac:(lia)). pose proof (Z.mod_pos_bound fl (2 ^ ftb) ltac:(lia)).
  pose proof (Z.div_pos fl (2 ^ ftb) ltac:(lia) ltac:(lia)).
  rewrite (u32_small (2 ^ ftb)), land_pow2_pred by lia. rewrite u32_small by nia.
  rewrite Z.lor_comm, lor_add_pow2 by lia. lia.
Qed.

(** The last step of [ec_dec_uint]. *)
Definition uint_join (ft ftb hi b : Z) (s : ec_ctx) : Z * ec_ctx :=
  let t := Z.lor (u32 (Z.shiftl hi ftb)) b in
  if t <=? ft then (t, s) else (ft, set_error 1 s).

Lemma rc_codes_uint_large fl ft ftb :
  0 < ftb <= 24 -> 0 <= fl <= ft -> ft < 2 ^ 32 -> ft < 2 ^ ftb * 256 ->
  rc_codes
    (fun c => ec_enc_bits (Z.land fl (u32 (Z.shiftl 1 ftb) - 1)) ftb
                (ec_encode (Z.shiftr fl ftb) (Z.shiftr fl ftb + 1) (Z.shiftr ft ftb + 1) c))
    (fun s => let '(hi, s) := ec_decode (Z.shiftr ft ftb + 1) s in
              let s := ec_dec_update hi (hi + 1) (Z.shiftr ft ftb + 1) s in
              let '(b, s) := ec_dec_bits ftb s in uint_join ft ftb hi b s) fl.
Proof.
  intros Hb Hf Hft Hl.
  pose proof (Z.pow_lt_mono_r 2 ftb 32 ltac:(lia) ltac:(lia) ltac:(lia)) as Hp.
  pose proof (Z.pow_pos_nonneg 2 ftb ltac:(lia) ltac:(lia)) as Hp0.
  assert (0 <= Z.shiftr fl ftb <= Z.shiftr ft ftb) as Hq.
  { rewrite !Z.shiftr_div_pow2 by lia. split; [apply Z.div_pos; lia|apply Z.div_le_mono; lia]. }
  assert (Z.shiftr ft ftb < 256) as Hq2.
  { rewrite Z.shiftr_div_pow2 by lia. apply Z.div_lt_upper_bound; lia. }
  pose proof (uint_split fl ftb ltac:(lia) ltac:(lia)) as Hsplit.
  set (lo := Z.land fl _) in *. set (hi := Z.shiftr fl ftb) in *.
  assert (rc_codes (fun c => ec_enc_bits lo ftb c)
            (fun s => let '(b, s) := ec_dec_bits ftb s in uint_join ft ftb hi b s) fl) as H2.
  { eapply (rc_codes_bind _ (fun c => c) _ (fun b => uint_join ft ftb hi b) lo).
    - apply rc_codes_bits; [lia|]. subst lo. rewrite Z.shiftl_mul_pow2, Z.mul_1_l, u32_small by lia.
      rewrite land_pow2_pred by lia. apply Z.mod_pos_bound. lia.
    - eapply rc_codes_ext; [done| |apply (rc_codes_ret fl)].
      intros s. unfold uint_join. cbv zeta. rewrite Hsplit.
      destruct (Z.leb_spec fl ft); [done|lia]. }
  pose proof (rc_codes_freq hi (hi + 1) (Z.shiftr ft ftb + 1) (fun fs => (fs, fs, fs + 1)) hi
    ltac:(lia) ltac:(lia) ltac:(lia)) as H1.
  pose proof (rc_codes_bind _ _ _ (fun hi s => let '(b, s) := ec_dec_bits ftb s in uint_join ft ftb hi b s)
    _ _ (H1 ltac:(intros fs Hfs; by replace fs with hi by lia)) H2) as H3.
  eapply rc_codes_ext; [| |exact H3]; [done|].
  intros s. cbv beta. by destruct (ec_decode _ s).
Qed.

Lemma rc_codes_uint fl ft :
  1 < ft < 2 ^ 32 -> 0 <= fl < ft -> rc_codes (ec_enc_uint fl ft) (ec_dec_uint ft) fl.
Proof.
  intros Hft Hfl. unfold ec_enc_uint, ec_dec_uint. cbv zeta. rewrite u32_small by lia.
  pose proof (ec_ilog_bounds (ft - 1) ltac:(lia)) as Hl. fold (EC_ILOG (ft - 1)) in Hl.
  set (l := EC_ILOG (ft - 1)) in *. clearbody l. unfold EC_UINT_BITS.
  destruct (Z.gtb_spec l 8) as [H8|H8].
  - assert (l <= 32) as H32.
    { destruct (Z.le_gt_cases l 32); [done|].
      pose proof (Z.pow_le_mono_r 2 32 (l - 1) ltac:(lia) ltac:(lia)). lia. }
    apply (rc_codes_uint_large fl (ft - 1) (l - 8)); try lia.
    change 256 with (2 ^ 8). rewrite <- Z.pow_add_r by lia. replace (l - 8 + 8) with l by lia. lia.
  - pose proof (Z.pow_le_mono_r 2 l 8 ltac:(lia) ltac:(lia)).
    replace (ft - 1 + 1) with ft by lia.
    eapply rc_codes_ext; [done| |
      apply (rc_codes_freq fl (fl + 1) ft (fun fs => (fs, fs, fs + 1)) fl); try lia].
    + intros s. cbv beta. by destruct (ec_decode ft s).
    + intros fs Hfs. by replace fs with fl by lia.
Qed.

(** ** The instance, and whole packets *)

#[export] Instance RangeEntropyCoder : EntropyCoder ec_ctx ec_ctx := {|
  EntropyInterface.ec_encode := ec_encode;
  EntropyInterface.ec_encode_bin := ec_encode_bin;
  EntropyInterface.ec_enc_bit_logp := ec_enc_bit_logp;
  EntropyInterface.ec_enc_icdf := ec_enc_icdf;
  EntropyInterface.ec_enc_icdf16 := ec_enc_icdf16;
  EntropyInterface.ec_enc_uint := ec_enc_uint;
  EntropyInterface.ec_enc_bits := ec_enc_bits;
  EntropyInterface.ec_tell_enc := ec_tell;
  EntropyInterface.ec_tell_frac_enc := ec_tell_frac;
  EntropyInterface.ec_storage_enc := storage;
  EntropyInterface.ec_decode := ec_decode;
  EntropyInterface.ec_decode_bin := ec_decode_bin;
  EntropyInterface.ec_dec_update := ec_dec_update;
  EntropyInterface.ec_dec_bit_logp := ec_dec_bit_logp;
  EntropyInterface.ec_dec_icdf := ec_dec_icdf;
  EntropyInterface.ec_dec_icdf16 := ec_dec_icdf16;
  EntropyInterface.ec_dec_uint := ec_dec_uint;
  EntropyInterface.ec_dec_bits := ec_dec_bits;
  EntropyInterface.ec_tell_dec := ec_tell;
  EntropyInterface.ec_tell_frac_dec := ec_tell_frac;
  EntropyInterface.ec_storage_dec := storage;
  sync := @rc_sync;
  sync_ext := @rc_sync_ext;
  sync_ret := @rc_codes_ret;
  sync_bind_proj := @rc_sync_bind;
  sync_pointwise := @rc_sync_pointwise;
  sync_tell := rc_sync_tell;
  sync_tell_frac := rc_sync_tell_frac;
  tell_frac_nonneg := enc_tell_frac_nonneg;
  sync_storage := rc_sync_storage;
  storage_bit_logp := dec_bit_logp_storage;
  codes_freq := @rc_codes_freq;
  codes_freq_bin := @rc_codes_freq_bin;
  codes_bit_logp := rc_codes_bit_logp;
  codes_icdf := rc_codes_icdf;
  codes_icdf16 := rc_codes_icdf16;
  codes_uint := rc_codes_uint;
  codes_bits := rc_codes_bits;
  dec_inv := dec_ok;
  yields_freq := @dec_freq_safe;
  yields_freq_bin := @dec_freq_bin_safe;
  yields_bit_logp := dec_bit_logp_safe;
  yields_icdf := dec_icdf_safe;
  yields_icdf16 := dec_icdf16_safe;
  yields_uint := dec_uint_safe;
  yields_bits := dec_bits_safe
|}.

(** The packet that an encoder [e] makes in the buffer [b]. *)
Definition packet (e : ec_ctx -> ec_ctx) (b : list Z) : ec_ctx :=
  ec_enc_done (e (ec_enc_init b (len b))).

(** The encoder reports no error and its bit count is in the range of [int]. *)
Definition packet_ok (e : ec_ctx -> ec_ctx) (b : list Z) : bool :=
  (error (packet e b) =? 0) && (nbits_total (e (ec_enc_init b (len b))) <? 2 ^ 31) &&
  (len b <? 2 ^ 32) && forallb (fun x => (0 <=? x) && (x <? 256)) b.

Lemma bytes_forallb l : forallb (fun x => (0 <=? x) && (x <? 256)) l = true -> bytes l.
Proof.
  unfold bytes. rewrite forallb_forall, Forall_forall. intros H x Hx.
  specialize (H x Hx). lia.
Qed.

(** [ec_enc_done] never clears the error. *)
Lemma done_sticky c : error (ec_enc_done c) = 0 -> error c = 0.
Proof.
  unfold ec_enc_done. destruct (enc_done_end c) as [e l].
  pose proof (while_fuel_reflect enc_done_more enc_done_step (fun t => error t.1.1 = 0) 2 (c, e, l)
                done_step_sticky) as H1.
  destruct (while_fuel 2 _ _ _) as [[c1 e1] l1]. cbn [fst] in H1.
  pose proof (done_flushes_ok c1) as H2. cbv zeta in H2.
  destruct (while_fuel 4 _ _ _) as [[c3 w] u]. cbn [fst snd] in H2.
  intros Herr%done_tail_sticky. destruct (H2 Herr). auto.
Qed.

(** A packet made by [e1] and then [e2] fits every state the encoder went
    through, and a decoder that has read the part of [e1] tracks the encoder. *)
Lemma packet_tracks_sync {A B} (e1 d1 : ec_ctx -> A * ec_ctx) e2 (d2 : ec_ctx -> B * ec_ctx) y b :
  rc_sync e1 d1 -> rc_codes e2 d2 y -> packet_ok (fun s => e2 (e1 s).2) b = true ->
  let F := take (length b) (buf (packet (fun s => e2 (e1 s).2) b)) in
  let x := (e1 (ec_enc_init b (len b))).1 in
  let c1 := (e1 (ec_enc_init b (len b))).2 in
  enc_ok c1 /\ good c1 /\ len F = len b /\ bytes F /\ fits F (abs c1) /\
  exists s, d1 (ec_dec_init F (len F)) = (x, s) /\ tracks F (abs c1) s.
Proof.
  intros Hc1 Hc2 Hp F x c1. unfold packet_ok in Hp. rewrite !andb_true_iff in Hp.
  destruct Hp as (((H1 & H2) & H3) & H4). apply Z.eqb_eq in H1. apply Z.ltb_lt in H2, H3.
  apply bytes_forallb in H4. unfold packet in *. subst F.
  set (c0 := ec_enc_init b (len b)) in *. fold c1 in H1, H2 |- *.
  assert (0 <= len b) as Hl by (unfold len; lia).
  destruct (enc_init_ok b (len b)) as [Hok0 HA0]; try done. fold c0 in Hok0, HA0.
  destruct (Hc1 c0) as [_ K1]. fold c1 in K1. destruct (Hc2 c1) as [G2 K2].
  assert (good (e2 c1)) as Hg by (split; [by apply done_sticky|done]).
  destruct (K1 Hok0 (G2 Hg)) as (Hok1 & Hst1 & HF1). change (storage c0) with (len b) in Hst1.
  destruct (K2 Hok1 Hg) as (Hok2 & Hst2 & HF2).
  destruct (enc_done_fits (e2 c1) Hok2 H2 H1) as (Hf & HFb & HFl & _). rewrite Hst2, Hst1 in *.
  replace (Z.to_nat (len b)) with (length b) in * by (unfold len; lia).
  destruct (HF2 _ HFb ltac:(congruence) Hf) as [Hf1 _].
  destruct (HF1 _ HFb HFl Hf1) as [_ HT]. rewrite HA0 in HT.
  split_and!; auto. apply HT. by apply dec_init_ok.
Qed.

Lemma packet_tracks {A B} e1 e2 (d1 : ec_ctx -> A * ec_ctx) (d2 : ec_ctx -> B * ec_ctx) x y b :
  rc_codes e1 d1 x -> rc_codes e2 d2 y -> packet_ok (fun s => e2 (e1 s)) b = true ->
  let F := take (length b) (buf (packet (fun s => e2 (e1 s)) b)) in
  let c1 := e1 (ec_enc_init b (len b)) in
  enc_ok c1 /\ good c1 /\ len F = len b /\ bytes F /\ fits F (abs c1) /\
  exists s, d1 (ec_dec_init F (len F)) = (x, s) /\ tracks F (abs c1) s.
Proof. exact (packet_tracks_sync (fun s => (x, e1 s)) d1 e2 d2 y b). Qed.

(** Decoding a packet from its first byte gives what was encoded. *)
Lemma packet_decodes {A} e (d : ec_ctx -> A * ec_ctx) x b :
  rc_codes e d x -> packet_ok e b = true ->
  (d (ec_dec_init (take (length b) (buf (packet e b))) (len b))).1 = x.
Proof.
  intros Hc Hp.
  destruct (packet_tracks e (fun s => s) d _ x tt b Hc (rc_codes_ret tt) Hp)
    as (_ & _ & Hl & _ & _ & s & Hs & _).
  rewrite Hl in Hs. cbv beta in Hs. change (packet (fun s => e s) b) with (packet e b) in Hs.
  by rewrite Hs.
Qed.

(** The same for a client that was proved against the interface. *)
Lemma packet_codes {A} (e : ec_ctx -> ec_ctx) (d : ec_ctx -> A * ec_ctx) x b :
  codes e d x -> packet_ok e b = true ->
  (d (ec_dec_init (take (length b) (buf (packet e b))) (len b))).1 = x.
Proof. apply packet_decodes. Qed.

Lemma packet_syncs {A} (e d : ec_ctx -> A * ec_ctx) b :
  sync e d -> packet_ok (fun s => (e s).2) b = true ->
  (d (ec_dec_init (take (length b) (buf (packet (fun s => (e s).2) b))) (len b))).1
  = (e (ec_enc_init b (len b))).1.
Proof.
  intros Hc Hp.
  destruct (packet_tracks_sync e d (fun s => s) _ tt b Hc (rc_codes_ret tt) Hp)
    as (_ & _ & Hl & _ & _ & s & Hs & _). cbv beta in Hs. rewrite Hl in Hs. by rewrite Hs.
Qed.
