(* ===== verification/RangeProps.v ===== *)
(** * What the range coder guarantees

    The theorems about celt/entcode, entenc and entdec as a whole: sequences of
    calls are lists of [ec_symbol], one constructor per coding primitive. *)

From S2P Require Import Prelude EntropyInterface RangeCoder EntCode RangeSpec RangeDone RangeSafe.
From S2P Require Import RangeSafe RangeMem RangeRoundTrip.

(** ** Sequences of coding calls *)

Inductive ec_symbol :=
| SFreq (fl fh ft : Z)
| SFreqBin (fl fh bits : Z)
| SBitLogp (b : bool) (logp : Z)
| SIcdf (s : Z) (icdf : list Z) (ftb : Z)
| SIcdf16 (s : Z) (icdf : list Z) (ftb : Z)
| SUint (fl ft : Z)
| SBits (fl bits : Z).

Definition sym_enc (y : ec_symbol) : ec_ctx -> ec_ctx :=
  match y with
  | SFreq fl fh ft => ec_encode fl fh ft
  | SFreqBin fl fh bits => ec_encode_bin fl fh bits
  | SBitLogp b logp => ec_enc_bit_logp b logp
  | SIcdf s icdf ftb => ec_enc_icdf s icdf ftb
  | SIcdf16 s icdf ftb => ec_enc_icdf16 s icdf ftb
  | SUint fl ft => ec_enc_uint fl ft
  | SBits fl bits => ec_enc_bits fl bits
  end.

(** A caller of [ec_decode] finds the interval of the value it gets; here it is
    the interval of the symbol, if the value lies in it. *)
Definition interval_of (fl fh fs : Z) : Z * Z * Z :=
  if (fl <=? fs) && (fs <? fh) then (fl, fl, fh) else (fs, fs, fs + 1).

Definition sym_dec (y : ec_symbol) (d : ec_ctx) : Z * ec_ctx :=
  match y with
  | SFreq fl fh ft =>
      let '(fs, d) := ec_decode ft d in
      let '(a, l, h) := interval_of fl fh fs in (a, ec_dec_update l h ft d)
  | SFreqBin fl fh bits =>
      let '(fs, d) := ec_decode_bin bits d in
      let '(a, l, h) := interval_of fl fh fs in (a, ec_dec_update l h (2 ^ bits) d)
  | SBitLogp _ logp => let '(b, d) := ec_dec_bit_logp logp d in (b2z b, d)
  | SIcdf _ icdf ftb => ec_dec_icdf icdf ftb d
  | SIcdf16 _ icdf ftb => ec_dec_icdf16 icdf ftb d
  | SUint _ ft => ec_dec_uint ft d
  | SBits _ bits => ec_dec_bits bits d
  end.

Definition sym_val (y : ec_symbol) : Z :=
  match y with
  | SFreq fl _ _ | SFreqBin fl _ _ | SUint fl _ | SBits fl _ => fl
  | SBitLogp b _ => b2z b
  | SIcdf s _ _ | SIcdf16 s _ _ => s
  end.

(** The documented preconditions of the calls. *)
Definition sym_wf (y : ec_symbol) : bool :=
  match y with
  | SFreq fl fh ft => (0 <=? fl) && (fl <? fh) && (fh <=? ft) && (ft <=? 2 ^ 16)
  | SFreqBin fl fh bits =>
      (0 <=? bits) && (bits <=? 16) && (0 <=? fl) && (fl <? fh) && (fh <=? 2 ^ bits)
  | SBitLogp _ logp => (1 <=? logp) && (logp <=? 16)
  | SIcdf s icdf ftb | SIcdf16 s icdf ftb =>
      (0 <=? ftb) && (ftb <=? 16) && icdf_valid icdf ftb && icdf_codable icdf ftb s
  | SUint fl ft => (1 <? ft) && (ft <? 2 ^ 32) && (0 <=? fl) && (fl <? ft)
  | SBits fl bits => (0 <? bits) && (bits <=? 25) && (0 <=? fl) && (fl <? 2 ^ bits)
  end.

Fixpoint enc_symbols (l : list ec_symbol) (c : ec_ctx) : ec_ctx :=
  match l with [] => c | y :: l => enc_symbols l (sym_enc y c) end.

Fixpoint dec_symbols (l : list ec_symbol) (d : ec_ctx) : list Z * ec_ctx :=
  match l with
  | [] => ([], d)
  | y :: l => let '(x, d) := sym_dec y d in let '(xs, d) := dec_symbols l d in (x :: xs, d)
  end.

Lemma interval_of_in fl fh fs : fl <= fs < fh -> interval_of fl fh fs = (fl, fl, fh).
Proof. intros H. unfold interval_of. destruct (Z.leb_spec fl fs), (Z.ltb_spec fs fh); try lia. done. Qed.

Lemma sym_codes y : sym_wf y = true -> rc_codes (sym_enc y) (sym_dec y) (sym_val y).
Proof.
  destruct y; cbn [sym_wf sym_enc sym_dec sym_val]; intros H; rewrite ?andb_true_iff in H.
  - apply rc_codes_freq; try lia. apply interval_of_in.
  - apply rc_codes_freq_bin; try lia. apply interval_of_in.
  - eapply rc_codes_bind with (e2 := fun s => s);
      [apply rc_codes_bit_logp; lia|apply rc_codes_ret].
  - apply rc_codes_icdf; tauto || lia.
  - apply rc_codes_icdf16; tauto || lia.
  - apply rc_codes_uint; lia.
  - apply rc_codes_bits; lia.
Qed.

Lemma symbols_code l :
  forallb sym_wf l = true -> rc_codes (enc_symbols l) (dec_symbols l) (map sym_val l).
Proof.
  induction l as [|y l IH]; intros H; [apply rc_codes_ret|].
  cbn [forallb] in H. apply andb_true_iff in H as [H1 H2]. specialize (IH H2).
  cbn [enc_symbols dec_symbols map]. eapply rc_codes_bind; [by apply sym_codes|].
  eapply (rc_codes_bind (enc_symbols l) (fun s => s)); [exact IH|apply rc_codes_ret].
Qed.

(** A part of a packet, between other symbols: what [e] leaves the encoder with is what [d] decodes. *)
Lemma packet_between {A} (e d : ec_ctx -> A * ec_ctx) pre post b :
  rc_sync e d -> forallb sym_wf pre = true -> forallb sym_wf post = true ->
  let whole := fun c => enc_symbols post (e (enc_symbols pre c)).2 in
  packet_ok whole b = true ->
  (d (dec_symbols pre (ec_dec_init (take (length b) (buf (packet whole b))) (len b))).2).1
  = (e (enc_symbols pre (ec_enc_init b (len b)))).1.
Proof.
  intros Hs Hpre Hpost whole Hp.
  pose proof (codes_then (E := ec_ctx) (D := ec_ctx) (enc_symbols pre) (dec_symbols pre) (map sym_val pre)
    e (fun _ s => d s) (symbols_code pre Hpre) Hs) as Hs'.
  destruct (packet_tracks_sync (fun c => e (enc_symbols pre c)) (fun s => let '(_, s) := dec_symbols pre s in d s)
    (enc_symbols post) (dec_symbols post) (map sym_val post) b Hs' (symbols_code post Hpost) Hp)
    as (_ & _ & Hl & _ & _ & s & E1 & _).
  cbv beta in E1. rewrite Hl in E1. change (fun s0 => enc_symbols post _) with whole in E1.
  destruct (dec_symbols pre _) as [v s1]. cbn [snd]. by rewrite E1.
Qed.

(** ** The abstract run of a sequence of calls *)

Definition a_freq (fl fh ft : Z) (q : Z -> Z) (a : aenc) : aenc :=
  a_op (freq_off fl ft q (arng a)) (freq_rng fl fh ft q (arng a)) a.

Definition a_icdf (s : Z) (icdf : list Z) (ftb : Z) (a : aenc) : aenc :=
  let up := icdf_up s icdf ftb (arng a) in
  a_op (arng a - up) (up - icdf_q ftb (arng a) * icdf.[s]) a.

Definition a_sym (y : ec_symbol) (a : aenc) : aenc :=
  match y with
  | SFreq fl fh ft => a_freq fl fh ft (fun g => g / ft) a
  | SFreqBin fl fh bits => a_freq fl fh (2 ^ bits) (fun g => Z.shiftr g bits) a
  | SBitLogp b logp =>
      let s := Z.shiftr (arng a) logp in
      if b then a_op (arng a - s) s a else a_op 0 (arng a - s) a
  | SIcdf s icdf ftb | SIcdf16 s icdf ftb => a_icdf s icdf ftb a
  | SUint fl ft =>
      let l := Z.log2 (ft - 1) + 1 in
      if l >? 8 then
        let k := l - 8 in
        a_bits (fl mod 2 ^ k) k
          (a_freq (fl / 2 ^ k) (fl / 2 ^ k + 1) ((ft - 1) / 2 ^ k + 1)
             (fun g => g / ((ft - 1) / 2 ^ k + 1)) a)
      else a_freq fl (fl + 1) ft (fun g => g / ft) a
  | SBits fl bits => a_bits fl bits a
  end.

Fixpoint a_symbols (l : list ec_symbol) (a : aenc) : aenc :=
  match l with [] => a | y :: l => a_symbols l (a_sym y a) end.

Lemma freq_refines fl fh ft :
  0 <= fl < fh -> fh <= ft -> ft <= 2 ^ 16 ->
  rc_refines (ec_encode fl fh ft) (a_freq fl fh ft (fun g => g / ft)).
Proof. intros H1 H2 H3. exact (narrows_refines _ _ _ (narrows_freq fl fh ft H1 H2 H3)). Qed.

Lemma bits_refines x n : 0 < n <= 25 -> 0 <= x < 2 ^ n -> rc_refines (ec_enc_bits x n) (a_bits x n).
Proof. intros Hn Hx c Hok Hg. by apply enc_bits_ok. Qed.

Lemma uint_refines fl ft : 1 < ft < 2 ^ 32 -> 0 <= fl < ft -> rc_refines (ec_enc_uint fl ft) (a_sym (SUint fl ft)).
Proof.
  intros Hft Hfl c Hok. unfold ec_enc_uint, EC_ILOG. cbv zeta. cbn [a_sym]. cbv zeta.
  rewrite u32_small, ec_ilog_log2 by lia. set (l := Z.log2 (ft - 1) + 1).
  pose proof (Z.log2_spec (ft - 1) ltac:(lia)) as Hl.
  pose proof (Z.log2_lt_pow2 (ft - 1) 32 ltac:(lia)) as Hl32. unfold EC_UINT_BITS.
  destruct (Z.gtb_spec l 8) as [Hgt|Hle].
  - set (k := l - 8). assert (0 < k <= 24) by lia.
    pose proof (Z.pow_pos_nonneg 2 k ltac:(lia) ltac:(lia)).
    pose proof (Z.pow_lt_mono_r 2 k 32 ltac:(lia) ltac:(lia) ltac:(lia)) as Hp.
    rewrite !Z.shiftr_div_pow2, Z.shiftl_mul_pow2, Z.mul_1_l, u32_small, land_pow2_pred by lia.
    assert (0 <= fl / 2 ^ k <= (ft - 1) / 2 ^ k).
    { split; [apply Z.div_pos; lia|apply Z.div_le_mono; lia]. }
    assert ((ft - 1) / 2 ^ k < 256).
    { apply Z.div_lt_upper_bound; [lia|]. change 256 with (2 ^ 8). rewrite <- Z.pow_add_r by lia.
      replace (k + 8) with (Z.succ (Z.log2 (ft - 1))) by lia. lia. }
    pose proof (Z.mod_pos_bound fl (2 ^ k) ltac:(lia)). intros Hg.
    destruct (freq_refines (fl / 2 ^ k) (fl / 2 ^ k + 1) ((ft - 1) / 2 ^ k + 1)
      ltac:(lia) ltac:(lia) ltac:(lia) c Hok) as [Hok1 HA1]; [by eapply enc_bits_good, Hg; lia|].
    rewrite <- HA1. apply bits_refines; done || lia.
  - pose proof (Z.pow_le_mono_r 2 (Z.succ (Z.log2 (ft - 1))) 8 ltac:(lia) ltac:(lia)).
    replace (ft - 1 + 1) with ft by lia. apply freq_refines; try done; lia.
Qed.

Lemma sym_refines y : sym_wf y = true -> rc_refines (sym_enc y) (a_sym y).
Proof.
  destruct y; cbn [sym_wf sym_enc]; intros H; rewrite ?andb_true_iff in H.
  - apply freq_refines; lia.
  - apply (narrows_refines _ _ _ (narrows_freq_bin fl fh bits ltac:(lia) ltac:(lia) ltac:(lia))).
  - pose proof (narrows_refines _ _ _ (narrows_bit_logp b logp ltac:(lia))) as Hr.
    intros c Hok Hg. destruct (Hr c Hok Hg) as [H1 ->]. split; [done|]. by destruct b.
  - apply (narrows_refines _ _ _ (narrows_icdf s icdf ftb ltac:(lia) ltac:(tauto) ltac:(tauto))).
  - apply (narrows_refines _ _ _ (narrows_icdf s icdf ftb ltac:(lia) ltac:(tauto) ltac:(tauto))).
  - apply uint_refines; lia.
  - apply bits_refines; lia.
Qed.

Lemma enc_symbols_good l c : forallb sym_wf l = true -> good (enc_symbols l c) -> good c.
Proof. intros H. exact (proj1 (symbols_code l H c)). Qed.

Lemma symbols_refine l : forallb sym_wf l = true -> rc_refines (enc_symbols l) (a_symbols l).
Proof.
  induction l as [|y l IH]; intros H c Hok Hg; [done|].
  cbn [forallb] in H. apply andb_true_iff in H as [H1 H2].
  cbn [enc_symbols a_symbols] in *.
  destruct (sym_refines y H1 c Hok) as [Hok1 <-]; [by eapply enc_symbols_good|]. by apply IH.
Qed.

(** ** Decoding any data *)

(** What a decoding call may return: a value in the range that its arguments
    set, whatever the packet holds. *)
Definition sym_range (y : ec_symbol) (x : Z) : Prop :=
  match y with
  | SFreq fl fh ft => 0 <= x < ft
  | SFreqBin fl fh bits => 0 <= x < 2 ^ bits
  | SBitLogp _ _ => 0 <= x <= 1
  | SIcdf _ icdf _ | SIcdf16 _ icdf _ => 0 <= x < len icdf
  | SUint _ ft => 0 <= x < ft
  | SBits _ bits => 0 <= x < 2 ^ bits
  end.

Lemma interval_of_range fl fh ft fs :
  0 <= fl < fh -> fh <= ft -> 0 <= fs < ft ->
  0 <= (interval_of fl fh fs).1.1 < ft /\ 0 <= (interval_of fl fh fs).1.2 <= fs /\
  fs < (interval_of fl fh fs).2 <= ft.
Proof.
  intros H1 H2 H3. unfold interval_of.
  destruct (Z.leb_spec fl fs), (Z.ltb_spec fs fh); cbn [andb fst snd]; lia.
Qed.

Lemma sym_yields y : sym_wf y = true -> yields dec_ok (sym_dec y) (sym_range y).
Proof.
  destruct y; cbn [sym_wf sym_dec sym_range]; intros H; rewrite ?andb_true_iff in H.
  - apply dec_freq_safe; [lia|]. intros fs Hfs. apply interval_of_range; lia.
  - apply dec_freq_bin_safe; [lia|]. intros fs Hfs. apply interval_of_range; lia.
  - eapply yields_bind; [apply dec_bit_logp_safe; lia|]. intros a _. apply yields_ret.
    destruct a; cbn; lia.
  - eapply yields_impl; [apply dec_icdf_safe; tauto || lia|]. by intros a [Ha _].
  - eapply yields_impl; [apply dec_icdf16_safe; tauto || lia|]. by intros a [Ha _].
  - apply dec_uint_safe; lia.
  - apply dec_bits_safe; lia.
Qed.

Lemma symbols_yield l :
  forallb sym_wf l = true -> yields dec_ok (dec_symbols l) (Forall2 sym_range l).
Proof.
  induction l as [|y l IH]; intros H; [by apply yields_ret|].
  cbn [forallb] in H. apply andb_true_iff in H as [H1 H2]. cbn [dec_symbols].
  eapply yields_bind; [by apply sym_yields|]. intros x Hx.
  eapply yields_bind; [by apply IH|]. intros xs Hxs. apply yields_ret. by constructor.
Qed.

(** ** Buffer bounds *)

Lemma sym_mem n b0 y c : 0 <= n < 2 ^ 32 -> mem_ok n b0 c -> mem_ok n b0 (sym_enc y c).
Proof.
  intros Hn H. destruct y; cbn [sym_enc];
    auto using mem_encode, mem_encode_bin, mem_bit_logp, mem_icdf, mem_icdf16, mem_uint, mem_bits.
Qed.

Lemma symbols_mem n b0 l c : 0 <= n < 2 ^ 32 -> mem_ok n b0 c -> mem_ok n b0 (enc_symbols l c).
Proof. intros Hn. revert c. induction l as [|y l IH]; intros c H; [done|]. by apply IH, sym_mem. Qed.

(** ** Shrinking *)

Lemma shrink_abs c m :
  enc_ok c -> offs c + end_offs c <= m <= storage c ->
  enc_ok (ec_enc_shrink m c) /\ abs (ec_enc_shrink m c) = abs c.
Proof.
  intros [Hi Hr] Hm. pose proof Hi as []. pose proof ei_buf as [].
  destruct (shrink_mem (storage c) m c) as ([] & [Hl Ha] & Hf & He); [by constructor|done|].
  specialize (He bo_len). set (c' := ec_enc_shrink m c) in *.
  assert (written c' = written c) as Ew.
  { unfold written. change (offs c') with (offs c). apply besum_ext. intros i Hi'. apply Hf. lia. }
  assert (endraw c' = endraw c) as Ee.
  { unfold endraw. change (end_offs c') with (end_offs c). apply lesum_ext. intros j Hj. unfold endbyte.
    rewrite ib_storage. apply He. lia. }
  assert (digits c' = digits c) as Ed by (unfold digits, digits_hd; by rewrite Ew).
  assert (digits_cap c' = digits_cap c) as Ec by (unfold digits_cap; by rewrite Ew).
  assert (abs c' = abs c) as HA by (unfold abs; by rewrite Ed, Ee).
  split; [|done]. split; [|done]. constructor; try done.
  - constructor; try done; [lia..|]. unfold c', ec_enc_shrink, opus_move. cbn [set_storage set_buf buf].
    apply Forall_lookup_2. intros i x Hx. rewrite list_lookup_imap in Hx.
    destruct (buf c !! i) eqn:E; cbn in Hx; [|discriminate]. injection Hx as <-.
    case_match; [by apply bytes_rd|]. exact (Forall_lookup_1 _ _ _ _ bo_bytes E).
  - rewrite Ed, Ec. done.
Qed.

(** ** Theorems *)

(** C1: whatever sequence of symbols is encoded with the primitives of entenc.c
    (each call within its documented preconditions), if the encoder reports no
    error then decoding the packet with the primitives of entdec.c gives back
    exactly the encoded values, in order. *)
Theorem range_coder_roundtrip l b :
  forallb sym_wf l = true -> packet_ok (enc_symbols l) b = true ->
  (dec_symbols l (ec_dec_init (take (length b) (buf (packet (enc_symbols l) b))) (len b))).1
  = map sym_val l.
Proof. intros Hw Hp. apply packet_decodes; [by apply symbols_code|done]. Qed.

(** C2: the encoder refines exact interval arithmetic: after any sequence of
    calls the C state (bytes written, buffered symbol, counted 255 symbols, low
    end and range) denotes the interval that narrowing step by step gives, and
    the finished packet is a code inside that interval, with the raw bits at
    its end. *)
Theorem range_encoder_refines l b :
  forallb sym_wf l = true -> packet_ok (enc_symbols l) b = true ->
  abs (enc_symbols l (ec_enc_init b (len b))) = a_symbols l a_init /\
  fits (take (length b) (buf (packet (enc_symbols l) b))) (a_symbols l a_init).
Proof.
  intros Hw Hp.
  destruct (packet_tracks _ (fun s => s) _ _ _ tt b (symbols_code l Hw) (rc_codes_ret tt) Hp)
    as (_ & Hg & _ & _ & Hf & _).
  unfold packet_ok in Hp. rewrite !andb_true_iff in Hp. destruct Hp as ((_ & Hl) & Hb).
  destruct (enc_init_ok b (len b)) as [Hok HA];
    [unfold len in *; lia|lia|by apply bytes_forallb|].
  destruct (symbols_refine l Hw _ Hok Hg) as [_ HA1]. rewrite HA in HA1.
  split; [done|]. by rewrite <- HA1.
Qed.

(** C3: at every point of a packet the decoder's bit count, in whole bits
    ([ec_tell]) and in eighths ([ec_tell_frac]), is the one the encoder had
    there, so that both sides take the same rate decisions. *)
Theorem tell_agrees l1 l2 b :
  forallb sym_wf (l1 ++ l2) = true ->
  packet_ok (fun c => enc_symbols l2 (enc_symbols l1 c)) b = true ->
  let F := take (length b) (buf (packet (fun c => enc_symbols l2 (enc_symbols l1 c)) b)) in
  let c := enc_symbols l1 (ec_enc_init b (len b)) in
  let d := (dec_symbols l1 (ec_dec_init F (len F))).2 in
  ec_tell d = ec_tell c /\ ec_tell_frac d = ec_tell_frac c.
Proof.
  rewrite forallb_app, andb_true_iff. intros [H1 H2] Hp F c d.
  destruct (packet_tracks _ _ _ _ _ _ b (symbols_code l1 H1) (symbols_code l2 H2) Hp)
    as (Hok & _ & _ & _ & _ & s & Hs & Ht).
  subst d. fold F in Hs, Ht. rewrite Hs. cbn [snd]. fold c in Ht, Hok.
  split; [by eapply tracks_tell|]. destruct Hok as [[] _], Ht.
  unfold ec_tell_frac. rewrite tr_rng, tr_nbits. by rewrite ei_bits.
Qed.

(** C4: on any bytes at all, the decoder's context stays well formed (the code
    value inside the range, the range normalized, every read inside the packet)
    and each call returns a value in the range its arguments set. *)
Theorem range_decoder_safe l b n :
  forallb sym_wf l = true -> bytes b -> 0 <= n <= len b ->
  let r := dec_symbols l (ec_dec_init b n) in
  Forall2 sym_range l r.1 /\ dec_ok r.2.
Proof. intros Hw Hb Hn. apply symbols_yield; [done|]. by apply dec_init_safe. Qed.

(** C5: the encoder never writes outside the buffer it was given: for every
    sequence of calls, with any arguments and also after errors, and after
    [ec_enc_done], the write positions stay inside [size] bytes and every byte
    from [size] on keeps its value. *)
Theorem range_encoder_in_bounds l b size :
  0 <= size < 2 ^ 32 -> size <= len b ->
  let c := enc_symbols l (ec_enc_init b size) in
  mem_ok size b c /\ mem_ok size b (ec_enc_done c).
Proof.
  intros H1 H2 c. assert (mem_ok size b c) as Hc by (apply symbols_mem, mem_init; done).
  split; [done|]. by apply mem_done.
Qed.

(** [ec_enc_shrink] does not change what has been encoded: the raw bytes
    move to the new end, and the state denotes the same interval and raw bits. *)
Theorem shrink_keeps_code l b m :
  forallb sym_wf l = true -> packet_ok (enc_symbols l) b = true ->
  let c := enc_symbols l (ec_enc_init b (len b)) in
  offs c + end_offs c <= m <= len b ->
  enc_ok (ec_enc_shrink m c) /\ abs (ec_enc_shrink m c) = a_symbols l a_init.
Proof.
  intros Hw Hp c Hm.
  destruct (packet_tracks _ (fun s => s) _ _ _ tt b (symbols_code l Hw) (rc_codes_ret tt) Hp)
    as (Hok & Hg & _). fold c in Hok, Hg.
  unfold packet_ok in Hp. rewrite !andb_true_iff in Hp. destruct Hp as ((_ & Hl) & Hb).
  destruct (enc_init_ok b (len b)) as [Hok0 HA];
    [unfold len in *; lia|lia|by apply bytes_forallb|].
  destruct (symbols_refine l Hw _ Hok0 Hg) as [_ HA1]. rewrite HA in HA1.
  assert (storage c = len b) as Hs.
  { pose proof (proj2 (symbols_code l Hw _) Hok0 Hg) as (_ & E & _). exact E. }
  rewrite <- HA1. apply shrink_abs; [done|]. fold c. rewrite Hs. lia.
Qed.

(** ** Witnesses *)

Definition sample_symbols : list ec_symbol :=
  [SBitLogp true 3; SIcdf 2 [200; 100; 50; 0] 8; SUint 1000 5000; SBits 9 5; SFreq 3 5 10;
   SFreqBin 1 4 3; SIcdf16 1 [30000; 2; 0] 15; SUint 7 9].

Definition sample_buf : list Z := repeat 0 16.

Lemma range_coder_roundtrip_witness :
  (dec_symbols sample_symbols
     (ec_dec_init (take 16 (buf (packet (enc_symbols sample_symbols) sample_buf))) 16)).1
  = [1; 2; 1000; 9; 3; 1; 1; 7].
Proof. apply (range_coder_roundtrip sample_symbols sample_buf); vm_compute; reflexivity. Defined.

Lemma range_encoder_refines_witness :
  fits (take 16 (buf (packet (enc_symbols sample_symbols) sample_buf))) (a_symbols sample_symbols a_init).
Proof. apply (range_encoder_refines sample_symbols sample_buf); vm_compute; reflexivity. Defined.

Lemma tell_agrees_witness :
  let e := fun c => enc_symbols (drop 3 sample_symbols) (enc_symbols (take 3 sample_symbols) c) in
  let F := take 16 (buf (packet e sample_buf)) in
  ec_tell (dec_symbols (take 3 sample_symbols) (ec_dec_init F (len F))).2
  = ec_tell (enc_symbols (take 3 sample_symbols) (ec_enc_init sample_buf 16)).
Proof.
  apply (tell_agrees (take 3 sample_symbols) (drop 3 sample_symbols) sample_buf);
    vm_compute; reflexivity.
Defined.

Lemma range_decoder_safe_witness :
  dec_ok (dec_symbols sample_symbols (ec_dec_init [255; 3; 77; 128; 9] 4)).2.
Proof.
  apply (range_decoder_safe sample_symbols [255; 3; 77; 128; 9] 4);
    [vm_compute; reflexivity|repeat constructor; done|by vm_compute].
Defined.

Lemma range_encoder_in_bounds_witness :
  mem_ok 3 (repeat 170 8) (ec_enc_done (enc_symbols sample_symbols (ec_enc_init (repeat 170 8) 3))).
Proof. apply (range_encoder_in_bounds sample_symbols (repeat 170 8) 3); by vm_compute. Defined.

Lemma shrink_keeps_code_witness :
  abs (ec_enc_shrink 9 (enc_symbols sample_symbols (ec_enc_init sample_buf 16)))
  = a_symbols sample_symbols a_init.
Proof.
  apply (shrink_keeps_code sample_symbols sample_buf 9); [vm_compute; reflexivity..|by vm_compute].
Defined.
