(* ===== verification/CwrsTable.v ===== *)
(** * The pulse-vector counting table (celt/cwrs.c)

    [U n k] is the function that the comment in cwrs.c defines by its
    recurrence; [CELT_PVQ_U_DATA] is the table that the code reads instead, and
    [pvq_u_table] shows that every entry that can be read is the value of the
    recurrence.  [custom] says whether CUSTOM_MODES is defined. *)

From S2P Require Import Prelude.

(** ** The table *)

Definition PVQ_ROW_0 : list Z :=
  [1; 0; 0; 0; 0; 0; 0; 0; 0; 0; 0; 0; 0; 0; 0; 0; 0; 0; 0; 0; 0; 0; 0; 0; 0; 0; 0; 0; 0; 0; 0;
   0; 0; 0; 0; 0; 0; 0; 0; 0; 0; 0; 0; 0; 0; 0; 0; 0; 0; 0; 0; 0; 0; 0; 0; 0; 0; 0; 0; 0; 0; 0;
   0; 0; 0; 0; 0; 0; 0; 0; 0; 0; 0; 0; 0; 0; 0; 0; 0; 0; 0; 0; 0; 0; 0; 0; 0; 0; 0; 0; 0; 0; 0;
   0; 0; 0; 0; 0; 0; 0; 0; 0; 0; 0; 0; 0; 0; 0; 0; 0; 0; 0; 0; 0; 0; 0; 0; 0; 0; 0; 0; 0; 0; 0;
   0; 0; 0; 0; 0; 0; 0; 0; 0; 0; 0; 0; 0; 0; 0; 0; 0; 0; 0; 0; 0; 0; 0; 0; 0; 0; 0; 0; 0; 0; 0;
   0; 0; 0; 0; 0; 0; 0; 0; 0; 0; 0; 0; 0; 0; 0; 0; 0; 0; 0; 0; 0; 0].

Definition PVQ_ROW_0_CUSTOM : list Z :=
  [0; 0; 0; 0; 0; 0; 0; 0; 0; 0; 0; 0; 0; 0; 0; 0; 0; 0; 0; 0; 0; 0; 0; 0; 0; 0; 0; 0; 0; 0; 0;
   0].

Definition PVQ_ROW_1 : list Z :=
  [1; 1; 1; 1; 1; 1; 1; 1; 1; 1; 1; 1; 1; 1; 1; 1; 1; 1; 1; 1; 1; 1; 1; 1; 1; 1; 1; 1; 1; 1; 1;
   1; 1; 1; 1; 1; 1; 1; 1; 1; 1; 1; 1; 1; 1; 1; 1; 1; 1; 1; 1; 1; 1; 1; 1; 1; 1; 1; 1; 1; 1; 1;
   1; 1; 1; 1; 1; 1; 1; 1; 1; 1; 1; 1; 1; 1; 1; 1; 1; 1; 1; 1; 1; 1; 1; 1; 1; 1; 1; 1; 1; 1; 1;
   1; 1; 1; 1; 1; 1; 1; 1; 1; 1; 1; 1; 1; 1; 1; 1; 1; 1; 1; 1; 1; 1; 1; 1; 1; 1; 1; 1; 1; 1; 1;
   1; 1; 1; 1; 1; 1; 1; 1; 1; 1; 1; 1; 1; 1; 1; 1; 1; 1; 1; 1; 1; 1; 1; 1; 1; 1; 1; 1; 1; 1; 1;
   1; 1; 1; 1; 1; 1; 1; 1; 1; 1; 1; 1; 1; 1; 1; 1; 1; 1; 1; 1; 1].

Definition PVQ_ROW_1_CUSTOM : list Z :=
  [1; 1; 1; 1; 1; 1; 1; 1; 1; 1; 1; 1; 1; 1; 1; 1; 1; 1; 1; 1; 1; 1; 1; 1; 1; 1; 1; 1; 1; 1; 1;
   1].

Definition PVQ_ROW_2 : list Z :=
  [3; 5; 7; 9; 11; 13; 15; 17; 19; 21; 23; 25; 27; 29; 31; 33; 35; 37; 39; 41; 43; 45; 47; 49;
   51; 53; 55; 57; 59; 61; 63; 65; 67; 69; 71; 73; 75; 77; 79; 81; 83; 85; 87; 89; 91; 93; 95;
   97; 99; 101; 103; 105; 107; 109; 111; 113; 115; 117; 119; 121; 123; 125; 127; 129; 131; 133;
   135; 137; 139; 141; 143; 145; 147; 149; 151; 153; 155; 157; 159; 161; 163; 165; 167; 169;
   171; 173; 175; 177; 179; 181; 183; 185; 187; 189; 191; 193; 195; 197; 199; 201; 203; 205;
   207; 209; 211; 213; 215; 217; 219; 221; 223; 225; 227; 229; 231; 233; 235; 237; 239; 241;
   243; 245; 247; 249; 251; 253; 255; 257; 259; 261; 263; 265; 267; 269; 271; 273; 275; 277;
   279; 281; 283; 285; 287; 289; 291; 293; 295; 297; 299; 301; 303; 305; 307; 309; 311; 313;
   315; 317; 319; 321; 323; 325; 327; 329; 331; 333; 335; 337; 339; 341; 343; 345; 347; 349;
   351].

Definition PVQ_ROW_2_CUSTOM : list Z :=
  [353; 355; 357; 359; 361; 363; 365; 367; 369; 371; 373; 375; 377; 379; 381; 383; 385; 387;
   389; 391; 393; 395; 397; 399; 401; 403; 405; 407; 409; 411; 413; 415].

Definition PVQ_ROW_3 : list Z :=
  [13; 25; 41; 61; 85; 113; 145; 181; 221; 265; 313; 365; 421; 481; 545; 613; 685; 761; 841;
   925; 1013; 1105; 1201; 1301; 1405; 1513; 1625; 1741; 1861; 1985; 2113; 2245; 2381; 2521;
   2665; 2813; 2965; 3121; 3281; 3445; 3613; 3785; 3961; 4141; 4325; 4513; 4705; 4901; 5101;
   5305; 5513; 5725; 5941; 6161; 6385; 6613; 6845; 7081; 7321; 7565; 7813; 8065; 8321; 8581;
   8845; 9113; 9385; 9661; 9941; 10225; 10513; 10805; 11101; 11401; 11705; 12013; 12325; 12641;
   12961; 13285; 13613; 13945; 14281; 14621; 14965; 15313; 15665; 16021; 16381; 16745; 17113;
   17485; 17861; 18241; 18625; 19013; 19405; 19801; 20201; 20605; 21013; 21425; 21841; 22261;
   22685; 23113; 23545; 23981; 24421; 24865; 25313; 25765; 26221; 26681; 27145; 27613; 28085;
   28561; 29041; 29525; 30013; 30505; 31001; 31501; 32005; 32513; 33025; 33541; 34061; 34585;
   35113; 35645; 36181; 36721; 37265; 37813; 38365; 38921; 39481; 40045; 40613; 41185; 41761;
   42341; 42925; 43513; 44105; 44701; 45301; 45905; 46513; 47125; 47741; 48361; 48985; 49613;
   50245; 50881; 51521; 52165; 52813; 53465; 54121; 54781; 55445; 56113; 56785; 57461; 58141;
   58825; 59513; 60205; 60901; 61601].

Definition PVQ_ROW_3_CUSTOM : list Z :=
  [62305; 63013; 63725; 64441; 65161; 65885; 66613; 67345; 68081; 68821; 69565; 70313; 71065;
   71821; 72581; 73345; 74113; 74885; 75661; 76441; 77225; 78013; 78805; 79601; 80401; 81205;
   82013; 82825; 83641; 84461; 85285; 86113].

Definition PVQ_ROW_4 : list Z :=
  [63; 129; 231; 377; 575; 833; 1159; 1561; 2047; 2625; 3303; 4089; 4991; 6017; 7175; 8473;
   9919; 11521; 13287; 15225; 17343; 19649; 22151; 24857; 27775; 30913; 34279; 37881; 41727;
   45825; 50183; 54809; 59711; 64897; 70375; 76153; 82239; 88641; 95367; 102425; 109823; 117569;
   125671; 134137; 142975; 152193; 161799; 171801; 182207; 193025; 204263; 215929; 228031;
   240577; 253575; 267033; 280959; 295361; 310247; 325625; 341503; 357889; 374791; 392217;
   410175; 428673; 447719; 467321; 487487; 508225; 529543; 551449; 573951; 597057; 620775;
   645113; 670079; 695681; 721927; 748825; 776383; 804609; 833511; 863097; 893375; 924353;
   956039; 988441; 1021567; 1055425; 1090023; 1125369; 1161471; 1198337; 1235975; 1274393;
   1313599; 1353601; 1394407; 1436025; 1478463; 1521729; 1565831; 1610777; 1656575; 1703233;
   1750759; 1799161; 1848447; 1898625; 1949703; 2001689; 2054591; 2108417; 2163175; 2218873;
   2275519; 2333121; 2391687; 2451225; 2511743; 2573249; 2635751; 2699257; 2763775; 2829313;
   2895879; 2963481; 3032127; 3101825; 3172583; 3244409; 3317311; 3391297; 3466375; 3542553;
   3619839; 3698241; 3777767; 3858425; 3940223; 4023169; 4107271; 4192537; 4278975; 4366593;
   4455399; 4545401; 4636607; 4729025; 4822663; 4917529; 5013631; 5110977; 5209575; 5309433;
   5410559; 5512961; 5616647; 5721625; 5827903; 5935489; 6044391; 6154617; 6266175; 6379073;
   6493319; 6608921; 6725887; 6844225; 6963943; 7085049; 7207551].

Definition PVQ_ROW_4_CUSTOM : list Z :=
  [7331457; 7456775; 7583513; 7711679; 7841281; 7972327; 8104825; 8238783; 8374209; 8511111;
   8649497; 8789375; 8930753; 9073639; 9218041; 9363967; 9511425; 9660423; 9810969; 9963071;
   10116737; 10271975; 10428793; 10587199; 10747201; 10908807; 11072025; 11236863; 11403329;
   11571431; 11741177; 11912575].

Definition PVQ_ROW_5 : list Z :=
  [321; 681; 1289; 2241; 3649; 5641; 8361; 11969; 16641; 22569; 29961; 39041; 50049; 63241;
   78889; 97281; 118721; 143529; 172041; 204609; 241601; 283401; 330409; 383041; 441729; 506921;
   579081; 658689; 746241; 842249; 947241; 1061761; 1186369; 1321641; 1468169; 1626561; 1797441;
   1981449; 2179241; 2391489; 2618881; 2862121; 3121929; 3399041; 3694209; 4008201; 4341801;
   4695809; 5071041; 5468329; 5888521; 6332481; 6801089; 7295241; 7815849; 8363841; 8940161;
   9545769; 10181641; 10848769; 11548161; 12280841; 13047849; 13850241; 14689089; 15565481;
   16480521; 17435329; 18431041; 19468809; 20549801; 21675201; 22846209; 24064041; 25329929;
   26645121; 28010881; 29428489; 30899241; 32424449; 34005441; 35643561; 37340169; 39096641;
   40914369; 42794761; 44739241; 46749249; 48826241; 50971689; 53187081; 55473921; 57833729;
   60268041; 62778409; 65366401; 68033601; 70781609; 73612041; 76526529; 79526721; 82614281;
   85790889; 89058241; 92418049; 95872041; 99421961; 103069569; 106816641; 110664969; 114616361;
   118672641; 122835649; 127107241; 131489289; 135983681; 140592321; 145317129; 150160041;
   155123009; 160208001; 165417001; 170752009; 176215041; 181808129; 187533321; 193392681;
   199388289; 205522241; 211796649; 218213641; 224775361; 231483969; 238341641; 245350569;
   252512961; 259831041; 267307049; 274943241; 282741889; 290705281; 298835721; 307135529;
   315607041; 324252609; 333074601; 342075401; 351257409; 360623041; 370174729; 379914921;
   389846081; 399970689; 410291241; 420810249; 431530241; 442453761; 453583369; 464921641;
   476471169; 488234561; 500214441; 512413449; 524834241; 537479489; 550351881; 563454121;
   576788929; 590359041; 604167209; 618216201; 632508801].

Definition PVQ_ROW_5_CUSTOM : list Z :=
  [647047809; 661836041; 676876329; 692171521; 707724481; 723538089; 739615241; 755958849;
   772571841; 789457161; 806617769; 824056641; 841776769; 859781161; 878072841; 896654849;
   915530241; 934702089; 954173481; 973947521; 994027329; 1014416041; 1035116809; 1056132801;
   1077467201; 1099123209; 1121104041; 1143412929; 1166053121; 1189027881; 1212340489;
   1235994241].

Definition PVQ_ROW_6 : list Z :=
  [1683; 3653; 7183; 13073; 22363; 36365; 56695; 85305; 124515; 177045; 246047; 335137; 448427;
   590557; 766727; 982729; 1244979; 1560549; 1937199; 2383409; 2908411; 3522221; 4235671;
   5060441; 6009091; 7095093; 8332863; 9737793; 11326283; 13115773; 15124775; 17372905;
   19880915; 22670725; 25765455; 29189457; 32968347; 37129037; 41699767; 46710137; 52191139;
   58175189; 64696159; 71789409; 79491819; 87841821; 96879431; 106646281; 117185651; 128542501;
   140763503; 153897073; 167993403; 183104493; 199284183; 216588185; 235074115; 254801525;
   275831935; 298228865; 322057867; 347386557; 374284647; 402823977; 433078547; 465124549;
   499040399; 534906769; 572806619; 612825229; 655050231; 699571641; 746481891; 795875861;
   847850911; 902506913; 959946283; 1020274013; 1083597703; 1150027593; 1219676595; 1292660325;
   1369097135; 1449108145; 1532817275; 1620351277; 1711839767; 1807415257; 1907213187;
   2011371957; 2120032959].

Definition PVQ_ROW_6_CUSTOM : list Z :=
  [2233340609; 2351442379; 2474488829; 2602633639; 2736033641; 2874848851; 3019242501;
   3169381071; 3325434321; 3487575323; 3655980493; 3830829623; 4012305913].

Definition PVQ_ROW_7 : list Z :=
  [8989; 19825; 40081; 75517; 134245; 227305; 369305; 579125; 880685; 1303777; 1884961; 2668525;
   3707509; 5064793; 6814249; 9041957; 11847485; 15345233; 19665841; 24957661; 31388293;
   39146185; 48442297; 59511829; 72616013; 88043969; 106114625; 127178701; 151620757; 179861305;
   212358985; 249612805; 292164445; 340600625; 395555537; 457713341; 527810725; 606639529;
   695049433; 793950709; 904317037; 1027188385; 1163673953; 1314955181; 1482288821; 1667010073;
   1870535785; 2094367717].

Definition PVQ_ROW_7_CUSTOM : list Z :=
  [2340095869; 2609401873; 2904062449; 3225952925; 3577050821; 3959439497].

Definition PVQ_ROW_8 : list Z :=
  [48639; 108545; 224143; 433905; 795455; 1392065; 2340495; 3800305; 5984767; 9173505; 13726991;
   20103025; 28875327; 40754369; 56610575; 77500017; 104692735; 139703809; 184327311; 240673265;
   311207743; 398796225; 506750351; 638878193; 799538175; 993696769; 1226990095; 1505789553;
   1837271615; 2229491905].

Definition PVQ_ROW_8_CUSTOM : list Z :=
  [2691463695; 3233240945; 3866006015].

Definition PVQ_ROW_9 : list Z :=
  [265729; 598417; 1256465; 2485825; 4673345; 8405905; 14546705; 24331777; 39490049; 62390545;
   96220561; 145198913; 214828609; 312193553; 446304145; 628496897; 872893441; 1196924561;
   1621925137; 2173806145].

Definition PVQ_ROW_9_CUSTOM : list Z :=
  [2883810113].

Definition PVQ_ROW_10 : list Z :=
  [1462563; 3317445; 7059735; 14218905; 27298155; 50250765; 89129247; 152951073; 254831667;
   413442773; 654862247; 1014889769; 1541911931; 2300409629; 3375210671].

Definition PVQ_ROW_11 : list Z :=
  [8097453; 18474633; 39753273; 81270333; 158819253; 298199265; 540279585; 948062325;
   1616336765].

Definition PVQ_ROW_11_CUSTOM : list Z :=
  [2684641785].

Definition PVQ_ROW_12 : list Z :=
  [45046719; 103274625; 224298231; 464387817; 921406335; 1759885185; 3248227095].

Definition PVQ_ROW_13 : list Z :=
  [251595969; 579168825; 1267854873; 2653649025].

Definition PVQ_ROW_14 : list Z :=
  [1409933619].

Definition CELT_PVQ_U_DATA (custom : bool) : list Z :=
  let c (l : list Z) := if custom then l else [] in
  PVQ_ROW_0 ++ c PVQ_ROW_0_CUSTOM ++ PVQ_ROW_1 ++ c PVQ_ROW_1_CUSTOM ++
  PVQ_ROW_2 ++ c PVQ_ROW_2_CUSTOM ++ PVQ_ROW_3 ++ c PVQ_ROW_3_CUSTOM ++
  PVQ_ROW_4 ++ c PVQ_ROW_4_CUSTOM ++ PVQ_ROW_5 ++ c PVQ_ROW_5_CUSTOM ++
  PVQ_ROW_6 ++ c PVQ_ROW_6_CUSTOM ++ PVQ_ROW_7 ++ c PVQ_ROW_7_CUSTOM ++
  PVQ_ROW_8 ++ c PVQ_ROW_8_CUSTOM ++ PVQ_ROW_9 ++ c PVQ_ROW_9_CUSTOM ++
  PVQ_ROW_10 ++ PVQ_ROW_11 ++ c PVQ_ROW_11_CUSTOM ++ PVQ_ROW_12 ++ PVQ_ROW_13 ++ PVQ_ROW_14.

(** The row pointers, as offsets into the data. *)
Definition CELT_PVQ_U_ROW_OFFS (custom : bool) : list Z :=
  if custom then
    [0; 208; 415; 621; 826; 1030; 1233; 1336; 1389; 1421; 1441; 1455; 1464; 1470; 1473]
  else
    [0; 176; 351; 525; 698; 870; 1041; 1131; 1178; 1207; 1226; 1240; 1248; 1254; 1257].

(** [CELT_PVQ_U_ROW[r][j]] *)
Definition CELT_PVQ_U_ROW (custom : bool) (r j : Z) : Z :=
  (CELT_PVQ_U_DATA custom).[(CELT_PVQ_U_ROW_OFFS custom).[r] + j].

Definition CELT_PVQ_U (custom : bool) (_n _k : Z) : Z :=
  CELT_PVQ_U_ROW custom (Z.min _n _k) (Z.max _n _k).

Definition CELT_PVQ_V (custom : bool) (_n _k : Z) : Z :=
  u32 (CELT_PVQ_U custom _n _k + CELT_PVQ_U custom _n (_k + 1)).

(** The largest column of each row. *)
Definition pvq_kmax (custom : bool) : list Z :=
  if custom then [208; 208; 208; 208; 208; 208; 109; 60; 40; 29; 24; 20; 18; 16; 14]
  else [176; 176; 176; 176; 176; 176; 96; 54; 37; 28; 24; 19; 18; 16; 14].

(** Entry (r, j) exists. *)
Definition in_table (custom : bool) (r j : Z) : bool :=
  (0 <=? r) && (r <=? 14) && (r <=? j) && (j <=? (pvq_kmax custom).[r]).

(** ** The recurrence *)

Fixpoint U (n : nat) : nat -> Z :=
  match n with
  | O => fun k => match k with O => 1 | S _ => 0 end
  | S n' => fix Uk (k : nat) : Z :=
      match k with O => 0 | S k' => U n' (S k') + Uk k' + U n' k' end
  end.

Definition V (n k : nat) : Z := U n k + U n (S k).

Lemma U_S n k : U (S n) (S k) = U n (S k) + U (S n) k + U n k.
Proof. done. Qed.

Lemma U_nonneg n k : 0 <= U n k.
Proof.
  revert k. induction n as [|n IHn]; intros k; [destruct k; simpl; lia|].
  induction k as [|k IHk]; [simpl; lia|]. rewrite U_S.
  pose proof (IHn (S k)). pose proof (IHn k). lia.
Qed.

Lemma U_sym n k : U n k = U k n.
Proof.
  revert k. induction n as [|n IHn]; intros k; [by destruct k|].
  induction k as [|k IHk]; [done|]. rewrite !U_S, IHk, (IHn (S k)), (IHn k). lia.
Qed.

(** [U n (k+1) = U n k + V (n-1) k]: the intervals of the enumeration. *)
Lemma U_step n k : U (S n) (S k) = U (S n) k + V n k.
Proof. rewrite U_S. unfold V. lia. Qed.

Lemma V_nonneg n k : 0 <= V n k.
Proof. unfold V. pose proof (U_nonneg n k). pose proof (U_nonneg n (S k)). lia. Qed.

Lemma U_mono n k k' : (k <= k')%nat -> U (S n) k <= U (S n) k'.
Proof.
  induction 1 as [|k' Hk IH]; [lia|]. rewrite U_step. pose proof (V_nonneg n k'). lia.
Qed.

Lemma U_mono_l n n' k : (n <= n')%nat -> U n (S k) <= U n' (S k).
Proof. intros H. rewrite !(U_sym _ (S k)). by apply U_mono. Qed.

Lemma U_1 k : U 1 (S k) = 1.
Proof. induction k as [|k IH]; [done|]. rewrite U_S, IH. done. Qed.

Lemma U_2 k : U 2 (S k) = 2 * Z.of_nat k + 1.
Proof. induction k as [|k IH]; [done|]. rewrite U_step, IH. unfold V. rewrite !U_1. lia. Qed.

Lemma V_1 k : V 1 (S k) = 2.
Proof. unfold V. by rewrite !U_1. Qed.

(** ** The table holds the recurrence *)

(** One row of the recurrence from the previous one, as lists. *)
Fixpoint next_row_from (a prev : Z) (row : list Z) : list Z :=
  match row with
  | [] => []
  | x :: row => let b := x + a + prev in b :: next_row_from b x row
  end.
Definition next_row (row : list Z) : list Z :=
  match row with [] => [] | x :: row => 0 :: next_row_from 0 x row end.
Definition urow (n : nat) : list Z := Nat.iter n next_row (1 :: replicate 208 0).

Lemma next_row_from_U n k l :
  next_row_from (U (S n) k) (U n k) (map (U n) (seq (S k) l)) = map (U (S n)) (seq (S k) l).
Proof.
  revert k. induction l as [|l IH]; intros k; [done|]. cbn [seq map next_row_from].
  rewrite <- U_S. f_equal. apply IH.
Qed.

Lemma urow_U n : urow n = map (U n) (seq 0 209).
Proof.
  induction n as [|n IH]; [done|]. unfold urow in *. rewrite Nat.iter_succ, IH.
  change (seq 0 209) with (0%nat :: seq 1 208). cbn [map next_row].
  exact (f_equal (cons 0) (next_row_from_U n 0 208)).
Qed.

Definition slice (i j : Z) (l : list Z) : list Z := take (Z.to_nat (j - i)) (drop (Z.to_nat i) l).

Lemma rd_subrow l i j k : 0 <= i -> i <= k < j -> (slice i j l).[k - i] = l.[k].
Proof.
  intros Hi Hk. unfold slice. rewrite rd_take by lia. unfold rd.
  destruct (Z.ltb_spec (k - i) 0), (Z.ltb_spec k 0); try lia.
  rewrite !nth_lookup, lookup_drop. do 2 f_equal. lia.
Qed.

Definition rows : list Z := map Z.of_nat (seq 0 15).

Lemma table_slices custom :
  map (fun r => let o := (CELT_PVQ_U_ROW_OFFS custom).[r] in
                slice (o + r) (o + (pvq_kmax custom).[r] + 1) (CELT_PVQ_U_DATA custom)) rows
  = map (fun r => slice r ((pvq_kmax custom).[r] + 1) (urow (Z.to_nat r))) rows.
Proof. destruct custom; vm_compute; reflexivity. Qed.

Lemma row_offs_nonneg custom r : 0 <= (CELT_PVQ_U_ROW_OFFS custom).[r].
Proof. apply (rd_Forall (fun x => 0 <= x)); [done|]. destruct custom; repeat constructor; done. Qed.

Lemma kmax_bound custom r : (pvq_kmax custom).[r] <= 208.
Proof. apply (rd_Forall (fun x => x <= 208)); [done|]. destruct custom; repeat constructor; done. Qed.

Lemma pvq_u_row custom r j :
  in_table custom r j = true -> CELT_PVQ_U_ROW custom r j = U (Z.to_nat r) (Z.to_nat j).
Proof.
  unfold in_table. rewrite !andb_true_iff, !Z.leb_le. intros (((H1 & H2) & H3) & H4).
  pose proof (kmax_bound custom r). pose proof (row_offs_nonneg custom r).
  assert (rows !! Z.to_nat r = Some r) as Hr.
  { unfold rows. rewrite list_lookup_fmap, lookup_seq_lt by lia. simpl. f_equal. lia. }
  pose proof (f_equal (fun l => l !! Z.to_nat r) (table_slices custom)) as E. cbv beta in E.
  rewrite !list_lookup_fmap, Hr in E. cbn [fmap option_fmap option_map] in E. injection E as E.
  unfold CELT_PVQ_U_ROW. set (o := (CELT_PVQ_U_ROW_OFFS custom).[r]) in *.
  rewrite <- (rd_subrow _ (o + r) (o + (pvq_kmax custom).[r] + 1)), E by lia.
  replace (o + j - (o + r)) with (j - r) by lia. rewrite rd_subrow, urow_U by lia.
  unfold rd. destruct (Z.ltb_spec j 0); [lia|].
  rewrite nth_lookup, list_lookup_fmap, lookup_seq_lt by lia. done.
Qed.

(** The table is closed downwards in both indices. *)
Lemma in_table_mono custom r j r' j' :
  in_table custom r j = true -> 0 <= r' <= r -> r' <= j' <= j -> in_table custom r' j' = true.
Proof.
  unfold in_table. rewrite !andb_true_iff, !Z.leb_le. intros (((H1 & H2) & H3) & H4) Hr Hj.
  assert ((pvq_kmax custom).[r] <= (pvq_kmax custom).[r']) as Hm; [|lia].
  assert (forallb (fun a => forallb (fun b => (a <=? b) || ((pvq_kmax custom).[a] <=? (pvq_kmax custom).[b])) rows) rows = true) as Hf
    by (destruct custom; vm_compute; reflexivity).
  assert (forall x, 0 <= x <= 14 -> In x rows) as Hin.
  { intros x Hx. apply in_map_iff. exists (Z.to_nat x). split; [lia|]. apply in_seq. lia. }
  rewrite forallb_forall in Hf. specialize (Hf r (Hin r ltac:(lia))).
  rewrite forallb_forall in Hf. specialize (Hf r' (Hin r' ltac:(lia))). 
  destruct (Z.leb_spec r r'); [replace r' with r by lia; lia|]. cbn in Hf. lia.
Qed.

Lemma pvq_u custom n k :
  0 <= n -> 0 <= k -> in_table custom (Z.min n k) (Z.max n k) = true ->
  CELT_PVQ_U custom n k = U (Z.to_nat n) (Z.to_nat k).
Proof.
  intros Hn Hk H. unfold CELT_PVQ_U. rewrite pvq_u_row by done.
  destruct (Z.min_spec n k) as [[? ->]|[? ->]].
  - by rewrite Z.max_r by lia.
  - rewrite Z.max_l by lia. apply U_sym.
Qed.
