(* ===== verification/Cwrs.v ===== *)
(** * Pulse vector coding (celt/cwrs.c)

    A band of [_n] coefficients with [_k] pulses is coded as one integer: the
    rank of the vector among all integer vectors of dimension [_n] whose
    absolute values sum to [_k].  [rank] and [unrank] are that enumeration,
    written with the recurrence [U]; [icwrs] and [cwrsi] are the C functions,
    which read the table, and are shown to compute them. *)

From S2P Require Import Prelude EntropyInterface CwrsTable.

(** ** The C functions *)

Section Code.
Context (custom : bool).
Local Abbreviation CELT_PVQ_U := (CELT_PVQ_U custom).
Local Abbreviation CELT_PVQ_U_ROW := (CELT_PVQ_U_ROW custom).
Local Abbreviation CELT_PVQ_V := (CELT_PVQ_V custom).

(** The [do ... while (j > 0)] loop of [icwrs], for the elements before [j]. *)
Fixpoint icwrs_loop (j : nat) (_n : Z) (_y : list Z) (i k : Z) : Z :=
  match j with
  | O => i
  | S j' =>
      let j := Z.of_nat j' in
      let i := u32 (i + CELT_PVQ_U (_n - j) k) in
      let k := k + Z.abs _y.[j] in
      let i := if _y.[j] <? 0 then u32 (i + CELT_PVQ_U (_n - j) (k + 1)) else i in
      icwrs_loop j' _n _y i k
  end.

Definition icwrs (_n : Z) (_y : list Z) : Z :=
  let j := _n - 1 in
  let i := b2z (_y.[j] <? 0) in
  let k := Z.abs _y.[j] in
  icwrs_loop (Z.to_nat j) _n _y i k.

(** [do p=CELT_PVQ_U_ROW[--_k][_n]; while(p>_i);], started with [_k = S k]:
    the new (_k, p). *)
Fixpoint pulses_col (k : nat) (_n _i : Z) : Z * Z :=
  let p := CELT_PVQ_U_ROW (Z.of_nat k) _n in
  match k with
  | O => (Z.of_nat k, p)
  | S k' => if p >? _i then pulses_col k' _n _i else (Z.of_nat k, p)
  end.

(** [for(p=row[_k];p>_i;p=row[_k])_k--;] *)
Fixpoint pulses_row (k : nat) (_n _i : Z) : Z * Z :=
  let p := CELT_PVQ_U_ROW _n (Z.of_nat k) in
  match k with
  | O => (Z.of_nat k, p)
  | S k' => if p >? _i then pulses_row k' _n _i else (Z.of_nat k, p)
  end.

(** [MAC16_16] of the fixed-point build. *)
Definition MAC16_16 (c a b : Z) : Z := i32 (c + i16 a * i16 b).

(** One dimension with lots of pulses: the new y, _k, _i and yy. *)
Definition cwrsi_pulses (_n _k _i yy : Z) : Z * Z * Z * Z :=
  let p := CELT_PVQ_U_ROW _n (_k + 1) in
  let s := - b2z (_i >=? p) in
  let _i := u32 (_i - Z.land p s) in
  let k0 := _k in
  let q := CELT_PVQ_U_ROW _n _n in
  let '(_k, p) :=
    if q >? _i then pulses_col (Z.to_nat (_n - 1)) _n _i
    else pulses_row (Z.to_nat _k) _n _i in
  let _i := u32 (_i - p) in
  let val := i16 (Z.lxor (k0 - _k + s) s) in
  (val, _k, _i, MAC16_16 yy val val).

(** One dimension with lots of dimensions. *)
Definition cwrsi_dims (_n _k _i yy : Z) : Z * Z * Z * Z :=
  let p := CELT_PVQ_U_ROW _k _n in
  let q := CELT_PVQ_U_ROW (_k + 1) _n in
  if (p <=? _i) && (_i <? q) then (0, _k, u32 (_i - p), yy)
  else
    let s := - b2z (_i >=? q) in
    let _i := u32 (_i - Z.land q s) in
    let k0 := _k in
    let '(_k, p) := pulses_col (Z.to_nat (_k - 1)) _n _i in
    let _i := u32 (_i - p) in
    let val := i16 (Z.lxor (k0 - _k + s) s) in
    (val, _k, _i, MAC16_16 yy val val).

(** The last two dimensions. *)
Definition cwrsi_tail (_k _i yy : Z) : list Z * Z :=
  let p := 2 * _k + 1 in
  let s := - b2z (_i >=? p) in
  let _i := u32 (_i - Z.land p s) in
  let k0 := _k in
  let _k := Z.shiftr (u32 (_i + 1)) 1 in
  let _i := if negb (_k =? 0) then u32 (_i - (2 * _k - 1)) else _i in
  let val := i16 (Z.lxor (k0 - _k + s) s) in
  let yy := MAC16_16 yy val val in
  let s := - _i in
  let val' := i16 (Z.lxor (_k + s) s) in
  ([val; val'], MAC16_16 yy val' val').

(** The [while (_n > 2)] loop; [m] is [_n - 2]. *)
Fixpoint cwrsi_loop (m : nat) (_k _i yy : Z) : list Z * Z :=
  match m with
  | O => cwrsi_tail _k _i yy
  | S m' =>
      let _n := Z.of_nat m + 2 in
      let '(v, _k, _i, yy) :=
        if _k >=? _n then cwrsi_pulses _n _k _i yy else cwrsi_dims _n _k _i yy in
      let '(ys, yy) := cwrsi_loop m' _k _i yy in (v :: ys, yy)
  end.

(** The vector and the returned sum of squares. *)
Definition cwrsi (_n _k _i : Z) : list Z * Z := cwrsi_loop (Z.to_nat (_n - 2)) _k _i 0.

Definition encode_pulses `{EntropyCoder E D} (_y : list Z) (_n _k : Z) : E -> E :=
  ec_enc_uint (icwrs _n _y) (CELT_PVQ_V _n _k).

Definition decode_pulses `{EntropyCoder E D} (_n _k : Z) (_dec : D) : (list Z * Z) * D :=
  let '(i, _dec) := ec_dec_uint (CELT_PVQ_V _n _k) _dec in
  (cwrsi _n _k i, _dec).

(** The bands for which the table can be used: the entry that the comment before
    the table names is in it, and the number of vectors fits 32 bits. *)
Definition pvq_fits (_n _k : Z) : bool :=
  in_table custom (Z.min _n (_k + 1)) (Z.max _n (_k + 1)) &&
  (CELT_PVQ_U _n _k + CELT_PVQ_U _n (_k + 1) <? 2 ^ 32).
End Code.

(** ** The enumeration *)

Definition pulses (y : list Z) : Z := foldr (fun a k => Z.abs a + k) 0 y.
Definition energy (y : list Z) : Z := foldr (fun a e => a * a + e) 0 y.

Fixpoint rank (y : list Z) : Z :=
  match y with
  | [] => 0
  | a :: ys =>
      let n := length y in
      let k := Z.to_nat (pulses ys) in
      rank ys + U n k + (if a <? 0 then U n (Z.to_nat (pulses y) + 1) else 0)
  end.

(** The largest [k' <= k] with [U n k' <= i]. *)
Fixpoint find_k (n k : nat) (i : Z) : nat :=
  match k with
  | O => O
  | S k' => if U n k <=? i then k else find_k n k' i
  end.

Fixpoint unrank (n k : nat) (i : Z) : list Z :=
  match n with
  | O => []
  | S n' =>
      let neg := U n (S k) <=? i in
      let i := if neg then i - U n (S k) else i in
      let k' := find_k n k i in
      let d := Z.of_nat k - Z.of_nat k' in
      (if neg then - d else d) :: unrank n' k' (i - U n k')
  end.

Lemma pulses_nonneg y : 0 <= pulses y.
Proof. induction y; simpl; lia. Qed.

Lemma find_k_spec n k i :
  0 <= i < U (S n) (S k) ->
  (find_k (S n) k i <= k)%nat /\ U (S n) (find_k (S n) k i) <= i < U (S n) (S (find_k (S n) k i)).
Proof.
  induction k as [|k IH]; intros Hi; cbn [find_k]; [split; [lia|]; by cbn [U] in *|].
  destruct (Z.leb_spec (U (S n) (S k)) i); [lia|]. destruct IH; [lia|]. lia.
Qed.

Lemma find_k_unique n k i k' :
  (k' <= k)%nat -> U (S n) k' <= i < U (S n) (S k') -> find_k (S n) k i = k'.
Proof.
  intros Hk Hi. assert (i < U (S n) (S k)) as Hlt.
  { pose proof (U_mono n (S k') (S k) ltac:(lia)). lia. }
  pose proof (U_nonneg (S n) k').
  destruct (find_k_spec n k i ltac:(lia)) as [H1 H2].
  destruct (Nat.lt_trichotomy (find_k (S n) k i) k') as [H'|[H'|H']]; [|done|].
  - pose proof (U_mono n (S (find_k (S n) k i)) k' ltac:(lia)). lia.
  - pose proof (U_mono n (S k') (find_k (S n) k i) ltac:(lia)). lia.
Qed.

Lemma rank_range y : 0 <= rank y < V (length y) (Z.to_nat (pulses y)).
Proof.
  induction y as [|a ys IH]; [done|]. pose proof (pulses_nonneg ys) as Hk.
  cbn [rank length]. set (n := length ys) in *. set (k' := Z.to_nat (pulses ys)) in *.
  pose proof (U_step n k') as Hs. cbn [pulses foldr]. fold (pulses ys).
  set (k := Z.to_nat (Z.abs a + pulses ys)). pose proof (U_nonneg (S n) k').
  pose proof (U_nonneg (S n) k). pose proof (U_nonneg (S n) (S k)).
  rewrite Nat.add_1_r. unfold V. destruct (Z.ltb_spec a 0).
  - pose proof (U_mono n (S k') k ltac:(lia)). unfold V in *. lia.
  - pose proof (U_mono n (S k') (S k) ltac:(lia)). unfold V in *. lia.
Qed.

Lemma unrank_rank y : unrank (length y) (Z.to_nat (pulses y)) (rank y) = y.
Proof.
  induction y as [|a ys IH]; [done|]. pose proof (pulses_nonneg ys) as Hk.
  pose proof (rank_range ys) as Hr. cbn [rank length unrank].
  set (n := length ys) in *. set (k' := Z.to_nat (pulses ys)) in *.
  pose proof (U_step n k') as Hs. cbn [pulses foldr]. fold (pulses ys).
  set (k := Z.to_nat (Z.abs a + pulses ys)). pose proof (U_nonneg (S n) k').
  rewrite Nat.add_1_r. destruct (Z.ltb_spec a 0).
  - destruct (Z.leb_spec (U (S n) (S k)) (rank ys + U (S n) k' + U (S n) (S k))); [|lia].
    rewrite (find_k_unique n k _ k') by (unfold V in *; lia). f_equal; [lia|].
    rewrite <- IH at 2. f_equal. lia.
  - pose proof (U_mono n (S k') (S k) ltac:(lia)).
    destruct (Z.leb_spec (U (S n) (S k)) (rank ys + U (S n) k' + 0)); [unfold V in *; lia|].
    rewrite (find_k_unique n k _ k') by (unfold V in *; lia). f_equal; [lia|].
    rewrite <- IH at 2. f_equal. lia.
Qed.

Lemma unrank_spec n k i :
  0 <= i < V n k ->
  length (unrank n k i) = n /\ pulses (unrank n k i) = Z.of_nat k /\ rank (unrank n k i) = i.
Proof.
  revert k i. induction n as [|n IH]; intros k i Hi.
  - destruct k; unfold V in Hi; simpl in *; [split_and!; [done..|lia]|lia].
  - cbn [unrank]. set (neg := U (S n) (S k) <=? i).
    set (i' := if neg then i - U (S n) (S k) else i).
    assert (0 <= i' < U (S n) (S k) /\ (neg = true -> i' < U (S n) k /\ i = i' + U (S n) (S k)) /\
            (neg = false -> i = i')) as (Hi' & Hneg & Hpos).
    { pose proof (U_nonneg (S n) k).
      subst i' neg. unfold V in Hi. destruct (Z.leb_spec (U (S n) (S k)) i); split_and!; try done; try lia.
      - pose proof (U_mono n k (S k) ltac:(lia)). lia. }
    destruct (find_k_spec n k i' Hi') as [F1 F2]. set (k' := find_k (S n) k i') in *.
    destruct (IH k' (i' - U (S n) k')) as (L & P & R); [pose proof (U_step n k'); lia|].
    cbn [length pulses foldr rank]. fold (pulses (unrank n k' (i' - U (S n) k'))).
    rewrite L, P, R, Nat2Z.id. destruct neg.
    + destruct (Hneg eq_refl) as [Hk Hi2].
      assert (k' < k)%nat as Hlt.
      { destruct (Nat.lt_ge_cases k' k); [done|]. replace k' with k in F2 by lia. lia. }
      destruct (Z.ltb_spec (- (Z.of_nat k - Z.of_nat k')) 0); [|lia].
      rewrite Z.abs_opp, Z.abs_eq by lia. split_and!; [done|lia|].
      replace (Z.to_nat (Z.of_nat k - Z.of_nat k' + Z.of_nat k') + 1)%nat with (S k) by lia. lia.
    + specialize (Hpos eq_refl). destruct (Z.ltb_spec (Z.of_nat k - Z.of_nat k') 0); [lia|].
      rewrite Z.abs_eq by lia. split_and!; [done|lia..].
Qed.

(** ** Table accesses *)

Lemma U_mono2 m n k K :
  (m <= n)%nat -> (k <= K)%nat -> (1 <= m)%nat -> U m k <= U n K.
Proof.
  intros Hn Hk Hm. destruct m as [|m]; [lia|].
  pose proof (U_mono m k K Hk). destruct K as [|K].
  - replace k with O by lia. apply U_nonneg.
  - pose proof (U_mono_l (S m) n K Hn). lia.
Qed.

Lemma V_mono2 m n k K : (m <= n)%nat -> (k <= K)%nat -> (1 <= m)%nat -> V m k <= V n K.
Proof.
  intros. unfold V. pose proof (U_mono2 m n k K). pose proof (U_mono2 m n (S k) (S K)). lia.
Qed.

Section Access.
Context (custom : bool) (n K : Z).
Hypothesis (Hn : 2 <= n) (HK : 0 <= K) (Hfits : pvq_fits custom n K = true).

Lemma fits_table : in_table custom (Z.min n (K + 1)) (Z.max n (K + 1)) = true.
Proof. unfold pvq_fits in Hfits. by apply andb_true_iff in Hfits as []. Qed.

Lemma acc_u m k : 0 <= m <= n -> 0 <= k <= K + 1 -> CELT_PVQ_U custom m k = U (Z.to_nat m) (Z.to_nat k).
Proof.
  intros Hm Hk. apply pvq_u; try lia. eapply in_table_mono; [apply fits_table|lia..].
Qed.

Lemma acc_row r j :
  0 <= r <= j -> (r <= n /\ j <= K + 1) \/ (r <= K + 1 /\ j <= n) ->
  CELT_PVQ_U_ROW custom r j = U (Z.to_nat r) (Z.to_nat j).
Proof. intros Hr Hj. apply pvq_u_row. eapply in_table_mono; [apply fits_table|lia..]. Qed.

Lemma fits_V : V (Z.to_nat n) (Z.to_nat K) < 2 ^ 32.
Proof.
  pose proof Hfits as H. unfold pvq_fits in H. apply andb_true_iff in H as [_ H%Z.ltb_lt].
  rewrite !acc_u in H by lia. unfold V. by replace (S (Z.to_nat K)) with (Z.to_nat (K + 1)) by lia.
Qed.

Lemma pvq_v : CELT_PVQ_V custom n K = V (Z.to_nat n) (Z.to_nat K).
Proof.
  unfold CELT_PVQ_V. rewrite !acc_u by lia. pose proof fits_V as H. unfold V in *.
  replace (Z.to_nat (K + 1)) with (S (Z.to_nat K)) by lia. apply u32_small.
  pose proof (U_nonneg (Z.to_nat n) (Z.to_nat K)). pose proof (U_nonneg (Z.to_nat n) (S (Z.to_nat K))). lia.
Qed.

Lemma fits_U m k : (1 <= m <= Z.to_nat n)%nat -> (k <= S (Z.to_nat K))%nat -> U m k < 2 ^ 32.
Proof.
  intros Hm Hk. pose proof fits_V as H. unfold V in H.
  pose proof (U_mono2 m (Z.to_nat n) k (S (Z.to_nat K)) ltac:(lia) Hk ltac:(lia)).
  pose proof (U_nonneg (Z.to_nat n) (Z.to_nat K)). lia.
Qed.
End Access.

(** ** Encoding *)

Lemma pulses_drop j y : pulses (drop j y) <= pulses y.
Proof.
  revert j. induction y as [|a y IH]; intros [|j]; simpl; try lia. specialize (IH j). lia.
Qed.

Lemma drop_cons_rd j (y : list Z) : (j < length y)%nat -> drop j y = rd y (Z.of_nat j) :: drop (S j) y.
Proof.
  intros Hj. destruct (lookup_lt_is_Some_2 y j Hj) as [a Ha].
  rewrite (drop_S y a j Ha). f_equal. unfold rd. destruct (Z.ltb_spec (Z.of_nat j) 0); [lia|].
  by rewrite Nat2Z.id, nth_lookup, Ha.
Qed.

Lemma rank_drop_bound custom n y j :
  2 <= n -> len y = n -> pvq_fits custom n (pulses y) = true -> (j < length y)%nat ->
  0 <= rank (drop j y) < 2 ^ 32.
Proof.
  intros Hn Hl Hf Hj. pose proof (rank_range (drop j y)) as Hr. pose proof (pulses_nonneg y).
  pose proof (fits_V custom n (pulses y) Hn ltac:(lia) Hf). pose proof (pulses_drop j y).
  pose proof (V_mono2 (length (drop j y)) (Z.to_nat n) (Z.to_nat (pulses (drop j y))) (Z.to_nat (pulses y))) as HV.
  rewrite length_drop in *. unfold len in *. lia.
Qed.

Lemma icwrs_loop_rank custom n y :
  2 <= n -> len y = n -> pvq_fits custom n (pulses y) = true ->
  forall j, (j < length y)%nat ->
  icwrs_loop custom j n y (rank (drop j y)) (pulses (drop j y)) = rank y.
Proof.
  intros Hn Hl Hf. pose proof (pulses_nonneg y) as HK.
  induction j as [|j IH]; intros Hj; [by rewrite drop_0|]. cbn [icwrs_loop]. cbv zeta.
  specialize (IH ltac:(lia)). rewrite <- IH.
  pose proof (rank_drop_bound custom n y j Hn Hl Hf ltac:(lia)) as HB.
  pose proof (drop_cons_rd j y ltac:(lia)) as Hd. pose proof (pulses_drop j y) as Hp.
  pose proof (rank_range (drop (S j) y)) as Hr. pose proof (pulses_nonneg (drop (S j) y)).
  assert (length (drop j y) = (length y - j)%nat) as Hlen by apply length_drop.
  rewrite Hd in *. cbn [rank pulses foldr length] in *.
  change (foldr (fun a k => Z.abs a + k) 0 (drop (S j) y)) with (pulses (drop (S j) y)) in *.
  set (a := rd y (Z.of_nat j)) in *. set (t := drop (S j) y) in *.
  unfold len in Hl. rewrite Hlen in *.
  pose proof (U_nonneg (length y - j) (Z.to_nat (pulses t))).
  pose proof (U_nonneg (length y - j) (Z.to_nat (Z.abs a + pulses t) + 1)).
  rewrite !(acc_u custom n (pulses y)) by (done || lia).
  replace (Z.to_nat (n - Z.of_nat j)) with (length y - j)%nat by lia.
  replace (pulses t + Z.abs a) with (Z.abs a + pulses t) by lia.
  replace (Z.to_nat (Z.abs a + pulses t + 1)) with (Z.to_nat (Z.abs a + pulses t) + 1)%nat by lia.
  destruct (Z.ltb_spec a 0).
  - rewrite (u32_small (rank t + _)) by lia. rewrite u32_small by lia. done.
  - rewrite u32_small by lia. f_equal. lia.
Qed.

Lemma rank_single a : rank [a] = b2z (a <? 0).
Proof.
  cbn [rank length pulses foldr]. destruct (Z.ltb_spec a 0); cbn [b2z]; [|done].
  rewrite Nat.add_1_r, U_1. done.
Qed.

Lemma icwrs_rank custom n y :
  2 <= n -> len y = n -> pvq_fits custom n (pulses y) = true -> icwrs custom n y = rank y.
Proof.
  intros Hn Hl Hf. unfold icwrs. cbv zeta. unfold len in Hl.
  pose proof (drop_cons_rd (Z.to_nat (n - 1)) y ltac:(lia)) as Hd.
  rewrite (drop_ge y (S (Z.to_nat (n - 1)))) in Hd by lia. rewrite Z2Nat.id in Hd by lia.
  rewrite <- (icwrs_loop_rank custom n y Hn Hl Hf (Z.to_nat (n - 1))) by lia.
  rewrite Hd, rank_single. cbn [pulses foldr]. f_equal. lia.
Qed.

(** ** Decoding *)

Lemma mask_sign p (b : bool) : Z.land p (- b2z b) = if b then p else 0.
Proof. destruct b; cbn [b2z]; [apply Z.land_m1_r|apply Z.land_0_r]. Qed.

Lemma flip_sign d (b : bool) : Z.lxor (d + - b2z b) (- b2z b) = if b then - d else d.
Proof.
  destruct b; cbn [b2z]; change (- (1)) with (-1); change (- 0) with 0.
  - rewrite Z.lxor_m1_r. unfold Z.lnot. lia.
  - rewrite Z.lxor_0_r. lia.
Qed.

(** The sum of squares does not overflow. *)
Lemma mac_exact yy d k :
  Z.abs d <= k -> 0 <= yy -> yy + k * k <= 2 ^ 30 -> k < 2 ^ 15 -> MAC16_16 yy d d = yy + d * d.
Proof.
  intros H1 H2 H3 H4. unfold MAC16_16. rewrite i16_small by lia. apply i32_small.
  assert (d * d <= k * k) by nia. lia.
Qed.

(** What one dimension of the decoder computes. *)
Definition dim_neg (n k : nat) (i : Z) : bool := U n (S k) <=? i.
Definition dim_rest (n k : nat) (i : Z) : Z := if dim_neg n k i then i - U n (S k) else i.
Definition dim_left (n k : nat) (i : Z) : nat := find_k n k (dim_rest n k i).
Definition dim_val (n k : nat) (i : Z) : Z :=
  let d := Z.of_nat k - Z.of_nat (dim_left n k i) in if dim_neg n k i then - d else d.
Definition dim_out (n k : nat) (i : Z) : Z := dim_rest n k i - U n (dim_left n k i).

Lemma unrank_dim n k i :
  unrank (S n) k i = dim_val (S n) k i :: unrank n (dim_left (S n) k i) (dim_out (S n) k i).
Proof. done. Qed.

Lemma dim_facts n k i :
  0 <= i < V (S n) k ->
  0 <= dim_rest (S n) k i < U (S n) (S k) /\
  (dim_neg (S n) k i = true -> dim_rest (S n) k i < U (S n) k) /\
  (dim_left (S n) k i <= k)%nat /\ 0 <= dim_out (S n) k i < V n (dim_left (S n) k i).
Proof.
  intros Hi. assert (0 <= dim_rest (S n) k i < U (S n) (S k) /\
    (dim_neg (S n) k i = true -> dim_rest (S n) k i < U (S n) k)) as [H1 H2].
  { unfold dim_rest, dim_neg, V in *. pose proof (U_mono n k (S k) ltac:(lia)).
    destruct (Z.leb_spec (U (S n) (S k)) i); lia. }
  destruct (find_k_spec n k _ H1) as [F1 F2]. fold (dim_left (S n) k i) in F1, F2.
  split_and!; try done; try lia; unfold dim_out; pose proof (U_step n (dim_left (S n) k i)); lia.
Qed.

Section Decode.
Context (custom : bool) (n0 K0 : Z).
Hypothesis (Hn0 : 2 <= n0) (HK0 : 0 <= K0) (Hfits : pvq_fits custom n0 K0 = true).

Lemma K0_small : K0 <= 207.
Proof.
  pose proof (fits_table custom n0 K0 Hfits) as H. unfold in_table in H.
  rewrite !andb_true_iff, !Z.leb_le in H. pose proof (kmax_bound custom (Z.min n0 (K0 + 1))). lia.
Qed.

Lemma pulses_col_find n k i :
  (k < S n)%nat -> Z.of_nat (S n) <= n0 -> (k <= S (Z.to_nat K0))%nat ->
  pulses_col custom k (Z.of_nat (S n)) i
  = (Z.of_nat (find_k (S n) k i), U (S n) (find_k (S n) k i)).
Proof.
  intros Hk Hn HkK. induction k as [|k IH].
  - cbn [pulses_col find_k]. rewrite (acc_row custom n0 K0) by (done || lia).
    rewrite !Nat2Z.id, U_sym. done.
  - cbn [pulses_col find_k]. rewrite (acc_row custom n0 K0) by (done || lia).
    rewrite !Nat2Z.id, (U_sym (S k)). rewrite Z.gtb_ltb.
    destruct (Z.ltb_spec i (U (S n) (S k))), (Z.leb_spec (U (S n) (S k)) i); try lia; [|done].
    apply IH; lia.
Qed.

Lemma pulses_row_find n k i :
  (S n <= k)%nat -> Z.of_nat (S n) <= n0 -> Z.of_nat k <= K0 + 1 -> U (S n) (S n) <= i ->
  pulses_row custom k (Z.of_nat (S n)) i
  = (Z.of_nat (find_k (S n) k i), U (S n) (find_k (S n) k i)).
Proof.
  intros Hk Hn HkK Hi. induction k as [|k IH]; [lia|].
  cbn [pulses_row find_k]. rewrite (acc_row custom n0 K0) by (done || lia).
  rewrite !Nat2Z.id. rewrite Z.gtb_ltb.
  destruct (Z.ltb_spec i (U (S n) (S k))), (Z.leb_spec (U (S n) (S k)) i); try lia; [|done].
  destruct (decide (S n <= k)%nat) as [Hc|Hc]; [apply IH; lia|].
  replace (S k) with (S n) in * by lia. lia.
Qed.

Lemma find_k_below n k k1 i :
  (k1 <= k)%nat -> 0 <= i < U (S n) (S k1) -> find_k (S n) k1 i = find_k (S n) k i.
Proof.
  intros Hk Hi. destruct (find_k_spec n k1 i Hi) as [H1 H2]. symmetry. apply find_k_unique; [lia|done].
Qed.

(** What both branches of the loop body compute. *)
Definition dim_result (n k : nat) (i yy : Z) : Z * Z * Z * Z :=
  (dim_val n k i, Z.of_nat (dim_left n k i), dim_out n k i, yy + dim_val n k i * dim_val n k i).

Lemma dim_val_abs n k i :
  0 <= i < V (S n) k -> Z.abs (dim_val (S n) k i) <= Z.of_nat k.
Proof.
  intros Hi. destruct (dim_facts n k i Hi) as (_ & _ & H & _). unfold dim_val. cbv zeta.
  destruct (dim_neg _ _ _); lia.
Qed.

Lemma dim_finish n k i yy :
  0 <= i < V (S n) k -> Z.of_nat (S n) <= n0 -> Z.of_nat k <= K0 ->
  0 <= yy -> yy + Z.of_nat k * Z.of_nat k <= 2 ^ 30 ->
  let kk := Z.of_nat (dim_left (S n) k i) in
  let s := - b2z (dim_neg (S n) k i) in
  let v := i16 (Z.lxor (Z.of_nat k - kk + s) s) in
  (v, kk, u32 (dim_rest (S n) k i - U (S n) (dim_left (S n) k i)), MAC16_16 yy v v)
  = dim_result (S n) k i yy.
Proof.
  intros Hi Hn HkK Hyy Hk2. destruct (dim_facts n k i Hi) as (H1 & H2 & H3 & H4).
  pose proof K0_small. pose proof (dim_val_abs n k i Hi) as Hv. cbv zeta.
  rewrite flip_sign. change (if dim_neg (S n) k i then _ else _) with (dim_val (S n) k i).
  rewrite i16_small by lia. rewrite (mac_exact yy _ (Z.of_nat k)) by lia.
  fold (dim_out (S n) k i). rewrite u32_small; [done|].
  pose proof (fits_U custom n0 K0 Hn0 HK0 Hfits (S n) (S k) ltac:(lia) ltac:(lia)).
  unfold dim_out in *. pose proof (U_nonneg (S n) (dim_left (S n) k i)). lia.
Qed.

(** The remainder after the sign, as the C code computes it. *)
Lemma dim_rest_code n k i :
  0 <= i < V (S n) k -> Z.of_nat (S n) <= n0 -> Z.of_nat k <= K0 ->
  u32 (i - Z.land (U (S n) (S k)) (- b2z (i >=? U (S n) (S k)))) = dim_rest (S n) k i /\
  - b2z (i >=? U (S n) (S k)) = - b2z (dim_neg (S n) k i).
Proof.
  intros Hi Hn HkK. destruct (dim_facts n k i Hi) as (H1 & _).
  pose proof (fits_U custom n0 K0 Hn0 HK0 Hfits (S n) (S k) ltac:(lia) ltac:(lia)).
  assert ((i >=? U (S n) (S k)) = dim_neg (S n) k i) as -> by (unfold dim_neg; apply Z.geb_leb).
  split; [|done]. rewrite mask_sign. unfold dim_rest in *.
  destruct (dim_neg (S n) k i); [apply u32_small; lia|]. rewrite Z.sub_0_r. apply u32_small. lia.
Qed.

Lemma cwrsi_pulses_ok n k i yy :
  0 <= i < V (S n) k -> Z.of_nat (S n) <= n0 -> Z.of_nat k <= K0 -> (S n <= k)%nat ->
  0 <= yy -> yy + Z.of_nat k * Z.of_nat k <= 2 ^ 30 ->
  cwrsi_pulses custom (Z.of_nat (S n)) (Z.of_nat k) i yy = dim_result (S n) k i yy.
Proof.
  intros Hi Hn HkK Hnk Hyy Hk2. unfold cwrsi_pulses. cbv zeta.
  rewrite !(acc_row custom n0 K0) by (done || lia).
  replace (Z.to_nat (Z.of_nat k + 1)) with (S k) by lia. rewrite !Nat2Z.id.
  destruct (dim_rest_code n k i Hi Hn HkK) as [-> ->].
  destruct (dim_facts n k i Hi) as (H1 & H2 & H3 & H4).
  rewrite Z.gtb_ltb. destruct (Z.ltb_spec (dim_rest (S n) k i) (U (S n) (S n))) as [Hq|Hq].
  - replace (Z.to_nat (Z.of_nat (S n) - 1)) with n by lia. rewrite pulses_col_find by lia.
    rewrite (find_k_below n k n) by (done || lia). fold (dim_left (S n) k i).
    by apply dim_finish.
  - rewrite pulses_row_find by lia. fold (dim_left (S n) k i). by apply dim_finish.
Qed.

Lemma cwrsi_dims_ok n k i yy :
  0 <= i < V (S n) k -> Z.of_nat (S n) <= n0 -> Z.of_nat k <= K0 -> (k < S n)%nat ->
  0 <= yy -> yy + Z.of_nat k * Z.of_nat k <= 2 ^ 30 ->
  cwrsi_dims custom (Z.of_nat (S n)) (Z.of_nat k) i yy = dim_result (S n) k i yy.
Proof.
  intros Hi Hn HkK Hnk Hyy Hk2. unfold cwrsi_dims. cbv zeta.
  rewrite !(acc_row custom n0 K0) by (done || lia).
  replace (Z.to_nat (Z.of_nat k + 1)) with (S k) by lia. rewrite !Nat2Z.id, (U_sym k), (U_sym (S k)).
  destruct (dim_facts n k i Hi) as (H1 & H2 & H3 & H4).
  destruct (dim_rest_code n k i Hi Hn HkK) as [Hr Hs].
  destruct (Z.leb_spec (U (S n) k) i), (Z.ltb_spec i (U (S n) (S k))); cbn [andb].
  1: { (* no pulse in this dimension *)
    assert (dim_neg (S n) k i = false) as Hneg by (apply Z.leb_gt; lia).
    assert (dim_rest (S n) k i = i) as Hrest by (unfold dim_rest; by rewrite Hneg).
    assert (dim_left (S n) k i = k) as Hleft
      by (unfold dim_left; rewrite Hrest; apply find_k_unique; lia).
    unfold dim_result, dim_val, dim_out in *. rewrite Hneg, Hrest, Hleft in *.
    rewrite u32_small by (pose proof (fits_U custom n0 K0 Hn0 HK0 Hfits (S n) (S k) ltac:(lia) ltac:(lia));
                          pose proof (U_nonneg (S n) k); lia).
    cbv zeta. repeat f_equal; lia. }
  all: rewrite Hr, Hs.
  all: destruct k as [|k]; [cbn [U] in *; unfold V in *; cbn [U] in *; lia|].
  all: replace (Z.to_nat (Z.of_nat (S k) - 1)) with k by lia; rewrite pulses_col_find by lia.
  all: rewrite (find_k_below n (S k) k); [fold (dim_left (S n) (S k) i); by apply dim_finish|lia|].
  all: split; [lia|].
  all: destruct (dim_neg (S n) (S k) i) eqn:E; [by apply H2|].
  all: unfold dim_rest; rewrite E; unfold dim_neg in E; apply Z.leb_gt in E; lia.
Qed.

Lemma energy_split yy d k k' :
  0 <= k' <= k -> Z.abs d = k - k' -> yy + d * d + k' * k' <= yy + k * k.
Proof. intros Hk Hd. assert (d * d = (k - k') * (k - k')) as -> by nia. nia. Qed.

Lemma shiftr_1 x : Z.shiftr x 1 = x / 2.
Proof. by rewrite Z.shiftr_div_pow2 by lia. Qed.

(** In two dimensions the search has a closed form. *)
Lemma find_k_2 k i :
  0 <= i < U 2 (S k) -> Z.of_nat (find_k 2 k i) = (i + 1) / 2 /\
  U 2 (find_k 2 k i) = (if (i + 1) / 2 =? 0 then 0 else 2 * ((i + 1) / 2) - 1).
Proof.
  intros Hi. rewrite U_2 in Hi.
  assert (find_k 2 k i = Z.to_nat ((i + 1) / 2)) as ->.
  { apply find_k_unique; [dlia|]. rewrite U_2.
    destruct (Z.to_nat ((i + 1) / 2)) as [|m] eqn:E; [cbn [U]; dlia|]. rewrite U_2. dlia. }
  split; [dlia|]. destruct (Z.eqb_spec ((i + 1) / 2) 0) as [E|E]; [by rewrite E|].
  destruct (Z.to_nat ((i + 1) / 2)) as [|m] eqn:E2; [dlia|]. rewrite U_2. dlia.
Qed.

Lemma unrank_1 k i : 0 <= i < V 1 k -> unrank 1 k i = [if i =? 0 then Z.of_nat k else - Z.of_nat k].
Proof.
  intros Hi. rewrite unrank_dim. destruct (dim_facts 0 k i Hi) as (H1 & _ & _ & _).
  cbn [unrank]. rewrite U_1 in H1. unfold dim_val, dim_left. cbv zeta.
  rewrite (find_k_unique 0 k _ 0) by (rewrite ?U_1; cbn [U]; lia).
  unfold dim_neg. rewrite U_1. destruct (Z.leb_spec 1 i), (Z.eqb_spec i 0); try lia; f_equal; lia.
Qed.

Lemma dim_val_left n k i :
  0 <= i < V (S n) k ->
  Z.abs (dim_val (S n) k i) = Z.of_nat k - Z.of_nat (dim_left (S n) k i).
Proof.
  intros Hi. destruct (dim_facts n k i Hi) as (_ & _ & H & _). unfold dim_val. cbv zeta.
  destruct (dim_neg _ _ _); lia.
Qed.

Lemma cwrsi_tail_ok k i yy :
  0 <= i < V 2 k -> Z.of_nat k <= K0 -> 0 <= yy -> yy + Z.of_nat k * Z.of_nat k <= 2 ^ 30 ->
  cwrsi_tail (Z.of_nat k) i yy = (unrank 2 k i, yy + energy (unrank 2 k i)).
Proof.
  intros Hi HkK Hyy Hk2. rewrite unrank_dim. destruct (dim_facts 1 k i Hi) as (H1 & H2 & H3 & H4).
  pose proof (dim_val_left 1 k i Hi) as Hv. pose proof K0_small.
  pose proof (dim_rest_code 1 k i Hi ltac:(lia) HkK) as [Er Es]. rewrite U_2 in Er, Es.
  destruct (find_k_2 k _ H1) as [F1 F2]. fold (dim_left 2 k i) in F1, F2.
  unfold cwrsi_tail. cbv zeta. rewrite Er, Es. rewrite U_2 in H1.
  rewrite (u32_small (dim_rest 2 k i + 1)), shiftr_1 by lia. rewrite <- F1.
  rewrite flip_sign. change (if dim_neg 2 k i then _ else _) with (dim_val 2 k i).
  rewrite i16_small by lia. rewrite (mac_exact yy _ (Z.of_nat k)) by lia.
  assert ((if negb (Z.of_nat (dim_left 2 k i) =? 0)
           then u32 (dim_rest 2 k i - (2 * Z.of_nat (dim_left 2 k i) - 1)) else dim_rest 2 k i)
          = dim_out 2 k i) as ->.
  { unfold dim_out in *. rewrite F1, F2 in *. destruct (Z.eqb_spec ((dim_rest 2 k i + 1) / 2) 0); cbn [negb].
    - lia.
    - apply u32_small. unfold V in H4. dlia. }
  rewrite (unrank_1 (dim_left 2 k i)) by done.
  assert (dim_out 2 k i = b2z (negb (dim_out 2 k i =? 0))) as Eo.
  { unfold V in H4. destruct (dim_left 2 k i) as [|m]; rewrite ?U_1 in H4; cbn [U] in H4;
      destruct (Z.eqb_spec (dim_out 2 k i) 0); cbn [negb b2z]; lia. }
  set (b := negb (dim_out 2 k i =? 0)) in *.
  replace (- dim_out 2 k i) with (- b2z b) by lia. rewrite flip_sign.
  pose proof (energy_split yy (dim_val 2 k i) (Z.of_nat k) (Z.of_nat (dim_left 2 k i)) ltac:(lia) Hv).
  assert ((if b then - Z.of_nat (dim_left 2 k i) else Z.of_nat (dim_left 2 k i))
    = if dim_out 2 k i =? 0 then Z.of_nat (dim_left 2 k i) else - Z.of_nat (dim_left 2 k i)) as ->
    by (subst b; by destruct (dim_out 2 k i =? 0)).
  set (w := if dim_out 2 k i =? 0 then _ else _).
  assert (Z.abs w <= Z.of_nat (dim_left 2 k i)) by (subst w; clear; destruct (dim_out 2 k i =? 0); lia).
  rewrite i16_small by lia. rewrite (mac_exact _ w (Z.of_nat (dim_left 2 k i))) by nia.
  cbn [energy foldr]. f_equal. lia.
Qed.

Lemma cwrsi_loop_ok m k i yy :
  Z.of_nat m + 2 <= n0 -> 0 <= i < V (S (S m)) k -> Z.of_nat k <= K0 ->
  0 <= yy -> yy + Z.of_nat k * Z.of_nat k <= 2 ^ 30 ->
  cwrsi_loop custom m (Z.of_nat k) i yy = (unrank (S (S m)) k i, yy + energy (unrank (S (S m)) k i)).
Proof.
  revert k i yy. induction m as [|m IH]; intros k i yy Hm Hi HkK Hyy Hk2; [by apply cwrsi_tail_ok|].
  cbn [cwrsi_loop]. replace (Z.of_nat (S m) + 2) with (Z.of_nat (S (S (S m)))) by lia.
  destruct (dim_facts (S (S m)) k i Hi) as (_ & _ & H3 & H4).
  assert ((if Z.of_nat k >=? Z.of_nat (S (S (S m)))
           then cwrsi_pulses custom (Z.of_nat (S (S (S m)))) (Z.of_nat k) i yy
           else cwrsi_dims custom (Z.of_nat (S (S (S m)))) (Z.of_nat k) i yy)
          = dim_result (S (S (S m))) k i yy) as ->.
  { destruct (Z.geb_spec (Z.of_nat k) (Z.of_nat (S (S (S m)))));
      [apply cwrsi_pulses_ok|apply cwrsi_dims_ok]; try done; lia. }
  unfold dim_result. pose proof (dim_val_left (S (S m)) k i Hi) as Hv.
  pose proof (energy_split yy (dim_val (S (S (S m))) k i) (Z.of_nat k)
    (Z.of_nat (dim_left (S (S (S m))) k i)) ltac:(lia) Hv).
  rewrite IH by (done || nia). rewrite (unrank_dim (S (S m))). cbn [energy foldr]. f_equal.
  fold (energy (unrank (S (S m)) (dim_left (S (S (S m))) k i) (dim_out (S (S (S m))) k i))). lia.
Qed.

Lemma cwrsi_unrank i :
  0 <= i < V (Z.to_nat n0) (Z.to_nat K0) ->
  cwrsi custom n0 K0 i
  = (unrank (Z.to_nat n0) (Z.to_nat K0) i, energy (unrank (Z.to_nat n0) (Z.to_nat K0) i)).
Proof.
  intros Hi. pose proof K0_small. unfold cwrsi.
  replace (Z.to_nat n0) with (S (S (Z.to_nat (n0 - 2)))) in * by lia.
  rewrite <- (Z2Nat.id K0) at 1 by lia. rewrite cwrsi_loop_ok by nia. done.
Qed.
End Decode.
