(* ===== verification/CwrsSmall.v ===== *)
(** * Pulse vector coding without the table (celt/cwrs.c, SMALL_FOOTPRINT)

    The variant for small devices computes rows of [U] in a scratch array
    instead of reading them from the table.  It is shown to compute the same
    enumeration, hence to be interchangeable with the table version, and it is
    not limited to the bands of the table. *)

From S2P Require Import Prelude EntropyInterface CwrsTable Cwrs.

(** ** The C functions *)

(** The loop shared by [unext] and [uprev]: [m] more rounds at index [j] of the
    array that starts at [o]; [op] combines [_ui[j]], [_ui[j-1]] and [_ui0]. *)
Fixpoint urow_loop (op : Z -> Z -> Z -> Z) (m : nat) (o j : Z) (_ui : list Z) (_ui0 : Z) : list Z :=
  match m with
  | O => _ui.[o + j - 1 <- _ui0]
  | S m' =>
      let ui1 := op _ui.[o + j] _ui.[o + j - 1] _ui0 in
      urow_loop op m' o (j + 1) _ui.[o + j - 1 <- _ui0] ui1
  end.

Definition UADD32 (a b : Z) : Z := u32 (a + b).
Definition USUB32 (a b : Z) : Z := u32 (a - b).

Definition unext (o : Z) (_ui : list Z) (_len _ui0 : Z) : list Z :=
  urow_loop (fun a b c => UADD32 (UADD32 a b) c) (Z.to_nat (_len - 1)) o 1 _ui _ui0.
Definition uprev (_ui : list Z) (_n _ui0 : Z) : list Z :=
  urow_loop (fun a b c => USUB32 (USUB32 a b) c) (Z.to_nat (_n - 1)) 0 1 _ui _ui0.

(** [_u[k] = (k<<1)-1] for [k], [k+1], ... ([m] entries) *)
Fixpoint fill_odd (m : nat) (k : Z) (_u : list Z) : list Z :=
  match m with
  | O => _u
  | S m' => fill_odd m' (k + 1) _u.[k <- u32 (Z.shiftl k 1 - 1)]
  end.

(** The value V(_n,_k) and the row that is left in the scratch array. *)
Definition ncwrs_urow (_n _k : Z) (_u : list Z) : Z * list Z :=
  let len := _k + 2 in
  let _u := _u.[0 <- 0].[1 <- 1] in
  let _u := fill_odd (Z.to_nat (len - 2)) 2 _u in
  let _u := Nat.iter (Z.to_nat (_n - 2)) (fun _u => unext 1 _u (_k + 1) 1) _u in
  (u32 (_u.[_k] + _u.[_k + 1]), _u).

(** [while (p > _i) p = _u[--_k];] from [p = _u[_k]] *)
Fixpoint small_find (k : nat) (_i : Z) (_u : list Z) : Z * Z :=
  let p := _u.[Z.of_nat k] in
  match k with
  | O => (Z.of_nat k, p)
  | S k' => if p >? _i then small_find k' _i _u else (Z.of_nat k, p)
  end.

(** The [do ... while (++j < _n)] loop, [m] rounds left. *)
Fixpoint cwrsi_small_loop (m : nat) (_k _i yy : Z) (_u : list Z) : list Z * Z :=
  match m with
  | O => ([], yy)
  | S m' =>
      let p := _u.[_k + 1] in
      let s := - b2z (_i >=? p) in
      let _i := u32 (_i - Z.land p s) in
      let yj := _k in
      let '(_k, p) := small_find (Z.to_nat _k) _i _u in
      let _i := u32 (_i - p) in
      let yj := yj - _k in
      let val := i16 (Z.lxor (yj + s) s) in
      let yy := MAC16_16 yy val val in
      let _u := uprev _u (_k + 2) 0 in
      let '(ys, yy) := cwrsi_small_loop m' _k _i yy _u in (val :: ys, yy)
  end.

Definition cwrsi_small (_n _k _i : Z) (_u : list Z) : list Z * Z :=
  cwrsi_small_loop (Z.to_nat _n) _k _i 0 _u.

Definition icwrs1 (y : Z) : Z * Z := (b2z (y <? 0), Z.abs y).

(** The [while (j-- > 0)] loop of [icwrs]. *)
Fixpoint icwrs_small_loop (j : nat) (_k : Z) (_y : list Z) (i k : Z) (_u : list Z) : Z * Z * list Z :=
  match j with
  | O => (i, k, _u)
  | S j' =>
      let _u := unext 0 _u (_k + 2) 0 in
      let i := u32 (i + _u.[k]) in
      let k := k + Z.abs _y.[Z.of_nat j'] in
      let i := if _y.[Z.of_nat j'] <? 0 then u32 (i + _u.[k + 1]) else i in
      icwrs_small_loop j' _k _y i k _u
  end.

(** The index and [*_nc]. *)
Definition icwrs_small (_n _k : Z) (_y _u : list Z) : Z * Z :=
  let _u := _u.[0 <- 0] in
  let _u := fill_odd (Z.to_nat (_k + 1)) 1 _u in
  let '(i, k) := icwrs1 _y.[_n - 1] in
  let j := _n - 2 in
  let i := u32 (i + _u.[k]) in
  let k := k + Z.abs _y.[j] in
  let i := if _y.[j] <? 0 then u32 (i + _u.[k + 1]) else i in
  let '(i, k, _u) := icwrs_small_loop (Z.to_nat j) _k _y i k _u in
  (i, u32 (_u.[k] + _u.[k + 1])).

(** [ALLOC] gives an array of [_k + 2] entries whose contents are [u0]. *)
Definition encode_pulses_small `{EntropyCoder E D} (u0 : list Z) (_y : list Z) (_n _k : Z) : E -> E :=
  let '(i, nc) := icwrs_small _n _k _y u0 in ec_enc_uint i nc.

Definition decode_pulses_small `{EntropyCoder E D} (u0 : list Z) (_n _k : Z) (_dec : D)
    : (list Z * Z) * D :=
  let '(nc, _u) := ncwrs_urow _n _k u0 in
  let '(i, _dec) := ec_dec_uint nc _dec in
  (cwrsi_small _n _k i _u, _dec).

(** ** Rows in the scratch array *)

(** [_u] holds [U n] at the indices up to [m]. *)
Definition holds_row (u : list Z) (n : nat) (m : Z) : Prop :=
  m < len u /\ forall j, 0 <= j <= m -> u.[j] = U n (Z.to_nat j).

Lemma urow_loop_spec op (B : Z -> Z) m o j ui :
  0 <= o -> 1 <= j -> o + j - 1 + Z.of_nat m < len ui ->
  (forall x, j <= x <= j - 1 + Z.of_nat m -> op ui.[o + x] ui.[o + x - 1] (B (x - 1)) = B x) ->
  let r := urow_loop op m o j ui (B (j - 1)) in
  len r = len ui /\ (forall x, j - 1 <= x <= j - 1 + Z.of_nat m -> r.[o + x] = B x) /\
  (forall x, 0 <= x < o + j - 1 \/ o + j - 1 + Z.of_nat m < x -> r.[x] = ui.[x]).
Proof.
  intros Ho. revert j ui. induction m as [|m IH]; intros j ui Hj Hl Hop; cbn [urow_loop]; cbv zeta.
  - split_and!; [apply len_wr| |].
    + intros x Hx. replace (o + x) with (o + j - 1) by lia. rewrite rd_wr_eq by lia. f_equal. lia.
    + intros x Hx. apply rd_wr_ne. lia.
  - rewrite (Hop j) by lia. replace (B j) with (B (j + 1 - 1)) by (f_equal; lia).
    destruct (IH (j + 1) ui.[o + j - 1 <- B (j - 1)]) as (L & R1 & R2); [lia|rewrite len_wr; lia| |].
    { intros x Hx. destruct (decide (x = j + 1)) as [->|Hne].
      - rewrite !rd_wr_ne by lia. apply Hop. lia.
      - rewrite !rd_wr_ne by lia. apply Hop. lia. }
    split_and!; [by rewrite L, len_wr| |].
    + intros x Hx. destruct (decide (x = j - 1)) as [->|Hne]; [|apply R1; lia].
      rewrite R2 by lia. replace (o + (j - 1)) with (o + j - 1) by lia. by rewrite rd_wr_eq by lia.
    + intros x Hx. rewrite R2 by lia. apply rd_wr_ne. lia.
Qed.

Lemma holds_row_le u n m m' : holds_row u n m -> m' <= m -> holds_row u n m'.
Proof. intros [H1 H2] Hm. split; [lia|]. intros j Hj. apply H2. lia. Qed.

(** The recurrence at [Z] indices. *)
Lemma U_rec n x :
  1 <= x -> U (S n) (Z.to_nat x) = U n (Z.to_nat x) + U n (Z.to_nat (x - 1)) + U (S n) (Z.to_nat (x - 1)).
Proof.
  intros Hx. replace (Z.to_nat x) with (S (Z.to_nat (x - 1))) by lia. rewrite U_S. lia.
Qed.

Lemma unext_ok o u n m :
  o = 0 \/ o = 1 -> 1 <= m -> holds_row u (S n) m -> U (S (S n)) (Z.to_nat m) < 2 ^ 32 ->
  2 <= m + 1 - o -> holds_row (unext o u (m + 1 - o) o) (S (S n)) m.
Proof.
  intros Ho Hm [Hl Hu] Hb Hlen. unfold unext.
  destruct (urow_loop_spec (fun a b c => UADD32 (UADD32 a b) c)
    (fun x => U (S (S n)) (Z.to_nat (o + x))) (Z.to_nat (m + 1 - o - 1)) o 1 u) as (L & R1 & R2);
    [lia..| | ].
  { intros x Hx. rewrite !Hu by lia. rewrite (U_rec (S n) (o + x)) by lia.
    replace (o + (x - 1)) with (o + x - 1) by lia.
    pose proof (U_nonneg (S n) (Z.to_nat (o + x))). pose proof (U_nonneg (S n) (Z.to_nat (o + x - 1))).
    pose proof (U_nonneg (S (S n)) (Z.to_nat (o + x - 1))).
    pose proof (U_rec (S n) (o + x) ltac:(lia)) as HU.
    pose proof (U_mono (S n) (Z.to_nat (o + x)) (Z.to_nat m) ltac:(lia)).
    unfold UADD32. rewrite (u32_small (U (S n) (Z.to_nat (o + x)) + _)) by lia. apply u32_small. lia. }
  assert (U (S (S n)) (Z.to_nat (o + (1 - 1))) = o) as E.
  { destruct Ho as [-> | ->]; [done|]. change (Z.to_nat (1 + (1 - 1))) with 1%nat.
    by rewrite U_sym, U_1. }
  rewrite E in L, R1, R2. split; [lia|]. intros j Hj.
  destruct (decide (j < o)) as [Hjo|Hjo].
  - rewrite R2, Hu by lia. by replace j with 0 by lia.
  - replace j with (o + (j - o)) by lia. rewrite R1 by lia. done.
Qed.

Lemma uprev_ok u n m :
  1 <= m -> holds_row u (S (S n)) m -> U (S (S n)) (Z.to_nat m) < 2 ^ 32 ->
  holds_row (uprev u (m + 1) 0) (S n) m.
Proof.
  intros Hm [Hl Hu] Hb. unfold uprev.
  destruct (urow_loop_spec (fun a b c => USUB32 (USUB32 a b) c)
    (fun x => U (S n) (Z.to_nat x)) (Z.to_nat (m + 1 - 1)) 0 1 u) as (L & R1 & R2); [lia..| | ].
  { intros x Hx. replace (0 + x - 1) with (x - 1) by lia. replace (0 + x) with x by lia.
    rewrite !Hu by lia. pose proof (U_rec (S n) x ltac:(lia)) as HU.
    pose proof (U_nonneg (S n) (Z.to_nat x)). pose proof (U_nonneg (S n) (Z.to_nat (x - 1))).
    pose proof (U_nonneg (S (S n)) (Z.to_nat (x - 1))).
    pose proof (U_mono (S n) (Z.to_nat x) (Z.to_nat m) ltac:(lia)).
    unfold USUB32. rewrite (u32_small (U (S (S n)) (Z.to_nat x) - _)) by lia.
    rewrite u32_small by lia. lia. }
  change (U (S n) (Z.to_nat (1 - 1))) with 0 in *.
  split; [lia|]. intros j Hj. replace j with (0 + j) at 1 by lia. apply R1. lia.
Qed.

Lemma fill_odd_spec m k u :
  0 <= k -> k + Z.of_nat m <= len u -> k + Z.of_nat m < 2 ^ 30 -> 1 <= k ->
  let r := fill_odd m k u in
  len r = len u /\ (forall x, k <= x < k + Z.of_nat m -> r.[x] = 2 * x - 1) /\
  (forall x, 0 <= x < k -> r.[x] = u.[x]).
Proof.
  revert k u. induction m as [|m IH]; intros k u Hk Hl Hs H1; cbn [fill_odd]; cbv zeta.
  - split_and!; [done|lia|done].
  - destruct (IH (k + 1) u.[k <- u32 (Z.shiftl k 1 - 1)]) as (L & R1 & R2);
      [lia|rewrite len_wr; lia|lia..|].
    rewrite len_wr in L. split_and!; [done| |].
    + intros x Hx. destruct (decide (x = k)) as [->|]; [|apply R1; lia].
      rewrite R2, rd_wr_eq by lia. rewrite Z.shiftl_mul_pow2 by lia. rewrite u32_small by lia. lia.
    + intros x Hx. rewrite R2 by lia. apply rd_wr_ne. lia.
Qed.

Lemma U_2_Z x : 1 <= x -> U 2 (Z.to_nat x) = 2 * x - 1.
Proof. intros Hx. replace (Z.to_nat x) with (S (Z.to_nat (x - 1))) by lia. rewrite U_2. lia. Qed.

Section Small.
Context (n K : Z).
Hypothesis (Hn : 2 <= n) (HK : 1 <= K < 2 ^ 15) (HV : V (Z.to_nat n) (Z.to_nat K) < 2 ^ 32).

Lemma small_U m k : (1 <= m <= Z.to_nat n)%nat -> 0 <= k <= K + 1 -> U m (Z.to_nat k) < 2 ^ 32.
Proof.
  intros Hm Hk. unfold V in HV.
  pose proof (U_mono2 m (Z.to_nat n) (Z.to_nat k) (S (Z.to_nat K)) ltac:(lia) ltac:(lia) ltac:(lia)).
  pose proof (U_nonneg (Z.to_nat n) (Z.to_nat K)). lia.
Qed.

Lemma ncwrs_urow_ok u :
  len u = K + 2 -> (ncwrs_urow n K u).1 = V (Z.to_nat n) (Z.to_nat K) /\
  holds_row (ncwrs_urow n K u).2 (Z.to_nat n) (K + 1).
Proof.
  intros Hl. unfold ncwrs_urow. cbv zeta. cbn [fst snd].
  assert (forall m, (m <= Z.to_nat (n - 2))%nat ->
    holds_row (Nat.iter m (fun _u => unext 1 _u (K + 1) 1)
      (fill_odd (Z.to_nat (K + 2 - 2)) 2 u.[0 <- 0].[1 <- 1])) (S (S m)) (K + 1)) as Hrow.
  { induction m as [|m IH]; intros Hm.
    - destruct (fill_odd_spec (Z.to_nat (K + 2 - 2)) 2 u.[0 <- 0].[1 <- 1]) as (L & R1 & R2);
        rewrite ?len_wr; try lia.
      cbn [Nat.iter nat_rect]. split; [rewrite L, !len_wr; lia|]. intros j Hj.
      destruct (decide (j < 2)) as [Hj2|]; [|rewrite R1, U_2_Z by lia; done]. rewrite R2 by lia.
      destruct (decide (j = 0)) as [->|]; [rewrite rd_wr_ne, rd_wr_eq by lia; done|].
      replace j with 1 by lia. rewrite rd_wr_eq; [done|]. rewrite len_wr. lia.
    - rewrite Nat.iter_succ. specialize (IH ltac:(lia)).
      pose proof (unext_ok 1 _ (S m) (K + 1) ltac:(lia) ltac:(lia) IH) as Hx.
      replace (K + 1 + 1 - 1) with (K + 1) in Hx by lia. apply Hx; [|lia].
      apply small_U; lia. }
  specialize (Hrow (Z.to_nat (n - 2)) ltac:(lia)).
  replace (S (S (Z.to_nat (n - 2)))) with (Z.to_nat n) in Hrow by lia.
  split; [|exact Hrow]. destruct Hrow as [_ Hr]. rewrite !Hr by lia.
  replace (Z.to_nat (K + 1)) with (S (Z.to_nat K)) by lia. apply u32_small.
  pose proof (V_nonneg (Z.to_nat n) (Z.to_nat K)). unfold V in *. lia.
Qed.

Lemma small_find_ok m k i u :
  (1 <= m)%nat -> holds_row u m (Z.of_nat k) ->
  small_find k i u = (Z.of_nat (find_k m k i), U m (find_k m k i)).
Proof.
  intros Hm Hr. induction k as [|k IH].
  - cbn [small_find find_k]. destruct Hr as [_ Hr]. rewrite Hr by lia. done.
  - cbn [small_find find_k]. pose proof Hr as [_ Hr']. rewrite Hr' by lia.
    rewrite Nat2Z.id, Z.gtb_ltb.
    destruct (Z.ltb_spec i (U m (S k))), (Z.leb_spec (U m (S k)) i); try lia; [|done].
    apply IH. apply (holds_row_le _ _ _ _ Hr). lia.
Qed.

Lemma cwrsi_small_loop_ok m k i yy u :
  (m <= Z.to_nat n)%nat -> Z.of_nat k <= K -> 0 <= i < V m k -> holds_row u m (Z.of_nat k + 1) ->
  0 <= yy -> yy + Z.of_nat k * Z.of_nat k <= 2 ^ 30 ->
  cwrsi_small_loop m (Z.of_nat k) i yy u = (unrank m k i, yy + energy (unrank m k i)).
Proof.
  revert k i yy u. induction m as [|m IH]; intros k i yy u Hm HkK Hi Hu Hyy Hk2.
  { cbn. f_equal. lia. }
  cbn [cwrsi_small_loop]. cbv zeta. pose proof Hu as [_ Hu'].
  rewrite (Hu' (Z.of_nat k + 1)) by lia. replace (Z.to_nat (Z.of_nat k + 1)) with (S k) by lia.
  destruct (dim_facts m k i Hi) as (H1 & H2 & H3 & H4).
  pose proof (dim_val_left m k i Hi) as Hv.
  pose proof (small_U (S m) (Z.of_nat k + 1) ltac:(lia) ltac:(lia)) as HU.
  replace (Z.to_nat (Z.of_nat k + 1)) with (S k) in HU by lia.
  assert ((i >=? U (S m) (S k)) = dim_neg (S m) k i) as -> by (unfold dim_neg; apply Z.geb_leb).
  assert (u32 (i - Z.land (U (S m) (S k)) (- b2z (dim_neg (S m) k i))) = dim_rest (S m) k i) as ->.
  { rewrite mask_sign. unfold dim_rest in *. destruct (dim_neg (S m) k i);
      [apply u32_small; lia|]. rewrite Z.sub_0_r. apply u32_small. lia. }
  rewrite Nat2Z.id, (small_find_ok (S m)) by (lia || (apply (holds_row_le _ _ _ _ Hu); lia)).
  fold (dim_left (S m) k i). rewrite flip_sign.
  change (if dim_neg (S m) k i then _ else _) with (dim_val (S m) k i).
  fold (dim_out (S m) k i). rewrite (u32_small (dim_out _ _ _)).
  2:{ unfold dim_out in *. pose proof (U_nonneg (S m) (dim_left (S m) k i)). lia. }
  rewrite i16_small by lia. rewrite (mac_exact yy _ (Z.of_nat k)) by lia.
  rewrite (unrank_dim m). cbn [energy foldr].
  fold (energy (unrank m (dim_left (S m) k i) (dim_out (S m) k i))).
  pose proof (energy_split yy (dim_val (S m) k i) (Z.of_nat k) (Z.of_nat (dim_left (S m) k i)) ltac:(lia) Hv).
  destruct m as [|m].
  { cbn [cwrsi_small_loop unrank energy foldr]. f_equal. lia. }
  rewrite IH; [f_equal; lia|lia|lia|done| |nia|lia].
  pose proof (uprev_ok u m (Z.of_nat (dim_left (S (S m)) k i) + 1) ltac:(lia)) as Hp.
  replace (Z.of_nat (dim_left (S (S m)) k i) + 1 + 1) with (Z.of_nat (dim_left (S (S m)) k i) + 2) in Hp by lia.
  apply Hp; [apply (holds_row_le _ _ _ _ Hu); lia|]. apply small_U; lia.
Qed.

Lemma cwrsi_small_unrank i u :
  holds_row u (Z.to_nat n) (K + 1) -> 0 <= i < V (Z.to_nat n) (Z.to_nat K) ->
  cwrsi_small n K i u
  = (unrank (Z.to_nat n) (Z.to_nat K) i, energy (unrank (Z.to_nat n) (Z.to_nat K) i)).
Proof.
  intros Hu Hi. unfold cwrsi_small.
  pose proof (cwrsi_small_loop_ok (Z.to_nat n) (Z.to_nat K) i 0 u) as H.
  rewrite Z2Nat.id in H by lia. rewrite H by (done || nia). done.
Qed.

Section Encode.
Context (y : list Z).
Hypothesis (Hy : len y = n) (Hp : pulses y = K).

Lemma small_rank_bound j : (j < length y)%nat -> 0 <= rank (drop j y) < 2 ^ 32.
Proof.
  intros Hj. pose proof (rank_range (drop j y)) as Hr. pose proof (pulses_drop j y).
  pose proof (V_mono2 (length (drop j y)) (Z.to_nat n) (Z.to_nat (pulses (drop j y))) (Z.to_nat K)) as Hm.
  rewrite length_drop in *. unfold len in *. lia.
Qed.

(** One element of the loop. *)
Lemma icwrs_small_step j u :
  (j < length y)%nat -> holds_row u (length y - j) (K + 1) ->
  let i := u32 (rank (drop (S j) y) + u.[pulses (drop (S j) y)]) in
  let k := pulses (drop (S j) y) + Z.abs y.[Z.of_nat j] in
  (if y.[Z.of_nat j] <? 0 then u32 (i + u.[k + 1]) else i) = rank (drop j y) /\ k = pulses (drop j y).
Proof.
  intros Hj Hu. pose proof (small_rank_bound j Hj) as HB. cbv zeta.
  pose proof (pulses_drop j y) as Hpd. pose proof (pulses_nonneg (drop (S j) y)).
  pose proof (rank_range (drop (S j) y)) as Hr.
  assert (length (drop j y) = (length y - j)%nat) as Hlen by apply length_drop.
  rewrite (drop_cons_rd j y) in * by lia. cbn [rank pulses foldr length] in *.
  change (foldr (fun a k => Z.abs a + k) 0 (drop (S j) y)) with (pulses (drop (S j) y)) in *.
  set (a := rd y (Z.of_nat j)) in *. set (t := drop (S j) y) in *. rewrite Hlen in *.
  destruct Hu as [_ Hu]. rewrite (Hu (pulses t)) by lia.
  pose proof (U_nonneg (length y - j) (Z.to_nat (pulses t))).
  pose proof (U_nonneg (length y - j) (Z.to_nat (Z.abs a + pulses t) + 1)). split; [|lia].
  destruct (Z.ltb_spec a 0).
  - rewrite (Hu (pulses t + Z.abs a + 1)) by lia.
    replace (Z.to_nat (pulses t + Z.abs a + 1)) with (Z.to_nat (Z.abs a + pulses t) + 1)%nat by lia.
    rewrite (u32_small (rank t + _)) by lia. apply u32_small. lia.
  - rewrite u32_small; lia.
Qed.

Lemma icwrs_small_loop_ok j u :
  (j < length y)%nat -> (j + 2 <= length y)%nat -> holds_row u (length y - j) (K + 1) ->
  let r := icwrs_small_loop j K y (rank (drop j y)) (pulses (drop j y)) u in
  r.1 = (rank y, K) /\ holds_row r.2 (length y) (K + 1).
Proof.
  revert u. induction j as [|j IH]; intros u Hj Hj2 Hu.
  { cbn [icwrs_small_loop fst snd]. rewrite drop_0, Hp. rewrite Nat.sub_0_r in Hu. done. }
  cbn [icwrs_small_loop]. cbv zeta.
  assert (holds_row (unext 0 u (K + 2) 0) (length y - j) (K + 1)) as Hu1.
  { pose proof (unext_ok 0 u (length y - S j - 1) (K + 1) ltac:(lia) ltac:(lia)) as Hx.
    replace (K + 1 + 1 - 0) with (K + 2) in Hx by lia.
    replace (S (length y - S j - 1)) with (length y - S j)%nat in Hx by lia.
    replace (S (length y - S j)) with (length y - j)%nat in Hx by lia.
    apply Hx; [done| |lia]. unfold len in Hy. apply small_U; lia. }
  destruct (icwrs_small_step j _ ltac:(lia) Hu1) as [E1 E2]. cbv zeta in E1, E2. rewrite E1, E2.
  apply IH; [lia|lia|done].
Qed.

Lemma icwrs_small_rank u :
  len u = K + 2 -> icwrs_small n K y u = (rank y, V (Z.to_nat n) (Z.to_nat K)).
Proof.
  intros Hl. unfold icwrs_small. cbv zeta.
  destruct (fill_odd_spec (Z.to_nat (K + 1)) 1 u.[0 <- 0]) as (L & R1 & R2);
    rewrite ?len_wr; try lia.
  set (u1 := fill_odd _ 1 _) in *. unfold len in Hy.
  assert (holds_row u1 (length y - (length y - 2)) (K + 1)) as Hu1.
  { replace (length y - (length y - 2))%nat with 2%nat by lia. split; [rewrite L, len_wr; lia|].
    intros j Hj. destruct (decide (j = 0)) as [->|]; [|rewrite R1, U_2_Z by lia; done].
    rewrite R2, rd_wr_eq by lia. done. }
  assert (drop (S (length y - 2)) y = [y.[n - 1]]) as Hd.
  { rewrite (drop_cons_rd (S (length y - 2)) y) by lia. rewrite drop_ge by lia. do 2 f_equal. lia. }
  pose proof (icwrs_small_step (length y - 2) u1 ltac:(lia) Hu1) as Hs. cbv zeta in Hs.
  rewrite Hd, rank_single in Hs. cbn [pulses foldr] in Hs. rewrite Z.add_0_r in Hs.
  replace (Z.of_nat (length y - 2)) with (n - 2) in Hs by lia.
  unfold icwrs1. destruct Hs as [E1 E2]. rewrite E1, E2.
  replace (Z.to_nat (n - 2)) with (length y - 2)%nat by lia.
  destruct (icwrs_small_loop_ok (length y - 2) u1 ltac:(lia) ltac:(lia) Hu1) as [E3 Hr].
  destruct (icwrs_small_loop _ _ _ _ _ _) as [[i k] u2]. cbn [fst snd] in *.
  injection E3 as -> ->. f_equal. destruct Hr as [_ Hr]. rewrite !Hr by lia.
  replace (length y) with (Z.to_nat n) by lia.
  replace (Z.to_nat (K + 1)) with (S (Z.to_nat K)) by lia. apply u32_small.
  pose proof (V_nonneg (Z.to_nat n) (Z.to_nat K)). unfold V in *. lia.
Qed.
End Encode.
End Small.
