(* ===== verification/CwrsProps.v ===== *)
(** * What pulse vector coding guarantees

    Theorems about celt/cwrs.c: the table, the bijection between pulse vectors
    and indices, round trips through a packet, decoding of arbitrary data, and
    the equivalence of the two builds. *)

From S2P Require Import Prelude EntropyInterface CwrsTable Cwrs CwrsSmall.

(** ** Against the interface *)

Section Coder.
Context `{EntropyCoder E D}.
Context (custom : bool) (n K : Z).
Hypothesis (Hn : 2 <= n) (HK : 1 <= K) (Hf : pvq_fits custom n K = true).

Lemma pvq_v_bounds : 1 < CELT_PVQ_V custom n K < 2 ^ 32.
Proof.
  rewrite pvq_v by (done || lia). split; [|apply (fits_V custom); done || lia].
  pose proof (V_mono2 1 (Z.to_nat n) (Z.to_nat K) (Z.to_nat K) ltac:(lia) ltac:(lia) ltac:(lia)) as Hm.
  replace (Z.to_nat K) with (S (Z.to_nat (K - 1))) in Hm at 1 by lia. rewrite V_1 in Hm. lia.
Qed.

Lemma codes_pulses y :
  len y = n -> pulses y = K ->
  codes (encode_pulses custom y n K) (decode_pulses custom n K) (y, energy y).
Proof.
  intros Hy Hp. unfold encode_pulses, decode_pulses. rewrite icwrs_rank by (done || by rewrite Hp).
  pose proof pvq_v_bounds as Hv. pose proof (rank_range y) as Hr.
  assert (Z.to_nat n = length y) as Hlen by (unfold len in Hy; lia).
  rewrite <- Hlen, Hp, <- (pvq_v custom n K) in Hr by (done || lia).
  eapply codes_bind with (e2 := fun s => s); [apply codes_uint; done|].
  rewrite (pvq_v custom n K) in Hr by (done || lia).
  rewrite (cwrsi_unrank custom n K) by (done || lia).
  rewrite <- Hp, Hlen, unrank_rank. apply codes_ret.
Qed.

(** Between other parts of a packet. *)
Lemma codes_among {A B} y e1 (d1 : D -> A * D) x e3 (d3 : D -> B * D) z :
  len y = n -> pulses y = K -> codes e1 d1 x -> codes e3 d3 z ->
  codes (fun c => e3 (encode_pulses custom y n K (e1 c)))
    (fun d => let '(a, d) := d1 d in let '(v, d) := decode_pulses custom n K d in let '(b, d) := d3 d in ((a, v, b), d))
    (x, (y, energy y), z).
Proof.
  intros Hy Hp H1 H3. apply (codes_bind e1 (fun c => e3 (encode_pulses custom y n K c)) d1
    (fun a d => let '(v, d) := decode_pulses custom n K d in let '(b, d) := d3 d in ((a, v, b), d)) x); [done|].
  apply (codes_bind (encode_pulses custom y n K) e3 (decode_pulses custom n K)
    (fun v d => let '(b, d) := d3 d in ((x, v, b), d)) (y, energy y)); [by apply codes_pulses|].
  apply (codes_bind e3 (fun c => c) d3 (fun b d => ((x, (y, energy y), b), d)) z); [done|apply codes_ret].
Qed.

Lemma yields_pulses :
  yields dec_inv (decode_pulses custom n K)
    (fun r => len r.1 = n /\ pulses r.1 = K /\ r.2 = energy r.1).
Proof.
  unfold decode_pulses. eapply yields_bind; [apply yields_uint, pvq_v_bounds|].
  intros i Hi. cbv beta in Hi. apply yields_ret. rewrite (pvq_v custom n K) in Hi by (done || lia).
  rewrite (cwrsi_unrank custom n K) by (done || lia).
  destruct (unrank_spec _ _ _ Hi) as (L & P & _). cbn [fst snd]. unfold len. rewrite L, P. lia.
Qed.

Lemma small_encode_eq u0 y s :
  len u0 = K + 2 -> len y = n -> pulses y = K ->
  encode_pulses_small u0 y n K s = encode_pulses custom y n K s.
Proof.
  intros Hu Hy Hp. unfold encode_pulses_small, encode_pulses.
  pose proof (K0_small custom n K Hf).
  rewrite icwrs_small_rank by (done || lia || by apply (fits_V custom); done || lia).
  by rewrite icwrs_rank, pvq_v by (done || lia || by rewrite Hp).
Qed.

Lemma small_decode_eq u0 s :
  len u0 = K + 2 -> dec_inv s -> decode_pulses_small u0 n K s = decode_pulses custom n K s.
Proof.
  intros Hu Hs. unfold decode_pulses_small, decode_pulses.
  pose proof (K0_small custom n K Hf) as HKs.
  assert (V (Z.to_nat n) (Z.to_nat K) < 2 ^ 32) as HV by (apply (fits_V custom); done || lia).
  destruct (ncwrs_urow_ok n K Hn ltac:(lia) HV u0 Hu) as [Env Hr].
  destruct (ncwrs_urow n K u0) as [nc u]. cbn [fst snd] in *. subst nc.
  pose proof (yields_uint _ pvq_v_bounds s Hs) as [Hi _].
  rewrite (pvq_v custom n K) in * by (done || lia).
  destruct (ec_dec_uint _ s) as [i s']. cbn [fst] in Hi.
  by rewrite cwrsi_small_unrank, (cwrsi_unrank custom n K) by (done || lia).
Qed.
End Coder.

(** ** On the range coder *)

From S2P Require Import RangeCoder RangeSafe RangeRoundTrip RangeProps.

(** ** Theorems *)

(** A packet with other symbols before and after a pulse vector. *)
Definition encode_among custom pre y n K post (c : ec_ctx) : ec_ctx :=
  enc_symbols post (encode_pulses custom y n K (enc_symbols pre c)).
Definition decode_among custom pre n K post (d : ec_ctx) : (list Z * (list Z * Z) * list Z) * ec_ctx :=
  let '(before, d) := dec_symbols pre d in
  let '(v, d) := decode_pulses custom n K d in
  let '(after, d) := dec_symbols post d in
  ((before, v, after), d).

(** C10: a pulse vector coded with [encode_pulses] at its place in a packet, after any symbols [pre] and
    before any symbols [post], is decoded by [decode_pulses] to the same vector, with the sum of its squares,
    for every band shape the table supports; and the symbols around it decode to their values. *)
Theorem pvq_roundtrip custom pre y n K post b :
  2 <= n -> 1 <= K -> pvq_fits custom n K = true -> len y = n -> pulses y = K ->
  forallb sym_wf pre = true -> forallb sym_wf post = true ->
  packet_ok (encode_among custom pre y n K post) b = true ->
  (decode_among custom pre n K post
     (ec_dec_init (take (length b) (buf (packet (encode_among custom pre y n K post) b))) (len b))).1
  = (map sym_val pre, (y, energy y), map sym_val post).
Proof.
  intros Hn HK Hf Hy Hp Hpre Hpost Hok. apply packet_codes; [|done].
  exact (codes_among (E := ec_ctx) (D := ec_ctx) custom n K Hn HK Hf y _ _ _ _ _ _ Hy Hp (symbols_code pre Hpre) (symbols_code post Hpost)).
Qed.

(** C11: [icwrs] and [cwrsi] are inverse bijections between the vectors of
    dimension [n] with [K] pulses and the indices below V(n,K). *)
Theorem pvq_bijection custom n K :
  2 <= n -> 1 <= K -> pvq_fits custom n K = true ->
  (forall y, len y = n -> pulses y = K ->
     0 <= icwrs custom n y < CELT_PVQ_V custom n K /\
     cwrsi custom n K (icwrs custom n y) = (y, energy y)) /\
  (forall i, 0 <= i < CELT_PVQ_V custom n K ->
     len (cwrsi custom n K i).1 = n /\ pulses (cwrsi custom n K i).1 = K /\
     icwrs custom n (cwrsi custom n K i).1 = i).
Proof.
  intros Hn HK Hf. rewrite pvq_v by (done || lia). split.
  - intros y Hy Hp. pose proof (rank_range y) as Hr. rewrite icwrs_rank by (done || by rewrite Hp).
    assert (Z.to_nat n = length y) as Hlen by (unfold len in Hy; lia).
    rewrite <- Hlen, Hp in Hr. split; [done|]. rewrite cwrsi_unrank by (done || lia).
    by rewrite <- Hp, Hlen, unrank_rank.
  - intros i Hi. rewrite cwrsi_unrank by (done || lia). cbn [fst].
    destruct (unrank_spec _ _ _ Hi) as (L & P & R).
    assert (len (unrank (Z.to_nat n) (Z.to_nat K) i) = n) as HL by (unfold len; rewrite L; lia).
    assert (pulses (unrank (Z.to_nat n) (Z.to_nat K) i) = K) as HP by (rewrite P; lia).
    split_and!; [done..|]. rewrite icwrs_rank; [done..|by rewrite HP].
Qed.

(** Every entry of [CELT_PVQ_U_DATA] that a row pointer can reach, in the
    standard and in the custom-modes table, is the value of the recurrence
    U(n,k) = U(n-1,k) + U(n,k-1) + U(n-1,k-1). *)
Lemma pvq_table_correct custom r j :
  in_table custom r j = true -> CELT_PVQ_U_ROW custom r j = U (Z.to_nat r) (Z.to_nat j).
Proof. apply pvq_u_row. Qed.

(** The SMALL_FOOTPRINT build, which computes rows of U in a scratch array,
    writes the same code and decodes the same vector as the table build, from
    any decoder state. *)
Theorem pvq_small_footprint_equiv custom n K u0 :
  2 <= n -> 1 <= K -> pvq_fits custom n K = true -> len u0 = K + 2 ->
  (forall y (c : ec_ctx), len y = n -> pulses y = K ->
     encode_pulses_small u0 y n K c = encode_pulses custom y n K c) /\
  (forall d : ec_ctx, dec_ok d -> decode_pulses_small u0 n K d = decode_pulses custom n K d).
Proof.
  intros Hn HK Hf Hu. split.
  - intros y c Hy Hp. by apply small_encode_eq.
  - intros d Hd. by apply (small_decode_eq custom n K Hn HK Hf).
Qed.

(** On arbitrary data [decode_pulses] returns a vector of dimension [n]
    with exactly [K] pulses and the sum of its squares, and leaves the decoder
    in a valid state. *)
Lemma pvq_decode_safe custom n K d :
  2 <= n -> 1 <= K -> pvq_fits custom n K = true -> dec_ok d ->
  let r := decode_pulses custom n K d in
  len r.1.1 = n /\ pulses r.1.1 = K /\ r.1.2 = energy r.1.1 /\ dec_ok r.2.
Proof.
  intros Hn HK Hf Hd. pose proof (yields_pulses (E := ec_ctx) (D := ec_ctx) custom n K Hn HK Hf) as Hy.
  destruct (Hy d Hd) as ((H1 & H2 & H3) & H4).
  done.
Qed.

(** ** Witnesses *)

Definition demo_before : list ec_symbol := [SBitLogp true 3; SUint 1234 5000; SBits 5 3].
Definition demo_after : list ec_symbol := [SUint 7 9; SBits 2 2].

Lemma pvq_roundtrip_witness :
  (decode_among false demo_before 4 5 demo_after (ec_dec_init
     (take 12 (buf (packet (encode_among false demo_before [1; -3; 0; 1] 4 5 demo_after) (repeat 0 12)))) 12)).1
  = (map sym_val demo_before, ([1; -3; 0; 1], 11), map sym_val demo_after).
Proof.
  apply (pvq_roundtrip false demo_before [1; -3; 0; 1] 4 5 demo_after (repeat 0 12)); try lia; try reflexivity;
    vm_compute; reflexivity.
Defined.

Lemma pvq_bijection_witness : cwrsi true 6 3 (icwrs true 6 [0; 0; -2; 0; 1; 0]) = ([0; 0; -2; 0; 1; 0], 5).
Proof.
  apply (pvq_bijection true 6 3); try lia; try reflexivity; vm_compute; reflexivity.
Defined.

Lemma pvq_small_footprint_equiv_witness :
  encode_pulses_small (repeat 7 7) [1; -3; 0; 1] 4 5 (ec_enc_init (repeat 0 8) 8)
  = encode_pulses false [1; -3; 0; 1] 4 5 (ec_enc_init (repeat 0 8) 8).
Proof.
  apply (pvq_small_footprint_equiv false 4 5 (repeat 7 7)); try lia; try reflexivity;
    vm_compute; reflexivity.
Defined.
