(* ===== verification/Laplace.v ===== *)
(** * Laplace-distributed values (celt/laplace.c)

    [laplace_interval] and [laplace_find] are the parts of [ec_laplace_encode]
    and [ec_laplace_decode] that do not touch the coder: the interval of a value
    in a total of 32768, and the value and interval of a point.  They are shown
    to be inverse for every model whose decaying part leaves room for the tail
    ([laplace_ok]). *)

From S2P Require Import Prelude EntropyInterface.

Definition LAPLACE_LOG_MINP : Z := 0.
Definition LAPLACE_MINP : Z := Z.shiftl 1 LAPLACE_LOG_MINP.
Definition LAPLACE_NMIN : Z := 16.

Definition ec_laplace_get_freq1 (fs0 decay : Z) : Z :=
  let ft := u32 (32768 - LAPLACE_MINP * (2 * LAPLACE_NMIN) - fs0) in
  Z.shiftr (u32 (ft * (16384 - decay))) 15.

(** The [for] loop of the encoder: (fl, fs, i). *)
Fixpoint laplace_enc_loop (fuel : nat) (decay val fl fs i : Z) : Z * Z * Z :=
  match fuel with
  | O => (fl, fs, i)
  | S fuel =>
      if (fs >? 0) && (i <? val) then
        let fs := u32 (fs * 2) in
        let fl := u32 (fl + (fs + 2 * LAPLACE_MINP)) in
        let fs := Z.shiftr (u32 (fs * decay)) 15 in
        laplace_enc_loop fuel decay val fl fs (i + 1)
      else (fl, fs, i)
  end.

(** The frequency decreases in every round, so that it bounds their number. *)
Definition laplace_interval (value fs decay : Z) : Z * Z * Z :=
  if negb (value =? 0) then
    let s := - b2z (value <? 0) in
    let val := Z.lxor (value + s) s in
    let fl := fs in
    let fs := ec_laplace_get_freq1 fs decay in
    let '(fl, fs, i) := laplace_enc_loop (Z.to_nat fs) decay val fl fs 1 in
    if fs =? 0 then
      let ndi_max := Z.shiftr (32768 - fl + LAPLACE_MINP - 1) LAPLACE_LOG_MINP in
      let ndi_max := Z.shiftr (ndi_max - s) 1 in
      let di := Z.min (val - i) (ndi_max - 1) in
      let fl := u32 (fl + (2 * di + 1 + s) * LAPLACE_MINP) in
      let fs := Z.min LAPLACE_MINP (32768 - fl) in
      (Z.lxor (i + di + s) s, fl, fs)
    else
      let fs := fs + LAPLACE_MINP in
      (value, u32 (fl + Z.land fs (Z.lnot s)), fs)
  else (value, 0, fs).

(** The new [*value] and the coder. *)
Definition ec_laplace_encode `{EntropyCoder E D} (value fs decay : Z) (enc : E) : Z * E :=
  let '(value, fl, fs) := laplace_interval value fs decay in
  (value, ec_encode_bin fl (fl + fs) 15 enc).

(** The [while] loop of the decoder: (fl, fs, val). *)
Fixpoint laplace_dec_loop (fuel : nat) (decay fm fl fs val : Z) : Z * Z * Z :=
  match fuel with
  | O => (fl, fs, val)
  | S fuel =>
      if (fs >? LAPLACE_MINP) && (fm >=? u32 (fl + 2 * fs)) then
        let fs := u32 (fs * 2) in
        let fl := u32 (fl + fs) in
        let fs := Z.shiftr (u32 ((fs - 2 * LAPLACE_MINP) * decay)) 15 in
        let fs := fs + LAPLACE_MINP in
        laplace_dec_loop fuel decay fm fl fs (val + 1)
      else (fl, fs, val)
  end.

(** The value and the interval given to [ec_dec_update]. *)
Definition laplace_find (fs decay fm : Z) : Z * Z * Z :=
  let '(val, fl, fs) :=
    if fm >=? fs then
      let val := 1 in
      let fl := fs in
      let fs := ec_laplace_get_freq1 fs decay + LAPLACE_MINP in
      let '(fl, fs, val) := laplace_dec_loop (Z.to_nat fs) decay fm fl fs val in
      let '(fl, val) :=
        if fs <=? LAPLACE_MINP then
          let di := Z.shiftr (u32 (fm - fl)) (LAPLACE_LOG_MINP + 1) in
          (u32 (fl + 2 * di * LAPLACE_MINP), val + di)
        else (fl, val) in
      if fm <? u32 (fl + fs) then (- val, fl, fs) else (val, u32 (fl + fs), fs)
    else (0, 0, fs) in
  (val, fl, Z.min (fl + fs) 32768).

Definition ec_laplace_decode `{EntropyCoder E D} (fs decay : Z) (dec : D) : Z * D :=
  let '(fm, dec) := ec_decode_bin 15 dec in
  let '(val, fl, fh) := laplace_find fs decay fm in
  (val, ec_dec_update fl fh 32768 dec).

(** ** Models with room for the tail *)

(** Where the decaying part ends, starting from (fl, fs). *)
Fixpoint laplace_end (fuel : nat) (decay fl fs : Z) : Z :=
  match fuel with
  | O => fl
  | S fuel => if fs >? 0 then laplace_end fuel decay (fl + 2 * fs + 2) (fs * 2 * decay / 2 ^ 15) else fl
  end.

Definition laplace_ok (fs decay : Z) : bool :=
  (0 <? fs) && (fs <=? 32736) && (0 <=? decay) && (decay <? 16384) &&
  (laplace_end (Z.to_nat (ec_laplace_get_freq1 fs decay)) decay fs (ec_laplace_get_freq1 fs decay)
     <=? 32766).

Section Model.
Context (decay : Z).
Hypothesis Hdecay : 0 <= decay < 16384.

(** The next frequency is smaller. *)
Lemma decay_step f : 0 < f -> 0 <= f * 2 * decay / 2 ^ 15 < f.
Proof.
  intros Hf. split; [apply Z.div_pos; nia|]. apply Z.div_lt_upper_bound; nia.
Qed.

Lemma laplace_end_ge n fl f : 0 <= f -> fl <= laplace_end n decay fl f.
Proof.
  revert fl f. induction n as [|n IH]; intros fl f Hf; cbn [laplace_end]; [lia|].
  destruct (Z.gtb_spec f 0); [|lia]. pose proof (decay_step f ltac:(lia)).
  specialize (IH (fl + 2 * f + 2) (f * 2 * decay / 2 ^ 15) ltac:(lia)). lia.
Qed.

(** One round in exact arithmetic. *)
Lemma enc_round fl f :
  0 <= fl -> 0 < f -> fl + 2 * f + 2 <= 32768 ->
  u32 (fl + (u32 (f * 2) + 2 * LAPLACE_MINP)) = fl + 2 * f + 2 /\
  Z.shiftr (u32 (u32 (f * 2) * decay)) 15 = f * 2 * decay / 2 ^ 15.
Proof.
  intros Hfl Hf Hb. change LAPLACE_MINP with 1. rewrite !(u32_small (f * 2)) by lia.
  rewrite !u32_small by nia. rewrite Z.shiftr_div_pow2 by lia. split; lia.
Qed.

Lemma dec_round fl f :
  0 <= fl -> 0 < f -> fl + 2 * f + 2 <= 32768 ->
  u32 (fl + 2 * (f + 1)) = fl + 2 * f + 2 /\
  u32 (fl + u32 ((f + 1) * 2)) = fl + 2 * f + 2 /\
  Z.shiftr (u32 ((u32 ((f + 1) * 2) - 2 * LAPLACE_MINP) * decay)) 15 = f * 2 * decay / 2 ^ 15.
Proof.
  intros Hfl Hf Hb. change LAPLACE_MINP with 1. rewrite !(u32_small ((f + 1) * 2)) by lia.
  rewrite !u32_small by nia. rewrite Z.shiftr_div_pow2 by lia. split_and!; [lia..|]. f_equal. lia.
Qed.

(** What the encoder's search ends with, and that the decoder's search, for any
    point of the interval found, ends with the same. *)
Lemma loops_agree n val fl f i :
  (Z.to_nat f <= n)%nat -> 0 <= fl -> 0 <= f -> i <= val ->
  laplace_end n decay fl f <= 32766 ->
  exists fl' f' i',
    laplace_enc_loop n decay val fl f i = (fl', f', i') /\
    fl <= fl' /\ 0 <= f' /\ i <= i' <= val /\
    (f' = 0 -> fl' <= 32766) /\ (0 < f' -> i' = val /\ fl' + 2 * f' + 2 <= 32766) /\
    forall m fm, (n <= m)%nat -> fl' <= fm -> (0 < f' -> fm < fl' + 2 * (f' + 1)) ->
      laplace_dec_loop m decay fm fl (f + 1) i = (fl', f' + 1, i').
Proof.
  revert fl f i. induction n as [|n IH]; intros fl f i Hn Hfl Hf Hi Hend.
  - assert (f = 0) as -> by lia. cbn [laplace_enc_loop laplace_end] in *.
    exists fl, 0, i. split_and!; try done; try lia. intros m fm _ _ _. by destruct m.
  - cbn [laplace_enc_loop laplace_end] in *. destruct (Z.gtb_spec f 0) as [Hf0|Hf0].
    2:{ assert (f = 0) as -> by lia. cbn [andb]. exists fl, 0, i. split_and!; try done; try lia.
        intros m fm _ _ _. by destruct m. }
    pose proof (decay_step f ltac:(lia)) as Hd.
    pose proof (laplace_end_ge n (fl + 2 * f + 2) (f * 2 * decay / 2 ^ 15) ltac:(lia)) as Hge.
    destruct (dec_round fl f ltac:(lia) ltac:(lia) ltac:(lia)) as (D1 & D2 & D3).
    destruct (Z.ltb_spec i val) as [Hiv|Hiv]; cbn [andb].
    + destruct (enc_round fl f ltac:(lia) ltac:(lia) ltac:(lia)) as [-> ->].
      destruct (IH (fl + 2 * f + 2) (f * 2 * decay / 2 ^ 15) (i + 1)) as
        (fl' & f' & i' & E & G1 & G2 & G3 & G4 & G5 & G6); try lia.
      exists fl', f', i'. split_and!; try done; try lia.
      intros m fm Hm Hfm Hf'. destruct m as [|m]; [lia|]. cbn [laplace_dec_loop].
      rewrite D1, D2, D3. change LAPLACE_MINP with 1.
      destruct (Z.gtb_spec (f + 1) 1); [|lia]. destruct (Z.geb_spec fm (fl + 2 * f + 2)); [|lia].
      cbn [andb]. apply G6; [lia|done..].
    + exists fl, f, i. split_and!; try done; try lia.
      intros m fm Hm Hfm Hf'. destruct m as [|m]; [done|]. cbn [laplace_dec_loop]. rewrite D1.
      destruct (Z.geb_spec fm (fl + 2 * f + 2)); [lia|]. by rewrite andb_false_r.
Qed.

(** On any point the decoder's search ends where the point is in reach. *)
Lemma dec_loop_safe n m fm fl f v :
  (Z.to_nat f <= n)%nat -> (n <= m)%nat -> 0 <= fl <= fm -> 0 <= f ->
  laplace_end n decay fl f <= 32766 ->
  exists fl' f' v', laplace_dec_loop m decay fm fl (f + 1) v = (fl', f' + 1, v') /\
    0 <= fl' <= fm /\ 0 <= f' /\ fl' <= 32766 /\
    (0 < f' -> fm < fl' + 2 * (f' + 1) /\ fl' + 2 * f' + 2 <= 32766).
Proof.
  revert m fl f v. induction n as [|n IH]; intros m fl f v Hn Hm Hfl Hf Hend.
  - assert (f = 0) as -> by lia. exists fl, 0, v. cbn [laplace_end] in Hend.
    split_and!; try lia. by destruct m.
  - destruct m as [|m]; [lia|]. cbn [laplace_dec_loop laplace_end] in *.
    destruct (Z.gtb_spec f 0) as [Hf0|Hf0].
    2:{ assert (f = 0) as -> by lia. exists fl, 0, v. split_and!; try lia. done. }
    pose proof (decay_step f ltac:(lia)) as Hd.
    pose proof (laplace_end_ge n (fl + 2 * f + 2) (f * 2 * decay / 2 ^ 15) ltac:(lia)) as Hge.
    destruct (dec_round fl f ltac:(lia) ltac:(lia) ltac:(lia)) as (-> & -> & ->).
    change LAPLACE_MINP with 1. destruct (Z.gtb_spec (f + 1) 1); [|lia].
    destruct (Z.geb_spec fm (fl + 2 * f + 2)); cbn [andb].
    + apply IH; lia.
    + exists fl, f, v. split_and!; try lia; done.
Qed.
End Model.

Lemma freq1_bounds fs decay :
  0 < fs <= 32736 -> 0 <= decay < 16384 ->
  0 <= ec_laplace_get_freq1 fs decay /\ 2 * ec_laplace_get_freq1 fs decay <= 32736 - fs.
Proof.
  intros Hfs Hd. unfold ec_laplace_get_freq1. cbv zeta. change (LAPLACE_MINP * (2 * LAPLACE_NMIN)) with 32.
  rewrite (u32_small (32768 - 32 - fs)) by lia. rewrite u32_small by nia.
  rewrite Z.shiftr_div_pow2 by lia. split; [apply Z.div_pos; nia|].
  assert ((32768 - 32 - fs) * (16384 - decay) / 2 ^ 15 <= (32736 - fs) / 2); [|dlia].
  change (2 ^ 15) with (2 * 2 ^ 14). rewrite (Z.mul_comm 2), <- Z.div_div by lia.
  apply Z.div_le_mono; [lia|]. apply Z.div_le_upper_bound; nia.
Qed.

Lemma sign_abs value (b : bool) :
  b = (value <? 0) -> value <> 0 -> Z.lxor (value + - b2z b) (- b2z b) = Z.abs value.
Proof.
  intros -> H. destruct (Z.ltb_spec value 0); cbn [b2z]; change (- (1)) with (-1); change (- 0) with 0.
  - rewrite Z.lxor_m1_r. unfold Z.lnot. lia.
  - rewrite Z.lxor_0_r. lia.
Qed.

Lemma sign_back v (b : bool) : Z.lxor (v + - b2z b) (- b2z b) = if b then - v else v.
Proof.
  destruct b; cbn [b2z]; change (- (1)) with (-1); change (- 0) with 0.
  - rewrite Z.lxor_m1_r. unfold Z.lnot. lia.
  - rewrite Z.lxor_0_r. lia.
Qed.

(** The end of the decoder once its search has stopped in the tail, *)
Lemma find_tail fs decay fl i di (b : bool) :
  let f1 := ec_laplace_get_freq1 fs decay in
  let fm := fl + 2 * di + 1 - b2z b in
  0 < fs <= fl -> 0 <= di -> fm < 32768 ->
  laplace_dec_loop (Z.to_nat (f1 + 1)) decay fm fs (f1 + 1) 1 = (fl, 1, i) ->
  laplace_find fs decay fm = (if b then - (i + di) else i + di, fm, fm + 1).
Proof.
  intros f1 fm Hfl Hdi Hfm E. unfold laplace_find. pose proof (b2z_range b) as Hb. cbv zeta.
  destruct (Z.geb_spec fm fs); [|lia]. fold f1. change LAPLACE_MINP with 1. rewrite E.
  change (1 <=? 1) with true. cbv iota. change (LAPLACE_LOG_MINP + 1) with 1.
  rewrite Z.shiftr_div_pow2 by lia. change (2 ^ 1) with 2. rewrite (u32_small (fm - fl)) by lia.
  assert ((fm - fl) / 2 = di) as -> by (subst fm; destruct b; cbn [b2z]; dlia).
  rewrite !(u32_small (fl + _)) by lia. rewrite (u32_small (fl + 2 * di * 1 + _)) by lia.
  subst fm. destruct b; cbn [b2z] in *.
  - destruct (Z.ltb_spec (fl + 2 * di + 1 - 1) (fl + 2 * di * 1 + 1)); [|lia].
    rewrite Z.min_l by lia. repeat f_equal; lia.
  - destruct (Z.ltb_spec (fl + 2 * di + 1 - 0) (fl + 2 * di * 1 + 1)); [lia|].
    rewrite Z.min_l by lia. repeat f_equal; lia.
Qed.

(** and in the decaying part. *)
Lemma find_body fs decay fl f i (b : bool) fm :
  let f1 := ec_laplace_get_freq1 fs decay in
  let lo := if b then fl else fl + (f + 1) in
  0 < fs <= fl -> 0 < f -> fl + 2 * f + 2 <= 32768 -> lo <= fm < lo + (f + 1) ->
  laplace_dec_loop (Z.to_nat (f1 + 1)) decay fm fs (f1 + 1) 1 = (fl, f + 1, i) ->
  laplace_find fs decay fm = (if b then - i else i, lo, lo + (f + 1)).
Proof.
  intros f1 lo Hfl Hf Hb Hfm E. unfold laplace_find. cbv zeta.
  destruct (Z.geb_spec fm fs); [|subst lo; destruct b; lia]. fold f1.
  change LAPLACE_MINP with 1. rewrite E.
  destruct (Z.leb_spec (f + 1) 1); [lia|]. rewrite (u32_small (fl + (f + 1))) by lia.
  subst lo. destruct b.
  - destruct (Z.ltb_spec fm (fl + (f + 1))); [|lia]. rewrite Z.min_l by lia. done.
  - destruct (Z.ltb_spec fm (fl + (f + 1))); [lia|]. rewrite Z.min_l by lia. done.
Qed.

(** The number of values left in the tail bounds the step into it. *)
Lemma tail_step fl (b : bool) x :
  fl <= 32766 -> 0 <= x ->
  let di := Z.min x ((32768 - fl + 1 - 1 - - b2z b) / 2 - 1) in
  0 <= di <= x /\ fl + 2 * di + 1 - b2z b < 32768.
Proof. intros Hfl Hx. cbv zeta. destruct b; cbn [b2z]; dlia. Qed.

(** The interval of a value is inside the total, and the decoder maps each of
    its points back to the value and the interval. *)
Lemma laplace_find_interval fs decay value :
  laplace_ok fs decay = true ->
  let '(v, fl, w) := laplace_interval value fs decay in
  0 <= fl /\ 0 < w /\ fl + w <= 32768 /\
  forall fm, fl <= fm < fl + w -> laplace_find fs decay fm = (v, fl, fl + w).
Proof.
  unfold laplace_ok. rewrite !andb_true_iff, !Z.leb_le, !Z.ltb_lt. intros ((((H1 & H2) & H3) & H4) & H5).
  unfold laplace_interval. destruct (Z.eqb_spec value 0) as [->|Hv]; cbn [negb].
  { split_and!; try lia. intros fm Hfm. unfold laplace_find.
    destruct (Z.geb_spec fm fs); [lia|]. by rewrite Z.min_l by lia. }
  cbv zeta. destruct (freq1_bounds fs decay ltac:(lia) ltac:(lia)) as [Hf1 Hf2].
  rewrite sign_abs by done. pose proof (b2z_range (value <? 0)) as Hb.
  set (f1 := ec_laplace_get_freq1 fs decay) in *.
  destruct (loops_agree decay ltac:(lia) (Z.to_nat f1) (Z.abs value) fs f1 1)
    as (fl' & f' & i' & -> & G1 & G2 & G3 & G4 & G5 & G6); try lia.
  change LAPLACE_MINP with 1. destruct (Z.eqb_spec f' 0) as [->|Hf'].
  - specialize (G4 eq_refl). change LAPLACE_LOG_MINP with 0.
    rewrite Z.shiftr_0_r, Z.shiftr_div_pow2 by lia. change (2 ^ 1) with 2.
    pose proof (tail_step fl' (value <? 0) (Z.abs value - i') G4 ltac:(lia)) as Hdi. cbv zeta in Hdi.
    set (di := Z.min (Z.abs value - i') _) in *.
    rewrite (u32_small (fl' + _)) by lia. rewrite sign_back, Z.min_l by lia.
    replace (fl' + (2 * di + 1 + - b2z (value <? 0)) * 1) with (fl' + 2 * di + 1 - b2z (value <? 0)) by lia.
    split_and!; [lia..|]. intros fm Hfm. assert (fm = fl' + 2 * di + 1 - b2z (value <? 0)) as -> by lia.
    apply find_tail; try lia. apply G6; lia.
  - destruct (G5 ltac:(lia)) as [-> Hl].
    assert (u32 (fl' + Z.land (f' + 1) (Z.lnot (- b2z (value <? 0))))
            = if value <? 0 then fl' else fl' + (f' + 1)) as ->.
    { destruct (value <? 0); cbn [b2z].
      - change (Z.lnot (- (1))) with 0. rewrite Z.land_0_r, Z.add_0_r. apply u32_small. lia.
      - change (Z.lnot (- 0)) with (-1). rewrite Z.land_m1_r. apply u32_small. lia. }
    assert (value = if value <? 0 then - Z.abs value else Z.abs value) as Ev
      by (destruct (Z.ltb_spec value 0); lia).
    split_and!; [destruct (value <? 0); lia|lia|destruct (value <? 0); lia|].
    intros fm Hfm. rewrite Ev at 1. apply find_body; try lia.
    apply G6; destruct (value <? 0); lia.
Qed.

(** On any point the decoder gives an interval that holds it. *)
Lemma laplace_find_safe fs decay fm :
  laplace_ok fs decay = true -> 0 <= fm < 32768 ->
  0 <= (laplace_find fs decay fm).1.2 <= fm /\ fm < (laplace_find fs decay fm).2 <= 32768.
Proof.
  unfold laplace_ok. rewrite !andb_true_iff, !Z.leb_le, !Z.ltb_lt. intros ((((H1 & H2) & H3) & H4) & H5) Hfm.
  unfold laplace_find. destruct (Z.geb_spec fm fs); [|cbn [fst snd]; lia].
  cbv zeta. destruct (freq1_bounds fs decay ltac:(lia) ltac:(lia)) as [Hf1 Hf2].
  set (f1 := ec_laplace_get_freq1 fs decay) in *. change LAPLACE_MINP with 1.
  destruct (dec_loop_safe decay ltac:(lia) (Z.to_nat f1) (Z.to_nat (f1 + 1)) fm fs f1 1)
    as (fl' & f' & v' & -> & G1 & G2 & G3 & G4); try lia.
  destruct (Z.leb_spec (f' + 1) 1).
  - assert (f' = 0) as -> by lia. change (LAPLACE_LOG_MINP + 1) with 1.
    rewrite Z.shiftr_div_pow2, (u32_small (fm - fl')) by lia. change (2 ^ 1) with 2.
    set (di := (fm - fl') / 2). assert (2 * di <= fm - fl' <= 2 * di + 1) by (subst di; dlia).
    rewrite (u32_small (fl' + _)) by lia. rewrite (u32_small (fl' + 2 * di * 1 + _)) by lia.
    destruct (Z.ltb_spec fm (fl' + 2 * di * 1 + (0 + 1))); cbn [fst snd]; lia.
  - specialize (G4 ltac:(lia)). rewrite (u32_small (fl' + _)) by lia.
    destruct (Z.ltb_spec fm (fl' + (f' + 1))); cbn [fst snd]; lia.
Qed.

(** The value that is coded: the given one, or the nearest of its sign that the
    model can represent. *)
Definition laplace_value (value fs decay : Z) : Z := (laplace_interval value fs decay).1.1.

Section Coder.
Context `{EntropyCoder E D}.

Lemma codes_laplace value fs decay :
  laplace_ok fs decay = true ->
  codes (fun s => (ec_laplace_encode value fs decay s).2) (ec_laplace_decode fs decay)
    (laplace_value value fs decay).
Proof.
  intros Hok. pose proof (laplace_find_interval fs decay value Hok) as Hl.
  unfold laplace_value, ec_laplace_encode.
  destruct (laplace_interval value fs decay) as [[v fl] w]. destruct Hl as (L1 & L2 & L3 & L4).
  cbn [fst snd]. apply (codes_freq_bin fl (fl + w) 15 (laplace_find fs decay) v); try lia. done.
Qed.

Lemma yields_laplace fs decay :
  laplace_ok fs decay = true -> yields dec_inv (ec_laplace_decode fs decay) (fun _ => True).
Proof.
  intros Hok. apply (yields_freq_bin 15 (laplace_find fs decay)); [lia|].
  intros fm Hfm. split; [done|]. by apply laplace_find_safe.
Qed.
End Coder.

(** ** The variant with a sign symbol and an escape code *)

Definition p0_sign_icdf (p0 : Z) : list Z :=
  let s0 := u16 (32768 - p0) in [s0; s0 / 2; 0].

(** [icdf[i]] for [i = 1 ... 6], after [prev]. *)
Fixpoint p0_icdf_from (n : nat) (i prev decay : Z) : list Z :=
  match n with
  | O => [0]
  | S n =>
      let x := u16 (Z.max (7 - i) (Z.shiftr (prev * decay) 15)) in
      x :: p0_icdf_from n (i + 1) x decay
  end.
Definition p0_icdf (decay : Z) : list Z :=
  let x := u16 (Z.max 7 decay) in x :: p0_icdf_from 6 1 x decay.

Section P0.
Context `{EntropyCoder E D}.

(** The [do ... while (value >= 0)] loop: [value] loses 7 in each round. *)
Fixpoint p0_enc_loop (fuel : nat) (value : Z) (icdf : list Z) (enc : E) : E :=
  match fuel with
  | O => enc
  | S fuel =>
      let enc := ec_enc_icdf16 (Z.min value 7) icdf 15 enc in
      let value := value - 7 in
      if value >=? 0 then p0_enc_loop fuel value icdf enc else enc
  end.

Definition ec_laplace_encode_p0 (value p0 decay : Z) (enc : E) : E :=
  let s := if value =? 0 then 0 else if value >? 0 then 1 else 2 in
  let enc := ec_enc_icdf16 s (p0_sign_icdf p0) 15 enc in
  let value := Z.abs value in
  if negb (value =? 0) then
    let value := value - 1 in
    p0_enc_loop (Z.to_nat value + 1) value (p0_icdf decay) enc
  else enc.

(** The [do ... while (v == 7)] loop; [None] when it does not end in [fuel]
    rounds. *)
Fixpoint p0_dec_loop (fuel : nat) (value : Z) (icdf : list Z) (dec : D) : option Z * D :=
  match fuel with
  | O => (None, dec)
  | S fuel =>
      let '(v, dec) := ec_dec_icdf16 icdf 15 dec in
      let value := value + v in
      if v =? 7 then p0_dec_loop fuel value icdf dec else (Some value, dec)
  end.

Definition ec_laplace_decode_p0 (fuel : nat) (p0 decay : Z) (dec : D) : option Z * D :=
  let '(s, dec) := ec_dec_icdf16 (p0_sign_icdf p0) 15 dec in
  let s := if s =? 2 then -1 else s in
  if negb (s =? 0) then
    let '(value, dec) := p0_dec_loop fuel 1 (p0_icdf decay) dec in
    (value ≫= fun value => Some (s * value), dec)
  else (Some 0, dec).

(** *** The tables *)

Lemma u16_small x : 0 <= x < 2 ^ 16 -> u16 x = x.
Proof. intros Hx. unfold u16. by apply Z.mod_small. Qed.

Lemma p0_sign_codable p0 s :
  0 < p0 <= 32766 -> 0 <= s <= 2 ->
  icdf_valid (p0_sign_icdf p0) 15 = true /\ icdf_codable (p0_sign_icdf p0) 15 s = true.
Proof.
  intros Hp Hs. unfold p0_sign_icdf. rewrite u16_small by lia. cbv zeta.
  assert ((32768 - p0) / 2 < 32768 - p0 /\ 0 < (32768 - p0) / 2) as [H1 H2] by dlia.
  unfold icdf_valid, icdf_codable, icdf_upper, len. change (2 ^ 15) with 32768.
  cbn [nonincreasing length]. change (rd [32768 - p0; (32768 - p0) / 2; 0] (Z.of_nat 3 - 1)) with 0.
  change (Z.of_nat 3) with 3. revert H1 H2. generalize ((32768 - p0) / 2). intros h H1 H2.
  split; [rewrite !andb_true_iff; lia|].
  assert (s = 0 \/ s = 1 \/ s = 2) as [-> | [-> | ->]] by lia; (apply andb_true_iff; split; [done|]; apply Z.ltb_lt).
  - change (32768 - p0 < 32768). lia.
  - change (h < 32768 - p0). lia.
  - change (0 < h). lia.
Qed.

(** Strictly decreasing from [hi] down to the final 0. *)
Fixpoint decreasing (hi : Z) (l : list Z) : Prop :=
  match l with [] => True | x :: l => 0 <= x < hi /\ decreasing x l end.

Lemma p0_icdf_from_decreasing n i prev decay :
  0 <= decay < 32768 -> 7 - i < prev <= 32767 -> i + Z.of_nat n = 7 ->
  decreasing prev (p0_icdf_from n i prev decay).
Proof.
  intros Hd. revert i prev. induction n as [|n IH]; intros i prev Hp Hn; cbn [p0_icdf_from decreasing]; [lia|].
  cbv zeta. rewrite Z.shiftr_div_pow2 by lia.
  assert (0 <= prev * decay / 2 ^ 15 < prev).
  { split; [apply Z.div_pos; nia|]. apply Z.div_lt_upper_bound; nia. }
  rewrite u16_small by lia. split; [lia|]. apply IH; lia.
Qed.

Lemma decreasing_codable hi l k :
  decreasing hi l -> 0 <= k < len l -> l.[k] < (if k >? 0 then l.[k - 1] else hi).
Proof.
  revert hi k. induction l as [|x l IH]; intros hi k Hl Hk; unfold len in *; cbn [length decreasing] in *; [lia|].
  destruct Hl as [Hx Hl]. destruct (Z.gtb_spec k 0) as [Hk0|]; [|replace k with 0 by lia; change (x < hi); lia].
  specialize (IH x (k - 1) Hl ltac:(lia)).
  assert (forall j, 0 < j -> rd (x :: l) j = l.[j - 1]) as Hs.
  { intros j Hj. unfold rd. destruct (Z.ltb_spec j 0), (Z.ltb_spec (j - 1) 0); try lia.
    by replace (Z.to_nat j) with (S (Z.to_nat (j - 1))) by lia. }
  rewrite (Hs k) by lia. destruct (Z.gtb_spec (k - 1) 0) as [Hk1|Hk1].
  - rewrite Hs by lia. lia.
  - replace (k - 1) with 0 in * by lia. exact IH.
Qed.

Lemma decreasing_nonincreasing hi l : decreasing hi l -> nonincreasing hi l = true.
Proof.
  revert hi. induction l as [|x l IH]; intros hi Hl; [done|]. cbn [decreasing nonincreasing] in *.
  destruct Hl as [Hx Hl]. rewrite (IH x Hl), andb_true_r. lia.
Qed.

Lemma p0_icdf_codable decay k :
  0 <= decay < 32768 -> 0 <= k <= 7 ->
  icdf_valid (p0_icdf decay) 15 = true /\ icdf_codable (p0_icdf decay) 15 k = true.
Proof.
  intros Hd Hk. assert (decreasing (2 ^ 15) (p0_icdf decay)) as Hdec.
  { unfold p0_icdf. cbv zeta. rewrite u16_small by lia. cbn [decreasing].
    change (2 ^ 15) with 32768. split; [lia|]. apply p0_icdf_from_decreasing; lia. }
  assert (len (p0_icdf decay) = 8) as Hl by done.
  assert ((p0_icdf decay).[7] = 0) as H7 by done. split.
  - unfold icdf_valid. rewrite (decreasing_nonincreasing _ _ Hdec), Hl. change (8 - 1) with 7.
    by rewrite H7.
  - unfold icdf_codable, icdf_upper. pose proof (decreasing_codable _ _ k Hdec ltac:(lia)). rewrite Hl. lia.
Qed.

(** *** Round trip *)

Lemma codes_p0_loop decay n v acc fuel :
  0 <= decay < 32768 -> 0 <= v -> (Z.to_nat v < n)%nat -> (Z.to_nat v < fuel)%nat ->
  codes (p0_enc_loop n v (p0_icdf decay)) (p0_dec_loop fuel acc (p0_icdf decay)) (Some (acc + v)).
Proof.
  intros Hd. revert v acc fuel. induction n as [|n IH]; intros v acc fuel Hv Hn Hf; [lia|].
  destruct fuel as [|fuel]; [lia|]. cbn [p0_enc_loop p0_dec_loop]. cbv zeta.
  destruct (p0_icdf_codable decay (Z.min v 7) Hd ltac:(lia)) as [C1 C2].
  destruct (Z.geb_spec (v - 7) 0) as [H7|H7].
  - eapply codes_bind with (d2 := fun a s => if a =? 7 then p0_dec_loop fuel (acc + a) (p0_icdf decay) s else _);
      [by apply codes_icdf16|]. cbv beta. rewrite Z.min_r by lia. cbn [Z.eqb Pos.eqb].
    replace (Some (acc + v)) with (Some (acc + 7 + (v - 7))) by (f_equal; lia). apply IH; lia.
  - eapply (codes_bind (ec_enc_icdf16 (Z.min v 7) (p0_icdf decay) 15) (fun s => s) _
      (fun a s => if a =? 7 then p0_dec_loop fuel (acc + a) (p0_icdf decay) s else (Some (acc + a), s)));
      [by apply codes_icdf16|]. rewrite Z.min_l by lia.
    destruct (Z.eqb_spec v 7); [lia|]. apply codes_ret.
Qed.

Lemma codes_laplace_p0 value p0 decay fuel :
  0 < p0 <= 32766 -> 0 <= decay < 32768 -> (Z.to_nat (Z.abs value) < fuel)%nat ->
  codes (ec_laplace_encode_p0 value p0 decay) (ec_laplace_decode_p0 fuel p0 decay) (Some value).
Proof.
  intros Hp Hd Hf. unfold ec_laplace_encode_p0, ec_laplace_decode_p0. cbv zeta.
  set (s := if value =? 0 then 0 else if value >? 0 then 1 else 2).
  assert (0 <= s <= 2) as Hs by (subst s; repeat case_match; lia).
  destruct (p0_sign_codable p0 s Hp Hs) as [C1 C2].
  destruct (Z.eqb_spec (Z.abs value) 0) as [H0|H0]; cbn [negb].
  - eapply (codes_bind _ (fun s => s)); [by apply codes_icdf16|].
    assert (value = 0) as -> by lia. subst s. cbn. apply codes_ret.
  - eapply codes_bind; [by apply codes_icdf16|].
    assert (s = 1 /\ value > 0 \/ s = 2 /\ value < 0) as Hc.
    { subst s. destruct (Z.eqb_spec value 0), (Z.gtb_spec value 0); lia. }
    clearbody s. set (sg := if s =? 2 then -1 else s).
    assert (sg = 1 /\ value > 0 \/ sg = -1 /\ value < 0) as Hsg.
    { subst sg. destruct Hc as [[-> ?]|[-> ?]]; cbn; lia. }
    destruct (Z.eqb_spec sg 0); [lia|]. cbn [negb].
    eapply (codes_bind _ (fun s => s) _ (fun v s => (v ≫= fun v => Some (sg * v), s)));
      [apply codes_p0_loop; lia|]. cbn [mbind option_bind].
    replace (sg * (1 + (Z.abs value - 1))) with value by lia. apply codes_ret.
Qed.
End P0.
