(* ===== verification/FixedPoint.v ===== *)
(** * Fixed-point arithmetic (celt/fixed_generic.h, celt/arch.h)

    The macros of the FIXED_POINT build on [opus_val16] and [opus_val32].
    Values of signed C type are kept in their range; an addition or a
    multiplication that leaves it wraps around as the supported compilers do. *)

From S2P Require Import Prelude.

Definition DB_SHIFT : Z := 10.

Definition EXTEND32 (x : Z) : Z := i32 x.
Definition EXTRACT16 (x : Z) : Z := i16 x.
Definition SHR16 (a shift : Z) : Z := Z.shiftr a shift.
Definition SHL16 (a shift : Z) : Z := i16 (Z.shiftl (u16 a) shift).
Definition SHR32 (a shift : Z) : Z := Z.shiftr a shift.
Definition SHL32 (a shift : Z) : Z := i32 (Z.shiftl (u32 a) shift).
Definition PSHR32 (a shift : Z) : Z := SHR32 (i32 (a + Z.shiftr (Z.shiftl 1 shift) 1)) shift.
Definition ADD32 (a b : Z) : Z := i32 (a + b).
Definition SUB32 (a b : Z) : Z := i32 (a - b).
Definition SUB16 (a b : Z) : Z := i32 (i16 a - i16 b).
Definition MULT16_16 (a b : Z) : Z := i32 (i16 a * i16 b).
Definition MAX16 (a b : Z) : Z := if a >? b then a else b.
Definition MAX32 (a b : Z) : Z := if a >? b then a else b.
Definition MIN32 (a b : Z) : Z := if a <? b then a else b.
Definition MULT16_16_Q15 (a b : Z) : Z := SHR32 (MULT16_16 a b) 15.
Definition MULT16_32_Q15 (a b : Z) : Z := i32 (Z.shiftr (i16 a * b) 15).
Definition MULT16_32_Q16 (a b : Z) : Z := i32 (Z.shiftr (i16 a * b) 16).
Definition MULT32_32_Q31 (a b : Z) : Z := i32 (Z.shiftr (a * b) 31).
Definition MULT16_16_P15 (a b : Z) : Z := SHR32 (ADD32 16384 (MULT16_16 a b)) 15.
Definition ADD16 (a b : Z) : Z := i16 (i16 a + i16 b).
Definition VSHR32 (a shift : Z) : Z := if shift >? 0 then SHR32 a shift else SHL32 a (- shift).
Definition DIV32_16 (a b : Z) : Z := i16 (Z.quot a (i16 b)).
Definition HALF16 (x : Z) : Z := SHR16 x 1.
Definition HALF32 (x : Z) : Z := SHR32 x 1.
Definition MIN16 (a b : Z) : Z := if a <? b then a else b.
Definition ABS16 (x : Z) : Z := if x <? 0 then - x else x.
Definition Q15ONE : Z := 32767.
Definition EPSILON : Z := 1.

(** ** The macros where nothing overflows *)

Lemma MULT16_16_exact a b : - 2 ^ 15 < a < 2 ^ 15 -> - 2 ^ 15 <= b < 2 ^ 15 -> MULT16_16 a b = a * b.
Proof. intros Ha Hb. unfold MULT16_16. rewrite !i16_small by lia. apply i32_small. nia. Qed.

Lemma MULT16_16_Q15_exact a b :
  - 2 ^ 15 < a < 2 ^ 15 -> - 2 ^ 15 <= b < 2 ^ 15 -> MULT16_16_Q15 a b = a * b / 2 ^ 15.
Proof.
  intros Ha Hb. unfold MULT16_16_Q15, SHR32. by rewrite MULT16_16_exact, Z.shiftr_div_pow2 by done.
Qed.

Lemma MULT16_16_P15_exact a b :
  - 2 ^ 15 < a < 2 ^ 15 -> - 2 ^ 15 < b < 2 ^ 15 -> MULT16_16_P15 a b = (16384 + a * b) / 2 ^ 15.
Proof.
  intros Ha Hb. unfold MULT16_16_P15, SHR32, ADD32. rewrite MULT16_16_exact by lia.
  rewrite Z.shiftr_div_pow2 by done. f_equal. apply i32_small. nia.
Qed.

Lemma ADD16_exact a b :
  - 2 ^ 15 <= a < 2 ^ 15 -> - 2 ^ 15 <= b < 2 ^ 15 -> - 2 ^ 15 <= a + b < 2 ^ 15 -> ADD16 a b = a + b.
Proof. intros Ha Hb Hab. unfold ADD16. by rewrite (i16_small a), (i16_small b), i16_small by lia. Qed.

Lemma SUB16_exact a b : - 2 ^ 15 <= a < 2 ^ 15 -> - 2 ^ 15 <= b < 2 ^ 15 -> SUB16 a b = a - b.
Proof. intros Ha Hb. unfold SUB16. rewrite !i16_small by lia. apply i32_small. lia. Qed.
