(* ===== verification/MathOps.v ===== *)
(** * Integer and fixed-point functions (celt/mathops.c, celt/mathops.h)

    The exact integer square root that the angle decoder uses, and the
    approximations of the FIXED_POINT build: reciprocal, square root, reciprocal
    square root, cosine and arc tangent.  The band coder's theorems need the
    square root exactly, the reciprocal within a relative error of 1/256
    from above, and the range of the arc tangent. *)

From S2P Require Import Prelude RangeCoder EntCode FixedPoint.

(** ** Square root of an integer *)

(** The [do ... while(bshift>=0)] of [isqrt32]; the first round has
    [n = bshift], the last [n = 0]. *)
Fixpoint isqrt32_loop (n : nat) (g b _val : Z) : Z :=
  let t := u32 (Z.shiftl (u32 (u32 (Z.shiftl g 1) + b)) (Z.of_nat n)) in
  let '(g, _val) := if t <=? _val then (u32 (g + b), u32 (_val - t)) else (g, _val) in
  match n with
  | O => g
  | S n => isqrt32_loop n g (Z.shiftr b 1) _val
  end.

Definition isqrt32 (_val : Z) : Z :=
  let bshift := Z.shiftr (EC_ILOG _val - 1) 1 in
  isqrt32_loop (Z.to_nat bshift) 0 (Z.shiftl 1 bshift) _val.

(** ** Fixed-point functions *)

Definition FRAC_MUL16 (a b : Z) : Z := Z.shiftr (16384 + i16 a * i16 b) 15.

Definition celt_ilog2 (x : Z) : Z := i16 (EC_ILOG (u32 x) - 1).
Definition celt_zlog2 (x : Z) : Z := if x <=? 0 then 0 else celt_ilog2 x.

Definition celt_rsqrt_norm (x : Z) : Z :=
  let n := i16 (x - 32768) in
  let r := ADD16 23557 (MULT16_16_Q15 n (ADD16 (-13490) (MULT16_16_Q15 n 6713))) in
  let r2 := i16 (MULT16_16_Q15 r r) in
  let y := SHL16 (SUB16 (ADD16 (MULT16_16_Q15 r2 n) r2) 16384) 1 in
  ADD16 r (MULT16_16_Q15 r (MULT16_16_Q15 y (SUB16 (MULT16_16_Q15 y 12288) 16384))).

Definition celt_sqrt (x : Z) : Z :=
  if x =? 0 then 0
  else if x >=? 1073741824 then 32767
  else
    let k := Z.shiftr (celt_ilog2 x) 1 - 7 in
    let x := VSHR32 x (2 * k) in
    let n := i16 (x - 32768) in
    let rt := ADD16 23175 (MULT16_16_Q15 n (ADD16 11561 (MULT16_16_Q15 n (ADD16 (-3011)
                (MULT16_16_Q15 n (ADD16 1699 (MULT16_16_Q15 n (-664)))))))) in
    VSHR32 rt (7 - k).

Definition _celt_cos_pi_2 (x : Z) : Z :=
  let x2 := i16 (MULT16_16_P15 x x) in
  ADD16 1 (MIN16 32766 (ADD32 (SUB16 32767 x2)
    (MULT16_16_P15 x2 (ADD32 (-7651) (MULT16_16_P15 x2 (ADD32 8277 (MULT16_16_P15 (-626) x2))))))).

Definition celt_cos_norm (x : Z) : Z :=
  let x := Z.land x 131071 in
  let x := if x >? SHL32 (EXTEND32 1) 16 then SUB32 (SHL32 (EXTEND32 1) 17) x else x in
  if negb (Z.land x 32767 =? 0) then
    if x <? SHL32 (EXTEND32 1) 15 then _celt_cos_pi_2 (EXTRACT16 x)
    else i16 (- _celt_cos_pi_2 (EXTRACT16 (65536 - x)))
  else if negb (Z.land x 65535 =? 0) then 0
  else if negb (Z.land x 131071 =? 0) then -32767
  else 32767.

(** The Newton iteration of [celt_rcp] on the normalised argument [n]. *)
Definition rcp_norm (n : Z) : Z :=
  let r := ADD16 30840 (MULT16_16_Q15 (-15420) n) in
  let r := i16 (SUB16 r (MULT16_16_Q15 r (ADD16 (MULT16_16_Q15 r n) (ADD16 r (-32768))))) in
  i16 (SUB16 r (ADD16 1 (MULT16_16_Q15 r (ADD16 (MULT16_16_Q15 r n) (ADD16 r (-32768)))))).

Definition celt_rcp (x : Z) : Z :=
  let i := celt_ilog2 x in
  let n := i16 (VSHR32 x (i - 15) - 32768) in
  VSHR32 (EXTEND32 (rcp_norm n)) (i - 16).

Definition celt_div (a b : Z) : Z := MULT32_32_Q31 a (celt_rcp b).

(** Base-2 logarithm, Q14 in, Q10 out. *)
Definition celt_log2 (x : Z) : Z :=
  if x =? 0 then -32767
  else
    let i := celt_ilog2 x in
    let n := i16 (VSHR32 x (i - 15) - 32768 - 16384) in
    let frac := ADD16 (-6801 + 8) (MULT16_16_Q15 n (ADD16 15746 (MULT16_16_Q15 n
                  (ADD16 (-5217) (MULT16_16_Q15 n (ADD16 2545 (MULT16_16_Q15 n (-1401)))))))) in
    i16 (SHL16 (i - 13) DB_SHIFT + SHR16 frac (14 - DB_SHIFT)).

Definition celt_atan01 (x : Z) : Z :=
  i16 (MULT16_16_P15 x (ADD32 32767 (MULT16_16_P15 x (ADD32 (-21)
    (MULT16_16_P15 x (ADD32 (-11943) (MULT16_16_P15 4936 x))))))).

Definition celt_atan2p (y x : Z) : Z :=
  if y <? x then
    let arg := celt_div (SHL32 (EXTEND32 y) 15) x in
    let arg := if arg >=? 32767 then 32767 else arg in
    i16 (SHR16 (celt_atan01 (EXTRACT16 arg)) 1)
  else
    let arg := celt_div (SHL32 (EXTEND32 x) 15) y in
    let arg := if arg >=? 32767 then 32767 else arg in
    i16 (25736 - SHR16 (celt_atan01 (EXTRACT16 arg)) 1).

(** ** isqrt32 is the square root *)

Lemma isqrt32_loop_ok n : forall g v,
  0 <= g -> 0 <= v -> g + 2 * 2 ^ Z.of_nat n <= 2 ^ 16 ->
  g * g + v < (g + 2 * 2 ^ Z.of_nat n) * (g + 2 * 2 ^ Z.of_nat n) ->
  isqrt32_loop n g (2 ^ Z.of_nat n) v = Z.sqrt (g * g + v).
Proof.
  induction n as [|n IH]; intros g v Hg Hv Hb Hlt.
  - change (2 ^ Z.of_nat 0) with 1 in *. cbn [isqrt32_loop]. rewrite Z.shiftl_0_r.
    rewrite (Z.shiftl_mul_pow2 g 1) by lia. change (2 ^ 1) with 2.
    rewrite (u32_small (g * 2)), (u32_small (g * 2 + 1)), u32_small by lia.
    destruct (Z.leb_spec (g * 2 + 1) v).
    + rewrite u32_small by lia. apply eq_sym, Z.sqrt_unique. nia.
    + apply eq_sym, Z.sqrt_unique. nia.
  - cbn [isqrt32_loop]. set (p := 2 ^ Z.of_nat n) in *.
    assert (2 ^ Z.of_nat (S n) = 2 * p) as E by (rewrite Nat2Z.inj_succ, Z.pow_succ_r; [done|lia]).
    rewrite E in *. assert (0 < p) by (apply Z.pow_pos_nonneg; lia).
    rewrite (Z.shiftl_mul_pow2 g 1), (Z.shiftl_mul_pow2 _ (Z.of_nat (S n))), E by lia.
    change (2 ^ 1) with 2. rewrite (u32_small (g * 2)) by lia. rewrite (u32_small (g * 2 + 2 * p)) by lia.
    rewrite u32_small by nia.
    assert (Z.shiftr (2 * p) 1 = p) as -> by (rewrite Z.shiftr_div_pow2 by lia; change (2 ^ 1) with 2; dlia).
    destruct (Z.leb_spec ((g * 2 + 2 * p) * (2 * p)) v).
    + rewrite !u32_small by nia. rewrite IH by nia. f_equal. ring.
    + by apply IH; nia.
Qed.

Lemma isqrt32_sqrt v : 0 < v < 2 ^ 32 -> isqrt32 v = Z.sqrt v.
Proof.
  intros Hv. unfold isqrt32, EC_ILOG. rewrite ec_ilog_log2 by done.
  replace (Z.log2 v + 1 - 1) with (Z.log2 v) by lia. rewrite Z.shiftr_div_pow2 by lia. change (2 ^ 1) with 2.
  destruct (Z.log2_spec v ltac:(lia)) as [L1 L2]. pose proof (Z.log2_nonneg v).
  assert (Z.log2 v < 32) by (apply Z.log2_lt_pow2; lia).
  set (k := Z.log2 v / 2) in *. assert (0 <= k <= 15 /\ Z.log2 v < 2 * k + 2) by (subst k; dlia).
  assert (2 ^ Z.succ (Z.log2 v) <= (2 * 2 ^ k) * (2 * 2 ^ k)).
  { replace ((2 * 2 ^ k) * (2 * 2 ^ k)) with (2 ^ (2 * k + 2)).
    - apply Z.pow_le_mono_r; lia.
    - rewrite Z.pow_add_r, Z.mul_comm, <- (Z.add_diag k), Z.pow_add_r by lia. ring. }
  rewrite Z.shiftl_mul_pow2, Z.mul_1_l by lia. pose proof (Z.pow_pos_nonneg 2 k).
  assert (2 ^ k <= 2 ^ 15) by (apply Z.pow_le_mono_r; lia).
  pose proof (isqrt32_loop_ok (Z.to_nat k) 0 v) as H5. rewrite Z2Nat.id in H5 by lia.
  apply H5; [lia..|nia].
Qed.

(** ** celt_rcp errs by little from above *)

Lemma floor15 a : a - 32767 <= 2 ^ 15 * (a / 2 ^ 15) <= a.
Proof. change (2 ^ 15) with 32768. dlia. Qed.

(** One Newton step [r - r*((r*n)+(r-1))] in real arithmetic is at most the
    reciprocal; truncation adds at most 2. *)
Lemma newton_step r n :
  0 <= n < 2 ^ 15 -> 0 < r <= 2 ^ 15 ->
  let e := r * n / 2 ^ 15 + (r - 32768) in
  (r - r * e / 2 ^ 15) * (n + 2 ^ 15) <= 2 ^ 30 + 2 * (n + 2 ^ 15).
Proof.
  intros Hn Hr e. pose proof (floor15 (r * n)) as F1. pose proof (floor15 (r * e)) as F2. subst e.
  set (q := r * n / 2 ^ 15) in *. set (p := r * (q + (r - 32768)) / 2 ^ 15) in *. clearbody q p.
  change (2 ^ 15) with 32768 in *. change (2 ^ 30) with (32768 * 32768).
  assert (0 <= (r * (n + 32768) - 32768 * 32768) * (r * (n + 32768) - 32768 * 32768)) as Hsq by apply Z.square_nonneg.
  assert (32768 * (q + r - 32768) >= r * (n + 32768) - 32768 * 32768 - 32767) as H1 by nia.
  assert (32768 * 32768 * p >= r * (r * (n + 32768) - 32768 * 32768 - 32767) - 32767 * 32768) as H2 by nia.
  assert (32768 * 32768 * (r - p) <= 32768 * 32768 * r - r * (r * (n + 32768) - 32768 * 32768) + 2 * 32768 * 32768) as H3 by nia.
  assert (32768 * 32768 * ((r - p) * (n + 32768))
          <= (32768 * 32768 * r - r * (r * (n + 32768) - 32768 * 32768) + 2 * 32768 * 32768) * (n + 32768)) as H4 by nia.
  nia.
Qed.

Lemma rcp_norm_bound n :
  0 <= n < 2 ^ 15 ->
  0 < rcp_norm n < 2 ^ 15 /\ rcp_norm n * (n + 2 ^ 15) <= 2 ^ 30 + (n + 2 ^ 15).
Proof.
  intros Hn. unfold rcp_norm. cbv zeta. rewrite (MULT16_16_Q15_exact (-15420)) by lia.
  pose proof (floor15 (-15420 * n)) as F0. set (q0 := -15420 * n / 2 ^ 15) in *. clearbody q0.
  rewrite ADD16_exact by lia. set (r1 := 30840 + q0) in *.
  assert (15419 <= r1 <= 30840) as Hr1 by lia.
  rewrite (MULT16_16_Q15_exact r1 n) by lia.
  pose proof (floor15 (r1 * n)) as F1. pose proof (newton_step r1 n Hn ltac:(lia)) as N1. cbv zeta in N1.
  set (q1 := r1 * n / 2 ^ 15) in *. clearbody q1.
  rewrite (ADD16_exact r1) by lia. replace (r1 + -32768) with (r1 - 32768) by lia.
  assert (-1930 <= q1 + (r1 - 32768) <= 1928) as He1.
  { pose proof (Z.square_nonneg (n - 16384)). subst r1. nia. }
  rewrite (ADD16_exact q1) by lia. set (e1 := q1 + (r1 - 32768)) in *. clearbody e1.
  rewrite (MULT16_16_Q15_exact r1 e1) by lia. pose proof (floor15 (r1 * e1)) as F2.
  set (p1 := r1 * e1 / 2 ^ 15) in *. clearbody p1.
  assert (-1930 * 30840 <= r1 * e1 <= 1928 * 30840) as B1 by (clear - Hr1 He1; nia).
  assert (-1817 <= p1 <= 1815) as Hp1 by lia.
  rewrite (SUB16_exact r1 p1) by lia. rewrite (i16_small (r1 - p1)) by lia.
  set (r2 := r1 - p1) in *. assert (13000 <= r2 <= 32660) as Hr2 by lia. clearbody r2.
  rewrite (MULT16_16_Q15_exact r2 n) by lia.
  pose proof (floor15 (r2 * n)) as F3. pose proof (newton_step r2 n Hn ltac:(lia)) as N2. cbv zeta in N2.
  set (q2 := r2 * n / 2 ^ 15) in *. clearbody q2.
  rewrite (ADD16_exact r2) by lia. replace (r2 + -32768) with (r2 - 32768) by lia.
  assert (r2 - 32768 <= q2 + (r2 - 32768) <= 8) as He2 by (clear - N1 F3 Hr2 Hn; nia).
  rewrite (ADD16_exact q2) by lia. set (e2 := q2 + (r2 - 32768)) in *. clearbody e2.
  rewrite (MULT16_16_Q15_exact r2 e2) by lia. pose proof (floor15 (r2 * e2)) as F4.
  set (p2 := r2 * e2 / 2 ^ 15) in *. clearbody p2.
  assert (r2 - 32768 <= p2 <= 8) as Hp2 by (clear - F4 He2 Hr2; nia).
  rewrite (ADD16_exact 1), SUB16_exact by lia. rewrite i16_small by lia. lia.
Qed.

Lemma celt_ilog2_log2 x : 0 < x < 2 ^ 31 -> celt_ilog2 x = Z.log2 x /\ 0 <= Z.log2 x <= 30.
Proof.
  intros Hx. unfold celt_ilog2, EC_ILOG. rewrite u32_small, ec_ilog_log2 by lia.
  pose proof (Z.log2_nonneg x). assert (Z.log2 x < 31) by (apply Z.log2_lt_pow2; lia).
  rewrite i16_small by lia. lia.
Qed.

Lemma SHL32_exact a k : 0 <= a -> 0 <= k -> a * 2 ^ k < 2 ^ 31 -> SHL32 a k = a * 2 ^ k.
Proof.
  intros Ha Hk Hb. pose proof (Z.pow_pos_nonneg 2 k). unfold SHL32. rewrite u32_small by nia.
  rewrite Z.shiftl_mul_pow2 by done. apply i32_small. nia.
Qed.

(** [celt_rcp] is a reciprocal in Q31, too large by at most 3 parts in 2^15. *)
Lemma celt_rcp_bound x :
  0 < x < 2 ^ 31 -> 0 <= celt_rcp x < 2 ^ 31 /\ celt_rcp x * x <= 2 ^ 31 + 3 * 2 ^ 16.
Proof.
  intros Hx. unfold celt_rcp. destruct (celt_ilog2_log2 x Hx) as [-> Hi].
  destruct (Z.log2_spec x ltac:(lia)) as [L1 L2]. set (i := Z.log2 x) in *. clearbody i.
  assert (exists y, VSHR32 x (i - 15) = y /\ 2 ^ 15 <= y < 2 ^ 16 /\ x * 2 ^ 15 < (y + 1) * 2 ^ i) as (y & -> & Hy & Hxy).
  { unfold VSHR32, SHR32. pose proof (Z.pow_pos_nonneg 2 i ltac:(lia) ltac:(lia)) as Hpi.
    rewrite Z.pow_succ_r in L2 by lia. destruct (Z.gtb_spec (i - 15) 0).
    - rewrite Z.shiftr_div_pow2 by lia.
      assert (2 ^ i = 2 ^ (i - 15) * 2 ^ 15) as E by (rewrite <- Z.pow_add_r by lia; f_equal; lia).
      pose proof (Z.pow_pos_nonneg 2 (i - 15) ltac:(lia) ltac:(lia)). rewrite E in *.
      change (2 ^ 16) with (2 * 2 ^ 15). change (2 ^ 15) with 32768 in *.
      eexists; split; [done|]. set (d := 2 ^ (i - 15)) in *. clearbody d. dnia.
    - assert (2 ^ 15 = 2 ^ i * 2 ^ (- (i - 15))) as E by (rewrite <- Z.pow_add_r by lia; f_equal; lia).
      pose proof (Z.pow_pos_nonneg 2 (- (i - 15)) ltac:(lia) ltac:(lia)).
      change (2 ^ 16) with (2 * 2 ^ 15). set (d := 2 ^ (- (i - 15))) in *.
      rewrite SHL32_exact; [|lia..|fold d; nia]. fold d. clearbody d.
      exists (x * d). rewrite E. split; [done|]. nia. }
  rewrite i16_small by lia. destruct (rcp_norm_bound (y - 32768) ltac:(lia)) as [Hr HrN].
  set (r := rcp_norm (y - 32768)) in *. clearbody r. unfold EXTEND32. rewrite i32_small by lia.
  replace (y - 32768 + 2 ^ 15) with y in HrN by lia.
  assert (exists R, VSHR32 r (i - 16) = R /\ 0 <= R < 2 ^ 31 /\ R * 2 ^ i <= r * 2 ^ 16) as (R & -> & HR & HRi).
  { unfold VSHR32, SHR32. pose proof (Z.pow_pos_nonneg 2 i ltac:(lia) ltac:(lia)) as Hpi.
    destruct (Z.gtb_spec (i - 16) 0).
    - rewrite Z.shiftr_div_pow2 by lia.
      assert (2 ^ i = 2 ^ (i - 16) * 2 ^ 16) as E by (rewrite <- Z.pow_add_r by lia; f_equal; lia).
      pose proof (Z.pow_pos_nonneg 2 (i - 16) ltac:(lia) ltac:(lia)). rewrite E.
      eexists; split; [done|]. set (d := 2 ^ (i - 16)) in *. clearbody d. change (2 ^ 15) with 32768 in *.
      change (2 ^ 16) with 65536 in *. dnia.
    - assert (2 ^ 16 = 2 ^ i * 2 ^ (- (i - 16))) as E by (rewrite <- Z.pow_add_r by lia; f_equal; lia).
      pose proof (Z.pow_pos_nonneg 2 (- (i - 16)) ltac:(lia) ltac:(lia)).
      assert (2 ^ (- (i - 16)) <= 2 ^ 16) by (apply Z.pow_le_mono_r; lia). set (d := 2 ^ (- (i - 16))) in *.
      rewrite SHL32_exact; [|lia..|fold d; nia]. fold d. rewrite E. exists (r * d). split; [done|]. nia. }
  split; [done|]. pose proof (Z.pow_pos_nonneg 2 i ltac:(lia) ltac:(lia)) as Hpi.
  assert (R * x * 2 ^ 15 <= r * 2 ^ 16 * (y + 1)) as H1 by nia. lia.
Qed.

(** ** celt_sqrt stays in 16 bits *)

(** The polynomial on the normalised argument. *)
Lemma sqrt_poly_range n :
  - 16384 <= n < 2 ^ 15 ->
  16384 <= ADD16 23175 (MULT16_16_Q15 n (ADD16 11561 (MULT16_16_Q15 n (ADD16 (-3011)
    (MULT16_16_Q15 n (ADD16 1699 (MULT16_16_Q15 n (-664)))))))) <= 32767.
Proof.
  intros Hn. change (2 ^ 15) with 32768 in *.
  rewrite (MULT16_16_Q15_exact n (-664)) by lia. pose proof (floor15 (n * -664)) as F1. set (a := _ / _) in *. clearbody a.
  rewrite (ADD16_exact 1699) by lia. set (s := 1699 + a). assert (Hs : 1034 <= s <= 2031) by lia.
  rewrite (MULT16_16_Q15_exact n s) by lia. pose proof (floor15 (n * s)) as F2. set (b := _ / _) in *. clearbody b.
  change (2 ^ 15) with 32768 in *.
  assert (Hb : -1017 <= b <= 1035).
  { destruct (Z.leb_spec 0 n); [|nia]. assert (n * (1699 * 32768 - 664 * n) <= 1035 * 32768 * 32768) by nia. subst s. nia. }
  rewrite (ADD16_exact (-3011)) by lia. set (r := -3011 + b). assert (Hr : -4028 <= r <= -1976) by lia.
  rewrite (MULT16_16_Q15_exact n r) by lia. pose proof (floor15 (n * r)) as F3. set (c := _ / _) in *. clearbody c.
  change (2 ^ 15) with 32768 in *. clearbody s r. clear F1 F2 Hs Hb.
  assert (Hc : -4028 <= c <= 2014) by nia.
  rewrite (ADD16_exact 11561) by lia. set (q := 11561 + c). assert (Hq : 7533 <= q <= 13575) by lia.
  rewrite (MULT16_16_Q15_exact n q) by lia. pose proof (floor15 (n * q)) as F4. set (d := _ / _) in *. clearbody d.
  change (2 ^ 15) with 32768 in *.
  assert (Hd : -6788 <= d <= 9585).
  { destruct (Z.leb_spec 0 n); [|nia]. split; [nia|].
    assert (H1 : 32768 * q <= 11561 * 32768 - 1976 * n) by (subst q; nia).
    assert (H2 : n * (11561 * 32768 - 1976 * n) <= 9585 * 32768 * 32768) by nia. nia. }
  rewrite ADD16_exact by lia. lia.
Qed.

Lemma celt_sqrt_range x : 1 <= x < 2 ^ 31 -> 1 <= celt_sqrt x <= 32767.
Proof.
  intros Hx. unfold celt_sqrt. destruct (Z.eqb_spec x 0); [lia|]. destruct (Z.geb_spec x 1073741824) as [|Hb]; [lia|].
  cbv zeta. destruct (celt_ilog2_log2 x ltac:(lia)) as [-> Hi]. destruct (Z.log2_spec x ltac:(lia)) as [L1 L2].
  assert (Hi2 : Z.log2 x < 30) by (apply Z.log2_lt_pow2; lia). rewrite Z.shiftr_div_pow2 by lia. change (2 ^ 1) with 2.
  set (i := Z.log2 x) in *. clearbody i. set (h := i / 2). assert (Eh : i = 2 * h \/ i = 2 * h + 1) by (subst h; dlia).
  clearbody h. assert (Hy : 2 ^ 14 <= VSHR32 x (2 * (h - 7)) < 2 ^ 16).
  { assert (L3 : 2 ^ (2 * h) <= x < 2 ^ (2 * h + 2)).
    { split; [eapply Z.le_trans; [|exact L1]; apply Z.pow_le_mono_r; lia|].
      eapply Z.lt_le_trans; [exact L2|]. apply Z.pow_le_mono_r; lia. }
    rewrite (Z.pow_add_r 2 (2 * h) 2) in L3 by lia. unfold VSHR32, SHR32. destruct (Z.gtb_spec (2 * (h - 7)) 0).
    - rewrite Z.shiftr_div_pow2 by lia.
      replace (2 ^ (2 * h)) with (2 ^ 14 * 2 ^ (2 * (h - 7))) in L3 by (rewrite <- Z.pow_add_r by lia; f_equal; lia).
      pose proof (Z.pow_pos_nonneg 2 (2 * (h - 7)) ltac:(lia) ltac:(lia)).
      split; [apply Z.div_le_lower_bound; lia|apply Z.div_lt_upper_bound; lia].
    - assert (E : 2 ^ 14 = 2 ^ (2 * h) * 2 ^ (- (2 * (h - 7)))) by (rewrite <- Z.pow_add_r by lia; f_equal; lia).
      pose proof (Z.pow_pos_nonneg 2 (- (2 * (h - 7))) ltac:(lia) ltac:(lia)).
      change (2 ^ 16) with (4 * 2 ^ 14). rewrite SHL32_exact; [|lia..|]; nia. }
  set (y := VSHR32 _ _) in *. clearbody y. rewrite (i16_small (y - 32768)) by lia.
  pose proof (sqrt_poly_range (y - 32768) ltac:(lia)) as Hr. set (rt := ADD16 _ _) in *. clearbody rt.
  unfold VSHR32, SHR32. destruct (Z.gtb_spec (7 - (h - 7)) 0).
  - rewrite Z.shiftr_div_pow2 by lia. pose proof (Z.pow_pos_nonneg 2 (7 - (h - 7)) ltac:(lia) ltac:(lia)).
    assert (2 ^ (7 - (h - 7)) <= 2 ^ 14) by (apply Z.pow_le_mono_r; lia).
    split; [apply Z.div_le_lower_bound; lia|]. apply Z.lt_succ_r, Z.div_lt_upper_bound; nia.
  - replace (- (7 - (h - 7))) with 0 by lia. rewrite SHL32_exact; lia.
Qed.

(** ** The angle *)

Lemma celt_atan01_range x : 0 <= x < 2 ^ 15 -> 0 <= celt_atan01 x < 2 ^ 15.
Proof.
  intros Hx. unfold celt_atan01, ADD32. change (2 ^ 15) with 32768 in *.
  rewrite (MULT16_16_P15_exact 4936 x) by lia. pose proof (floor15 (16384 + 4936 * x)) as F1.
  set (a := (16384 + 4936 * x) / 2 ^ 15) in *. clearbody a. rewrite (i32_small (-11943 + a)) by lia.
  assert (-11943 <= -11943 + a <= -7007) as Ha by lia. set (b := -11943 + a) in *. clearbody b.
  rewrite (MULT16_16_P15_exact x b) by lia. pose proof (floor15 (16384 + x * b)) as F2.
  assert (-11943 * 32767 <= x * b <= 0) as B2 by (clear - Hx Ha; nia).
  set (c := (16384 + x * b) / 2 ^ 15) in *. clearbody c. rewrite (i32_small (-21 + c)) by lia.
  assert (-11964 <= -21 + c <= -20) as Hc by lia. set (d := -21 + c) in *. clearbody d.
  rewrite (MULT16_16_P15_exact x d) by lia. pose proof (floor15 (16384 + x * d)) as F3.
  assert (-11964 * 32767 <= x * d <= 0) as B3 by (clear - Hx Hc; nia).
  set (e := (16384 + x * d) / 2 ^ 15) in *. clearbody e. rewrite (i32_small (32767 + e)) by lia.
  assert (20000 <= 32767 + e <= 32767) as He by lia. set (f := 32767 + e) in *. clearbody f.
  rewrite (MULT16_16_P15_exact x f) by lia. pose proof (floor15 (16384 + x * f)) as F4.
  assert (0 <= x * f <= 32767 * 32767) as B4 by (clear - Hx He; nia).
  set (g := (16384 + x * f) / 2 ^ 15) in *. clearbody g. rewrite i16_small by lia. lia.
Qed.

(** The quotient of the smaller by the larger, clipped. *)
Lemma atan_arg_range y x :
  0 <= y <= x -> 0 < x < 2 ^ 15 ->
  0 <= EXTRACT16 (let arg := celt_div (SHL32 (EXTEND32 y) 15) x in if arg >=? 32767 then 32767 else arg) < 2 ^ 15.
Proof.
  intros Hy Hx. unfold EXTEND32. rewrite i32_small by lia. rewrite SHL32_exact by lia. unfold celt_div, MULT32_32_Q31.
  destruct (celt_rcp_bound x ltac:(lia)) as [HR HRx]. generalize dependent (celt_rcp x). intros R HR HRx.
  rewrite Z.shiftr_div_pow2 by lia.
  assert (0 <= y * 2 ^ 15 * R / 2 ^ 31 <= 32771) as Hq.
  { assert (0 <= y * R <= 2 ^ 31 + 3 * 2 ^ 16) as HyR by nia. split; [apply Z.div_pos; nia|].
    apply Z.lt_succ_r, Z.div_lt_upper_bound; lia. }
  generalize dependent (y * 2 ^ 15 * R / 2 ^ 31). intros q Hq. rewrite i32_small by lia. cbv zeta.
  unfold EXTRACT16. destruct (Z.geb_spec q 32767); rewrite i16_small by lia; lia.
Qed.

Lemma celt_atan2p_range y x :
  0 <= y < 2 ^ 15 -> 0 <= x < 2 ^ 15 -> 0 < y \/ 0 < x -> 0 <= celt_atan2p y x <= 25736.
Proof.
  intros Hy Hx Hp. unfold celt_atan2p, SHR16. destruct (Z.ltb_spec y x).
  - pose proof (atan_arg_range y x ltac:(lia) ltac:(lia)) as Ha. cbv zeta in *.
    set (a := EXTRACT16 _) in *. clearbody a. pose proof (celt_atan01_range a Ha).
    rewrite Z.shiftr_div_pow2 by lia. change (2 ^ 1) with 2. rewrite i16_small; dlia.
  - pose proof (atan_arg_range x y ltac:(lia) ltac:(lia)) as Ha. cbv zeta in *.
    set (a := EXTRACT16 _) in *. clearbody a. pose proof (celt_atan01_range a Ha).
    rewrite Z.shiftr_div_pow2 by lia. change (2 ^ 1) with 2. rewrite i16_small; dlia.
Qed.
