(* ===== verification/QuantBands.v ===== *)
(** * Band energies (celt/quant_bands.c, fixed-point build)

    The energy of each band is coded in three passes: coarse ([quant_coarse_energy_impl]),
    fine ([quant_fine_energy]) and the bits that are left ([quant_energy_finalise]).
    Encoder and decoder predict from the quantized energies [oldEBands], so the
    decoder must reproduce them exactly. *)

From S2P Require Import Prelude FixedPoint EntropyInterface Laplace.

(** ** Tables *)

Definition eMeans : list Z :=
  [103; 100; 92; 85; 81; 77; 72; 70; 78; 75; 73; 71; 78; 74; 69; 72; 70; 74; 76; 71;
   60; 60; 60; 60; 60].

Definition pred_coef : list Z := [29440; 26112; 21248; 16384].
Definition beta_coef : list Z := [30147; 22282; 12124; 6554].
Definition beta_intra : Z := 4915.

Definition e_prob_model : list (list (list Z)) :=
  [[[72; 127; 65; 129; 66; 128; 65; 128; 64; 128; 62; 128; 64; 128; 64; 128; 92; 78; 92; 79;
     92; 78; 90; 79; 116; 41; 115; 40; 114; 40; 132; 26; 132; 26; 145; 17; 161; 12; 176;
     10; 177; 11];
    [24; 179; 48; 138; 54; 135; 54; 132; 53; 134; 56; 133; 55; 132; 55; 132; 61; 114; 70;
     96; 74; 88; 75; 88; 87; 74; 89; 66; 91; 67; 100; 59; 108; 50; 120; 40; 122; 37; 97;
     43; 78; 50]];
   [[83; 78; 84; 81; 88; 75; 86; 74; 87; 71; 90; 73; 93; 74; 93; 74; 109; 40; 114; 36; 117;
     34; 117; 34; 143; 17; 145; 18; 146; 19; 162; 12; 165; 10; 178; 7; 189; 6; 190; 8;
     177; 9];
    [23; 178; 54; 115; 63; 102; 66; 98; 69; 99; 74; 89; 71; 91; 73; 91; 78; 89; 86; 80;
     92; 66; 93; 64; 102; 59; 103; 60; 104; 60; 117; 52; 123; 44; 138; 35; 133; 31; 97;
     38; 77; 45]];
   [[61; 90; 93; 60; 105; 42; 107; 41; 110; 45; 116; 38; 113; 38; 112; 38; 124; 26; 132; 27;
     136; 19; 140; 20; 155; 14; 159; 16; 158; 18; 170; 13; 177; 10; 187; 8; 192; 6; 175;
     9; 159; 10];
    [21; 178; 59; 110; 71; 86; 75; 85; 84; 83; 91; 66; 88; 73; 87; 72; 92; 75; 98; 72;
     105; 58; 107; 54; 115; 52; 114; 55; 112; 56; 129; 51; 132; 40; 150; 33; 140; 29; 98;
     35; 77; 42]];
   [[42; 121; 96; 66; 108; 43; 111; 40; 117; 44; 123; 32; 120; 36; 119; 33; 127; 33; 134; 34;
     139; 21; 147; 23; 152; 20; 158; 25; 154; 26; 166; 21; 173; 16; 184; 13; 184; 10; 150;
     13; 139; 15];
    [22; 178; 63; 114; 74; 82; 84; 83; 92; 82; 103; 62; 96; 72; 96; 67; 101; 73; 107; 72;
     113; 55; 118; 52; 125; 52; 118; 52; 117; 55; 135; 49; 137; 39; 157; 32; 145; 29; 97;
     33; 77; 40]]].

Definition small_energy_icdf : list Z := [2; 1; 0].
Definition MAX_FINE_BITS : Z := 8.

(** [e_prob_model[LM][intra]] *)
Definition prob_model_of (LM : nat) (intra : bool) : list Z :=
  nth (if intra then 1 else 0)%nat (nth LM e_prob_model []) [].

(** The iterations of [for (i=start;i<end;i++) { c=0; do ... while (++c < C); }] *)
Definition band_order (start end_ C : Z) : list (Z * Z) :=
  flat_map (fun i => map (fun c => (start + Z.of_nat i, Z.of_nat c)) (seq 0 (Z.to_nat C)))
    (seq 0 (Z.to_nat (end_ - start))).

(** ** Coarse energy *)

Definition coarse_coef (LM : nat) (intra : bool) : Z :=
  if intra then 0 else pred_coef.[Z.of_nat LM].
Definition coarse_beta (LM : nat) (intra : bool) : Z :=
  if intra then beta_intra else beta_coef.[Z.of_nat LM].

(** The update of [oldEBands[i+c*m->nbEBands]] and [prev[c]] after [qi], which
    encoder and decoder share: (new energy, new prev). *)
Definition coarse_update (coef beta oldE prev qi : Z) : Z * Z :=
  let q := SHL32 (EXTEND32 qi) DB_SHIFT in
  let tmp := i32 (i32 (PSHR32 (MULT16_16 coef oldE) 8 + prev) + SHL32 q 7) in
  let tmp := MAX32 (- 3670016) tmp in
  (i16 (PSHR32 tmp 7), i32 (i32 (prev + SHL32 q 7) - MULT16_16 beta (PSHR32 q 8))).

Record coarse_state := {
  cs_old : list Z;
  cs_error : list Z;
  cs_prev : list Z;
  cs_badness : Z
}.

Section Coarse.
Context `{EntropyCoder E D}.

(** The parameters of [quant_coarse_energy_impl] that do not change. *)
Record coarse_params := {
  cp_nbEBands : Z;
  cp_start : Z;
  cp_end : Z;
  cp_eBands : list Z;
  cp_budget : Z;
  cp_prob_model : list Z;
  cp_C : Z;
  cp_coef : Z;
  cp_beta : Z;
  cp_max_decay : Z;
  cp_lfe : bool
}.

(** [qi] before the bit budget is looked at, and [f]. *)
Definition coarse_qi (p : coarse_params) (x oldraw prev : Z) : Z * Z :=
  let oldE := MAX16 (-9216) oldraw in
  let f := i32 (i32 (SHL32 (EXTEND32 x) 7 - PSHR32 (MULT16_16 p.(cp_coef) oldE) 8) - prev) in
  let qi := Z.shiftr (i32 (f + 65536)) (DB_SHIFT + 7) in
  let decay_bound := EXTRACT16 (MAX32 (-28672) (SUB32 oldraw p.(cp_max_decay))) in
  let qi :=
    if (qi <? 0) && (x <? decay_bound) then
      let qi := qi + SHR16 (SUB16 decay_bound x) DB_SHIFT in
      if qi >? 0 then 0 else qi
    else qi in
  (f, qi).

(** Fitting [qi] into the bits that are left after [tell] and coding it: the
    value that is kept.  The code is [clamp = false]; with [clamp] the
    single-bit case would also keep [qi] above -2. *)
Definition coarse_code_at (clamp : bool) (p : coarse_params) (i qi tell : Z) (enc : E) : Z * E :=
  let bits_left := p.(cp_budget) - tell - 3 * p.(cp_C) * (p.(cp_end) - i) in
  let qi :=
    if negb (i =? p.(cp_start)) && (bits_left <? 30) then
      let qi := if bits_left <? 24 then Z.min 1 qi else qi in
      if bits_left <? 16 then Z.max (-1) qi else qi
    else qi in
  let qi := if p.(cp_lfe) && (i >=? 2) then Z.min qi 0 else qi in
  if p.(cp_budget) - tell >=? 15 then
    let pi := 2 * Z.min i 20 in
    ec_laplace_encode qi (Z.shiftl p.(cp_prob_model).[pi] 7) (Z.shiftl p.(cp_prob_model).[pi + 1] 6) enc
  else if p.(cp_budget) - tell >=? 2 then
    let qi := Z.max (-1) (Z.min qi 1) in
    (qi, ec_enc_icdf (Z.lxor (2 * qi) (- b2z (qi <? 0))) small_energy_icdf 2 enc)
  else if p.(cp_budget) - tell >=? 1 then
    let qi := Z.min 0 qi in
    let qi := if clamp then Z.max (-1) qi else qi in
    (qi, ec_enc_bit_logp (negb (- qi =? 0)) 1 enc)
  else (-1, enc).
Definition coarse_code (clamp : bool) (p : coarse_params) (i qi : Z) (enc : E) : Z * E :=
  coarse_code_at clamp p i qi (ec_tell_enc enc) enc.

(** The body of the loop for band [i] and channel [c]. *)
Definition coarse_enc_band (clamp : bool) (p : coarse_params) (i c : Z) (st : coarse_state) (enc : E)
    : coarse_state * E :=
  let k := i + c * p.(cp_nbEBands) in
  let x := p.(cp_eBands).[k] in
  let oldE := MAX16 (-9216) st.(cs_old).[k] in
  let '(f, qi) := coarse_qi p x st.(cs_old).[k] st.(cs_prev).[c] in
  let qi0 := qi in
  let '(qi, enc) := coarse_code clamp p i qi enc in
  let err := i16 (PSHR32 f 7 - SHL16 qi DB_SHIFT) in
  let '(e, pr) := coarse_update p.(cp_coef) p.(cp_beta) oldE st.(cs_prev).[c] qi in
  ({| cs_old := st.(cs_old).[k <- e]; cs_error := st.(cs_error).[k <- err];
      cs_prev := st.(cs_prev).[c <- pr]; cs_badness := st.(cs_badness) + Z.abs (qi0 - qi) |}, enc).

Fixpoint coarse_enc_bands (clamp : bool) (p : coarse_params) (l : list (Z * Z)) (st : coarse_state)
    (enc : E) : coarse_state * E :=
  match l with
  | [] => (st, enc)
  | (i, c) :: l => let '(st, enc) := coarse_enc_band clamp p i c st enc in coarse_enc_bands clamp p l st enc
  end.

(** The new energies and errors, the badness and the coder. *)
Definition quant_coarse_energy_impl (clamp : bool) (nbEBands start end_ : Z) (eBands oldEBands : list Z)
    (budget tell : Z) (prob_model error : list Z) (C : Z) (LM : nat) (intra : bool)
    (max_decay : Z) (lfe : bool) (enc : E) : coarse_state * E :=
  let enc := if tell + 3 <=? budget then ec_enc_bit_logp intra 3 enc else enc in
  let p := {| cp_nbEBands := nbEBands; cp_start := start; cp_end := end_; cp_eBands := eBands;
              cp_budget := budget; cp_prob_model := prob_model; cp_C := C;
              cp_coef := coarse_coef LM intra; cp_beta := coarse_beta LM intra;
              cp_max_decay := max_decay; cp_lfe := lfe |} in
  let st := {| cs_old := oldEBands; cs_error := error; cs_prev := [0; 0]; cs_badness := 0 |} in
  let '(st, enc) := coarse_enc_bands clamp p (band_order start end_ C) st enc in
  ({| cs_old := st.(cs_old); cs_error := st.(cs_error); cs_prev := st.(cs_prev);
      cs_badness := if lfe then 0 else st.(cs_badness) |}, enc).

(** *** Decoder *)

Definition coarse_decode_at (budget i : Z) (prob_model : list Z) (tell : Z) (dec : D) : Z * D :=
  if budget - tell >=? 15 then
    let pi := 2 * Z.min i 20 in
    ec_laplace_decode (Z.shiftl prob_model.[pi] 7) (Z.shiftl prob_model.[pi + 1] 6) dec
  else if budget - tell >=? 2 then
    let '(qi, dec) := ec_dec_icdf small_energy_icdf 2 dec in
    (Z.lxor (Z.shiftr qi 1) (- Z.land qi 1), dec)
  else if budget - tell >=? 1 then
    let '(b, dec) := ec_dec_bit_logp 1 dec in (- b2z b, dec)
  else (-1, dec).
Definition coarse_decode (budget i : Z) (prob_model : list Z) (dec : D) : Z * D :=
  coarse_decode_at budget i prob_model (ec_tell_dec dec) dec.

(** The energies and [prev]. *)
Definition coarse_dec_band (budget nbEBands : Z) (prob_model : list Z) (coef beta i c : Z)
    (st : list Z * list Z) (dec : D) : (list Z * list Z) * D :=
  let '(oldEBands, prev) := st in
  let k := i + c * nbEBands in
  let '(qi, dec) := coarse_decode budget i prob_model dec in
  let oldEBands := oldEBands.[k <- MAX16 (-9216) oldEBands.[k]] in
  let '(e, pr) := coarse_update coef beta oldEBands.[k] prev.[c] qi in
  ((oldEBands.[k <- e], prev.[c <- pr]), dec).

Fixpoint coarse_dec_bands (budget nbEBands : Z) (prob_model : list Z) (coef beta : Z)
    (l : list (Z * Z)) (st : list Z * list Z) (dec : D) : (list Z * list Z) * D :=
  match l with
  | [] => (st, dec)
  | (i, c) :: l =>
      let '(st, dec) := coarse_dec_band budget nbEBands prob_model coef beta i c st dec in
      coarse_dec_bands budget nbEBands prob_model coef beta l st dec
  end.

Definition unquant_coarse_at (budget nbEBands start end_ : Z) (oldEBands : list Z) (intra : bool)
    (C : Z) (LM : nat) (dec : D) : list Z * D :=
  let '((oldEBands, _), dec) :=
    coarse_dec_bands budget nbEBands (prob_model_of LM intra) (coarse_coef LM intra)
      (coarse_beta LM intra) (band_order start end_ C) (oldEBands, [0; 0]) dec in
  (oldEBands, dec).

Definition unquant_coarse_energy (nbEBands start end_ : Z) (oldEBands : list Z) (intra : bool)
    (C : Z) (LM : nat) (dec : D) : list Z * D :=
  unquant_coarse_at (ec_storage_dec dec * 8) nbEBands start end_ oldEBands intra C LM dec.
End Coarse.

(** ** Fine energy *)

(** The correction for the fine bits [q2], as both sides compute it. *)
Definition fine_offset (q2 fine_quant : Z) : Z :=
  i16 (SUB16 (SHR32 (i32 (SHL32 (EXTEND32 q2) DB_SHIFT + 512)) fine_quant) 512).

Definition final_offset (q2 fine_quant : Z) : Z :=
  i16 (SHR16 (SHL16 q2 DB_SHIFT - 512) (fine_quant + 1)).

Section Fine.
Context `{EntropyCoder E D}.

(** The energies and the errors. *)
Definition fine_enc_band (nbEBands : Z) (fine_quant : list Z) (i c : Z) (st : list Z * list Z)
    (enc : E) : (list Z * list Z) * E :=
  let '(oldEBands, error) := st in
  let fq := fine_quant.[i] in
  if fq <=? 0 then (st, enc)
  else
    let frac := i16 (Z.shiftl 1 fq) in
    let k := i + c * nbEBands in
    let q2 := Z.shiftr (error.[k] + 512) (DB_SHIFT - fq) in
    let q2 := if q2 >? frac - 1 then frac - 1 else q2 in
    let q2 := if q2 <? 0 then 0 else q2 in
    let enc := ec_enc_bits q2 fq enc in
    let offset := fine_offset q2 fq in
    ((oldEBands.[k <- i16 (oldEBands.[k] + offset)], error.[k <- i16 (error.[k] - offset)]), enc).

Fixpoint fine_enc_bands (nbEBands : Z) (fine_quant : list Z) (l : list (Z * Z)) (st : list Z * list Z)
    (enc : E) : (list Z * list Z) * E :=
  match l with
  | [] => (st, enc)
  | (i, c) :: l =>
      let '(st, enc) := fine_enc_band nbEBands fine_quant i c st enc in
      fine_enc_bands nbEBands fine_quant l st enc
  end.

Definition quant_fine_energy (nbEBands start end_ : Z) (oldEBands error fine_quant : list Z) (C : Z)
    (enc : E) : (list Z * list Z) * E :=
  fine_enc_bands nbEBands fine_quant (band_order start end_ C) (oldEBands, error) enc.

Definition fine_dec_band (nbEBands : Z) (fine_quant : list Z) (i c : Z) (oldEBands : list Z)
    (dec : D) : list Z * D :=
  let fq := fine_quant.[i] in
  if fq <=? 0 then (oldEBands, dec)
  else
    let k := i + c * nbEBands in
    let '(q2, dec) := ec_dec_bits fq dec in
    (oldEBands.[k <- i16 (oldEBands.[k] + fine_offset q2 fq)], dec).

Fixpoint fine_dec_bands (nbEBands : Z) (fine_quant : list Z) (l : list (Z * Z)) (oldEBands : list Z)
    (dec : D) : list Z * D :=
  match l with
  | [] => (oldEBands, dec)
  | (i, c) :: l =>
      let '(oldEBands, dec) := fine_dec_band nbEBands fine_quant i c oldEBands dec in
      fine_dec_bands nbEBands fine_quant l oldEBands dec
  end.

Definition unquant_fine_energy (nbEBands start end_ : Z) (oldEBands fine_quant : list Z) (C : Z)
    (dec : D) : list Z * D :=
  fine_dec_bands nbEBands fine_quant (band_order start end_ C) oldEBands dec.

(** The channels of one band in [quant_energy_finalise]. *)
Fixpoint final_enc_channels (n : nat) (nbEBands fq i c : Z) (st : list Z * list Z) (bits_left : Z)
    (enc : E) : (list Z * list Z * Z) * E :=
  match n with
  | O => ((st, bits_left), enc)
  | S n =>
      let '(oldEBands, error) := st in
      let k := i + c * nbEBands in
      let q2 := if error.[k] <? 0 then 0 else 1 in
      let enc := ec_enc_bits q2 1 enc in
      let offset := final_offset q2 fq in
      final_enc_channels n nbEBands fq i (c + 1)
        (oldEBands.[k <- i16 (oldEBands.[k] + offset)], error.[k <- i16 (error.[k] - offset)])
        (bits_left - 1) enc
  end.

(** [for (i=start;i<end && bits_left>=C;i++)]: [n] bands from [i]. *)
Fixpoint final_enc_bands (n : nat) (nbEBands : Z) (fine_quant fine_priority : list Z) (prio C i : Z)
    (st : list Z * list Z) (bits_left : Z) (enc : E) : (list Z * list Z * Z) * E :=
  match n with
  | O => ((st, bits_left), enc)
  | S n =>
      if bits_left >=? C then
        let '((st, bits_left), enc) :=
          if (fine_quant.[i] >=? MAX_FINE_BITS) || negb (fine_priority.[i] =? prio) then
            ((st, bits_left), enc)
          else final_enc_channels (Z.to_nat C) nbEBands fine_quant.[i] i 0 st bits_left enc in
        final_enc_bands n nbEBands fine_quant fine_priority prio C (i + 1) st bits_left enc
      else ((st, bits_left), enc)
  end.

Definition quant_energy_finalise (nbEBands start end_ : Z) (oldEBands error fine_quant fine_priority : list Z)
    (bits_left C : Z) (enc : E) : (list Z * list Z * Z) * E :=
  let n := Z.to_nat (end_ - start) in
  let '((st, bits_left), enc) :=
    final_enc_bands n nbEBands fine_quant fine_priority 0 C start (oldEBands, error) bits_left enc in
  final_enc_bands n nbEBands fine_quant fine_priority 1 C start st bits_left enc.

Fixpoint final_dec_channels (n : nat) (nbEBands fq i c : Z) (oldEBands : list Z) (bits_left : Z)
    (dec : D) : (list Z * Z) * D :=
  match n with
  | O => ((oldEBands, bits_left), dec)
  | S n =>
      let k := i + c * nbEBands in
      let '(q2, dec) := ec_dec_bits 1 dec in
      final_dec_channels n nbEBands fq i (c + 1)
        oldEBands.[k <- i16 (oldEBands.[k] + final_offset q2 fq)] (bits_left - 1) dec
  end.

Fixpoint final_dec_bands (n : nat) (nbEBands : Z) (fine_quant fine_priority : list Z) (prio C i : Z)
    (oldEBands : list Z) (bits_left : Z) (dec : D) : (list Z * Z) * D :=
  match n with
  | O => ((oldEBands, bits_left), dec)
  | S n =>
      if bits_left >=? C then
        let '((oldEBands, bits_left), dec) :=
          if (fine_quant.[i] >=? MAX_FINE_BITS) || negb (fine_priority.[i] =? prio) then
            ((oldEBands, bits_left), dec)
          else final_dec_channels (Z.to_nat C) nbEBands fine_quant.[i] i 0 oldEBands bits_left dec in
        final_dec_bands n nbEBands fine_quant fine_priority prio C (i + 1) oldEBands bits_left dec
      else ((oldEBands, bits_left), dec)
  end.

Definition unquant_energy_finalise (nbEBands start end_ : Z) (oldEBands fine_quant fine_priority : list Z)
    (bits_left C : Z) (dec : D) : (list Z * Z) * D :=
  let n := Z.to_nat (end_ - start) in
  let '((oldEBands, bits_left), dec) :=
    final_dec_bands n nbEBands fine_quant fine_priority 0 C start oldEBands bits_left dec in
  final_dec_bands n nbEBands fine_quant fine_priority 1 C start oldEBands bits_left dec.
End Fine.

(** ** The probability models *)

Lemma prob_models_ok LM intra i :
  (LM < 4)%nat -> 0 <= i ->
  let pi := 2 * Z.min i 20 in
  laplace_ok (Z.shiftl (prob_model_of LM intra).[pi] 7) (Z.shiftl (prob_model_of LM intra).[pi + 1] 6) = true.
Proof.
  intros HLM Hi. cbv zeta.
  assert (forallb (fun LM => forallb (fun intra => forallb (fun k =>
    laplace_ok (Z.shiftl (prob_model_of LM intra).[2 * Z.of_nat k] 7)
      (Z.shiftl (prob_model_of LM intra).[2 * Z.of_nat k + 1] 6)) (seq 0 21)) [true; false]) (seq 0 4) = true) as H
    by (vm_compute; reflexivity).
  rewrite forallb_forall in H. specialize (H LM ltac:(apply in_seq; lia)).
  rewrite forallb_forall in H. specialize (H intra ltac:(destruct intra; simpl; tauto)).
  rewrite forallb_forall in H. specialize (H (Z.to_nat (Z.min i 20)) ltac:(apply in_seq; lia)).
  by rewrite Z2Nat.id in H by lia.
Qed.

Lemma small_energy_codable s : 0 <= s <= 2 ->
  icdf_valid small_energy_icdf 2 = true /\ icdf_codable small_energy_icdf 2 s = true.
Proof. intros Hs. assert (s = 0 \/ s = 1 \/ s = 2) as [-> | [-> | ->]] by lia; done. Qed.

(** ** Encoder and decoder stay in step *)

Section Sync.
Context `{EntropyCoder E D}.

(** The models used for every band are usable. *)
Definition models_ok (prob_model : list Z) : Prop :=
  forall i, 0 <= i -> laplace_ok (Z.shiftl prob_model.[2 * Z.min i 20] 7)
                        (Z.shiftl prob_model.[2 * Z.min i 20 + 1] 6) = true.

Lemma sync_laplace qi fs decay :
  laplace_ok fs decay = true -> sync (ec_laplace_encode qi fs decay) (ec_laplace_decode fs decay).
Proof.
  intros Hok. eapply sync_ext; [|done|exact (codes_laplace qi fs decay Hok)].
  intros s. unfold laplace_value, ec_laplace_encode.
  by destruct (laplace_interval qi fs decay) as [[v fl] w].
Qed.

Lemma small_energy_map qi :
  -1 <= qi <= 1 ->
  0 <= Z.lxor (2 * qi) (- b2z (qi <? 0)) <= 2 /\
  let s := Z.lxor (2 * qi) (- b2z (qi <? 0)) in Z.lxor (Z.shiftr s 1) (- Z.land s 1) = qi.
Proof. intros Hq. assert (qi = -1 \/ qi = 0 \/ qi = 1) as [-> | [-> | ->]] by lia; vm_compute; split; done. Qed.

Lemma sync_coarse_code p i qi :
  0 <= i -> models_ok p.(cp_prob_model) ->
  sync (coarse_code true p i qi) (coarse_decode p.(cp_budget) i p.(cp_prob_model)).
Proof.
  intros Hi Hm. apply (sync_with_tell (coarse_code_at true p i qi) (coarse_decode_at p.(cp_budget) i p.(cp_prob_model))).
  intros tell. unfold coarse_code_at, coarse_decode_at. cbv zeta.
  set (qi1 := if _ && _ then _ else qi). set (qi2 := if _ && _ then _ else qi1). clearbody qi2. clear qi1.
  destruct (_ >=? 15); [by apply sync_laplace, Hm|].
  destruct (_ >=? 2).
  { destruct (small_energy_map (Z.max (-1) (Z.min qi2 1)) ltac:(lia)) as [M1 M2].
    destruct (small_energy_codable _ M1) as [C1 C2]. cbv zeta in M2.
    eapply (codes_bind _ (fun s => s)); [by apply codes_icdf|]. rewrite M2. apply codes_ret. }
  destruct (_ >=? 1); [|apply sync_ret].
  eapply (codes_bind _ (fun s => s)); [by apply codes_bit_logp|]. cbv beta.
  assert (- b2z (negb (- Z.max (-1) (Z.min 0 qi2) =? 0)) = Z.max (-1) (Z.min 0 qi2)) as ->.
  { destruct (Z.eqb_spec (- Z.max (-1) (Z.min 0 qi2)) 0); cbn [negb b2z]; lia. }
  apply codes_ret.
Qed.

(** What the two sides have in common. *)
Definition shared (st : coarse_state) : list Z * list Z := (st.(cs_old), st.(cs_prev)).

Lemma wr_wr (l : list Z) k v w : l.[k <- v].[k <- w] = l.[k <- w].
Proof. unfold wr. destruct (k <? 0); [done|]. apply list_insert_insert_eq. Qed.

Lemma sync_coarse_band p i c st :
  0 <= i -> models_ok p.(cp_prob_model) -> 0 <= i + c * p.(cp_nbEBands) < len st.(cs_old) ->
  sync (fun enc => let '(st, enc) := coarse_enc_band true p i c st enc in (shared st, enc))
    (coarse_dec_band p.(cp_budget) p.(cp_nbEBands) p.(cp_prob_model) p.(cp_coef) p.(cp_beta) i c (shared st)).
Proof.
  intros Hi Hm Hk. unfold coarse_enc_band, coarse_dec_band, shared. cbv zeta.
  set (k := i + c * cp_nbEBands p) in *.
  destruct (coarse_qi p _ _ _) as [f qi].
  eapply sync_ext; [| |eapply (sync_bind (coarse_code true p i qi)
    (fun qi enc => ((st.(cs_old).[k <- (coarse_update p.(cp_coef) p.(cp_beta) (MAX16 (-9216) st.(cs_old).[k]) st.(cs_prev).[c] qi).1],
                     st.(cs_prev).[c <- (coarse_update p.(cp_coef) p.(cp_beta) (MAX16 (-9216) st.(cs_old).[k]) st.(cs_prev).[c] qi).2]), enc))
    (coarse_decode p.(cp_budget) i p.(cp_prob_model))
    (fun qi dec => ((st.(cs_old).[k <- (coarse_update p.(cp_coef) p.(cp_beta) (MAX16 (-9216) st.(cs_old).[k]) st.(cs_prev).[c] qi).1],
                     st.(cs_prev).[c <- (coarse_update p.(cp_coef) p.(cp_beta) (MAX16 (-9216) st.(cs_old).[k]) st.(cs_prev).[c] qi).2]), dec)))].
  - intros enc. cbv beta. destruct (coarse_code true p i qi enc) as [v enc'].
    by destruct (coarse_update _ _ _ _ v).
  - intros dec. cbv beta. destruct (coarse_decode _ _ _ dec) as [v dec'].
    rewrite rd_wr_eq by done. destruct (coarse_update _ _ _ _ v). by rewrite wr_wr.
  - by apply sync_coarse_code.
  - intros s. apply sync_ret.
Qed.

Definition order_ok (nbEBands n : Z) (l : list (Z * Z)) : Prop :=
  Forall (fun ic => 0 <= ic.1 /\ 0 <= ic.1 + ic.2 * nbEBands < n) l.

Lemma enc_band_len clamp p i c st enc :
  len (cs_old (coarse_enc_band clamp p i c st enc).1) = len (cs_old st).
Proof.
  unfold coarse_enc_band. cbv zeta. destruct (coarse_qi _ _ _ _). destruct (coarse_code _ _ _ _ _).
  destruct (coarse_update _ _ _ _ _). cbn [fst cs_old]. apply len_wr.
Qed.

Lemma sync_coarse_bands p l st :
  models_ok p.(cp_prob_model) -> order_ok p.(cp_nbEBands) (len st.(cs_old)) l ->
  sync (fun enc => (shared (coarse_enc_bands true p l st enc).1, (coarse_enc_bands true p l st enc).2))
    (coarse_dec_bands p.(cp_budget) p.(cp_nbEBands) p.(cp_prob_model) p.(cp_coef) p.(cp_beta) l (shared st)).
Proof.
  intros Hm. revert st. induction l as [|[i c] l IH]; intros st Ho; [exact (sync_ret (shared st))|].
  inversion Ho as [|? ? [Hi Hk] Hl]. subst. cbn [fst snd] in *.
  cbn [coarse_enc_bands coarse_dec_bands].
  eapply sync_ext; [| |eapply (sync_bind_proj shared (coarse_enc_band true p i c st)
    (fun st enc => (shared (coarse_enc_bands true p l st enc).1, (coarse_enc_bands true p l st enc).2))
    (coarse_dec_band p.(cp_budget) p.(cp_nbEBands) p.(cp_prob_model) p.(cp_coef) p.(cp_beta) i c (shared st))
    (fun sh => coarse_dec_bands p.(cp_budget) p.(cp_nbEBands) p.(cp_prob_model) p.(cp_coef) p.(cp_beta) l sh))].
  - intros enc. cbv beta. by destruct (coarse_enc_band true p i c st enc).
  - done.
  - eapply sync_ext; [| |by apply (sync_coarse_band p i c st)]; [|done].
    intros enc. cbv beta. by destruct (coarse_enc_band true p i c st enc).
  - intros s. apply IH. by rewrite enc_band_len.
Qed.

(** *** With the bit for [intra] in front

    as the encoder writes it and celt_decoder.c reads it before it calls
    [unquant_coarse_energy]. *)

Definition decode_intra (tell : Z) (dec : D) : bool * D :=
  if tell + 3 <=? ec_storage_dec dec * 8 then ec_dec_bit_logp 3 dec else (false, dec).

Definition decode_coarse_at (nbEBands start end_ : Z) (oldEBands : list Z) (C : Z) (LM : nat) (tell : Z) (dec : D)
    : list Z * D :=
  let '(intra, dec) := decode_intra tell dec in
  unquant_coarse_energy nbEBands start end_ oldEBands intra C LM dec.

Definition decode_coarse (nbEBands start end_ : Z) (oldEBands : list Z) (C : Z) (LM : nat) (dec : D)
    : list Z * D :=
  decode_coarse_at nbEBands start end_ oldEBands C LM (ec_tell_dec dec) dec.

(** The encoder with the budget of the packet it writes to; [intra] is only
    possible when there is room for the bit (as [quant_coarse_energy] ensures). *)
Definition encode_coarse_at (clamp : bool) (nbEBands start end_ : Z) (eBands oldEBands error : list Z)
    (C : Z) (LM : nat) (intra : bool) (max_decay : Z) (lfe : bool) (tell : Z) (enc : E) : coarse_state * E :=
  let budget := ec_storage_enc enc * 8 in
  let intra := intra && (tell + 3 <=? budget) in
  quant_coarse_energy_impl clamp nbEBands start end_ eBands oldEBands budget tell
    (prob_model_of LM intra) error C LM intra max_decay lfe enc.

Definition encode_coarse (clamp : bool) (nbEBands start end_ : Z) (eBands oldEBands error : list Z)
    (C : Z) (LM : nat) (intra : bool) (max_decay : Z) (lfe : bool) (enc : E) : coarse_state * E :=
  encode_coarse_at clamp nbEBands start end_ eBands oldEBands error C LM intra max_decay lfe (ec_tell_enc enc) enc.

Lemma band_order_ok nbEBands n start end_ C :
  0 <= start -> end_ <= nbEBands -> C * nbEBands <= n -> order_ok nbEBands n (band_order start end_ C).
Proof.
  intros Hs He Hn. apply Forall_forall. intros [i c] Hin. unfold band_order in Hin.
  apply in_flat_map in Hin as (j & Hj & Hin). apply in_map_iff in Hin as (k & E1 & Hk).
  injection E1 as <- <-. apply in_seq in Hj, Hk. cbn [fst snd]. nia.
Qed.

Section Frame.
Context (nbEBands start end_ C : Z) (LM : nat) (eBands old error : list Z) (max_decay : Z) (lfe : bool).
Hypothesis (HLM : (LM < 4)%nat) (Hstart : 0 <= start) (Hend : end_ <= nbEBands).
Hypothesis (Hold : C * nbEBands <= len old).

Lemma sync_unquant budget intra :
  sync (fun enc => (cs_old (quant_coarse_energy_impl true nbEBands start end_ eBands old budget budget
                       (prob_model_of LM intra) error C LM intra max_decay lfe enc).1,
                    (quant_coarse_energy_impl true nbEBands start end_ eBands old budget budget
                       (prob_model_of LM intra) error C LM intra max_decay lfe enc).2))
    (unquant_coarse_at budget nbEBands start end_ old intra C LM).
Proof.
  unfold quant_coarse_energy_impl, unquant_coarse_at. cbv zeta.
  destruct (Z.leb_spec (budget + 3) budget); [lia|].
  set (p := {| cp_nbEBands := _ |}). set (st := {| cs_old := _ |}).
  eapply sync_ext; [| |eapply (sync_bind
    (fun enc => (shared (coarse_enc_bands true p (band_order start end_ C) st enc).1,
                 (coarse_enc_bands true p (band_order start end_ C) st enc).2))
    (fun sh enc => (sh.1, enc))
    (coarse_dec_bands budget nbEBands (prob_model_of LM intra) (coarse_coef LM intra)
      (coarse_beta LM intra) (band_order start end_ C) (old, [0; 0]))
    (fun sh dec => (sh.1, dec)))].
  - intros enc. cbv beta. by destruct (coarse_enc_bands _ _ _ _ enc) as [st1 enc1].
  - intros dec. cbv beta. by destruct (coarse_dec_bands _ _ _ _ _ _ _ dec) as [[o pr] dec1].
  - apply (sync_coarse_bands p (band_order start end_ C) st).
    + intros i Hi. by apply (prob_models_ok LM intra i).
    + by apply band_order_ok.
  - intros s. apply sync_ret.
Qed.

(** The bit for [intra], taken apart from the bands. *)
Lemma impl_flag clamp budget tell intra enc :
  quant_coarse_energy_impl clamp nbEBands start end_ eBands old budget tell
    (prob_model_of LM intra) error C LM intra max_decay lfe enc
  = quant_coarse_energy_impl clamp nbEBands start end_ eBands old budget budget
      (prob_model_of LM intra) error C LM intra max_decay lfe
      (if tell + 3 <=? budget then ec_enc_bit_logp intra 3 enc else enc).
Proof.
  unfold quant_coarse_energy_impl. destruct (Z.leb_spec (budget + 3) budget); [lia|]. done.
Qed.

(** Both sides decide with the same [tl] whether there is room for the bit. *)
Lemma sync_coarse_at intra tl :
  sync (fun enc => (cs_old (encode_coarse_at true nbEBands start end_ eBands old error C LM intra max_decay lfe tl enc).1,
                    (encode_coarse_at true nbEBands start end_ eBands old error C LM intra max_decay lfe tl enc).2))
    (decode_coarse_at nbEBands start end_ old C LM tl).
Proof.
  set (impl := fun B intra enc => quant_coarse_energy_impl true nbEBands start end_ eBands old B B
    (prob_model_of LM intra) error C LM intra max_decay lfe enc).
  set (enc2 := fun (st : Z) enc =>
    if tl + 3 <=? st * 8 then
      (cs_old (impl (st * 8) intra (ec_enc_bit_logp intra 3 enc)).1, (impl (st * 8) intra (ec_enc_bit_logp intra 3 enc)).2)
    else (cs_old (impl (st * 8) false enc).1, (impl (st * 8) false enc).2)).
  set (dec2 := fun (st : Z) dec =>
    if tl + 3 <=? st * 8 then
      let '(intra, dec) := ec_dec_bit_logp 3 dec in
      unquant_coarse_at (st * 8) nbEBands start end_ old intra C LM dec
    else unquant_coarse_at (st * 8) nbEBands start end_ old false C LM dec).
  eapply sync_ext; [| |eapply (sync_bind (fun s => (ec_storage_enc s, s)) enc2 (fun s => (ec_storage_dec s, s)) dec2 sync_storage)].
  - intros enc. cbv beta. unfold enc2, encode_coarse_at. cbv zeta. rewrite impl_flag.
    destruct (_ <=? _); [by rewrite andb_true_r|by rewrite andb_false_r].
  - intros dec. cbv beta. unfold dec2, decode_coarse_at, decode_intra, unquant_coarse_energy.
    destruct (_ <=? _); [|done]. pose proof (storage_bit_logp 3 dec) as Hst.
    destruct (ec_dec_bit_logp 3 dec) as [b dec1]. cbn [snd] in Hst. by rewrite Hst.
  - intros s0. cbn [fst]. unfold enc2, dec2. destruct (_ <=? _); [|apply sync_unquant].
    eapply (codes_then (ec_enc_bit_logp intra 3) (ec_dec_bit_logp 3) intra
      (fun enc => (cs_old (impl _ intra enc).1, (impl _ intra enc).2)));
      [apply codes_bit_logp; lia|apply sync_unquant].
Qed.
End Frame.

(** *** The single-bit case of the first band

    [exact_band] says that the code keeps the value that the decoder will see;
    then the code behaves as the clamped encoder. *)

Definition exact_band (p : coarse_params) (i c : Z) (st : coarse_state) (enc : E) : bool :=
  let k := i + c * p.(cp_nbEBands) in
  let qi := (coarse_qi p p.(cp_eBands).[k] st.(cs_old).[k] st.(cs_prev).[c]).2 in
  let room := p.(cp_budget) - ec_tell_enc enc in
  negb ((room =? 1) && ((coarse_code false p i qi enc).1 <? -1)).

Fixpoint exact_bands (p : coarse_params) (l : list (Z * Z)) (st : coarse_state) (enc : E) : bool :=
  match l with
  | [] => true
  | (i, c) :: l =>
      exact_band p i c st enc &&
      let '(st, enc) := coarse_enc_band false p i c st enc in exact_bands p l st enc
  end.

Lemma exact_band_clamp p i c st enc :
  exact_band p i c st enc = true -> coarse_enc_band false p i c st enc = coarse_enc_band true p i c st enc.
Proof.
  unfold exact_band, coarse_enc_band. cbv zeta.
  destruct (coarse_qi _ _ _ _) as [f qi]. cbn [snd].
  assert (forall r, negb ((cp_budget p - ec_tell_enc enc =? 1) && ((coarse_code false p i qi enc).1 <? -1)) = true ->
    coarse_code false p i qi enc = r -> coarse_code true p i qi enc = r) as Hc.
  { intros r. unfold coarse_code, coarse_code_at. cbv zeta.
    set (qi1 := if _ && _ then _ else qi). set (qi2 := if _ && _ then _ else qi1).
    destruct (Z.geb_spec (cp_budget p - ec_tell_enc enc) 15); [done|].
    destruct (Z.geb_spec (cp_budget p - ec_tell_enc enc) 2); [done|].
    destruct (Z.geb_spec (cp_budget p - ec_tell_enc enc) 1); [|done].
    destruct (Z.eqb_spec (cp_budget p - ec_tell_enc enc) 1); [|lia]. cbn [fst andb].
    destruct (Z.ltb_spec (Z.min 0 qi2) (-1)); [done|]. intros _ <-.
    by replace (Z.max (-1) (Z.min 0 qi2)) with (Z.min 0 qi2) by lia. }
  intros Hx. by rewrite (Hc _ Hx eq_refl).
Qed.

Lemma exact_bands_clamp p l st enc :
  exact_bands p l st enc = true -> coarse_enc_bands false p l st enc = coarse_enc_bands true p l st enc.
Proof.
  revert st enc. induction l as [|[i c] l IH]; intros st enc He; [done|].
  cbn [exact_bands coarse_enc_bands] in *. apply andb_true_iff in He as [H1 H2].
  rewrite <- (exact_band_clamp _ _ _ _ _ H1).
  destruct (coarse_enc_band false p i c st enc) as [st1 enc1]. by apply IH.
Qed.

(** After the first band the budget rule already keeps [qi] at -1 or more. *)
Lemma exact_band_later p i c st enc :
  i <> p.(cp_start) -> i < p.(cp_end) -> 1 <= p.(cp_C) -> exact_band p i c st enc = true.
Proof.
  intros Hi He HC. unfold exact_band. cbv zeta.
  destruct (coarse_qi _ _ _ _) as [f qi]. cbn [snd].
  destruct (Z.eqb_spec (cp_budget p - ec_tell_enc enc) 1) as [Hr|]; [|done]. cbn [andb].
  unfold coarse_code, coarse_code_at. cbv zeta. rewrite Hr.
  change (1 >=? 15) with false. change (1 >=? 2) with false. change (1 >=? 1) with true. cbv iota. cbn [fst].
  destruct (Z.eqb_spec i (cp_start p)); [done|]. cbn [negb andb].
  set (bl := 1 - 3 * cp_C p * (cp_end p - i)). assert (bl < 16) by (subst bl; nia).
  destruct (Z.ltb_spec bl 30); [|lia]. destruct (Z.ltb_spec bl 24); [|lia].
  destruct (Z.ltb_spec bl 16); [|lia]. set (q := Z.max (-1) (Z.min 1 qi)).
  assert (-1 <= q) by (subst q; lia).
  destruct (cp_lfe p && (i >=? 2)).
  - destruct (Z.ltb_spec (Z.min 0 (Z.min q 0)) (-1)); [lia|done].
  - destruct (Z.ltb_spec (Z.min 0 q) (-1)); [lia|done].
Qed.

(** The code of a frame is exact when its first band is. *)
Definition coarse_exact (nbEBands start end_ : Z) (eBands old error : list Z) (C : Z) (LM : nat)
    (intra : bool) (max_decay : Z) (lfe : bool) (enc : E) : bool :=
  let budget := ec_storage_enc enc * 8 in
  let tell := ec_tell_enc enc in
  let intra := intra && (tell + 3 <=? budget) in
  let enc := if tell + 3 <=? budget then ec_enc_bit_logp intra 3 enc else enc in
  exact_bands {| cp_nbEBands := nbEBands; cp_start := start; cp_end := end_; cp_eBands := eBands;
                 cp_budget := budget; cp_prob_model := prob_model_of LM intra; cp_C := C;
                 cp_coef := coarse_coef LM intra; cp_beta := coarse_beta LM intra;
                 cp_max_decay := max_decay; cp_lfe := lfe |}
    (band_order start (Z.min end_ (start + 1)) C)
    {| cs_old := old; cs_error := error; cs_prev := [0; 0]; cs_badness := 0 |} enc.

Lemma band_order_first start end_ C :
  exists l, band_order start end_ C = band_order start (Z.min end_ (start + 1)) C ++ l /\
    Forall (fun ic => ic.1 <> start /\ ic.1 < end_) l.
Proof.
  unfold band_order. destruct (Z.leb_spec end_ start).
  { exists []. rewrite app_nil_r, Z.min_l by lia. done. }
  rewrite Z.min_r by lia. replace (start + 1 - start) with 1 by lia.
  replace (Z.to_nat (end_ - start)) with (S (Z.to_nat (end_ - start - 1))) by lia.
  change (Z.to_nat 1) with 1%nat. cbn [seq flat_map]. rewrite app_nil_r. eexists. split; [done|].
  apply Forall_forall. intros [i c] Hin. apply in_flat_map in Hin as (j & Hj & Hin).
  apply in_map_iff in Hin as (k & E1 & Hk). injection E1 as <- <-. apply in_seq in Hj, Hk. cbn [fst]. lia.
Qed.

Lemma exact_bands_app p l1 l2 st enc :
  exact_bands p l1 st enc = true -> 1 <= p.(cp_C) ->
  Forall (fun ic => ic.1 <> p.(cp_start) /\ ic.1 < p.(cp_end)) l2 -> exact_bands p (l1 ++ l2) st enc = true.
Proof.
  intros H1 HC H2. revert st enc H1. induction l1 as [|[i c] l1 IH]; intros st enc H1; cbn [app exact_bands] in *.
  - clear H1. revert st enc. induction H2 as [|[i c] l2 [Hi He] Hl IH]; intros st enc; [done|].
    cbn [exact_bands fst] in *. rewrite exact_band_later by done.
    destruct (coarse_enc_band false p i c st enc). apply IH.
  - apply andb_true_iff in H1 as [Ha Hb]. rewrite Ha.
    destruct (coarse_enc_band false p i c st enc). by apply IH.
Qed.

Lemma encode_coarse_exact nbEBands start end_ eBands old error C LM intra max_decay lfe enc :
  1 <= C -> coarse_exact nbEBands start end_ eBands old error C LM intra max_decay lfe enc = true ->
  encode_coarse false nbEBands start end_ eBands old error C LM intra max_decay lfe enc
  = encode_coarse true nbEBands start end_ eBands old error C LM intra max_decay lfe enc.
Proof.
  intros HC Hx. unfold encode_coarse, encode_coarse_at, quant_coarse_energy_impl, coarse_exact in *. cbv zeta in *.
  set (p := {| cp_nbEBands := _ |}) in *.
  destruct (band_order_first start end_ C) as (l & -> & Hl).
  rewrite exact_bands_clamp; [done|]. by apply exact_bands_app.
Qed.
End Sync.

(** ** Fine energy: encoder and decoder stay in step *)

Section FineSync.
Context `{EntropyCoder E D}.

Lemma fine_q2_range e fq :
  0 < fq <= MAX_FINE_BITS ->
  let frac := i16 (Z.shiftl 1 fq) in
  let q2 := Z.shiftr (e + 512) (DB_SHIFT - fq) in
  let q2 := if q2 >? frac - 1 then frac - 1 else q2 in
  let q2 := if q2 <? 0 then 0 else q2 in 0 <= q2 < 2 ^ fq.
Proof.
  intros Hf. unfold MAX_FINE_BITS in Hf. cbv zeta. rewrite Z.shiftl_mul_pow2, Z.mul_1_l by lia.
  pose proof (Z.pow_pos_nonneg 2 fq ltac:(lia) ltac:(lia)).
  pose proof (Z.pow_le_mono_r 2 fq 8 ltac:(lia) ltac:(lia)). rewrite i16_small by lia.
  destruct (Z.gtb_spec (Z.shiftr (e + 512) (DB_SHIFT - fq)) (2 ^ fq - 1));
    match goal with |- context [if ?x <? 0 then _ else _] => destruct (Z.ltb_spec x 0) end; lia.
Qed.

Lemma sync_fine_band nbEBands fine_quant i c st :
  fine_quant.[i] <= MAX_FINE_BITS ->
  sync (fun enc => ((fine_enc_band nbEBands fine_quant i c st enc).1.1,
                    (fine_enc_band nbEBands fine_quant i c st enc).2))
    (fine_dec_band nbEBands fine_quant i c st.1).
Proof.
  intros Hq. unfold fine_enc_band, fine_dec_band. destruct st as [old error]. cbn [fst].
  destruct (Z.leb_spec fine_quant.[i] 0); [exact (sync_ret old)|]. cbv zeta.
  pose proof (fine_q2_range error.[i + c * nbEBands] fine_quant.[i] ltac:(lia)) as Hr. cbv zeta in Hr.
  match goal with |- context [ec_enc_bits ?q _ _] => set (q2 := q) in * end. cbn [fst snd].
  apply (codes_bind (ec_enc_bits q2 fine_quant.[i]) (fun s => s) (ec_dec_bits fine_quant.[i])
    (fun q2 dec => (old.[i + c * nbEBands <- i16 (old.[i + c * nbEBands] + fine_offset q2 fine_quant.[i])], dec)) q2).
  - apply codes_bits; [unfold MAX_FINE_BITS in *; lia|done].
  - apply codes_ret.
Qed.

Lemma sync_fine_bands nbEBands fine_quant l st :
  Forall (fun ic => fine_quant.[ic.1] <= MAX_FINE_BITS) l ->
  sync (fun enc => ((fine_enc_bands nbEBands fine_quant l st enc).1.1,
                    (fine_enc_bands nbEBands fine_quant l st enc).2))
    (fine_dec_bands nbEBands fine_quant l st.1).
Proof.
  intros Hl. revert st. induction Hl as [|[i c] l Hi Hl IH]; intros st; [apply (sync_ret st.1)|].
  cbn [fine_enc_bands fine_dec_bands fst] in *.
  eapply sync_ext; [| |eapply (sync_bind_proj fst (fine_enc_band nbEBands fine_quant i c st)
    (fun st enc => ((fine_enc_bands nbEBands fine_quant l st enc).1.1, (fine_enc_bands nbEBands fine_quant l st enc).2))
    (fine_dec_band nbEBands fine_quant i c st.1) (fine_dec_bands nbEBands fine_quant l))].
  - intros enc. cbv beta. by destruct (fine_enc_band nbEBands fine_quant i c st enc).
  - done.
  - by apply sync_fine_band.
  - intros s. apply IH.
Qed.

Lemma sync_fine nbEBands start end_ old error fine_quant C :
  Forall (fun q => q <= MAX_FINE_BITS) fine_quant ->
  sync (fun enc => ((quant_fine_energy nbEBands start end_ old error fine_quant C enc).1.1,
                    (quant_fine_energy nbEBands start end_ old error fine_quant C enc).2))
    (unquant_fine_energy nbEBands start end_ old fine_quant C).
Proof.
  intros Hq. apply (sync_fine_bands nbEBands fine_quant (band_order start end_ C) (old, error)).
  apply Forall_forall. intros [i c] _. apply (rd_Forall (fun q => q <= MAX_FINE_BITS)); [done|exact Hq].
Qed.

(** Only the bands that are coded matter. *)
Lemma sync_fine_coded nbEBands start end_ old error fine_quant C :
  (forall i, start <= i < end_ -> fine_quant.[i] <= MAX_FINE_BITS) ->
  sync (fun enc => ((quant_fine_energy nbEBands start end_ old error fine_quant C enc).1.1,
                    (quant_fine_energy nbEBands start end_ old error fine_quant C enc).2))
    (unquant_fine_energy nbEBands start end_ old fine_quant C).
Proof.
  intros Hq. apply (sync_fine_bands nbEBands fine_quant (band_order start end_ C) (old, error)).
  apply Forall_forall. intros [i c] Hin. apply Hq. unfold band_order in Hin.
  apply in_flat_map in Hin as (j & Hj & Hin). apply in_map_iff in Hin as (k & E1 & _).
  injection E1 as <- <-. apply in_seq in Hj. cbn [fst]. lia.
Qed.

(** *** The remaining bits *)

(** What the decoder learns: the energies and the bits left. *)
Definition final_view (x : list Z * list Z * Z) : list Z * Z := (x.1.1, x.2).

Lemma sync_final_channels n nbEBands fq i c st bits_left :
  sync (fun enc => (final_view (final_enc_channels n nbEBands fq i c st bits_left enc).1,
                    (final_enc_channels n nbEBands fq i c st bits_left enc).2))
    (final_dec_channels n nbEBands fq i c st.1 bits_left).
Proof.
  revert c st bits_left. induction n as [|n IH]; intros c [old error] bits_left;
    [apply (sync_ret (old, bits_left))|].
  cbn [final_enc_channels final_dec_channels fst]. cbv zeta.
  set (k := i + c * nbEBands). set (q2 := if error.[k] <? 0 then 0 else 1).
  apply (codes_then (ec_enc_bits q2 1) (ec_dec_bits 1) q2 (fun enc =>
    (final_view (final_enc_channels n nbEBands fq i (c + 1) (old.[k <- i16 (old.[k] + final_offset q2 fq)],
        error.[k <- i16 (error.[k] - final_offset q2 fq)]) (bits_left - 1) enc).1,
     (final_enc_channels n nbEBands fq i (c + 1) (old.[k <- i16 (old.[k] + final_offset q2 fq)],
        error.[k <- i16 (error.[k] - final_offset q2 fq)]) (bits_left - 1) enc).2))
    (fun q2 dec => final_dec_channels n nbEBands fq i (c + 1) old.[k <- i16 (old.[k] + final_offset q2 fq)]
        (bits_left - 1) dec)).
  - apply codes_bits; [lia|]. subst q2. destruct (error.[k] <? 0); lia.
  - apply (IH (c + 1) (_, _)).
Qed.

Lemma sync_final_bands n nbEBands fine_quant fine_priority prio C i st bits_left :
  sync (fun enc => (final_view (final_enc_bands n nbEBands fine_quant fine_priority prio C i st bits_left enc).1,
                    (final_enc_bands n nbEBands fine_quant fine_priority prio C i st bits_left enc).2))
    (final_dec_bands n nbEBands fine_quant fine_priority prio C i st.1 bits_left).
Proof.
  revert i st bits_left. induction n as [|n IH]; intros i st bits_left;
    [apply (sync_ret (st.1, bits_left))|].
  cbn [final_enc_bands final_dec_bands]. destruct (bits_left >=? C); [|apply (sync_ret (st.1, bits_left))].
  destruct (_ || _); [apply IH|].
  eapply sync_ext; [| |eapply (sync_bind_proj final_view
    (final_enc_channels (Z.to_nat C) nbEBands fine_quant.[i] i 0 st bits_left)
    (fun x enc => (final_view (final_enc_bands n nbEBands fine_quant fine_priority prio C (i + 1) x.1 x.2 enc).1,
                   (final_enc_bands n nbEBands fine_quant fine_priority prio C (i + 1) x.1 x.2 enc).2))
    (final_dec_channels (Z.to_nat C) nbEBands fine_quant.[i] i 0 st.1 bits_left)
    (fun x dec => final_dec_bands n nbEBands fine_quant fine_priority prio C (i + 1) x.1 x.2 dec))].
  - intros enc. cbv beta.
    by destruct (final_enc_channels (Z.to_nat C) nbEBands fine_quant.[i] i 0 st bits_left enc) as [[st1 b1] enc1].
  - intros dec. cbv beta.
    by destruct (final_dec_channels (Z.to_nat C) nbEBands fine_quant.[i] i 0 st.1 bits_left dec) as [[o1 b1] dec1].
  - apply sync_final_channels.
  - intros s. apply IH.
Qed.

Lemma sync_finalise nbEBands start end_ old error fine_quant fine_priority bits_left C :
  sync (fun enc => (final_view (quant_energy_finalise nbEBands start end_ old error fine_quant fine_priority bits_left C enc).1,
                    (quant_energy_finalise nbEBands start end_ old error fine_quant fine_priority bits_left C enc).2))
    (unquant_energy_finalise nbEBands start end_ old fine_quant fine_priority bits_left C).
Proof.
  unfold quant_energy_finalise, unquant_energy_finalise. cbv zeta. set (n := Z.to_nat (end_ - start)).
  eapply sync_ext; [| |eapply (sync_bind_proj final_view
    (final_enc_bands n nbEBands fine_quant fine_priority 0 C start (old, error) bits_left)
    (fun x enc => (final_view (final_enc_bands n nbEBands fine_quant fine_priority 1 C start x.1 x.2 enc).1,
                   (final_enc_bands n nbEBands fine_quant fine_priority 1 C start x.1 x.2 enc).2))
    (final_dec_bands n nbEBands fine_quant fine_priority 0 C start old bits_left)
    (fun x dec => final_dec_bands n nbEBands fine_quant fine_priority 1 C start x.1 x.2 dec))].
  - intros enc. cbv beta.
    by destruct (final_enc_bands n nbEBands fine_quant fine_priority 0 C start (old, error) bits_left enc) as [[st1 b1] enc1].
  - intros dec. cbv beta.
    by destruct (final_dec_bands n nbEBands fine_quant fine_priority 0 C start old bits_left dec) as [[o1 b1] dec1].
  - apply (sync_final_bands n nbEBands fine_quant fine_priority 0 C start (old, error)).
  - intros s. apply sync_final_bands.
Qed.
End FineSync.
