(* ===== verification/QuantCoarse.v ===== *)
(** * The choice between intra and inter energies (celt/quant_bands.c, quant_coarse_energy)

    The encoder codes the coarse energies with prediction from the last frame
    or without it; with two passes it tries both from the same state of the
    range coder and keeps the better one.  Whichever it keeps, the decoder ends up with its energies. *)

From S2P Require Import Prelude RangeCoder EntropyInterface EntropySeq EntCode Cwrs FixedPoint MathOps QuantBands.

(** ** Logarithms of the band energies *)

(** The entry of [amp2Log2] for band [i] of a channel. *)
Definition amp_log2 (bandE : list Z) (effEnd k i : Z) : Z :=
  if i <? effEnd then i16 (i16 (celt_log2 bandE.[k] - SHL16 eMeans.[i] 6) + 2048) else -14336.

(** The channels of [bandLogE] that [amp2Log2] writes, each for the bands below [end]. *)
Definition amp2Log2 (nbEBands effEnd end_ : Z) (bandE : list Z) (C : Z) : list (list Z) :=
  map (fun c => map (fun i => amp_log2 bandE effEnd (Z.of_nat i + Z.of_nat c * nbEBands) (Z.of_nat i))
                  (seq 0 (Z.to_nat end_))) (seq 0 (Z.to_nat C)).

(** ** The decision *)

(** Indices in the order of the loops over channels and bands. *)
Definition channel_order (start end_ C len : Z) : list Z :=
  flat_map (fun c => map (fun j => start + Z.of_nat j + Z.of_nat c * len) (seq 0 (Z.to_nat (end_ - start))))
    (seq 0 (Z.to_nat C)).

Definition loss_distortion (eBands oldEBands : list Z) (start end_ len C : Z) : Z :=
  let add dist k :=
    let d := i16 (SUB16 (SHR16 eBands.[k] 3) (SHR16 oldEBands.[k] 3)) in
    MAC16_16 dist d d in
  MIN32 200 (SHR32 (fold_left add (channel_order start end_ C len) 0) (2 * DB_SHIFT - 6)).

(** The arguments of [quant_coarse_energy] but the energies. *)
Record coarse_in := {
  ci_nbEBands : Z;
  ci_start : Z;
  ci_end : Z;
  ci_effEnd : Z;
  ci_C : Z;
  ci_LM : nat;
  ci_nbAvailableBytes : Z;
  ci_force_intra : bool;
  ci_two_pass : bool;
  ci_loss_rate : Z;
  ci_lfe : bool
}.

Definition coarse_max_decay (a : coarse_in) : Z :=
  let max_decay := 16384 in
  let max_decay :=
    if a.(ci_end) - a.(ci_start) >? 10
    then i16 (MIN32 max_decay (SHL32 (EXTEND32 a.(ci_nbAvailableBytes)) (DB_SHIFT - 3))) else max_decay in
  if a.(ci_lfe) then 3072 else max_decay.

(** [intra_bias], with the product and the quotient in 32 unsigned bits *)
Definition intra_bias (a : coarse_in) (budget delayedIntra : Z) : Z :=
  i32 (u32 (budget * delayedIntra * a.(ci_loss_rate)) / (a.(ci_C) * 512)).

(** [delayedIntra] for the next frame. *)
Definition next_delayed (LM : nat) (intra : bool) (delayedIntra new_distortion : Z) : Z :=
  if intra then new_distortion
  else ADD32 (MULT16_32_Q15 (MULT16_16_Q15 pred_coef.[Z.of_nat LM] pred_coef.[Z.of_nat LM]) delayedIntra) new_distortion.

Section Coarse.
Context `{EntropyCoder E D}.
Context (clamp : bool) (a : coarse_in) (eBands oldEBands error : list Z).

(** One run of the quantiser. *)
Definition coarse_pass (budget tell : Z) (intra : bool) (enc : E) : coarse_state * E :=
  quant_coarse_energy_impl clamp a.(ci_nbEBands) a.(ci_start) a.(ci_end) eBands oldEBands budget tell
    (prob_model_of a.(ci_LM) intra) error a.(ci_C) a.(ci_LM) intra (coarse_max_decay a) a.(ci_lfe) enc.

(** Whether the intra pass is kept; [r1] and [r2] are the passes with and without [intra]. *)
Definition keep_intra (bias : Z) (r1 r2 : coarse_state * E) : bool :=
  let badness1 := r1.1.(cs_badness) in
  let badness2 := r2.1.(cs_badness) in
  (badness1 <? badness2)
  || (badness1 =? badness2) && (i32 (ec_tell_frac_enc r2.2) + bias >? i32 (ec_tell_frac_enc r1.2)).

(** The new energies and errors, and [delayedIntra].  The budget is that of the packet; it and [tell] are
    far below 2^31, where the comparison in unsigned arithmetic is this one. *)
Definition quant_coarse_energy_at (delayedIntra tell : Z) (enc : E) : (coarse_state * Z) * E :=
  let budget := ec_storage_enc enc * 8 in
  let width := a.(ci_end) - a.(ci_start) in
  let intra := a.(ci_force_intra) ||
    negb a.(ci_two_pass) && (delayedIntra >? 2 * a.(ci_C) * width) && (a.(ci_nbAvailableBytes) >? width * a.(ci_C)) in
  let new_distortion := loss_distortion eBands oldEBands a.(ci_start) a.(ci_effEnd) a.(ci_nbEBands) a.(ci_C) in
  let room := negb (tell + 3 >? budget) in
  let two_pass := a.(ci_two_pass) && room in
  let intra := intra && room in
  let '(intra, (st, enc')) :=
    if intra then (true, coarse_pass budget tell true enc)
    else
      let r2 := coarse_pass budget tell false enc in
      if two_pass then
        let r1 := coarse_pass budget tell true enc in
        if keep_intra (intra_bias a budget delayedIntra) r1 r2 then (true, r1) else (false, r2)
      else (false, r2) in
  ((st, next_delayed a.(ci_LM) intra delayedIntra new_distortion), enc').
Definition quant_coarse_energy (delayedIntra : Z) (enc : E) : (coarse_state * Z) * E :=
  quant_coarse_energy_at delayedIntra (ec_tell_enc enc) enc.

(** Whichever pass is kept, it is the coding of the frame with one value of [intra]. *)
Lemma coarse_is_pass delayedIntra tell enc :
  exists intra,
    let r := quant_coarse_energy_at delayedIntra tell enc in
    let r' := encode_coarse_at clamp a.(ci_nbEBands) a.(ci_start) a.(ci_end) eBands oldEBands error a.(ci_C) a.(ci_LM) intra
                (coarse_max_decay a) a.(ci_lfe) tell enc in
    r.1.1 = r'.1 /\ r.2 = r'.2.
Proof.
  unfold quant_coarse_energy_at, encode_coarse_at. cbv zeta. set (budget := ec_storage_enc enc * 8).
  set (i0 := ci_force_intra a || _). clearbody i0.
  assert (negb (tell + 3 >? budget) = (tell + 3 <=? budget)) as ->.
  { rewrite Z.gtb_ltb. rewrite <- Z.leb_antisym. done. }
  destruct (tell + 3 <=? budget); rewrite ?andb_true_r, ?andb_false_r.
  - destruct i0; [|destruct (ci_two_pass a); [destruct (keep_intra _ _ _)|]]; [exists true|exists true|exists false|exists false].
    all: cbn [andb]; fold (coarse_pass budget tell true enc) || fold (coarse_pass budget tell false enc).
    all: by match goal with |- context [let '(_, _) := ?e in _] => destruct e end.
  - exists false. cbn [andb]. fold (coarse_pass budget tell false enc). by destruct (coarse_pass budget tell false enc).
Qed.
End Coarse.

(** ** Encoder and decoder *)

Section Sync.
Context `{EntropyCoder E D}.
Context (a : coarse_in) (eBands old error : list Z).

(** Neither pass meets the single-bit case of the first band. *)
Definition coarse_passes_exact (enc : E) : bool :=
  let exact intra := coarse_exact a.(ci_nbEBands) a.(ci_start) a.(ci_end) eBands old error a.(ci_C) a.(ci_LM) intra
                       (coarse_max_decay a) a.(ci_lfe) enc in
  exact true && exact false.

Lemma coarse_energy_exact delayedIntra enc :
  1 <= a.(ci_C) -> coarse_passes_exact enc = true ->
  quant_coarse_energy false a eBands old error delayedIntra enc = quant_coarse_energy true a eBands old error delayedIntra enc.
Proof.
  intros HC [H1 H2]%andb_true_iff.
  assert (forall intra, intra && (ec_tell_enc enc + 3 <=? ec_storage_enc enc * 8) = intra ->
    coarse_pass false a eBands old error (ec_storage_enc enc * 8) (ec_tell_enc enc) intra enc
    = coarse_pass true a eBands old error (ec_storage_enc enc * 8) (ec_tell_enc enc) intra enc) as Hp.
  { intros intra Hi. assert (coarse_exact a.(ci_nbEBands) a.(ci_start) a.(ci_end) eBands old error a.(ci_C) a.(ci_LM) intra
                       (coarse_max_decay a) a.(ci_lfe) enc = true) as Hx by (destruct intra; done).
    pose proof (encode_coarse_exact _ _ _ _ _ _ _ _ _ _ _ _ HC Hx) as He. unfold encode_coarse, encode_coarse_at in He. cbv zeta in He.
    rewrite Hi in He. exact He. }
  unfold quant_coarse_energy, quant_coarse_energy_at. cbv zeta. rewrite (Hp false eq_refl).
  replace (negb (ec_tell_enc enc + 3 >? ec_storage_enc enc * 8)) with (ec_tell_enc enc + 3 <=? ec_storage_enc enc * 8)
    by (rewrite Z.gtb_ltb; apply Z.leb_antisym).
  specialize (Hp true). destruct (_ <=? _); [|by rewrite !andb_false_r]. by rewrite (Hp eq_refl).
Qed.

Hypothesis (HLM : (a.(ci_LM) < 4)%nat) (Hstart : 0 <= a.(ci_start)) (Hend : a.(ci_end) <= a.(ci_nbEBands)).
Hypothesis (Hold : a.(ci_C) * a.(ci_nbEBands) <= len old).

Lemma sync_coarse_energy_at delayedIntra tell :
  sync (view (fun r => cs_old r.1) (quant_coarse_energy_at true a eBands old error delayedIntra tell))
       (decode_coarse_at a.(ci_nbEBands) a.(ci_start) a.(ci_end) old a.(ci_C) a.(ci_LM) tell).
Proof.
  apply sync_pointwise. intros s. destruct (coarse_is_pass true a eBands old error delayedIntra tell s) as (intra & E1 & E2).
  eexists. split; [exact (sync_coarse_at _ _ _ _ _ eBands old error (coarse_max_decay a) a.(ci_lfe) HLM Hstart Hend Hold intra tell)|].
  unfold view. cbv beta. by rewrite E1, E2.
Qed.

Lemma sync_coarse_energy delayedIntra :
  sync (view (fun r => cs_old r.1) (quant_coarse_energy true a eBands old error delayedIntra))
       (decode_coarse a.(ci_nbEBands) a.(ci_start) a.(ci_end) old a.(ci_C) a.(ci_LM)).
Proof. exact (sync_with_tell _ _ (sync_coarse_energy_at delayedIntra)). Qed.
End Sync.
