(* ===== verification/EnergyProps.v ===== *)
(** * What the coding of band energies guarantees

    Theorems about celt/laplace.c and celt/quant_bands.c on the range coder. *)

From S2P Require Import Prelude FixedPoint EntropyInterface EntropySeq Laplace QuantBands QuantCoarse.
From S2P Require Import RangeCoder RangeSafe RangeRoundTrip.

(** ** Theorems *)

(** What [ec_laplace_encode] leaves in [*value] is what [ec_laplace_decode]
    returns, for every model whose decaying part leaves room for the tail. *)
Theorem laplace_roundtrip value fs decay b :
  laplace_ok fs decay = true ->
  packet_ok (fun c => (ec_laplace_encode value fs decay c).2) b = true ->
  (ec_laplace_decode fs decay (ec_dec_init
     (take (length b) (buf (packet (fun c => (ec_laplace_encode value fs decay c).2) b))) (len b))).1
  = laplace_value value fs decay.
Proof. intros Hok Hp. apply packet_codes; [|done]. by apply codes_laplace. Qed.

(** With every model of [e_prob_model], energy deltas from -16 to 16
    ([LAPLACE_NMIN]) are coded exactly, and the model has room for its tail. *)
Lemma laplace_deltas_exact LM intra i v :
  (LM < 4)%nat -> 0 <= i -> -16 <= v <= 16 ->
  let pi := 2 * Z.min i 20 in
  let fs := Z.shiftl (prob_model_of LM intra).[pi] 7 in
  let decay := Z.shiftl (prob_model_of LM intra).[pi + 1] 6 in
  laplace_ok fs decay = true /\ laplace_value v fs decay = v.
Proof.
  intros HLM Hi Hv. split; [by apply prob_models_ok|].
  assert (forallb (fun LM => forallb (fun intra => forallb (fun k => forallb (fun v =>
    laplace_value (Z.of_nat v - 16) (Z.shiftl (prob_model_of LM intra).[2 * Z.of_nat k] 7)
      (Z.shiftl (prob_model_of LM intra).[2 * Z.of_nat k + 1] 6) =? Z.of_nat v - 16) (seq 0 33))
    (seq 0 21)) [true; false]) (seq 0 4) = true) as H by (vm_compute; reflexivity).
  rewrite forallb_forall in H. specialize (H LM ltac:(apply in_seq; lia)).
  rewrite forallb_forall in H. specialize (H intra ltac:(destruct intra; simpl; tauto)).
  rewrite forallb_forall in H. specialize (H (Z.to_nat (Z.min i 20)) ltac:(apply in_seq; lia)).
  rewrite forallb_forall in H. specialize (H (Z.to_nat (v + 16)) ltac:(apply in_seq; lia)).
  apply Z.eqb_eq in H. rewrite !Z2Nat.id in H by lia. by replace (v + 16 - 16) with v in H by lia.
Qed.

(** [ec_laplace_encode_p0] codes every value so that [ec_laplace_decode_p0]
    returns it, in at most |value|+1 rounds of its loop. *)
Lemma laplace_p0_roundtrip value p0 decay b fuel :
  0 < p0 <= 32766 -> 0 <= decay < 32768 -> (Z.to_nat (Z.abs value) < fuel)%nat ->
  packet_ok (ec_laplace_encode_p0 value p0 decay) b = true ->
  (ec_laplace_decode_p0 fuel p0 decay (ec_dec_init
     (take (length b) (buf (packet (ec_laplace_encode_p0 value p0 decay) b))) (len b))).1
  = Some value.
Proof. intros Hp Hd Hf Hk. apply packet_codes; [|done]. by apply codes_laplace_p0. Qed.

(** The decoder's coarse energies are exactly the ones the encoder goes on with: whichever
    of the passes with and without prediction [quant_coarse_energy] keeps (forced, by the
    distortion, or after trying both from the same state), the [intra] bit and the band energies
    decode to the [oldEBands] it leaves, whatever the energies and the number of
    bits, provided that in neither pass the first band is cut to a single bit
    ([coarse_passes_exact]). *)
Theorem coarse_energy_sync a eBands old error delayedIntra b :
  (a.(ci_LM) < 4)%nat -> 0 <= a.(ci_start) -> a.(ci_end) <= a.(ci_nbEBands) -> 1 <= a.(ci_C) ->
  a.(ci_C) * a.(ci_nbEBands) <= len old ->
  let e := quant_coarse_energy false a eBands old error delayedIntra in
  let c0 := ec_enc_init b (len b) in
  coarse_passes_exact a eBands old error c0 = true ->
  packet_ok (fun c => (e c).2) b = true ->
  (decode_coarse a.(ci_nbEBands) a.(ci_start) a.(ci_end) old a.(ci_C) a.(ci_LM) (ec_dec_init
     (take (length b) (buf (packet (fun c => (e c).2) b))) (len b))).1
  = cs_old (e c0).1.1.
Proof.
  intros HLM Hs He HC Hold e c0 Hx Hp.
  pose proof (coarse_energy_exact a eBands old error delayedIntra c0 HC Hx) as E1. fold (e c0) in E1.
  pose proof (packet_syncs _ _ b (sync_coarse_energy a eBands old error HLM Hs He Hold delayedIntra)) as Hsync.
  unfold packet, packet_ok in *. unfold view in Hsync. cbn [fst snd] in Hsync. unfold packet in *. fold c0 in Hsync, Hp |- *.
  cbv beta in Hp |- *. rewrite E1 in *. by apply Hsync.
Qed.

(** After the fine bits and the left-over bits the decoder again holds the
    encoder's energies, and has counted the same number of bits left. *)
Lemma fine_energy_sync nbEBands start end_ old error fine_quant fine_priority bits_left C b :
  Forall (fun q => q <= MAX_FINE_BITS) fine_quant ->
  let fine := quant_fine_energy nbEBands start end_ old error fine_quant C in
  let e := fun c => let '((old, error), c) := fine c in
             quant_energy_finalise nbEBands start end_ old error fine_quant fine_priority bits_left C c in
  let d := fun s => let '(old, s) := unquant_fine_energy nbEBands start end_ old fine_quant C s in
             unquant_energy_finalise nbEBands start end_ old fine_quant fine_priority bits_left C s in
  packet_ok (fun c => (e c).2) b = true ->
  (d (ec_dec_init (take (length b) (buf (packet (fun c => (e c).2) b))) (len b))).1
  = final_view (e (ec_enc_init b (len b))).1.
Proof.
  intros Hq fine e d Hp.
  apply (packet_syncs (fun c => (final_view (e c).1, (e c).2)) d b); [|done]. unfold e, d.
  eapply sync_ext; [| |eapply (sync_bind_proj fst fine
    (fun st c => (final_view (quant_energy_finalise nbEBands start end_ st.1 st.2 fine_quant fine_priority bits_left C c).1,
                  (quant_energy_finalise nbEBands start end_ st.1 st.2 fine_quant fine_priority bits_left C c).2))
    (unquant_fine_energy nbEBands start end_ old fine_quant C)
    (fun old => unquant_energy_finalise nbEBands start end_ old fine_quant fine_priority bits_left C))].
  - intros c. cbv beta. by destruct (fine c) as [[o er] c1].
  - done.
  - by apply sync_fine.
  - intros s. apply sync_finalise.
Qed.

(** C20: when a single bit is left at the first band, the encoder keeps an energy
    step below -1 although the bit can only say 0 or -1: the packet is complete
    and without error, and the decoder's energy differs from the encoder's. *)
Theorem coarse_single_bit_differs :
  exists eBands old b,
    let e := fun c => encode_coarse false 1 0 1 eBands old [0] 1 3 false 16384 false (ec_enc_bits 0 6 c) in
    let d := fun s => let '(_, s) := ec_dec_bits 6 s in decode_coarse 1 0 1 old 1 3 s in
    packet_ok (fun c => (e c).2) b = true /\
    cs_old (e (ec_enc_init b (len b))).1 = [-4096] /\
    (d (ec_dec_init (take (length b) (buf (packet (fun c => (e c).2) b))) (len b))).1 = [-1024].
Proof. exists [-4096], [0], [0]. vm_compute. repeat split; reflexivity. Qed.

(** ** Witnesses *)

Lemma laplace_roundtrip_witness :
  (ec_laplace_decode 9216 8128 (ec_dec_init
     (take 4 (buf (packet (fun c => (ec_laplace_encode (-3) 9216 8128 c).2) (repeat 0 4)))) 4)).1 = -3.
Proof. apply (laplace_roundtrip (-3) 9216 8128 (repeat 0 4)); vm_compute; reflexivity. Defined.

Definition sample_energies : list Z := [4000; -900; 2500; 17; -12000; 800; 5000; -300].

(** Two channels of four bands, with both passes tried. *)
Definition sample_coarse : coarse_in := {|
  ci_nbEBands := 4; ci_start := 0; ci_end := 4; ci_effEnd := 4; ci_C := 2; ci_LM := 3; ci_nbAvailableBytes := 6;
  ci_force_intra := false; ci_two_pass := true; ci_loss_rate := 5; ci_lfe := false |}.

Lemma coarse_energy_sync_witness :
  (decode_coarse 4 0 4 (repeat 100 8) 2 3 (ec_dec_init
     (take 6 (buf (packet (fun c => (quant_coarse_energy false sample_coarse sample_energies (repeat 100 8) (repeat 0 8)
        40 c).2) (repeat 0 6)))) 6)).1
  = cs_old (quant_coarse_energy false sample_coarse sample_energies (repeat 100 8) (repeat 0 8)
        40 (ec_enc_init (repeat 0 6) 6)).1.1.
Proof.
  exact (coarse_energy_sync sample_coarse sample_energies (repeat 100 8) (repeat 0 8) 40 (repeat 0 6)
    ltac:(cbn; lia) ltac:(cbn; lia) ltac:(cbn; lia) ltac:(cbn; lia) ltac:(vm_compute; congruence)
    ltac:(vm_compute; reflexivity) ltac:(vm_compute; reflexivity)).
Defined.
