(* ===== verification/Memory.v ===== *)
(** * Memory, outcomes and errors

    The packet-level code works on bytes in memory.  Memory is one array of
    bytes and a pointer an index of it.  An access outside the array is the
    outcome [Fault]; [Err code] is an early return with a negative code, after
    which no caller reads what was being written. *)

From S2P Require Import Prelude.

(** ** Outcomes *)

Inductive res (A : Type) :=
| Ok (x : A)
| Err (code : Z)
| Fault.
Arguments Ok {A} x.
Arguments Err {A} code.
Arguments Fault {A}.

#[export] Instance res_ret : MRet res := fun A x => Ok x.
#[export] Instance res_bind : MBind res := fun A B f m =>
  match m with Ok x => f x | Err c => Err c | Fault => Fault end.

Definition OPUS_OK : Z := 0.
Definition OPUS_BAD_ARG : Z := -1.
Definition OPUS_BUFFER_TOO_SMALL : Z := -2.
Definition OPUS_INTERNAL_ERROR : Z := -3.
Definition OPUS_INVALID_PACKET : Z := -4.
Definition OPUS_UNIMPLEMENTED : Z := -5.

(** A read of the packet, and a write of an array. *)
Definition get (data : list Z) (p : Z) : res Z :=
  if (0 <=? p) && (p <? len data) then Ok data.[p] else Fault.
Definition put (a : list Z) (i v : Z) : res (list Z) :=
  if (0 <=? i) && (i <? len a) then Ok a.[i <- v] else Fault.


(** The null pointer, never dereferenced. *)
Definition NULL : Z := -1.

(** ** Blocks

    [slice mem p n] are the [n] bytes at [p]; [splice mem p l] has [l] at [p]. *)

Definition slice (mem : list Z) (p n : Z) : list Z := take (Z.to_nat n) (drop (Z.to_nat p) mem).
Definition splice (mem : list Z) (p : Z) (l : list Z) : list Z :=
  take (Z.to_nat p) mem ++ l ++ drop (Z.to_nat (p + len l)) mem.

Definition load (mem : list Z) (p n : Z) : res (list Z) :=
  if n <=? 0 then Ok []
  else if (0 <=? p) && (p + n <=? len mem) then Ok (slice mem p n) else Fault.
Definition store (mem : list Z) (p : Z) (l : list Z) : res (list Z) :=
  if (0 <=? p) && (p + len l <=? len mem) then Ok (splice mem p l) else Fault.

(** [OPUS_MOVE] and, on blocks that do not overlap, [OPUS_COPY]: all bytes are
    read before the first is written. *)
Definition OPUS_MOVE (mem : list Z) (dst src n : Z) : res (list Z) :=
  l ← load mem src n; store mem dst l.

(** ** Specifications of outcomes

    [sat m P]: no fault, only negative error codes, and [P] of the result. *)

Definition sat {A} (m : res A) (P : A -> Prop) : Prop :=
  match m with Ok x => P x | Err c => c < 0 | Fault => False end.

Lemma sat_ok {A} (x : A) (P : A -> Prop) : P x -> sat (Ok x) P.
Proof. done. Qed.

Lemma sat_bind {A B} (m : res A) (f : A -> res B) (P : A -> Prop) (Q : B -> Prop) :
  sat m P -> (forall x, P x -> sat (f x) Q) -> sat (m ≫= f) Q.
Proof. intros Hm Hf. destruct m; simpl in *; auto. Qed.

Lemma sat_impl {A} (m : res A) (P Q : A -> Prop) : sat m P -> (forall x, P x -> Q x) -> sat m Q.
Proof. intros Hm H. destruct m; simpl in *; auto. Qed.

Lemma get_ok data p : 0 <= p < len data -> get data p = Ok data.[p].
Proof.
  intros Hp. unfold get. destruct (Z.leb_spec 0 p), (Z.ltb_spec p (len data)); try lia. done.
Qed.

Lemma sat_get data p : bytes data -> 0 <= p < len data -> sat (get data p) (fun b => b = data.[p] /\ 0 <= b < 256).
Proof.
  intros Hb Hp. rewrite get_ok by done. split; [done|]. by apply bytes_rd.
Qed.

Lemma sat_put a i v : 0 <= i < len a -> sat (put a i v) (fun a' => a' = a.[i <- v]).
Proof.
  intros Hi. unfold put. destruct (Z.leb_spec 0 i), (Z.ltb_spec i (len a)); try lia. done.
Qed.

(** Equal outcomes, component by component. *)
Ltac tup := repeat first [done | lia | f_equal].

(** ** Lemmas on blocks *)

Lemma rd_ext a b : len a = len b -> (forall i, 0 <= i < len a -> a.[i] = b.[i]) -> a = b.
Proof.
  unfold len, rd. revert b. induction a as [|x a IH]; intros [|y b] Hl H; try (cbn in Hl; lia); [done|].
  f_equal.
  - apply (H 0). cbn. lia.
  - apply IH; [cbn in Hl; lia|]. intros i Hi. specialize (H (1 + i) ltac:(cbn; lia)).
    destruct (Z.ltb_spec (1 + i) 0), (Z.ltb_spec i 0); try lia.
    replace (Z.to_nat (1 + i)) with (S (Z.to_nat i)) in H by lia. done.
Qed.

Lemma len_nonneg {A} (l : list A) : 0 <= len l.
Proof. unfold len. lia. Qed.
#[export] Hint Resolve len_nonneg : opus.

Lemma len_slice mem p n : 0 <= p -> 0 <= n -> p + n <= len mem -> len (slice mem p n) = n.
Proof. unfold len, slice. intros. rewrite length_take, length_drop. lia. Qed.

Lemma rd_drop mem p i : 0 <= p -> 0 <= i -> (drop (Z.to_nat p) mem).[i] = mem.[p + i].
Proof.
  intros Hp Hi. unfold rd. destruct (Z.ltb_spec i 0), (Z.ltb_spec (p + i) 0); try lia.
  rewrite !nth_lookup, lookup_drop. do 2 f_equal. lia.
Qed.

Lemma rd_slice mem p n i : 0 <= p -> 0 <= i < n -> (slice mem p n).[i] = mem.[p + i].
Proof. intros Hp Hi. unfold slice. rewrite rd_take by lia. apply rd_drop; lia. Qed.

Lemma slice_all mem : slice mem 0 (len mem) = mem.
Proof. unfold slice, len. rewrite Nat2Z.id, drop_0. apply firstn_all. Qed.

Section Splice.
Context (mem : list Z) (p : Z) (l : list Z).
Hypothesis Hp : 0 <= p.
Hypothesis Hl : p + len l <= len mem.

Lemma len_splice : len (splice mem p l) = len mem.
Proof.
  unfold splice. rewrite !len_app. unfold len in *. rewrite length_take, length_drop. lia.
Qed.

Lemma rd_splice_in i : p <= i < p + len l -> (splice mem p l).[i] = l.[i - p].
Proof.
  intros Hi. unfold splice. pose proof (len_take mem (Z.to_nat p)) as Ht. unfold len in Ht, Hl, Hi.
  replace i with (len (take (Z.to_nat p) mem) + (i - p)) at 1 by (unfold len; lia).
  rewrite rd_app_r by lia. apply rd_app_l. unfold len. lia.
Qed.

Lemma rd_splice_out i : i < p \/ p + len l <= i -> (splice mem p l).[i] = mem.[i].
Proof.
  intros Hi. destruct (Z.ltb_spec i 0).
  { unfold rd. destruct (Z.ltb_spec i 0); [done|lia]. }
  unfold splice. pose proof (len_take mem (Z.to_nat p)) as Ht. pose proof (len_nonneg l).
  specialize (Ht ltac:(lia)). destruct Hi as [Hi|Hi].
  - rewrite rd_app_l by lia. apply rd_take. lia.
  - replace i with (len (take (Z.to_nat p) mem) + (len l + (i - p - len l))) at 1 by lia.
    rewrite rd_app_r, rd_app_r by lia. rewrite rd_drop by lia. f_equal. lia.
Qed.

Lemma slice_splice_same : slice (splice mem p l) p (len l) = l.
Proof.
  pose proof (len_nonneg l). apply rd_ext.
  - rewrite len_slice; rewrite ?len_splice; lia.
  - intros i. rewrite len_slice by (rewrite ?len_splice; lia). intros Hi.
    rewrite rd_slice, rd_splice_in by lia. f_equal. lia.
Qed.

Lemma slice_splice_out q n :
  0 <= q -> 0 <= n -> q + n <= len mem -> q + n <= p \/ p + len l <= q ->
  slice (splice mem p l) q n = slice mem q n.
Proof.
  intros Hq Hn Hm Ho. apply rd_ext.
  - rewrite !len_slice; rewrite ?len_splice; lia.
  - intros i. rewrite len_slice by (rewrite ?len_splice; lia). intros Hi.
    rewrite !rd_slice by lia. apply rd_splice_out. lia.
Qed.

Lemma store_ok : store mem p l = Ok (splice mem p l).
Proof. unfold store. destruct (Z.leb_spec 0 p), (Z.leb_spec (p + len l) (len mem)); try lia. done. Qed.
End Splice.

Lemma splice_nil mem p : splice mem p [] = mem.
Proof. unfold splice. cbn [app]. change (len []) with 0. rewrite Z.add_0_r. apply take_drop. Qed.

Lemma splice_splice mem p l1 l2 :
  0 <= p -> p + len l1 + len l2 <= len mem ->
  splice (splice mem p l1) (p + len l1) l2 = splice mem p (l1 ++ l2).
Proof.
  intros Hp Hl. pose proof (len_nonneg l1). pose proof (len_nonneg l2).
  assert (H1 : len (splice mem p l1) = len mem) by (apply len_splice; lia).
  apply rd_ext.
  - rewrite !len_splice; rewrite ?len_splice, ?len_app; lia.
  - intros i _.
    destruct (decide (p + len l1 <= i < p + len l1 + len l2)) as [Hi|Hi].
    { rewrite rd_splice_in by lia. rewrite rd_splice_in by (rewrite ?len_app; lia).
      replace (i - p) with (len l1 + (i - (p + len l1))) by lia. by rewrite rd_app_r by lia. }
    rewrite rd_splice_out by lia. destruct (decide (p <= i < p + len l1)).
    { rewrite !rd_splice_in by (rewrite ?len_app; lia). by rewrite rd_app_l by lia. }
    rewrite !rd_splice_out by (rewrite ?len_app; lia). done.
Qed.

Lemma put_splice mem p v : 0 <= p < len mem -> put mem p v = Ok (splice mem p [v]).
Proof.
  intros Hp. unfold put. destruct (Z.leb_spec 0 p), (Z.ltb_spec p (len mem)); try lia.
  cbn [andb]. f_equal. assert (len [v] = 1) by done. apply rd_ext.
  - rewrite len_wr, len_splice; lia.
  - intros i _. destruct (decide (i = p)) as [->|].
    + rewrite rd_wr_eq, rd_splice_in by lia. by rewrite Z.sub_diag.
    + rewrite rd_wr_ne, rd_splice_out by lia. done.
Qed.

Lemma load_ok mem p n : 0 <= n -> 0 < n -> 0 <= p -> p + n <= len mem -> load mem p n = Ok (slice mem p n).
Proof.
  intros. unfold load. destruct (Z.leb_spec n 0), (Z.leb_spec 0 p), (Z.leb_spec (p + n) (len mem)); try lia. done.
Qed.

Lemma slice_0 mem p : slice mem p 0 = [].
Proof. done. Qed.

(** A move between blocks in range. *)
Lemma move_ok mem dst src n :
  0 <= n -> (0 < n -> 0 <= src /\ src + n <= len mem) -> 0 <= dst -> dst + n <= len mem ->
  OPUS_MOVE mem dst src n = Ok (splice mem dst (slice mem src n)).
Proof.
  intros Hn Hs Hd Hl. unfold OPUS_MOVE. destruct (decide (n = 0)) as [->|].
  { change (load mem src 0) with (Ok (A := list Z) []).
    cbn [mbind res_bind]. rewrite store_ok by (change (len (@nil Z)) with 0; lia). done. }
  destruct (Hs ltac:(lia)). rewrite load_ok by lia. cbn [mbind res_bind].
  apply store_ok; rewrite ?len_slice; lia.
Qed.

Lemma bytes_slice mem p n : bytes mem -> bytes (slice mem p n).
Proof. intros H. unfold slice. by apply Forall_take, Forall_drop. Qed.

Lemma bytes_splice mem p l : bytes mem -> bytes l -> bytes (splice mem p l).
Proof. intros Hm Hl. unfold splice, bytes. rewrite !Forall_app. auto using Forall_take, Forall_drop. Qed.

(** Bytes of memory that hold [l1 ++ l2] hold [l1], then [l2]. *)
Lemma slice_app mem p l1 l2 :
  0 <= p -> p + len l1 + len l2 <= len mem -> slice mem p (len l1 + len l2) = l1 ++ l2 ->
  slice mem p (len l1) = l1 /\ slice mem (p + len l1) (len l2) = l2.
Proof.
  intros Hp Hm E. pose proof (len_nonneg l1). pose proof (len_nonneg l2).
  assert (Hr : forall i, 0 <= i < len l1 + len l2 -> mem.[p + i] = (l1 ++ l2).[i]).
  { intros i Hi. by rewrite <- E, rd_slice by lia. }
  split; apply rd_ext; rewrite ?len_slice by lia; try done; intros i Hi; rewrite rd_slice by lia.
  - rewrite Hr by lia. apply rd_app_l. lia.
  - replace (p + len l1 + i) with (p + (len l1 + i)) by lia. rewrite Hr by lia. apply rd_app_r. lia.
Qed.

Lemma slice_mid (a b c : list Z) : slice (a ++ b ++ c) (len a) (len b) = b.
Proof.
  unfold slice, len. rewrite !Nat2Z.id, drop_app_length. by rewrite take_app_length.
Qed.

Lemma slice_slice mem p n q k : 0 <= p -> 0 <= q -> 0 <= k -> q + k <= n -> p + n <= len mem ->
  slice (slice mem p n) q k = slice mem (p + q) k.
Proof.
  intros. apply rd_ext; [rewrite !len_slice; rewrite ?len_slice; lia|].
  rewrite len_slice by (rewrite ?len_slice; lia). intros i Hi. rewrite !rd_slice by lia. f_equal. lia.
Qed.

Lemma len_slice_le mem p n : 0 <= n -> len (slice mem p n) <= n.
Proof. unfold len, slice. intros. rewrite length_take, length_drop. lia. Qed.

(** A write to the first of two blocks. *)
Lemma splice_app_l a b p l : 0 <= p -> p + len l <= len a -> splice (a ++ b) p l = splice a p l ++ b.
Proof.
  intros Hp Hl. pose proof (len_nonneg l). pose proof (len_nonneg b). apply rd_ext.
  - rewrite len_splice, !len_app, len_splice; rewrite ?len_app; lia.
  - intros i Hi. rewrite len_splice, len_app in Hi by (rewrite ?len_app; lia).
    destruct (decide (p <= i < p + len l)).
    { rewrite rd_splice_in by (rewrite ?len_app; lia). rewrite rd_app_l by (rewrite len_splice; lia). by rewrite rd_splice_in by lia. }
    rewrite rd_splice_out by (rewrite ?len_app; lia). destruct (decide (i < len a)).
    { rewrite !rd_app_l by (rewrite ?len_splice; lia). by rewrite rd_splice_out by lia. }
    pose proof (len_splice a p l Hp Hl) as E.
    replace i with (len a + (i - len a)) at 1 by lia. replace i with (len (splice a p l) + (i - len a)) at 2 by lia.
    by rewrite !rd_app_r by lia.
Qed.

(** ** What memory holds *)

Section Holds.
Context (m : list Z).

(** [holds p l]: the bytes at [p] are [l]. *)
Definition holds (p : Z) (l : list Z) : Prop := 0 <= p /\ p + len l <= len m /\ slice m p (len l) = l.

Lemma holds_app p l1 l2 : holds p (l1 ++ l2) -> holds p l1 /\ holds (p + len l1) l2.
Proof.
  intros (Hp & Hl & Hs). rewrite len_app in *. pose proof (len_nonneg l1). pose proof (len_nonneg l2).
  destruct (slice_app m p l1 l2 Hp ltac:(lia) Hs). split; (split_and!; [lia|lia|done]).
Qed.

Lemma holds_cons p x l : holds p (x :: l) -> get m p = Ok x /\ holds (p + 1) l.
Proof.
  intros H. apply (holds_app p [x] l) in H as [(Hp & Hl & Hs) H2]. change (len [x]) with 1 in *.
  split; [|done]. rewrite get_ok by lia. f_equal. assert (E : (slice m p 1).[0] = x) by (by rewrite Hs).
  rewrite rd_slice, Z.add_0_r in E by lia. done.
Qed.

Lemma holds_rd p l i : holds p l -> 0 <= i < len l -> m.[p + i] = l.[i].
Proof. intros (Hp & _ & Hs) Hi. rewrite <- Hs, rd_slice by (done || lia). done. Qed.

Lemma holds_nil p : 0 <= p <= len m -> holds p [].
Proof. intros H. split_and!; [lia|change (len (@nil Z)) with 0; lia|done]. Qed.
End Holds.

Lemma holds_self l : holds l 0 l.
Proof. split_and!; [lia|lia|apply slice_all]. Qed.
