(* ===== verification/Packet.v ===== *)
(** * Opus packets (src/opus.c, packet inspection in src/opus_decoder.c)

    A packet is the list of the bytes that the caller made available; a read
    outside it, or a write outside the array of sizes, is the outcome [Fault]. *)

From S2P Require Import Prelude Memory.

(** ** Frame sizes *)

Definition encode_size (size : Z) : list Z :=
  if size <? 252 then [u8 size]
  else
    let d0 := u8 (252 + Z.land size 3) in [d0; u8 (Z.shiftr (size - d0) 2)].

(** The number of bytes read and the size. *)
Definition parse_size (data : list Z) (p len : Z) : res (Z * Z) :=
  if len <? 1 then Ok (-1, -1)
  else
    d0 ← get data p;
    if d0 <? 252 then Ok (1, d0)
    else if len <? 2 then Ok (-1, -1)
    else d1 ← get data (p + 1); Ok (2, i16 (4 * d1 + d0)).

(** ** The table-of-contents byte *)

Definition samples_per_frame (toc Fs : Z) : Z :=
  if negb (Z.land toc 0x80 =? 0) then
    let audiosize := Z.land (Z.shiftr toc 3) 3 in Z.shiftl Fs audiosize / 400
  else if Z.land toc 0x60 =? 0x60 then
    if negb (Z.land toc 0x08 =? 0) then Fs / 50 else Fs / 100
  else
    let audiosize := Z.land (Z.shiftr toc 3) 3 in
    if audiosize =? 3 then Fs * 60 / 1000 else Z.shiftl Fs audiosize / 100.

Definition opus_packet_get_samples_per_frame (data : list Z) (Fs : Z) : res Z :=
  toc ← get data 0; Ok (samples_per_frame toc Fs).

Definition MODE_SILK_ONLY : Z := 1000.
Definition MODE_HYBRID : Z := 1001.
Definition MODE_CELT_ONLY : Z := 1002.

Definition opus_packet_get_mode (data : list Z) : res Z :=
  toc ← get data 0;
  Ok (if negb (Z.land toc 0x80 =? 0) then MODE_CELT_ONLY
      else if Z.land toc 0x60 =? 0x60 then MODE_HYBRID else MODE_SILK_ONLY).

Definition opus_packet_get_bandwidth (data : list Z) : res Z :=
  toc ← get data 0;
  Ok (if negb (Z.land toc 0x80 =? 0) then
        let bandwidth := 1102 + Z.land (Z.shiftr toc 5) 3 in
        if bandwidth =? 1102 then 1101 else bandwidth
      else if Z.land toc 0x60 =? 0x60 then
        if negb (Z.land toc 0x10 =? 0) then 1105 else 1104
      else 1101 + Z.land (Z.shiftr toc 5) 3).

Definition opus_packet_get_nb_channels (data : list Z) : res Z :=
  toc ← get data 0; Ok (if negb (Z.land toc 4 =? 0) then 2 else 1).

Definition opus_packet_get_nb_frames (packet : list Z) (len : Z) : res Z :=
  if len <? 1 then Err OPUS_BAD_ARG
  else
    toc ← get packet 0;
    let count := Z.land toc 3 in
    if count =? 0 then Ok 1
    else if negb (count =? 3) then Ok 2
    else if len <? 2 then Err OPUS_INVALID_PACKET
    else b ← get packet 1; Ok (Z.land b 0x3F).

Definition opus_packet_get_nb_samples (packet : list Z) (len Fs : Z) : res Z :=
  count ← opus_packet_get_nb_frames packet len;
  n ← opus_packet_get_samples_per_frame packet Fs;
  let samples := count * n in
  if samples * 25 >? Fs * 3 then Err OPUS_INVALID_PACKET else Ok samples.

(** ** Parsing *)

(** The position in the packet, the bytes left, and what is known of the frames. *)
Record pstate := {
  ps_p : Z;
  ps_len : Z;
  ps_count : Z;
  ps_cbr : bool;
  ps_last_size : Z;
  ps_pad : Z;
  ps_size : list Z
}.

(** The padding lengths, [do ... while (p==255)]: new position, bytes left and
    padding. *)
Fixpoint parse_padding (fuel : nat) (data : list Z) (p len pad : Z) : res (Z * Z * Z) :=
  match fuel with
  | O => Fault
  | S fuel =>
      if len <=? 0 then Err OPUS_INVALID_PACKET
      else
        b ← get data p;
        let tmp := if b =? 255 then 254 else b in
        let len := len - 1 - tmp in
        if b =? 255 then parse_padding fuel data (p + 1) len (pad + tmp)
        else Ok (p + 1, len, pad + tmp)
  end.

(** The sizes of [n] frames from frame [i] on (VBR): new position, bytes left,
    last_size and sizes. *)
Fixpoint parse_vbr_sizes (n : nat) (i : Z) (data : list Z) (p len last_size : Z) (size : list Z)
    : res (Z * Z * Z * list Z) :=
  match n with
  | O => Ok (p, len, last_size, size)
  | S n =>
      '(bytes, s) ← parse_size data p len;
      size ← put size i s;
      let len := len - bytes in
      if (s <? 0) || (s >? len) then Err OPUS_INVALID_PACKET
      else parse_vbr_sizes n (i + 1) data (p + bytes) len (last_size - (bytes + s)) size
  end.

(** [size[i] = v] for the [n] frames from [i] on. *)
Fixpoint fill_sizes (n : nat) (i v : Z) (size : list Z) : res (list Z) :=
  match n with
  | O => Ok size
  | S n => size ← put size i v; fill_sizes n (i + 1) v size
  end.

Definition parse_code1 (self_delimited : bool) (len : Z) (size : list Z) : res pstate :=
  if negb self_delimited then
    if negb (Z.land len 1 =? 0) then Err OPUS_INVALID_PACKET
    else
      let last_size := len / 2 in
      size ← put size 0 (i16 last_size);
      Ok {| ps_p := 1; ps_len := len; ps_count := 2; ps_cbr := true; ps_last_size := last_size;
            ps_pad := 0; ps_size := size |}
  else Ok {| ps_p := 1; ps_len := len; ps_count := 2; ps_cbr := true; ps_last_size := len;
             ps_pad := 0; ps_size := size |}.

Definition parse_code2 (data : list Z) (len : Z) (size : list Z) : res pstate :=
  '(bytes, s) ← parse_size data 1 len;
  size ← put size 0 s;
  let len := len - bytes in
  if (s <? 0) || (s >? len) then Err OPUS_INVALID_PACKET
  else Ok {| ps_p := 1 + bytes; ps_len := len; ps_count := 2; ps_cbr := false;
             ps_last_size := len - s; ps_pad := 0; ps_size := size |}.

(** The sizes of a code 3 packet, from behind the padding lengths on. *)
Definition parse_sizes3 (self_delimited cbr : bool) (count pad last_size : Z) (data : list Z)
    (p len : Z) (size : list Z) : res pstate :=
  if negb cbr then
    '(p, len, last_size, size) ←
      parse_vbr_sizes (Z.to_nat (count - 1)) 0 data p len len size;
    if last_size <? 0 then Err OPUS_INVALID_PACKET
    else Ok {| ps_p := p; ps_len := len; ps_count := count; ps_cbr := cbr;
               ps_last_size := last_size; ps_pad := pad; ps_size := size |}
  else if negb self_delimited then
    let last_size := len / count in
    if negb (last_size * count =? len) then Err OPUS_INVALID_PACKET
    else
      size ← fill_sizes (Z.to_nat (count - 1)) 0 (i16 last_size) size;
      Ok {| ps_p := p; ps_len := len; ps_count := count; ps_cbr := cbr;
            ps_last_size := last_size; ps_pad := pad; ps_size := size |}
  else Ok {| ps_p := p; ps_len := len; ps_count := count; ps_cbr := cbr;
             ps_last_size := last_size; ps_pad := pad; ps_size := size |}.

Definition parse_code3 (self_delimited : bool) (framesize : Z) (data : list Z) (len : Z)
    (size : list Z) : res pstate :=
  let last_size := len in
  if len <? 1 then Err OPUS_INVALID_PACKET
  else
    ch ← get data 1;
    let count := Z.land ch 0x3F in
    if (count <=? 0) || (framesize * count >? 5760) then Err OPUS_INVALID_PACKET
    else
      let len := len - 1 in
      '(p, len, pad) ←
        (if negb (Z.land ch 0x40 =? 0) then parse_padding (Z.to_nat len + 1) data 2 len 0
         else Ok (2, len, 0));
      if len <? 0 then Err OPUS_INVALID_PACKET
      else
        parse_sizes3 self_delimited (Z.land ch 0x80 =? 0) count pad last_size data p len size.

(** [switch (toc&0x3)] *)
Definition parse_switch (self_delimited : bool) (framesize code : Z) (data : list Z) (len : Z)
    (size : list Z) : res pstate :=
  if code =? 0 then
    Ok {| ps_p := 1; ps_len := len; ps_count := 1; ps_cbr := false; ps_last_size := len;
          ps_pad := 0; ps_size := size |}
  else if code =? 1 then parse_code1 self_delimited len size
  else if code =? 2 then parse_code2 data len size
  else parse_code3 self_delimited framesize data len size.

(** After the switch: the size of the last frame. *)
Definition parse_last (self_delimited : bool) (data : list Z) (s : pstate) : res pstate :=
  if self_delimited then
    '(bytes, sz) ← parse_size data s.(ps_p) s.(ps_len);
    size ← put s.(ps_size) (s.(ps_count) - 1) sz;
    let len := s.(ps_len) - bytes in
    if (sz <? 0) || (sz >? len) then Err OPUS_INVALID_PACKET
    else
      let p := s.(ps_p) + bytes in
      let ret size := Ok {| ps_p := p; ps_len := len; ps_count := s.(ps_count); ps_cbr := s.(ps_cbr);
                            ps_last_size := s.(ps_last_size); ps_pad := s.(ps_pad); ps_size := size |} in
      if s.(ps_cbr) then
        if sz * s.(ps_count) >? len then Err OPUS_INVALID_PACKET
        else size ← fill_sizes (Z.to_nat (s.(ps_count) - 1)) 0 sz size; ret size
      else if bytes + sz >? s.(ps_last_size) then Err OPUS_INVALID_PACKET
      else ret size
  else
    if s.(ps_last_size) >? 1275 then Err OPUS_INVALID_PACKET
    else
      size ← put s.(ps_size) (s.(ps_count) - 1) (i16 s.(ps_last_size));
      Ok {| ps_p := s.(ps_p); ps_len := s.(ps_len); ps_count := s.(ps_count); ps_cbr := s.(ps_cbr);
            ps_last_size := s.(ps_last_size); ps_pad := s.(ps_pad); ps_size := size |}.

(** [frames[i] = data; data += size[i]] for [n] frames from [i]: the offsets and
    the final position. *)
Fixpoint frame_offsets (n : nat) (i p : Z) (size : list Z) : list Z * Z :=
  match n with
  | O => ([], p)
  | S n => let '(fs, q) := frame_offsets n (i + 1) (p + size.[i]) size in (p :: fs, q)
  end.

(** What [opus_packet_parse_impl] stores through its pointers; the return value
    is [pr_count].  Offsets are relative to the packet. *)
Record parsed := {
  pr_toc : Z;
  pr_count : Z;
  pr_frames : list Z;
  pr_size : list Z;
  pr_payload_offset : Z;
  pr_packet_offset : Z;
  pr_padding : Z;
  pr_padding_len : Z
}.

(** [data] holds the [len] bytes of the packet. *)
Definition opus_packet_parse_impl (data : list Z) (len : Z) (self_delimited : bool) (size : list Z)
    : res parsed :=
  if len <? 0 then Err OPUS_BAD_ARG
  else if len =? 0 then Err OPUS_INVALID_PACKET
  else
    framesize ← opus_packet_get_samples_per_frame data 48000;
    toc ← get data 0;
    let len := len - 1 in
    let code := Z.land toc 3 in
    s ← parse_switch self_delimited framesize code data len size;
    s ← parse_last self_delimited data s;
    let '(frames, q) := frame_offsets (Z.to_nat s.(ps_count)) 0 s.(ps_p) s.(ps_size) in
    Ok {| pr_toc := toc; pr_count := s.(ps_count); pr_frames := frames; pr_size := s.(ps_size);
          pr_payload_offset := s.(ps_p); pr_packet_offset := s.(ps_pad) + q;
          pr_padding := q; pr_padding_len := s.(ps_pad) |}.

Definition opus_packet_parse (data : list Z) (len : Z) (size : list Z) : res parsed :=
  opus_packet_parse_impl data len false size.

(** The first byte of the first frame says whether there is redundancy. *)
Definition opus_packet_has_lbrr (packet : list Z) (len : Z) (size : list Z) : res bool :=
  packet_mode ← opus_packet_get_mode packet;
  if packet_mode =? MODE_CELT_ONLY then Ok false
  else
    packet_frame_size ← opus_packet_get_samples_per_frame packet 48000;
    let nb_frames := if packet_frame_size >? 960 then packet_frame_size / 960 else 1 in
    packet_stream_channels ← opus_packet_get_nb_channels packet;
    r ← opus_packet_parse packet len size;
    b ← get packet r.(pr_frames).[0];
    let lbrr := negb (Z.land (Z.shiftr b (7 - nb_frames)) 1 =? 0) in
    Ok (if packet_stream_channels =? 2 then
          lbrr || negb (Z.land (Z.shiftr b (6 - 2 * nb_frames)) 1 =? 0)
        else lbrr).
