(* ===== verification/PacketProofs.v ===== *)
(** * Parsing is safe and yields frames inside the packet *)

From S2P Require Import Prelude Memory Packet.

(** ** Sums of sizes *)

Fixpoint sumto (size : list Z) (k : nat) : Z :=
  match k with O => 0 | S k => sumto size k + size.[Z.of_nat k] end.

Lemma sumto_ext s s' k : (forall i, 0 <= i < Z.of_nat k -> s.[i] = s'.[i]) -> sumto s k = sumto s' k.
Proof.
  induction k as [|k IH]; intros H; [done|]. cbn [sumto]. rewrite IH by (intros; apply H; lia).
  rewrite H by lia. done.
Qed.

Lemma sumto_wr s i v k : Z.of_nat k <= i -> sumto s.[i <- v] k = sumto s k.
Proof. intros H. apply sumto_ext. intros j Hj. apply rd_wr_ne. lia. Qed.

Lemma sumto_const s k v : (forall i, 0 <= i < Z.of_nat k -> s.[i] = v) -> sumto s k = Z.of_nat k * v.
Proof.
  induction k as [|k IH]; intros H; [done|]. cbn [sumto]. rewrite IH by (intros; apply H; lia).
  rewrite H by lia. lia.
Qed.

(** The bytes that a size takes in the header, and their sum. *)
Definition size_bytes (n : Z) : Z := 1 + b2z (n >=? 252).
Fixpoint hdrto (size : list Z) (k : nat) : Z :=
  match k with O => 0 | S k => hdrto size k + size_bytes size.[Z.of_nat k] end.

Lemma hdrto_ext s s' k : (forall i, 0 <= i < Z.of_nat k -> s.[i] = s'.[i]) -> hdrto s k = hdrto s' k.
Proof.
  induction k as [|k IH]; intros H; [done|]. cbn [hdrto]. rewrite IH by (intros; apply H; lia).
  rewrite H by lia. done.
Qed.

Lemma hdrto_wr s i v k : Z.of_nat k <= i -> hdrto s.[i <- v] k = hdrto s k.
Proof. intros H. apply hdrto_ext. intros j Hj. apply rd_wr_ne. lia. Qed.

(** All sizes up to [k] are those of Opus frames. *)
Definition sizes_ok (size : list Z) (k : Z) : Prop := forall i, 0 <= i < k -> 0 <= size.[i] <= 1275.

Lemma sizes_ok_wr size k v : sizes_ok size k -> 0 <= k < len size -> 0 <= v <= 1275 -> sizes_ok size.[k <- v] (k + 1).
Proof.
  intros Hs Hk Hv i Hi. destruct (decide (i = k)) as [->|]; [by rewrite rd_wr_eq by lia|].
  rewrite rd_wr_ne by lia. apply Hs. lia.
Qed.

Lemma sizes_ok_sum size k : sizes_ok size (Z.of_nat k) -> 0 <= sumto size k.
Proof.
  induction k as [|k IH]; intros H; cbn [sumto]; [lia|].
  pose proof (H (Z.of_nat k) ltac:(lia)). assert (0 <= sumto size k); [|lia].
  apply IH. intros i Hi. apply H. lia.
Qed.

(** ** The pieces *)

Section Parse.
Context (data : list Z).
Hypothesis Hdata : bytes data.

Lemma sat_parse_size p l :
  0 <= p -> p + l <= len data ->
  sat (parse_size data p l) (fun '(b, s) =>
    (s = -1 /\ b = -1) \/ (1 <= b <= 2 /\ b <= l /\ 0 <= s <= 1275 /\ b = size_bytes s)).
Proof.
  intros Hp Hl. unfold parse_size. destruct (Z.ltb_spec l 1); [apply sat_ok; lia|].
  eapply sat_bind; [apply sat_get; [done|lia]|]. intros d0 [_ Hd0]. cbv beta.
  unfold size_bytes. destruct (Z.ltb_spec d0 252).
  { apply sat_ok. right. destruct (Z.geb_spec d0 252); cbn [b2z]; lia. }
  destruct (Z.ltb_spec l 2); [apply sat_ok; lia|].
  eapply sat_bind; [apply sat_get; [done|lia]|]. intros d1 [_ Hd1]. apply sat_ok.
  rewrite i16_small by lia. right. destruct (Z.geb_spec (4 * d1 + d0) 252); cbn [b2z]; lia.
Qed.

Lemma sat_padding fuel p l pad :
  0 <= p -> p + l <= len data -> 0 <= pad -> (Z.to_nat l < fuel)%nat ->
  sat (parse_padding fuel data p l pad) (fun '(p', l', pad') =>
    p <= p' /\ p' + l' + pad' = p + l + pad /\ 0 <= pad').
Proof.
  revert p l pad. induction fuel as [|fuel IH]; intros p l pad Hp Hl Hpad Hf; [lia|].
  cbn [parse_padding]. destruct (Z.leb_spec l 0); [done|].
  eapply sat_bind; [apply sat_get; [done|lia]|]. intros b [_ Hb]. cbv beta zeta.
  destruct (Z.eqb_spec b 255); [|apply sat_ok; lia].
  eapply sat_impl; [apply IH; lia|]. intros [[p' l'] pad'] (H1 & H2 & H3). lia.
Qed.

Lemma sat_vbr n i p l last size :
  0 <= i -> i + Z.of_nat n < len size -> 0 <= p -> p + l <= len data -> 0 <= l ->
  sizes_ok size i -> last = l - sumto size (Z.to_nat i) ->
  sat (parse_vbr_sizes n i data p l last size) (fun '(p', l', last', size') =>
    p <= p' /\ p' + l' = p + l /\ 0 <= l' /\ len size' = len size /\
    sizes_ok size' (i + Z.of_nat n) /\ last' = l' - sumto size' (Z.to_nat i + n) /\
    p' = p + (hdrto size' (Z.to_nat i + n) - hdrto size (Z.to_nat i))).
Proof.
  revert i p l last size. induction n as [|n IH]; intros i p l last size Hi Hn Hp Hl Hl0 Hs Hlast.
  { cbn [parse_vbr_sizes]. apply sat_ok. rewrite Nat.add_0_r. rewrite Z.add_0_r. split_and!; done || lia. }
  cbn [parse_vbr_sizes]. eapply sat_bind; [by apply sat_parse_size|]. intros [b s] Hbs. cbv beta in Hbs.
  eapply sat_bind; [apply sat_put; lia|]. intros size1 ->. cbv zeta.
  destruct (Z.ltb_spec s 0); [done|]. rewrite Z.gtb_ltb. destruct (Z.ltb_spec (l - b) s); [done|].
  cbn [orb]. destruct Hbs as [Hbs|Hbs]; [lia|].
  eapply sat_impl; [apply (IH (i + 1) (p + b) (l - b))|].
  - lia.
  - rewrite len_wr. lia.
  - lia.
  - lia.
  - lia.
  - apply sizes_ok_wr; done || lia.
  - replace (Z.to_nat (i + 1)) with (S (Z.to_nat i)) by lia. cbn [sumto].
    rewrite sumto_wr, Z2Nat.id, rd_wr_eq by lia. lia.
  - intros [[[p' l'] last'] size']. rewrite len_wr. intros (H1 & H2 & H3 & H4 & H5 & H6 & H7).
    replace (Z.to_nat (i + 1) + n)%nat with (Z.to_nat i + S n)%nat in H6, H7 by lia.
    replace (Z.to_nat (i + 1)) with (S (Z.to_nat i)) in H7 by lia. cbn [hdrto] in H7.
    rewrite hdrto_wr, Z2Nat.id, rd_wr_eq in H7 by lia.
    replace (i + 1 + Z.of_nat n) with (i + Z.of_nat (S n)) in H5 by lia. split_and!; done || lia.
Qed.

Lemma sat_fill n i v size :
  0 <= i -> i + Z.of_nat n <= len size ->
  sat (fill_sizes n i v size) (fun size' =>
    len size' = len size /\ (forall j, i <= j < i + Z.of_nat n -> size'.[j] = v) /\
    (forall j, j < i \/ i + Z.of_nat n <= j -> size'.[j] = size.[j])).
Proof.
  revert i size. induction n as [|n IH]; intros i size Hi Hn; cbn [fill_sizes].
  { apply sat_ok. split_and!; [done|lia|done]. }
  eapply sat_bind; [apply sat_put; lia|]. intros size1 ->.
  eapply sat_impl; [apply (IH (i + 1)); rewrite ?len_wr; lia|]. rewrite len_wr.
  intros size' (H1 & H2 & H3). split_and!; [done| |].
  - intros j Hj. destruct (decide (j = i)) as [->|]; [|apply H2; lia].
    rewrite H3 by lia. by rewrite rd_wr_eq by lia.
  - intros j Hj. rewrite H3 by lia. apply rd_wr_ne. lia.
Qed.

(** ** The state after the table-of-contents byte and the frame counts *)

(** [n] is the size of the array of sizes. *)
Record pinv (framesize n : Z) (sd : bool) (s : pstate) : Prop := {
  pi_p : 1 <= s.(ps_p);
  pi_len : 0 <= s.(ps_len);
  pi_pad : 0 <= s.(ps_pad);
  pi_total : s.(ps_p) + s.(ps_len) + s.(ps_pad) = len data;
  pi_count : 1 <= s.(ps_count) <= 48 /\ s.(ps_count) <= n;
  pi_dur : framesize * s.(ps_count) <= 5760;
  pi_size : len s.(ps_size) = n;
  pi_vbr : s.(ps_cbr) = false -> sizes_ok s.(ps_size) (s.(ps_count) - 1) /\
    0 <= s.(ps_last_size) /\
    s.(ps_last_size) + sumto s.(ps_size) (Z.to_nat (s.(ps_count) - 1)) = s.(ps_len);
  pi_hdr : (if s.(ps_count) <=? 2 then 1 else 2) +
    (if s.(ps_cbr) then 0 else hdrto s.(ps_size) (Z.to_nat (s.(ps_count) - 1))) <= s.(ps_p);
  pi_cbr : s.(ps_cbr) = true -> sd = false ->
    0 <= s.(ps_last_size) /\ s.(ps_last_size) * s.(ps_count) = s.(ps_len) /\
    forall i, 0 <= i < s.(ps_count) - 1 -> s.(ps_size).[i] = i16 s.(ps_last_size)
}.

Lemma sat_code1 sd l size framesize :
  0 <= l -> 1 + l = len data -> 2 <= len size -> framesize <= 2880 ->
  sat (parse_code1 sd l size) 
    (fun s => pinv framesize (len size) sd s /\ s.(ps_count) = 2).
Proof.
  intros Hl Hd Hs Hf. unfold parse_code1. destruct sd; cbn [negb].
  { apply sat_ok. split; [|done]. split; cbn; try done || lia. }
  destruct (Z.eqb_spec (Z.land l 1) 0) as [E|]; [|done]. cbn [negb].
  change 1 with (2 ^ 1 - 1) in E at 1. rewrite land_pow2_pred in E by lia. change (2 ^ 1) with 2 in E.
  eapply sat_bind; [apply sat_put; lia|]. intros size1 ->. apply sat_ok. split; [|done].
  split; cbn -[Z.div]; try done || lia.
  - by rewrite len_wr.
  - intros _ _. split_and!; [dlia|dlia|]. intros i Hi. assert (i = 0) as -> by lia.
    rewrite rd_wr_eq by lia. done.
Qed.

Lemma sat_code2 sd l size framesize :
  0 <= l -> 1 + l = len data -> 2 <= len size -> framesize <= 2880 ->
  sat (parse_code2 data l size) 
    (fun s => pinv framesize (len size) sd s /\ s.(ps_count) = 2).
Proof.
  intros Hl Hd Hs Hf. unfold parse_code2.
  eapply sat_bind; [apply sat_parse_size; lia|]. intros [b s] Hbs. cbv beta in Hbs.
  eapply sat_bind; [apply sat_put; lia|]. intros size1 ->. cbv zeta.
  destruct (Z.ltb_spec s 0); [done|]. rewrite Z.gtb_ltb. destruct (Z.ltb_spec (l - b) s); [done|].
  cbn [orb]. destruct Hbs as [Hbs|Hbs]; [lia|]. apply sat_ok. split; [|done].
  split; cbn -[sumto]; try done || lia.
  - by rewrite len_wr.
  - intros _. change (Z.to_nat (2 - 1)) with 1%nat. cbn [sumto].
    change (Z.of_nat 0) with 0. rewrite rd_wr_eq by lia.
    split_and!; [|lia|lia]. intros i Hi. assert (i = 0) as -> by lia. rewrite rd_wr_eq by lia. lia.
  - change (Z.to_nat (2 - 1)) with 1%nat. cbn [hdrto]. change (Z.of_nat 0) with 0. rewrite rd_wr_eq by lia. lia.
Qed.

Lemma sat_code3 sd l size framesize :
  0 <= l -> 1 + l = len data -> 120 <= framesize ->
  (1 <= l -> Z.land data.[1] 63 <= 48 -> Z.land data.[1] 63 <= len size) ->
  sat (parse_code3 sd framesize data l size)
    (fun s => pinv framesize (len size) sd s /\ s.(ps_count) = Z.land data.[1] 63).
Proof.
  intros Hl Hd Hf Hs. unfold parse_code3.
  destruct (Z.ltb_spec l 1); [done|].
  eapply sat_bind; [apply sat_get; [done|lia]|]. intros ch [-> Hch]. cbv beta zeta. set (ch := data.[1]) in *.
  rewrite Z.gtb_ltb. set (count := Z.land ch 63).
  destruct (Z.leb_spec count 0); [done|]. destruct (Z.ltb_spec 5760 (framesize * count)); [done|].
  cbn [orb]. assert (Hc : 1 <= count <= 48) by nia. specialize (Hs ltac:(lia) ltac:(lia)). fold count in Hs.
  eapply (sat_bind _ _ (fun '(p, l', pad) => 2 <= p /\ p + l' + pad = len data /\ 0 <= pad)).
  { destruct (Z.land ch 64 =? 0); cbn [negb]; [apply sat_ok; lia|].
    eapply sat_impl; [apply sat_padding; lia|]. intros [[p l'] pad] (? & ? & ?). lia. }
  intros [[p l'] pad] (Hp & Ht & Hpad).
  destruct (Z.ltb_spec l' 0); [done|].
  unfold parse_sizes3. destruct (Z.land ch 128 =? 0); cbn [negb].
  - destruct sd; cbn [negb].
    { apply sat_ok. split; [|done]. split; cbn; try done || lia. destruct (count <=? 2); lia. }
    destruct (Z.eqb_spec (l' / count * count) l') as [E|]; [|done]. cbn [negb].
    eapply sat_bind; [apply sat_fill; lia|]. intros size' (Hlen & Hin & _). apply sat_ok. split; [|done].
    split; cbn -[Z.div]; try done || lia; [destruct (count <=? 2); lia|]. intros _ _. split_and!; [dnia|done|].
    intros i Hi. apply Hin. lia.
  - eapply sat_bind.
    { apply sat_vbr; try lia; [intros i Hi; lia|]. change (Z.to_nat 0) with 0%nat. cbn [sumto]. lia. }
    intros [[[p2 l2] last2] size2] (H2' & H3 & H4 & H5 & H6 & H7 & H8).
    destruct (Z.ltb_spec last2 0); [done|]. apply sat_ok. split; [|done].
    replace (Z.to_nat 0 + Z.to_nat (count - 1))%nat with (Z.to_nat (count - 1)) in H7, H8 by lia.
    change (hdrto size (Z.to_nat 0)) with 0 in H8.
    replace (0 + Z.of_nat (Z.to_nat (count - 1))) with (count - 1) in H6 by lia.
    split; cbn -[sumto hdrto]; try done || lia; [|destruct (count <=? 2); lia].
    intros _. split_and!; [done|lia|lia].
Qed.

(** ** The size of the last frame *)

Record pdone (framesize n : Z) (sd : bool) (s : pstate) : Prop := {
  pd_p : 1 <= s.(ps_p);
  pd_pad : 0 <= s.(ps_pad);
  pd_count : 1 <= s.(ps_count) <= 48;
  pd_dur : framesize * s.(ps_count) <= 5760;
  pd_len : len s.(ps_size) = n;
  pd_sizes : sizes_ok s.(ps_size) s.(ps_count);
  pd_hdr : exists cbr : bool, (cbr = true -> forall i, 0 <= i < s.(ps_count) -> s.(ps_size).[i] = s.(ps_size).[0]) /\
    (if s.(ps_count) <=? 2 then 1 else 2) +
    (if cbr then 0 else hdrto s.(ps_size) (Z.to_nat (s.(ps_count) - 1))) +
    (if sd then size_bytes s.(ps_size).[s.(ps_count) - 1] else 0) <= s.(ps_p);
  pd_inside : s.(ps_p) + sumto s.(ps_size) (Z.to_nat s.(ps_count)) + s.(ps_pad) <= len data;
  pd_total : sd = false ->
    s.(ps_p) + sumto s.(ps_size) (Z.to_nat s.(ps_count)) + s.(ps_pad) = len data
}.

Lemma sumto_pred size count :
  1 <= count -> sumto size (Z.to_nat count) = sumto size (Z.to_nat (count - 1)) + size.[count - 1].
Proof.
  intros H. replace (Z.to_nat count) with (S (Z.to_nat (count - 1))) by lia. cbn [sumto].
  by rewrite Z2Nat.id by lia.
Qed.

Lemma sat_last framesize n sd s :
  pinv framesize n sd s ->
  sat (parse_last sd data s) (fun s' => pdone framesize n sd s' /\ s'.(ps_count) = s.(ps_count)).
Proof.
  intros [Hp Hl Hpad Htot Hc Hd Hs Hv Hh Hcb]. unfold parse_last.
  destruct s as [p l count cbr last pad size]; cbn [ps_p ps_len ps_count ps_cbr ps_last_size ps_pad ps_size] in *.
  destruct sd.
  - eapply sat_bind; [apply sat_parse_size; lia|]. intros [b z] Hbs. cbv beta in Hbs.
    eapply sat_bind; [apply sat_put; lia|]. intros size1 ->. cbv zeta.
    destruct (Z.ltb_spec z 0); [done|]. rewrite !Z.gtb_ltb. destruct (Z.ltb_spec (l - b) z); [done|].
    cbn [orb]. destruct Hbs as [Hbs|Hbs]; [lia|]. destruct cbr.
    + destruct (Z.ltb_spec (l - b) (z * count)); [done|].
      eapply sat_bind; [apply sat_fill; rewrite ?len_wr; lia|]. intros size' (Hlen & Hin & Hout).
      rewrite len_wr in Hlen.
      assert (Hall : forall i, 0 <= i < count -> size'.[i] = z).
      { intros i Hi. destruct (decide (i = count - 1)) as [->|]; [|apply Hin; lia].
        rewrite Hout by lia. apply rd_wr_eq. lia. }
      apply sat_ok. split; [|done]. split; cbn -[sumto]; try done || lia.
      * intros i Hi. rewrite Hall by lia. lia.
      * exists true. split; [intros _ i Hi; by rewrite !Hall by lia|]. rewrite Hall by lia. lia.
      * rewrite (sumto_const _ _ z) by (intros; apply Hall; lia). lia.
    + destruct (Z.ltb_spec last (b + z)); [done|]. destruct (Hv eq_refl) as (Hso & Hl0 & Hsum).
      apply sat_ok. split; [|done]. split; cbn -[sumto]; try done || lia.
      * by rewrite len_wr.
      * replace count with (count - 1 + 1) by lia. replace (count - 1 + 1 - 1) with (count - 1) by lia.
        apply sizes_ok_wr; done || lia.
      * exists false. split; [done|]. rewrite hdrto_wr, rd_wr_eq by lia. lia.
      * rewrite sumto_pred, sumto_wr, rd_wr_eq by lia. lia.
  - rewrite Z.gtb_ltb. destruct (Z.ltb_spec 1275 last); [done|].
    eapply sat_bind; [apply sat_put; lia|]. intros size1 ->.
    assert (H0 : 0 <= last) by (destruct cbr; [by apply Hcb|by apply Hv]).
    rewrite i16_small by lia.
    assert (Hso : sizes_ok size.[count - 1 <- last] count).
    { replace count with (count - 1 + 1) by lia. replace (count - 1 + 1 - 1) with (count - 1) by lia.
      apply sizes_ok_wr; [|lia|lia]. destruct cbr; [|by apply Hv].
      destruct (Hcb eq_refl eq_refl) as (_ & _ & He). intros i Hi. rewrite He, i16_small by lia. lia. }
    assert (Hsum : sumto size.[count - 1 <- last] (Z.to_nat count) = l).
    { rewrite sumto_pred, sumto_wr, rd_wr_eq by lia. destruct cbr; [|destruct (Hv eq_refl); lia].
      destruct (Hcb eq_refl eq_refl) as (_ & He & Hq). rewrite (sumto_const _ _ last); [rewrite Z2Nat.id by lia; nia|].
      intros i Hi. rewrite Hq, i16_small by lia. done. }
    apply sat_ok. split; [|done]. split; cbn -[sumto]; try done || lia; [by rewrite len_wr|].
    exists cbr. split; [|rewrite hdrto_wr by lia; lia]. intros ->.
    destruct (Hcb eq_refl eq_refl) as (_ & _ & He).
    assert (Hall : forall i, 0 <= i < count -> size.[count - 1 <- last].[i] = last).
    { intros i Hi. destruct (decide (i = count - 1)) as [->|]; [by rewrite rd_wr_eq by lia|].
      rewrite rd_wr_ne, He, i16_small by lia. done. }
    intros i Hi. by rewrite !Hall by lia.
Qed.
End Parse.

(** ** The whole parse *)

Lemma framesize_range toc :
  0 <= toc < 256 -> 120 <= samples_per_frame toc 48000 <= 2880.
Proof.
  intros H. pose proof (zforall_spec 256 0 (fun toc => (120 <=? samples_per_frame toc 48000) &&
    (samples_per_frame toc 48000 <=? 2880)) toc ltac:(by vm_compute) ltac:(lia)) as E.
  cbv beta in E. apply andb_true_iff in E as [E1 E2]. lia.
Qed.

Lemma frame_offsets_spec n i p size :
  0 <= i ->
  let '(fs, q) := frame_offsets n i p size in
  length fs = n /\
  (forall j, 0 <= j < Z.of_nat n ->
    fs.[j] = p + (sumto size (Z.to_nat (i + j)) - sumto size (Z.to_nat i))) /\
  q = p + (sumto size (Z.to_nat i + n) - sumto size (Z.to_nat i)).
Proof.
  revert i p. induction n as [|n IH]; intros i p Hi; cbn [frame_offsets].
  { rewrite Nat.add_0_r. split_and!; [done|lia|lia]. }
  specialize (IH (i + 1) (p + size.[i]) ltac:(lia)).
  destruct (frame_offsets n (i + 1) (p + size.[i]) size) as [fs q].
  destruct IH as (H1 & H2 & H3).
  replace (Z.to_nat (i + 1)) with (S (Z.to_nat i)) in * by lia. cbn [sumto Nat.add] in *.
  rewrite Z2Nat.id in * by lia.
  split_and!; [cbn; lia| |].
  - intros j Hj. destruct (decide (j = 0)) as [->|].
    { rewrite Z.add_0_r. change (p = p + (sumto size (Z.to_nat i) - sumto size (Z.to_nat i))). lia. }
    replace j with (1 + (j - 1)) by lia. rewrite rd_cons_S by lia. rewrite H2 by lia.
    replace (i + 1 + (j - 1)) with (i + j) by lia. replace (i + (1 + (j - 1))) with (i + j) by lia. lia.
  - rewrite Nat.add_succ_r. cbn [sumto Nat.add] in *. lia.
Qed.

(** What a successful parse promises: [toc] and [framesize] of the first byte,
    at most 48 frames and 120 ms, and frames that follow each other from the
    payload offset and end, with the padding, in the packet. *)
Record parse_ok (data : list Z) (sd : bool) (r : parsed) : Prop := {
  po_toc : r.(pr_toc) = data.[0];
  po_count : 1 <= r.(pr_count) <= 48;
  po_nb : opus_packet_get_nb_frames data (len data) = Ok r.(pr_count);
  po_dur : samples_per_frame data.[0] 48000 * r.(pr_count) <= 5760;
  po_sizes : forall i, 0 <= i < r.(pr_count) -> 0 <= r.(pr_size).[i] <= 1275;
  po_frames : len r.(pr_frames) = r.(pr_count);
  po_first : 1 <= r.(pr_payload_offset) /\ r.(pr_frames).[0] = r.(pr_payload_offset);
  po_next : forall i, 0 <= i < r.(pr_count) - 1 ->
    r.(pr_frames).[i + 1] = r.(pr_frames).[i] + r.(pr_size).[i];
  po_header : exists cbr : bool,
    (cbr = true -> forall i, 0 <= i < r.(pr_count) -> r.(pr_size).[i] = r.(pr_size).[0]) /\
    (if r.(pr_count) <=? 2 then 1 else 2) +
    (if cbr then 0 else hdrto r.(pr_size) (Z.to_nat (r.(pr_count) - 1))) +
    (if sd then size_bytes r.(pr_size).[r.(pr_count) - 1] else 0) <= r.(pr_payload_offset);
  po_padding : r.(pr_padding) =
    r.(pr_frames).[r.(pr_count) - 1] + r.(pr_size).[r.(pr_count) - 1] /\ 0 <= r.(pr_padding_len);
  po_inside : r.(pr_packet_offset) = r.(pr_padding) + r.(pr_padding_len) /\
    r.(pr_packet_offset) <= len data;
  po_total : sd = false -> r.(pr_packet_offset) = len data
}.

(** The array of sizes has room for the frames that the packet announces. *)
Definition room (data : list Z) (n : Z) : Prop :=
  forall c, opus_packet_get_nb_frames data (len data) = Ok c -> c <= 48 -> c <= n.

Lemma nb_frames_eq data :
  1 <= len data ->
  opus_packet_get_nb_frames data (len data) =
    if Z.land data.[0] 3 =? 0 then Ok 1
    else if negb (Z.land data.[0] 3 =? 3) then Ok 2
    else if len data <? 2 then Err OPUS_INVALID_PACKET
    else Ok (Z.land data.[1] 63).
Proof.
  intros H. unfold opus_packet_get_nb_frames. destruct (Z.ltb_spec (len data) 1); [lia|].
  rewrite (get_ok data 0) by lia. cbn [mbind res_bind]. cbv zeta.
  destruct (_ =? 0); [done|]. destruct (_ =? 3); [|done]. cbn [negb].
  destruct (Z.ltb_spec (len data) 2); [done|]. by rewrite get_ok by lia.
Qed.

Lemma sat_parse_impl data sd size :
  bytes data -> room data (len size) ->
  sat (opus_packet_parse_impl data (len data) sd size)
    (fun r => parse_ok data sd r /\ len r.(pr_size) = len size).
Proof.
  intros Hb Hs. unfold opus_packet_parse_impl. destruct (Z.ltb_spec (len data) 0); [done|].
  destruct (Z.eqb_spec (len data) 0); [done|].
  unfold opus_packet_get_samples_per_frame.
  rewrite get_ok by lia. pose proof (bytes_rd data 0 Hb) as Hr.
  set (toc := data.[0]) in *. pose proof (framesize_range toc Hr) as Hf.
  cbn [mbind res_bind]. cbv zeta.
  eapply (sat_bind _ _ (fun s => pinv data (samples_per_frame toc 48000) (len size) sd s /\
    opus_packet_get_nb_frames data (len data) = Ok s.(ps_count))).
  { unfold parse_switch. unfold room in Hs. rewrite (nb_frames_eq data) in Hs |- * by lia. fold toc in Hs |- *.
    destruct (Z.eqb_spec (Z.land toc 3) 0) as [E0|N0].
    { specialize (Hs 1 eq_refl ltac:(lia)). apply sat_ok. split; [|done].
      split; cbn -[samples_per_frame]; try done || lia. intros _.
      split_and!; [intros i Hi; lia|lia|]. change (Z.to_nat (1 - 1)) with 0%nat; cbn; lia. }
    destruct (Z.eqb_spec (Z.land toc 3) 3) as [E3|N3]; cbn [negb] in *.
    - rewrite E3. cbn [Z.eqb Pos.eqb]. destruct (Z.ltb_spec (len data) 2).
      { unfold parse_code3. destruct (Z.ltb_spec (len data - 1) 1); [done|lia]. }
      eapply sat_impl; [apply sat_code3; try (done || lia)|].
      + intros _ Hc. by apply Hs.
      + cbv beta. by intros s [Hi ->].
    - specialize (Hs 2 eq_refl ltac:(lia)).
      destruct (Z.eqb_spec (Z.land toc 3) 1); [|destruct (Z.eqb_spec (Z.land toc 3) 2) as [|N2]].
      + eapply sat_impl; [apply (sat_code1 data _ _ _ (samples_per_frame toc 48000)); done || lia|]. cbv beta. by intros s [Hi ->].
      + eapply sat_impl; [apply (sat_code2 data Hb sd _ _ (samples_per_frame toc 48000)); done || lia|]. cbv beta. by intros s [Hi ->].
      + exfalso. change 3 with (2 ^ 2 - 1) in N0, N2, N3, n0. rewrite land_pow2_pred in * by lia.
        change (2 ^ 2) with 4 in *. dlia. }
  intros s [Hi Hnb]. eapply sat_bind; [by apply sat_last|]. cbv beta.
  intros s' [[Hp Hpad Hc Hd Hl Hso Hh Hin Htot] Hcnt].
  pose proof (frame_offsets_spec (Z.to_nat (ps_count s')) 0 (ps_p s') (ps_size s') ltac:(lia)) as Ho.
  destruct (frame_offsets _ 0 _ _) as [fs q]. destruct Ho as (H1 & H2 & H3).
  cbn [sumto Z.to_nat Nat.add] in H2, H3. rewrite Z.sub_0_r in H3.
  assert (H2' : forall j, 0 <= j < ps_count s' -> fs.[j] = ps_p s' + sumto (ps_size s') (Z.to_nat j)).
  { intros j Hj. rewrite H2 by lia. change (Z.to_nat 0) with 0%nat. cbn [sumto].
    rewrite Z.add_0_l. lia. }
  change (Z.to_nat 0) with 0%nat in H3. cbn [sumto Nat.add] in H3.
  apply sat_ok. split; [|done]. split; cbn -[samples_per_frame sumto opus_packet_get_nb_frames]; try (done || lia).
  - by rewrite Hcnt.
  - unfold len. lia.
  - split; [lia|]. rewrite H2' by lia. change (Z.to_nat 0) with 0%nat. cbn. lia.
  - intros i Hii. rewrite !H2' by lia. replace (Z.to_nat (i + 1)) with (S (Z.to_nat i)) by lia.
    cbn [sumto]. rewrite Z2Nat.id by lia. lia.
  - rewrite H2' by lia. split; [|lia]. rewrite sumto_pred in H3 by lia. lia.
  - intros E. specialize (Htot E). lia.
Qed.

(** ** The one error of the parser *)

(** A failure has the code [c]. *)
Definition fails_only {A} (c : Z) (m : res A) : Prop := match m with Err e => e = c | _ => True end.

Lemma fails_bind {A B} c (m : res A) (f : A -> res B) :
  fails_only c m -> (forall x, fails_only c (f x)) -> fails_only c (m ≫= f).
Proof. intros Hm Hf. destruct m; simpl in *; auto. Qed.

Lemma fails_get c data p : fails_only c (get data p).
Proof. unfold get. by destruct (_ && _). Qed.
Lemma fails_put c a i v : fails_only c (put a i v).
Proof. unfold put. by destruct (_ && _). Qed.

(** Through binds, tests and tuples to the reads and writes. *)
Ltac fails := repeat first
  [ done | apply fails_get | apply fails_put
  | apply fails_bind; [|intros ?]
  | match goal with |- fails_only _ (if ?b then _ else _) => destruct b end
  | match goal with |- fails_only _ (let '_ := ?x in _) => destruct x end ].

Lemma fails_parse_size c data p n : fails_only c (parse_size data p n).
Proof. unfold parse_size. fails. Qed.

Lemma fails_padding fuel data p n pad : fails_only OPUS_INVALID_PACKET (parse_padding fuel data p n pad).
Proof. revert p n pad. induction fuel as [|fuel IH]; intros p n pad; cbn [parse_padding]; cbv zeta; fails. Qed.

Lemma fails_vbr n i data p l last size : fails_only OPUS_INVALID_PACKET (parse_vbr_sizes n i data p l last size).
Proof.
  revert i p l last size. induction n as [|n IH]; intros i p l last size; cbn [parse_vbr_sizes]; [done|].
  apply fails_bind; [apply fails_parse_size|]. intros [b s]. cbv zeta. fails.
Qed.

Lemma fails_fill c n i v size : fails_only c (fill_sizes n i v size).
Proof. revert i size. induction n as [|n IH]; intros i size; cbn [fill_sizes]; fails. Qed.

Lemma fails_switch sd framesize code data n size :
  fails_only OPUS_INVALID_PACKET (parse_switch sd framesize code data n size).
Proof.
  unfold parse_switch, parse_code1, parse_code2, parse_code3, parse_sizes3. cbv zeta.
  repeat first [apply fails_parse_size | apply fails_padding | apply fails_vbr | apply fails_fill | progress fails].
Qed.

Lemma parse_fails_invalid data n sd size :
  0 <= n -> fails_only OPUS_INVALID_PACKET (opus_packet_parse_impl data n sd size).
Proof.
  intros Hn. unfold opus_packet_parse_impl, opus_packet_get_samples_per_frame.
  destruct (Z.ltb_spec n 0); [lia|]. destruct (n =? 0); [done|].
  apply fails_bind; [fails|]. intros framesize. apply fails_bind; [fails|]. intros toc. cbv zeta.
  apply fails_bind; [apply fails_switch|]. intros s. apply fails_bind; [|intros s'; by destruct (frame_offsets _ _ _ _)].
  unfold parse_last. cbv zeta. repeat first [apply fails_parse_size | apply fails_fill | progress fails].
Qed.
