(* ===== verification/PacketBuild.v ===== *)
(** * The layout of packets, and that parsing inverts it

    [packet_header] is the header of a packet with frames of the given sizes:
    codes 0, 1 and 2 for one and two frames without padding, code 3 otherwise;
    [parse_built] shows that [opus_packet_parse_impl] reads the sizes back from
    any packet that starts with it. *)

From S2P Require Import Prelude Memory Packet PacketProofs.

(** ** Layout *)

(** [amount] bytes of a packet are padding: the length bytes and what they
    announce. *)
Definition pad_255s (amount : Z) : Z := (amount - 1) / 255.
Definition pad_header (amount : Z) : list Z :=
  if amount =? 0 then [] else repeat 255 (Z.to_nat (pad_255s amount)) ++ [amount - 255 * pad_255s amount - 1].
Definition pad_data (amount : Z) : Z := if amount =? 0 then 0 else amount - pad_255s amount - 1.

Definition vbr (lens : list Z) : bool := existsb (fun l => negb (l =? lens.[0])) lens.
Definition last_len (lens : list Z) : Z := lens.[len lens - 1].
Definition sd_header (sd : bool) (lens : list Z) : list Z := if sd then encode_size (last_len lens) else [].
Definition vbr_header (lens : list Z) : list Z :=
  if vbr lens then concat (map encode_size (removelast lens)) else [].

Definition count_byte (lens : list Z) (amount : Z) : Z :=
  Z.lor (Z.lor (len lens) (if vbr lens then 0x80 else 0)) (if amount =? 0 then 0 else 0x40).

Definition header3 (toc : Z) (sd : bool) (lens : list Z) (amount : Z) : list Z :=
  [Z.lor (Z.land toc 0xFC) 3; count_byte lens amount] ++ pad_header amount ++ vbr_header lens ++ sd_header sd lens.

Definition header012 (toc : Z) (sd : bool) (lens : list Z) : list Z :=
  match lens with
  | [_] => [Z.land toc 0xFC] ++ sd_header sd lens
  | [l0; l1] =>
      if l1 =? l0 then [Z.lor (Z.land toc 0xFC) 1] ++ sd_header sd lens
      else [Z.lor (Z.land toc 0xFC) 2] ++ encode_size l0 ++ sd_header sd lens
  | _ => []
  end.

(** The sizes that a packet can have. *)
Definition lens_ok (toc : Z) (lens : list Z) : Prop :=
  Forall (fun l => 0 <= l <= 1275) lens /\ 1 <= len lens <= 48 /\
  samples_per_frame toc 48000 * len lens <= 5760.

(** ** Sizes *)

Lemma len_encode_size n : len (encode_size n) = 1 + b2z (n >=? 252).
Proof.
  unfold encode_size. rewrite Z.geb_leb. destruct (Z.ltb_spec n 252), (Z.leb_spec 252 n); try lia; done.
Qed.

Lemma bytes_encode_size n : bytes (encode_size n).
Proof.
  unfold encode_size, bytes. destruct (n <? 252); repeat apply Forall_cons; try apply Forall_nil; apply u8_range.
Qed.

(** [parse_size] inverts [encode_size]. *)
Lemma parse_size_holds data p n l :
  holds data p (encode_size n) -> 0 <= n <= 1275 -> len (encode_size n) <= l ->
  parse_size data p l = Ok (len (encode_size n), n).
Proof.
  intros Hh Hn Hl. rewrite len_encode_size in *. unfold encode_size, parse_size in *. rewrite Z.geb_leb in *.
  destruct (Z.ltb_spec n 252), (Z.leb_spec 252 n); try lia; cbn [b2z] in *;
    (destruct (Z.ltb_spec l 1); [lia|]).
  - apply holds_cons in Hh as [-> _]. cbn [mbind res_bind]. rewrite u8_small by lia.
    destruct (Z.ltb_spec n 252); [|lia]. done.
  - change 3 with (2 ^ 2 - 1) in Hh. rewrite land_pow2_pred in Hh by lia. change (2 ^ 2) with 4 in Hh.
    cbv zeta in Hh. rewrite (u8_small (252 + n mod 4)) in Hh by dlia.
    rewrite Z.shiftr_div_pow2 in Hh by lia. change (2 ^ 2) with 4 in Hh.
    rewrite u8_small in Hh by dlia. apply holds_cons in Hh as [-> Hh]. apply holds_cons in Hh as [E _].
    cbn [mbind res_bind]. destruct (Z.ltb_spec (252 + n mod 4) 252); [dlia|].
    destruct (Z.ltb_spec l 2); [lia|]. rewrite E. cbn [mbind res_bind].
    rewrite i16_small by dlia. tup. dlia.
Qed.

Definition sumZ (l : list Z) : Z := foldr Z.add 0 l.

Lemma sumZ_app l1 l2 : sumZ (l1 ++ l2) = sumZ l1 + sumZ l2.
Proof. unfold sumZ. induction l1 as [|x l IH]; cbn [app foldr]; lia. Qed.
Lemma sumZ_nonneg l : Forall (fun x => 0 <= x <= 1275) l -> 0 <= sumZ l <= 1275 * len l.
Proof.
  unfold sumZ, len. induction 1 as [|x l Hx _ IH]; cbn [foldr length]; lia.
Qed.
Lemma sumZ_repeat v n : sumZ (repeat v n) = Z.of_nat n * v.
Proof. unfold sumZ. induction n as [|n IH]; cbn [repeat foldr]; lia. Qed.

(** The size bytes of VBR frames. *)
Lemma parse_vbr_holds data ls i p l last size :
  holds data p (concat (map encode_size ls)) -> Forall (fun x => 0 <= x <= 1275) ls ->
  len (concat (map encode_size ls)) + sumZ ls <= l -> 0 <= i -> i + len ls <= len size ->
  parse_vbr_sizes (length ls) i data p l last size =
  Ok (p + len (concat (map encode_size ls)), l - len (concat (map encode_size ls)),
      last - (len (concat (map encode_size ls)) + sumZ ls), splice size i ls).
Proof.
  revert i p l last size. induction ls as [|n ls IH]; intros i p l last size Hh Ho Hl Hi Hs.
  { cbn [map concat length parse_vbr_sizes]. change (sumZ []) with 0. change (len (@nil Z)) with 0. rewrite splice_nil. tup. }
  cbn [map concat length parse_vbr_sizes] in *. apply holds_app in Hh as [Hh1 Hh2].
  apply Forall_cons_1 in Ho as [Hn Ho]. rewrite len_app in *. pose proof (sumZ_nonneg ls Ho).
  change (sumZ (n :: ls)) with (n + sumZ ls) in *.
  assert (Hc : len (n :: ls) = 1 + len ls) by (unfold len; cbn [length]; lia). pose proof (len_nonneg ls).
  pose proof (len_nonneg (concat (map encode_size ls))). pose proof (len_nonneg (encode_size n)).
  rewrite (parse_size_holds _ _ n) by (done || lia). cbn [mbind res_bind].
  rewrite put_splice by lia. cbn [mbind res_bind].
  destruct (Z.ltb_spec n 0); [lia|]. rewrite Z.gtb_ltb. destruct (Z.ltb_spec (l - len (encode_size n)) n); [lia|].
  cbn [orb]. assert (Hone : len [n] = 1) by done.
  rewrite IH; try (done || lia); [|rewrite len_splice; lia].
  rewrite <- Hone at 1. rewrite splice_splice by lia. tup.
Qed.

(** The length bytes of the padding. *)
Lemma parse_padding_255s q fuel data p l pad r :
  holds data p (repeat 255 q ++ [r]) -> 0 <= r < 255 -> 255 * Z.of_nat q + 1 + r <= l -> (q < fuel)%nat ->
  parse_padding fuel data p l pad =
  Ok (p + Z.of_nat q + 1, l - (255 * Z.of_nat q + 1 + r), pad + 254 * Z.of_nat q + r).
Proof.
  revert fuel p l pad. induction q as [|q IH]; intros fuel p l pad Hh Hr Hl Hf;
    (destruct fuel as [|fuel]; [lia|]); cbn [parse_padding]; cbn [repeat app] in Hh;
    apply holds_cons in Hh as [E Hh]; rewrite E; (destruct (Z.leb_spec l 0); [lia|]); cbn [mbind res_bind].
  - destruct (Z.eqb_spec r 255); [lia|]. tup.
  - cbn [Z.eqb Pos.eqb]. rewrite IH by (done || lia). tup.
Qed.

Lemma len_pad_header amount : 0 <= amount -> len (pad_header amount) = if amount =? 0 then 0 else pad_255s amount + 1.
Proof.
  intros H. unfold pad_header, pad_255s. destruct (Z.eqb_spec amount 0); [done|].
  rewrite len_app. unfold len. rewrite repeat_length. cbn [length]. dlia.
Qed.

Lemma pad_split amount : 0 <= amount -> len (pad_header amount) + pad_data amount = amount /\ 0 <= pad_data amount.
Proof.
  intros H. rewrite len_pad_header by lia. unfold pad_data, pad_255s. destruct (Z.eqb_spec amount 0); dlia.
Qed.

Lemma parse_padding_holds amount data p l fuel :
  0 < amount -> holds data p (pad_header amount) -> amount <= l -> (Z.to_nat l < fuel)%nat ->
  parse_padding fuel data p l 0 = Ok (p + len (pad_header amount), l - amount, pad_data amount).
Proof.
  intros H Hh Hl Hf. rewrite len_pad_header by lia. unfold pad_header, pad_data in *.
  destruct (Z.eqb_spec amount 0); [lia|]. unfold pad_255s in *.
  rewrite (parse_padding_255s _ _ _ _ _ _ _ Hh) by dlia. rewrite Z2Nat.id by dlia. tup.
Qed.

Lemma fill_holds n i v size :
  0 <= i -> i + Z.of_nat n <= len size -> fill_sizes n i v size = Ok (splice size i (repeat v n)).
Proof.
  revert i size. induction n as [|n IH]; intros i size Hi Hn; cbn [fill_sizes repeat].
  { by rewrite splice_nil. }
  rewrite put_splice by lia. cbn [mbind res_bind]. assert (H1 : len [v] = 1) by done.
  assert (Hr : len (repeat v n) = Z.of_nat n) by (unfold len; by rewrite repeat_length).
  rewrite IH by (rewrite ?len_splice; lia). rewrite <- H1 at 1. by rewrite splice_splice by lia.
Qed.

(** ** Bits of the first two bytes *)

Lemma toc_bits toc k :
  0 <= toc < 256 -> 0 <= k < 4 ->
  let t := Z.lor (Z.land toc 0xFC) k in
  0 <= t < 256 /\ Z.land t 3 = k /\ Z.land t 0xFC = Z.land toc 0xFC /\
  samples_per_frame t 48000 = samples_per_frame toc 48000 /\
  samples_per_frame t 8000 = samples_per_frame toc 8000.
Proof.
  intros Ht Hk t. pose proof (zforall_spec 256 0 (fun toc => zforall 4 0 (fun k =>
    let t := Z.lor (Z.land toc 0xFC) k in
    (0 <=? t) && (t <? 256) && (Z.land t 3 =? k) && (Z.land t 0xFC =? Z.land toc 0xFC) &&
    (samples_per_frame t 48000 =? samples_per_frame toc 48000) &&
    (samples_per_frame t 8000 =? samples_per_frame toc 8000))) toc ltac:(by vm_compute) ltac:(lia)) as E.
  cbv beta in E. apply (zforall_spec 4 0 _ k) in E; [|lia]. cbv beta zeta in E. fold t in E.
  repeat (apply andb_true_iff in E as [E ?]). split_and!; lia.
Qed.

Lemma count_bits c v a :
  1 <= c <= 48 ->
  let b := Z.lor (Z.lor c (if v : bool then 0x80 else 0)) (if a : bool then 0 else 0x40) in
  0 <= b < 256 /\ Z.land b 63 = c /\ (Z.land b 64 =? 0) = a /\ (Z.land b 128 =? 0) = negb v.
Proof.
  intros Hc b. pose proof (zforall_spec 48 1 (fun c =>
    forallb (fun v : bool => forallb (fun a : bool =>
      let b := Z.lor (Z.lor c (if v then 0x80 else 0)) (if a then 0 else 0x40) in
      (0 <=? b) && (b <? 256) && (Z.land b 63 =? c) && (eqb (Z.land b 64 =? 0) a) && (eqb (Z.land b 128 =? 0) (negb v)))
      [true; false]) [true; false]) c ltac:(by vm_compute) ltac:(lia)) as E.
  cbv beta in E. rewrite forallb_forall in E. specialize (E v). rewrite forallb_forall in E.
  specialize (E ltac:(destruct v; cbn; auto) a ltac:(destruct a; cbn; auto)). cbv zeta in E. fold b in E.
  repeat (apply andb_true_iff in E as [E ?]).
  repeat match goal with H : eqb _ _ = true |- _ => apply eqb_prop in H end. split_and!; try lia; done.
Qed.

(** ** Lists of sizes *)

Lemma lens_split lens : 1 <= len lens -> lens = removelast lens ++ [last_len lens].
Proof.
  intros H. induction lens as [|x l _] using rev_ind; [unfold len in H; cbn in H; lia|].
  rewrite removelast_last. unfold last_len. rewrite len_app. change (len [x]) with 1.
  replace (len l + 1 - 1) with (len l + 0) by lia. by rewrite rd_app_r by lia.
Qed.

Lemma len_removelast (lens : list Z) : 1 <= len lens -> len (removelast lens) = len lens - 1.
Proof. intros H. rewrite (lens_split lens) at 2 by done. rewrite len_app. change (len [last_len lens]) with 1. lia. Qed.

Lemma rd_removelast lens i : 0 <= i < len lens - 1 -> (removelast lens).[i] = lens.[i].
Proof.
  intros H. rewrite (lens_split lens) at 2 by lia. rewrite rd_app_l; [done|]. rewrite len_removelast; lia.
Qed.

Lemma Forall_removelast P (lens : list Z) : 1 <= len lens -> Forall P lens -> Forall P (removelast lens) /\ P (last_len lens).
Proof.
  intros H Hf. rewrite (lens_split lens) in Hf by done. apply Forall_app in Hf as [H1 H2].
  split; [done|]. by apply Forall_cons_1 in H2 as [? _].
Qed.

Lemma sumZ_split lens : 1 <= len lens -> sumZ lens = sumZ (removelast lens) + last_len lens.
Proof. intros H. rewrite (lens_split lens) at 1 by done. rewrite sumZ_app. cbn. lia. Qed.

Lemma cbr_eq lens i : vbr lens = false -> 0 <= i < len lens -> lens.[i] = lens.[0].
Proof.
  intros Hv Hi. unfold vbr in Hv. destruct (Z.eqb_spec lens.[i] lens.[0]) as [|n]; [done|].
  assert (E : existsb (fun l => negb (l =? lens.[0])) lens = true); [|congruence].
  apply existsb_exists. exists lens.[i]. split.
  - unfold rd. destruct (Z.ltb_spec i 0); [lia|]. apply nth_In. unfold len in Hi. lia.
  - apply negb_true_iff. by apply Z.eqb_neq.
Qed.

Lemma cbr_repeat lens : vbr lens = false -> lens = repeat lens.[0] (length lens).
Proof.
  intros Hv. apply rd_ext; [unfold len; by rewrite repeat_length|]. intros i Hi.
  rewrite (cbr_eq lens i) by done. unfold rd at 2. destruct (Z.ltb_spec i 0); [lia|].
  rewrite nth_repeat_lt; [done|]. unfold len in Hi. lia.
Qed.

Lemma cbr_sum lens : vbr lens = false -> sumZ lens = len lens * lens.[0].
Proof. intros Hv. rewrite (cbr_repeat lens Hv) at 1. rewrite sumZ_repeat. unfold len. lia. Qed.

(** ** Parsing a packet of known layout *)

(** [H] is the header of [data], and frames and padding fill the rest; after a
    self-delimited packet there may be more. *)
Record built (data : list Z) (toc : Z) (sd : bool) (lens : list Z) (amount : Z) (H : list Z) : Prop := {
  bu_toc : 0 <= toc < 256;
  bu_lens : lens_ok toc lens;
  bu_amount : 0 <= amount;
  bu_holds : holds data 0 H;
  bu_inside : len H + sumZ lens + pad_data amount <= len data;
  bu_total : sd = false -> len H + sumZ lens + pad_data amount = len data
}.

Record reads (r : parsed) (lens : list Z) (amount : Z) (H : list Z) : Prop := {
  re_count : r.(pr_count) = len lens;
  re_offset : r.(pr_payload_offset) = len H;
  re_sizes : forall i, 0 <= i < len lens -> r.(pr_size).[i] = lens.[i];
  re_padding : r.(pr_padding_len) = pad_data amount
}.

(** The state that the switch over the codes leaves for [parse_last]. *)
Record switched (data : list Z) (sd : bool) (lens : list Z) (amount : Z) (H : list Z) (s : pstate) : Prop := {
  sw_count : s.(ps_count) = len lens;
  sw_p : s.(ps_p) + len (sd_header sd lens) = len H;
  sw_holds : holds data s.(ps_p) (sd_header sd lens);
  sw_pad : s.(ps_pad) = pad_data amount;
  sw_room : len lens <= len s.(ps_size);
  sw_cbr : s.(ps_cbr) = true -> vbr lens = false;
  sw_sizes : s.(ps_cbr) = false \/ sd = false -> forall i, 0 <= i < len lens - 1 -> s.(ps_size).[i] = lens.[i];
  sw_plain : sd = false -> s.(ps_last_size) = last_len lens;
  sw_len : sd = true -> len (sd_header sd lens) + (if s.(ps_cbr) then sumZ lens else last_len lens) <= s.(ps_len);
  sw_last : sd = true -> s.(ps_cbr) = false -> len (sd_header sd lens) + last_len lens <= s.(ps_last_size)
}.

Lemma parse_finish data toc sd lens amount H s :
  lens_ok toc lens -> switched data sd lens amount H s ->
  exists s', parse_last sd data s = Ok s' /\ s'.(ps_count) = len lens /\ s'.(ps_p) = len H /\
    s'.(ps_pad) = pad_data amount /\ forall i, 0 <= i < len lens -> s'.(ps_size).[i] = lens.[i].
Proof.
  intros (Ho & Hc & _) [Hcnt Hp Hh Hpad Hroom Hcbr Hsz Hplain Hlen Hlast].
  destruct (Forall_removelast _ lens ltac:(lia) Ho) as [_ Hl].
  destruct s as [p l count cbr last pad size]; cbn [ps_p ps_len ps_count ps_cbr ps_last_size ps_pad ps_size] in *.
  subst count pad. unfold parse_last; cbn [ps_p ps_len ps_count ps_cbr ps_last_size ps_pad ps_size].
  assert (Hwr : forall sz, len size = len sz -> (forall i, 0 <= i < len lens - 1 -> sz.[i] = lens.[i]) ->
    forall i, 0 <= i < len lens -> sz.[len lens - 1 <- last_len lens].[i] = lens.[i]).
  { intros sz Hz Hs i Hi. destruct (decide (i = len lens - 1)) as [->|].
    - by rewrite rd_wr_eq by lia.
    - rewrite rd_wr_ne by lia. apply Hs. lia. }
  destruct sd.
  - specialize (Hlen eq_refl). specialize (Hlast eq_refl). unfold sd_header in *.
    pose proof (sumZ_nonneg lens Ho).
    assert (Hle : last_len lens <= l - len (encode_size (last_len lens))).
    { destruct cbr; [|lia]. rewrite sumZ_split in Hlen by lia.
      pose proof (sumZ_nonneg (removelast lens) (proj1 (Forall_removelast _ lens ltac:(lia) Ho))). lia. }
    rewrite (parse_size_holds _ _ (last_len lens)) by (done || lia). cbn [mbind res_bind].
    unfold put. destruct (Z.leb_spec 0 (len lens - 1)), (Z.ltb_spec (len lens - 1) (len size)); try lia.
    cbn [andb mbind res_bind]. destruct (Z.ltb_spec (last_len lens) 0); [lia|]. rewrite !Z.gtb_ltb.
    destruct (Z.ltb_spec (l - len (encode_size (last_len lens))) (last_len lens)); [lia|]. cbn [orb].
    destruct cbr.
    + assert (Hl0 : last_len lens = lens.[0]) by (apply cbr_eq; auto; lia).
      destruct (Z.ltb_spec (l - len (encode_size (last_len lens))) (last_len lens * len lens)).
      { rewrite cbr_sum in Hlen by auto. nia. }
      rewrite fill_holds by (rewrite ?len_wr; lia). cbn [mbind res_bind].
      eexists; split; [done|]. cbn [ps_p ps_len ps_count ps_cbr ps_last_size ps_pad ps_size].
      split_and!; [done|lia|done|]. intros i Hi. set (rep := repeat _ _).
      assert (Hr : len rep = len lens - 1) by (unfold rep, len; rewrite repeat_length; unfold len in Hc; lia).
      rewrite (cbr_eq lens i), <- Hl0 by auto. destruct (decide (i = len lens - 1)) as [->|].
      * rewrite rd_splice_out by (rewrite ?len_wr; lia). by rewrite rd_wr_eq by lia.
      * rewrite rd_splice_in by (rewrite ?len_wr; lia). unfold rep, rd. destruct (Z.ltb_spec (i - 0) 0); [lia|].
        rewrite nth_repeat_lt; [done|lia].
    + destruct (Z.ltb_spec last (len (encode_size (last_len lens)) + last_len lens)); [specialize (Hlast eq_refl); lia|].
      eexists; split; [done|]. cbn [ps_p ps_len ps_count ps_cbr ps_last_size ps_pad ps_size].
      split_and!; [done|lia|done|]. apply Hwr; [done|]. apply Hsz. by left.
  - specialize (Hplain eq_refl). subst last. rewrite Z.gtb_ltb. destruct (Z.ltb_spec 1275 (last_len lens)); [lia|].
    unfold put. destruct (Z.leb_spec 0 (len lens - 1)), (Z.ltb_spec (len lens - 1) (len size)); try lia.
    cbn [andb mbind res_bind]. rewrite i16_small by lia.
    eexists; split; [done|]. cbn [ps_p ps_len ps_count ps_cbr ps_last_size ps_pad ps_size].
    change (len (sd_header false lens)) with 0 in Hp.
    split_and!; [done|lia|done|]. apply Hwr; [done|]. apply Hsz. by right.
Qed.

Lemma parse_via data toc sd lens amount H size s :
  bytes data -> room data (len size) -> lens_ok toc lens -> 1 <= len data ->
  parse_switch sd (samples_per_frame data.[0] 48000) (Z.land data.[0] 3) data (len data - 1) size = Ok s ->
  switched data sd lens amount H s ->
  exists r, opus_packet_parse_impl data (len data) sd size = Ok r /\ reads r lens amount H /\ parse_ok data sd r.
Proof.
  intros Hb Hr Hl Hd Es Hs. destruct (parse_finish data toc sd lens amount H s Hl Hs) as (s' & El & H1 & H2 & H3 & H4).
  pose proof (sat_parse_impl data sd size Hb Hr) as Hsat.
  unfold opus_packet_parse_impl in *. destruct (Z.ltb_spec (len data) 0); [lia|].
  destruct (Z.eqb_spec (len data) 0); [lia|]. unfold opus_packet_get_samples_per_frame in *.
  rewrite get_ok in * by lia. cbn [mbind res_bind] in *. cbv zeta in *. rewrite Es in *. cbn [mbind res_bind] in *.
  rewrite El in *. cbn [mbind res_bind] in *.
  destruct (frame_offsets _ _ _ _) as [fs q]. eexists; split; [done|]. destruct Hsat as [Hsat _].
  split; [|done]. split; cbn [pr_count pr_payload_offset pr_size pr_padding_len]; done.
Qed.

(** The array of sizes has room for the frames of the packet. *)
Lemma room_of data n : 1 <= len data ->
  (Z.land data.[0] 3 <> 3 -> (if Z.land data.[0] 3 =? 0 then 1 else 2) <= n) ->
  (Z.land data.[0] 3 = 3 -> Z.land data.[1] 63 <= n) -> room data n.
Proof.
  intros Hd H1 H2 c. rewrite nb_frames_eq by lia.
  destruct (Z.eqb_spec (Z.land data.[0] 3) 0); [intros [= <-]; lia|].
  destruct (Z.eqb_spec (Z.land data.[0] 3) 3); cbn [negb].
  - destruct (_ <? _); [done|]. intros [= <-]; auto.
  - intros [= <-]. lia.
Qed.

Lemma parse_sizes3_holds data toc sd lens amount H p l size last :
  lens_ok toc lens -> len lens <= len size ->
  p + len (vbr_header lens) + len (sd_header sd lens) = len H ->
  holds data p (vbr_header lens) -> holds data (p + len (vbr_header lens)) (sd_header sd lens) ->
  len (vbr_header lens) + len (sd_header sd lens) + sumZ lens <= l ->
  (sd = false -> len (vbr_header lens) + sumZ lens = l) ->
  exists s, parse_sizes3 sd (negb (vbr lens)) (len lens) (pad_data amount) last data p l size = Ok s /\
    switched data sd lens amount H s.
Proof.
  intros (Ho & Hc & _) Hsize HlH Hhv Hhs Hin Htot. unfold parse_sizes3. rewrite negb_involutive.
  pose proof (sumZ_nonneg lens Ho) as Hsum. pose proof (len_nonneg (sd_header sd lens)).
  destruct (Forall_removelast _ lens ltac:(lia) Ho) as [Hor Hol].
  pose proof (sumZ_split lens ltac:(lia)) as Hss. pose proof (len_removelast lens ltac:(lia)) as Hlr.
  unfold vbr_header in *. destruct (vbr lens) eqn:Ev; cbn [negb].
  - replace (Z.to_nat (len lens - 1)) with (length (removelast lens)) by (unfold len in Hlr, Hc; unfold len; lia).
    rewrite (parse_vbr_holds data (removelast lens)) by (done || lia). cbn [mbind res_bind].
    set (E := len (concat (map encode_size (removelast lens)))) in *.
    destruct (Z.ltb_spec (l - (E + sumZ (removelast lens))) 0); [lia|]. pose proof (sumZ_nonneg _ Hor).
    eexists; split; [done|]. split; cbn [ps_p ps_len ps_count ps_cbr ps_last_size ps_pad ps_size]; try (done || lia).
    + rewrite len_splice by lia. lia.
    + intros _ i Hi. rewrite rd_splice_in by lia. rewrite Z.sub_0_r. apply rd_removelast. lia.
    + intros E'. specialize (Htot E'). subst sd. change (len (sd_header false lens)) with 0 in *. lia.
  - change (len (@nil Z)) with 0 in *. rewrite Z.add_0_r in Hhs. destruct sd; cbn [negb].
    + eexists; split; [done|]. split; cbn [ps_p ps_len ps_count ps_cbr ps_last_size ps_pad ps_size]; try (done || lia).
    + specialize (Htot eq_refl). change (len (sd_header false lens)) with 0 in *.
      assert (Hq : l = lens.[0] * len lens) by (rewrite cbr_sum in * by done; lia).
      rewrite Hq, Z.div_mul by lia. rewrite Z.eqb_refl. cbn [negb].
      assert (Hl0 : last_len lens = lens.[0]) by (apply cbr_eq; auto; lia).
      rewrite i16_small, fill_holds by lia. cbn [mbind res_bind]. set (rep := repeat _ _).
      assert (Hr : len rep = len lens - 1) by (unfold rep, len; rewrite repeat_length; unfold len in Hc; lia).
      eexists; split; [done|]. split; cbn [ps_p ps_len ps_count ps_cbr ps_last_size ps_pad ps_size]; try (done || lia).
      * change (len (sd_header false lens)) with 0. lia.
      * rewrite len_splice by lia. lia.
      * intros _ i Hi. rewrite rd_splice_in by lia. rewrite (cbr_eq lens i) by (done || lia). unfold rep, rd.
        destruct (Z.ltb_spec (i - 0) 0); [lia|]. rewrite nth_repeat_lt; [done|lia].
Qed.

Lemma parse_built3 data toc sd lens amount size :
  bytes data -> len lens <= len size ->
  built data toc sd lens amount (header3 toc sd lens amount) ->
  exists r, opus_packet_parse_impl data (len data) sd size = Ok r /\
    reads r lens amount (header3 toc sd lens amount) /\ parse_ok data sd r.
Proof.
  intros Hb Hsize [Ht Hl Ha Hh Hin Htot]. pose proof Hl as (Ho & Hc & Hd).
  set (H := header3 toc sd lens amount) in *. unfold H, header3 in Hh. cbn [app] in Hh.
  destruct (toc_bits toc 3 Ht ltac:(lia)) as (_ & T1 & _ & T2 & _).
  destruct (count_bits (len lens) (vbr lens) (amount =? 0) Hc) as (_ & C1 & C2 & C3).
  fold (count_byte lens amount) in C1, C2, C3.
  pose proof (len_nonneg lens). pose proof (sumZ_nonneg lens Ho) as Hsum.
  destruct (pad_split amount Ha) as [Hp1 Hp2].
  apply holds_cons in Hh as [E0 Hh]. apply holds_cons in Hh as [E1 Hh].
  assert (HlH : len H = 2 + len (pad_header amount) + len (vbr_header lens) + len (sd_header sd lens)).
  { unfold H, header3. rewrite !len_app. change (len [_; _]) with 2. lia. }
  pose proof (len_nonneg (pad_header amount)). pose proof (len_nonneg (vbr_header lens)).
  pose proof (len_nonneg (sd_header sd lens)).
  assert (D0 : data.[0] = Z.lor (Z.land toc 252) 3) by (rewrite get_ok in E0 by lia; by injection E0).
  assert (D1 : data.[1] = count_byte lens amount) by (rewrite get_ok in E1 by lia; by injection E1).
  apply holds_app in Hh as [Hhp Hh]. apply holds_app in Hh as [Hhv Hhs].
  change (0 + 1 + 1) with 2 in *.
  assert (Hroom : room data (len size)).
  { apply room_of; [lia| |]; rewrite D0, T1; [lia|]. rewrite D1, C1. lia. }
  enough (exists s, parse_switch sd (samples_per_frame data.[0] 48000) (Z.land data.[0] 3) data (len data - 1) size = Ok s
    /\ switched data sd lens amount H s) as (s & Es & Hs) by (eapply parse_via; eauto; lia).
  rewrite D0, T1, T2. unfold parse_switch. cbn [Z.eqb Pos.eqb].
  unfold parse_code3. destruct (Z.ltb_spec (len data - 1) 1); [lia|].
  change (0 + 1) with 1 in E1. rewrite E1. cbn [mbind res_bind]. rewrite C1, C2, C3.
  rewrite Z.gtb_ltb. destruct (Z.leb_spec (len lens) 0); [lia|].
  destruct (Z.ltb_spec 5760 (samples_per_frame toc 48000 * len lens)); [lia|]. cbn [orb].
  assert (Epad : (if negb (amount =? 0) then parse_padding (Z.to_nat (len data - 1 - 1) + 1) data 2 (len data - 1 - 1) 0
      else Ok (2, len data - 1 - 1, 0)) = Ok (2 + len (pad_header amount), len data - 2 - amount, pad_data amount)).
  { destruct (Z.eqb_spec amount 0) as [->|]; cbn [negb].
    - change (len (pad_header 0)) with 0. change (pad_data 0) with 0. tup.
    - rewrite (parse_padding_holds amount) by (done || lia). tup. }
  rewrite Epad. cbn [mbind res_bind]. set (l := len data - 2 - amount) in *.
  destruct (Z.ltb_spec l 0); [lia|].
  apply (parse_sizes3_holds data toc sd lens amount H); try (done || lia).
  intros E. specialize (Htot E). subst sd. change (len (sd_header false lens)) with 0 in *. lia.
Qed.

(** What the first byte of a short header is. *)
Lemma built_toc data toc k rest :
  0 <= toc < 256 -> 0 <= k < 4 -> holds data 0 (Z.lor (Z.land toc 0xFC) k :: rest) ->
  1 <= len data /\ holds data 1 rest /\ Z.land data.[0] 3 = k /\
  samples_per_frame data.[0] 48000 = samples_per_frame toc 48000.
Proof.
  intros Ht Hk Hh. destruct (toc_bits toc k Ht Hk) as (_ & T1 & _ & T2 & _).
  assert (Hl : 1 <= len data).
  { destruct Hh as (_ & Hh & _). pose proof (len_nonneg rest). unfold len in *. cbn [length] in Hh. lia. }
  apply holds_cons in Hh as [E Hh]. rewrite get_ok in E by lia. injection E as E. rewrite E. done.
Qed.

Lemma parse_code1_holds data toc sd a size H :
  0 <= a <= 1275 -> 2 <= len size -> 1 + len (sd_header sd [a; a]) = len H -> holds data 1 (sd_header sd [a; a]) ->
  len H + 2 * a <= len data -> (sd = false -> len H + 2 * a = len data) ->
  lens_ok toc [a; a] ->
  exists s, parse_code1 sd (len data - 1) size = Ok s /\ switched data sd [a; a] 0 H s.
Proof.
  intros Ha Hs HH Hh Hin Htot Hl. unfold parse_code1.
  assert (Hv : vbr [a; a] = false) by (unfold vbr; cbn; by rewrite Z.eqb_refl).
  change (sumZ [a; a]) with (a + (a + 0)) in *. destruct sd; cbn [negb].
  - eexists; split; [done|]. split; cbn [ps_p ps_len ps_count ps_cbr ps_last_size ps_pad ps_size];
      change (len [a; a]) with 2; change (sumZ [a; a]) with (a + (a + 0)); try (done || lia || (intros; lia)).
  - specialize (Htot eq_refl). change (len (sd_header false [a; a])) with 0 in *.
    replace (len data - 1) with (a * 2) by lia. rewrite Z.div_mul by lia.
    assert (E : (Z.land (a * 2) 1 =? 0) = true).
    { rewrite (land_pow2_pred (a * 2) 1 ltac:(lia) : Z.land (a * 2) 1 = _). change (2 ^ 1) with 2. by rewrite Z.mod_mul. }
    rewrite E. cbn [negb]. unfold put. destruct (Z.ltb_spec 0 (len size)); [|lia]. cbn [Z.leb Z.compare andb mbind res_bind].
    eexists; split; [done|]. rewrite i16_small by lia.
    split; cbn [ps_p ps_len ps_count ps_cbr ps_last_size ps_pad ps_size];
      change (len [a; a]) with 2; change (len (sd_header false [a; a])) with 0; try (done || lia || (intros; lia)).
    + by rewrite len_wr.
    + intros _ i Hi. assert (i = 0) as -> by lia. by rewrite rd_wr_eq by lia.
Qed.

Lemma parse_code2_holds data toc sd a b size H :
  lens_ok toc [a; b] -> 2 <= len size -> 1 + len (encode_size a) + len (sd_header sd [a; b]) = len H ->
  holds data 1 (encode_size a) -> holds data (1 + len (encode_size a)) (sd_header sd [a; b]) ->
  len H + a + b <= len data -> (sd = false -> len H + a + b = len data) ->
  exists s, parse_code2 data (len data - 1) size = Ok s /\ switched data sd [a; b] 0 H s.
Proof.
  intros (Ho & _) Hs HH Hh1 Hh2 Hin Htot. unfold parse_code2.
  apply Forall_cons_1 in Ho as [Ha Ho]. apply Forall_cons_1 in Ho as [Hb _].
  pose proof (len_nonneg (sd_header sd [a; b])).
  rewrite (parse_size_holds _ _ a) by (done || lia). cbn [mbind res_bind].
  unfold put. destruct (Z.ltb_spec 0 (len size)); [|lia]. cbn [Z.leb Z.compare andb mbind res_bind].
  destruct (Z.ltb_spec a 0); [lia|]. rewrite Z.gtb_ltb.
  destruct (Z.ltb_spec (len data - 1 - len (encode_size a)) a); [lia|]. cbn [orb].
  assert (Hll : last_len [a; b] = b) by done.
  eexists; split; [done|]. split; cbn [ps_p ps_len ps_count ps_cbr ps_last_size ps_pad ps_size];
    change (len [a; b]) with 2; rewrite ?Hll; try (done || lia || (intros; lia)).
  - rewrite len_wr. lia.
  - intros _ i Hi. assert (i = 0) as -> by lia. by rewrite rd_wr_eq by lia.
  - intros E. specialize (Htot E). subst sd. change (len (sd_header false [a; b])) with 0 in *. lia.
Qed.

Lemma parse_built012 data toc sd lens size :
  bytes data -> len lens <= 2 -> len lens <= len size ->
  built data toc sd lens 0 (header012 toc sd lens) ->
  exists r, opus_packet_parse_impl data (len data) sd size = Ok r /\
    reads r lens 0 (header012 toc sd lens) /\ parse_ok data sd r.
Proof.
  intros Hb H2 Hsize [Ht Hl _ Hh Hin Htot]. pose proof Hl as (Ho & Hc & _).
  change (pad_data 0) with 0 in *. destruct lens as [|a [|b [|? ?]]].
  - change (len (@nil Z)) with 0 in *. lia.
  - cbn [header012 app] in *. set (H := Z.land toc 252 :: _) in *.
    assert (HH : len H = 1 + len (sd_header sd [a])) by (unfold H, len; cbn [length]; lia).
    unfold H in Hh. rewrite <- (Z.lor_0_r (Z.land toc 252)) in Hh.
    destruct (built_toc data toc 0 _ Ht ltac:(lia) Hh) as (Hd & Hh' & T1 & T2).
    change (sumZ [a]) with (a + 0) in *. change (len [a]) with 1 in *.
    apply Forall_cons_1 in Ho as [Ha _].
    eapply (parse_via data toc); try (done || lia).
    + apply room_of; [lia| |]; rewrite T1; cbn [Z.eqb]; lia.
    + rewrite T1. reflexivity.
    + assert (Hll : last_len [a] = a) by done.
      split; cbn [ps_p ps_len ps_count ps_cbr ps_last_size ps_pad ps_size]; change (len [a]) with 1; rewrite ?Hll;
        try (done || lia || (intros; lia)).
      intros E. specialize (Htot E). subst sd. change (len (sd_header false [a])) with 0 in *. lia.
  - change (len [a; b]) with 2 in *. cbn [header012] in *. change (sumZ [a; b]) with (a + (b + 0)) in *.
    apply Forall_cons_1 in Ho as [Ha Ho]. apply Forall_cons_1 in Ho as [Hb' _].
    destruct (Z.eqb_spec b a) as [->|].
    + destruct (built_toc data toc 1 _ Ht ltac:(lia) Hh) as (Hd & Hh' & T1 & T2).
      set (H := [Z.lor (Z.land toc 252) 1] ++ _) in *.
      assert (HH : len H = 1 + len (sd_header sd [a; a])) by (unfold H, len; cbn [length app]; lia).
      destruct (parse_code1_holds data toc sd a size H) as (s & Es & Hs); try (done || lia).
      { intros E. specialize (Htot E). lia. }
      eapply (parse_via data toc); try (done || lia).
      * apply room_of; [lia| |]; rewrite T1; cbn [Z.eqb Pos.eqb]; lia.
      * rewrite T1. exact Es.
    + destruct (built_toc data toc 2 _ Ht ltac:(lia) Hh) as (Hd & Hh' & T1 & T2).
      set (H := [Z.lor (Z.land toc 252) 2] ++ _) in *.
      apply holds_app in Hh' as [Hh1 Hh2].
      assert (HH : len H = 1 + len (encode_size a) + len (sd_header sd [a; b])) by (unfold H; rewrite !len_app; unfold len at 1; cbn [length]; lia).
      destruct (parse_code2_holds data toc sd a b size H) as (s & Es & Hs); try (done || lia).
      { intros E. specialize (Htot E). lia. }
      eapply (parse_via data toc); try (done || lia).
      * apply room_of; [lia| |]; rewrite T1; cbn [Z.eqb Pos.eqb]; lia.
      * rewrite T1. exact Es.
  - exfalso. unfold len in H2. cbn [length] in H2. lia.
Qed.
