(* ===== verification/Extensions.v ===== *)
(** * Extensions in the padding of a packet (src/extensions.c)

    An extension is a tag, the frame it belongs to and a payload, a pointer and a
    length.  The array that [opus_packet_extensions_parse] fills is the list of
    the extensions found; its capacity is the value of [*nb_extensions] on
    entry. *)

From S2P Require Import Prelude Memory.

Record opus_extension_data := {
  ext_id : Z;
  ext_frame : Z;
  ext_data : Z;
  ext_len : Z
}.

(** ** Walking over extensions *)

(** The lacing bytes of a long extension, [do ... while ( **data == 255)]: the
    pointer at the last byte read, the bytes left (none is an error), the
    payload length and the header size. *)
Fixpoint skip_lacing (fuel : nat) (mem : list Z) (data len bytes header_size : Z)
    : res (Z * Z * Z * Z) :=
  match fuel with
  | O => Fault
  | S fuel =>
      let data := data + 1 in
      let len := len - 1 in
      if len =? 0 then Ok (data, len, bytes, header_size)
      else
        b ← get mem data;
        let bytes := bytes + b in
        let header_size := header_size + 1 in
        if b =? 255 then skip_lacing fuel mem data len bytes header_size
        else Ok (data, len, bytes, header_size)
  end.

(** The pointer and the bytes left after the extension at [data], -1 for an
    error, and the header size. *)
Definition skip_extension (mem : list Z) (data len header_size : Z) : res (Z * Z * Z) :=
  if len =? 0 then Ok (data, 0, header_size)
  else
    b ← get mem data;
    let id := Z.shiftr b 1 in
    let L := Z.land b 1 in
    if (id =? 0) && (L =? 1) then
      if len <? 1 then Ok (data, -1, 1) else Ok (data + 1, len - 1, 1)
    else if (id >? 0) && (id <? 32) then
      if len <? 1 + L then Ok (data, -1, header_size)
      else Ok (data + (1 + L), len - (1 + L), 1)
    else if L =? 0 then Ok (data + len, 0, 1)
    else
      '(data, len, bytes, header_size) ← skip_lacing (Z.to_nat len) mem data len 0 1;
      if len =? 0 then Ok (data, -1, header_size)
      else
        let data := data + 1 in
        let len := len - 1 in
        if bytes <=? len then Ok (data + bytes, len - bytes, header_size)
        else Ok (data, -1, header_size).

(** [while (curr_len > 0)] of the count. *)
Fixpoint count_loop (fuel : nat) (mem : list Z) (curr_data curr_len count : Z) : res Z :=
  match fuel with
  | O => Fault
  | S fuel =>
      if curr_len >? 0 then
        b ← get mem curr_data;
        let id := Z.shiftr b 1 in
        '(curr_data, curr_len, _) ← skip_extension mem curr_data curr_len 0;
        if curr_len <? 0 then Err OPUS_INVALID_PACKET
        else count_loop fuel mem curr_data curr_len (if id >? 1 then count + 1 else count)
      else Ok count
  end.

Definition opus_packet_extensions_count (mem : list Z) (data len : Z) : res Z :=
  count_loop (Z.to_nat len + 1) mem data len 0.

(** The frame after a separator. *)
Definition next_frame (mem : list Z) (curr_data curr_len b curr_frame : Z) : res Z :=
  if Z.land b 1 =? 0 then Ok (curr_frame + 1)
  else if curr_len >=? 2 then b1 ← get mem (curr_data + 1); Ok (curr_frame + b1)
  else Ok curr_frame.

(** [while (curr_len > 0)] of the parser, in front of the extensions [acc] already
    stored. *)
Fixpoint parse_loop (fuel : nat) (mem : list Z) (curr_data curr_len curr_frame nb : Z)
    (acc : list opus_extension_data) : res (list opus_extension_data) :=
  match fuel with
  | O => Fault
  | S fuel =>
      if curr_len >? 0 then
        b ← get mem curr_data;
        let id := Z.shiftr b 1 in
        curr_frame ← (if id =? 1 then next_frame mem curr_data curr_len b curr_frame
                      else Ok curr_frame);
        if (id =? 1) && (curr_frame >=? 48) then Err OPUS_INVALID_PACKET
        else
          let start := curr_data in
          '(curr_data, curr_len, header_size) ← skip_extension mem curr_data curr_len 0;
          if curr_len <? 0 then Err OPUS_INVALID_PACKET
          else if id >? 1 then
            if len acc =? nb then Err OPUS_BUFFER_TOO_SMALL
            else
              parse_loop fuel mem curr_data curr_len curr_frame nb
                (acc ++ [{| ext_id := id; ext_frame := curr_frame;
                            ext_data := start + header_size;
                            ext_len := curr_data - start - header_size |}])
          else parse_loop fuel mem curr_data curr_len curr_frame nb acc
      else Ok acc
  end.

Definition opus_packet_extensions_parse (mem : list Z) (data len nb_extensions : Z)
    : res (list opus_extension_data) :=
  parse_loop (Z.to_nat len + 1) mem data len 0 nb_extensions [].

(** ** Writing extensions *)

(** [if (data) data[pos] = v] and the copy of a payload; [data] is [None] in the
    dry run that only computes the length. *)
Definition gput (data : option Z) (mem : list Z) (pos v : Z) : res (list Z) :=
  match data with Some d => put mem (d + pos) (u8 v) | None => Ok mem end.
Definition gcopy (data : option Z) (mem : list Z) (pos src n : Z) : res (list Z) :=
  match data with Some d => OPUS_MOVE mem (d + pos) src n | None => Ok mem end.

Record gstate := {
  g_mem : list Z;
  g_pos : Z;
  g_curr_frame : Z;
  g_written : Z
}.

(** The separator in front of an extension of a later frame. *)
Definition gen_separator (data : option Z) (len frame : Z) (s : gstate) : res gstate :=
  let '(Build_gstate mem pos curr_frame written) := s in
  if frame =? curr_frame then Ok s
  else
    let diff := frame - curr_frame in
    if len - pos <? 2 then Err OPUS_BUFFER_TOO_SMALL
    else if diff =? 1 then
      mem ← gput data mem pos 0x02;
      Ok (Build_gstate mem (pos + 1) frame written)
    else
      mem ← gput data mem pos 0x03;
      mem ← gput data mem (pos + 1) diff;
      Ok (Build_gstate mem (pos + 2) frame written).

(** [n] bytes 255 of lacing. *)
Fixpoint gen_lacing (n : nat) (data : option Z) (mem : list Z) (pos : Z) : res (list Z * Z) :=
  match n with
  | O => Ok (mem, pos)
  | S n => mem ← gput data mem pos 255; gen_lacing n data mem (pos + 1)
  end.

Definition gen_short (data : option Z) (len : Z) (e : opus_extension_data) (s : gstate) : res gstate :=
  let '(Build_gstate mem pos curr_frame written) := s in
  if (e.(ext_len) <? 0) || (e.(ext_len) >? 1) then Err OPUS_BAD_ARG
  else if len - pos <? e.(ext_len) + 1 then Err OPUS_BUFFER_TOO_SMALL
  else
    mem ← gput data mem pos (Z.shiftl e.(ext_id) 1 + e.(ext_len));
    let pos := pos + 1 in
    if e.(ext_len) >? 0 then
      mem ← (match data with
             | Some d => b ← get mem e.(ext_data); put mem (d + pos) b
             | None => Ok mem end);
      Ok (Build_gstate mem (pos + 1) curr_frame (written + 1))
    else Ok (Build_gstate mem pos curr_frame (written + 1)).

Definition gen_long (data : option Z) (len nb_extensions : Z) (e : opus_extension_data) (s : gstate)
    : res gstate :=
  let '(Build_gstate mem pos curr_frame written) := s in
  if e.(ext_len) <? 0 then Err OPUS_BAD_ARG
  else
    let last := written =? nb_extensions - 1 in
    let length_bytes := if last then 0 else 1 + e.(ext_len) / 255 in
    if len - pos <? 1 + length_bytes + e.(ext_len) then Err OPUS_BUFFER_TOO_SMALL
    else
      mem ← gput data mem pos (Z.shiftl e.(ext_id) 1 + b2z (negb last));
      let pos := pos + 1 in
      '(mem, pos) ←
        (if negb last then
           '(mem, pos) ← gen_lacing (Z.to_nat (e.(ext_len) / 255)) data mem pos;
           mem ← gput data mem pos (e.(ext_len) mod 255);
           Ok (mem, pos + 1)
         else Ok (mem, pos));
      mem ← gcopy data mem pos e.(ext_data) e.(ext_len);
      Ok (Build_gstate mem (pos + e.(ext_len)) curr_frame (written + 1)).

Definition gen_one (data : option Z) (len nb_extensions frame : Z) (e : opus_extension_data)
    (s : gstate) : res gstate :=
  s ← gen_separator data len frame s;
  if e.(ext_id) <? 32 then gen_short data len e s else gen_long data len nb_extensions e s.

(** The extensions of one frame, then the frames in order. *)
Fixpoint gen_frame (data : option Z) (len nb_extensions frame : Z)
    (extensions : list opus_extension_data) (s : gstate) : res gstate :=
  match extensions with
  | [] => Ok s
  | e :: rest =>
      s ← (if e.(ext_frame) =? frame then gen_one data len nb_extensions frame e s else Ok s);
      gen_frame data len nb_extensions frame rest s
  end.

Fixpoint gen_frames (n : nat) (data : option Z) (len nb_extensions frame : Z)
    (extensions : list opus_extension_data) (s : gstate) : res gstate :=
  match n with
  | O => Ok s
  | S n =>
      s ← gen_frame data len nb_extensions frame extensions s;
      gen_frames n data len nb_extensions (frame + 1) extensions s
  end.

(** The largest frame; a tag outside 2..127 is an error. *)
Fixpoint gen_max_frame (max_frame : Z) (extensions : list opus_extension_data) : res Z :=
  match extensions with
  | [] => Ok max_frame
  | e :: rest =>
      if (e.(ext_id) <? 2) || (e.(ext_id) >? 127) then Err OPUS_BAD_ARG
      else gen_max_frame (Z.max max_frame e.(ext_frame)) rest
  end.

(** The memory and the number of bytes of the extensions. *)
Definition opus_packet_extensions_generate (mem : list Z) (data : option Z) (len : Z)
    (extensions : list opus_extension_data) (pad : bool) : res (list Z * Z) :=
  let nb_extensions := Prelude.len extensions in
  max_frame ← gen_max_frame 0 extensions;
  if max_frame >=? 48 then Err OPUS_BAD_ARG
  else
    s ← gen_frames (Z.to_nat (max_frame + 1)) data len nb_extensions 0 extensions
          (Build_gstate mem 0 0 0);
    let '(Build_gstate mem pos _ _) := s in
    if pad && (pos <? len) then
      let padding := len - pos in
      mem ← (match data with
             | Some d =>
                 mem ← OPUS_MOVE mem (d + padding) d pos;
                 store mem d (repeat 1 (Z.to_nat padding))
             | None => Ok mem end);
      Ok (mem, pos + padding)
    else Ok (mem, pos).
