(* ===== verification/ExtProofs.v ===== *)
(** * The extension encoding, and that the code implements it

    [exts_bytes] is the encoding of a list of extensions as one list of bytes.
    [generate_spec] shows that [opus_packet_extensions_generate] writes exactly
    it, in a dry run as in a real one, and [parse_bytes] that the parser reads it
    back. *)

From S2P Require Import Prelude Memory Extensions.

(** ** The encoding *)

Definition sep_bytes (cf frame : Z) : list Z :=
  if frame =? cf then [] else if frame - cf =? 1 then [2] else [3; frame - cf].

Definition lacing_bytes (n : Z) : list Z := repeat 255 (Z.to_nat (n / 255)) ++ [n mod 255].

(** [last] is set for the last extension of all, whose length is implicit when
    the tag allows it. *)
Definition ext_bytes (last : bool) (id : Z) (payload : list Z) : list Z :=
  if id <? 32 then (2 * id + len payload) :: payload
  else (2 * id + b2z (negb last)) :: (if last then [] else lacing_bytes (len payload)) ++ payload.

Definition payload (mem : list Z) (e : opus_extension_data) : list Z :=
  slice mem e.(ext_data) e.(ext_len).

Definition is_nil {A} (l : list A) : bool := match l with [] => true | _ => false end.

Fixpoint exts_bytes (mem : list Z) (cf : Z) (l : list opus_extension_data) : list Z :=
  match l with
  | [] => []
  | e :: rest =>
      sep_bytes cf e.(ext_frame) ++ ext_bytes (is_nil rest) e.(ext_id) (payload mem e)
      ++ exts_bytes mem e.(ext_frame) rest
  end.

(** The extensions frame by frame, as the two nested loops visit them. *)
Fixpoint by_frame (n : nat) (frame : Z) (l : list opus_extension_data) : list opus_extension_data :=
  match n with
  | O => []
  | S n => filter (fun e => ext_frame e = frame) l ++ by_frame n (frame + 1) l
  end.

(** An extension that can be written: its payload is in memory. *)
Record ext_ok (mem : list Z) (e : opus_extension_data) : Prop := {
  eo_id : 2 <= e.(ext_id) <= 127;
  eo_frame : 0 <= e.(ext_frame) < 48;
  eo_len : 0 <= e.(ext_len);
  eo_short : e.(ext_id) < 32 -> e.(ext_len) <= 1;
  eo_data : 0 < e.(ext_len) -> 0 <= e.(ext_data) /\ e.(ext_data) + e.(ext_len) <= len mem
}.

Lemma len_payload mem e : ext_ok mem e -> len (payload mem e) = e.(ext_len).
Proof.
  intros [_ _ H _ Hd]. unfold payload. destruct (decide (ext_len e = 0)) as [->|]; [done|].
  destruct Hd; [lia|]. apply len_slice; lia.
Qed.

(** ** Writing *)

(** The memory once [l] is written at the start of the buffer. *)
Definition after (data : option Z) (mem l : list Z) : list Z :=
  match data with Some d => splice mem d l | None => mem end.

Lemma len_lacing n : 0 <= n -> len (lacing_bytes n) = 1 + n / 255.
Proof.
  intros H. unfold lacing_bytes. rewrite len_app. unfold len. rewrite repeat_length. cbn. dlia.
Qed.

(** The size of an encoded extension. *)
Lemma len_ext_bytes last id pl :
  len (ext_bytes last id pl) =
  1 + (if id <? 32 then 0 else if last then 0 else 1 + len pl / 255) + len pl.
Proof.
  unfold ext_bytes. pose proof (len_nonneg pl).
  assert (Hc : forall (x : Z) l, len (x :: l) = 1 + len l) by (intros; unfold len; cbn [length]; lia).
  destruct (id <? 32); [rewrite Hc; lia|]. rewrite Hc, len_app.
  destruct last; [change (len []) with 0; lia|]. rewrite len_lacing by lia. lia.
Qed.

Lemma len_sep_bytes cf f : 0 <= len (sep_bytes cf f) <= 2 /\ (len (sep_bytes cf f) = 0 <-> f = cf).
Proof.
  unfold sep_bytes, len. destruct (Z.eqb_spec f cf); [cbn; lia|]. destruct (_ =? 1); cbn; lia.
Qed.

(** Frames that do not go backwards, from [cf] on. *)
Fixpoint ascending (cf : Z) (l : list opus_extension_data) : Prop :=
  match l with [] => True | e :: rest => cf <= e.(ext_frame) /\ ascending e.(ext_frame) rest end.

Lemma ascending_weaken cf cf' l : cf <= cf' -> ascending cf' l -> ascending cf l.
Proof. destruct l; cbn; [done|]. intros ? [? ?]. split; [lia|done]. Qed.

Lemma ascending_filter_app cf l1 l2 :
  Forall (fun e => ext_frame e = cf) l1 -> ascending cf l2 -> ascending cf (l1 ++ l2).
Proof.
  induction l1 as [|e l1 IH]; intros H1 H2; cbn [app ascending]; [done|].
  apply Forall_cons_1 in H1 as [E H1]. rewrite E. split; [lia|]. by apply IH.
Qed.

Lemma by_frame_ascending n frame l : ascending frame (by_frame n frame l).
Proof.
  revert frame. induction n as [|n IH]; intros frame; cbn [by_frame]; [done|].
  apply ascending_filter_app.
  - apply Forall_forall. intros e He. by apply list_elem_of_In, list_elem_of_filter in He as [? _].
  - apply (ascending_weaken _ (frame + 1)); [lia|]. apply IH.
Qed.

Lemma by_frame_filter n frame g l :
  g < frame -> by_frame n frame (filter (fun e => ¬ ext_frame e = g) l) = by_frame n frame l.
Proof.
  revert frame. induction n as [|n IH]; intros frame Hg; cbn [by_frame]; [done|].
  rewrite IH by lia. f_equal. apply list_filter_filter_l. intros e He. lia.
Qed.

Lemma by_frame_perm n frame l :
  Forall (fun e => frame <= ext_frame e < frame + Z.of_nat n) l -> by_frame n frame l ≡ₚ l.
Proof.
  revert frame l. induction n as [|n IH]; intros frame l H; cbn [by_frame].
  { destruct l as [|e l]; [done|]. apply Forall_cons_1 in H as [H _]. lia. }
  rewrite <- (by_frame_filter n (frame + 1) frame) by lia. rewrite IH.
  - apply filter_app_complement.
  - rewrite Forall_forall in *. intros e He. apply list_elem_of_In, list_elem_of_filter in He as [Hn He]. apply list_elem_of_In in He.
    specialize (H e He). lia.
Qed.

Section Generate.
Context (data : option Z) (mem : list Z) (room : Z).

(** The buffer of [room] bytes is in memory and no payload overlaps it. *)
Hypothesis Hroom : forall d, data = Some d -> 0 <= d /\ d + room <= len mem.

Definition apart (e : opus_extension_data) : Prop :=
  forall d, data = Some d -> 0 < e.(ext_len) -> e.(ext_data) + e.(ext_len) <= d \/ d + room <= e.(ext_data).

Lemma gput_after pre v :
  len pre + 1 <= room -> gput data (after data mem pre) (len pre) v = Ok (after data mem (pre ++ [u8 v])).
Proof.
  intros Hr. unfold gput, after. destruct data as [d|]; [|done].
  destruct (Hroom d eq_refl). pose proof (len_nonneg pre).
  rewrite put_splice by (rewrite len_splice; lia).
  rewrite splice_splice; [done|lia|change (len [u8 v]) with 1; lia].
Qed.

Lemma slice_after pre e :
  ext_ok mem e -> apart e -> len pre <= room -> payload (after data mem pre) e = payload mem e.
Proof.
  intros He Ha Hl. unfold payload, after. destruct data as [d|] eqn:Ed; [|done].
  destruct (decide (ext_len e = 0)) as [->|]; [done|]. pose proof (eo_len _ _ He).
  destruct (Hroom d eq_refl), (eo_data _ _ He); [lia|]. specialize (Ha d Ed ltac:(lia)).
  apply slice_splice_out; lia.
Qed.

Lemma gcopy_after pre e :
  ext_ok mem e -> apart e -> len pre + e.(ext_len) <= room ->
  gcopy data (after data mem pre) (len pre) e.(ext_data) e.(ext_len)
  = Ok (after data mem (pre ++ payload mem e)).
Proof.
  intros He Ha Hl. pose proof (eo_len _ _ He). pose proof (eo_data _ _ He).
  pose proof (slice_after pre e He Ha ltac:(lia)) as Hs. pose proof (len_payload mem e He) as Hp.
  unfold gcopy. destruct data as [d|] eqn:Ed; [|done].
  destruct (Hroom d eq_refl). pose proof (len_nonneg pre).
  assert (Hm : len (after (Some d) mem pre) = len mem) by (apply len_splice; lia).
  rewrite move_ok by (rewrite ?Hm; lia). unfold payload at 1 in Hs. rewrite Hs.
  unfold after. rewrite splice_splice; [done|lia|lia].
Qed.

(** The generator's state once [pre] is written. *)
Local Abbreviation St pre cf w := (Build_gstate (after data mem pre) (len pre) cf w).

Lemma gen_separator_spec frame pre cf w :
  0 <= cf <= frame -> frame < 48 ->
  gen_separator data room frame (St pre cf w) =
    if (frame =? cf) || (len pre + 2 <=? room) then Ok (St (pre ++ sep_bytes cf frame) frame w)
    else Err OPUS_BUFFER_TOO_SMALL.
Proof.
  intros Hc Hf. unfold gen_separator, sep_bytes. destruct (Z.eqb_spec frame cf) as [->|].
  { by rewrite app_nil_r. }
  cbn [orb]. destruct (Z.ltb_spec (room - len pre) 2), (Z.leb_spec (len pre + 2) room); try lia; [done|].
  destruct (Z.eqb_spec (frame - cf) 1).
  { rewrite gput_after by lia. cbn [mbind res_bind]. by rewrite len_app. }
  rewrite gput_after by lia. cbn [mbind res_bind]. change (u8 3) with 3.
  replace (len pre + 1) with (len (pre ++ [3])) by (by rewrite len_app).
  rewrite gput_after by (rewrite len_app; change (len [3]) with 1; lia). cbn [mbind res_bind].
  rewrite <- app_assoc, u8_small by lia. rewrite (len_app pre). done.
Qed.

Lemma gen_lacing_spec n pre :
  len pre + Z.of_nat n <= room ->
  gen_lacing n data (after data mem pre) (len pre) =
  Ok (after data mem (pre ++ repeat 255 n), len (pre ++ repeat 255 n)).
Proof.
  revert pre. induction n as [|n IH]; intros pre Hn; cbn [gen_lacing repeat].
  { by rewrite app_nil_r. }
  rewrite gput_after by lia. cbn [mbind res_bind]. change (u8 255) with 255.
  replace (len pre + 1) with (len (pre ++ [255])) by (by rewrite len_app).
  rewrite IH by (rewrite len_app; change (len [255]) with 1; lia). by rewrite <- app_assoc.
Qed.

(** Copying a payload of one byte. *)
Lemma gen_byte pre e :
  ext_ok mem e -> apart e -> e.(ext_len) = 1 -> len pre + 1 <= room ->
  match data with
  | Some d => b ← get (after data mem pre) e.(ext_data); put (after data mem pre) (d + len pre) b
  | None => Ok (after data mem pre)
  end = Ok (after data mem (pre ++ payload mem e)).
Proof.
  intros He Ha Hl Hr. pose proof (gcopy_after pre e He Ha ltac:(lia)) as Hc. unfold gcopy in Hc.
  rewrite Hl in Hc. rewrite <- Hc. destruct data as [d|] eqn:Ed; [|done].
  destruct (Hroom d eq_refl), (eo_data _ _ He); [lia|]. pose proof (len_nonneg pre).
  assert (Hm : len (after (Some d) mem pre) = len mem) by (apply len_splice; lia).
  rewrite get_ok, move_ok by (rewrite ?Hm; lia). cbn [mbind res_bind].
  rewrite put_splice by (rewrite Hm; lia). do 2 f_equal. apply rd_ext.
  { rewrite len_slice; rewrite ?Hm; try lia. done. }
  intros i Hi. change (len [_]) with 1 in Hi. assert (i = 0) as -> by lia.
  rewrite rd_slice by lia. by rewrite Z.add_0_r.
Qed.

Lemma gen_short_spec e pre cf w :
  ext_ok mem e -> apart e -> e.(ext_id) < 32 ->
  gen_short data room e (St pre cf w) =
    if len pre + (1 + e.(ext_len)) <=? room
    then Ok (St (pre ++ ext_bytes (w =? 0) e.(ext_id) (payload mem e)) cf (w + 1))
    else Err OPUS_BUFFER_TOO_SMALL.
Proof.
  intros He Ha Hid. pose proof (eo_len _ _ He). pose proof (eo_short _ _ He Hid). pose proof (eo_id _ _ He).
  pose proof (len_payload _ _ He) as Hpl.
  unfold gen_short, ext_bytes. rewrite Z.gtb_ltb.
  destruct (Z.ltb_spec (ext_len e) 0), (Z.ltb_spec 1 (ext_len e)), (Z.ltb_spec (ext_id e) 32); try lia.
  cbn [orb]. destruct (Z.ltb_spec (room - len pre) (ext_len e + 1)), (Z.leb_spec (len pre + (1 + ext_len e)) room);
    try lia; [done|].
  rewrite gput_after by lia. cbn [mbind res_bind]. rewrite Z.shiftl_mul_pow2 by lia.
  change (2 ^ 1) with 2. rewrite u8_small, Hpl by lia. rewrite (Z.mul_comm _ 2).
  set (h := 2 * ext_id e + ext_len e). rewrite Z.gtb_ltb. destruct (Z.ltb_spec 0 (ext_len e)).
  - assert (Hl1 : ext_len e = 1) by lia.
    assert (Hlh : len (pre ++ [h]) = len pre + 1) by (by rewrite len_app).
    rewrite <- Hlh, gen_byte by (done || lia). cbn [mbind res_bind]. rewrite <- app_assoc. f_equal. f_equal. rewrite !len_app. cbn [app]. change (len (h :: payload mem e)) with (len ([h] ++ payload mem e)). rewrite len_app, Hpl. change (len [h]) with 1. lia.
  - assert (ext_len e = 0) as E0 by lia. unfold payload. rewrite E0, slice_0. rewrite len_app. done.
Qed.

Lemma gen_long_spec nb e pre cf w :
  ext_ok mem e -> apart e -> 32 <= e.(ext_id) ->
  let l := ext_bytes (w =? nb - 1) e.(ext_id) (payload mem e) in
  gen_long data room nb e (St pre cf w) =
    if len pre + len l <=? room then Ok (St (pre ++ l) cf (w + 1))
    else Err OPUS_BUFFER_TOO_SMALL.
Proof.
  intros He Ha Hid l. pose proof (eo_len _ _ He). pose proof (eo_id _ _ He).
  pose proof (len_payload _ _ He) as Hpl. pose proof (len_ext_bytes (w =? nb - 1) (ext_id e) (payload mem e)) as Hlen.
  fold l in Hlen. rewrite Hpl in Hlen.
  unfold gen_long. destruct (Z.ltb_spec (ext_len e) 0), (Z.ltb_spec (ext_id e) 32); try lia.
  assert (Hq : 0 <= ext_len e / 255) by dlia.
  destruct (Z.ltb_spec (room - len pre) (1 + (if w =? nb - 1 then 0 else 1 + ext_len e / 255) + ext_len e)),
    (Z.leb_spec (len pre + len l) room); try lia; [done|].
  destruct (w =? nb - 1) eqn:Ew; unfold l, ext_bytes; destruct (Z.ltb_spec (ext_id e) 32); try lia;
    rewrite gput_after by lia; cbn [mbind res_bind negb b2z]; rewrite Z.shiftl_mul_pow2 by lia;
    change (2 ^ 1) with 2; rewrite u8_small, (Z.mul_comm _ 2) by lia; set (h := 2 * ext_id e + _);
    assert (Hlh : len (pre ++ [h]) = len pre + 1) by (by rewrite len_app); rewrite <- Hlh.
  - rewrite gcopy_after by (done || lia). cbn [mbind res_bind app]. rewrite <- app_assoc.
    f_equal. f_equal. rewrite !len_app, <- Hpl. cbn [app]. unfold len. cbn [length]. lia.
  - rewrite gen_lacing_spec by lia. cbn [mbind res_bind].
    set (q := repeat 255 _). assert (Hlq : len q = ext_len e / 255) by (unfold q, len; rewrite repeat_length; lia).
    assert (Hlp : len ((pre ++ [h]) ++ q) = len pre + 1 + ext_len e / 255) by (rewrite len_app; lia).
    rewrite gput_after by lia. cbn [mbind res_bind]. rewrite u8_small by dlia.
    set (x := ((pre ++ [h]) ++ q) ++ [_]).
    assert (Hlx : len x = len ((pre ++ [h]) ++ q) + 1) by (unfold x; by rewrite len_app).
    rewrite <- Hlx, gcopy_after by (done || lia). cbn [mbind res_bind].
    assert (Ex : pre ++ h :: lacing_bytes (len (payload mem e)) ++ payload mem e = x ++ payload mem e).
    { unfold x, lacing_bytes. rewrite Hpl, <- !app_assoc. done. }
    rewrite Ex. f_equal. f_equal. rewrite len_app. lia.
Qed.

Lemma gen_one_spec nb e pre cf w :
  ext_ok mem e -> apart e -> 0 <= cf <= e.(ext_frame) ->
  let l := sep_bytes cf e.(ext_frame) ++ ext_bytes (w =? nb - 1) e.(ext_id) (payload mem e) in
  gen_one data room nb e.(ext_frame) e (St pre cf w) =
    if len pre + len l <=? room then Ok (St (pre ++ l) e.(ext_frame) (w + 1))
    else Err OPUS_BUFFER_TOO_SMALL.
Proof.
  intros He Ha Hc l. unfold gen_one. pose proof (eo_frame _ _ He). pose proof (eo_len _ _ He).
  pose proof (len_ext_bytes (w =? nb - 1) (ext_id e) (payload mem e)) as Hlen.
  pose proof (len_payload _ _ He) as Hpl. pose proof (len_sep_bytes cf (ext_frame e)) as [Hs1 Hs2].
  assert (Hl : len l = len (sep_bytes cf (ext_frame e)) + len (ext_bytes (w =? nb - 1) (ext_id e) (payload mem e)))
    by (apply len_app).
  assert (Hp : 1 + ext_len e <= len (ext_bytes (w =? nb - 1) (ext_id e) (payload mem e))).
  { rewrite Hlen, Hpl. destruct (_ <? _), (_ =? _); dlia. }
  rewrite gen_separator_spec by lia.
  destruct (Z.eqb_spec (ext_frame e) cf); cbn [orb].
  2: destruct (Z.leb_spec (len pre + 2) room).
  3: { destruct (Z.leb_spec (len pre + len l) room); [lia|done]. }
  all: cbn [mbind res_bind]; pose proof (len_app pre (sep_bytes cf (ext_frame e))) as Hla;
    destruct (Z.ltb_spec (ext_id e) 32); [rewrite gen_short_spec by done | rewrite gen_long_spec by (done || lia)];
    rewrite <- app_assoc; rewrite Hla.
  all: try (replace (len pre + len (sep_bytes cf (ext_frame e)) + len (ext_bytes (w =? nb - 1) (ext_id e) (payload mem e)))
    with (len pre + len l) by lia; done).
  all: replace (len pre + len (sep_bytes cf (ext_frame e)) + (1 + ext_len e)) with (len pre + len l) by lia.
  all: replace (ext_bytes (w =? 0) (ext_id e) (payload mem e)) with (ext_bytes (w =? nb - 1) (ext_id e) (payload mem e));
    [done|unfold ext_bytes; destruct (Z.ltb_spec (ext_id e) 32); [done|lia]].
Qed.

(** ** The loops *)

Fixpoint gen_list (nb : Z) (l : list opus_extension_data) (s : gstate) : res gstate :=
  match l with
  | [] => Ok s
  | e :: rest => s ← gen_one data room nb e.(ext_frame) e s; gen_list nb rest s
  end.

Lemma gen_list_app nb l1 l2 s : gen_list nb (l1 ++ l2) s = s ← gen_list nb l1 s; gen_list nb l2 s.
Proof.
  revert s. induction l1 as [|e l1 IH]; intros s; cbn [app gen_list]; [done|].
  destruct (gen_one _ _ _ _ _ s); cbn [mbind res_bind]; [apply IH|done|done].
Qed.

Lemma gen_frame_list nb frame l s :
  gen_frame data room nb frame l s = gen_list nb (filter (fun e => ext_frame e = frame) l) s.
Proof.
  revert s. induction l as [|e l IH]; intros s; cbn [gen_frame]; [done|]. rewrite filter_cons.
  destruct (Z.eqb_spec (ext_frame e) frame) as [E|]; case_decide; try done.
  - cbn [gen_list]. rewrite E. destruct (gen_one _ _ _ _ _ s); cbn [mbind res_bind]; [apply IH|done|done].
  - apply IH.
Qed.

Lemma gen_frames_list n nb frame l s :
  gen_frames n data room nb frame l s = gen_list nb (by_frame n frame l) s.
Proof.
  revert frame s. induction n as [|n IH]; intros frame s; cbn [gen_frames by_frame]; [done|].
  rewrite gen_list_app, gen_frame_list. destruct (gen_list _ _ s); cbn [mbind res_bind]; [apply IH|done|done].
Qed.

Lemma gen_list_spec nb l pre cf w :
  Forall (ext_ok mem) l -> Forall apart l -> 0 <= cf -> ascending cf l -> w + len l = nb -> len pre <= room ->
  exists cf', gen_list nb l (St pre cf w) =
    if len pre + len (exts_bytes mem cf l) <=? room then Ok (St (pre ++ exts_bytes mem cf l) cf' nb)
    else Err OPUS_BUFFER_TOO_SMALL.
Proof.
  revert pre cf w. induction l as [|e l IH]; intros pre cf w Ho Ha Hc Hs Hn Hr; cbn [gen_list exts_bytes].
  { exists cf. change (len []) with 0 in *. rewrite app_nil_r, Z.add_0_r in *. subst w.
    by rewrite (proj2 (Z.leb_le _ _) Hr). }
  apply Forall_cons_1 in Ho as [He Ho]. apply Forall_cons_1 in Ha as [Hae Ha]. destruct Hs as [Hs1 Hs2].
  assert (Hcons : len (e :: l) = 1 + len l) by (unfold len; cbn [length]; lia).
  assert (Hlast : (w =? nb - 1) = is_nil l).
  { pose proof (len_nonneg l). destruct l; cbn [is_nil].
    - change (len []) with 0 in *. lia.
    - assert (len (o :: l) = 1 + len l) by (unfold len; cbn [length]; lia). pose proof (len_nonneg l). lia. }
  rewrite gen_one_spec by (done || lia). rewrite Hlast, (app_assoc (sep_bytes _ _)).
  set (x := sep_bytes _ _ ++ _). pose proof (len_nonneg (exts_bytes mem (ext_frame e) l)).
  rewrite (len_app x). pose proof (eo_frame _ _ He).
  destruct (Z.leb_spec (len pre + len x) room) as [Hx|Hx]; cbn [mbind res_bind].
  - destruct (IH (pre ++ x) (ext_frame e) (w + 1) Ho Ha ltac:(lia) Hs2 ltac:(lia)) as [cf' E].
    { rewrite len_app. lia. }
    exists cf'. rewrite E, len_app, <- app_assoc. by rewrite (Z.add_assoc (len pre)).
  - exists cf. destruct (Z.leb_spec (len pre + (len x + len (exts_bytes mem (ext_frame e) l))) room); [lia|done].
Qed.

Lemma gen_max_frame_spec m l :
  Forall (ext_ok mem) l -> 0 <= m < 48 ->
  exists m', gen_max_frame m l = Ok m' /\ m <= m' < 48 /\ Forall (fun e => ext_frame e <= m') l.
Proof.
  revert m. induction l as [|e l IH]; intros m Ho Hm; cbn [gen_max_frame].
  { exists m. split_and!; [done|lia|lia|by apply Forall_nil]. }
  apply Forall_cons_1 in Ho as [He Ho]. pose proof (eo_id _ _ He). pose proof (eo_frame _ _ He).
  rewrite Z.gtb_ltb. destruct (Z.ltb_spec (ext_id e) 2), (Z.ltb_spec 127 (ext_id e)); try lia. cbn [orb].
  destruct (IH (Z.max m (ext_frame e)) Ho ltac:(lia)) as (m' & E & Hr & Hall).
  exists m'. split_and!; [done|lia|lia|]. apply Forall_cons; [lia|done].
Qed.

(** The extensions in the order in which they are written. *)
Definition ordered (l : list opus_extension_data) : list opus_extension_data := by_frame 48 0 l.

Lemma by_frame_S n frame l : Forall (fun e => ext_frame e < frame + Z.of_nat n) l ->
  by_frame (S n) frame l = by_frame n frame l.
Proof.
  revert frame. induction n as [|n IH]; intros frame H.
  - cbn [by_frame]. rewrite app_nil_r. induction H as [|e l He _ IH]; [done|]. rewrite filter_cons.
    case_decide; [lia|done].
  - remember (S n) as n'. cbn [by_frame]. subst n'. rewrite IH; [done|].
    eapply Forall_impl; [|exact H]. cbv beta. intros e He. lia.
Qed.

Lemma by_frame_le n m frame l :
  Forall (fun e => ext_frame e < frame + Z.of_nat n) l -> (n <= m)%nat -> by_frame m frame l = by_frame n frame l.
Proof.
  intros H. induction 1 as [|m Hm IH]; [done|]. rewrite <- IH. apply by_frame_S.
  eapply Forall_impl; [|exact H]. cbv beta. intros e He. lia.
Qed.

(** The generator writes the encoding if it fits. *)
Lemma generate_spec l :
  Forall (ext_ok mem) l -> Forall apart l -> 0 <= room ->
  opus_packet_extensions_generate mem data room l false =
    if len (exts_bytes mem 0 (ordered l)) <=? room
    then Ok (after data mem (exts_bytes mem 0 (ordered l)), len (exts_bytes mem 0 (ordered l)))
    else Err OPUS_BUFFER_TOO_SMALL.
Proof.
  intros Ho Ha Hr. unfold opus_packet_extensions_generate.
  destruct (gen_max_frame_spec 0 l Ho ltac:(lia)) as (m & -> & Hm & Hall). cbn [mbind res_bind].
  destruct (Z.geb_spec m 48); [lia|].
  rewrite gen_frames_list. unfold ordered.
  rewrite (by_frame_le (Z.to_nat (m + 1)) 48).
  2: { eapply Forall_impl; [|exact Hall]. cbv beta. intros e He. lia. } 2: lia.
  assert (Hperm : by_frame (Z.to_nat (m + 1)) 0 l ≡ₚ l).
  { apply by_frame_perm. apply Forall_forall. intros e He. rewrite Forall_forall in Ho, Hall.
    pose proof (eo_frame _ _ (Ho e He)). specialize (Hall e He). cbv beta in Hall. lia. }
  set (o := by_frame _ 0 l) in *.
  destruct (gen_list_spec (len l) o [] 0 0) as [cf E].
  - by rewrite Hperm.
  - by rewrite Hperm.
  - lia.
  - apply by_frame_ascending.
  - unfold len. by rewrite Hperm.
  - done.
  - assert (E0 : after data mem [] = mem) by (unfold after; destruct data; [apply splice_nil|done]).
    rewrite E0 in E. change (len []) with 0 in E. rewrite E. cbn [app]. rewrite Z.add_0_l.
    by destruct (_ <=? _).
Qed.
End Generate.

(** ** Reading back *)

(** [e'], read in [m], is the extension [e] of [mem]. *)
Record same_ext (mem m : list Z) (e e' : opus_extension_data) : Prop := {
  se_id : e'.(ext_id) = e.(ext_id);
  se_frame : e'.(ext_frame) = e.(ext_frame);
  se_len : e'.(ext_len) = e.(ext_len);
  se_payload : payload m e' = payload mem e
}.

Lemma header_bits id b : 0 <= b <= 1 -> Z.shiftr (2 * id + b) 1 = id /\ Z.land (2 * id + b) 1 = b.
Proof.
  intros Hb. rewrite Z.shiftr_div_pow2, (land_pow2_pred _ 1 ltac:(lia) : Z.land (2 * id + b) 1 = _) by lia.
  change (2 ^ 1) with 2. dlia.
Qed.

Section Read.
Context (m : list Z).

Local Abbreviation holds := (holds m).

Lemma skip_lacing_spec q fuel p n bs hs r :
  holds (p + 1) (repeat 255 q ++ [r]) -> 0 <= r < 255 -> Z.of_nat q + 1 < n -> (q < fuel)%nat ->
  skip_lacing fuel m p n bs hs =
  Ok (p + 1 + Z.of_nat q, n - 1 - Z.of_nat q, bs + 255 * Z.of_nat q + r, hs + 1 + Z.of_nat q).
Proof.
  revert fuel p n bs hs. induction q as [|q IH]; intros fuel p n bs hs H Hr Hn Hf;
    (destruct fuel as [|fuel]; [lia|]); cbn [skip_lacing]; cbn [repeat app] in H;
    apply holds_cons in H as [E H]; rewrite E; cbn [mbind res_bind];
    (destruct (Z.eqb_spec (n - 1) 0); [lia|]).
  - destruct (Z.eqb_spec r 255); [lia|]. tup.
  - cbn [Z.eqb Pos.eqb]. rewrite IH by (done || lia). tup.
Qed.

(** Skipping an encoded extension. *)
Lemma skip_spec p n hs last id pl :
  holds p (ext_bytes last id pl) -> 2 <= id <= 127 -> (id < 32 -> len pl <= 1) ->
  len (ext_bytes last id pl) <= n -> (last = true -> len (ext_bytes last id pl) = n) ->
  exists h b, skip_extension m p n hs = Ok (p + len (ext_bytes last id pl), n - len (ext_bytes last id pl), h) /\
    get m p = Ok b /\ Z.shiftr b 1 = id /\ h + len pl = len (ext_bytes last id pl) /\ holds (p + h) pl.
Proof.
  intros Hh Hid Hs Hn Hl. unfold skip_extension. rewrite (len_ext_bytes last id pl) in *.
  unfold ext_bytes in Hh. pose proof (len_nonneg pl).
  assert (Hq : 0 <= len pl / 255) by dlia.
  destruct (Z.eqb_spec n 0); [destruct (id <? 32), last; lia|].
  destruct (Z.ltb_spec id 32).
  - apply holds_cons in Hh as [E Hh]. rewrite E. cbn [mbind res_bind].
    destruct (header_bits id (len pl) ltac:(lia)) as [-> ->].
    destruct (Z.eqb_spec id 0); [lia|]. cbn [andb]. rewrite Z.gtb_ltb.
    destruct (Z.ltb_spec 0 id), (Z.ltb_spec id 32); try lia. cbn [andb].
    destruct (Z.ltb_spec n (1 + len pl)); [lia|].
    exists 1, (2 * id + len pl). split_and!; [tup|done|apply header_bits; lia|lia|done].
  - apply holds_cons in Hh as [E Hh]. rewrite E. cbn [mbind res_bind].
    destruct (header_bits id (b2z (negb last)) ltac:(destruct last; cbn; lia)) as [Hb1 Hb2].
    rewrite Hb1, Hb2.
    destruct (Z.eqb_spec id 0); [lia|]. cbn [andb].
    destruct (Z.ltb_spec id 32); [lia|]. rewrite andb_false_r. destruct last; cbn [negb b2z Z.eqb Pos.eqb].
    + specialize (Hl eq_refl).
      exists 1, (2 * id + 0). split_and!; [tup|done|apply header_bits; lia|lia|done].
    + apply holds_app in Hh as [Hh1 Hh2]. rewrite len_lacing in Hh2 by lia.
      rewrite (skip_lacing_spec (Z.to_nat (len pl / 255)) _ _ _ _ _ (len pl mod 255)) by (done || dlia).
      cbn [mbind res_bind]. rewrite Z2Nat.id by lia.
      destruct (Z.eqb_spec (n - 1 - len pl / 255) 0); [lia|].
      assert (0 + 255 * (len pl / 255) + len pl mod 255 = len pl) as -> by dlia.
      destruct (Z.leb_spec (len pl) (n - 1 - len pl / 255 - 1)); [|lia].
      exists (1 + 1 + len pl / 255), (2 * id + 1).
      split_and!; [tup|done|apply header_bits; lia|lia|].
      by replace (p + (1 + 1 + len pl / 255)) with (p + 1 + (1 + len pl / 255)) by lia.
Qed.

Lemma parse_separator fuel p n cf frame nb acc :
  holds p (sep_bytes cf frame) -> cf <= frame < 48 -> 0 <= cf -> len (sep_bytes cf frame) < n -> (1 < fuel)%nat ->
  exists fuel', (fuel - Z.to_nat (len (sep_bytes cf frame)) <= fuel')%nat /\ parse_loop fuel m p n cf nb acc =
    parse_loop fuel' m (p + len (sep_bytes cf frame)) (n - len (sep_bytes cf frame)) frame nb acc.
Proof.
  intros Hh Hf Hc Hn Hfu. unfold sep_bytes in *. destruct (Z.eqb_spec frame cf) as [->|].
  { exists fuel. change (len []) with 0. rewrite Z.add_0_r, Z.sub_0_r. split; [lia|done]. }
  destruct fuel as [|fuel]; [lia|]. exists fuel.
  destruct (Z.eqb_spec (frame - cf) 1); (split; [unfold len; cbn; lia|]).
  - change (len [2]) with 1 in *. apply holds_cons in Hh as [E _].
    cbn [parse_loop]. rewrite Z.gtb_ltb. destruct (Z.ltb_spec 0 n); [|lia].
    rewrite E. cbn [mbind res_bind]. change (Z.shiftr 2 1) with 1. cbn [Z.eqb Pos.eqb].
    unfold next_frame. change (Z.land 2 1 =? 0) with true. cbn [mbind res_bind andb].
    destruct (Z.geb_spec (cf + 1) 48); [lia|]. cbn [andb].
    unfold skip_extension. destruct (Z.eqb_spec n 0); [lia|]. rewrite E. cbn [mbind res_bind].
    change (Z.shiftr 2 1) with 1. change (Z.land 2 1) with 0. cbn [Z.eqb Pos.eqb andb Z.gtb Z.ltb Z.compare Pos.compare Pos.compare_cont].
    destruct (Z.ltb_spec n (1 + 0)); [lia|]. cbn [mbind res_bind].
    destruct (Z.ltb_spec (n - (1 + 0)) 0); [lia|]. f_equal; lia.
  - change (len [3; frame - cf]) with 2 in *. apply holds_cons in Hh as [E Hh]. apply holds_cons in Hh as [E2 _].
    cbn [parse_loop]. rewrite Z.gtb_ltb. destruct (Z.ltb_spec 0 n); [|lia].
    rewrite E. cbn [mbind res_bind]. change (Z.shiftr 3 1) with 1. cbn [Z.eqb Pos.eqb].
    unfold next_frame. change (Z.land 3 1 =? 0) with false. destruct (Z.geb_spec n 2); [|lia].
    rewrite E2. cbn [mbind res_bind andb].
    destruct (Z.geb_spec (cf + (frame - cf)) 48); [lia|]. cbn [andb].
    unfold skip_extension. destruct (Z.eqb_spec n 0); [lia|]. rewrite E. cbn [mbind res_bind].
    change (Z.shiftr 3 1) with 1. change (Z.land 3 1) with 1. cbn [Z.eqb Pos.eqb andb Z.gtb Z.ltb Z.compare Pos.compare Pos.compare_cont].
    destruct (Z.ltb_spec n (1 + 1)); [lia|]. cbn [mbind res_bind].
    destruct (Z.ltb_spec (n - (1 + 1)) 0); [lia|]. f_equal; lia.
Qed.

(** The parser finds the extensions of an encoding. *)
Lemma parse_loop_bytes mem l fuel p cf nb acc :
  Forall (ext_ok mem) l -> 0 <= cf -> ascending cf l ->
  holds p (exts_bytes mem cf l) -> (Z.to_nat (len (exts_bytes mem cf l)) < fuel)%nat ->
  len acc + len l <= nb ->
  exists l', parse_loop fuel m p (len (exts_bytes mem cf l)) cf nb acc = Ok (acc ++ l') /\
    Forall2 (same_ext mem m) l l'.
Proof.
  revert fuel p cf acc. induction l as [|e l IH]; intros fuel p cf acc Ho Hc Hs Hh Hf Hn.
  { cbn [exts_bytes] in *. change (len []) with 0 in *. exists []. rewrite app_nil_r.
    destruct fuel; [lia|]. split; [done|by apply Forall2_nil]. }
  cbn [exts_bytes] in *. apply Forall_cons_1 in Ho as [He Ho]. destruct Hs as [Hs1 Hs2].
  pose proof (len_payload _ _ He) as Hpl. pose proof (eo_len _ _ He). pose proof (eo_id _ _ He). pose proof (eo_frame _ _ He).
  apply holds_app in Hh as [Hh1 Hh2]. apply holds_app in Hh2 as [Hh2 Hh3].
  set (B := ext_bytes (is_nil l) (ext_id e) (payload mem e)) in *.
  set (R := exts_bytes mem (ext_frame e) l) in *.
  rewrite !len_app in *. set (k := len (sep_bytes cf (ext_frame e))) in *.
  pose proof (len_nonneg R). pose proof (len_nonneg (sep_bytes cf (ext_frame e))) as Hk. fold k in Hk.
  assert (HB : 1 <= len B).
  { unfold B. rewrite len_ext_bytes. destruct (_ <? _), (is_nil l); dlia. }
  destruct (len_sep_bytes cf (ext_frame e)) as [_ Hk0]. fold k in Hk0.
  destruct (parse_separator fuel p (k + (len B + len R)) cf (ext_frame e) nb acc) as (fuel' & Hfu & ->);
    try (done || lia).
  fold k in Hfu |- *. replace (k + (len B + len R) - k) with (len B + len R) by lia.
  destruct fuel' as [|fuel']; [lia|]. cbn [parse_loop]. rewrite Z.gtb_ltb.
  destruct (Z.ltb_spec 0 (len B + len R)); [|lia].
  destruct (skip_spec (p + k) (len B + len R) 0 _ _ _ Hh2) as (h & b & Esk & -> & Hb & Hh' & Hpay).
  { lia. } { rewrite Hpl. apply (eo_short _ _ He). } { fold B. lia. }
  { fold B. intros El. destruct l; [|done]. cbn in R. subst R. change (len []) with 0. lia. }
  fold B in Esk, Hh'. cbn [mbind res_bind]. rewrite Hb. destruct (Z.eqb_spec (ext_id e) 1); [lia|].
  cbn [mbind res_bind andb]. rewrite Esk. cbn [mbind res_bind].
  replace (len B + len R - len B) with (len R) by lia. destruct (Z.ltb_spec (len R) 0); [lia|].
  rewrite Z.gtb_ltb. destruct (Z.ltb_spec 1 (ext_id e)); [|lia].
  assert (Hcons : len (e :: l) = 1 + len l) by (unfold len; cbn [length]; lia).
  pose proof (len_nonneg l). destruct (Z.eqb_spec (len acc) nb); [lia|].
  set (x := {| ext_id := _ |}).
  destruct (IH fuel' (p + k + len B) (ext_frame e) (acc ++ [x])) as (l' & E & Hl'); try (done || lia).
  { fold R. lia. }
  { rewrite len_app. change (len [x]) with 1. lia. }
  fold R in E. rewrite E. exists (x :: l'). rewrite <- app_assoc. split; [done|]. apply Forall2_cons; [|done].
  destruct Hpay as (Hp1 & Hp2 & Hp3).
  assert (Hx : ext_len x = ext_len e) by (unfold x; cbn [ext_len]; lia).
  split; try done. unfold payload. rewrite Hx. unfold x. cbn [ext_data].
  rewrite Hpl in Hp3. exact Hp3.
Qed.

(** Bytes 0x01 are skipped. *)
Lemma parse_loop_ones k fuel p n cf nb acc :
  holds p (repeat 1 k) -> Z.of_nat k <= n -> (k < fuel)%nat ->
  parse_loop fuel m p n cf nb acc =
  parse_loop (fuel - k) m (p + Z.of_nat k) (n - Z.of_nat k) cf nb acc.
Proof.
  revert fuel p n. induction k as [|k IH]; intros fuel p n Hh Hn Hf.
  { rewrite Nat.sub_0_r, Z.add_0_r, Z.sub_0_r. done. }
  cbn [repeat] in Hh. apply holds_cons in Hh as [E Hh]. destruct fuel as [|fuel]; [lia|].
  cbn [parse_loop]. rewrite Z.gtb_ltb. destruct (Z.ltb_spec 0 n); [|lia].
  rewrite E. cbn [mbind res_bind]. change (Z.shiftr 1 1) with 0. cbn [Z.eqb mbind res_bind andb].
  unfold skip_extension. destruct (Z.eqb_spec n 0); [lia|]. rewrite E. cbn [mbind res_bind].
  change (Z.shiftr 1 1) with 0. change (Z.land 1 1) with 1. cbn [Z.eqb Pos.eqb andb].
  destruct (Z.ltb_spec n 1); [lia|]. cbn [mbind res_bind].
  destruct (Z.ltb_spec (n - 1) 0); [lia|]. cbn [Z.gtb Z.compare]. rewrite IH by (done || lia).
  cbn [Nat.sub]. f_equal; lia.
Qed.
End Read.

(** ** Arbitrary padding *)

Section Arbitrary.
Context (m : list Z).
Hypothesis Hm : bytes m.

Lemma sat_lacing fuel p n bs hs :
  0 <= p -> p + n <= len m -> 1 <= n -> 0 <= bs -> 1 <= hs -> (Z.to_nat n <= fuel)%nat ->
  sat (skip_lacing fuel m p n bs hs) (fun '(p', n', bs', hs') =>
    p < p' /\ p' + n' = p + n /\ 0 <= n' /\ 0 <= bs' /\ (1 <= n' -> hs' - hs = p' - p)).
Proof.
  revert p n bs hs. induction fuel as [|fuel IH]; intros p n bs hs Hp Hl Hn Hb Hh Hf; [lia|].
  cbn [skip_lacing]. destruct (Z.eqb_spec (n - 1) 0); [apply sat_ok; lia|].
  eapply sat_bind; [apply sat_get; [done|lia]|]. intros b [_ Hbr]. cbv beta.
  destruct (b =? 255); [|apply sat_ok; lia].
  eapply sat_impl; [apply IH; lia|]. intros [[[p' n'] bs'] hs']. lia.
Qed.

Ltac skip_done := apply sat_ok; first [by left | left; lia | right; split_and!; lia].

(** Skipping makes progress and stays in the padding. *)
Lemma sat_skip p n hs :
  0 <= p -> p + n <= len m -> 1 <= n ->
  sat (skip_extension m p n hs) (fun '(p', n', hs') =>
    n' = -1 \/ (0 <= n' < n /\ p' + n' = p + n /\ 1 <= hs' <= p' - p /\
      (0 < Z.shiftr m.[p] 1 < 32 -> p' - p - hs' <= 1))).
Proof.
  intros Hp Hl Hn. unfold skip_extension. destruct (Z.eqb_spec n 0); [lia|].
  eapply sat_bind; [apply sat_get; [done|lia]|]. intros b [-> Hb]. cbv beta zeta. set (b := m.[p]) in *.
  assert (HL : 0 <= Z.land b 1 <= 1).
  { rewrite (land_pow2_pred b 1 ltac:(lia) : Z.land b 1 = _). change (2 ^ 1) with 2. dlia. }
  destruct (_ && _) eqn:E1.
  { apply andb_true_iff in E1 as [E1 _]. destruct (Z.ltb_spec n 1); skip_done. }
  destruct ((Z.shiftr b 1 >? 0) && (Z.shiftr b 1 <? 32)) eqn:E2.
  { destruct (Z.ltb_spec n (1 + Z.land b 1)); skip_done. }
  assert (E3 : ~ 0 < Z.shiftr b 1 < 32).
  { apply andb_false_iff in E2 as [E2|E2]; [rewrite Z.gtb_ltb in E2|]; lia. }
  destruct (Z.eqb_spec (Z.land b 1) 0); [skip_done|].
  eapply sat_bind; [apply sat_lacing; lia|]. intros [[[p' n'] bs'] hs'] H.
  destruct (Z.eqb_spec n' 0); [skip_done|].
  destruct (Z.leb_spec bs' (n' - 1)); skip_done.
Qed.

(** What the parser stores: tags and frames in range, payloads in the padding. *)
Definition found (p n : Z) (e : opus_extension_data) : Prop :=
  2 <= e.(ext_id) <= 127 /\ 0 <= e.(ext_frame) < 48 /\ 0 <= e.(ext_len) /\
  (e.(ext_id) < 32 -> e.(ext_len) <= 1) /\
  p <= e.(ext_data) /\ e.(ext_data) + e.(ext_len) <= p + n.

(** Parsing and counting agree. *)
Lemma sat_parse_loop p0 n0 fuel p n cf nb acc :
  0 <= p0 <= p -> p + n = p0 + n0 -> p0 + n0 <= len m -> 0 <= n -> 0 <= cf < 48 ->
  (Z.to_nat n < fuel)%nat -> Forall (found p0 n0) acc ->
  sat (parse_loop fuel m p n cf nb acc) (fun l =>
    Forall (found p0 n0) l /\ (len acc <= nb -> len l <= nb) /\
    count_loop fuel m p n (len acc) = Ok (len l)).
Proof.
  revert p n cf acc. induction fuel as [|fuel IH]; intros p n cf acc Hp0 Hpn Hm0 Hn Hcf Hf Ha; [lia|].
  cbn [parse_loop count_loop]. rewrite Z.gtb_ltb. destruct (Z.ltb_spec 0 n); [|by apply sat_ok].
  destruct (get m p) as [b| |] eqn:E; pose proof (sat_get m p Hm ltac:(lia)) as Hg; rewrite E in Hg;
    [|done|done]. destruct Hg as [Hb0 Hb]. cbn [mbind res_bind].
  assert (Hid : 0 <= Z.shiftr b 1 <= 127).
  { rewrite Z.shiftr_div_pow2 by lia. change (2 ^ 1) with 2. dlia. }
  eapply (sat_bind _ _ (fun cf' => 0 <= cf' /\ (Z.shiftr b 1 <> 1 -> cf' < 48))).
  { destruct (Z.eqb_spec (Z.shiftr b 1) 1); [|apply sat_ok; lia]. unfold next_frame.
    destruct (_ =? 0); [apply sat_ok; lia|]. destruct (Z.geb_spec n 2); [|apply sat_ok; lia].
    eapply sat_bind; [apply sat_get; [done|lia]|]. intros b1 [_ Hb1]. apply sat_ok. lia. }
  intros cf' Hcf'. destruct ((Z.shiftr b 1 =? 1) && (cf' >=? 48)) eqn:Ecf; [done|].
  assert (Hcf48 : cf' < 48).
  { apply andb_false_iff in Ecf as [Ecf|Ecf]; [apply Z.eqb_neq in Ecf; lia|].
    rewrite Z.geb_leb, Z.leb_gt in Ecf. lia. }
  pose proof (sat_skip p n 0 ltac:(lia) ltac:(lia) ltac:(lia)) as Hsk.
  destruct (skip_extension m p n 0) as [[[p' n'] hs]| |]; [|done|done]. cbn in Hsk. cbn [mbind res_bind].
  destruct (Z.ltb_spec n' 0); [done|]. destruct Hsk as [|Hsk]; [lia|]. rewrite <- Hb0 in Hsk.
  rewrite !Z.gtb_ltb. destruct (Z.ltb_spec 1 (Z.shiftr b 1)).
  - destruct (Z.eqb_spec (len acc) nb); [done|]. set (x := {| ext_id := _ |}).
    assert (Hx : len (acc ++ [x]) = len acc + 1) by (by rewrite len_app).
    eapply sat_impl; [apply (IH p' n' cf'); try lia|].
    + apply Forall_app. split; [done|]. apply Forall_cons; [|apply Forall_nil].
      unfold found, x. cbn [ext_id ext_frame ext_data ext_len]. lia.
    + cbv beta. rewrite Hx. intros l (Hl1 & Hl2 & Hl3). split_and!; [done|lia|done].
  - eapply sat_impl; [apply (IH p' n' cf'); done || lia|]. done.
Qed.

Lemma sat_count_loop fuel p n c :
  0 <= p -> p + n <= len m -> 0 <= n -> (Z.to_nat n < fuel)%nat ->
  sat (count_loop fuel m p n c) (fun r => c <= r).
Proof.
  revert p n c. induction fuel as [|fuel IH]; intros p n c Hp Hl Hn Hf; [lia|]. cbn [count_loop].
  rewrite Z.gtb_ltb. destruct (Z.ltb_spec 0 n); [|apply sat_ok; lia].
  eapply sat_bind; [apply sat_get; [done|lia]|]. intros b _. cbv beta zeta.
  eapply sat_bind; [apply sat_skip; lia|]. intros [[p' n'] hs] Hs.
  destruct (Z.ltb_spec n' 0); [done|]. destruct Hs as [|Hs]; [lia|].
  eapply sat_impl; [apply IH; lia|]. cbv beta. intros r. destruct (_ >? 1); lia.
Qed.
End Arbitrary.
