(* ===== verification/Repacketizer.v ===== *)
(** * The repacketizer (src/repacketizer.c)

    Frames and paddings are pointers into memory, so that padding and unpadding
    in place are what they are in C: [OPUS_MOVE] reads memory as the writes
    before it left it. *)

From S2P Require Import Prelude Memory Packet Extensions.

Record OpusRepacketizer := {
  rp_toc : Z;
  rp_nb_frames : Z;
  rp_frames : list Z;
  rp_len : list Z;
  rp_framesize : Z;
  rp_paddings : list Z;
  rp_padding_len : list Z
}.

(** A repacketizer as allocated, its arrays of 48 entries not yet meaningful. *)
Definition rp_alloc : OpusRepacketizer :=
  {| rp_toc := 0; rp_nb_frames := 0; rp_frames := repeat NULL 48; rp_len := repeat 0 48;
     rp_framesize := 0; rp_paddings := repeat NULL 48; rp_padding_len := repeat 0 48 |}.

Definition opus_repacketizer_init (rp : OpusRepacketizer) : OpusRepacketizer :=
  {| rp_toc := rp.(rp_toc); rp_nb_frames := 0; rp_frames := rp.(rp_frames); rp_len := rp.(rp_len);
     rp_framesize := rp.(rp_framesize); rp_paddings := rp.(rp_paddings);
     rp_padding_len := rp.(rp_padding_len) |}.

Definition opus_repacketizer_create : OpusRepacketizer := opus_repacketizer_init rp_alloc.

Definition opus_repacketizer_get_nb_frames (rp : OpusRepacketizer) : Z := rp.(rp_nb_frames).

(** ** Adding a packet *)

(** [while (curr_nb_frames > 1)]: no padding for the frames after the first. *)
Fixpoint cat_clear (n : nat) (nb_frames : Z) (paddings padding_len : list Z)
    : res (Z * list Z * list Z) :=
  match n with
  | O => Ok (nb_frames, paddings, padding_len)
  | S n =>
      let nb_frames := nb_frames + 1 in
      padding_len ← put padding_len nb_frames 0;
      paddings ← put paddings nb_frames NULL;
      cat_clear n nb_frames paddings padding_len
  end.

(** What the parser stores through its pointers, and the loop behind it. *)
Definition cat_store (rp : OpusRepacketizer) (data curr_nb_frames : Z) (r : parsed) : res OpusRepacketizer :=
  let nb := rp.(rp_nb_frames) in
  frames ← store rp.(rp_frames) nb (map (Z.add data) r.(pr_frames));
  lens ← store rp.(rp_len) nb r.(pr_size);
  paddings ← put rp.(rp_paddings) nb (data + r.(pr_padding));
  padding_len ← put rp.(rp_padding_len) nb r.(pr_padding_len);
  '(nb, paddings, padding_len) ← cat_clear (Z.to_nat (curr_nb_frames - 1)) nb paddings padding_len;
  Ok {| rp_toc := rp.(rp_toc); rp_nb_frames := nb + 1; rp_frames := frames; rp_len := lens;
        rp_framesize := rp.(rp_framesize); rp_paddings := paddings; rp_padding_len := padding_len |}.

(** The new state and the return value. The entries of [frames] and [len] from
    [nb_frames] on that a failing parse may leave behind are not read before they
    are overwritten, and stay as they were. *)
Definition opus_repacketizer_cat_impl (mem : list Z) (rp : OpusRepacketizer) (data len : Z)
    (self_delimited : bool) : res (OpusRepacketizer * Z) :=
  if len <? 1 then Ok (rp, OPUS_INVALID_PACKET)
  else
    d0 ← get mem data;
    let nb := rp.(rp_nb_frames) in
    if negb (nb =? 0) && negb (Z.land rp.(rp_toc) 0xFC =? Z.land d0 0xFC) then
      Ok (rp, OPUS_INVALID_PACKET)
    else
      let toc := if nb =? 0 then d0 else rp.(rp_toc) in
      let framesize := if nb =? 0 then samples_per_frame d0 8000 else rp.(rp_framesize) in
      let rp := {| rp_toc := toc; rp_nb_frames := nb; rp_frames := rp.(rp_frames); rp_len := rp.(rp_len);
                   rp_framesize := framesize; rp_paddings := rp.(rp_paddings);
                   rp_padding_len := rp.(rp_padding_len) |} in
      packet ← load mem data len;
      match opus_packet_get_nb_frames packet len with
      | Fault => Fault
      | Err _ => Ok (rp, OPUS_INVALID_PACKET)
      | Ok curr_nb_frames =>
          if curr_nb_frames <? 1 then Ok (rp, OPUS_INVALID_PACKET)
          else if (curr_nb_frames + nb) * framesize >? 960 then Ok (rp, OPUS_INVALID_PACKET)
          else
            match opus_packet_parse_impl packet len self_delimited (drop (Z.to_nat nb) rp.(rp_len)) with
            | Fault => Fault
            | Err c => Ok (rp, c)
            | Ok r =>
                rp ← cat_store rp data curr_nb_frames r;
                Ok (rp, OPUS_OK)
            end
      end.

Definition opus_repacketizer_cat (mem : list Z) (rp : OpusRepacketizer) (data len : Z)
    : res (OpusRepacketizer * Z) :=
  opus_repacketizer_cat_impl mem rp data len false.

(** ** Extensions of the frames to write *)

(** The number of extensions in the paddings of [n] frames from [i] on; padding
    that does not parse counts for nothing. *)
Fixpoint out_count (n : nat) (i : Z) (mem : list Z) (rp : OpusRepacketizer) (total : Z) : res Z :=
  match n with
  | O => Ok total
  | S n =>
      match opus_packet_extensions_count mem rp.(rp_paddings).[i] rp.(rp_padding_len).[i] with
      | Fault => Fault
      | Err _ => out_count n (i + 1) mem rp total
      | Ok k => out_count n (i + 1) mem rp (if k >? 0 then total + k else total)
      end
  end.

Definition renumber (d : Z) (e : opus_extension_data) : opus_extension_data :=
  {| ext_id := e.(ext_id); ext_frame := e.(ext_frame) + d; ext_data := e.(ext_data);
     ext_len := e.(ext_len) |}.

(** All extensions: those in [all] and those of [n] frames from [i] on. *)
Fixpoint out_gather (n : nat) (i begin : Z) (mem : list Z) (rp : OpusRepacketizer) (total : Z)
    (all : list opus_extension_data) : res (list opus_extension_data) :=
  match n with
  | O => Ok all
  | S n =>
      match opus_packet_extensions_parse mem rp.(rp_paddings).[i] rp.(rp_padding_len).[i]
              (total - len all) with
      | Fault => Fault
      | Err _ => Err OPUS_INTERNAL_ERROR
      | Ok exts => out_gather n (i + 1) begin mem rp total (all ++ map (renumber (i - begin)) exts)
      end
  end.

(** ** Writing a packet *)

(** [*ptr++ = v] and [ptr += encode_size(size, ptr)]. *)
Definition emit (v : Z) (s : list Z * Z) : res (list Z * Z) :=
  let '(mem, ptr) := s in mem ← put mem ptr (u8 v); Ok (mem, ptr + 1).
Definition emit_size (size : Z) (s : list Z * Z) : res (list Z * Z) :=
  let '(mem, ptr) := s in
  let b := encode_size size in mem ← store mem ptr b; Ok (mem, ptr + len b).

Fixpoint emit_n (n : nat) (v : Z) (s : list Z * Z) : res (list Z * Z) :=
  match n with O => Ok s | S n => s ← emit v s; emit_n n v s end.
Fixpoint emit_sizes (sizes : list Z) (s : list Z * Z) : res (list Z * Z) :=
  match sizes with [] => Ok s | n :: rest => s ← emit_size n s; emit_sizes rest s end.

Definition sum_vbr (lens : list Z) : Z :=
  foldr (fun n acc => 1 + b2z (n >=? 252) + n + acc) 0 lens.

(** The frames of the code 0, 1 and 2 headers: memory, pointer and tot_size. *)
Definition out_short (mem : list Z) (toc data maxlen tot_size : Z) (lens : list Z)
    : res (list Z * Z * Z) :=
  match lens with
  | [l0] =>
      let tot_size := tot_size + (l0 + 1) in
      if tot_size >? maxlen then Err OPUS_BUFFER_TOO_SMALL
      else '(mem, ptr) ← emit (Z.land toc 0xFC) (mem, data); Ok (mem, ptr, tot_size)
  | [l0; l1] =>
      if l1 =? l0 then
        let tot_size := tot_size + (2 * l0 + 1) in
        if tot_size >? maxlen then Err OPUS_BUFFER_TOO_SMALL
        else '(mem, ptr) ← emit (Z.lor (Z.land toc 0xFC) 0x1) (mem, data); Ok (mem, ptr, tot_size)
      else
        let tot_size := tot_size + (l0 + l1 + 2 + b2z (l0 >=? 252)) in
        if tot_size >? maxlen then Err OPUS_BUFFER_TOO_SMALL
        else
          s ← emit (Z.lor (Z.land toc 0xFC) 0x2) (mem, data);
          '(mem, ptr) ← emit_size l0 s;
          Ok (mem, ptr, tot_size)
  | _ => Ok (mem, data, tot_size)
  end.

(** What the code 3 header fixes of the rest of the packet. *)
Record layout := {
  lo_tot_size : Z;
  lo_ones_begin : Z;
  lo_ones_end : Z;
  lo_ext_begin : Z;
  lo_ext_len : Z
}.

(** The padding lengths of a code 3 packet, and the layout. *)
Definition out_padding (mem : list Z) (ptr data maxlen tot_size pad_amount ext_len : Z)
    : res (list Z * Z * layout) :=
  if negb (pad_amount =? 0) then
    b1 ← get mem (data + 1);
    mem ← put mem (data + 1) (Z.lor b1 0x40);
    let nb_255s := Z.quot (pad_amount - 1) 255 in
    if tot_size + ext_len + nb_255s + 1 >? maxlen then Err OPUS_BUFFER_TOO_SMALL
    else
      s ← emit_n (Z.to_nat nb_255s) 255 (mem, ptr);
      '(mem, ptr) ← emit (pad_amount - 255 * nb_255s - 1) s;
      Ok (mem, ptr, {| lo_tot_size := tot_size + pad_amount;
                       lo_ones_begin := tot_size + nb_255s + 1;
                       lo_ones_end := tot_size + pad_amount - ext_len;
                       lo_ext_begin := tot_size + pad_amount - ext_len;
                       lo_ext_len := ext_len |})
  else
    Ok (mem, ptr, {| lo_tot_size := tot_size; lo_ones_begin := 0; lo_ones_end := 0;
                     lo_ext_begin := 0; lo_ext_len := ext_len |}).

Definition out_code3 (mem : list Z) (toc data maxlen tot_size : Z) (pad : bool) (lens : list Z)
    (exts : list opus_extension_data) : res (list Z * Z * layout) :=
  let count := len lens in
  let l0 := lens.[0] in
  let vbr := existsb (fun l => negb (l =? l0)) lens in
  let tot_size :=
    if vbr then tot_size + 2 + sum_vbr (removelast lens) + lens.[count - 1]
    else tot_size + (count * l0 + 2) in
  if tot_size >? maxlen then Err OPUS_BUFFER_TOO_SMALL
  else
    s ← emit (Z.lor (Z.land toc 0xFC) 0x3) (mem, data);
    '(mem, ptr) ← emit (if vbr then Z.lor count 0x80 else count) s;
    let pad_amount := if pad then maxlen - tot_size else 0 in
    '(pad_amount, ext_len) ←
      (if len exts >? 0 then
         '(_, ext_len) ← opus_packet_extensions_generate mem None (maxlen - tot_size) exts false;
         Ok (if pad then pad_amount else ext_len + ext_len / 254 + 1, ext_len)
       else Ok (pad_amount, 0));
    '(mem, ptr, lo) ← out_padding mem ptr data maxlen tot_size pad_amount ext_len;
    '(mem, ptr) ← (if vbr then emit_sizes (removelast lens) (mem, ptr) else Ok (mem, ptr));
    Ok (mem, ptr, lo).

(** The frames themselves. *)
Fixpoint out_frames (fl : list (Z * Z)) (s : list Z * Z) : res (list Z * Z) :=
  match fl with
  | [] => Ok s
  | (frame, n) :: rest =>
      let '(mem, ptr) := s in
      mem ← OPUS_MOVE mem ptr frame n;
      out_frames rest (mem, ptr + n)
  end.

(** [for (i=from;i<to;i++) data[i] = v]. *)
Definition out_fill (mem : list Z) (data from to v : Z) : res (list Z) :=
  if from <? to then store mem (data + from) (repeat v (Z.to_nat (to - from))) else Ok mem.

(** Behind the header: the size of the last frame, the frames, the extensions
    and the padding. *)
Definition out_payload (mem : list Z) (ptr data maxlen : Z) (self_delimited pad : bool) (last : Z)
    (fl : list (Z * Z)) (exts : list opus_extension_data) (lo : layout) : res (list Z * Z) :=
  s ← (if self_delimited then emit_size last (mem, ptr) else Ok (mem, ptr));
  '(mem, ptr) ← out_frames fl s;
  mem ← (if lo.(lo_ext_len) >? 0 then
           '(mem, _) ← opus_packet_extensions_generate mem (Some (data + lo.(lo_ext_begin)))
                         lo.(lo_ext_len) exts false;
           Ok mem
         else Ok mem);
  mem ← out_fill mem data lo.(lo_ones_begin) lo.(lo_ones_end) 1;
  mem ← (if pad && (len exts =? 0) then out_fill mem data (ptr - data) maxlen 0 else Ok mem);
  Ok (mem, lo.(lo_tot_size)).

(** Memory and the return value. *)
Definition opus_repacketizer_out_range_impl (mem : list Z) (rp : OpusRepacketizer)
    (begin end_ data maxlen : Z) (self_delimited pad : bool) (extensions : list opus_extension_data)
    : res (list Z * Z) :=
  if (begin <? 0) || (begin >=? end_) || (end_ >? rp.(rp_nb_frames)) then Err OPUS_BAD_ARG
  else
    let count := end_ - begin in
    let lens := slice rp.(rp_len) begin count in
    let frames := slice rp.(rp_frames) begin count in
    let last := lens.[count - 1] in
    let tot_size := if self_delimited then 1 + b2z (last >=? 252) else 0 in
    total ← out_count (Z.to_nat count) begin mem rp (len extensions);
    exts ← out_gather (Z.to_nat count) begin begin mem rp total extensions;
    '(mem, ptr, tot_short) ← out_short mem rp.(rp_toc) data maxlen tot_size lens;
    '(mem, ptr, lo) ←
      (if (count >? 2) || (pad && (tot_short <? maxlen)) || (len exts >? 0) then
         out_code3 mem rp.(rp_toc) data maxlen tot_size pad lens exts
       else Ok (mem, ptr, {| lo_tot_size := tot_short; lo_ones_begin := 0; lo_ones_end := 0;
                             lo_ext_begin := 0; lo_ext_len := 0 |}));
    out_payload mem ptr data maxlen self_delimited pad last (zip frames lens) exts lo.

Definition opus_repacketizer_out_range (mem : list Z) (rp : OpusRepacketizer)
    (begin end_ data maxlen : Z) : res (list Z * Z) :=
  opus_repacketizer_out_range_impl mem rp begin end_ data maxlen false false [].

Definition opus_repacketizer_out (mem : list Z) (rp : OpusRepacketizer) (data maxlen : Z)
    : res (list Z * Z) :=
  opus_repacketizer_out_range_impl mem rp 0 rp.(rp_nb_frames) data maxlen false false [].

(** ** Padding in place *)

(** [copy] is a fresh block behind the memory, gone on return. *)
Definition opus_packet_pad_impl (mem : list Z) (data len new_len : Z) (pad : bool)
    (extensions : list opus_extension_data) : res (list Z * Z) :=
  if len <? 1 then Err OPUS_BAD_ARG
  else if len =? new_len then Ok (mem, OPUS_OK)
  else if len >? new_len then Err OPUS_BAD_ARG
  else
    copy ← load mem data len;
    let n := Prelude.len mem in
    '(rp, ret) ← opus_repacketizer_cat (mem ++ copy) (opus_repacketizer_init rp_alloc) n len;
    if negb (ret =? OPUS_OK) then Err ret
    else
      '(mem, ret) ← opus_repacketizer_out_range_impl (mem ++ copy) rp 0 rp.(rp_nb_frames) data new_len
                      false pad extensions;
      Ok (take (Z.to_nat n) mem, ret).

Definition opus_packet_pad (mem : list Z) (data len new_len : Z) : res (list Z * Z) :=
  '(mem, ret) ← opus_packet_pad_impl mem data len new_len true [];
  Ok (mem, if ret >? 0 then OPUS_OK else ret).

(** [for (i=0;i<rp.nb_frames;i++) { padding_len[i] = 0; paddings[i] = NULL; }] *)
Definition discard_padding (rp : OpusRepacketizer) : OpusRepacketizer :=
  let n := Z.to_nat rp.(rp_nb_frames) in
  {| rp_toc := rp.(rp_toc); rp_nb_frames := rp.(rp_nb_frames); rp_frames := rp.(rp_frames);
     rp_len := rp.(rp_len); rp_framesize := rp.(rp_framesize);
     rp_paddings := repeat NULL n ++ drop n rp.(rp_paddings);
     rp_padding_len := repeat 0 n ++ drop n rp.(rp_padding_len) |}.

Definition opus_packet_unpad (mem : list Z) (data len : Z) : res (list Z * Z) :=
  if len <? 1 then Err OPUS_BAD_ARG
  else
    '(rp, ret) ← opus_repacketizer_cat mem (opus_repacketizer_init rp_alloc) data len;
    if ret <? 0 then Err ret
    else
      opus_repacketizer_out_range_impl mem (discard_padding rp) 0 rp.(rp_nb_frames) data len
        false false [].

(** ** Multistream packets: self-delimited packets, then a plain one *)

(** Seek over [n] streams: the position and size of the rest. *)
Fixpoint ms_seek (n : nat) (mem : list Z) (data len : Z) : res (Z * Z) :=
  match n with
  | O => Ok (data, len)
  | S n =>
      if len <=? 0 then Err OPUS_INVALID_PACKET
      else
        packet ← load mem data len;
        r ← opus_packet_parse_impl packet len true (repeat 0 48);
        ms_seek n mem (data + r.(pr_packet_offset)) (len - r.(pr_packet_offset))
  end.

Definition opus_multistream_packet_pad (mem : list Z) (data len new_len nb_streams : Z)
    : res (list Z * Z) :=
  if len <? 1 then Err OPUS_BAD_ARG
  else if len =? new_len then Ok (mem, OPUS_OK)
  else if len >? new_len then Err OPUS_BAD_ARG
  else
    let amount := new_len - len in
    '(data, len) ← ms_seek (Z.to_nat (nb_streams - 1)) mem data len;
    opus_packet_pad mem data len (len + amount).

(** Streams [s], ..., [s + n - 1]: memory and the bytes written at [dst]. *)
Fixpoint ms_unpad (n : nat) (s nb_streams : Z) (mem : list Z) (data len dst dst_len : Z)
    : res (list Z * Z) :=
  match n with
  | O => Ok (mem, dst_len)
  | S n =>
      let self_delimited := negb (s =? nb_streams - 1) in
      if len <=? 0 then Err OPUS_INVALID_PACKET
      else
        packet ← load mem data len;
        r ← opus_packet_parse_impl packet len self_delimited (repeat 0 48);
        let packet_offset := r.(pr_packet_offset) in
        '(rp, ret) ← opus_repacketizer_cat_impl mem (opus_repacketizer_init rp_alloc) data
                       packet_offset self_delimited;
        if ret <? 0 then Err ret
        else
          '(mem, ret) ← opus_repacketizer_out_range_impl mem (discard_padding rp) 0
                          rp.(rp_nb_frames) dst len self_delimited false [];
          ms_unpad n (s + 1) nb_streams mem (data + packet_offset) (len - packet_offset)
            (dst + ret) (dst_len + ret)
  end.

Definition opus_multistream_packet_unpad (mem : list Z) (data len nb_streams : Z)
    : res (list Z * Z) :=
  if len <? 1 then Err OPUS_BAD_ARG
  else ms_unpad (Z.to_nat nb_streams) 0 nb_streams mem data len data 0.

(** ** Runs *)

(** Two packets of one frame each become one packet of code 2; padding and
    unpadding give it back. *)
Example repacketizer_runs :
  let mem := [8; 1; 2; 3;  8; 4; 5] ++ repeat 99 12 in
  (mbind (fun r => mbind (fun r' => opus_repacketizer_out mem (fst r') 7 12)
            (opus_repacketizer_cat mem (fst r) 4 3))
     (opus_repacketizer_cat mem opus_repacketizer_create 0 4))
  = Ok ([8; 1; 2; 3;  8; 4; 5] ++ [10; 3; 1; 2; 3; 4; 5] ++ repeat 99 5, 7) /\
  opus_packet_pad [10; 3; 1; 2; 3; 4; 5; 99; 99; 99] 0 7 10 = Ok ([11; 194; 1; 3; 1; 2; 3; 4; 5; 0], 0) /\
  opus_packet_unpad [11; 194; 1; 3; 1; 2; 3; 4; 5; 0] 0 10 = Ok ([10; 3; 1; 2; 3; 4; 5; 4; 5; 0], 7).
Proof. vm_compute. auto. Qed.
