(* ===== verification/RepackProofs.v ===== *)
(** * What the repacketizer writes

    [out_spec] shows that [opus_repacketizer_out_range_impl] writes a packet of
    the layout of PacketBuild.v, or reports an error, also when the buffer
    overlaps the frames in the way that unpadding in place needs. *)

From S2P Require Import Prelude Memory Packet PacketProofs PacketBuild Extensions ExtProofs Repacketizer.

(** ** Overwriting *)

Lemma splice_over m p l l' :
  0 <= p -> p + len l' <= len m -> len l <= len l' -> splice (splice m p l) p l' = splice m p l'.
Proof.
  intros Hp Hl Hle. pose proof (len_nonneg l). apply rd_ext.
  - rewrite !len_splice; rewrite ?len_splice; lia.
  - intros i _. destruct (decide (p <= i < p + len l')).
    + rewrite !rd_splice_in by (rewrite ?len_splice; lia). done.
    + rewrite !rd_splice_out by (rewrite ?len_splice; lia). done.
Qed.

Lemma splice_behind m p a b :
  0 <= p -> p + len a + len b <= len m -> splice (splice m (p + len a) b) p a = splice m p (a ++ b).
Proof.
  intros Hp Hl. pose proof (len_nonneg a). pose proof (len_nonneg b). apply rd_ext.
  - rewrite !len_splice; rewrite ?len_splice, ?len_app; lia.
  - intros i _. destruct (decide (p <= i < p + len a)).
    { rewrite !rd_splice_in by (rewrite ?len_splice, ?len_app; lia). by rewrite rd_app_l by lia. }
    rewrite rd_splice_out by (rewrite ?len_splice; lia). destruct (decide (p + len a <= i < p + len a + len b)).
    { rewrite !rd_splice_in by (rewrite ?len_app; lia).
      replace (i - p) with (len a + (i - (p + len a))) by lia. by rewrite rd_app_r by lia. }
    rewrite !rd_splice_out by (rewrite ?len_app; lia). done.
Qed.

(** ** Writing behind a prefix *)

Section Emit.
Context (m : list Z) (data maxlen : Z).
Hypothesis Hdata : 0 <= data.
Hypothesis Hroom : data + maxlen <= len m.

(** Memory and pointer once [pre] is written at [data]. *)
Definition At (pre : list Z) : list Z * Z := (splice m data pre, data + len pre).

Lemma emit_at pre v : len pre + 1 <= maxlen -> emit v (At pre) = Ok (At (pre ++ [u8 v])).
Proof.
  intros H. unfold emit, At. pose proof (len_nonneg pre). rewrite put_splice by (rewrite len_splice; lia).
  cbn [mbind res_bind]. rewrite splice_splice by (change (len [u8 v]) with 1; lia).
  rewrite len_app. change (len [u8 v]) with 1. tup.
Qed.

Lemma emit_size_at pre n : len pre + len (encode_size n) <= maxlen ->
  emit_size n (At pre) = Ok (At (pre ++ encode_size n)).
Proof.
  intros H. unfold emit_size, At. pose proof (len_nonneg pre). pose proof (len_nonneg (encode_size n)).
  rewrite store_ok by (rewrite ?len_splice; lia). cbn [mbind res_bind].
  rewrite splice_splice by lia. rewrite len_app. tup.
Qed.

Lemma emit_n_at n pre v : len pre + Z.of_nat n <= maxlen ->
  emit_n n v (At pre) = Ok (At (pre ++ repeat (u8 v) n)).
Proof.
  revert pre. induction n as [|n IH]; intros pre H; cbn [emit_n repeat]; [by rewrite app_nil_r|].
  rewrite emit_at by lia. cbn [mbind res_bind].
  rewrite IH by (rewrite len_app; change (len [u8 v]) with 1; lia). by rewrite <- app_assoc.
Qed.

Lemma emit_sizes_at ls pre : len pre + len (concat (map encode_size ls)) <= maxlen ->
  emit_sizes ls (At pre) = Ok (At (pre ++ concat (map encode_size ls))).
Proof.
  revert pre. induction ls as [|n ls IH]; intros pre H; cbn [emit_sizes map concat] in *; [by rewrite app_nil_r|].
  rewrite len_app in H. pose proof (len_nonneg (concat (map encode_size ls))).
  rewrite emit_size_at by lia. cbn [mbind res_bind]. rewrite IH by (rewrite len_app; lia). by rewrite <- app_assoc.
Qed.

(** A frame to copy is in memory and, when its turn comes, not overwritten. *)
Fixpoint frames_apart (k : Z) (fl : list (Z * Z)) : Prop :=
  match fl with
  | [] => True
  | (f, n) :: rest =>
      0 <= f /\ 0 <= n /\ f + n <= len m /\ (f + n <= data \/ data + k <= f) /\ frames_apart (k + n) rest
  end.

Definition contents (fl : list (Z * Z)) : list Z := concat (map (fun '(f, n) => slice m f n) fl).

Lemma out_frames_at fl pre :
  frames_apart (len pre) fl -> len pre + sumZ (map snd fl) <= maxlen ->
  out_frames fl (At pre) = Ok (At (pre ++ contents fl)) /\ len (contents fl) = sumZ (map snd fl).
Proof.
  revert pre. induction fl as [|[f n] fl IH]; intros pre Ha Hr; cbn [out_frames map snd contents concat] in *.
  { rewrite app_nil_r. done. }
  destruct Ha as (Hf & Hn & Hm & Ho & Ha). change (sumZ (n :: map snd fl)) with (n + sumZ (map snd fl)) in *.
  pose proof (len_nonneg pre). pose proof (len_slice m f n Hf Hn Hm) as Hls.
  assert (Hpos : forall k l, frames_apart k l -> 0 <= sumZ (map snd l)).
  { intros k l. revert k. induction l as [|[f' n'] l IHl]; intros k Hk; cbn [map snd]; [cbn; lia|].
    destruct Hk as (_ & Hn' & _ & _ & Hk). specialize (IHl _ Hk). change (sumZ (n' :: map snd l)) with (n' + sumZ (map snd l)). lia. }
  pose proof (Hpos _ _ Ha). unfold At at 1. rewrite move_ok by (rewrite ?len_splice; lia). cbn [mbind res_bind].
  rewrite slice_splice_out by lia. rewrite splice_splice by lia.
  assert (E : (splice m data (pre ++ slice m f n), data + len pre + n) = At (pre ++ slice m f n)).
  { unfold At. rewrite len_app. tup. }
  rewrite E. destruct (IH (pre ++ slice m f n)) as [E1 E2].
  - rewrite len_app, Hls. done.
  - rewrite len_app. lia.
  - rewrite E1. rewrite <- app_assoc. split; [done|]. unfold contents in *. cbn [map concat]. rewrite len_app. lia.
Qed.

Lemma out_fill_at pre from to v :
  from = len pre -> from <= to -> to <= maxlen ->
  out_fill (splice m data pre) data from to v = Ok (splice m data (pre ++ repeat v (Z.to_nat (to - from)))).
Proof.
  intros -> Hle Ht. unfold out_fill. pose proof (len_nonneg pre). destruct (Z.ltb_spec (len pre) to).
  - set (r := repeat _ _). assert (Hr : len r = to - len pre) by (unfold r, len; rewrite repeat_length; unfold len in *; lia).
    rewrite store_ok by (rewrite ?len_splice; lia). rewrite splice_splice by lia. done.
  - replace (to - len pre) with 0 by lia. by rewrite app_nil_r.
Qed.
End Emit.

(** ** Extensions *)

(** An extension that the generator may be given: [ext_ok] but for the upper bound of the frame. *)
Record ext_pre (m : list Z) (e : opus_extension_data) : Prop := {
  ep_id : 2 <= e.(ext_id) <= 127;
  ep_frame : 0 <= e.(ext_frame);
  ep_len : 0 <= e.(ext_len);
  ep_short : e.(ext_id) < 32 -> e.(ext_len) <= 1;
  ep_data : 0 < e.(ext_len) -> 0 <= e.(ext_data) /\ e.(ext_data) + e.(ext_len) <= len m
}.

Lemma gen_max_frame_pre m l mx :
  Forall (ext_pre m) l -> 0 <= mx ->
  exists mx', gen_max_frame mx l = Ok mx' /\ mx <= mx' /\ Forall (fun e => ext_frame e <= mx') l.
Proof.
  revert mx. induction l as [|e l IH]; intros mx Hl Hm; cbn [gen_max_frame].
  { exists mx. split_and!; [done|lia|by apply Forall_nil]. }
  apply Forall_cons_1 in Hl as [He Hl]. pose proof (ep_id _ _ He).
  rewrite Z.gtb_ltb. destruct (Z.ltb_spec (ext_id e) 2), (Z.ltb_spec 127 (ext_id e)); try lia. cbn [orb].
  destruct (IH (Z.max mx (ext_frame e)) Hl ltac:(lia)) as (mx' & E & Hr & Hall).
  exists mx'. split_and!; [done|lia|]. apply Forall_cons; [lia|done].
Qed.

Lemma exts_bytes_ext m m' cf l :
  Forall (fun e => payload m' e = payload m e) l -> exts_bytes m' cf l = exts_bytes m cf l.
Proof.
  revert cf. induction l as [|e l IH]; intros cf H; cbn [exts_bytes]; [done|].
  apply Forall_cons_1 in H as [E H]. by rewrite E, IH.
Qed.

Lemma ordered_perm l : Forall (fun e => 0 <= ext_frame e < 48) l -> ordered l ≡ₚ l.
Proof. exact (by_frame_perm 48 0 l). Qed.

(** The length of the extensions. *)
Definition exts_len (m : list Z) (l : list opus_extension_data) : Z := len (exts_bytes m 0 (ordered l)).

(** The dry run: the length if it fits, an error otherwise. *)
Lemma dry_run m l room :
  Forall (ext_pre m) l -> 0 <= room ->
  (exists c, c < 0 /\ opus_packet_extensions_generate m None room l false = Err c) \/
  (Forall (ext_ok m) l /\ exts_len m l <= room /\
   opus_packet_extensions_generate m None room l false = Ok (m, exts_len m l)).
Proof.
  intros Hl Hr. destruct (gen_max_frame_pre m l 0 Hl ltac:(lia)) as (mx & E & Hm & Hall).
  destruct (Z.leb_spec 48 mx).
  { left. exists OPUS_BAD_ARG. split; [done|]. unfold opus_packet_extensions_generate. rewrite E.
    cbn [mbind res_bind]. destruct (Z.geb_spec mx 48); [done|lia]. }
  assert (Ho : Forall (ext_ok m) l).
  { apply Forall_forall. intros e He. rewrite Forall_forall in Hl, Hall. specialize (Hall e He). cbv beta in Hall.
    destruct (Hl e He). split; try done. lia. }
  rewrite (generate_spec None m room) by (done || apply Forall_forall; done).
  fold (exts_len m l). destruct (Z.leb_spec (exts_len m l) room).
  - right. split_and!; [done|lia|done].
  - left. by exists OPUS_BUFFER_TOO_SMALL.
Qed.

Lemma exts_len_pos m l : Forall (ext_ok m) l -> l <> [] -> 1 <= exts_len m l.
Proof.
  intros Ho Hn. assert (Hp : ordered l ≡ₚ l).
  { apply ordered_perm. eapply Forall_impl; [|exact Ho]. intros e He. apply (eo_frame _ _ He). }
  unfold exts_len. destruct (ordered l) as [|e l'] eqn:E.
  { apply Permutation_nil_l in Hp. congruence. }
  cbn [exts_bytes]. rewrite !len_app, len_ext_bytes.
  pose proof (len_nonneg (sep_bytes 0 (ext_frame e))). pose proof (len_nonneg (payload m e)).
  pose proof (len_nonneg (exts_bytes m (ext_frame e) l')). destruct (_ <? _), (is_nil l'); dlia.
Qed.

(** ** Headers *)

(** Codes 0, 1 and 2, without the size of the last frame. *)
Definition short (toc : Z) (lens : list Z) : list Z :=
  match lens with
  | [_] => [Z.land toc 0xFC]
  | [l0; l1] =>
      if l1 =? l0 then [Z.lor (Z.land toc 0xFC) 1] else [Z.lor (Z.land toc 0xFC) 2] ++ encode_size l0
  | _ => []
  end.

Lemma header012_short toc sd lens :
  1 <= len lens <= 2 -> header012 toc sd lens = short toc lens ++ sd_header sd lens.
Proof.
  intros H. unfold header012, short. destruct lens as [|a [|b [|c l]]].
  - change (len (@nil Z)) with 0 in H. lia.
  - done.
  - destruct (b =? a); [done|]. by rewrite <- app_assoc.
  - unfold len in H. cbn [length] in H. lia.
Qed.

Lemma short_long toc lens : 2 < len lens -> short toc lens = [].
Proof. unfold short, len. destruct lens as [|? [|? [|? ?]]]; cbn [length]; done || lia. Qed.

Lemma header3_sd toc sd lens amount :
  header3 toc sd lens amount = header3 toc false lens amount ++ sd_header sd lens.
Proof. unfold header3. change (sd_header false lens) with (@nil Z). rewrite app_nil_r, <- !app_assoc. done. Qed.

Lemma sum_vbr_eq ls : sum_vbr ls = len (concat (map encode_size ls)) + sumZ ls.
Proof.
  unfold sum_vbr, sumZ. induction ls as [|n ls IH]; cbn [foldr map concat]; [done|].
  rewrite len_app, len_encode_size, IH. lia.
Qed.

(** The size of a code 3 packet without padding. *)
Definition total3 (toc : Z) (sd : bool) (lens : list Z) : Z := len (header3 toc sd lens 0) + sumZ lens.

Lemma len_header3 toc sd lens amount :
  len (header3 toc sd lens amount) = 2 + len (pad_header amount) + len (vbr_header lens) + len (sd_header sd lens).
Proof. unfold header3. rewrite !len_app. change (len [_; _]) with 2. lia. Qed.

Lemma total3_eq toc lens sdl :
  1 <= len lens ->
  (if vbr lens then sdl + 2 + sum_vbr (removelast lens) + lens.[len lens - 1]
   else sdl + (len lens * lens.[0] + 2)) = sdl + total3 toc false lens.
Proof.
  intros H. unfold total3. rewrite len_header3. change (len (pad_header 0)) with 0.
  change (len (sd_header false lens)) with 0. unfold vbr_header. destruct (vbr lens) eqn:Ev.
  - rewrite sum_vbr_eq, (sumZ_split lens) by lia. unfold last_len. lia.
  - rewrite cbr_sum by done. change (len (@nil Z)) with 0. lia.
Qed.

Lemma toc_u8 toc k : 0 <= toc < 256 -> 0 <= k < 4 -> u8 (Z.lor (Z.land toc 0xFC) k) = Z.lor (Z.land toc 0xFC) k.
Proof. intros Ht Hk. apply u8_small. by apply toc_bits. Qed.

Section Out.
Context (m : list Z) (data maxlen : Z).
Hypothesis Hdata : 0 <= data.
Hypothesis Hroom : data + maxlen <= len m.
Context (toc : Z) (lens : list Z).
Hypothesis Htoc : 0 <= toc < 256.
Hypothesis Hlens : lens_ok toc lens.

Lemma out_emit v : u8 v = v -> 0 < maxlen -> emit v (m, data) = Ok (At m data [v]).
Proof.
  intros E H. pose proof (emit_at m data maxlen Hdata Hroom [] v ltac:(change (len (@nil Z)) with 0; lia)) as E1.
  unfold At in E1 at 1. rewrite splice_nil in E1. change (len (@nil Z)) with 0 in E1. rewrite Z.add_0_r in E1.
  rewrite E1. cbn [app]. by rewrite E.
Qed.

Lemma out_short_spec sdl :
  0 <= sdl ->
  out_short m toc data maxlen sdl lens =
    if 2 <? len lens then Ok (m, data, sdl)
    else if sdl + len (short toc lens) + sumZ lens <=? maxlen
    then Ok (splice m data (short toc lens), data + len (short toc lens), sdl + len (short toc lens) + sumZ lens)
    else Err OPUS_BUFFER_TOO_SMALL.
Proof.
  intros Hs. destruct Hlens as (Ho & Hc & _). unfold out_short, short. destruct lens as [|a [|b [|c l]]].
  - change (len (@nil Z)) with 0 in Hc. lia.
  - change (len [a]) with 1. change (len [_]) with 1. change (sumZ [a]) with (a + 0).
    apply Forall_cons_1 in Ho as [Ha _]. cbn [Z.ltb Z.compare Pos.compare Pos.compare_cont]. rewrite Z.gtb_ltb.
    destruct (Z.ltb_spec maxlen (sdl + (a + 1))), (Z.leb_spec (sdl + 1 + (a + 0)) maxlen); try lia; [done|].
    rewrite out_emit; [| |lia].
    2: { rewrite <- (Z.lor_0_r (Z.land toc 252)). apply toc_u8; lia. }
    unfold At. cbn [mbind res_bind]. change (len [_]) with 1. tup.
  - change (len [a; b]) with 2. cbn [Z.ltb Z.compare Pos.compare Pos.compare_cont].
    apply Forall_cons_1 in Ho as [Ha Ho]. apply Forall_cons_1 in Ho as [Hb _].
    change (sumZ [a; b]) with (a + (b + 0)). destruct (Z.eqb_spec b a) as [->|].
    + change (len [_]) with 1. rewrite Z.gtb_ltb.
      destruct (Z.ltb_spec maxlen (sdl + (2 * a + 1))), (Z.leb_spec (sdl + 1 + (a + (a + 0))) maxlen); try lia; [done|].
      rewrite out_emit; [|apply toc_u8; lia|lia].
      unfold At. cbn [mbind res_bind]. change (len [_]) with 1. tup.
    + rewrite len_app, len_encode_size. change (len [_]) with 1. rewrite Z.gtb_ltb.
      destruct (Z.ltb_spec maxlen (sdl + (a + b + 2 + b2z (a >=? 252)))),
        (Z.leb_spec (sdl + (1 + (1 + b2z (a >=? 252))) + (a + (b + 0))) maxlen); try lia; [done|].
      assert (0 <= b2z (a >=? 252)) by (destruct (a >=? 252); cbn; lia).
      rewrite out_emit; [|apply toc_u8; lia|lia]. cbn [mbind res_bind].
      rewrite emit_size_at with (maxlen := maxlen) by (try done; rewrite ?len_encode_size; change (len [_]) with 1; lia).
      unfold At. cbn [mbind res_bind]. rewrite len_app, len_encode_size. change (len [_]) with 1. tup.
  - destruct (Z.ltb_spec 2 (len (a :: b :: c :: l))); [done|]. unfold len in *. cbn [length] in *. lia.
Qed.

(** ** Code 3 *)

(** The base memory with [pre] written, and the second byte changed. *)
Lemma put_second a b c :
  2 <= maxlen -> put (splice m data [a; b]) (data + 1) c = Ok (splice m data [a; c]).
Proof.
  intros H. rewrite put_splice by (rewrite len_splice; change (len [a; b]) with 2; lia). f_equal.
  assert (L1 : len [c] = 1) by done. assert (L2 : len [a; b] = 2) by done. assert (L3 : len [a; c] = 2) by done.
  apply rd_ext; [rewrite !len_splice; rewrite ?len_splice; lia|]. intros i _.
  destruct (decide (i = data)) as [->|]; [|destruct (decide (i = data + 1)) as [->|]].
  - rewrite rd_splice_out, !rd_splice_in by (rewrite ?len_splice; lia). by rewrite Z.sub_diag.
  - rewrite rd_splice_in by (rewrite ?len_splice; lia). rewrite rd_splice_in by lia.
    rewrite Z.sub_diag. by replace (data + 1 - data) with 1 by lia.
  - rewrite !rd_splice_out by (rewrite ?len_splice; lia). done.
Qed.

(** The count byte, then the padding. *)
Definition count0 : Z := Z.lor (len lens) (if vbr lens then 0x80 else 0).

Lemma out_padding_spec amount el tot :
  let pre := [Z.lor (Z.land toc 0xFC) 3; count0] in
  let post := [Z.lor (Z.land toc 0xFC) 3; count_byte lens amount] ++ pad_header amount in
  0 <= amount -> 0 <= el -> 2 <= tot <= maxlen ->
  out_padding (splice m data pre) (data + 2) data maxlen tot amount el =
    if negb (amount =? 0) && (tot + el + pad_255s amount + 1 >? maxlen) then Err OPUS_BUFFER_TOO_SMALL
    else Ok (splice m data post, data + len post,
      if amount =? 0 then
        {| lo_tot_size := tot; lo_ones_begin := 0; lo_ones_end := 0; lo_ext_begin := 0; lo_ext_len := el |}
      else
        {| lo_tot_size := tot + amount; lo_ones_begin := tot + pad_255s amount + 1;
           lo_ones_end := tot + amount - el; lo_ext_begin := tot + amount - el; lo_ext_len := el |}).
Proof.
  intros pre post Ha He Ht. unfold out_padding, count_byte in *. fold count0 in post.
  destruct (Z.eqb_spec amount 0) as [->|]; cbn [negb andb].
  - unfold post. change (pad_header 0) with (@nil Z). rewrite app_nil_r. unfold pre.
    change (0 =? 0) with true. cbv iota. rewrite Z.lor_0_r. done.
  - assert (L : len pre = 2) by done.
    rewrite get_ok by (rewrite len_splice; lia). rewrite rd_splice_in by lia.
    replace (data + 1 - data) with 1 by lia. change (pre.[1]) with count0. cbn [mbind res_bind].
    unfold pre. rewrite put_second by lia. cbn [mbind res_bind].
    rewrite Z.quot_div_nonneg by lia. fold (pad_255s amount).
    rewrite Z.gtb_ltb. destruct (Z.ltb_spec maxlen (tot + el + pad_255s amount + 1)); [done|].
    set (q2 := [_; Z.lor count0 64]). assert (Lq : len q2 = 2) by done.
    change (splice m data q2, data + 2) with (At m data q2).
    assert (Epost : post = q2 ++ repeat 255 (Z.to_nat (pad_255s amount)) ++ [amount - 255 * pad_255s amount - 1]).
    { unfold post, pad_header. destruct (Z.eqb_spec amount 0); [lia|]. done. }
    assert (H255 : 0 <= pad_255s amount) by (unfold pad_255s; dlia).
    assert (Lr : len (repeat 255 (Z.to_nat (pad_255s amount))) = pad_255s amount)
      by (unfold len; rewrite repeat_length; lia).
    rewrite emit_n_at with (maxlen := maxlen) by (done || lia). cbn [mbind res_bind]. change (u8 255) with 255.
    rewrite emit_at with (maxlen := maxlen) by (try done; rewrite len_app; lia).
    rewrite u8_small by (unfold pad_255s; dlia). cbn [mbind res_bind]. unfold At. rewrite <- app_assoc, Epost. done.
Qed.

(** What the layout promises; [sdl] are the bytes of the last frame's size. *)
Record laid (exts : list opus_extension_data) (pad : bool) (sdl amount : Z) (lo : layout) : Prop := {
  la_amount : 0 <= amount;
  la_tot : lo.(lo_tot_size) = sdl + total3 toc false lens + amount;
  la_max : lo.(lo_tot_size) <= maxlen;
  la_pad : pad = true -> lo.(lo_tot_size) = maxlen;
  la_ok : Forall (ext_ok m) exts;
  la_ext : lo.(lo_ext_len) = exts_len m exts;
  la_plain : pad = false -> exts = [] -> amount = 0;
  la_none : amount = 0 -> exts = [] /\ lo.(lo_ones_begin) = 0 /\ lo.(lo_ones_end) = 0;
  la_some : amount <> 0 ->
    lo.(lo_ones_begin) = sdl + len (header3 toc false lens amount) + sumZ lens /\
    lo.(lo_ones_end) = lo.(lo_tot_size) - exts_len m exts /\
    lo.(lo_ext_begin) = lo.(lo_ones_end) /\ lo.(lo_ones_begin) <= lo.(lo_ones_end)
}.

Lemma exts_len_nil : exts_len m [] = 0.
Proof. done. Qed.

Lemma header3_grow amount : len (header3 toc false lens amount) = len (header3 toc false lens 0) + len (pad_header amount).
Proof. rewrite !len_header3. change (len (pad_header 0)) with 0. lia. Qed.

(** The padding part of the header, with the layout it fixes. *)
Lemma out_padding_laid exts (pad : bool) sdl amount :
  let tot := sdl + total3 toc false lens in
  0 <= sdl -> tot <= maxlen -> 0 <= amount -> Forall (ext_ok m) exts ->
  (if pad then amount = maxlen - tot
   else amount = match exts with [] => 0 | _ => exts_len m exts + exts_len m exts / 254 + 1 end) ->
  exts_len m exts <= maxlen - tot ->
  (exists c, c < 0 /\ exts <> [] /\
    out_padding (splice m data [Z.lor (Z.land toc 0xFC) 3; count0]) (data + 2) data maxlen tot amount (exts_len m exts)
    = Err c) \/
  (exists lo, laid exts pad sdl amount lo /\
    out_padding (splice m data [Z.lor (Z.land toc 0xFC) 3; count0]) (data + 2) data maxlen tot amount (exts_len m exts)
    = Ok (splice m data ([Z.lor (Z.land toc 0xFC) 3; count_byte lens amount] ++ pad_header amount),
          data + len ([Z.lor (Z.land toc 0xFC) 3; count_byte lens amount] ++ pad_header amount), lo)).
Proof.
  intros tot Hs Ht Ha Ho Hamt Hel. destruct Hlens as (Hol & Hc & _). pose proof (sumZ_nonneg _ Hol).
  assert (Ht2 : 2 <= tot).
  { unfold tot, total3. rewrite len_header3. pose proof (len_nonneg (pad_header 0)).
    pose proof (len_nonneg (vbr_header lens)). pose proof (len_nonneg (sd_header false lens)). lia. }
  assert (He0 : 0 <= exts_len m exts) by apply len_nonneg.
  assert (Hnil : exts = [] -> exts_len m exts = 0) by (intros ->; done).
  assert (Hpos : exts <> [] -> 1 <= exts_len m exts) by (by apply exts_len_pos).
  rewrite out_padding_spec by lia.
  assert (Hq : amount <> 0 -> len (pad_header amount) = pad_255s amount + 1 /\ pad_255s amount + 1 <= amount).
  { intros Hn. rewrite len_pad_header by lia. destruct (Z.eqb_spec amount 0); [lia|]. unfold pad_255s. dlia. }
  assert (Hq' : pad = false -> amount <> 0 -> exts_len m exts + pad_255s amount + 1 = amount).
  { intros ->. destruct exts; [lia|]. unfold pad_255s. intros Hn. subst amount. clear -He0. dlia. }
  destruct (Z.eqb_spec amount 0) as [E|N]; cbn [negb andb].
  - right. eexists; split; [|done]. subst amount. split; cbn [lo_tot_size lo_ones_begin lo_ones_end lo_ext_len]; try (done || lia).
    + intros ->. lia.
    + intros _. split; [|done]. destruct pad; [|destruct exts; [done|dlia]].
      destruct exts; [done|]. specialize (Hpos ltac:(done)). lia.
  - rewrite Z.gtb_ltb. destruct (Z.ltb_spec maxlen (tot + exts_len m exts + pad_255s amount + 1)).
    + left. exists OPUS_BUFFER_TOO_SMALL. split_and!; [done| |done]. intros ->. rewrite (Hnil eq_refl) in *.
      destruct pad; lia.
    + right. eexists; split; [|done]. destruct (Hq N).
      split; cbn [lo_tot_size lo_ones_begin lo_ones_end lo_ext_len lo_ext_begin]; try (done || lia).
      * destruct pad; [lia|]. specialize (Hq' eq_refl N). lia.
      * intros ->. lia.
      * intros -> ->. lia.
      * intros _. rewrite header3_grow. unfold tot, total3 in *. destruct pad; [lia|]. specialize (Hq' eq_refl N). lia.
Qed.

(** Extensions whose payload no write to the buffer touches. *)
Definition ext_apart (e : opus_extension_data) : Prop :=
  0 < e.(ext_len) -> e.(ext_data) + e.(ext_len) <= data \/ data + maxlen <= e.(ext_data).

Lemma payload_splice pre e :
  ext_pre m e -> ext_apart e -> len pre <= maxlen -> payload (splice m data pre) e = payload m e.
Proof.
  intros He Ha Hp. unfold payload. destruct (decide (ext_len e = 0)) as [->|]; [done|].
  pose proof (ep_len _ _ He). destruct (ep_data _ _ He); [lia|]. specialize (Ha ltac:(lia)).
  apply slice_splice_out; lia.
Qed.

Lemma pre_splice pre e : len pre <= maxlen -> ext_pre m e <-> ext_pre (splice m data pre) e.
Proof.
  intros H. assert (E : len (splice m data pre) = len m) by (apply len_splice; lia).
  split; intros [? ? ? ? Hd]; (split; try done); rewrite ?E in *; done.
Qed.

Lemma ext_ok_splice pre e : len pre <= maxlen -> ext_ok (splice m data pre) e <-> ext_ok m e.
Proof.
  intros H. assert (E : len (splice m data pre) = len m) by (apply len_splice; lia).
  split; intros [? ? ? ? Hd]; (split; try done); rewrite ?E in *; done.
Qed.

Lemma exts_bytes_splice pre exts :
  Forall (ext_ok m) exts -> Forall ext_apart exts -> len pre <= maxlen ->
  exts_bytes (splice m data pre) 0 (ordered exts) = exts_bytes m 0 (ordered exts).
Proof.
  intros Ho Ha Hp. apply exts_bytes_ext.
  assert (P : ordered exts ≡ₚ exts).
  { apply ordered_perm. eapply Forall_impl; [|exact Ho]. intros e He. apply (eo_frame _ _ He). }
  rewrite P. apply Forall_forall. intros e He. rewrite Forall_forall in Ho, Ha.
  apply payload_splice; [|by apply Ha|done]. destruct (Ho e He). split; try done. lia.
Qed.

(** The extension part of a code 3 packet: the padding amount and the dry run. *)
Lemma out_amount exts (pad : bool) tot pre :
  Forall (ext_pre m) exts -> Forall ext_apart exts -> tot <= maxlen -> len pre <= maxlen ->
  let pad_amount := if pad then maxlen - tot else 0 in
  let act := if len exts >? 0 then
       '(_, ext_len) ← opus_packet_extensions_generate (splice m data pre) None (maxlen - tot) exts false;
       Ok (if pad then pad_amount else ext_len + ext_len / 254 + 1, ext_len)
     else Ok (pad_amount, 0) in
  (exists c, c < 0 /\ exts <> [] /\ act = Err c) \/
  (exists amount, act = Ok (amount, exts_len m exts) /\ 0 <= amount /\ Forall (ext_ok m) exts /\
    (if pad then amount = maxlen - tot
     else amount = match exts with [] => 0 | _ => exts_len m exts + exts_len m exts / 254 + 1 end) /\
    exts_len m exts <= maxlen - tot).
Proof.
  intros Hp Ha Ht Hpre pad_amount act. unfold act. rewrite Z.gtb_ltb. destruct exts as [|e0 exts0].
  { right. exists pad_amount. change (len (@nil opus_extension_data)) with 0. rewrite exts_len_nil. unfold pad_amount.
    split_and!; [done|destruct pad; lia|by apply Forall_nil|by destruct pad|lia]. }
  set (exts := e0 :: exts0) in *.
  assert (Hl : 0 < len exts) by (unfold exts, len; cbn [length]; lia).
  destruct (Z.ltb_spec 0 (len exts)); [|lia].
  assert (Hp' : Forall (ext_pre (splice m data pre)) exts).
  { eapply Forall_impl; [|exact Hp]. intros e He. by apply pre_splice. }
  destruct (dry_run _ exts (maxlen - tot) Hp' ltac:(lia)) as [(c & Hc & ->)|(Ho & Hle & ->)].
  { left. by exists c. }
  assert (Ho' : Forall (ext_ok m) exts).
  { eapply Forall_impl; [|exact Ho]. intros e He. by apply ext_ok_splice in He. }
  right. assert (E : exts_len (splice m data pre) exts = exts_len m exts).
  { unfold exts_len. by rewrite exts_bytes_splice. }
  rewrite E in *. cbn [mbind res_bind]. assert (0 <= exts_len m exts) by apply len_nonneg.
  eexists; split; [done|]. split_and!; [|done|by destruct pad|done]. destruct pad; unfold pad_amount; [lia|dlia].
Qed.

Lemma out_code3_spec exts (pad : bool) sdl :
  0 <= sdl -> Forall (ext_pre m) exts -> Forall ext_apart exts ->
  (exists c, c < 0 /\ out_code3 m toc data maxlen sdl pad lens exts = Err c /\
    (exts = [] -> maxlen < sdl + total3 toc false lens)) \/
  (exists amount lo, laid exts pad sdl amount lo /\
    out_code3 m toc data maxlen sdl pad lens exts =
    Ok (splice m data (header3 toc false lens amount), data + len (header3 toc false lens amount), lo)).
Proof.
  intros Hs Hp Ha. pose proof Hlens as (Hol & Hc & _). pose proof (sumZ_nonneg _ Hol).
  unfold out_code3. fold (vbr lens). rewrite (total3_eq toc) by lia. rewrite Z.gtb_ltb.
  destruct (Z.ltb_spec maxlen (sdl + total3 toc false lens)) as [|Ht].
  { left. by exists OPUS_BUFFER_TOO_SMALL. }
  set (tot := sdl + total3 toc false lens) in *.
  assert (Hh3 : forall amount, len (header3 toc false lens amount) = 2 + len (pad_header amount) + len (vbr_header lens)).
  { intros amount. rewrite len_header3. change (len (sd_header false lens)) with 0. lia. }
  pose proof (Hh3 0) as Hh0. change (len (pad_header 0)) with 0 in Hh0.
  pose proof (len_nonneg (vbr_header lens)). unfold total3 in *.
  rewrite out_emit; [|apply toc_u8; lia|lia]. cbn [mbind res_bind].
  assert (Ec : (if vbr lens then Z.lor (len lens) 128 else len lens) = count0).
  { unfold count0. destruct (vbr lens); [done|]. by rewrite Z.lor_0_r. }
  destruct (count_bits (len lens) (vbr lens) true Hc) as (Hcb & _). cbv iota in Hcb. rewrite Z.lor_0_r in Hcb.
  rewrite Ec. rewrite emit_at with (maxlen := maxlen); [|done|done|change (len [_]) with 1; lia].
  rewrite (u8_small count0) by done. cbn [mbind res_bind app].
  unfold At. set (pre := [_; count0]). assert (Lp : len pre = 2) by done.
  destruct (out_amount exts pad tot pre Hp Ha Ht ltac:(lia)) as [(c & Hc0 & Hne & ->)|(amount & -> & Ham & Hok & Hamt & Hel)].
  { left. exists c. by split_and!. }
  cbn [mbind res_bind]. change (data + len pre) with (data + 2).
  destruct (out_padding_laid exts pad sdl amount Hs Ht Ham Hok Hamt Hel) as [(c & Hc0 & Hne & E)|(lo & Hlo & E)].
  { left. exists c. unfold pre, tot, total3 in *. rewrite E. by split_and!. }
  right. exists amount, lo. split; [done|]. unfold pre. unfold tot, total3 in E. unfold tot. rewrite E. cbn [mbind res_bind].
  set (post := [_; _] ++ _). assert (Hpost : header3 toc false lens amount = post ++ vbr_header lens).
  { unfold header3, post. change (sd_header false lens) with (@nil Z). rewrite app_nil_r, <- app_assoc. done. }
  pose proof (la_max _ _ _ _ _ Hlo) as Hmx. pose proof (la_tot _ _ _ _ _ Hlo) as Htt.
  destruct (pad_split amount Ham). pose proof (Hh3 amount) as Hha. unfold total3 in Htt.
  rewrite Hpost in Hha. rewrite len_app in Hha.
  unfold vbr_header in *. destruct (vbr lens).
  - change (splice m data post, data + len post) with (At m data post).
    rewrite emit_sizes_at with (maxlen := maxlen); [|done|done|lia]. rewrite Hpost. done.
  - rewrite Hpost, app_nil_r. done.
Qed.
End Out.

(** ** Behind the header *)

Section Payload.
Context (m : list Z) (data maxlen : Z).
Hypothesis Hdata : 0 <= data.
Hypothesis Hroom : data + maxlen <= len m.

(** The padding of [n] bytes: zeros without extensions, otherwise bytes 1 and the extensions. *)
Definition padding_bytes (exts : list opus_extension_data) (n : Z) : list Z :=
  match exts with
  | [] => repeat 0 (Z.to_nat n)
  | _ => repeat 1 (Z.to_nat (n - exts_len m exts)) ++ exts_bytes m 0 (ordered exts)
  end.

(** The layout fits a header and frames of [base] bytes together. *)
Record fits (exts : list opus_extension_data) (pad : bool) (base : Z) (lo : layout) : Prop := {
  fi_base : base <= lo.(lo_tot_size) <= maxlen;
  fi_pad : pad = true -> lo.(lo_tot_size) = maxlen;
  fi_ok : Forall (ext_ok m) exts;
  fi_ext : lo.(lo_ext_len) = exts_len m exts;
  fi_nopad : pad = false -> exts = [] -> base = lo.(lo_tot_size);
  fi_ones : (lo.(lo_ones_begin) = 0 /\ lo.(lo_ones_end) = 0 /\ base = lo.(lo_tot_size) /\ exts = []) \/
    (lo.(lo_ones_begin) = base /\ lo.(lo_ones_end) = lo.(lo_tot_size) - exts_len m exts /\
     lo.(lo_ext_begin) = lo.(lo_ones_end) /\ base <= lo.(lo_ones_end))
}.

Lemma len_padding_bytes exts n : 0 <= n -> exts_len m exts <= n -> len (padding_bytes exts n) = n.
Proof.
  intros Hn He. assert (0 <= exts_len m exts) by apply len_nonneg. unfold padding_bytes. destruct exts.
  - unfold len. rewrite repeat_length. lia.
  - rewrite len_app. fold (exts_len m (o :: exts)). unfold len. rewrite repeat_length. lia.
Qed.

(** The extensions, then the bytes in front of them. *)
Lemma out_exts_spec exts pad body base lo :
  fits exts pad base lo -> len body = base -> exts <> [] -> Forall (ext_apart data maxlen) exts ->
  exists m', opus_packet_extensions_generate (splice m data body) (Some (data + lo.(lo_ext_begin)))
      lo.(lo_ext_len) exts false = Ok (m', lo.(lo_ext_len)) /\
    out_fill m' data lo.(lo_ones_begin) lo.(lo_ones_end) 1 =
    Ok (splice m data (body ++ padding_bytes exts (lo.(lo_tot_size) - base))).
Proof.
  intros [Hb _ Hok Hel _ Hones] Hbody Hne Ha. destruct Hones as [(_ & _ & _ & ->)|(O1 & O2 & O3 & O4)]; [congruence|].
  assert (He : 0 <= exts_len m exts) by apply len_nonneg. rewrite Hel in *. pose proof (len_nonneg body).
  assert (Hlen : len (splice m data body) = len m) by (apply len_splice; lia).
  rewrite generate_spec.
  2: { intros d [= <-]. rewrite Hlen. lia. }
  2: { eapply Forall_impl; [|exact Hok]. intros e He'. by apply ext_ok_splice with (maxlen := maxlen); try lia. }
  2: { eapply Forall_impl; [|exact Ha]. intros e He' d [= <-] Hp. specialize (He' Hp). lia. }
  2: lia.
  rewrite exts_bytes_splice with (maxlen := maxlen) by (done || lia). fold (exts_len m exts).
  rewrite (proj2 (Z.leb_le _ _)) by lia. eexists; split; [done|]. cbn [after].
  set (B := exts_bytes m 0 (ordered exts)). assert (LB : len B = exts_len m exts) by done.
  set (k := Z.to_nat (lo_tot_size lo - base - exts_len m exts)).
  assert (EP : padding_bytes exts (lo_tot_size lo - base) = repeat 1 k ++ B) by (destruct exts; done). rewrite EP.
  assert (Lk : len (repeat 1 k) = lo_ones_end lo - lo_ones_begin lo) by (unfold len; rewrite repeat_length; lia).
  unfold out_fill. destruct (Z.ltb_spec (lo_ones_begin lo) (lo_ones_end lo)) as [Hlt|Hge].
  - replace (Z.to_nat (lo_ones_end lo - lo_ones_begin lo)) with k by lia.
    rewrite store_ok; [|lia|rewrite len_splice; lia]. f_equal.
    replace (data + lo_ext_begin lo) with (data + lo_ones_begin lo + len (repeat 1 k)) by lia.
    rewrite splice_behind by lia. replace (lo_ones_begin lo) with (len body) by lia.
    rewrite splice_splice; [done|lia|rewrite len_app; lia].
  - replace k with 0%nat by lia. cbn [repeat app]. replace (lo_ext_begin lo) with (len body) by lia.
    rewrite splice_splice by lia. done.
Qed.

(** Without extensions: bytes 1, and zeros over them when padding. *)
Lemma out_zero_spec pad body lo :
  fits [] pad (len body) lo ->
  exists m', out_fill (splice m data body) data lo.(lo_ones_begin) lo.(lo_ones_end) 1 = Ok m' /\
    (if pad then out_fill m' data (len body) maxlen 0 else Ok m') =
    Ok (splice m data (body ++ repeat 0 (Z.to_nat (lo.(lo_tot_size) - len body)))).
Proof.
  intros [Hb Hpad _ _ Hnp Hones]. rewrite exts_len_nil, Z.sub_0_r in Hones. pose proof (len_nonneg body).
  assert (E : exists k, (k <= Z.to_nat (lo_tot_size lo - len body))%nat /\
    out_fill (splice m data body) data (lo_ones_begin lo) (lo_ones_end lo) 1 = Ok (splice m data (body ++ repeat 1 k))).
  { destruct Hones as [(-> & -> & _)|(-> & -> & _ & Hle)].
    - exists 0%nat. rewrite app_nil_r. split; [lia|done].
    - eexists. split; [|apply out_fill_at with (maxlen := maxlen); done || lia]. lia. }
  destruct E as (k & Hk & ->). eexists; split; [done|]. destruct pad.
  - specialize (Hpad eq_refl). rewrite Hpad in *. unfold out_fill.
    set (r := repeat 0 _). assert (Lr : len r = maxlen - len body) by (unfold r, len; rewrite repeat_length; unfold len in *; lia).
    assert (L1 : len (repeat 1 k) = Z.of_nat k) by (unfold len; by rewrite repeat_length).
    destruct (Z.ltb_spec (len body) maxlen).
    + rewrite store_ok; [|lia|rewrite len_splice by (rewrite ?len_app; lia); lia].
      rewrite <- (splice_splice m data body) by lia. rewrite splice_over by (rewrite ?len_splice; lia).
      rewrite splice_splice by lia. done.
    + replace k with 0%nat by lia. unfold r. replace (maxlen - len body) with 0 by lia. done.
  - specialize (Hnp eq_refl eq_refl). rewrite Hnp in *. replace k with 0%nat by lia. by rewrite Z.sub_diag.
Qed.

Lemma out_payload_spec sd pad lens fl exts lo hd :
  lens = map snd fl -> 0 <= last_len lens <= 1275 ->
  let H := hd ++ sd_header sd lens in
  frames_apart m data (len H) fl -> Forall (ext_apart data maxlen) exts ->
  fits exts pad (len H + sumZ lens) lo ->
  out_payload (splice m data hd) (data + len hd) data maxlen sd pad (last_len lens) fl exts lo =
  Ok (splice m data (H ++ contents m fl ++ padding_bytes exts (lo.(lo_tot_size) - (len H + sumZ lens))),
      lo.(lo_tot_size)).
Proof.
  intros Hl Hll H Hfa Ha Hfit. pose proof Hfit as [Hb Hpad Hok Hel Hnp Hones].
  unfold out_payload. change (splice m data hd, data + len hd) with (At m data hd).
  pose proof (len_nonneg hd). pose proof (len_nonneg (sd_header sd lens)).
  assert (LH : len H = len hd + len (sd_header sd lens)) by apply len_app.
  assert (Hpos : 0 <= sumZ lens).
  { clear -Hfa Hl. subst lens. revert Hfa. generalize (len H). induction fl as [|[f n] fl IH]; intros k Hk; [done|].
    destruct Hk as (_ & ? & _ & _ & Hk). cbn [map snd]. specialize (IH _ Hk).
    change (sumZ (n :: map snd fl)) with (n + sumZ (map snd fl)). lia. }
  assert (Es : (if sd then emit_size (last_len lens) (At m data hd) else Ok (At m data hd)) = Ok (At m data H)).
  { unfold H, sd_header in *. destruct sd; [|by rewrite app_nil_r].
    rewrite emit_size_at with (maxlen := maxlen); [done|done|done|lia]. }
  rewrite Es. cbn [mbind res_bind].
  destruct (out_frames_at m data maxlen Hdata Hroom fl H Hfa ltac:(rewrite <- Hl; lia)) as [Ef Lc].
  rewrite Ef. cbn [mbind res_bind]. rewrite <- Hl in Lc. unfold At. set (body := H ++ contents m fl).
  assert (Lb : len body = len H + sumZ lens) by (unfold body; rewrite len_app; lia).
  rewrite (app_assoc H). fold body. rewrite <- Lb in *. rewrite Hel, Z.gtb_ltb.
  destruct (decide (exts = [])) as [->|Hne].
  - rewrite exts_len_nil in *. cbn [Z.ltb Z.compare mbind res_bind]. change (len (@nil opus_extension_data) =? 0) with true.
    rewrite andb_true_r. cbn [padding_bytes].
    destruct (out_zero_spec pad body lo Hfit) as (m' & -> & Hz). cbn [mbind res_bind].
    replace (data + len body - data) with (len body) by lia. by rewrite Hz.
  - pose proof (exts_len_pos m exts Hok Hne). destruct (Z.ltb_spec 0 (exts_len m exts)); [|lia].
    destruct (out_exts_spec exts pad body (len body) lo Hfit eq_refl Hne Ha) as (m' & Eg & Ef').
    rewrite Hel in Eg. rewrite Eg. cbn [mbind res_bind]. rewrite Ef'. cbn [mbind res_bind].
    assert (En : (len exts =? 0) = false) by (destruct exts; [congruence|]; apply Z.eqb_neq; unfold len; cbn [length]; lia).
    rewrite En, andb_false_r. done.
Qed.
End Payload.

(** ** Repacketizer states *)

(** The first [rp_nb_frames] entries are frames of at most 1275 bytes in memory,
    of 120 ms together, and their paddings. *)
Record rp_ok (mem : list Z) (rp : OpusRepacketizer) : Prop := {
  ro_toc : 0 <= rp.(rp_toc) < 256;
  ro_nb : 0 <= rp.(rp_nb_frames) <= 48;
  ro_arrays : len rp.(rp_frames) = 48 /\ len rp.(rp_len) = 48 /\ len rp.(rp_paddings) = 48 /\
    len rp.(rp_padding_len) = 48;
  ro_size : 0 < rp.(rp_nb_frames) -> rp.(rp_framesize) = samples_per_frame rp.(rp_toc) 8000 /\
    rp.(rp_nb_frames) * rp.(rp_framesize) <= 960;
  ro_frame : forall i, 0 <= i < rp.(rp_nb_frames) -> 0 <= rp.(rp_len).[i] <= 1275 /\ 0 <= rp.(rp_frames).[i] /\
    rp.(rp_frames).[i] + rp.(rp_len).[i] <= len mem;
  ro_padding : forall i, 0 <= i < rp.(rp_nb_frames) -> 0 <= rp.(rp_padding_len).[i] /\
    (0 < rp.(rp_padding_len).[i] ->
     0 <= rp.(rp_paddings).[i] /\ rp.(rp_paddings).[i] + rp.(rp_padding_len).[i] <= len mem)
}.

Section Gather.
Context (mem : list Z) (rp : OpusRepacketizer) (data maxlen begin end_ : Z).
Hypothesis Hmem : bytes mem.
Hypothesis Hrp : rp_ok mem rp.
Hypothesis Hrange : 0 <= begin /\ begin < end_ <= rp.(rp_nb_frames).

(** The paddings of the frames to write do not overlap the buffer. *)
Definition paddings_apart : Prop := forall i, begin <= i < end_ -> 0 < rp.(rp_padding_len).[i] ->
  rp.(rp_paddings).[i] + rp.(rp_padding_len).[i] <= data \/ data + maxlen <= rp.(rp_paddings).[i].
Hypothesis Hpad : paddings_apart.

Definition ext_src (e : opus_extension_data) : Prop := ext_pre mem e /\ ext_apart data maxlen e.

Lemma parse_padding_of i nb :
  begin <= i < end_ ->
  sat (opus_packet_extensions_parse mem rp.(rp_paddings).[i] rp.(rp_padding_len).[i] nb) (fun l =>
    Forall (found rp.(rp_paddings).[i] rp.(rp_padding_len).[i]) l /\
    opus_packet_extensions_count mem rp.(rp_paddings).[i] rp.(rp_padding_len).[i] = Ok (len l)).
Proof.
  intros Hi. destruct (ro_padding _ _ Hrp i ltac:(lia)) as [Hn Hin]. unfold opus_packet_extensions_parse, opus_packet_extensions_count.
  destruct (decide ((rp_padding_len rp).[i] = 0)) as [->|]; [by apply sat_ok|]. destruct Hin; [lia|].
  eapply sat_impl; [apply sat_parse_loop; try (done || lia); apply Forall_nil|].
  cbv beta. by intros l (H1 & _ & H2).
Qed.

Lemma out_count_ok n i total :
  begin <= i -> i + Z.of_nat n <= end_ ->
  exists total', out_count n i mem rp total = Ok total' /\ total <= total'.
Proof.
  revert i total. induction n as [|n IH]; intros i total Hi Hn; cbn [out_count]; [by exists total|].
  destruct (ro_padding _ _ Hrp i ltac:(lia)) as [Hp Hin].
  assert (Hf : sat (opus_packet_extensions_count mem (rp_paddings rp).[i] (rp_padding_len rp).[i]) (fun k => 0 <= k)).
  { unfold opus_packet_extensions_count. destruct (decide ((rp_padding_len rp).[i] = 0)) as [->|]; [done|].
    destruct Hin; [lia|]. apply sat_count_loop; done || lia. }
  destruct (opus_packet_extensions_count _ _ _) as [k|c|]; [| |done].
  - destruct (IH (i + 1) (if k >? 0 then total + k else total) ltac:(lia) ltac:(lia)) as (t & -> & Ht).
    exists t. split; [done|]. rewrite Z.gtb_ltb in *. destruct (Z.ltb_spec 0 k); lia.
  - apply IH; lia.
Qed.

Lemma found_src i d e :
  begin <= i < end_ -> 0 <= d -> found rp.(rp_paddings).[i] rp.(rp_padding_len).[i] e -> ext_src (renumber d e).
Proof.
  intros Hi Hd (H1 & H2 & H3 & H4 & H5 & H6). destruct (ro_padding _ _ Hrp i ltac:(lia)) as [Hn Hin].
  split; [split; cbn [renumber ext_id ext_frame ext_len ext_data]; try (done || lia)|].
  unfold ext_apart. cbn [renumber ext_id ext_frame ext_len ext_data]. intros Hp.
    specialize (Hpad i Hi ltac:(lia)). lia.
Qed.

Lemma out_gather_ok n i total all :
  begin <= i -> i + Z.of_nat n <= end_ -> Forall ext_src all ->
  sat (out_gather n i begin mem rp total all) (fun exts => Forall ext_src exts).
Proof.
  revert i all. induction n as [|n IH]; intros i all Hi Hn Ha; cbn [out_gather]; [by apply sat_ok|].
  pose proof (parse_padding_of i (total - len all) ltac:(lia)) as Hp.
  destruct (opus_packet_extensions_parse _ _ _ _) as [l|c|]; [|done|done]. destruct Hp as [Hp _].
  apply IH; [lia|lia|]. apply Forall_app. split; [done|]. apply Forall_map.
  eapply Forall_impl; [|exact Hp]. cbv beta. intros e He. unfold compose. apply (found_src i); [lia|lia|done].
Qed.
End Gather.

(** Without paddings only the caller's extensions are written. *)
Lemma out_count_none n i mem rp total :
  (forall j, i <= j < i + Z.of_nat n -> rp.(rp_padding_len).[j] = 0) -> out_count n i mem rp total = Ok total.
Proof.
  revert i. induction n as [|n IH]; intros i H; cbn [out_count]; [done|]. rewrite (H i) by lia.
  cbn. apply IH. intros j Hj. apply H. lia.
Qed.
Lemma out_gather_none n i begin mem rp total all :
  (forall j, i <= j < i + Z.of_nat n -> rp.(rp_padding_len).[j] = 0) ->
  out_gather n i begin mem rp total all = Ok all.
Proof.
  revert i. induction n as [|n IH]; intros i H; cbn [out_gather]; [done|]. rewrite (H i) by lia.
  unfold opus_packet_extensions_parse. change (parse_loop (Z.to_nat 0 + 1) mem (rp_paddings rp).[i] 0 0 (total - len all) [])
    with (Ok (A := list opus_extension_data) []). cbn [map]. rewrite app_nil_r.
  apply IH. intros j Hj. apply H. lia.
Qed.

(** ** Frames that survive the header *)

Lemma frames_apart_weaken m data k k' fl : k' <= k -> frames_apart m data k fl -> frames_apart m data k' fl.
Proof.
  revert k k'. induction fl as [|[f n] fl IH]; intros k k' Hk H; [done|].
  destruct H as (H1 & H2 & H3 & H4 & H5). split_and!; [lia|lia|lia|lia|]. eapply IH; [|exact H5]. lia.
Qed.

Lemma frames_apart_splice m data pre k fl :
  0 <= data -> data + len pre <= len m -> len pre <= k -> frames_apart m data k fl ->
  frames_apart (splice m data pre) data k fl /\ contents (splice m data pre) fl = contents m fl.
Proof.
  intros Hd Hl. revert k. induction fl as [|[f n] fl IH]; intros k Hk H; [done|].
  destruct H as (H1 & H2 & H3 & H4 & H5). destruct (IH (k + n) ltac:(lia) H5) as [I1 I2].
  cbn [frames_apart]. rewrite len_splice by lia. split; [by split_and!|].
  unfold contents in *. cbn [map concat]. rewrite I2. f_equal. apply slice_splice_out; lia.
Qed.

(** A buffer of [n] bytes that overlaps no frame. *)
Lemma frames_apart_disjoint m data n k fl :
  k <= n - sumZ (map snd fl) ->
  Forall (fun '(f, l) => 0 <= f /\ 0 <= l /\ f + l <= len m /\ (f + l <= data \/ data + n <= f)) fl ->
  frames_apart m data k fl.
Proof.
  revert k. induction fl as [|[f l] fl IH]; intros k Hk H; [done|]. apply Forall_cons_1 in H as [(H1 & H2 & H3 & H4) H].
  cbn [map snd] in Hk. change (sumZ (l :: map snd fl)) with (l + sumZ (map snd fl)) in Hk.
  assert (0 <= sumZ (map snd fl)).
  { clear -H. induction H as [|[f l] fl Hf _ IH]; [done|]. cbn [map snd].
    change (sumZ (l :: map snd fl)) with (l + sumZ (map snd fl)). lia. }
  split_and!; [lia|lia|lia|lia|]. apply IH; [lia|done].
Qed.

(** ** The whole packet *)

(** The header without padding. *)
Definition plain_header (toc : Z) (sd : bool) (lens : list Z) : list Z :=
  if len lens <=? 2 then header012 toc sd lens else header3 toc sd lens 0.

(** The bytes of a packet with frames [fl] of memory [m]. *)
Definition packet_bytes (m H : list Z) (fl : list (Z * Z)) (exts : list opus_extension_data) (n : Z) : list Z :=
  H ++ contents m fl ++ padding_bytes m exts n.

Record written (m : list Z) (toc : Z) (sd pad : bool) (lens : list Z) (fl : list (Z * Z))
    (exts : list opus_extension_data) (maxlen amount : Z) (H : list Z) : Prop := {
  wr_header : (H = header012 toc sd lens /\ len lens <= 2 /\ amount = 0) \/ H = header3 toc sd lens amount;
  wr_amount : 0 <= amount;
  wr_exts : Forall (ext_ok m) exts /\ exts_len m exts <= pad_data amount;
  wr_size : len H + sumZ lens + pad_data amount <= maxlen;
  wr_pad : pad = true -> len H + sumZ lens + pad_data amount = maxlen;
  wr_plain : pad = false -> exts = [] -> H = plain_header toc sd lens /\ amount = 0
}.

Lemma len_short toc lens : lens_ok toc lens -> len lens <= 2 -> len (short toc lens) + 1 = len (header3 toc false lens 0).
Proof.
  intros (Ho & Hc & _) H2. rewrite len_header3. change (len (pad_header 0)) with 0.
  change (len (sd_header false lens)) with 0. unfold short, vbr_header, vbr. destruct lens as [|a [|b [|c l]]].
  - change (len (@nil Z)) with 0 in Hc. lia.
  - cbn. rewrite Z.eqb_refl. done.
  - change ([a; b].[0]) with a. cbn [existsb removelast map concat]. rewrite Z.eqb_refl, app_nil_r. cbn [negb orb].
    destruct (b =? a); cbn [negb orb]; [done|]. rewrite len_app. change (len [_]) with 1. lia.
  - unfold len in H2. cbn [length] in H2. lia.
Qed.

Section Whole.
Context (m : list Z) (data maxlen : Z).
Hypothesis Hdata : 0 <= data.
Hypothesis Hroom : data + maxlen <= len m.
Context (toc : Z) (lens : list Z) (sd pad : bool) (fl : list (Z * Z)) (exts : list opus_extension_data).
Hypothesis Htoc : 0 <= toc < 256.
Hypothesis Hlens : lens_ok toc lens.
Hypothesis Hfl : lens = map snd fl.
Hypothesis Hexts : Forall (ext_src m data maxlen) exts.

(** The frames do not overlap the buffer or, where the plain header is written,
    are at or behind the place they are moved to. *)
Definition clear : Prop :=
  (forall k, k + sumZ lens <= maxlen -> frames_apart m data k fl) \/
  (pad = false /\ exts = [] /\ frames_apart m data (len (plain_header toc sd lens)) fl).
Hypothesis Hclear : clear.

Let sdl := len (sd_header sd lens).

Lemma sdl_eq : (if sd then 1 + b2z (last_len lens >=? 252) else 0) = sdl.
Proof. unfold sdl, sd_header. destruct sd; [|done]. by rewrite len_encode_size. Qed.

(** Codes 0 to 2. *)
Lemma whole_short tot lo :
  len lens <= 2 -> exts = [] -> tot = sdl + len (short toc lens) + sumZ lens -> tot <= maxlen ->
  (pad = true -> tot = maxlen) ->
  lo = {| lo_tot_size := tot; lo_ones_begin := 0; lo_ones_end := 0; lo_ext_begin := 0; lo_ext_len := 0 |} ->
  out_payload (splice m data (short toc lens)) (data + len (short toc lens)) data maxlen sd pad (last_len lens) fl exts lo
  = Ok (splice m data (packet_bytes m (header012 toc sd lens) fl exts (pad_data 0)), tot) /\
  written m toc sd pad lens fl exts maxlen 0 (header012 toc sd lens).
Proof.
  intros H2 He Ht Hm Hp ->. destruct Hlens as (Ho & Hc & _). destruct (Forall_removelast _ lens ltac:(lia) Ho) as [_ Hll].
  assert (EH : header012 toc sd lens = short toc lens ++ sd_header sd lens) by (apply header012_short; lia).
  assert (LH : len (header012 toc sd lens) = len (short toc lens) + sdl) by (rewrite EH; apply len_app).
  split.
  - rewrite (out_payload_spec m data maxlen Hdata Hroom sd pad lens fl exts _ (short toc lens)); try done.
    + cbn [lo_tot_size]. rewrite <- EH, LH. unfold packet_bytes. change (pad_data 0) with 0.
      replace (tot - (len (short toc lens) + sdl + sumZ lens)) with 0 by lia. done.
    + rewrite <- EH. destruct Hclear as [Hcl|(_ & _ & Hcl)]; [apply Hcl; lia|].
      unfold plain_header in Hcl. by rewrite (proj2 (Z.leb_le _ _)) in Hcl.
    + rewrite He. by apply Forall_nil.
    + rewrite <- EH, LH. rewrite He. split; cbn [lo_tot_size lo_ones_begin lo_ones_end lo_ext_len];
        try (done || lia || (intros; lia)). left. split_and!; done || lia.
  - split; try (done || lia).
    + left. by split_and!.
    + rewrite He. split; [by apply Forall_nil|done].
    + change (pad_data 0) with 0. lia.
    + change (pad_data 0) with 0. intros E. specialize (Hp E). lia.
    + intros _ _. unfold plain_header. by rewrite (proj2 (Z.leb_le _ _)).
Qed.

Lemma padding_bytes_splice pre n :
  len pre <= maxlen -> Forall (ext_ok m) exts ->
  padding_bytes (splice m data pre) exts n = padding_bytes m exts n /\
  exts_len (splice m data pre) exts = exts_len m exts.
Proof.
  intros Hl Ho. assert (E : exts_bytes (splice m data pre) 0 (ordered exts) = exts_bytes m 0 (ordered exts)).
  { apply exts_bytes_splice with (maxlen := maxlen); try done. eapply Forall_impl; [|exact Hexts]. by intros e [_ ?]. }
  assert (E2 : exts_len (splice m data pre) exts = exts_len m exts) by (unfold exts_len; by rewrite E).
  split; [|done]. unfold padding_bytes. destruct exts; [done|]. by rewrite E, E2.
Qed.

Lemma short_le_header3 : len (short toc lens) <= len (header3 toc false lens 0).
Proof.
  destruct (decide (len lens <= 2)); [rewrite <- (len_short toc lens) by done; lia|].
  rewrite short_long by lia. apply len_nonneg.
Qed.

(** The code-3 header that is laid out does not overlap the frames either. *)
Lemma code3_apart amount :
  2 < len lens \/ pad = true \/ exts <> [] -> (pad = false -> exts = [] -> amount = 0) ->
  len (header3 toc sd lens amount) + sumZ lens <= maxlen ->
  frames_apart m data (len (header3 toc sd lens amount)) fl.
Proof.
  intros Hin L7 Hle. destruct Hclear as [Hcl|(E1 & E2 & Hcl)]; [apply Hcl; lia|]. specialize (L7 E1 E2).
  unfold plain_header in Hcl. destruct (Z.leb_spec (len lens) 2); [|by rewrite L7].
  rewrite E1, E2 in Hin. destruct Hin as [?|[?|?]]; [lia|done|done].
Qed.

(** The layout of a code-3 packet leaves room for its padding. *)
Lemma laid_fits m1 amount lo :
  laid m1 maxlen toc lens exts pad sdl amount lo ->
  fits m1 maxlen exts pad (len (header3 toc sd lens amount) + sumZ lens) lo.
Proof.
  intros [L1 L2 L3 L4 L5 L6 L7 L8 L9]. destruct (pad_split amount L1) as [P1 P2].
  assert (LH : len (header3 toc sd lens amount) = len (header3 toc false lens 0) + len (pad_header amount) + sdl).
  { rewrite header3_sd, len_app, header3_grow. fold sdl. lia. }
  assert (Etot : lo_tot_size lo = len (header3 toc sd lens amount) + sumZ lens + pad_data amount) by (unfold total3 in L2; lia).
  split; try (done || lia).
  - intros E1 E2. specialize (L7 E1 E2). subst amount. change (pad_data 0) with 0 in *. lia.
  - destruct (decide (amount = 0)) as [->|N].
    + left. destruct (L8 eq_refl) as (-> & -> & ->). change (pad_data 0) with 0 in *. split_and!; done || lia.
    + right. destruct (L9 N) as (O1 & O2 & O3 & O4). rewrite header3_grow in O1. split_and!; lia.
Qed.

(** Code 3, written over the short header. *)
Lemma whole_code3 :
  2 < len lens \/ pad = true \/ exts <> [] -> len (short toc lens) <= maxlen -> 0 <= maxlen ->
  let m1 := splice m data (short toc lens) in
  let act := '(mem, ptr, lo) ← out_code3 m1 toc data maxlen sdl pad lens exts;
    out_payload mem ptr data maxlen sd pad (last_len lens) fl exts lo in
  (exists c, c < 0 /\ act = Err c /\ (exts = [] -> maxlen < total3 toc sd lens)) \/
  (exists amount, written m toc sd pad lens fl exts maxlen amount (header3 toc sd lens amount) /\
    act = Ok (splice m data (packet_bytes m (header3 toc sd lens amount) fl exts (pad_data amount)),
              len (header3 toc sd lens amount) + sumZ lens + pad_data amount)).
Proof.
  intros Hin Hsh Hmx m1 act. pose proof Hlens as (Ho & Hc & _). destruct (Forall_removelast _ lens ltac:(lia) Ho) as [_ Hll].
  pose proof (sumZ_nonneg _ Ho) as Hsum. assert (Hsdl : 0 <= sdl) by apply len_nonneg.
  pose proof (len_nonneg (short toc lens)) as Hshn.
  assert (Lm1 : len m1 = len m) by (apply len_splice; lia).
  assert (Hpre1 : Forall (ext_pre m1) exts).
  { eapply Forall_impl; [|exact Hexts]. intros e [He _]. apply pre_splice with (maxlen := maxlen); done || lia. }
  assert (Hap : Forall (ext_apart data maxlen) exts) by (eapply Forall_impl; [|exact Hexts]; by intros e [_ ?]).
  assert (Ht3 : total3 toc sd lens = sdl + total3 toc false lens).
  { unfold total3. rewrite header3_sd, len_app. fold sdl. lia. }
  unfold act. destruct (out_code3_spec m1 data maxlen Hdata ltac:(lia) toc lens Htoc Hlens exts pad sdl Hsdl Hpre1 Hap)
    as [(c & Hc0 & -> & Hne)|(amount & lo & Hlo & ->)].
  { left. exists c. rewrite Ht3. done. }
  right. exists amount. cbn [mbind res_bind]. pose proof Hlo as [L1 L2 L3 L4 L5 L6 L7 L8 L9].
  set (H := header3 toc sd lens amount).
  assert (EH : H = header3 toc false lens amount ++ sd_header sd lens) by apply header3_sd.
  assert (LH : len H = len (header3 toc false lens 0) + len (pad_header amount) + sdl).
  { rewrite EH, len_app, header3_grow. fold sdl. lia. }
  destruct (pad_split amount L1) as [P1 P2].
  assert (Etot : lo_tot_size lo = len H + sumZ lens + pad_data amount) by (unfold total3 in L2; lia).
  assert (Hok : Forall (ext_ok m) exts).
  { eapply Forall_impl; [|exact L5]. intros e He. apply ext_ok_splice with (maxlen := maxlen) in He; done || lia. }
  destruct (padding_bytes_splice (short toc lens) (pad_data amount) ltac:(lia) Hok) as [Epb Eel]. fold m1 in Epb, Eel.
  assert (Hfa : frames_apart m data (len H) fl) by (apply code3_apart; [done|done|fold H; lia]).
  pose proof short_le_header3 as Hsh3.
  destruct (frames_apart_splice m data (short toc lens) (len H) fl Hdata ltac:(lia) ltac:(pose proof (len_nonneg (pad_header amount)); lia) Hfa) as [Hfa1 Ec].
  fold m1 in Hfa1, Ec.
  pose proof (laid_fits m1 amount lo Hlo) as Hfit. fold H in Hfit.
  assert (Hel : exts_len m exts <= pad_data amount).
  { rewrite <- Eel. destruct (fi_ones _ _ _ _ _ _ Hfit) as [(_ & _ & _ & E)|(_ & O2 & _ & O4)]; [|lia].
    rewrite E. change (exts_len m1 []) with 0. lia. }
  split.
  - split; try (done || lia).
    + by right.
    + intros E1. specialize (L4 E1). lia.
    + intros E1 E2. specialize (L7 E1 E2). split; [|done]. unfold H, plain_header. rewrite L7.
      destruct (Z.leb_spec (len lens) 2); [|done]. rewrite E1, E2 in Hin. destruct Hin as [?|[?|?]]; [lia|done|done].
  - rewrite (out_payload_spec m1 data maxlen Hdata ltac:(lia) sd pad lens fl exts lo (header3 toc false lens amount));
      rewrite <- ?EH; try done.
    rewrite Etot. replace (len H + sumZ lens + pad_data amount - (len H + sumZ lens)) with (pad_data amount) by lia.
    rewrite Ec, Epb. unfold packet_bytes. do 2 f_equal. unfold m1. apply splice_over; [done| |].
    + rewrite !len_app, len_padding_bytes by lia. destruct (out_frames_at m data maxlen Hdata Hroom fl H Hfa ltac:(rewrite <- Hfl; lia)) as [_ ->].
      rewrite <- Hfl. lia.
    + rewrite !len_app. pose proof (len_nonneg (contents m fl)). pose proof (len_nonneg (padding_bytes m exts (pad_data amount))).
      pose proof (len_nonneg (pad_header amount)). lia.
Qed.
End Whole.

(** ** The repacketizer's output *)

Lemma map_snd_zip (a b : list Z) : length a = length b -> map snd (zip a b) = b.
Proof. revert b. induction a as [|x a IH]; intros [|y b] H; try done. cbn. f_equal. apply IH. cbn in H. lia. Qed.

Section Range.
Context (mem : list Z) (rp : OpusRepacketizer) (data maxlen begin end_ : Z) (sd pad : bool).
Context (extensions : list opus_extension_data).
Hypothesis Hmem : bytes mem.
Hypothesis Hrp : rp_ok mem rp.
Hypothesis Hrange : 0 <= begin /\ begin < end_ <= rp.(rp_nb_frames).
Hypothesis Hdata : 0 <= data.
Hypothesis Hmax : 0 <= maxlen.
Hypothesis Hroom : data + maxlen <= len mem.
Hypothesis Hpad : paddings_apart rp data maxlen begin end_.
Hypothesis Hext : Forall (ext_src mem data maxlen) extensions.

Definition range_lens : list Z := slice rp.(rp_len) begin (end_ - begin).
Definition range_frames : list (Z * Z) := zip (slice rp.(rp_frames) begin (end_ - begin)) range_lens.
Definition no_paddings : Prop := forall i, begin <= i < end_ -> rp.(rp_padding_len).[i] = 0.

(** The buffer overlaps no frame, or nothing but the plain header comes before the
    frames, which are at or behind the place they are moved to. *)
Definition range_clear : Prop :=
  (forall k, k + sumZ range_lens <= maxlen -> frames_apart mem data k range_frames) \/
  (pad = false /\ extensions = [] /\ no_paddings /\
   frames_apart mem data (len (plain_header rp.(rp_toc) sd range_lens)) range_frames).
Hypothesis Hclear : range_clear.

Lemma len_range : len range_lens = end_ - begin.
Proof. destruct (ro_arrays _ _ Hrp) as (_ & H & _). pose proof (ro_nb _ _ Hrp). apply len_slice; lia. Qed.

Lemma snd_range : range_lens = map snd range_frames.
Proof.
  symmetry. apply map_snd_zip. pose proof len_range as H. destruct (ro_arrays _ _ Hrp) as (Hf & _). pose proof (ro_nb _ _ Hrp).
  pose proof (len_slice (rp_frames rp) begin (end_ - begin) ltac:(lia) ltac:(lia) ltac:(lia)). unfold len in *. lia.
Qed.

Lemma rd_range i : 0 <= i < end_ - begin -> range_lens.[i] = rp.(rp_len).[begin + i].
Proof. intros H. apply rd_slice; lia. Qed.

Lemma Forall_rd (P : Z -> Prop) l : (forall i, 0 <= i < len l -> P l.[i]) -> Forall P l.
Proof.
  intros H. apply Forall_forall. intros x Hx. apply (In_nth _ _ 0) in Hx as (n & Hn & <-).
  specialize (H (Z.of_nat n) ltac:(unfold len; lia)). unfold rd in H.
  destruct (Z.ltb_spec (Z.of_nat n) 0); [lia|]. by rewrite Nat2Z.id in H.
Qed.

Lemma spf_6 toc : 0 <= toc < 256 -> samples_per_frame toc 48000 = 6 * samples_per_frame toc 8000.
Proof.
  intros H. pose proof (zforall_spec 256 0 (fun toc => samples_per_frame toc 48000 =? 6 * samples_per_frame toc 8000)
    toc ltac:(by vm_compute) ltac:(lia)) as E. cbv beta in E. lia.
Qed.

Lemma range_ok : lens_ok rp.(rp_toc) range_lens.
Proof.
  pose proof (ro_nb _ _ Hrp). pose proof len_range as L. destruct (ro_size _ _ Hrp ltac:(lia)) as [Hs1 Hs2].
  split_and!; [|lia|lia|].
  - apply Forall_rd. rewrite L. intros i Hi. rewrite rd_range by lia. apply (ro_frame _ _ Hrp). lia.
  - rewrite L, spf_6 by apply (ro_toc _ _ Hrp). rewrite <- Hs1.
    assert (0 <= rp_framesize rp).
    { rewrite Hs1. pose proof (framesize_range _ (ro_toc _ _ Hrp)) as Hf. rewrite spf_6 in Hf by apply (ro_toc _ _ Hrp). lia. }
    nia.
Qed.

(** The sizes of the headers of one or two frames. *)
Lemma short_sizes :
  len range_lens <= 2 ->
  let base := len (sd_header sd range_lens) + len (short rp.(rp_toc) range_lens) in
  len (plain_header rp.(rp_toc) sd range_lens) = base /\
  total3 rp.(rp_toc) sd range_lens = base + sumZ range_lens + 1.
Proof.
  intros H2. pose proof range_ok as Hlens. pose proof Hlens as (_ & Hc & _). split.
  - unfold plain_header. rewrite (proj2 (Z.leb_le _ _) H2), header012_short, len_app by lia. lia.
  - unfold total3. rewrite header3_sd, len_app, <- (len_short _ _ Hlens H2). lia.
Qed.

Lemma out_spec :
  (exists c, c < 0 /\
    opus_repacketizer_out_range_impl mem rp begin end_ data maxlen sd pad extensions = Err c /\
    (extensions = [] -> no_paddings -> maxlen < len (plain_header rp.(rp_toc) sd range_lens) + sumZ range_lens)) \/
  (exists exts amount H, written mem rp.(rp_toc) sd pad range_lens range_frames exts maxlen amount H /\
    (extensions = [] -> no_paddings -> exts = []) /\
    (exists total, out_gather (Z.to_nat (end_ - begin)) begin begin mem rp total extensions = Ok exts) /\
    opus_repacketizer_out_range_impl mem rp begin end_ data maxlen sd pad extensions =
    Ok (splice mem data (packet_bytes mem H range_frames exts (pad_data amount)),
        len H + sumZ range_lens + pad_data amount)).
Proof.
  pose proof (ro_toc _ _ Hrp) as Htoc. pose proof range_ok as Hlens. pose proof len_range as L.
  pose proof snd_range as Hsnd. unfold opus_repacketizer_out_range_impl.
  rewrite Z.geb_leb, Z.gtb_ltb. destruct (Z.ltb_spec begin 0), (Z.leb_spec end_ begin), (Z.ltb_spec (rp_nb_frames rp) end_); try lia.
  cbn [orb]. fold range_lens. fold range_frames. rewrite <- L. fold (last_len range_lens).
  rewrite sdl_eq. rewrite L.
  destruct (out_count_ok mem rp begin end_ Hmem Hrp Hrange (Z.to_nat (end_ - begin)) begin (len extensions) ltac:(lia) ltac:(lia))
    as (total & -> & _). cbn [mbind res_bind].
  pose proof (out_gather_ok mem rp data maxlen begin end_ Hmem Hrp Hrange Hpad (Z.to_nat (end_ - begin)) begin total extensions
    ltac:(lia) ltac:(lia) Hext) as Hg.
  assert (Hnone : no_paddings -> out_gather (Z.to_nat (end_ - begin)) begin begin mem rp total extensions = Ok extensions).
  { intros Hn. apply out_gather_none. intros j Hj. apply Hn. lia. }
  destruct (out_gather _ _ _ _ _ _ _) as [exts|c|] eqn:Eg; [|left; exists c; split_and!; [done|done|by intros _ Hn; specialize (Hnone Hn)]|done].
  cbn [mbind res_bind]. cbn in Hg.
  assert (Hex : extensions = [] -> no_paddings -> exts = []) by (intros -> Hn; specialize (Hnone Hn); congruence).
  set (sdl := len (sd_header sd range_lens)). assert (Hsdl : 0 <= sdl) by apply len_nonneg.
  rewrite out_short_spec by done.
  assert (Hcl : clear mem data maxlen (rp_toc rp) range_lens sd pad range_frames exts).
  { destruct Hclear as [Hc|(E1 & E2 & E3 & Hc)]; [by left|]. right. by split_and!; auto. }
  set (toc := rp_toc rp) in *. set (lens := range_lens) in *. set (fl := range_frames) in *.
  pose proof (whole_code3 mem data maxlen Hdata Hroom toc lens sd pad fl exts Htoc Hlens Hsnd Hg Hcl) as Hw3. cbv zeta in Hw3. fold sdl in Hw3.
  replace (end_ - begin >? 2) with (2 <? len lens) by (rewrite L, Z.gtb_ltb; done).
  destruct (Z.ltb_spec 2 (len lens)) as [H2|H2]; cbn [mbind res_bind orb].
  - rewrite (short_long toc lens H2), splice_nil in Hw3. change (len (@nil Z)) with 0 in Hw3.
    destruct (Hw3 ltac:(by left) ltac:(lia) Hmax) as [(c & Hc & Ew & Hn)|(amount & Hwr & Ew)].
    + left. exists c. split_and!; [done|exact Ew|]. intros E1 E2. specialize (Hn (Hex E1 E2)).
      unfold plain_header. destruct (Z.leb_spec (len lens) 2); [lia|]. exact Hn.
    + right. exists exts, amount, (header3 toc sd lens amount). split_and!; [done|done|by exists total|exact Ew].
  - destruct (short_sizes H2) as [Hplain Ht3]. fold toc lens sdl in Hplain, Ht3.
    destruct (Z.leb_spec (sdl + len (short toc lens) + sumZ lens) maxlen) as [Hle|Hgt]; cbn [mbind res_bind].
    2: { left. exists OPUS_BUFFER_TOO_SMALL. split_and!; [done|done|]. intros _ _. rewrite Hplain. lia. }
    pose proof (sumZ_nonneg _ (proj1 Hlens)) as Hsum.
    rewrite Z.gtb_ltb. set (tot := sdl + len (short toc lens) + sumZ lens) in *.
    destruct ((pad && (tot <? maxlen)) || (0 <? len exts)) eqn:Eb; cbn [mbind res_bind].
    + assert (Hin : pad = true \/ exts <> []).
      { apply orb_true_iff in Eb as [Eb|Eb]; [apply andb_true_iff in Eb as [Eb _]; by left|]. right. intros E. by rewrite E in Eb. }
      destruct (Hw3 ltac:(by right) ltac:(lia) Hmax) as [(c & Hc & Ew & Hn)|(amount & Hwr & Ew)].
      * left. exists c. split_and!; [done|exact Ew|]. intros E1 E2. specialize (Hex E1 E2). specialize (Hn Hex).
        rewrite Hex in Eb. change (0 <? len (@nil opus_extension_data)) with false in Eb. rewrite orb_false_r in Eb.
        apply andb_true_iff in Eb as [_ Eb]. apply Z.ltb_lt in Eb. lia.
      * right. exists exts, amount, (header3 toc sd lens amount). split_and!; [done|done|by exists total|exact Ew].
    + apply orb_false_iff in Eb as [Eb1 Eb2].
      assert (Hnil : exts = []) by (destruct exts; [done|]; apply Z.ltb_ge in Eb2; unfold len in Eb2; cbn [length] in Eb2; lia).
      right. exists exts, 0, (header012 toc sd lens).
      edestruct (whole_short mem data maxlen Hdata Hroom toc lens sd pad fl exts Hlens Hsnd Hcl tot) as [Ew Hwr];
        try (done || lia).
      { intros Ep. rewrite Ep in Eb1. cbn [andb] in Eb1. apply Z.ltb_ge in Eb1. lia. }
      split_and!; [exact Hwr|done|by exists total|]. rewrite Ew. do 2 f_equal.
      rewrite header012_short, len_app by lia. fold sdl. change (pad_data 0) with 0. unfold tot. lia.
Qed.
End Range.
