(* ===== verification/RepackParse.v ===== *)
(** * Packets that the repacketizer writes parse back to its frames *)

From S2P Require Import Prelude Memory Packet PacketProofs PacketBuild Extensions ExtProofs Repacketizer RepackProofs.

(** ** Bytes *)

Ltac bytes_list := repeat (apply Forall_cons; [|]); try apply Forall_nil.

Lemma bytes_app l1 l2 : bytes l1 -> bytes l2 -> bytes (l1 ++ l2).
Proof. intros. by apply Forall_app. Qed.
Lemma bytes_repeat v n : 0 <= v < 256 -> bytes (repeat v n).
Proof. intros H. induction n; cbn [repeat]; [apply Forall_nil|by apply Forall_cons]. Qed.
#[export] Hint Resolve bytes_app bytes_repeat bytes_slice bytes_encode_size : opus.

Lemma bytes_concat l : Forall bytes l -> bytes (concat l).
Proof. induction 1; cbn [concat]; [apply Forall_nil|by apply bytes_app]. Qed.

Lemma bytes_sd sd lens : bytes (sd_header sd lens).
Proof. unfold sd_header. destruct sd; [apply bytes_encode_size|apply Forall_nil]. Qed.

Lemma bytes_header3 toc sd lens amount :
  0 <= toc < 256 -> lens_ok toc lens -> 0 <= amount -> bytes (header3 toc sd lens amount).
Proof.
  intros Ht (_ & Hc & _) Ha. unfold header3. destruct (toc_bits toc 3 Ht ltac:(lia)) as (Ht3 & _).
  destruct (count_bits (len lens) (vbr lens) (amount =? 0) Hc) as (Hcb & _).
  repeat apply bytes_app; [by bytes_list| | |apply bytes_sd].
  - unfold pad_header, pad_255s. destruct (Z.eqb_spec amount 0); [apply Forall_nil|].
    apply bytes_app; [by apply bytes_repeat|]. bytes_list. dlia.
  - unfold vbr_header. destruct (vbr lens); [|apply Forall_nil]. apply bytes_concat.
    apply Forall_map, Forall_forall. intros n _. apply bytes_encode_size.
Qed.

Lemma bytes_header012 toc sd lens : 0 <= toc < 256 -> bytes (header012 toc sd lens).
Proof.
  intros Ht. destruct (toc_bits toc 0 Ht ltac:(lia)) as (H0 & _). rewrite Z.lor_0_r in H0.
  destruct (toc_bits toc 1 Ht ltac:(lia)) as (H1 & _). destruct (toc_bits toc 2 Ht ltac:(lia)) as (H2 & _).
  unfold header012. destruct lens as [|a [|b [|c l]]]; try apply Forall_nil.
  - apply bytes_app; [by bytes_list|apply bytes_sd].
  - destruct (b =? a); repeat apply bytes_app; try (by bytes_list); auto using bytes_sd, bytes_encode_size.
Qed.

Lemma bytes_exts m cf l :
  bytes m -> Forall (ext_ok m) l -> 0 <= cf -> ascending cf l -> bytes (exts_bytes m cf l).
Proof.
  intros Hm. revert cf. induction l as [|e l IH]; intros cf Ho Hc Ha; cbn [exts_bytes]; [apply Forall_nil|].
  apply Forall_cons_1 in Ho as [He Ho]. destruct Ha as [Ha1 Ha2].
  pose proof (eo_frame _ _ He). pose proof (eo_id _ _ He). pose proof (eo_len _ _ He).
  pose proof (len_payload _ _ He) as Hpl. assert (Hb : bytes (payload m e)) by (by apply bytes_slice).
  repeat apply bytes_app; [| |apply IH; done || lia].
  - unfold sep_bytes. destruct (_ =? cf); [apply Forall_nil|]. destruct (_ =? 1); bytes_list; lia.
  - unfold ext_bytes. destruct (Z.ltb_spec (ext_id e) 32).
    + apply Forall_cons; [|done]. pose proof (eo_short _ _ He). lia.
    + apply Forall_cons; [destruct (is_nil l); cbn; lia|]. apply bytes_app; [|done].
      destruct (is_nil l); [apply Forall_nil|]. unfold lacing_bytes.
      apply bytes_app; [by apply bytes_repeat|]. bytes_list. dlia.
Qed.

Lemma ordered_ok m l : Forall (ext_ok m) l -> Forall (ext_ok m) (ordered l) /\ ascending 0 (ordered l).
Proof.
  intros Ho. split; [|apply by_frame_ascending]. rewrite ordered_perm; [done|].
  eapply Forall_impl; [|exact Ho]. intros e He. apply (eo_frame _ _ He).
Qed.

Lemma bytes_padding m exts n : bytes m -> Forall (ext_ok m) exts -> bytes (padding_bytes m exts n).
Proof.
  intros Hm Ho. unfold padding_bytes. destruct exts; [by apply bytes_repeat|].
  destruct (ordered_ok _ _ Ho). apply bytes_app; [by apply bytes_repeat|]. by apply bytes_exts.
Qed.

(** ** Frames in a packet *)

Definition in_mem (m : list Z) (fn : Z * Z) : Prop := 0 <= fn.1 /\ 0 <= fn.2 /\ fn.1 + fn.2 <= len m.

Lemma frames_apart_in m data k fl : frames_apart m data k fl -> Forall (in_mem m) fl.
Proof.
  revert k. induction fl as [|[f n] fl IH]; intros k H; [apply Forall_nil|].
  destruct H as (H1 & H2 & H3 & _ & H5). apply Forall_cons; [done|]. by apply (IH (k + n)).
Qed.

Lemma len_contents m fl : Forall (in_mem m) fl -> len (contents m fl) = sumZ (map snd fl).
Proof.
  unfold contents. induction 1 as [|[f n] l (H1 & H2 & H3) _ IH]; [done|]. cbn [map concat fst snd] in *.
  rewrite len_app, IH, len_slice by lia. done.
Qed.

Lemma contents_at m fl pre post i f n :
  Forall (in_mem m) fl -> fl !! i = Some (f, n) ->
  slice (pre ++ contents m fl ++ post) (len pre + sumZ (take i (map snd fl))) n = slice m f n.
Proof.
  revert pre i. induction fl as [|[f0 n0] fl IH]; intros pre i Hf Hi; [done|].
  apply Forall_cons_1 in Hf as [(H1 & H2 & H3) Hf]. cbn [fst snd] in *. unfold contents in *. cbn [map concat snd].
  pose proof (len_slice m f0 n0 H1 H2 H3) as Hl. destruct i as [|i]; cbn in Hi.
  - injection Hi as -> ->. cbn [take]. change (sumZ []) with 0. rewrite Z.add_0_r, <- !app_assoc.
    rewrite <- Hl at 2. apply slice_mid.
  - cbn [take]. change (sumZ (n0 :: take i (map snd fl))) with (n0 + sumZ (take i (map snd fl))).
    rewrite <- (IH (pre ++ slice m f0 n0) i Hf Hi), <- !app_assoc, len_app. f_equal. lia.
Qed.

Lemma sumZ_take_S (l : list Z) i : 0 <= i < len l -> sumZ (take (Z.to_nat (i + 1)) l) = sumZ (take (Z.to_nat i) l) + l.[i].
Proof.
  intros Hi. replace (Z.to_nat (i + 1)) with (S (Z.to_nat i)) by lia. unfold len, rd in *.
  destruct (Z.ltb_spec i 0); [lia|].
  destruct (lookup_lt_is_Some_2 l (Z.to_nat i) ltac:(lia)) as [x Hx].
  rewrite (take_S_r _ _ x Hx), sumZ_app. rewrite (nth_lookup_Some _ _ _ x Hx). cbn. lia.
Qed.

(** The frames of a parsed packet lie at the sums of the sizes. *)
Lemma parsed_offsets data sd r lens :
  parse_ok data sd r -> r.(pr_count) = len lens -> (forall i, 0 <= i < len lens -> r.(pr_size).[i] = lens.[i]) ->
  forall i, 0 <= i < len lens -> r.(pr_frames).[i] = r.(pr_payload_offset) + sumZ (take (Z.to_nat i) lens).
Proof.
  intros Hp Rc Rs. assert (forall n : nat, Z.of_nat n < len lens ->
    r.(pr_frames).[Z.of_nat n] = r.(pr_payload_offset) + sumZ (take n lens)) as Hn.
  { induction n as [|n IH]; intros Hn.
    - destruct (po_first _ _ _ Hp) as [_ E]. change (Z.of_nat 0) with 0. rewrite E.
      change (sumZ (take 0 lens)) with 0. lia.
    - replace (Z.of_nat (S n)) with (Z.of_nat n + 1) by lia. rewrite (po_next _ _ _ Hp) by lia.
      rewrite IH, Rs by lia. pose proof (sumZ_take_S lens (Z.of_nat n) ltac:(lia)) as E.
      rewrite Nat2Z.id in E. replace (Z.to_nat (Z.of_nat n + 1)) with (S n) in E by lia. lia. }
  intros i Hi. rewrite <- (Hn (Z.to_nat i)) by lia. by rewrite Z2Nat.id by lia.
Qed.

(** ** Parsing a written packet *)

(** The bytes of frame [i] of a parsed packet. *)
Definition frame_bytes (data : list Z) (r : parsed) (i : Z) : list Z := slice data r.(pr_frames).[i] r.(pr_size).[i].

Section Parse.
Context (m : list Z) (toc : Z) (sd pad : bool) (fl : list (Z * Z)) (exts : list opus_extension_data).
Context (maxlen amount : Z) (H tail : list Z).
Let lens := map snd fl.
Hypothesis Hm : bytes m.
Hypothesis Htoc : 0 <= toc < 256.
Hypothesis Hlens : lens_ok toc lens.
Hypothesis Hfl : Forall (in_mem m) fl.
Hypothesis Hw : written m toc sd pad lens fl exts maxlen amount H.
Hypothesis Htail : bytes tail /\ (sd = false -> tail = []).

Let P := packet_bytes m H fl exts (pad_data amount).

Lemma len_packet : len P = len H + sumZ lens + pad_data amount.
Proof.
  destruct (wr_exts _ _ _ _ _ _ _ _ _ _ Hw) as [_ He]. destruct (pad_split amount (wr_amount _ _ _ _ _ _ _ _ _ _ Hw)).
  unfold P, packet_bytes. rewrite !len_app, (len_contents m fl Hfl), len_padding_bytes by lia. fold lens. lia.
Qed.

Lemma bytes_contents : bytes (contents m fl).
Proof. apply bytes_concat, Forall_map, Forall_forall. intros [f n] _. by apply bytes_slice. Qed.

Lemma bytes_packet : bytes P.
Proof.
  pose proof (wr_amount _ _ _ _ _ _ _ _ _ _ Hw). destruct (wr_exts _ _ _ _ _ _ _ _ _ _ Hw) as [Ho _].
  unfold P, packet_bytes. repeat apply bytes_app; [|apply bytes_contents|by apply bytes_padding].
  destruct (wr_header _ _ _ _ _ _ _ _ _ _ Hw) as [(-> & _)| ->]; [by apply bytes_header012|by apply bytes_header3].
Qed.

Lemma packet_built : built (P ++ tail) toc sd lens amount H.
Proof.
  pose proof len_packet as HP. pose proof (wr_amount _ _ _ _ _ _ _ _ _ _ Hw).
  pose proof (len_nonneg tail). pose proof (len_nonneg P). split; try done.
  - split_and!; [lia| |].
    + rewrite len_app. unfold P, packet_bytes. rewrite len_app. pose proof (len_nonneg (contents m fl ++ padding_bytes m exts (pad_data amount))). lia.
    + unfold P, packet_bytes. rewrite <- app_assoc. change 0 with (len (@nil Z)).
      exact (slice_mid [] H ((contents m fl ++ padding_bytes m exts (pad_data amount)) ++ tail)).
  - rewrite len_app. lia.
  - intros E. destruct Htail as [_ Ht]. rewrite (Ht E), app_nil_r. lia.
Qed.

Lemma header_pos : 0 < len H.
Proof.
  destruct Hlens as (_ & Hc & _). pose proof (len_nonneg (sd_header sd lens)).
  destruct (wr_header _ _ _ _ _ _ _ _ _ _ Hw) as [(-> & H2 & _)| ->].
  - rewrite header012_short, len_app by lia. pose proof (len_short toc lens Hlens H2) as E. rewrite len_header3 in E.
    pose proof (len_nonneg (pad_header 0)). pose proof (len_nonneg (vbr_header lens)). pose proof (len_nonneg (sd_header false lens)). lia.
  - rewrite len_header3. pose proof (len_nonneg (pad_header amount)). pose proof (len_nonneg (vbr_header lens)). lia.
Qed.

Lemma header_toc : Z.land H.[0] 0xFC = Z.land toc 0xFC.
Proof.
  assert (Hk : forall k, 0 <= k < 4 -> Z.land (Z.lor (Z.land toc 252) k) 252 = Z.land toc 252)
    by (intros k Hk; by apply toc_bits).
  destruct (wr_header _ _ _ _ _ _ _ _ _ _ Hw) as [(-> & H2 & _)| ->]; [|apply (Hk 3); lia].
  destruct Hlens as (_ & Hc & _). unfold header012. destruct lens as [|a [|b [|c l]]].
  - change (len (@nil Z)) with 0 in Hc. lia.
  - pose proof (Hk 0 ltac:(lia)) as E. rewrite Z.lor_0_r in E. exact E.
  - destruct (b =? a); [apply (Hk 1)|apply (Hk 2)]; lia.
  - unfold len in H2. cbn [length] in H2. lia.
Qed.

(** The parser finds the frames, the padding and the end of the packet. *)
Lemma packet_parses size :
  len lens <= len size ->
  exists r, opus_packet_parse_impl (P ++ tail) (len (P ++ tail)) sd size = Ok r /\
    r.(pr_count) = len lens /\ Z.land r.(pr_toc) 0xFC = Z.land toc 0xFC /\
    (forall i f n, fl !! i = Some (f, n) -> frame_bytes (P ++ tail) r (Z.of_nat i) = slice m f n) /\
    r.(pr_padding_len) = pad_data amount /\ r.(pr_padding) = len H + sumZ lens /\
    slice (P ++ tail) r.(pr_padding) r.(pr_padding_len) = padding_bytes m exts (pad_data amount) /\
    r.(pr_packet_offset) = len P.
Proof.
  intros Hs. pose proof (bytes_app _ _ bytes_packet (proj1 Htail)) as Hb.
  assert (exists r, opus_packet_parse_impl (P ++ tail) (len (P ++ tail)) sd size = Ok r /\ reads r lens amount H /\
    parse_ok (P ++ tail) sd r) as (r & Er & Hr & Hp).
  { pose proof packet_built as Hbu. destruct (wr_header _ _ _ _ _ _ _ _ _ _ Hw) as [(E & H2 & E0)|E].
    - rewrite E, E0 in *. by apply (parse_built012 _ toc).
    - rewrite E in *. by apply (parse_built3 _ toc). }
  exists r. split; [done|]. destruct Hr as [Rc Ro Rs Rp]. pose proof (parsed_offsets _ _ _ _ Hp Rc Rs) as Hoff. rewrite Ro in Hoff.
  assert (Hpad : r.(pr_padding) = len H + sumZ lens).
  { destruct (po_padding _ _ _ Hp) as [-> _]. destruct Hlens as (_ & Hc & _). rewrite Rc, Rs, Hoff by lia.
    rewrite <- Z.add_assoc, <- sumZ_take_S by lia. replace (len lens - 1 + 1) with (len lens) by lia.
    unfold len. rewrite Nat2Z.id, firstn_all. done. }
  split_and!; [done| | |done|done| |].
  - rewrite (po_toc _ _ _ Hp). destruct packet_built as [_ _ _ (_ & HlH & Hh) _ _].
    assert (Hpos : 0 < len H) by (by apply header_pos).
    rewrite <- (Z.add_0_l 0), <- (rd_slice _ 0 (len H)), Hh by lia. by apply header_toc.
  - intros i f n Hi. assert (Hil : 0 <= Z.of_nat i < len lens).
    { unfold len, lens. rewrite length_map. apply lookup_lt_Some in Hi. lia. }
    unfold frame_bytes. rewrite Hoff, Rs, Nat2Z.id by lia.
    assert (En : lens.[Z.of_nat i] = n).
    { unfold rd, lens. destruct (Z.ltb_spec (Z.of_nat i) 0); [lia|]. rewrite Nat2Z.id.
      apply nth_lookup_Some. by rewrite list_lookup_fmap, Hi. }
    rewrite En. unfold P, packet_bytes, lens. rewrite <- !app_assoc. by apply contents_at.
  - rewrite Hpad, Rp. unfold P, packet_bytes. rewrite <- !app_assoc, (app_assoc H).
    replace (len H + sumZ lens) with (len (H ++ contents m fl)) by (by rewrite len_app, len_contents).
    destruct (wr_exts _ _ _ _ _ _ _ _ _ _ Hw) as [_ He]. destruct (pad_split amount (wr_amount _ _ _ _ _ _ _ _ _ _ Hw)).
    pose proof (slice_mid (H ++ contents m fl) (padding_bytes m exts (pad_data amount)) tail) as E.
    rewrite len_padding_bytes in E by lia. exact E.
  - destruct (po_inside _ _ _ Hp) as [-> _]. rewrite Hpad, Rp, len_packet. done.
Qed.
End Parse.
