(* ===== verification/RepackCat.v ===== *)
(** * Adding packets to a repacketizer

    [cat_spec]: [opus_repacketizer_cat_impl] never faults on bytes in memory,
    keeps the invariant [rp_ok], and on success appends the frames that the
    parser finds. *)

From S2P Require Import Prelude Memory Packet PacketProofs PacketBuild Extensions Repacketizer RepackProofs.

Lemma cat_clear_spec n nb pa pl :
  0 <= nb -> nb + Z.of_nat n < len pa -> len pa = len pl ->
  exists pa' pl', cat_clear n nb pa pl = Ok (nb + Z.of_nat n, pa', pl') /\ len pa' = len pa /\ len pl' = len pl /\
    (forall i, i <= nb -> pa'.[i] = pa.[i] /\ pl'.[i] = pl.[i]) /\
    (forall i, nb < i <= nb + Z.of_nat n -> pl'.[i] = 0).
Proof.
  revert nb pa pl. induction n as [|n IH]; intros nb pa pl Hnb Hn Hl; cbn [cat_clear].
  { exists pa, pl. rewrite Z.add_0_r. split_and!; done || lia. }
  unfold put. destruct (Z.leb_spec 0 (nb + 1)), (Z.ltb_spec (nb + 1) (len pl)), (Z.ltb_spec (nb + 1) (len pa)); try lia.
  cbn [andb mbind res_bind].
  destruct (IH (nb + 1) pa.[nb + 1 <- NULL] pl.[nb + 1 <- 0]) as (pa' & pl' & E & L1 & L2 & H1' & H2');
    [lia|rewrite len_wr; lia|rewrite !len_wr; lia|].
  rewrite !len_wr in *. exists pa', pl'. rewrite E. split_and!; [tup|done|done| |].
  - intros i Hi. destruct (H1' i ltac:(lia)) as [-> ->]. by rewrite !rd_wr_ne by lia.
  - intros i Hi. destruct (decide (i = nb + 1)) as [->|]; [|apply H2'; lia].
    destruct (H1' (nb + 1) ltac:(lia)) as [_ ->]. by rewrite rd_wr_eq by lia.
Qed.

Lemma spf_8k toc : 0 <= toc < 256 -> 20 <= samples_per_frame toc 8000.
Proof. intros H. pose proof (framesize_range toc H) as Hf. rewrite spf_6 in Hf by done. lia. Qed.

(** What a successful call adds: the frames of [r], parsed from the packet at [data]. *)
Record appended (rp rp' : OpusRepacketizer) (data : Z) (r : parsed) : Prop := {
  ap_nb : rp'.(rp_nb_frames) = rp.(rp_nb_frames) + r.(pr_count);
  ap_old : forall i, 0 <= i < rp.(rp_nb_frames) -> rp'.(rp_frames).[i] = rp.(rp_frames).[i] /\
    rp'.(rp_len).[i] = rp.(rp_len).[i] /\ rp'.(rp_paddings).[i] = rp.(rp_paddings).[i] /\
    rp'.(rp_padding_len).[i] = rp.(rp_padding_len).[i];
  ap_new : forall j, 0 <= j < r.(pr_count) ->
    rp'.(rp_frames).[rp.(rp_nb_frames) + j] = data + r.(pr_frames).[j] /\
    rp'.(rp_len).[rp.(rp_nb_frames) + j] = r.(pr_size).[j];
  ap_padding : rp'.(rp_paddings).[rp.(rp_nb_frames)] = data + r.(pr_padding) /\
    rp'.(rp_padding_len).[rp.(rp_nb_frames)] = r.(pr_padding_len);
  ap_rest : forall j, 0 < j < r.(pr_count) -> rp'.(rp_padding_len).[rp.(rp_nb_frames) + j] = 0
}.

(** The frames of a parsed packet are inside it. *)
Lemma parsed_inside data sd r : parse_ok data sd r -> forall i, 0 <= i < r.(pr_count) ->
  1 <= r.(pr_frames).[i] /\ r.(pr_frames).[i] + r.(pr_size).[i] <= r.(pr_padding).
Proof.
  intros Hp. assert (Hlo : forall n : nat, Z.of_nat n < r.(pr_count) -> 1 <= r.(pr_frames).[Z.of_nat n]).
  { induction n as [|n IH]; intros Hn; [destruct (po_first _ _ _ Hp) as [H1 H2]; change (Z.of_nat 0) with 0; lia|].
    replace (Z.of_nat (S n)) with (Z.of_nat n + 1) by lia. rewrite (po_next _ _ _ Hp) by lia.
    pose proof (po_sizes _ _ _ Hp (Z.of_nat n) ltac:(lia)). specialize (IH ltac:(lia)). lia. }
  assert (Hhi : forall n : nat, Z.of_nat n < r.(pr_count) ->
    let i := r.(pr_count) - 1 - Z.of_nat n in r.(pr_frames).[i] + r.(pr_size).[i] <= r.(pr_padding)).
  { induction n as [|n IH]; intros Hn i; [subst i; change (Z.of_nat 0) with 0; destruct (po_padding _ _ _ Hp) as [-> _]; rewrite Z.sub_0_r; lia|].
    specialize (IH ltac:(lia)). cbv zeta in IH. pose proof (po_sizes _ _ _ Hp (i + 1) ltac:(lia)).
    rewrite <- (po_next _ _ _ Hp i) by lia. replace (r.(pr_count) - 1 - Z.of_nat n) with (i + 1) in IH by lia. lia. }
  intros i Hi. split; [rewrite <- (Z2Nat.id i) by lia; apply Hlo; lia|].
  specialize (Hhi (Z.to_nat (r.(pr_count) - 1 - i)) ltac:(lia)). cbv zeta in Hhi.
  by replace (r.(pr_count) - 1 - Z.of_nat (Z.to_nat (r.(pr_count) - 1 - i))) with i in Hhi by lia.
Qed.

Lemma cat_store_spec rp data r packet sd :
  len rp.(rp_frames) = 48 /\ len rp.(rp_len) = 48 /\ len rp.(rp_paddings) = 48 /\ len rp.(rp_padding_len) = 48 ->
  parse_ok packet sd r -> 0 <= rp.(rp_nb_frames) -> r.(pr_count) + rp.(rp_nb_frames) <= 48 ->
  len r.(pr_size) = 48 - rp.(rp_nb_frames) ->
  exists rp', cat_store rp data r.(pr_count) r = Ok rp' /\ appended rp rp' data r /\
    rp'.(rp_toc) = rp.(rp_toc) /\ rp'.(rp_framesize) = rp.(rp_framesize) /\
    len rp'.(rp_frames) = 48 /\ len rp'.(rp_len) = 48 /\ len rp'.(rp_paddings) = 48 /\ len rp'.(rp_padding_len) = 48.
Proof.
  intros (A1 & A2 & A3 & A4) Hp Hnb Hc Hl. pose proof (po_count _ _ _ Hp) as Hc1. pose proof (po_frames _ _ _ Hp) as Hf.
  set (nb := rp_nb_frames rp) in *. unfold cat_store. fold nb.
  assert (Lf : len (map (Z.add data) (pr_frames r)) = pr_count r) by (unfold len in *; rewrite length_map; lia).
  rewrite !store_ok by lia. cbn [mbind res_bind]. unfold put.
  destruct (Z.leb_spec 0 nb), (Z.ltb_spec nb (len (rp_paddings rp))), (Z.ltb_spec nb (len (rp_padding_len rp))); try lia.
  cbn [andb mbind res_bind].
  destruct (cat_clear_spec (Z.to_nat (pr_count r - 1)) nb (rp_paddings rp).[nb <- data + pr_padding r]
    (rp_padding_len rp).[nb <- pr_padding_len r]) as (pa & pl & E & L1 & L2 & K1 & K2);
    [lia|rewrite len_wr; lia|rewrite !len_wr; lia|].
  rewrite E. cbn [mbind res_bind]. rewrite !len_wr in *.
  eexists; split; [done|]. split; [|cbn [rp_toc rp_framesize rp_frames rp_len rp_paddings rp_padding_len];
    rewrite !len_splice by lia; split_and!; done || lia].
  split; cbn [rp_nb_frames rp_frames rp_len rp_paddings rp_padding_len]; fold nb.
  - lia.
  - intros i Hi. destruct (K1 i ltac:(lia)) as [-> ->]. rewrite !rd_splice_out, !rd_wr_ne by lia. done.
  - intros j Hj. rewrite !rd_splice_in by lia. replace (nb + j - nb) with j by lia. split; [|done].
    unfold rd. destruct (Z.ltb_spec j 0); [lia|]. unfold len in Hf.
    rewrite (nth_indep _ 0 (data + 0)) by (rewrite length_map; lia). apply map_nth.
  - destruct (K1 nb ltac:(lia)) as [-> ->]. by rewrite !rd_wr_eq by lia.
  - intros j Hj. apply K2. lia.
Qed.

Section Cat.
Context (mem : list Z) (rp : OpusRepacketizer) (data n : Z) (sd : bool).
Hypothesis Hmem : bytes mem.
Hypothesis Hrp : rp_ok mem rp.
Hypothesis Hdata : 0 <= data.
Hypothesis Hn : data + n <= len mem.
Let packet := slice mem data n.

(** The state with the new frames is well formed. *)
Lemma appended_ok r rp' :
  1 <= n -> parse_ok packet sd r -> appended rp rp' data r -> 0 <= rp'.(rp_toc) < 256 ->
  len rp'.(rp_frames) = 48 /\ len rp'.(rp_len) = 48 /\ len rp'.(rp_paddings) = 48 /\ len rp'.(rp_padding_len) = 48 ->
  rp'.(rp_framesize) = samples_per_frame rp'.(rp_toc) 8000 ->
  rp'.(rp_nb_frames) * rp'.(rp_framesize) <= 960 -> rp_ok mem rp'.
Proof.
  intros H1 Hp [Anb Ao An Apd Ar] Ht Harr Hfs Hmax. pose proof (ro_nb _ _ Hrp). pose proof (po_count _ _ _ Hp).
  assert (Hlp : len packet = n) by (apply len_slice; lia).
  pose proof (spf_8k _ Ht). destruct (po_inside _ _ _ Hp) as [Hi1 Hi2]. destruct (po_padding _ _ _ Hp) as [_ Hpl].
  pose proof (parsed_inside _ _ _ Hp) as Hin. rewrite Hlp in Hi2. split; try done.
  - nia.
  - intros i Hi. destruct (Z.ltb_spec i (rp_nb_frames rp)).
    + destruct (Ao i ltac:(lia)) as (-> & -> & _). apply (ro_frame _ _ Hrp). lia.
    + replace i with (rp_nb_frames rp + (i - rp_nb_frames rp)) by lia.
      destruct (An (i - rp_nb_frames rp) ltac:(lia)) as [-> ->]. specialize (Hin (i - rp_nb_frames rp) ltac:(lia)).
      pose proof (po_sizes _ _ _ Hp (i - rp_nb_frames rp) ltac:(lia)). lia.
  - intros i Hi. destruct (Z.ltb_spec i (rp_nb_frames rp)); [|destruct (decide (i = rp_nb_frames rp)) as [->|]].
    + destruct (Ao i ltac:(lia)) as (_ & _ & -> & ->). apply (ro_padding _ _ Hrp). lia.
    + destruct Apd as [-> ->]. specialize (Hin 0 ltac:(lia)). pose proof (po_sizes _ _ _ Hp 0 ltac:(lia)). lia.
    + replace i with (rp_nb_frames rp + (i - rp_nb_frames rp)) by lia. rewrite (Ar (i - rp_nb_frames rp)) by lia. lia.
Qed.

(** The table-of-contents byte and frame size before parsing. *)
Lemma cat_toc d0 :
  0 <= d0 < 256 ->
  let toc := if rp.(rp_nb_frames) =? 0 then d0 else rp.(rp_toc) in
  let fs := if rp.(rp_nb_frames) =? 0 then samples_per_frame d0 8000 else rp.(rp_framesize) in
  let rp1 := {| rp_toc := toc; rp_nb_frames := rp.(rp_nb_frames); rp_frames := rp.(rp_frames);
    rp_len := rp.(rp_len); rp_framesize := fs; rp_paddings := rp.(rp_paddings);
    rp_padding_len := rp.(rp_padding_len) |} in
  0 <= toc < 256 /\ fs = samples_per_frame toc 8000 /\
  (rp_ok mem rp1 /\ (0 < rp.(rp_nb_frames) -> rp1 = rp)).
Proof.
  intros Hd. cbv zeta. pose proof (ro_nb _ _ Hrp). pose proof (ro_toc _ _ Hrp). destruct (Z.eqb_spec (rp_nb_frames rp) 0) as [E|N].
  - split_and!; [lia|lia|done| |lia]. destruct Hrp. split; cbn; try done. lia.
  - destruct (ro_size _ _ Hrp ltac:(lia)) as [Hs _]. split_and!; [lia|lia|done| |]; [destruct Hrp; by split|].
    intros _. by destruct rp.
Qed.

(** What the parser finds in the packet, the frame counter and the duration check accept. *)
Lemma cat_parsed_fits sizes r :
  1 <= n -> 48 <= len sizes -> opus_packet_parse_impl packet n sd sizes = Ok r ->
  opus_packet_get_nb_frames packet n = Ok r.(pr_count) /\ 1 <= r.(pr_count) /\
  r.(pr_count) * samples_per_frame mem.[data] 8000 <= 960.
Proof.
  intros H1 Hs Er. assert (Hlp : len packet = n) by (apply len_slice; lia).
  pose proof (sat_parse_impl packet sd sizes (bytes_slice _ _ _ Hmem)) as Hsat.
  rewrite Hlp, Er in Hsat. destruct Hsat as [Hp _]; [intros c' _ ?; lia|].
  pose proof (po_nb _ _ _ Hp) as En. rewrite Hlp in En. pose proof (po_count _ _ _ Hp). pose proof (po_dur _ _ _ Hp) as Hdur.
  assert (Ed : packet.[0] = mem.[data]) by (unfold packet; rewrite rd_slice, Z.add_0_r by lia; done).
  rewrite Ed, spf_6 in Hdur by (by apply bytes_rd). split_and!; [done|lia|lia].
Qed.

(** An error leaves the frames as they were, and on a fresh repacketizer means that the packet
    does not parse; success appends the parsed frames. *)
Definition cat_result (rp' : OpusRepacketizer) (ret : Z) : Prop :=
  rp_ok mem rp' /\
  ((ret < 0 /\ rp'.(rp_nb_frames) = rp.(rp_nb_frames) /\ rp'.(rp_frames) = rp.(rp_frames) /\
    rp'.(rp_len) = rp.(rp_len) /\ (0 < rp.(rp_nb_frames) -> rp' = rp) /\
    (rp.(rp_nb_frames) = 0 -> forall r, opus_packet_parse_impl packet n sd rp.(rp_len) <> Ok r)) \/
   (ret = OPUS_OK /\ 1 <= n /\ exists r, parse_ok packet sd r /\
    opus_packet_parse_impl packet n sd (drop (Z.to_nat rp.(rp_nb_frames)) rp.(rp_len)) = Ok r /\
    rp'.(rp_toc) = (if rp.(rp_nb_frames) =? 0 then r.(pr_toc) else rp.(rp_toc)) /\ appended rp rp' data r)).

Lemma cat_spec : exists rp' ret, opus_repacketizer_cat_impl mem rp data n sd = Ok (rp', ret) /\ cat_result rp' ret.
Proof.
  pose proof (ro_nb _ _ Hrp) as Hnb. destruct (ro_arrays _ _ Hrp) as (A1 & A2 & A3 & A4).
  unfold opus_repacketizer_cat_impl. destruct (Z.ltb_spec n 1).
  { exists rp, OPUS_INVALID_PACKET. split; [done|]. split; [done|]. left. split_and!; try done.
    intros _ r. unfold opus_packet_parse_impl. destruct (Z.ltb_spec n 0); [done|]. by destruct (Z.eqb_spec n 0); [|lia]. }
  rewrite get_ok by lia. cbn [mbind res_bind]. set (d0 := mem.[data]).
  assert (Hd0 : 0 <= d0 < 256) by (by apply bytes_rd).
  destruct (negb (rp_nb_frames rp =? 0) && negb (Z.land (rp_toc rp) 252 =? Z.land d0 252)) eqn:Etoc.
  { exists rp, OPUS_INVALID_PACKET. split; [done|]. split; [done|]. left. split_and!; try done.
    intros E. by rewrite E in Etoc. }
  set (toc := if rp_nb_frames rp =? 0 then d0 else rp_toc rp).
  set (fs := if rp_nb_frames rp =? 0 then samples_per_frame d0 8000 else rp_framesize rp).
  destruct (cat_toc d0 Hd0) as (Htoc & Hfs & Hcand). fold toc in Htoc, Hfs, Hcand. fold fs in Hfs, Hcand.
  set (rp1 := {| rp_toc := toc |}) in *.
  assert (Hok1 : rp_ok mem rp1) by apply Hcand.
  assert (Hsame : forall c, c < 0 ->
    (rp.(rp_nb_frames) = 0 -> forall r, opus_packet_parse_impl packet n sd rp.(rp_len) <> Ok r) ->
    exists rp' ret, Ok (rp1, c) = Ok (rp', ret) /\ cat_result rp' ret).
  { intros c Hc Hno. exists rp1, c. split; [done|]. split; [done|]. left. split_and!; try done. by apply Hcand. }
  rewrite load_ok by lia. cbn [mbind res_bind]. fold packet.
  assert (Hlp : len packet = n) by (apply len_slice; lia).
  assert (Hfresh : rp.(rp_nb_frames) = 0 -> forall r, opus_packet_parse_impl packet n sd rp.(rp_len) = Ok r ->
    opus_packet_get_nb_frames packet n = Ok r.(pr_count) /\ 1 <= r.(pr_count) /\ r.(pr_count) * fs <= 960).
  { intros E r Er. unfold fs. rewrite E. by apply (cat_parsed_fits rp.(rp_len)); [|lia|]. }
  destruct (opus_packet_get_nb_frames packet n) as [c|c|] eqn:Enb;
    [|apply Hsame; [done|]; intros E r Er; by destruct (Hfresh E r Er)|].
  2: { exfalso. rewrite <- Hlp, nb_frames_eq in Enb by lia. revert Enb. repeat case_match; done. }
  destruct (Z.ltb_spec c 1).
  { apply Hsame; [done|]. intros E r Er. destruct (Hfresh E r Er) as ([= ->] & ? & _). lia. }
  rewrite Z.gtb_ltb. destruct (Z.ltb_spec 960 ((c + rp_nb_frames rp) * fs)).
  { apply Hsame; [done|]. intros E r Er. destruct (Hfresh E r Er) as ([= ->] & _ & ?). rewrite E in *. lia. }
  pose proof (spf_8k toc Htoc). assert (Hc48 : c + rp_nb_frames rp <= 48) by nia.
  change (rp_len rp1) with (rp_len rp). set (size0 := drop _ _). assert (Ls : len size0 = 48 - rp_nb_frames rp).
  { unfold size0, len in *. rewrite length_drop. lia. }
  assert (Hroom : room packet (len size0)) by (intros c' E _; rewrite Hlp in E; rewrite E in Enb; injection Enb as ->; lia).
  pose proof (sat_parse_impl packet sd size0 (bytes_slice _ _ _ Hmem) Hroom) as Hsat. rewrite Hlp in Hsat.
  destruct (opus_packet_parse_impl packet n sd size0) as [r|c'|] eqn:Ep;
    [|apply Hsame; [done|]; intros E r Er; unfold size0 in Ep; rewrite E in Ep; change (drop (Z.to_nat 0) (rp_len rp)) with (rp_len rp) in Ep; congruence|done].
  destruct Hsat as [Hp Hlr].
  assert (Hcr : pr_count r = c) by (pose proof (po_nb _ _ _ Hp) as E; rewrite Hlp, Enb in E; by injection E).
  subst c. destruct (cat_store_spec rp1 data r packet sd) as (rp' & Es & Hap & T1 & T2 & Harr); try (done || (cbn; lia)).
  rewrite Es. cbn [mbind res_bind]. exists rp', OPUS_OK. split; [done|].
  assert (Hap' : appended rp rp' data r) by (destruct Hap; by split).
  split.
  - apply (appended_ok r); try done; try lia; rewrite ?T1, ?T2; try done.
    rewrite (ap_nb _ _ _ _ Hap'). cbn. lia.
  - right. split_and!; [done|done|]. exists r. split_and!; try done. rewrite T1. unfold rp1, toc. cbn [rp_toc].
    rewrite (po_toc _ _ _ Hp). unfold packet. rewrite rd_slice by lia. by rewrite Z.add_0_r.
Qed.
End Cat.
