(* ===== verification/RepackPad.v ===== *)
(** * Packing, padding and unpadding, from end to end

    [out_repacks] joins what the repacketizer writes with the parser;
    [unpad_spec] and [pad_spec] are the two operations in place. *)

From S2P Require Import Prelude Memory Packet PacketProofs PacketBuild Extensions ExtProofs Repacketizer RepackProofs RepackParse RepackCat.

(** ** The packet that was written *)

(** The frames [fl] of [mem] and the extensions [exts] are in the packet of [ret] bytes
    at [data] of [mem'], and nothing else changed. *)
Record repacked (mem : list Z) (toc : Z) (sd : bool) (fl : list (Z * Z)) (exts : list opus_extension_data)
    (mem' : list Z) (data ret : Z) : Prop := {
  rk_mem : mem' = splice mem data (slice mem' data ret);
  rk_ret : 0 < ret;
  rk_bytes : bytes (slice mem' data ret);
  rk_parse : forall size tail, len fl <= len size -> bytes tail -> (sd = false -> tail = []) ->
    let packet := slice mem' data ret ++ tail in
    exists r, opus_packet_parse_impl packet (len packet) sd size = Ok r /\
      r.(pr_count) = len fl /\ Z.land r.(pr_toc) 0xFC = Z.land toc 0xFC /\
      (forall i f n, fl !! i = Some (f, n) -> frame_bytes packet r (Z.of_nat i) = slice mem f n) /\
      r.(pr_packet_offset) = ret;
  rk_exts : forall size, len fl <= len size ->
    exists r l, opus_packet_parse_impl (slice mem' data ret) ret sd size = Ok r /\
      opus_packet_extensions_parse (slice mem' data ret) r.(pr_padding) r.(pr_padding_len) (len exts) = Ok l /\
      Forall2 (same_ext mem (slice mem' data ret)) (ordered exts) l
}.

(** The extensions that a parser finds behind bytes 0x01. *)
Lemma ones_parse m P p exts n :
  holds P p (repeat 1 (Z.to_nat (n - exts_len m exts)) ++ exts_bytes m 0 (ordered exts)) ->
  Forall (ext_ok m) exts -> exts_len m exts <= n ->
  exists l, opus_packet_extensions_parse P p n (len exts) = Ok l /\ Forall2 (same_ext m P) (ordered exts) l.
Proof.
  intros Hh Ho He. assert (0 <= exts_len m exts) by apply len_nonneg. unfold opus_packet_extensions_parse.
  destruct (ordered_ok _ _ Ho) as [Hoo Has]. apply holds_app in Hh as [Hh1 Hh2].
  set (k := Z.to_nat (n - exts_len m exts)) in *. assert (Lk : len (repeat 1 k) = Z.of_nat k) by (unfold len; by rewrite repeat_length).
  rewrite Lk in Hh2. rewrite (parse_loop_ones P k) by (done || lia).
  replace (n - Z.of_nat k) with (len (exts_bytes m 0 (ordered exts))) by (unfold exts_len in *; lia).
  destruct (parse_loop_bytes P m (ordered exts) (Z.to_nat n + 1 - k) (p + Z.of_nat k) 0 (len exts) []) as (l & E & Hl);
    try (done || lia).
  - fold (exts_len m exts). lia.
  - change (len (@nil opus_extension_data)) with 0.
    assert (Hp : ordered exts ≡ₚ exts).
    { apply ordered_perm. eapply Forall_impl; [|exact Ho]. intros e' He'. apply (eo_frame _ _ He'). }
    assert (len (ordered exts) = len exts) by (unfold len; by rewrite Hp). lia.
  - by exists l.
Qed.

(** The extensions that a parser finds in the padding. *)
Lemma padding_parses m P p exts n :
  holds P p (padding_bytes m exts n) -> Forall (ext_ok m) exts -> exts_len m exts <= n ->
  exists l, opus_packet_extensions_parse P p n (len exts) = Ok l /\ Forall2 (same_ext m P) (ordered exts) l.
Proof.
  intros Hh Ho He. destruct exts as [|e es]; [|by apply ones_parse].
  exists []. split; [|apply Forall2_nil]. unfold opus_packet_extensions_parse. destruct (decide (n = 0)) as [->|]; [done|].
  unfold padding_bytes in Hh. rewrite exts_len_nil in *.
  replace (Z.to_nat n) with (S (Z.to_nat (n - 1))) in Hh by lia.
  cbn [repeat] in Hh. apply holds_cons in Hh as [E _].
  replace (Z.to_nat n + 1)%nat with (S (S (Z.to_nat (n - 1)))) by lia. cbn [parse_loop].
  rewrite Z.gtb_ltb. destruct (Z.ltb_spec 0 n); [|lia]. rewrite E. cbn [mbind res_bind].
  change (Z.shiftr 0 1) with 0. cbn [Z.eqb mbind res_bind andb]. unfold skip_extension.
  destruct (Z.eqb_spec n 0); [lia|]. rewrite E. cbn [mbind res_bind].
  change (Z.shiftr 0 1) with 0. change (Z.land 0 1) with 0. done.
Qed.

Lemma written_repacked mem toc sd pad fl exts maxlen amount H data :
  bytes mem -> 0 <= toc < 256 -> lens_ok toc (map snd fl) -> Forall (in_mem mem) fl ->
  0 <= data -> data + maxlen <= len mem ->
  written mem toc sd pad (map snd fl) fl exts maxlen amount H ->
  let P := packet_bytes mem H fl exts (pad_data amount) in
  let ret := len H + sumZ (map snd fl) + pad_data amount in
  repacked mem toc sd fl exts (splice mem data P) data ret /\ ret <= maxlen.
Proof.
  intros Hm Ht Hl Hf Hd Hr Hw P ret. pose proof (wr_size _ _ _ _ _ _ _ _ _ _ Hw) as Hsz.
  assert (LP : len P = ret) by (by apply (len_packet mem toc sd pad fl exts maxlen amount H)).
  assert (Es : slice (splice mem data P) data ret = P) by (rewrite <- LP; apply slice_splice_same; lia).
  assert (Lfl : len (map snd fl) = len fl) by (unfold len; by rewrite length_map).
  split; [|lia]. split; rewrite ?Es.
  - done.
  - pose proof (header_pos mem toc sd pad fl exts maxlen amount H Hl Hw). pose proof (sumZ_nonneg _ (proj1 Hl)).
    destruct (pad_split amount (wr_amount _ _ _ _ _ _ _ _ _ _ Hw)). lia.
  - by apply (bytes_packet mem toc sd pad fl exts maxlen amount H).
  - intros size tail Hs Hbt Ht0.
    destruct (packet_parses mem toc sd pad fl exts maxlen amount H tail Hm Ht Hl Hf Hw (conj Hbt Ht0) size ltac:(lia))
      as (r & E & R1 & R2 & R3 & _ & _ & _ & R7).
    exists r. fold P in E, R3, R7. split_and!; [done|lia|done|done|lia].
  - intros size Hs.
    destruct (packet_parses mem toc sd pad fl exts maxlen amount H [] Hm Ht Hl Hf Hw (conj (List.Forall_nil _) (fun _ => eq_refl)) size ltac:(lia))
      as (r & E & R1 & R2 & R3 & R4 & R5 & R6 & R7). fold P in E, R6, R7. rewrite app_nil_r in *.
    destruct (wr_exts _ _ _ _ _ _ _ _ _ _ Hw) as [Ho He].
    destruct (pad_split amount (wr_amount _ _ _ _ _ _ _ _ _ _ Hw)) as [_ Hpd]. pose proof (sumZ_nonneg _ (proj1 Hl)).
    destruct (padding_parses mem P (pr_padding r) exts (pad_data amount)) as (l & El & Hl2); try done.
    { pose proof (len_nonneg H). assert (Lpb : len (padding_bytes mem exts (pad_data amount)) = pad_data amount)
        by (apply len_padding_bytes; lia).
      split_and!; [lia|rewrite Lpb, LP; unfold ret; lia|]. rewrite Lpb, <- R4. by rewrite R6, <- R4. }
    exists r, l. rewrite R4. rewrite <- LP. by split_and!.
Qed.

(** ** Output of a range of frames *)

Lemma lookup_rd (l : list Z) i x : l !! i = Some x -> l.[Z.of_nat i] = x.
Proof.
  intros H. unfold rd. destruct (Z.ltb_spec (Z.of_nat i) 0); [lia|]. rewrite Nat2Z.id. by apply nth_lookup_Some.
Qed.

(** The frames [begin], ..., [end_ - 1] as pointers and sizes. *)
Lemma range_lookup mem rp begin end_ i f n :
  rp_ok mem rp -> 0 <= begin /\ begin < end_ <= rp.(rp_nb_frames) ->
  range_frames rp begin end_ !! i = Some (f, n) ->
  f = rp.(rp_frames).[begin + Z.of_nat i] /\ n = rp.(rp_len).[begin + Z.of_nat i] /\ Z.of_nat i < end_ - begin.
Proof.
  intros Hrp Hr H. unfold range_frames in H. apply lookup_zip_Some in H as [H1 H2].
  destruct (ro_arrays _ _ Hrp) as (A1 & A2 & _). pose proof (ro_nb _ _ Hrp).
  assert (Hi : Z.of_nat i < end_ - begin).
  { pose proof (len_slice (rp_frames rp) begin (end_ - begin) ltac:(lia) ltac:(lia) ltac:(lia)) as L.
    apply lookup_lt_Some in H1. unfold len in L. lia. }
  apply lookup_rd in H1, H2. unfold range_lens in H2. rewrite rd_slice in H1, H2 by lia. done.
Qed.

Lemma range_in_mem mem rp begin end_ :
  rp_ok mem rp -> 0 <= begin /\ begin < end_ <= rp.(rp_nb_frames) -> Forall (in_mem mem) (range_frames rp begin end_).
Proof.
  intros Hrp Hr. apply Forall_lookup. intros i [f n] Hi.
  destruct (range_lookup mem rp begin end_ i f n Hrp Hr Hi) as (-> & -> & Hlt).
  destruct (ro_frame _ _ Hrp (begin + Z.of_nat i) ltac:(lia)) as (H1 & H2 & H3). split_and!; cbn [fst snd]; lia.
Qed.

Lemma out_repacks mem rp data maxlen begin end_ sd pad extensions :
  bytes mem -> rp_ok mem rp -> 0 <= begin /\ begin < end_ <= rp.(rp_nb_frames) ->
  0 <= data -> 0 <= maxlen -> data + maxlen <= len mem ->
  paddings_apart rp data maxlen begin end_ -> Forall (ext_src mem data maxlen) extensions ->
  range_clear mem rp data maxlen begin end_ sd pad extensions ->
  match opus_repacketizer_out_range_impl mem rp begin end_ data maxlen sd pad extensions with
  | Fault => False
  | Err c => c < 0 /\ (extensions = [] -> no_paddings rp begin end_ ->
      maxlen < len (plain_header rp.(rp_toc) sd (range_lens rp begin end_)) + sumZ (range_lens rp begin end_))
  | Ok (mem', ret) => ret <= maxlen /\ (pad = true -> ret = maxlen) /\
      exists exts, repacked mem rp.(rp_toc) sd (range_frames rp begin end_) exts mem' data ret /\
        (extensions = [] -> no_paddings rp begin end_ -> exts = []) /\
        (pad = false -> exts = [] ->
         ret = len (plain_header rp.(rp_toc) sd (range_lens rp begin end_)) + sumZ (range_lens rp begin end_)) /\
        exists total, out_gather (Z.to_nat (end_ - begin)) begin begin mem rp total extensions = Ok exts
  end.
Proof.
  intros Hm Hrp Hr Hd Hmx Hroom Hpa He Hcl.
  destruct (out_spec mem rp data maxlen begin end_ sd pad extensions) as [(c & Hc & -> & Hn)|(exts & amount & H & Hw & Hx & Hg & ->)];
    try done.
  pose proof (snd_range mem rp begin end_ Hrp Hr) as Es.
  pose proof (range_ok mem rp begin end_ Hrp Hr) as Hlo. rewrite Es in Hw, Hlo.
  destruct (written_repacked mem rp.(rp_toc) sd pad (range_frames rp begin end_) exts maxlen amount H data) as [Hrk Hle];
    try done; [apply (ro_toc _ _ Hrp)|by apply range_in_mem|].
  rewrite <- Es in Hrk, Hle. split_and!; [done|intros E; rewrite Es; by apply (wr_pad _ _ _ _ _ _ _ _ _ _ Hw)|].
  exists exts. split_and!; try done. intros E1 E2. destruct (wr_plain _ _ _ _ _ _ _ _ _ _ Hw E1 E2) as [-> ->].
  rewrite Es. change (pad_data 0) with 0. lia.
Qed.

(** ** The header that a parsed packet had is no smaller than the plain one *)

Lemma len_plain toc sd lens :
  lens_ok toc lens ->
  len (plain_header toc sd lens) = (if len lens <=? 2 then 1 else 2) + len (vbr_header lens) + len (sd_header sd lens).
Proof.
  intros Hl. pose proof Hl as (_ & Hc & _). unfold plain_header. destruct (Z.leb_spec (len lens) 2).
  - rewrite header012_short, len_app by lia. pose proof (len_short toc lens Hl ltac:(lia)) as E.
    rewrite len_header3 in E. change (len (pad_header 0)) with 0 in E. change (len (sd_header false lens)) with 0 in E. lia.
  - rewrite len_header3. change (len (pad_header 0)) with 0. lia.
Qed.

Lemma len_sizes l : len (concat (map encode_size l)) = hdrto l (length l).
Proof.
  induction l as [|x l IH] using rev_ind; [done|]. rewrite map_app, concat_app, len_app, IH. cbn [map concat].
  rewrite app_nil_r, len_encode_size, length_app. cbn [length]. rewrite Nat.add_1_r. cbn [hdrto].
  assert (Ex : (l ++ [x]).[Z.of_nat (length l)] = x).
  { change (Z.of_nat (length l)) with (len l). rewrite <- (Z.add_0_r (len l)). by rewrite rd_app_r by lia. }
  rewrite Ex. f_equal. apply hdrto_ext. intros i Hi. rewrite rd_app_l; [done|unfold len; lia].
Qed.

Lemma plain_header_min data toc sd r lens :
  parse_ok data sd r -> lens_ok toc lens -> len lens = r.(pr_count) ->
  (forall i, 0 <= i < len lens -> lens.[i] = r.(pr_size).[i]) ->
  len (plain_header toc sd lens) <= r.(pr_payload_offset).
Proof.
  intros Hp Hl Hc Hs. rewrite len_plain by done. destruct (po_header _ _ _ Hp) as (cbr & Hcbr & Hh).
  pose proof (po_count _ _ _ Hp). rewrite Hc.
  assert (Hsd : len (sd_header sd lens) = if sd then size_bytes r.(pr_size).[r.(pr_count) - 1] else 0).
  { unfold sd_header. destruct sd; [|done]. rewrite len_encode_size. unfold last_len. rewrite Hs, Hc by lia. done. }
  assert (Hv : len (vbr_header lens) <= if cbr then 0 else hdrto r.(pr_size) (Z.to_nat (r.(pr_count) - 1))).
  { unfold vbr_header. assert (E : len (concat (map encode_size (removelast lens))) = hdrto r.(pr_size) (Z.to_nat (r.(pr_count) - 1))).
    { rewrite len_sizes. pose proof (len_removelast lens ltac:(lia)) as L.
      replace (length (removelast lens)) with (Z.to_nat (r.(pr_count) - 1)) by (unfold len in *; lia).
      apply hdrto_ext. intros i Hi. rewrite rd_removelast, Hs by lia. done. }
    destruct (vbr lens) eqn:Ev.
    - rewrite E. destruct cbr; [|lia]. exfalso. unfold vbr in Ev. apply existsb_exists in Ev as (x & Hx & Hne).
      apply (In_nth _ _ 0) in Hx as (k & Hk & <-). apply negb_true_iff, Z.eqb_neq in Hne. apply Hne.
      rewrite (Hs 0) by lia. rewrite <- (Hcbr eq_refl (Z.of_nat k)) by (unfold len in Hc; lia).
      rewrite <- Hs by (unfold len; lia). unfold rd. destruct (Z.ltb_spec (Z.of_nat k) 0); [lia|]. by rewrite Nat2Z.id.
    - change (len (@nil Z)) with 0. destruct cbr; [lia|]. rewrite <- E. apply len_nonneg. }
  rewrite Hsd. lia.
Qed.

(** No packet with frames of these sizes is shorter than the plain one. *)
Lemma plain_min data toc sd r lens :
  parse_ok data sd r -> lens_ok toc lens -> len lens = r.(pr_count) ->
  (forall i, 0 <= i < len lens -> lens.[i] = r.(pr_size).[i]) ->
  len (plain_header toc sd lens) + sumZ lens <= r.(pr_padding).
Proof.
  intros Hp Hlo Hc Hs. pose proof Hlo as (_ & Hl & _). pose proof (plain_header_min data toc sd r lens Hp Hlo Hc Hs) as Hmin.
  pose proof (parsed_offsets _ _ _ lens Hp ltac:(lia) ltac:(intros; symmetry; auto)) as Hoff.
  destruct (po_padding _ _ _ Hp) as [-> _]. rewrite <- Hc, Hoff, <- Hs by lia.
  rewrite <- Z.add_assoc, <- sumZ_take_S by lia. replace (len lens - 1 + 1) with (len lens) by lia.
  unfold len at 2. rewrite Nat2Z.id, firstn_all. lia.
Qed.

(** ** One packet in a fresh repacketizer *)

Lemma fresh_ok mem : rp_ok mem (opus_repacketizer_init rp_alloc).
Proof. split; cbn; try done; intros; lia. Qed.

Lemma discard_ok mem rp :
  rp_ok mem rp -> rp_ok mem (discard_padding rp) /\ no_paddings (discard_padding rp) 0 rp.(rp_nb_frames).
Proof.
  intros Hrp. pose proof Hrp as [Ht Hnb (A1 & A2 & A3 & A4) Hs Hf Hp]. set (n := Z.to_nat (rp_nb_frames rp)).
  assert (Ln : forall v : Z, len (repeat v n) = rp_nb_frames rp) by (intros v; unfold len, n; rewrite repeat_length; lia).
  assert (Hz : no_paddings (discard_padding rp) 0 (rp_nb_frames rp)).
  { intros i Hi. cbn [discard_padding rp_padding_len]. fold n. rewrite rd_app_l by (rewrite Ln; lia).
    unfold rd. destruct (Z.ltb_spec i 0); [done|]. apply nth_repeat_lt. unfold n. lia. }
  split; [|done]. split; cbn [discard_padding rp_toc rp_nb_frames rp_frames rp_len rp_framesize rp_paddings rp_padding_len]; try done.
  - fold n. rewrite !len_app, !Ln. unfold len in *. rewrite !length_drop. unfold n. split_and!; lia.
  - intros i Hi. specialize (Hz i ltac:(lia)). cbn [discard_padding rp_padding_len] in Hz. rewrite Hz. lia.
Qed.

(** Frames that follow each other from [base] on can be moved to [dst + k] if that is no later. *)
Lemma consec_apart m dst k fl base :
  Forall (in_mem m) fl -> (forall i f n, fl !! i = Some (f, n) -> f = base + sumZ (take i (map snd fl))) ->
  dst + k <= base -> frames_apart m dst k fl.
Proof.
  revert k base. induction fl as [|[f n] fl IH]; intros k base Hin Hf Hk; [done|].
  apply Forall_cons_1 in Hin as [(H1 & H2 & H3) Hin]. cbn [fst snd] in *.
  pose proof (Hf 0%nat f n eq_refl) as E. change (sumZ (take 0 (map snd ((f, n) :: fl)))) with 0 in E.
  split_and!; [done|done|done|lia|]. apply (IH _ (base + n)); [done| |lia].
  intros i f' n' Hi. rewrite (Hf (S i) f' n' Hi). cbn [map snd take].
  change (sumZ (n :: take i (map snd fl))) with (n + sumZ (take i (map snd fl))). lia.
Qed.

Section One.
Context (mem : list Z) (data n : Z) (sd : bool).
Hypothesis Hmem : bytes mem.
Hypothesis Hdata : 0 <= data.
Hypothesis Hn : data + n <= len mem.
Let packet := slice mem data n.
Let fresh := opus_repacketizer_init rp_alloc.

(** The repacketizer holds the frames of [r], parsed from the packet at [data]. *)
Record loaded (rp : OpusRepacketizer) (r : parsed) : Prop := {
  ld_ok : rp_ok mem rp;
  ld_toc : rp.(rp_toc) = r.(pr_toc);
  ld_nb : rp.(rp_nb_frames) = r.(pr_count) /\ 1 <= r.(pr_count);
  ld_parse : parse_ok packet sd r;
  ld_frames : forall i f k, range_frames rp 0 rp.(rp_nb_frames) !! i = Some (f, k) ->
    Z.of_nat i < r.(pr_count) /\ f = data + r.(pr_frames).[Z.of_nat i] /\ k = r.(pr_size).[Z.of_nat i];
  ld_padding : rp.(rp_paddings).[0] = data + r.(pr_padding) /\ rp.(rp_padding_len).[0] = r.(pr_padding_len) /\
    forall i, 0 < i < r.(pr_count) -> rp.(rp_padding_len).[i] = 0
}.

(** The parse result does not depend on what the arrays held. *)
Lemma cat_fresh :
  match opus_packet_parse_impl packet n sd (repeat 0 48) with
  | Ok r => exists rp, opus_repacketizer_cat_impl mem fresh data n sd = Ok (rp, OPUS_OK) /\ loaded rp r
  | Err _ => exists rp c, opus_repacketizer_cat_impl mem fresh data n sd = Ok (rp, c) /\ c < 0
  | Fault => False
  end.
Proof.
  destruct (cat_spec mem fresh data n sd Hmem (fresh_ok mem) Hdata Hn) as (rp & ret & E & Hok & Hres). rewrite E. fold packet in Hres.
  destruct Hres as [(Hret & _ & _ & _ & _ & Hno)|(-> & H1 & r & Hp & Er & Et & Hap)].
  - specialize (Hno eq_refl). change (rp_len fresh) with (repeat 0 48) in Hno.
    destruct (opus_packet_parse_impl packet n sd (repeat 0 48)) as [r|c|] eqn:Er; [by destruct (Hno r)|by exists rp, ret|].
    destruct (Z.leb_spec 1 n).
    + assert (Hlp : len packet = n) by (apply len_slice; lia).
      pose proof (sat_parse_impl packet sd (repeat 0 48) (bytes_slice _ _ _ Hmem)) as Hsat. rewrite Hlp, Er in Hsat.
      apply Hsat. intros c _ Hc. exact Hc.
    + unfold opus_packet_parse_impl in Er. destruct (Z.ltb_spec n 0); [done|]. by destruct (Z.eqb_spec n 0); [|lia].
  - change (drop (Z.to_nat (rp_nb_frames fresh)) (rp_len fresh)) with (repeat 0 48) in Er. rewrite Er.
    exists rp. split; [done|]. destruct Hap as [Hnb _ Hnew Hpd Hrest]. change (rp_nb_frames fresh) with 0 in *.
    rewrite Z.add_0_l in Hnb. pose proof (po_count _ _ _ Hp) as Hc. split; try done; [lia| |].
    2: { destruct Hpd. by split_and!. }
    intros i f k Hi. pose proof (range_lookup mem rp 0 (rp_nb_frames rp) i f k Hok ltac:(lia) Hi) as (-> & -> & Hlt).
    rewrite Z.add_0_l. destruct (Hnew (Z.of_nat i) ltac:(lia)) as [<- <-]. rewrite !Z.add_0_l. split_and!; [lia|done|done].
Qed.

(** The frames in memory are those of the parsed packet. *)
Lemma loaded_bytes rp r i f k :
  1 <= n -> loaded rp r -> range_frames rp 0 rp.(rp_nb_frames) !! i = Some (f, k) ->
  slice mem f k = frame_bytes packet r (Z.of_nat i).
Proof.
  intros H1 Hl Hi. destruct (ld_frames _ _ Hl i f k Hi) as (Hlt & -> & ->). pose proof (ld_parse _ _ Hl) as Hp.
  destruct (parsed_inside _ _ _ Hp (Z.of_nat i) ltac:(lia)) as [P1 P2].
  destruct (po_inside _ _ _ Hp) as [P3 P4]. destruct (po_padding _ _ _ Hp) as [_ P5].
  assert (Hlp : len packet = n) by (apply len_slice; lia).
  pose proof (po_sizes _ _ _ Hp (Z.of_nat i) ltac:(lia)). unfold frame_bytes, packet. by rewrite slice_slice by lia.
Qed.

Lemma loaded_len rp r : loaded rp r -> len (range_frames rp 0 rp.(rp_nb_frames)) = r.(pr_count).
Proof.
  intros Hl. pose proof (ld_ok _ _ Hl) as Hrp. destruct (ld_nb _ _ Hl) as [Hnb H1].
  pose proof (snd_range mem rp 0 rp.(rp_nb_frames) Hrp ltac:(lia)) as Es.
  pose proof (len_range mem rp 0 rp.(rp_nb_frames) Hrp ltac:(lia)) as L. rewrite Es in L.
  unfold len in *. rewrite length_map in L. lia.
Qed.

(** The sizes it holds. *)
Lemma loaded_sizes rp r :
  loaded rp r ->
  let lens := range_lens rp 0 rp.(rp_nb_frames) in
  lens = map snd (range_frames rp 0 rp.(rp_nb_frames)) /\ lens_ok rp.(rp_toc) lens /\ len lens = r.(pr_count) /\
  (forall i, 0 <= i < len lens -> lens.[i] = r.(pr_size).[i]).
Proof.
  intros Hl lens. pose proof (ld_ok _ _ Hl) as Hrp. destruct (ld_nb _ _ Hl) as [Hnb Hc1].
  assert (Hr : 0 <= 0 /\ 0 < rp.(rp_nb_frames) <= rp.(rp_nb_frames)) by lia.
  pose proof (snd_range mem rp 0 rp.(rp_nb_frames) Hrp Hr) as Es. fold lens in Es.
  pose proof (len_range mem rp 0 rp.(rp_nb_frames) Hrp Hr) as L. fold lens in L. rewrite Z.sub_0_r in L.
  pose proof (loaded_len rp r Hl) as Lf. split_and!; [done|by apply (range_ok mem)|lia|]. intros i Hi.
  destruct (lookup_lt_is_Some_2 (range_frames rp 0 rp.(rp_nb_frames)) (Z.to_nat i)) as [[f k] Hik];
    [unfold len in *; lia|]. destruct (ld_frames _ _ Hl _ f k Hik) as (_ & _ & Hk).
  rewrite Z2Nat.id in Hk by lia. rewrite <- Hk, Es. rewrite <- (Z2Nat.id i) by lia. apply lookup_rd.
  by rewrite list_lookup_fmap, Hik.
Qed.

(** In place, or anywhere before the packet: the plain packet fits and no frame is
    overwritten before it is moved. *)
Lemma loaded_plain rp r dst :
  1 <= n -> loaded rp r -> dst <= data ->
  let lens := range_lens rp 0 rp.(rp_nb_frames) in
  frames_apart mem dst (len (plain_header rp.(rp_toc) sd lens)) (range_frames rp 0 rp.(rp_nb_frames)) /\
  len (plain_header rp.(rp_toc) sd lens) + sumZ lens <= r.(pr_padding).
Proof.
  intros H1 Hl Hdst lens. destruct (loaded_sizes rp r Hl) as (Es & Hlo & Hc & Hs). fold lens in Es, Hlo, Hc, Hs.
  pose proof (ld_parse _ _ Hl) as Hp. destruct (ld_nb _ _ Hl) as [Hnb Hc1].
  assert (Hs' : forall i, 0 <= i < len lens -> r.(pr_size).[i] = lens.[i]) by (intros; symmetry; auto).
  pose proof (parsed_offsets _ _ _ _ Hp (eq_sym Hc) Hs') as Hoff.
  pose proof (plain_header_min packet rp.(rp_toc) sd r lens Hp Hlo Hc Hs) as Hmin.
  split; [|by apply (plain_min packet)].
  apply (consec_apart _ _ _ _ (data + r.(pr_payload_offset))); [apply range_in_mem; [apply Hl|lia]| |lia].
  intros i f k Hik. destruct (ld_frames _ _ Hl i f k Hik) as (Hlt & -> & _). rewrite Hoff, Nat2Z.id, <- Es by lia. lia.
Qed.

(** Unpadding to [dst] with room for the packet. *)
Lemma unpad_to rp r dst maxlen :
  1 <= n -> loaded rp r -> 0 <= dst <= data -> n <= maxlen -> dst + maxlen <= len mem ->
  exists mem' ret,
    opus_repacketizer_out_range_impl mem (discard_padding rp) 0 rp.(rp_nb_frames) dst maxlen sd false [] = Ok (mem', ret) /\
    ret <= r.(pr_padding) /\
    repacked mem rp.(rp_toc) sd (range_frames rp 0 rp.(rp_nb_frames)) [] mem' dst ret /\
    ret = len (plain_header rp.(rp_toc) sd (range_lens rp 0 rp.(rp_nb_frames))) + sumZ (range_lens rp 0 rp.(rp_nb_frames)).
Proof.
  intros H1 Hl Hdst Hmx Hroom. pose proof (ld_ok _ _ Hl) as Hrp. destruct (ld_nb _ _ Hl) as [Hnb Hc1].
  destruct (discard_ok mem rp Hrp) as [Hrp' Hno]. destruct (loaded_plain rp r dst H1 Hl ltac:(lia)) as [Hfa Hsz].
  destruct (po_inside _ _ _ (ld_parse _ _ Hl)) as [P3 P4]. destruct (po_padding _ _ _ (ld_parse _ _ Hl)) as [_ P5].
  assert (Hlp : len packet = n) by (apply len_slice; lia).
  set (nb := rp.(rp_nb_frames)) in *. set (rpd := discard_padding rp) in *.
  assert (Hr : 0 <= 0 /\ 0 < nb <= rpd.(rp_nb_frames)) by (cbn; fold nb; lia).
  pose proof (out_repacks mem rpd dst maxlen 0 nb sd false [] Hmem Hrp' Hr ltac:(lia) ltac:(lia) ltac:(lia)) as Ho.
  assert (Hpa : paddings_apart rpd dst maxlen 0 nb) by (intros i Hi Hp; rewrite (Hno i Hi) in Hp; lia).
  assert (Hcl : range_clear mem rpd dst maxlen 0 nb sd false []) by (right; by split_and!).
  specialize (Ho Hpa ltac:(apply List.Forall_nil) Hcl).
  destruct (opus_repacketizer_out_range_impl mem rpd 0 nb dst maxlen sd false []) as [[mem' ret]|c|] eqn:Eo; [| |done].
  - destruct Ho as (Hle & _ & exts & Hrk & Hex & Hpl & _). rewrite (Hex eq_refl Hno) in Hrk.
    specialize (Hpl eq_refl (Hex eq_refl Hno)). exists mem', ret. split_and!; [done| |done|exact Hpl]. rewrite Hpl. exact Hsz.
  - destruct Ho as [_ Ho]. specialize (Ho eq_refl Hno). fold nb in Hsz.
    change (rp_toc rpd) with (rp_toc rp) in Ho. change (range_lens rpd 0 nb) with (range_lens rp 0 nb) in Ho. lia.
Qed.
End One.

(** ** Same frames *)

(** Two parsed packets with the same frames of the same kind. *)
Record same_frames (p p' : list Z) (r r' : parsed) : Prop := {
  sf_count : r'.(pr_count) = r.(pr_count);
  sf_toc : Z.land r'.(pr_toc) 0xFC = Z.land r.(pr_toc) 0xFC;
  sf_frames : forall i, 0 <= i < r.(pr_count) -> frame_bytes p' r' i = frame_bytes p r i
}.

(** No packet with the same frames is shorter than the plain one. *)
Lemma loaded_shortest mem data n sd rp r q rq :
  0 <= data -> data + n <= len mem -> loaded mem data n sd rp r -> bytes q -> parse_ok q sd rq ->
  same_frames (slice mem data n) q r rq ->
  let lens := range_lens rp 0 rp.(rp_nb_frames) in
  len (plain_header rp.(rp_toc) sd lens) + sumZ lens <= rq.(pr_padding).
Proof.
  intros Hd Hn Hl Hq Hp [S1 _ S3] lens. destruct (loaded_sizes mem data n sd rp r Hl) as (_ & Hlo & Hc & Hs).
  fold lens in Hlo, Hc, Hs. pose proof (ld_parse _ _ _ _ _ _ Hl) as Hr.
  assert (Hsize : forall p sd r i, parse_ok p sd r -> 0 <= i < r.(pr_count) -> len (frame_bytes p r i) = r.(pr_size).[i]).
  { intros p0 sd0 r0 i H0 Hi. destruct (parsed_inside _ _ _ H0 i Hi) as [I1 I2]. pose proof (po_sizes _ _ _ H0 i Hi).
    destruct (po_inside _ _ _ H0) as [I3 I4]. destruct (po_padding _ _ _ H0) as [_ I5]. apply len_slice; lia. }
  apply (plain_min q); try done; [lia|]. intros i Hi. rewrite Hs by done.
  rewrite <- (Hsize _ _ _ i Hr), <- (Hsize _ _ _ i Hp) by lia. by rewrite S3 by lia.
Qed.

Lemma repacked_same mem data n sd rp r exts mem' dst ret size tail :
  bytes mem -> 0 <= data -> data + n <= len mem -> 1 <= n -> loaded mem data n sd rp r ->
  repacked mem rp.(rp_toc) sd (range_frames rp 0 rp.(rp_nb_frames)) exts mem' dst ret ->
  48 <= len size -> bytes tail -> (sd = false -> tail = []) ->
  exists r', opus_packet_parse_impl (slice mem' dst ret ++ tail) (len (slice mem' dst ret ++ tail)) sd size = Ok r' /\
    same_frames (slice mem data n) (slice mem' dst ret ++ tail) r r' /\ r'.(pr_packet_offset) = ret.
Proof.
  intros Hm Hd Hn H1 Hl Hrk Hs Hbt Ht. pose proof (loaded_len _ _ _ _ _ _ Hl) as Lf.
  pose proof (po_count _ _ _ (ld_parse _ _ _ _ _ _ Hl)) as Hc.
  destruct (rk_parse _ _ _ _ _ _ _ _ Hrk size tail ltac:(lia) Hbt Ht) as (r' & E & R1 & R2 & R3 & R4).
  exists r'. split_and!; [done| |done]. split; [lia|by rewrite R2, (ld_toc _ _ _ _ _ _ Hl)|].
  intros i Hi. destruct (lookup_lt_is_Some_2 (range_frames rp 0 rp.(rp_nb_frames)) (Z.to_nat i)) as [[f k] Hik];
    [unfold len in *; lia|].
  rewrite <- (Z2Nat.id i) by lia. rewrite (R3 _ _ _ Hik). by apply (loaded_bytes mem data n sd Hd Hn rp).
Qed.

(** ** Padding *)

Section Pad.
Context (mem : list Z) (data n new_len : Z) (pad : bool).
Hypothesis Hmem : bytes mem.
Hypothesis Hdata : 0 <= data.
Hypothesis Hn : 1 <= n < new_len.
Hypothesis Hroom : data + new_len <= len mem.
Let packet := slice mem data n.
Let mem2 := mem ++ packet.

Lemma pad_copy : bytes mem2 /\ len mem2 = len mem + n /\ slice mem2 (len mem) n = packet.
Proof.
  assert (Lp : len packet = n) by (apply len_slice; lia). split_and!.
  - apply bytes_app; [done|by apply bytes_slice].
  - unfold mem2. rewrite len_app. lia.
  - unfold mem2. rewrite <- Lp. pose proof (slice_mid mem packet []) as E. by rewrite app_nil_r in E.
Qed.

(** The copy lies behind the buffer. *)
Lemma pad_clear rp r k :
  loaded mem2 (len mem) n false rp r -> k + sumZ (range_lens rp 0 rp.(rp_nb_frames)) <= new_len ->
  frames_apart mem2 data k (range_frames rp 0 rp.(rp_nb_frames)).
Proof.
  intros Hl Hk. destruct (ld_nb _ _ _ _ _ _ Hl) as [Hnb Hc].
  assert (Hr : 0 <= 0 /\ 0 < rp.(rp_nb_frames) <= rp.(rp_nb_frames)) by lia.
  pose proof (snd_range mem2 rp 0 _ (ld_ok _ _ _ _ _ _ Hl) Hr) as Es.
  apply (frames_apart_disjoint _ _ new_len); [rewrite <- Es; lia|]. apply Forall_lookup. intros i [f l] Hi.
  pose proof (range_in_mem mem2 rp 0 _ (ld_ok _ _ _ _ _ _ Hl) Hr) as Hin. rewrite Forall_lookup in Hin.
  destruct (Hin i (f, l) Hi) as (H1 & H2 & H3). cbn [fst snd] in *. split_and!; [done|done|done|].
  destruct (ld_frames _ _ _ _ _ _ Hl i f l Hi) as (Hlt & -> & _).
  destruct (parsed_inside _ _ _ (ld_parse _ _ _ _ _ _ Hl) (Z.of_nat i) ltac:(lia)). lia.
Qed.

Lemma pad_impl_spec extensions :
  Forall (ext_src mem2 data new_len) extensions ->
  match opus_packet_parse packet n (repeat 0 48) with
  | Ok r =>
      match opus_packet_pad_impl mem data n new_len pad extensions with
      | Fault => False
      | Err c => c < 0 /\ (extensions = [] -> r.(pr_padding_len) <> 0)
      | Ok (mem', ret) => 0 < ret <= new_len /\ (pad = true -> ret = new_len) /\
          mem' = splice mem data (slice mem' data ret) /\
          exists r', opus_packet_parse (slice mem' data ret) ret (repeat 0 48) = Ok r' /\
            same_frames packet (slice mem' data ret) r r'
      end
  | Err _ => exists c, c < 0 /\ opus_packet_pad_impl mem data n new_len pad extensions = Err c
  | Fault => False
  end.
Proof.
  intros Hext. destruct pad_copy as (Hb2 & L2 & Es). unfold opus_packet_parse, opus_packet_pad_impl, opus_repacketizer_cat.
  destruct (Z.ltb_spec n 1); [lia|]. destruct (Z.eqb_spec n new_len); [lia|]. rewrite Z.gtb_ltb.
  destruct (Z.ltb_spec new_len n); [lia|]. rewrite load_ok by lia. cbn [mbind res_bind]. fold packet mem2.
  pose proof (cat_fresh mem2 (len mem) n false Hb2 (len_nonneg mem) ltac:(lia)) as Hcat. rewrite Es in Hcat.
  destruct (opus_packet_parse_impl packet n false (repeat 0 48)) as [r|c|]; [| |done].
  2: { destruct Hcat as (rp & c' & -> & Hc). cbn [mbind res_bind]. destruct (Z.eqb_spec c' OPUS_OK) as [->|]; [done|]. by exists c'. }
  destruct Hcat as (rp & -> & Hl). cbn [mbind res_bind]. change (negb (OPUS_OK =? OPUS_OK)) with false. cbv iota.
  destruct (ld_nb _ _ _ _ _ _ Hl) as [Hnb Hc]. pose proof (ld_ok _ _ _ _ _ _ Hl) as Hrp.
  assert (Hr : 0 <= 0 /\ 0 < rp.(rp_nb_frames) <= rp.(rp_nb_frames)) by lia.
  destruct (ld_padding _ _ _ _ _ _ Hl) as (Hp1 & Hp2 & Hp3).
  destruct (parsed_inside _ _ _ (ld_parse _ _ _ _ _ _ Hl) 0 ltac:(lia)) as [Hi1 Hi2].
  pose proof (po_sizes _ _ _ (ld_parse _ _ _ _ _ _ Hl) 0 ltac:(lia)) as Hsz0.
  assert (Hpa : paddings_apart rp data new_len 0 rp.(rp_nb_frames)).
  { intros i Hi Hpos. destruct (decide (i = 0)) as [->|]; [|rewrite Hp3 in Hpos by lia; lia]. lia. }
  pose proof (out_repacks mem2 rp data new_len 0 rp.(rp_nb_frames) false pad extensions Hb2 Hrp Hr Hdata ltac:(lia) ltac:(lia)
    Hpa Hext (or_introl (fun k => pad_clear rp r k Hl))) as Ho.
  destruct (opus_repacketizer_out_range_impl mem2 rp 0 _ data new_len false pad extensions) as [[mem' ret]|c|]; [| |done];
    cbn [mbind res_bind].
  - destruct Ho as (Hle & Hpe & exts & Hrk & _ & _). pose proof (rk_ret _ _ _ _ _ _ _ _ Hrk) as Hret.
    pose proof (len_slice_le mem' data ret ltac:(lia)) as Hsl. set (S := slice mem' data ret) in *.
    assert (Em : mem' = splice mem data S ++ packet).
    { rewrite (rk_mem _ _ _ _ _ _ _ _ Hrk). fold S. unfold mem2. apply splice_app_l; lia. }
    assert (Lm : len (splice mem data S) = len mem) by (apply len_splice; lia).
    assert (LS : len S = ret) by (unfold S; apply len_slice; [lia|lia|]; rewrite Em, len_app; pose proof (len_nonneg packet); lia).
    assert (Et : take (Z.to_nat (len mem)) mem' = splice mem data S).
    { rewrite Em, <- Lm. unfold len. by rewrite Nat2Z.id, take_app_length. }
    rewrite Et. assert (ES : slice (splice mem data S) data ret = S) by (rewrite <- LS; apply slice_splice_same; lia).
    rewrite ES. split_and!; [lia|lia|done|done|].
    destruct (repacked_same mem2 (len mem) n false rp r exts mem' data ret (repeat 0 48) [] Hb2 (len_nonneg mem) ltac:(lia) ltac:(lia)
      Hl Hrk ltac:(done) (List.Forall_nil _) (fun _ => eq_refl)) as (r' & Er' & Hsf & _).
    fold S in Er', Hsf. rewrite app_nil_r, LS in *. exists r'. split; [done|]. by rewrite Es in Hsf.
  - destruct Ho as [Hc0 Ho]. split; [done|]. intros -> Hz.
    assert (Hno : no_paddings rp 0 rp.(rp_nb_frames)).
    { intros i Hi. destruct (decide (i = 0)) as [->|]; [lia|]. apply Hp3. lia. }
    specialize (Ho eq_refl Hno). destruct (loaded_plain mem2 (len mem) n false rp r (len mem) ltac:(lia) Hl ltac:(lia)) as [_ Hsz].
    destruct (po_inside _ _ _ (ld_parse _ _ _ _ _ _ Hl)) as [P3 P4]. rewrite Es in P4.
    assert (Lp : len packet = n) by (apply len_slice; lia). lia.
Qed.
End Pad.

(** ** Multistream packets *)

Lemma parse_offset mem data n sd r :
  bytes mem -> 0 <= data -> 1 <= n -> data + n <= len mem ->
  opus_packet_parse_impl (slice mem data n) n sd (repeat 0 48) = Ok r ->
  parse_ok (slice mem data n) sd r /\ 1 <= r.(pr_packet_offset) <= n.
Proof.
  intros Hm Hd H1 Hn E. assert (Lp : len (slice mem data n) = n) by (apply len_slice; lia).
  pose proof (sat_parse_impl (slice mem data n) sd (repeat 0 48) (bytes_slice _ _ _ Hm)) as Hs. rewrite Lp, E in Hs.
  destruct Hs as [Hp _]; [intros c _ Hc; exact Hc|]. split; [done|]. pose proof (po_count _ _ _ Hp).
  destruct (po_inside _ _ _ Hp) as [I1 I2]. destruct (po_padding _ _ _ Hp) as [_ I3].
  destruct (parsed_inside _ _ _ Hp 0 ltac:(lia)). pose proof (po_sizes _ _ _ Hp 0 ltac:(lia)). lia.
Qed.

(** No access outside memory, and the unpadded streams together are no longer. *)
Lemma ms_unpad_spec k s nb mem data n dst dst_len :
  bytes mem -> 0 <= dst <= data -> data + n <= len mem -> dst + n <= len mem ->
  sat (ms_unpad k s nb mem data n dst dst_len) (fun '(mem', ret) =>
    len mem' = len mem /\ bytes mem' /\ dst_len + Z.of_nat k <= ret /\ (0 <= n -> ret <= dst_len + n)).
Proof.
  revert s mem data n dst dst_len. induction k as [|k IH]; intros s mem data n dst dst_len Hm Hd Hn Hn2; cbn [ms_unpad].
  { apply sat_ok. split_and!; done || lia. }
  set (sd := negb _). destruct (Z.leb_spec n 0); [done|]. rewrite load_ok by lia. cbn [mbind res_bind].
  pose proof (cat_fresh mem data n sd Hm ltac:(lia) Hn) as Hf.
  destruct (opus_packet_parse_impl (slice mem data n) n sd (repeat 0 48)) as [r|c|] eqn:Ep; [| |done].
  2: { cbn [mbind res_bind]. pose proof (sat_parse_impl (slice mem data n) sd (repeat 0 48) (bytes_slice _ _ _ Hm)) as Hs.
       rewrite len_slice, Ep in Hs by lia. apply Hs. intros c' _ Hc. exact Hc. }
  destruct (parse_offset mem data n sd r Hm ltac:(lia) ltac:(lia) Hn Ep) as [_ Ho]. cbn [mbind res_bind].
  set (off := pr_packet_offset r) in *.
  pose proof (cat_fresh mem data off sd Hm ltac:(lia) ltac:(lia)) as Hc.
  destruct (opus_packet_parse_impl (slice mem data off) off sd (repeat 0 48)) as [r2|c2|]; [| |done].
  2: { destruct Hc as (rp & c & -> & Hneg). cbn [mbind res_bind]. destruct (Z.ltb_spec c 0); [done|lia]. }
  destruct Hc as (rp & -> & Hl). cbn [mbind res_bind]. change (OPUS_OK <? 0) with false. cbv iota.
  destruct (unpad_to mem data off sd Hm ltac:(lia) ltac:(lia) rp r2 dst n ltac:(lia) Hl Hd ltac:(lia) ltac:(lia)) as (mem' & ret & -> & Hle & Hrk & _).
  cbn [mbind res_bind]. pose proof (rk_ret _ _ _ _ _ _ _ _ Hrk) as Hret.
  destruct (po_inside _ _ _ (ld_parse _ _ _ _ _ _ Hl)) as [I1 I2]. destruct (po_padding _ _ _ (ld_parse _ _ _ _ _ _ Hl)) as [_ I3].
  rewrite len_slice in I2 by lia. pose proof (len_slice_le mem' dst ret ltac:(lia)) as Hsl.
  assert (Lm' : len mem' = len mem) by (rewrite (rk_mem _ _ _ _ _ _ _ _ Hrk); apply len_splice; lia).
  assert (Hb' : bytes mem') by (rewrite (rk_mem _ _ _ _ _ _ _ _ Hrk); apply bytes_splice; [done|apply (rk_bytes _ _ _ _ _ _ _ _ Hrk)]).
  eapply sat_impl; [apply IH; done || lia|]. intros [mem2 ret2] (H1 & H2 & H3 & H4). split_and!; done || lia.
Qed.

Lemma ms_seek_spec k mem data n :
  bytes mem -> 0 <= data -> 0 <= n -> data + n <= len mem ->
  sat (ms_seek k mem data n) (fun '(data', n') => data <= data' /\ data' + n' = data + n /\ 0 <= n').
Proof.
  revert data n. induction k as [|k IH]; intros data n Hm Hd Hn0 Hn; cbn [ms_seek]; [by apply sat_ok; lia|].
  destruct (Z.leb_spec n 0); [done|]. rewrite load_ok by lia. cbn [mbind res_bind].
  destruct (opus_packet_parse_impl (slice mem data n) n true (repeat 0 48)) as [r|c|] eqn:Ep; cbn [mbind res_bind].
  - destruct (parse_offset mem data n true r Hm ltac:(lia) ltac:(lia) Hn Ep) as [_ Ho].
    eapply sat_impl; [apply IH; done || lia|]. intros [d' n'] (? & ? & ?). lia.
  - pose proof (sat_parse_impl (slice mem data n) true (repeat 0 48) (bytes_slice _ _ _ Hm)) as Hs.
    rewrite len_slice, Ep in Hs by lia. apply Hs. intros c' _ Hc. exact Hc.
  - pose proof (sat_parse_impl (slice mem data n) true (repeat 0 48) (bytes_slice _ _ _ Hm)) as Hs.
    rewrite len_slice, Ep in Hs by lia. apply Hs. intros c' _ Hc. exact Hc.
Qed.
