(* ===== verification/PacketProps.v ===== *)
(** * Properties of packets, padding, extensions and the repacketizer *)

From S2P Require Import Prelude Memory Packet PacketProofs PacketBuild Extensions ExtProofs Repacketizer RepackProofs RepackParse RepackCat RepackPad.

(** Sizes for a parser that has no history. *)
Definition no_sizes : list Z := repeat 0 48.

Lemma bytes_dec l : forallb (fun b => (0 <=? b) && (b <? 256)) l = true -> bytes l.
Proof.
  intros H. apply Forall_forall. intros b Hb. rewrite forallb_forall in H. specialize (H b Hb).
  apply andb_true_iff in H as [H1 H2]. lia.
Qed.
Ltac solve_bytes := apply bytes_dec; vm_compute; reflexivity.

(** ** Parsing *)

(** (C21) On any bytes [opus_packet_parse_impl] reads only the packet and writes only the
    entries of the size array that it announces; it fails with [OPUS_INVALID_PACKET] and no other code, or
    returns at most 48 frames of at most 1275 bytes and 120 ms, one behind the other and, with the padding,
    inside the packet; the count is that of [opus_packet_get_nb_frames]. *)
Theorem packet_parse_safe data sd size :
  bytes data -> room data (len size) ->
  match opus_packet_parse_impl data (len data) sd size with
  | Ok r => parse_ok data sd r /\ len r.(pr_size) = len size
  | Err c => c = OPUS_INVALID_PACKET
  | Fault => False
  end.
Proof.
  intros Hb Hr. pose proof (sat_parse_impl data sd size Hb Hr) as Hs.
  pose proof (parse_fails_invalid data (len data) sd size (len_nonneg data)) as Hf.
  destruct (opus_packet_parse_impl data (len data) sd size); [exact Hs|exact Hf|destruct Hs].
Qed.

Lemma packet_parse_safe_witness :
  match opus_packet_parse_impl [11; 194; 1; 3; 1; 2; 3; 4; 5; 0] 10 false no_sizes with
  | Ok r => parse_ok [11; 194; 1; 3; 1; 2; 3; 4; 5; 0] false r /\ len r.(pr_size) = 48
  | Err c => c = OPUS_INVALID_PACKET
  | Fault => False
  end.
Proof. apply (packet_parse_safe [11; 194; 1; 3; 1; 2; 3; 4; 5; 0] false no_sizes); [solve_bytes|]. intros c _ H. exact H. Defined.

Lemma parse_no_sizes packet r :
  bytes packet -> opus_packet_parse packet (len packet) no_sizes = Ok r -> parse_ok packet false r.
Proof.
  intros Hb E. pose proof (sat_parse_impl packet false no_sizes Hb) as Hs. unfold opus_packet_parse in E.
  rewrite E in Hs. apply Hs. intros c _ Hc. exact Hc.
Qed.

(** (C22) [opus_packet_has_lbrr] reads the first byte of the first frame without looking at its size: given
    a valid packet, it reads outside the packet exactly when the packet is not CELT-only (for those it returns before) and
    its first frame begins where the packet ends - then that frame, and every other, is empty. *)
Theorem has_lbrr_reads_outside packet r m :
  bytes packet -> opus_packet_parse packet (len packet) no_sizes = Ok r -> opus_packet_get_mode packet = Ok m ->
  (opus_packet_has_lbrr packet (len packet) no_sizes = Fault <->
   m <> MODE_CELT_ONLY /\ r.(pr_frames).[0] = len packet) /\
  (r.(pr_frames).[0] = len packet -> forall i, 0 <= i < r.(pr_count) -> r.(pr_size).[i] = 0).
Proof.
  intros Hb Er Em. pose proof (parse_no_sizes packet r Hb Er) as Hp. pose proof (po_count _ _ _ Hp) as Hc.
  assert (Hl : 1 <= len packet).
  { unfold opus_packet_get_mode, get in Em. destruct (Z.leb_spec 0 0), (Z.ltb_spec 0 (len packet)); cbn in Em; lia || done. }
  destruct (parsed_inside _ _ _ Hp 0 ltac:(lia)) as [I1 I2]. destruct (po_inside _ _ _ Hp) as [I3 I4].
  destruct (po_padding _ _ _ Hp) as [_ I5]. pose proof (po_sizes _ _ _ Hp 0 ltac:(lia)) as I6. split.
  - unfold opus_packet_has_lbrr. rewrite Em. cbn [mbind res_bind].
    destruct (Z.eqb_spec m MODE_CELT_ONLY) as [->|Hm]; [by split; [|intros []]|].
    unfold opus_packet_get_samples_per_frame, opus_packet_get_nb_channels. rewrite !get_ok, Er by lia. cbn [mbind res_bind].
    unfold get. destruct (Z.leb_spec 0 (r.(pr_frames).[0])); [|lia]. cbn [andb].
    destruct (Z.ltb_spec r.(pr_frames).[0] (len packet)); cbn [mbind res_bind]; split; try done; [intros []|intros _; split]; done || lia.
  - intros E0 i Hi. destruct (po_sizes _ _ _ Hp i Hi) as [Hs _].
    assert (Hmono : forall n : nat, Z.of_nat n < r.(pr_count) -> len packet <= r.(pr_frames).[Z.of_nat n]).
    { induction n as [|n IH]; intros Hn; [change (Z.of_nat 0) with 0; lia|].
      replace (Z.of_nat (S n)) with (Z.of_nat n + 1) by lia. rewrite (po_next _ _ _ Hp) by lia.
      pose proof (po_sizes _ _ _ Hp (Z.of_nat n) ltac:(lia)). specialize (IH ltac:(lia)). lia. }
    specialize (Hmono (Z.to_nat i) ltac:(lia)). rewrite Z2Nat.id in Hmono by lia.
    destruct (parsed_inside _ _ _ Hp i Hi) as [_ I7]. lia.
Qed.

(** The SILK packet of one byte. *)
Lemma has_lbrr_reads_outside_witness : opus_packet_has_lbrr [8] 1 no_sizes = Fault.
Proof.
  destruct (opus_packet_parse [8] (len [8]) no_sizes) as [r|c|] eqn:E; [|exfalso; vm_compute in E; discriminate..].
  apply (proj1 (has_lbrr_reads_outside [8] r MODE_SILK_ONLY ltac:(solve_bytes) E eq_refl)).
  split; [vm_compute; discriminate|]. vm_compute in E. injection E as <-. reflexivity.
Defined.

(** ** Extensions *)

(** (C23) Whatever the padding holds, [opus_packet_extensions_parse] and
    [opus_packet_extensions_count] read only the padding; the parser fails with a negative code or
    stores at most [nb] extensions, with tags 2..127, frames below 48 and payloads inside the
    padding, exactly as many as the counter finds. *)
Theorem extensions_parse_safe m p n nb :
  bytes m -> 0 <= p -> 0 <= n -> p + n <= len m -> 0 <= nb ->
  sat (opus_packet_extensions_count m p n) (fun c => 0 <= c) /\
  sat (opus_packet_extensions_parse m p n nb) (fun l =>
    Forall (found p n) l /\ len l <= nb /\ opus_packet_extensions_count m p n = Ok (len l)).
Proof.
  intros Hm Hp Hn Hl Hnb. split; [apply sat_count_loop; done || lia|].
  unfold opus_packet_extensions_parse, opus_packet_extensions_count.
  eapply sat_impl; [apply (sat_parse_loop m Hm p n); try (done || lia); apply List.Forall_nil|].
  cbv beta. intros l (H1 & H2 & H3). split_and!; [done|by apply H2|done].
Qed.

Lemma extensions_parse_safe_witness :
  sat (opus_packet_extensions_count [7; 9; 2; 67; 2; 5; 6; 64] 1 7) (fun c => 0 <= c) /\
  sat (opus_packet_extensions_parse [7; 9; 2; 67; 2; 5; 6; 64] 1 7 5) (fun l =>
    Forall (found 1 7) l /\ len l <= 5 /\ opus_packet_extensions_count [7; 9; 2; 67; 2; 5; 6; 64] 1 7 = Ok (len l)).
Proof. apply extensions_parse_safe; [solve_bytes|lia|lia|by vm_compute|lia]. Defined.





(** ** The repacketizer *)

(** (C25) Adding a packet never reads outside it and keeps the repacketizer well formed: at most
    48 frames and 120 ms, every frame and padding in memory.  An error leaves the frames as they were;
    success appends the frames that the parser finds, and the padding with the first of them. *)
Theorem repacketizer_cat_invariant mem rp data n sd :
  bytes mem -> rp_ok mem rp -> 0 <= data -> data + n <= len mem ->
  exists rp' ret, opus_repacketizer_cat_impl mem rp data n sd = Ok (rp', ret) /\ cat_result mem rp data n sd rp' ret.
Proof. intros Hm Hrp Hd Hn. by apply cat_spec. Qed.

(** Two SILK packets of one frame, room for the output, and the repacketizer that holds both. *)
Definition demo_mem : list Z := [8; 1; 2; 3;  8; 4; 5] ++ repeat 99 30.
Definition demo_rp : OpusRepacketizer :=
  match (mbind (fun r => opus_repacketizer_cat demo_mem (fst r) 4 3)
     (opus_repacketizer_cat demo_mem opus_repacketizer_create 0 4)) with Ok (rp, _) => rp | _ => rp_alloc end.

Lemma repacketizer_cat_invariant_witness :
  exists rp' ret, opus_repacketizer_cat_impl demo_mem opus_repacketizer_create 0 4 false = Ok (rp', ret) /\
    cat_result demo_mem opus_repacketizer_create 0 4 false rp' ret.
Proof. apply repacketizer_cat_invariant; [solve_bytes|apply fresh_ok|lia|by vm_compute]. Defined.

(** No frame and no padding of the range overlaps the buffer. *)
Definition buffer_apart (rp : OpusRepacketizer) (begin end_ data maxlen : Z) : Prop :=
  paddings_apart rp data maxlen begin end_ /\
  forall i, begin <= i < end_ ->
    rp.(rp_frames).[i] + rp.(rp_len).[i] <= data \/ data + maxlen <= rp.(rp_frames).[i].

Lemma buffer_clear mem rp begin end_ data maxlen sd pad :
  rp_ok mem rp -> 0 <= begin /\ begin < end_ <= rp.(rp_nb_frames) -> buffer_apart rp begin end_ data maxlen ->
  range_clear mem rp data maxlen begin end_ sd pad [].
Proof.
  intros Hrp Hr [_ Hb]. left. intros k Hk. pose proof (snd_range mem rp begin end_ Hrp Hr) as Es.
  apply (frames_apart_disjoint _ _ maxlen); [rewrite <- Es; lia|]. apply Forall_lookup. intros i [f l] Hi.
  pose proof (range_in_mem mem rp begin end_ Hrp Hr) as Hin. rewrite Forall_lookup in Hin.
  destruct (Hin i (f, l) Hi) as (H1 & H2 & H3). cbn [fst snd] in *. split_and!; [done|done|done|].
  destruct (range_lookup mem rp begin end_ i f l Hrp Hr Hi) as (-> & -> & Hlt). apply Hb. lia.
Qed.

(** (C26) What the repacketizer writes parses back: [opus_repacketizer_out_range_impl] changes only
    the buffer, returns the size of a packet that fits it (all of it when padding), and the parser
    finds in it the frames of the range, byte for byte, and the extensions that were in their paddings;
    otherwise it returns a negative code. *)
Theorem repacketizer_out_roundtrip mem rp begin end_ data maxlen sd pad :
  bytes mem -> rp_ok mem rp -> 0 <= begin /\ begin < end_ <= rp.(rp_nb_frames) ->
  0 <= data -> 0 <= maxlen -> data + maxlen <= len mem -> buffer_apart rp begin end_ data maxlen ->
  match opus_repacketizer_out_range_impl mem rp begin end_ data maxlen sd pad [] with
  | Ok (mem', ret) =>
      0 < ret <= maxlen /\ (pad = true -> ret = maxlen) /\ mem' = splice mem data (slice mem' data ret) /\
      (exists r, opus_packet_parse_impl (slice mem' data ret) ret sd no_sizes = Ok r /\
        r.(pr_count) = end_ - begin /\ Z.land r.(pr_toc) 0xFC = Z.land rp.(rp_toc) 0xFC /\
        forall i, 0 <= i < end_ - begin ->
          frame_bytes (slice mem' data ret) r i = slice mem rp.(rp_frames).[begin + i] rp.(rp_len).[begin + i]) /\
      exists exts total r l, out_gather (Z.to_nat (end_ - begin)) begin begin mem rp total [] = Ok exts /\
        opus_packet_parse_impl (slice mem' data ret) ret sd no_sizes = Ok r /\
        opus_packet_extensions_parse (slice mem' data ret) r.(pr_padding) r.(pr_padding_len) (len exts) = Ok l /\
        Forall2 (same_ext mem (slice mem' data ret)) (ordered exts) l
  | Err c => c < 0
  | Fault => False
  end.
Proof.
  intros Hm Hrp Hr Hd Hmx Hl Hb.
  pose proof (out_repacks mem rp data maxlen begin end_ sd pad [] Hm Hrp Hr Hd Hmx Hl (proj1 Hb) (List.Forall_nil _)
    (buffer_clear mem rp begin end_ data maxlen sd pad Hrp Hr Hb)) as Ho.
  destruct (opus_repacketizer_out_range_impl mem rp begin end_ data maxlen sd pad []) as [[mem' ret]|c|]; [|by destruct Ho|done].
  destruct Ho as (Hle & Hp & exts & Hrk & _ & _ & total & Hg). pose proof (rk_ret _ _ _ _ _ _ _ _ Hrk).
  pose proof (snd_range mem rp begin end_ Hrp Hr) as Es. pose proof (len_range mem rp begin end_ Hrp Hr) as L.
  pose proof (ro_nb _ _ Hrp).
  assert (Lf : len (range_frames rp begin end_) = end_ - begin) by (rewrite <- L, Es; unfold len; by rewrite length_map).
  assert (H48 : len (range_frames rp begin end_) <= len no_sizes) by (change (len no_sizes) with 48; lia).
  split_and!; [done|done|done|apply (rk_mem _ _ _ _ _ _ _ _ Hrk)| |].
  - assert (Ls : len (slice mem' data ret) = ret).
    { apply len_slice; [lia|lia|]. rewrite (rk_mem _ _ _ _ _ _ _ _ Hrk). pose proof (len_slice_le mem' data ret ltac:(lia)).
      rewrite len_splice; lia. }
    destruct (rk_parse _ _ _ _ _ _ _ _ Hrk no_sizes [] H48 (List.Forall_nil _) (fun _ => eq_refl)) as (r & E & R1 & R2 & R3 & _).
    rewrite app_nil_r, Ls in *. exists r. split_and!; [done|lia|done|]. intros i Hi.
    destruct (lookup_lt_is_Some_2 (range_frames rp begin end_) (Z.to_nat i)) as [[f k] Hik]; [unfold len in *; lia|].
    rewrite <- (Z2Nat.id i) by lia. rewrite (R3 _ _ _ Hik).
    by destruct (range_lookup mem rp begin end_ _ f k Hrp Hr Hik) as (-> & -> & _).
  - destruct (rk_exts _ _ _ _ _ _ _ _ Hrk no_sizes H48) as (r & l & E & El & Hl2). by exists exts, total, r, l.
Qed.

Lemma demo_rp_ok : rp_ok demo_mem demo_rp.
Proof.
  split; try (vm_compute; intuition congruence).
  - intros i Hi. assert (Hn : rp_nb_frames demo_rp = 2) by (by vm_compute). rewrite Hn in Hi.
    destruct (decide (i = 0)) as [->|]; [|assert (i = 1) as -> by lia]; vm_compute; intuition congruence.
  - intros i Hi. assert (Hn : rp_nb_frames demo_rp = 2) by (by vm_compute). rewrite Hn in Hi.
    destruct (decide (i = 0)) as [->|]; [|assert (i = 1) as -> by lia]; vm_compute; intuition congruence.
Qed.

Lemma demo_apart maxlen : buffer_apart demo_rp 0 2 7 maxlen.
Proof.
  assert (P : (rp_padding_len demo_rp).[0] = 0 /\ (rp_padding_len demo_rp).[1] = 0) by (by vm_compute).
  assert (F : (rp_frames demo_rp).[0] + (rp_len demo_rp).[0] = 4 /\ (rp_frames demo_rp).[1] + (rp_len demo_rp).[1] = 7)
    by (by vm_compute).
  revert P F. generalize demo_rp as rp. intros rp P F.
  split; intros i Hi; (destruct (decide (i = 0)) as [->|]; [|assert (i = 1) as -> by lia]); lia.
Qed.

Lemma repacketizer_out_roundtrip_witness :
  exists mem' ret, opus_repacketizer_out_range_impl demo_mem demo_rp 0 2 7 30 false true [] = Ok (mem', ret) /\
    exists r, opus_packet_parse_impl (slice mem' 7 ret) ret false no_sizes = Ok r /\ r.(pr_count) = 2.
Proof.
  pose proof (repacketizer_out_roundtrip demo_mem demo_rp 0 2 7 30 false true ltac:(solve_bytes) demo_rp_ok
    ltac:(vm_compute; intuition congruence) ltac:(lia) ltac:(lia) ltac:(by vm_compute) (demo_apart 30)) as H.
  destruct (opus_repacketizer_out_range_impl demo_mem demo_rp 0 2 7 30 false true []) as [[mem' ret]|c|] eqn:E;
    [|exfalso; vm_compute in E; discriminate|destruct H].
  exists mem', ret. split; [reflexivity|]. destruct H as (_ & _ & _ & (r & Er & Hc & _) & _). exists r. exact (conj Er Hc).
Defined.

(** The size of buffer that the documentation of [opus_repacketizer_out_range] asks for. *)
Definition documented_room (count : Z) : Z := if count =? 1 then 1276 else 1277 * count.

(** (C27) The documented size of buffer suffices when the packets of the range carried no padding: with 1276 bytes
    for one frame, or 1277 for each of several, [opus_repacketizer_out_range] succeeds for every range of frames, whatever
    their sizes, with a packet of at most [maxlen] bytes, and changes nothing outside these bytes of its buffer. *)
Theorem repacketizer_out_fits mem rp begin end_ data maxlen :
  bytes mem -> rp_ok mem rp -> 0 <= begin /\ begin < end_ <= rp.(rp_nb_frames) ->
  0 <= data -> documented_room (end_ - begin) <= maxlen -> data + maxlen <= len mem ->
  buffer_apart rp begin end_ data maxlen -> no_paddings rp begin end_ ->
  exists mem' ret, opus_repacketizer_out_range mem rp begin end_ data maxlen = Ok (mem', ret) /\
    0 < ret <= maxlen /\ mem' = splice mem data (slice mem' data ret).
Proof.
  intros Hm Hrp Hr Hd Hmx Hl Hb Hno. unfold documented_room in Hmx.
  assert (H0 : 0 <= maxlen) by (destruct (end_ - begin =? 1); lia).
  pose proof (out_repacks mem rp data maxlen begin end_ false false [] Hm Hrp Hr Hd H0 Hl (proj1 Hb) (List.Forall_nil _)
    (buffer_clear mem rp begin end_ data maxlen false false Hrp Hr Hb)) as Ho.
  unfold opus_repacketizer_out_range.
  destruct (opus_repacketizer_out_range_impl mem rp begin end_ data maxlen false false []) as [[mem' ret]|c|]; [| |done].
  { destruct Ho as (Hle & _ & exts & Hrk & _). exists mem', ret. pose proof (rk_ret _ _ _ _ _ _ _ _ Hrk).
    split_and!; [done|lia|lia|apply (rk_mem _ _ _ _ _ _ _ _ Hrk)]. }
  exfalso. destruct Ho as [_ Ho]. specialize (Ho eq_refl Hno).
  pose proof (range_ok mem rp begin end_ Hrp Hr) as Hlo. pose proof (len_range mem rp begin end_ Hrp Hr) as L.
  rewrite len_plain in Ho by done. change (len (sd_header false _)) with 0 in Ho.
  set (lens := range_lens rp begin end_) in *. pose proof Hlo as (Hfo & Hc & _).
  pose proof (sumZ_nonneg _ Hfo). assert (Hv : len (vbr_header lens) <= 2 * (len lens - 1)).
  { unfold vbr_header. destruct (vbr lens); [|change (len (@nil Z)) with 0; lia].
    rewrite len_sizes, <- (len_removelast lens) by lia. unfold len. generalize (length (removelast lens)). clear.
    intros k. induction k as [|k IH]; cbn [hdrto]; [lia|]. unfold size_bytes. destruct (_ >=? 252); cbn [b2z]; lia. }
  destruct (Z.eqb_spec (end_ - begin) 1), (Z.leb_spec (len lens) 2); lia.
Qed.

(** With extensions in a padding the documented size does not suffice: a packet of one frame of 1275 bytes and an
    extension, which takes two bytes; the buffer is behind it. *)
Definition padded_packet : list Z := [11; 65; 2] ++ repeat 7 1275 ++ [66; 9].
Definition padded_mem : list Z := padded_packet ++ repeat 0 1300.
Lemma out_fits_needs_no_padding :
  match opus_repacketizer_cat padded_mem opus_repacketizer_create 0 (len padded_packet) with
  | Ok (rp, ret) => ret = OPUS_OK /\ rp.(rp_nb_frames) = 1 /\
      opus_repacketizer_out_range padded_mem rp 0 1 (len padded_packet) (documented_room 1) = Err OPUS_BUFFER_TOO_SMALL
  | _ => False
  end.
Proof. vm_compute. split_and!; reflexivity. Qed.

Lemma rp_ok_grow m m' rp : rp_ok m rp -> len m <= len m' -> rp_ok m' rp.
Proof.
  intros [? ? ? ? Hf Hp] Hl. split; try done.
  - intros i Hi. destruct (Hf i Hi) as (? & ? & ?). split_and!; try done; lia.
  - intros i Hi. destruct (Hp i Hi) as [? Hx]. split; [done|]. intros Hpos. destruct (Hx Hpos). split; [done|lia].
Qed.

Lemma repacketizer_out_fits_witness :
  exists mem' ret, opus_repacketizer_out_range ([8; 1; 2; 3;  8; 4; 5] ++ repeat 0 2554) demo_rp 0 2 7 2554 = Ok (mem', ret) /\
    0 < ret <= 2554 /\ mem' = splice ([8; 1; 2; 3;  8; 4; 5] ++ repeat 0 2554) 7 (slice mem' 7 ret).
Proof.
  assert (Hok : rp_ok ([8; 1; 2; 3;  8; 4; 5] ++ repeat 0 2554) demo_rp).
  { apply (rp_ok_grow demo_mem); [exact demo_rp_ok|by vm_compute]. }
  apply repacketizer_out_fits; [solve_bytes|exact Hok|vm_compute; intuition congruence|lia|by vm_compute|by vm_compute|apply demo_apart|].
  intros i Hi. destruct (decide (i = 0)) as [->|]; [|assert (i = 1) as -> by lia]; by vm_compute.
Defined.

(** (C28) Unpadding in place: for a packet that parses, [opus_packet_unpad] succeeds, with a size
    between 1 and the old one as its assertion says; only these bytes change, and the new packet has the
    same frames, byte for byte, although they are moved over one another, and no padding.  It is the shortest of
    all packets with these frames: none that parses to them has fewer bytes.  For a packet that does not parse it fails. *)
Theorem packet_unpad_correct mem data n :
  bytes mem -> 0 <= data -> 1 <= n -> data + n <= len mem ->
  match opus_packet_parse (slice mem data n) n no_sizes with
  | Ok r => exists mem' ret r', opus_packet_unpad mem data n = Ok (mem', ret) /\ 0 < ret <= n /\
      mem' = splice mem data (slice mem' data ret) /\
      opus_packet_parse (slice mem' data ret) ret no_sizes = Ok r' /\
      same_frames (slice mem data n) (slice mem' data ret) r r' /\ r'.(pr_padding_len) = 0 /\
      (forall q rq, bytes q -> opus_packet_parse q (len q) no_sizes = Ok rq ->
         same_frames (slice mem data n) q r rq -> ret <= len q)
  | Err _ => exists c, c < 0 /\ opus_packet_unpad mem data n = Err c
  | Fault => False
  end.
Proof.
  intros Hm Hd H1 Hn. unfold opus_packet_parse at 1. unfold opus_packet_unpad, opus_repacketizer_cat.
  pose proof (cat_fresh mem data n false Hm Hd Hn) as Hc. destruct (Z.ltb_spec n 1); [lia|].
  fold no_sizes in Hc. destruct (opus_packet_parse_impl (slice mem data n) n false no_sizes) as [r|c|]; [| |done].
  2: { destruct Hc as (rp & c' & -> & Hneg). cbn [mbind res_bind]. destruct (Z.ltb_spec c' 0); [by exists c'|lia]. }
  destruct Hc as (rp & -> & Hl). cbn [mbind res_bind]. change (OPUS_OK <? 0) with false. cbv iota.
  destruct (unpad_to mem data n false Hm Hd Hn rp r data n H1 Hl ltac:(lia) ltac:(lia) Hn) as (mem' & ret & -> & Hle & Hrk & Hret).
  pose proof (rk_ret _ _ _ _ _ _ _ _ Hrk).
  destruct (po_inside _ _ _ (ld_parse _ _ _ _ _ _ Hl)) as [I1 I2]. destruct (po_padding _ _ _ (ld_parse _ _ _ _ _ _ Hl)) as [_ I3].
  rewrite len_slice in I2 by lia.
  destruct (repacked_same mem data n false rp r [] mem' data ret no_sizes [] Hm Hd Hn H1 Hl Hrk ltac:(done) (List.Forall_nil _) (fun _ => eq_refl))
    as (r' & E & Hsf & _). rewrite app_nil_r in *.
  assert (Ls : len (slice mem' data ret) = ret).
  { apply len_slice; [lia|lia|]. rewrite (rk_mem _ _ _ _ _ _ _ _ Hrk). pose proof (len_slice_le mem' data ret ltac:(lia)).
    rewrite len_splice; lia. }
  assert (Hmin : forall q rq, bytes q -> opus_packet_parse q (len q) no_sizes = Ok rq ->
    same_frames (slice mem data n) q r rq -> ret <= rq.(pr_padding)).
  { intros q rq Hq Eq Hsq. rewrite Hret. by apply (loaded_shortest mem data n false rp r q), Hsq; try apply parse_no_sizes. }
  pose proof (rk_bytes _ _ _ _ _ _ _ _ Hrk) as Hbs. pose proof (parse_no_sizes _ r' Hbs E) as Hp'.
  specialize (Hmin _ r' Hbs E Hsf) as Hm'. destruct (po_inside _ _ _ Hp') as [J1 J2]. destruct (po_padding _ _ _ Hp') as [_ J3].
  rewrite Ls in E, J2. exists mem', ret, r'. split_and!; try done; [lia|apply (rk_mem _ _ _ _ _ _ _ _ Hrk)|lia|].
  intros q rq Hq Eq Hsq. specialize (Hmin q rq Hq Eq Hsq). pose proof (parse_no_sizes q rq Hq Eq) as Hq'.
  destruct (po_inside _ _ _ Hq') as [K1 K2]. destruct (po_padding _ _ _ Hq') as [_ K3]. lia.
Qed.

Lemma packet_unpad_correct_witness :
  exists mem' ret r r', opus_packet_parse (slice [7; 11; 194; 1; 3; 1; 2; 3; 4; 5; 0] 1 10) 10 no_sizes = Ok r /\
    opus_packet_unpad [7; 11; 194; 1; 3; 1; 2; 3; 4; 5; 0] 1 10 = Ok (mem', ret) /\
    same_frames (slice [7; 11; 194; 1; 3; 1; 2; 3; 4; 5; 0] 1 10) (slice mem' 1 ret) r r'.
Proof.
  pose proof (packet_unpad_correct [7; 11; 194; 1; 3; 1; 2; 3; 4; 5; 0] 1 10 ltac:(solve_bytes) ltac:(lia) ltac:(lia) ltac:(by vm_compute)) as H.
  destruct (opus_packet_parse (slice [7; 11; 194; 1; 3; 1; 2; 3; 4; 5; 0] 1 10) 10 no_sizes) as [r|c|] eqn:E;
    [|exfalso; vm_compute in E; discriminate|destruct H].
  destruct H as (mem' & ret & r' & H1 & _ & _ & _ & H2 & _). exists mem', ret, r, r'. exact (conj eq_refl (conj H1 H2)).
Defined.

(** (C29) Padding in place: for a packet that parses and has no padding yet, [opus_packet_pad] to a larger size succeeds:
    it makes a packet of exactly that size with the same frames, changing only the buffer.  When the packet already has padding
    (whose extensions are carried over) it does that or fails with a negative code, as for a padding that is not a list of extensions
    ([pad_rejects_padding]).  A packet that does not parse is an error. *)
Theorem packet_pad_correct mem data n new_len :
  bytes mem -> 0 <= data -> 1 <= n < new_len -> data + new_len <= len mem ->
  match opus_packet_parse (slice mem data n) n no_sizes with
  | Ok r =>
      match opus_packet_pad mem data n new_len with
      | Ok (mem', ret) => ret = OPUS_OK /\ mem' = splice mem data (slice mem' data new_len) /\
          exists r', opus_packet_parse (slice mem' data new_len) new_len no_sizes = Ok r' /\
            same_frames (slice mem data n) (slice mem' data new_len) r r'
      | Err c => c < 0 /\ r.(pr_padding_len) <> 0
      | Fault => False
      end
  | Err _ => exists c, c < 0 /\ opus_packet_pad mem data n new_len = Err c
  | Fault => False
  end.
Proof.
  intros Hm Hd Hn Hl. pose proof (pad_impl_spec mem data n new_len true Hm Hd Hn Hl [] (List.Forall_nil _)) as H. fold no_sizes in H.
  unfold opus_packet_pad. destruct (opus_packet_parse (slice mem data n) n no_sizes) as [r|c|]; [| |done].
  - destruct (opus_packet_pad_impl mem data n new_len true []) as [[mem' ret]|c|]; cbn [mbind res_bind]; [| |done].
    + destruct H as (Hr & Hp & Hmem & Hrest). specialize (Hp eq_refl). subst ret.
      rewrite Z.gtb_ltb. destruct (Z.ltb_spec 0 new_len); [|lia]. done.
    + destruct H as [Hc Hp]. split; [done|]. by apply Hp.
  - destruct H as (c' & Hc & ->). by exists c'.
Qed.

Lemma packet_pad_correct_witness :
  exists mem' r r', opus_packet_parse (slice [10; 3; 1; 2; 3; 4; 5; 99; 99; 99] 0 7) 7 no_sizes = Ok r /\
    opus_packet_pad [10; 3; 1; 2; 3; 4; 5; 99; 99; 99] 0 7 10 = Ok (mem', OPUS_OK) /\
    same_frames (slice [10; 3; 1; 2; 3; 4; 5; 99; 99; 99] 0 7) (slice mem' 0 10) r r'.
Proof.
  pose proof (packet_pad_correct [10; 3; 1; 2; 3; 4; 5; 99; 99; 99] 0 7 10 ltac:(solve_bytes) ltac:(lia) ltac:(lia) ltac:(by vm_compute)) as H.
  destruct (opus_packet_parse (slice [10; 3; 1; 2; 3; 4; 5; 99; 99; 99] 0 7) 7 no_sizes) as [r|c|] eqn:E;
    [|exfalso; vm_compute in E; discriminate|destruct H].
  destruct (opus_packet_pad [10; 3; 1; 2; 3; 4; 5; 99; 99; 99] 0 7 10) as [[mem' ret]|c|] eqn:E2;
    [|exfalso; vm_compute in E2; discriminate|destruct H].
  destruct H as (-> & _ & r' & _ & H). exists mem', r, r'. exact (conj eq_refl (conj eq_refl H)).
Defined.

(** A valid packet whose padding is not a list of extensions cannot be padded further; the error is none of the
    documented ones. *)
Lemma pad_rejects_padding :
  (exists r, opus_packet_parse [11; 65; 2; 7; 67; 9] 6 no_sizes = Ok r /\ r.(pr_count) = 1 /\ r.(pr_padding_len) = 2) /\
  opus_packet_pad ([11; 65; 2; 7; 67; 9] ++ repeat 0 10) 0 6 10 = Err OPUS_INTERNAL_ERROR.
Proof. vm_compute. split; [eexists; split_and!|]; reflexivity. Qed.

(** On any bytes [opus_multistream_packet_unpad] accesses nothing outside memory, fails with a
    negative code or returns a size of at least one byte for each stream and at most the old size. *)
Theorem multistream_unpad_safe mem data n nb_streams :
  bytes mem -> 0 <= data -> data + n <= len mem ->
  sat (opus_multistream_packet_unpad mem data n nb_streams) (fun '(mem', ret) =>
    len mem' = len mem /\ bytes mem' /\ nb_streams <= ret <= n).
Proof.
  intros Hm Hd Hn. unfold opus_multistream_packet_unpad. destruct (Z.ltb_spec n 1); [done|].
  eapply sat_impl; [apply ms_unpad_spec; done || lia|]. intros [mem' ret] (H1 & H2 & H3 & H4).
  specialize (H4 ltac:(lia)). split_and!; done || lia.
Qed.

Lemma multistream_unpad_safe_witness :
  sat (opus_multistream_packet_unpad [8; 2; 5; 6; 11; 193; 1; 9; 0] 0 9 2) (fun '(mem', ret) =>
    len mem' = 9 /\ bytes mem' /\ 2 <= ret <= 9).
Proof. apply (multistream_unpad_safe [8; 2; 5; 6; 11; 193; 1; 9; 0] 0 9 2); [solve_bytes|lia|by vm_compute]. Defined.
