(* ===== verification/SilkMath.v ===== *)
(** * Fixed-point arithmetic of SILK (silk/macros.h, silk/SigProc_FIX.h,
      silk/Inlines.h, silk/log2lin.c, silk/lin2log.c)

    Macros that C evaluates in [opus_int32] wrap around here; [opus_int64]
    intermediate values are exact. *)

From S2P Require Import Prelude RangeCoder.

Definition silk_int32_MAX : Z := 2 ^ 31 - 1.
Definition i8 (x : Z) : Z := (x + 2 ^ 7) mod 2 ^ 8 - 2 ^ 7.

Definition silk_LSHIFT (a shift : Z) : Z := i32 (Z.shiftl (u32 a) shift).
Definition silk_RSHIFT (a shift : Z) : Z := Z.shiftr a shift.
Definition silk_RSHIFT_ROUND (a shift : Z) : Z :=
  if shift =? 1 then Z.shiftr a 1 + Z.land a 1 else Z.shiftr (Z.shiftr a (shift - 1) + 1) 1.
Definition silk_SMULWB (a32 b32 : Z) : Z := i32 (Z.shiftr (a32 * i16 b32) 16).
Definition silk_SMLAWB (a32 b32 c32 : Z) : Z := i32 (a32 + Z.shiftr (b32 * i16 c32) 16).
Definition silk_SMULBB (a32 b32 : Z) : Z := i32 (i16 a32 * i16 b32).
Definition silk_SMLABB (a32 b32 c32 : Z) : Z := i32 (a32 + i16 b32 * i16 c32).
Definition silk_MUL (a32 b32 : Z) : Z := i32 (a32 * b32).
Definition silk_MLA (a32 b32 c32 : Z) : Z := i32 (a32 + b32 * c32).
Definition silk_ADD_LSHIFT32 (a b shift : Z) : Z := i32 (a + silk_LSHIFT b shift).
Definition silk_ADD_RSHIFT32 (a b shift : Z) : Z := i32 (a + Z.shiftr b shift).
Definition silk_DIV32_16 (a32 b16 : Z) : Z := Z.quot a32 b16.
Definition silk_LIMIT (a limit1 limit2 : Z) : Z :=
  if limit1 >? limit2 then (if a >? limit1 then limit1 else if a <? limit2 then limit2 else a)
  else (if a >? limit2 then limit2 else if a <? limit1 then limit1 else a).
(** [silk_SAT16( silk_ADD32( a, b ) )] *)
Definition silk_ADD_SAT16 (a b : Z) : Z :=
  let s := a + b in if s >? 32767 then 32767 else if s <? -32768 then -32768 else i16 s.

Definition silk_CLZ32 (in32 : Z) : Z := if in32 =? 0 then 32 else 32 - ec_ilog (u32 in32).

Definition silk_ROR32 (a32 rot : Z) : Z :=
  let x := u32 a32 in
  if rot =? 0 then a32
  else if rot <? 0 then i32 (Z.lor (u32 (Z.shiftl x (- rot))) (Z.shiftr x (32 + rot)))
  else i32 (Z.lor (u32 (Z.shiftl x (32 - rot))) (Z.shiftr x rot)).

(** The number of leading zeros and the 7 bits behind the leading one. *)
Definition silk_CLZ_FRAC (in_ : Z) : Z * Z :=
  let lzeros := silk_CLZ32 in_ in (lzeros, Z.land (silk_ROR32 in_ (24 - lzeros)) 0x7f).

Definition silk_lin2log (inLin : Z) : Z :=
  let '(lz, frac_Q7) := silk_CLZ_FRAC inLin in
  silk_ADD_LSHIFT32 (silk_SMLAWB frac_Q7 (silk_MUL frac_Q7 (128 - frac_Q7)) 179) (31 - lz) 7.

Definition silk_log2lin (inLog_Q7 : Z) : Z :=
  if inLog_Q7 <? 0 then 0
  else if inLog_Q7 >=? 3967 then silk_int32_MAX
  else
    let out := silk_LSHIFT 1 (silk_RSHIFT inLog_Q7 7) in
    let frac_Q7 := Z.land inLog_Q7 0x7F in
    if inLog_Q7 <? 2048 then
      silk_ADD_RSHIFT32 out
        (silk_MUL out (silk_SMLAWB frac_Q7 (silk_SMULBB frac_Q7 (128 - frac_Q7)) (-174))) 7
    else
      silk_MLA out (silk_RSHIFT out 7)
        (silk_SMLAWB frac_Q7 (silk_SMULBB frac_Q7 (128 - frac_Q7)) (-174)).

Lemma silk_LIMIT_range a lo hi : lo <= hi -> lo <= silk_LIMIT a lo hi <= hi.
Proof. intros Hl. unfold silk_LIMIT. repeat case_cmp; lia. Qed.
Lemma silk_LIMIT_clamp a lo hi : lo <= hi -> silk_LIMIT a lo hi = Z.max lo (Z.min a hi).
Proof. intros Hl. unfold silk_LIMIT. repeat case_cmp; lia. Qed.
Lemma i8_small x : -128 <= x < 128 -> i8 x = x.
Proof. intros. unfold i8. rewrite Z.mod_small; lia. Qed.
