(* ===== verification/SilkPulses.v ===== *)
(** * The excitation of SILK (silk/shell_coder.c, silk/code_signs.c,
      silk/encode_pulses.c, silk/decode_pulses.c)

    A frame of quantised excitation is coded in blocks of 16 pulses: a rate
    level for the frame; for each block the number of pulses, after as many
    right shifts of the amplitudes as make them fit the shell code; the shell
    code, a binary tree of splits; the bits that were shifted out; the signs. *)

From S2P Require Import Prelude EntropyInterface EntropySeq SilkMath SilkTables.

Definition SHELL_CODEC_FRAME_LENGTH : Z := 16.
Definition LOG2_SHELL_CODEC_FRAME_LENGTH : Z := 4.
Definition N_RATE_LEVELS : Z := 10.
Definition SILK_MAX_PULSES : Z := 16.

(** [iter], the number of shell blocks. *)
Definition shell_blocks (frame_length : Z) : Z :=
  let iter := Z.shiftr frame_length LOG2_SHELL_CODEC_FRAME_LENGTH in
  if iter * SHELL_CODEC_FRAME_LENGTH <? frame_length then iter + 1 else iter.

(** The blocks at [&l[0]], [&l[16]], ... *)
Fixpoint blocks (n : nat) (l : list Z) : list (list Z) :=
  match n with O => [] | S n => take 16 l :: blocks n (drop 16 l) end.

Section Coder.
Context `{EntropyCoder E D}.

(** ** Shell coder *)

Definition combine_pulses (inp : list Z) (n : nat) : list Z :=
  map (fun k => inp.[2 * Z.of_nat k] + inp.[2 * Z.of_nat k + 1]) (seq 0 n).

Definition encode_split (p_child1 p : Z) (shell_table : list Z) : E -> E :=
  if p >? 0 then ec_enc_icdf p_child1 (icdf_at shell_table silk_shell_code_table_offsets.[p]) 8
  else enc_skip.

Definition decode_split (p : Z) (shell_table : list Z) : D -> (Z * Z) * D :=
  if p >? 0 then
    x <~ ec_dec_icdf (icdf_at shell_table silk_shell_code_table_offsets.[p]) 8;
    let p_child1 := i16 x in dec_ret (p_child1, i16 (p - p_child1))
  else dec_ret (0, 0).

Definition silk_shell_encoder (pulses0 : list Z) : E -> E :=
  let pulses1 := combine_pulses pulses0 8 in
  let pulses2 := combine_pulses pulses1 4 in
  let pulses3 := combine_pulses pulses2 2 in
  let pulses4 := combine_pulses pulses3 1 in
  encode_split pulses3.[0] pulses4.[0] silk_shell_code_table3 >>>
  encode_split pulses2.[0] pulses3.[0] silk_shell_code_table2 >>>
  encode_split pulses1.[0] pulses2.[0] silk_shell_code_table1 >>>
  encode_split pulses0.[0] pulses1.[0] silk_shell_code_table0 >>>
  encode_split pulses0.[2] pulses1.[1] silk_shell_code_table0 >>>
  encode_split pulses1.[2] pulses2.[1] silk_shell_code_table1 >>>
  encode_split pulses0.[4] pulses1.[2] silk_shell_code_table0 >>>
  encode_split pulses0.[6] pulses1.[3] silk_shell_code_table0 >>>
  encode_split pulses2.[2] pulses3.[1] silk_shell_code_table2 >>>
  encode_split pulses1.[4] pulses2.[2] silk_shell_code_table1 >>>
  encode_split pulses0.[8] pulses1.[4] silk_shell_code_table0 >>>
  encode_split pulses0.[10] pulses1.[5] silk_shell_code_table0 >>>
  encode_split pulses1.[6] pulses2.[3] silk_shell_code_table1 >>>
  encode_split pulses0.[12] pulses1.[6] silk_shell_code_table0 >>>
  encode_split pulses0.[14] pulses1.[7] silk_shell_code_table0.

Definition silk_shell_decoder (pulses4 : Z) : D -> list Z * D :=
  '(pulses3_0, pulses3_1) <~ decode_split pulses4 silk_shell_code_table3;
  '(pulses2_0, pulses2_1) <~ decode_split pulses3_0 silk_shell_code_table2;
  '(pulses1_0, pulses1_1) <~ decode_split pulses2_0 silk_shell_code_table1;
  '(pulses0_0, pulses0_1) <~ decode_split pulses1_0 silk_shell_code_table0;
  '(pulses0_2, pulses0_3) <~ decode_split pulses1_1 silk_shell_code_table0;
  '(pulses1_2, pulses1_3) <~ decode_split pulses2_1 silk_shell_code_table1;
  '(pulses0_4, pulses0_5) <~ decode_split pulses1_2 silk_shell_code_table0;
  '(pulses0_6, pulses0_7) <~ decode_split pulses1_3 silk_shell_code_table0;
  '(pulses2_2, pulses2_3) <~ decode_split pulses3_1 silk_shell_code_table2;
  '(pulses1_4, pulses1_5) <~ decode_split pulses2_2 silk_shell_code_table1;
  '(pulses0_8, pulses0_9) <~ decode_split pulses1_4 silk_shell_code_table0;
  '(pulses0_10, pulses0_11) <~ decode_split pulses1_5 silk_shell_code_table0;
  '(pulses1_6, pulses1_7) <~ decode_split pulses2_3 silk_shell_code_table1;
  '(pulses0_12, pulses0_13) <~ decode_split pulses1_6 silk_shell_code_table0;
  '(pulses0_14, pulses0_15) <~ decode_split pulses1_7 silk_shell_code_table0;
  dec_ret [pulses0_0; pulses0_1; pulses0_2; pulses0_3; pulses0_4; pulses0_5; pulses0_6; pulses0_7;
           pulses0_8; pulses0_9; pulses0_10; pulses0_11; pulses0_12; pulses0_13; pulses0_14; pulses0_15].

(** ** Signs *)

Definition silk_enc_map (a : Z) : Z := Z.shiftr a 15 + 1.
Definition silk_dec_map (a : Z) : Z := Z.shiftl a 1 - 1.

(** [icdf_ptr = &silk_sign_iCDF[ 7 * ( quantOffsetType + 2 * signalType ) ]], and
    the table for a block of [p] pulses. *)
Definition sign_icdf (signalType quantOffsetType p : Z) : list Z :=
  let i := 7 * (quantOffsetType + Z.shiftl signalType 1) in
  [silk_sign_iCDF.[i + Z.min (Z.land p 0x1F) 6]; 0].

(** The number of blocks, [silk_RSHIFT( length + 16/2, 4 )]. *)
Definition sign_blocks (length : Z) : Z :=
  Z.shiftr (length + SHELL_CODEC_FRAME_LENGTH / 2) LOG2_SHELL_CODEC_FRAME_LENGTH.

Definition encode_sign (icdf : list Z) (q : Z) : E -> E :=
  if negb (q =? 0) then ec_enc_icdf (silk_enc_map q) icdf 8 else enc_skip.
Definition encode_block_signs (signalType quantOffsetType : Z) (bp : list Z * Z) : E -> E :=
  let '(q_ptr, p) := bp in
  if p >? 0 then enc_all (encode_sign (sign_icdf signalType quantOffsetType p)) q_ptr else enc_skip.
Definition silk_encode_signs (pulses : list Z) (length signalType quantOffsetType : Z)
    (sum_pulses : list Z) : E -> E :=
  let length := sign_blocks length in
  enc_all (encode_block_signs signalType quantOffsetType)
    (zip (blocks (Z.to_nat length) pulses) sum_pulses).

Definition decode_sign (icdf : list Z) (q : Z) : D -> Z * D :=
  if q >? 0 then x <~ ec_dec_icdf icdf 8; dec_ret (i16 (q * silk_dec_map x)) else dec_ret q.
Definition decode_block_signs (signalType quantOffsetType : Z) (bp : list Z * Z) : D -> list Z * D :=
  let '(q_ptr, p) := bp in
  if p >? 0 then dec_all (decode_sign (sign_icdf signalType quantOffsetType p)) q_ptr
  else dec_ret q_ptr.
Definition silk_decode_signs (pulses : list Z) (length signalType quantOffsetType : Z)
    (sum_pulses : list Z) : D -> list Z * D :=
  let length := sign_blocks length in
  bs <~ dec_all (decode_block_signs signalType quantOffsetType)
          (zip (blocks (Z.to_nat length) pulses) sum_pulses);
  dec_ret (concat bs).

(** ** Encoder *)

(** [inp] is [None] when the input array is the output array. *)
Fixpoint combine_and_check (n : nat) (k : Z) (pulses_comb : list Z) (inp : option (list Z))
    (max_pulses : Z) : Z * list Z :=
  match n with
  | O => (0, pulses_comb)
  | S n =>
      let pulses_in := default pulses_comb inp in
      let sum := pulses_in.[2 * k] + pulses_in.[2 * k + 1] in
      if sum >? max_pulses then (1, pulses_comb)
      else combine_and_check n (k + 1) pulses_comb.[k <- sum] inp max_pulses
  end.

(** [scale_down], pulses_comb and [sum_pulses[ i ]]. *)
Definition combine_block (pulses_comb abs_pulses : list Z) (sum : Z) : Z * list Z * Z :=
  let '(s0, pulses_comb) :=
    combine_and_check 8 0 pulses_comb (Some abs_pulses) silk_max_pulses_table.[0] in
  let '(s1, pulses_comb) := combine_and_check 4 0 pulses_comb None silk_max_pulses_table.[1] in
  let '(s2, pulses_comb) := combine_and_check 2 0 pulses_comb None silk_max_pulses_table.[2] in
  let '(s3, sum) := combine_and_check 1 0 [sum] (Some pulses_comb) silk_max_pulses_table.[3] in
  (s0 + s1 + s2 + s3, pulses_comb, sum.[0]).

(** What is known of a block: the pulses, their scaled amplitudes, the number of
    shifts and of pulses. *)
Record block := {
  b_pulses : list Z;
  b_abs : list Z;
  b_nRshifts : Z;
  b_sum : Z
}.

(** [while( 1 )]; [None] when it does not end in [fuel] rounds. *)
Fixpoint scale_block (fuel : nat) (pulses_comb abs_pulses : list Z) (sum nRshifts : Z)
    : option (list Z * list Z * Z * Z) :=
  match fuel with
  | O => None
  | S fuel =>
      let '(scale_down, pulses_comb, sum) := combine_block pulses_comb abs_pulses sum in
      if negb (scale_down =? 0) then
        scale_block fuel pulses_comb (map (fun a => Z.shiftr a 1) abs_pulses) sum (nRshifts + 1)
      else Some (pulses_comb, abs_pulses, sum, nRshifts)
  end.

Fixpoint scale_blocks (fuel : nat) (pulses_comb : list Z) (l : list (list Z)) : option (list block) :=
  match l with
  | [] => Some []
  | pulses :: l =>
      '(pulses_comb, abs_pulses, sum, nRshifts) ←
        scale_block fuel pulses_comb (map Z.abs pulses) 0 0;
      r ← scale_blocks fuel pulses_comb l;
      Some ({| b_pulses := pulses; b_abs := abs_pulses; b_nRshifts := nRshifts; b_sum := sum |} :: r)
  end.

(** [sumBits_Q5] for rate level [k]. *)
Definition sum_bits (signalType k : Z) (bs : list block) : Z :=
  let nBits_ptr := row silk_pulses_per_block_BITS_Q5 k in
  foldl (fun sumBits_Q5 b =>
      sumBits_Q5 + (if b.(b_nRshifts) >? 0 then nBits_ptr.[SILK_MAX_PULSES + 1]
                    else nBits_ptr.[b.(b_sum)]))
    (row silk_rate_levels_BITS_Q5 (Z.shiftr signalType 1)).[k] bs.

(** The rate levels from [k] on: [RateLevelIndex]. *)
Fixpoint best_level (n : nat) (k : Z) (signalType : Z) (bs : list block) (minSumBits_Q5 RateLevelIndex : Z) : Z :=
  match n with
  | O => RateLevelIndex
  | S n =>
      let sumBits_Q5 := sum_bits signalType k bs in
      if sumBits_Q5 <? minSumBits_Q5 then best_level n (k + 1) signalType bs sumBits_Q5 k
      else best_level n (k + 1) signalType bs minSumBits_Q5 RateLevelIndex
  end.

Definition encode_sum (RateLevelIndex : Z) (b : block) : E -> E :=
  let cdf_ptr := row silk_pulses_per_block_iCDF RateLevelIndex in
  let last := row silk_pulses_per_block_iCDF (N_RATE_LEVELS - 1) in
  if b.(b_nRshifts) =? 0 then ec_enc_icdf b.(b_sum) cdf_ptr 8
  else
    ec_enc_icdf (SILK_MAX_PULSES + 1) cdf_ptr 8 >>>
    enc_all (fun _ => ec_enc_icdf (SILK_MAX_PULSES + 1) last 8) (seq 0 (Z.to_nat (b.(b_nRshifts) - 1))) >>>
    ec_enc_icdf b.(b_sum) last 8.

Definition encode_shell (b : block) : E -> E :=
  if b.(b_sum) >? 0 then silk_shell_encoder b.(b_abs) else enc_skip.

(** Bits [n], ..., 1 and 0 of [abs_q]. *)
Fixpoint encode_lsb (n : nat) (abs_q : Z) : E -> E :=
  match n with
  | O => ec_enc_icdf (Z.land abs_q 1) silk_lsb_iCDF 8
  | S m => ec_enc_icdf (Z.land (Z.shiftr abs_q (Z.of_nat n)) 1) silk_lsb_iCDF 8 >>> encode_lsb m abs_q
  end.
Definition encode_lsbs (b : block) : E -> E :=
  if b.(b_nRshifts) >? 0 then
    let nLS := b.(b_nRshifts) - 1 in
    enc_all (fun q => encode_lsb (Z.to_nat nLS) (i8 (Z.abs q))) b.(b_pulses)
  else enc_skip.

(** The array [pulses] after the function cleared the tail of its last block. *)
Definition padded_pulses (pulses : list Z) (frame_length : Z) : list Z :=
  if Z.shiftr frame_length LOG2_SHELL_CODEC_FRAME_LENGTH * SHELL_CODEC_FRAME_LENGTH <? frame_length
  then take (Z.to_nat frame_length) pulses ++ repeat 0 16 ++ drop (Z.to_nat frame_length + 16) pulses
  else pulses.

(** The blocks of the frame with their shifts and sums. *)
Definition scaled (fuel : nat) (pulses : list Z) (frame_length : Z) : option (list block) :=
  scale_blocks fuel (repeat 0 8)
    (blocks (Z.to_nat (shell_blocks frame_length)) (padded_pulses pulses frame_length)).

Definition encode_blocks (signalType quantOffsetType frame_length : Z) (pulses : list Z) (bs : list block) : E -> E :=
  let RateLevelIndex := best_level (Z.to_nat (N_RATE_LEVELS - 1)) 0 signalType bs silk_int32_MAX 0 in
  ec_enc_icdf RateLevelIndex (row silk_rate_levels_iCDF (Z.shiftr signalType 1)) 8 >>>
  enc_all (encode_sum RateLevelIndex) bs >>>
  enc_all encode_shell bs >>>
  enc_all encode_lsbs bs >>>
  silk_encode_signs pulses frame_length signalType quantOffsetType (map b_sum bs).

(** [None] when a loop does not end in [fuel] rounds. *)
Definition silk_encode_pulses (fuel : nat) (signalType quantOffsetType : Z) (pulses : list Z)
    (frame_length : Z) : option (E -> E) :=
  bs ← scaled fuel pulses frame_length;
  Some (encode_blocks signalType quantOffsetType frame_length (padded_pulses pulses frame_length) bs).

(** ** Decoder *)

(** [while( sum_pulses[ i ] == SILK_MAX_PULSES + 1 )]: [sum_pulses[ i ]] and
    [nLshifts[ i ]]; [None] when it does not end in [fuel] rounds. *)
Fixpoint decode_lsb_count (fuel : nat) (sum nLshifts : Z) : D -> option (Z * Z) * D :=
  match fuel with
  | O => dec_ret None
  | S fuel =>
      if sum =? SILK_MAX_PULSES + 1 then
        let nLshifts := nLshifts + 1 in
        sum <~ ec_dec_icdf (drop (if nLshifts =? 10 then 1%nat else 0%nat)
                              (row silk_pulses_per_block_iCDF (N_RATE_LEVELS - 1))) 8;
        decode_lsb_count fuel sum nLshifts
      else dec_ret (Some (sum, nLshifts))
  end.

Definition decode_sum (RateLevelIndex : Z) : D -> option (Z * Z) * D :=
  sum <~ ec_dec_icdf (row silk_pulses_per_block_iCDF RateLevelIndex) 8;
  decode_lsb_count 11 sum 0.

Definition decode_shell (s : Z * Z) : D -> list Z * D :=
  if s.1 >? 0 then silk_shell_decoder s.1 else dec_ret (repeat 0 16).

Fixpoint decode_lsb (n : nat) (abs_q : Z) : D -> Z * D :=
  match n with
  | O => dec_ret abs_q
  | S n =>
      let abs_q := Z.shiftl abs_q 1 in
      x <~ ec_dec_icdf silk_lsb_iCDF 8;
      decode_lsb n (abs_q + x)
  end.
Definition decode_lsbs (bs : list Z * (Z * Z)) : D -> list Z * D :=
  let '(pulses_ptr, (_, nLS)) := bs in
  if nLS >? 0 then
    dec_all (fun q => a <~ decode_lsb (Z.to_nat nLS) q; dec_ret (i16 a)) pulses_ptr
  else dec_ret pulses_ptr.

(** [sum_pulses[ i ] |= nLS << 5] where there are shifted out bits. *)
Definition mark_sum (s : Z * Z) : Z :=
  if s.2 >? 0 then Z.lor s.1 (Z.shiftl s.2 5) else s.1.

Definition decode_blocks (signalType quantOffsetType frame_length : Z) (sums : list (Z * Z)) : D -> list Z * D :=
  sh <~ dec_all decode_shell sums;
  ls <~ dec_all decode_lsbs (zip sh sums);
  silk_decode_signs (concat ls) frame_length signalType quantOffsetType (map mark_sum sums).

Definition silk_decode_pulses (signalType quantOffsetType frame_length : Z) : D -> option (list Z) * D :=
  RateLevelIndex <~ ec_dec_icdf (row silk_rate_levels_iCDF (Z.shiftr signalType 1)) 8;
  let iter := shell_blocks frame_length in
  sums <~ dec_all (fun _ => decode_sum RateLevelIndex) (seq 0 (Z.to_nat iter));
  match mapM id sums with
  | None => dec_ret None
  | Some sums =>
      pulses <~ decode_blocks signalType quantOffsetType frame_length sums;
      dec_ret (Some pulses)
  end.
End Coder.
