(* ===== verification/SilkPulsesProofs.v ===== *)
(** * The excitation coder of SILK: proofs *)

From S2P Require Import Prelude EntropyInterface EntropySeq SilkMath SilkTables SilkPulses.

(** ** Tables *)

Definition split_tables : list (list Z) :=
  [silk_shell_code_table0; silk_shell_code_table1; silk_shell_code_table2; silk_shell_code_table3].

Lemma split_table t p :
  In t split_tables -> 1 <= p <= 16 ->
  table_ok (icdf_at t silk_shell_code_table_offsets.[p]) = true /\
  len (icdf_at t silk_shell_code_table_offsets.[p]) = p + 1.
Proof.
  intros Ht Hp.
  assert (forallb (fun t => zforall 16 1 (fun p => let u := icdf_at t silk_shell_code_table_offsets.[p] in
    table_ok u && (len u =? p + 1))) split_tables = true) as H by (vm_compute; reflexivity).
  rewrite forallb_forall in H. specialize (H t Ht).
  pose proof (zforall_spec _ _ _ p H ltac:(lia)) as [H1 H2]%andb_true_iff. split; [done|lia].
Qed.

Lemma pulses_table k :
  0 <= k < 10 -> table_ok (row silk_pulses_per_block_iCDF k) = true /\
  len (row silk_pulses_per_block_iCDF k) = 18.
Proof.
  intros Hk. assert (zforall 10 0 (fun k => table_ok (row silk_pulses_per_block_iCDF k) &&
    (len (row silk_pulses_per_block_iCDF k) =? 18)) = true) as H by (vm_compute; reflexivity).
  pose proof (zforall_spec _ _ _ k H ltac:(lia)) as [H1 H2]%andb_true_iff. split; [done|lia].
Qed.

(** Signal types are 0, 1 and 2, quantisation offset types 0 and 1. *)
Definition types_ok (signalType quantOffsetType : Z) : Prop :=
  0 <= signalType <= 2 /\ 0 <= quantOffsetType <= 1.

Lemma levels_table st :
  0 <= st <= 2 -> table_ok (row silk_rate_levels_iCDF (Z.shiftr st 1)) = true /\
  len (row silk_rate_levels_iCDF (Z.shiftr st 1)) = 9.
Proof. intros Hs. assert (st = 0 \/ st = 1 \/ st = 2) as [-> | [-> | ->]] by lia; vm_compute; done. Qed.

Lemma land_31 p : Z.land p 31 = p mod 32.
Proof. exact (Z.land_ones p 5 ltac:(lia)). Qed.

Lemma sign_table st qo p :
  types_ok st qo -> table_ok (sign_icdf st qo p) = true /\ len (sign_icdf st qo p) = 2.
Proof.
  intros [Hs Hq]. split; [|done]. unfold sign_icdf. change 0x1F with 31. rewrite land_31.
  assert (0 <= p mod 32 < 32) as Hp by (apply Z.mod_pos_bound; lia).
  set (m := Z.min (p mod 32) 6). assert (0 <= m <= 6) as Hm by lia. clearbody m. clear Hp.
  assert (zforall 3 0 (fun s => zforall 2 0 (fun q => zforall 7 0 (fun m =>
    table_ok [silk_sign_iCDF.[7 * (q + Z.shiftl s 1) + m]; 0]))) = true) as H by (vm_compute; reflexivity).
  pose proof (zforall_spec _ _ _ st H ltac:(lia)) as H1. cbv beta in H1.
  pose proof (zforall_spec _ _ _ qo H1 ltac:(lia)) as H2. cbv beta in H2.
  exact (zforall_spec _ _ _ m H2 ltac:(lia)).
Qed.

(** Accesses to a list given by its elements, at an index that is a literal. *)
Ltac rd_lit := repeat
  match goal with
  | |- context [rd ?l ?k] =>
      let n := eval vm_compute in (Z.to_nat k) in
      let x := eval cbn [nth] in (nth n l 0) in
      change (rd l k) with x
  end.

(** ** Shell code *)

Section Coder.
Context `{EntropyCoder E D}.

Lemma codes_split t a b :
  In t split_tables -> 0 <= a -> 0 <= b -> a + b <= 16 ->
  codes (encode_split a (a + b) t) (decode_split (a + b) t) (a, b).
Proof.
  intros Ht Ha Hb Hab. unfold encode_split, decode_split. destruct (Z.gtb_spec (a + b) 0) as [Hp|Hp].
  - destruct (split_table t (a + b) Ht ltac:(lia)) as [Hok Hl].
    eapply (codes_map _ _ (fun x => (i16 x, i16 (a + b - i16 x)))); [apply codes_table; [done|lia]|].
    rewrite (i16_small a) by lia. rewrite i16_small by lia. f_equal. lia.
  - assert (a = 0) as -> by lia. assert (b = 0) as -> by lia. apply codes_skip.
Qed.

Lemma yields_split t p :
  In t split_tables -> 0 <= p <= 16 ->
  yields dec_inv (decode_split p t) (fun ab => 0 <= ab.1 /\ 0 <= ab.2 /\ ab.1 + ab.2 = p).
Proof.
  intros Ht Hp. unfold decode_split. destruct (Z.gtb_spec p 0) as [H0|H0].
  - destruct (split_table t p Ht ltac:(lia)) as [Hok Hl].
    eapply yields_seq; [by apply yields_table|]. cbv beta. intros x Hx. apply yields_done. cbn [fst snd].
    rewrite (i16_small x) by lia. rewrite i16_small by lia. lia.
  - apply yields_done. cbn [fst snd]. lia.
Qed.

(** A list of 16 elements, by its elements. *)
Lemma sixteen (l : list Z) : length l = 16%nat ->
  exists a b c d e f g h i j k m n o p q, l = [a; b; c; d; e; f; g; h; i; j; k; m; n; o; p; q].
Proof.
  intros Hl. do 16 (destruct l as [|? l]; [discriminate|]). destruct l; [|discriminate].
  repeat eexists.
Qed.

Definition sum_list (l : list Z) : Z := foldr Z.add 0 l.

Ltac in_tables := unfold split_tables; cbn [In]; tauto.

Lemma codes_shell l :
  length l = 16%nat -> Forall (fun a => 0 <= a) l -> sum_list l <= 16 ->
  codes (silk_shell_encoder l) (silk_shell_decoder (sum_list l)) l.
Proof.
  intros Hl Hpos Hs. apply sixteen in Hl as (a & b & c & d & e & f & g & h & i & j & k & m & n & o & p & q & ->).
  repeat (apply Forall_cons_1 in Hpos as [? Hpos]). clear Hpos.
  unfold sum_list in *. cbn [foldr] in *.
  replace (a + (b + (c + (d + (e + (f + (g + (h + (i + (j + (k + (m + (n + (o + (p + (q + 0))))))))))))))))
    with ((a + b + (c + d) + (e + f + (g + h))) + (i + j + (k + m) + (n + o + (p + q)))) in * by lia.
  unfold silk_shell_encoder, silk_shell_decoder. cbv zeta.
  change (combine_pulses [a; b; c; d; e; f; g; h; i; j; k; m; n; o; p; q] 8)
    with [a + b; c + d; e + f; g + h; i + j; k + m; n + o; p + q].
  change (combine_pulses [a + b; c + d; e + f; g + h; i + j; k + m; n + o; p + q] 4)
    with [a + b + (c + d); e + f + (g + h); i + j + (k + m); n + o + (p + q)].
  change (combine_pulses [a + b + (c + d); e + f + (g + h); i + j + (k + m); n + o + (p + q)] 2)
    with [a + b + (c + d) + (e + f + (g + h)); i + j + (k + m) + (n + o + (p + q))].
  change (combine_pulses [a + b + (c + d) + (e + f + (g + h)); i + j + (k + m) + (n + o + (p + q))] 1)
    with [a + b + (c + d) + (e + f + (g + h)) + (i + j + (k + m) + (n + o + (p + q)))].
  rd_lit.
  repeat (eapply codes_seq; [apply codes_split; [in_tables|lia..]|cbv beta iota]).
  eapply codes_last; [apply codes_split; [in_tables|lia..]|]. apply codes_skip.
Qed.
End Coder.

(** ** Scaling *)

(** The amplitudes of a block fit the shell code. *)
Definition fits (l : list Z) : Prop :=
  Forall (fun s => s <= 8) (combine_pulses l 8) /\
  Forall (fun s => s <= 10) (combine_pulses (combine_pulses l 8) 4) /\
  Forall (fun s => s <= 12) (combine_pulses (combine_pulses (combine_pulses l 8) 4) 2) /\
  sum_list l <= 16.

Lemma eight (l : list Z) : length l = 8%nat ->
  exists a b c d e f g h, l = [a; b; c; d; e; f; g; h].
Proof.
  intros Hl. do 8 (destruct l as [|? l]; [discriminate|]). destruct l; [|discriminate].
  repeat eexists.
Qed.

Ltac wr_lit := repeat
  match goal with
  | |- context [wr ?l ?k ?v] =>
      let n := eval vm_compute in (Z.to_nat k) in
      let x := eval cbn in (<[n := v]> l) in
      change (wr l k v) with x
  end.

(** Both arrays given by their elements: the loop unrolled. *)
Ltac unroll_check := repeat
  (cbn [combine_and_check default from_option id]; wr_lit; rd_lit;
   match goal with |- context [?a >? ?b] => destruct (Z.gtb_spec a b) end).

(** The outcome of a check that should leave [sums] in front of an array of [n]. *)
Definition checked (n : nat) (r : Z * list Z) (sums : list Z) (M : Z) : Prop :=
  length r.2 = n /\
  ((r.1 = 1 /\ ~ Forall (fun s => s <= M) sums) \/
   (r.1 = 0 /\ take (length sums) r.2 = sums /\ Forall (fun s => s <= M) sums)).

Ltac finish_check :=
  split; [reflexivity|];
  first
    [ left; split; [reflexivity|]; let HF := fresh in intros HF;
      repeat (apply Forall_cons_1 in HF as [? HF]); lia
    | right; split; [reflexivity|]; split; [reflexivity|]; repeat constructor; lia ].

Lemma check_8 comb l M :
  length comb = 8%nat -> length l = 16%nat ->
  checked 8 (combine_and_check 8 0 comb (Some l) M) (combine_pulses l 8) M.
Proof.
  intros (c0 & c1 & c2 & c3 & c4 & c5 & c6 & c7 & ->)%eight
    (a & b & c & d & e & f & g & h & i & j & k & m & n & o & p & q & ->)%sixteen.
  change (combine_pulses [a; b; c; d; e; f; g; h; i; j; k; m; n; o; p; q] 8)
    with [a + b; c + d; e + f; g + h; i + j; k + m; n + o; p + q].
  unroll_check; finish_check.
Qed.

Lemma check_4 l M :
  length l = 8%nat -> checked 8 (combine_and_check 4 0 l None M) (combine_pulses l 4) M.
Proof.
  intros (a & b & c & d & e & f & g & h & ->)%eight.
  change (combine_pulses [a; b; c; d; e; f; g; h] 4) with [a + b; c + d; e + f; g + h].
  unroll_check; finish_check.
Qed.

Lemma check_2 l M :
  length l = 8%nat -> checked 8 (combine_and_check 2 0 l None M) (combine_pulses l 2) M.
Proof.
  intros (a & b & c & d & e & f & g & h & ->)%eight.
  change (combine_pulses [a; b; c; d; e; f; g; h] 2) with [a + b; c + d].
  unroll_check; finish_check.
Qed.

Lemma check_1 l s M :
  checked 1 (combine_and_check 1 0 [s] (Some l) M) (combine_pulses l 1) M.
Proof. change (combine_pulses l 1) with [l.[0] + l.[1]]. unroll_check; finish_check. Qed.

Lemma combine_take l n : combine_pulses (take (2 * n) l) n = combine_pulses l n.
Proof.
  unfold combine_pulses. apply map_ext_in. intros k Hk%in_seq. by rewrite !rd_take by lia.
Qed.

(** The four sums of the tree are the sum of the block. *)
Lemma combine_sum l :
  length l = 16%nat ->
  combine_pulses (combine_pulses (combine_pulses (combine_pulses l 8) 4) 2) 1 = [sum_list l].
Proof.
  intros (a & b & c & d & e & f & g & h & i & j & k & m & n & o & p & q & ->)%sixteen.
  transitivity [a + b + (c + d) + (e + f + (g + h)) + (i + j + (k + m) + (n + o + (p + q)))];
    [reflexivity|]. unfold sum_list. cbn [foldr]. f_equal. lia.
Qed.

Lemma checked_bit n r sums M : checked n r sums M -> 0 <= r.1.
Proof. intros [_ [[-> _]|[-> _]]]; lia. Qed.

(** A check that passed leaves what the next one combines. *)
Lemma checked_next n (l c : list Z) :
  take (length (combine_pulses l (2 * n))) c = combine_pulses l (2 * n) ->
  combine_pulses c n = combine_pulses (combine_pulses l (2 * n)) n.
Proof.
  intros Ht. rewrite <- (combine_take c), <- Ht. unfold combine_pulses at 3.
  by rewrite length_map, length_seq.
Qed.

Lemma fits_tree l :
  length l = 16%nat ->
  fits l <->
  Forall (fun s => s <= 8) (combine_pulses l 8) /\
  Forall (fun s => s <= 10) (combine_pulses (combine_pulses l 8) 4) /\
  Forall (fun s => s <= 12) (combine_pulses (combine_pulses (combine_pulses l 8) 4) 2) /\
  Forall (fun s => s <= 16)
    (combine_pulses (combine_pulses (combine_pulses (combine_pulses l 8) 4) 2) 1).
Proof.
  intros Hl. unfold fits. rewrite combine_sum by done.
  assert (sum_list l <= 16 <-> Forall (fun s => s <= 16) [sum_list l]) as ->; [|done].
  split; [intros; by repeat constructor|]. by intros [? _]%Forall_cons_1.
Qed.

Lemma combine_block_spec comb l s :
  length comb = 8%nat -> length l = 16%nat ->
  let '(scale_down, comb', s') := combine_block comb l s in
  length comb' = 8%nat /\ 0 <= scale_down /\ (scale_down = 0 <-> fits l) /\
  (scale_down = 0 -> s' = sum_list l).
Proof.
  intros Hc Hl. unfold combine_block.
  change (silk_max_pulses_table.[0]) with 8. change (silk_max_pulses_table.[1]) with 10.
  change (silk_max_pulses_table.[2]) with 12. change (silk_max_pulses_table.[3]) with 16.
  pose proof (check_8 comb l 8 Hc Hl) as C0. destruct (combine_and_check 8 _ _ _ _) as [s0 c0].
  pose proof (checked_bit _ _ _ _ C0) as B0. destruct C0 as [L0 C0]. cbn [fst snd] in *.
  pose proof (check_4 c0 10 L0) as C1. destruct (combine_and_check 4 _ _ _ _) as [s1 c1].
  pose proof (checked_bit _ _ _ _ C1) as B1. destruct C1 as [L1 C1]. cbn [fst snd] in *.
  pose proof (check_2 c1 12 L1) as C2. destruct (combine_and_check 2 _ _ _ _) as [s2 c2].
  pose proof (checked_bit _ _ _ _ C2) as B2. destruct C2 as [L2 C2]. cbn [fst snd] in *.
  pose proof (check_1 c2 s 16) as C3. destruct (combine_and_check 1 _ _ _ _) as [s3 c3].
  pose proof (checked_bit _ _ _ _ C3) as B3. destruct C3 as [L3 C3]. cbn [fst snd] in *.
  split; [done|]. split; [lia|]. rewrite fits_tree by done.
  destruct C0 as [[-> F0]|(-> & E0%(checked_next 4) & F0)]; [split; [split; [lia|tauto]|lia]|].
  rewrite E0 in C1. destruct C1 as [[-> F1]|(-> & E1%(checked_next 2) & F1)]; [split; [split; [lia|tauto]|lia]|].
  rewrite E1 in C2. destruct C2 as [[-> F2]|(-> & E2%(checked_next 1) & F2)]; [split; [split; [lia|tauto]|lia]|].
  rewrite E2 in C3. destruct C3 as [[-> F3]|(-> & E3 & F3)]; [split; [split; [lia|tauto]|lia]|].
  split; [done|]. intros _. rewrite combine_sum in E3 by done. cbn [length] in E3.
  destruct c3 as [|x c3]; [discriminate|]. by injection E3 as ->.
Qed.

Lemma fits_ones l : length l = 16%nat -> Forall (fun a => 0 <= a <= 1) l -> fits l.
Proof.
  intros Hl Hb. apply fits_tree; [done|]. rewrite combine_sum by done.
  destruct (sixteen l Hl) as (a & b & c & d & e & f & g & h & i & j & k & m & n & o & p & q & ->).
  repeat (apply Forall_cons_1 in Hb as [? Hb]). clear Hb Hl.
  unfold sum_list. cbn [foldr].
  change (combine_pulses [a; b; c; d; e; f; g; h; i; j; k; m; n; o; p; q] 8)
    with [a + b; c + d; e + f; g + h; i + j; k + m; n + o; p + q].
  change (combine_pulses [a + b; c + d; e + f; g + h; i + j; k + m; n + o; p + q] 4)
    with [a + b + (c + d); e + f + (g + h); i + j + (k + m); n + o + (p + q)].
  change (combine_pulses [a + b + (c + d); e + f + (g + h); i + j + (k + m); n + o + (p + q)] 2)
    with [a + b + (c + d) + (e + f + (g + h)); i + j + (k + m) + (n + o + (p + q))].
  split_and!; repeat constructor; lia.
Qed.

(** [l] shifted right by [n]. *)
Definition shifted (n : Z) (l : list Z) : list Z := map (fun a => Z.shiftr a n) l.

Lemma shifted_0 l : shifted 0 l = l.
Proof. unfold shifted. rewrite <- (map_id l) at 2. apply map_ext. intros a. apply Z.shiftr_0_r. Qed.
Lemma shifted_add m n l : 0 <= m -> 0 <= n -> shifted m (shifted n l) = shifted (m + n) l.
Proof.
  intros Hm Hn. unfold shifted. rewrite map_map. apply map_ext. intros a.
  rewrite Z.shiftr_shiftr by done. f_equal. lia.
Qed.
Lemma length_shifted n l : length (shifted n l) = length l.
Proof. apply length_map. Qed.

(** The loop ends: it shifts [l] until it fits, at most [m] times when the
    amplitudes are at most 2^m. *)
Lemma scale_block_total m fuel comb l s n :
  length comb = 8%nat -> length l = 16%nat -> (m < fuel)%nat ->
  Forall (fun a => 0 <= a <= 2 ^ Z.of_nat m) l ->
  exists comb' k, length comb' = 8%nat /\ 0 <= k <= Z.of_nat m /\
    scale_block fuel comb l s n = Some (comb', shifted k l, sum_list (shifted k l), n + k) /\
    fits (shifted k l) /\ (0 < k -> ~ fits (shifted (k - 1) l)).
Proof.
  revert fuel comb l s n. induction m as [|m IH]; intros fuel comb l s n Hc Hl Hf Hb;
    (destruct fuel as [|fuel]; [lia|]); cbn [scale_block];
    pose proof (combine_block_spec comb l s Hc Hl) as Hs;
    destruct (combine_block comb l s) as [[sd comb'] s']; destruct Hs as (Hc' & Hsd & Hfit & Hsum).
  - assert (sd = 0) as -> by (apply Hfit, fits_ones; done). cbn [negb Z.eqb].
    exists comb', 0. rewrite shifted_0, (Hsum eq_refl), Z.add_0_r. split_and!; try (done || lia). by apply Hfit.
  - destruct (Z.eqb_spec sd 0) as [->|H0]; cbn [negb].
    { exists comb', 0. rewrite shifted_0, (Hsum eq_refl), Z.add_0_r. split_and!; try (done || lia). by apply Hfit. }
    destruct (IH fuel comb' (shifted 1 l) s' (n + 1)) as (c & k & Hlc & Hk & E & F1 & F2);
      [done|by rewrite length_shifted|lia| |].
    { apply Forall_map. eapply Forall_impl; [|exact Hb]. cbv beta. intros a Ha.
      rewrite Z.shiftr_div_pow2 by lia. rewrite Nat2Z.inj_succ, Z.pow_succ_r in Ha by lia.
      unfold compose. change (2 ^ 1) with 2. dlia. }
    rewrite shifted_add in * by lia. exists c, (k + 1).
    split_and!; [done|lia|lia|by replace (n + (k + 1)) with (n + 1 + k) by lia|done|].
    intros _. replace (k + 1 - 1) with k by lia. destruct (decide (k = 0)) as [->|].
    + rewrite shifted_0. rewrite <- Hfit. done.
    + replace k with (k - 1 + 1) by lia. rewrite <- shifted_add by lia. apply F2. lia.
Qed.

Lemma sum_list_pos l : Forall (fun a => 0 <= a) l -> 0 <= sum_list l.
Proof.
  induction 1 as [|a l Ha Hl IH]; unfold sum_list in *; cbn [foldr]; lia.
Qed.

Lemma sum_list_zero l : Forall (fun a => 0 <= a) l -> sum_list l <= 0 -> Forall (fun a => a = 0) l.
Proof.
  induction 1 as [|a l Ha Hl IH]; unfold sum_list in *; cbn [foldr]; [constructor|].
  pose proof (sum_list_pos l Hl) as Hp. unfold sum_list in Hp. intros Hs. constructor; [lia|]. apply IH. lia.
Qed.

(** A block that does not fit keeps a pulse when it is shifted. *)
Lemma unfit_pulse l :
  length l = 16%nat -> Forall (fun a => 0 <= a) l -> ~ fits l -> 0 < sum_list (shifted 1 l).
Proof.
  intros Hl Hp Hf. destruct (Z.lt_ge_cases 0 (sum_list (shifted 1 l))) as [|Hs]; [done|].
  exfalso. apply Hf, fits_ones; [done|].
  apply sum_list_zero in Hs.
  - unfold shifted in Hs. rewrite Forall_map in Hs. apply Forall_forall. intros a Ha.
    rewrite Forall_forall in Hp, Hs. specialize (Hp a Ha). specialize (Hs a Ha). unfold compose in Hs.
    rewrite Z.shiftr_div_pow2 in Hs by lia. change (2 ^ 1) with 2 in Hs. dlia.
  - apply Forall_map. eapply Forall_impl; [|exact Hp]. intros a Ha. by apply Z.shiftr_nonneg.
Qed.

Definition int8 (x : Z) : Prop := -128 <= x <= 127.

(** What the scaling leaves of a block. *)
Record block_ok (b : block) : Prop := {
  ok_length : length b.(b_pulses) = 16%nat;
  ok_int8 : Forall int8 b.(b_pulses);
  ok_shifts : 0 <= b.(b_nRshifts) <= 7;
  ok_abs : b.(b_abs) = shifted b.(b_nRshifts) (map Z.abs b.(b_pulses));
  ok_sum : b.(b_sum) = sum_list b.(b_abs);
  ok_fits : fits b.(b_abs);
  ok_pulse : 0 < b.(b_nRshifts) -> 0 < b.(b_sum)
}.

Lemma abs_pos l : Forall (fun a => 0 <= a) (map Z.abs l).
Proof. apply Forall_forall. intros a (x & <- & _)%in_map_iff. lia. Qed.

Lemma shifted_pos n l : Forall (fun a => 0 <= a) l -> Forall (fun a => 0 <= a) (shifted n l).
Proof. intros Hl. apply Forall_map. eapply Forall_impl; [|exact Hl]. intros a Ha. by apply Z.shiftr_nonneg. Qed.

Lemma scale_blocks_total fuel comb l :
  length comb = 8%nat -> (7 < fuel)%nat ->
  Forall (fun p => length p = 16%nat /\ Forall int8 p) l ->
  exists bs, scale_blocks fuel comb l = Some bs /\ map b_pulses bs = l /\ Forall block_ok bs.
Proof.
  intros Hc Hf. revert comb Hc. induction l as [|p l IH]; intros comb Hc Hl.
  { exists []. split_and!; [done..|constructor]. }
  apply Forall_cons_1 in Hl as [[Hp Hi] Hl]. cbn [scale_blocks].
  destruct (scale_block_total 7 fuel comb (map Z.abs p) 0 0) as (comb' & k & Hc' & Hk & -> & F1 & F2);
    [done|by rewrite length_map|done| |].
  { apply Forall_map. eapply Forall_impl; [|exact Hi]. unfold int8, compose. cbv beta. intros a Ha.
    change (2 ^ Z.of_nat 7) with 128. lia. }
  destruct (IH comb' Hc' Hl) as (bs & E & Em & Ho). cbn [mbind option_bind]. rewrite E. cbn [mbind option_bind].
  eexists. split; [done|]. split; [cbn [map b_pulses]; by rewrite Em|]. constructor; [|done].
  split; cbn [b_pulses b_abs b_nRshifts b_sum]; rewrite ?Z.add_0_l; try done.
  intros Hk0. replace (shifted k (map Z.abs p)) with (shifted 1 (shifted (k - 1) (map Z.abs p)))
    by (rewrite shifted_add by lia; f_equal; lia).
  apply unfit_pulse; [by rewrite length_shifted, length_map|apply shifted_pos, abs_pos|by apply F2].
Qed.

(** ** Round trip *)

Section RoundTrip.
Context `{EntropyCoder E D}.

Lemma codes_pulse_table k s :
  0 <= k < 10 -> 0 <= s <= 17 ->
  codes (ec_enc_icdf s (row silk_pulses_per_block_iCDF k) 8)
    (ec_dec_icdf (row silk_pulses_per_block_iCDF k) 8) s.
Proof. intros Hk Hs. destruct (pulses_table k Hk) as [Hok Hl]. apply codes_table; [done|lia]. Qed.

Lemma codes_lsb_count m : forall i fuel sum nL,
  0 <= nL -> nL + Z.of_nat m + 1 < 10 -> (m + 1 < fuel)%nat -> 0 <= sum <= 16 ->
  codes (enc_all (fun _ => ec_enc_icdf (SILK_MAX_PULSES + 1) (row silk_pulses_per_block_iCDF (N_RATE_LEVELS - 1)) 8)
           (seq i m) >>>
         ec_enc_icdf sum (row silk_pulses_per_block_iCDF (N_RATE_LEVELS - 1)) 8)
    (decode_lsb_count fuel (SILK_MAX_PULSES + 1) nL) (Some (sum, nL + Z.of_nat m + 1)).
Proof.
  induction m as [|m IH]; intros i fuel sum nL HnL Hm Hf Hs;
    (destruct fuel as [|fuel]; [lia|]); cbn [decode_lsb_count seq enc_all]; rewrite Z.eqb_refl; cbv zeta;
    (destruct (Z.eqb_spec (nL + 1) 10); [lia|]); rewrite drop_0.
  - eapply (codes_ext _ _ _ _ _ ltac:(reflexivity) ltac:(reflexivity)).
    eapply codes_last; [apply (codes_pulse_table 9); lia|]. cbv beta.
    destruct fuel as [|fuel]; [lia|]. cbn [decode_lsb_count].
    destruct (Z.eqb_spec sum (SILK_MAX_PULSES + 1)) as [E1|E1]; [unfold SILK_MAX_PULSES in E1; lia|].
    replace (nL + Z.of_nat 0 + 1) with (nL + 1) by lia. apply codes_skip.
  - eapply (codes_seq _ (enc_all _ (seq (S i) m) >>> _)); [apply (codes_pulse_table 9 17); lia|]. cbv beta.
    replace (nL + Z.of_nat (S m) + 1) with (nL + 1 + Z.of_nat m + 1) by lia. apply (IH (S i)); lia.
Qed.

Lemma codes_sum r b :
  0 <= r < 10 -> block_ok b ->
  codes (encode_sum r b) (decode_sum r) (Some (b.(b_sum), b.(b_nRshifts))).
Proof.
  intros Hr Hb. unfold encode_sum, decode_sum. cbv zeta.
  assert (0 <= b.(b_sum) <= 16) as Hs.
  { rewrite (ok_sum b Hb). split; [|apply (ok_fits b Hb)].
    rewrite (ok_abs b Hb). apply sum_list_pos, shifted_pos, abs_pos. }
  pose proof (ok_shifts b Hb) as Hn.
  destruct (Z.eqb_spec b.(b_nRshifts) 0) as [->|H0].
  - eapply codes_last; [apply codes_pulse_table; [done|lia]|]. cbn [decode_lsb_count].
    destruct (Z.eqb_spec b.(b_sum) (SILK_MAX_PULSES + 1)) as [E1|E1]; [unfold SILK_MAX_PULSES in E1; lia|].
    apply codes_skip.
  - eapply codes_seq; [apply codes_pulse_table; [done|unfold SILK_MAX_PULSES; lia]|].
    replace (Some (b.(b_sum), b.(b_nRshifts)))
      with (Some (b.(b_sum), 0 + Z.of_nat (Z.to_nat (b.(b_nRshifts) - 1)) + 1)) by (do 2 f_equal; lia).
    apply codes_lsb_count; lia.
Qed.

Lemma abs_zero b : block_ok b -> b.(b_sum) <= 0 -> b.(b_pulses) = repeat 0 16 /\ b.(b_nRshifts) = 0.
Proof.
  intros Hb Hs. assert (b.(b_nRshifts) = 0) as H0.
  { pose proof (ok_shifts b Hb). pose proof (ok_pulse b Hb). lia. }
  split; [|done]. pose proof (ok_sum b Hb) as E1. rewrite (ok_abs b Hb), H0, shifted_0 in E1.
  rewrite E1 in Hs. apply sum_list_zero in Hs; [|apply abs_pos]. rewrite Forall_map in Hs.
  rewrite <- (ok_length b Hb). clear -Hs. induction (b_pulses b) as [|a l IH]; [done|].
  apply Forall_cons_1 in Hs as [Ha Hl]. cbn [length repeat]. f_equal; [unfold compose in Ha; lia|by apply IH].
Qed.

Lemma codes_block_shell b :
  block_ok b -> codes (encode_shell b) (decode_shell (b.(b_sum), b.(b_nRshifts))) b.(b_abs).
Proof.
  intros Hb. unfold encode_shell, decode_shell. cbn [fst]. destruct (Z.gtb_spec b.(b_sum) 0) as [Hs|Hs].
  - rewrite (ok_sum b Hb). apply codes_shell; [| |apply (ok_fits b Hb)].
    + by rewrite (ok_abs b Hb), length_shifted, length_map, (ok_length b Hb).
    + rewrite (ok_abs b Hb). apply shifted_pos, abs_pos.
  - destruct (abs_zero b Hb Hs) as [E1 E2]. rewrite (ok_abs b Hb), E1, E2, shifted_0. apply codes_skip.
Qed.

Lemma land_1 x : Z.land x 1 = x mod 2.
Proof. exact (Z.land_ones x 1 ltac:(lia)). Qed.

Lemma codes_bit a :
  codes (ec_enc_icdf (Z.land a 1) silk_lsb_iCDF 8) (ec_dec_icdf silk_lsb_iCDF 8) (a mod 2).
Proof.
  rewrite land_1. apply codes_table; [by vm_compute|]. change (len silk_lsb_iCDF) with 2.
  apply Z.mod_pos_bound. lia.
Qed.

Lemma codes_lsb m a : forall x,
  codes (encode_lsb m a) (decode_lsb (S m) x) (x * 2 ^ Z.of_nat (S m) + a mod 2 ^ Z.of_nat (S m)).
Proof.
  induction m as [|m IH]; intros x.
  - cbn [encode_lsb decode_lsb]. cbv zeta. rewrite Z.shiftl_mul_pow2 by lia. change (Z.of_nat 1) with 1.
    eapply codes_last; [apply codes_bit|apply codes_skip].
  - change (encode_lsb (S m) a) with
      (ec_enc_icdf (Z.land (Z.shiftr a (Z.of_nat (S m))) 1) silk_lsb_iCDF 8 >>> encode_lsb m a).
    change (decode_lsb (S (S m)) x) with
      (dec_bind (D := D) (ec_dec_icdf silk_lsb_iCDF 8) (fun y => decode_lsb (S m) (Z.shiftl x 1 + y))).
    rewrite Z.shiftl_mul_pow2, Z.shiftr_div_pow2 by lia. change (2 ^ 1) with 2.
    eapply codes_seq; [apply codes_bit|].
    replace (x * 2 ^ Z.of_nat (S (S m)) + a mod 2 ^ Z.of_nat (S (S m)))
      with ((x * 2 + (a / 2 ^ Z.of_nat (S m)) mod 2) * 2 ^ Z.of_nat (S m) + a mod 2 ^ Z.of_nat (S m)); [apply IH|].
    rewrite (Nat2Z.inj_succ (S m)), Z.pow_succ_r, (Z.mul_comm 2 (2 ^ _)), Z.rem_mul_r by lia. lia.
Qed.

Lemma i8_mod x n : 0 <= n <= 8 -> i8 x mod 2 ^ n = x mod 2 ^ n.
Proof.
  intros Hn. unfold i8. rewrite Zminus_mod, mod_mod_pow2, <- Zminus_mod by lia. f_equal. lia.
Qed.

Lemma codes_block_lsbs b :
  block_ok b ->
  codes (encode_lsbs b) (decode_lsbs (b.(b_abs), (b.(b_sum), b.(b_nRshifts)))) (map Z.abs b.(b_pulses)).
Proof.
  intros Hb. unfold encode_lsbs, decode_lsbs. pose proof (ok_shifts b Hb) as Hn. rewrite (ok_abs b Hb).
  destruct (Z.gtb_spec b.(b_nRshifts) 0) as [Hk|Hk].
  - unfold shifted. rewrite map_map. cbv zeta. apply codes_each. intros q Hq.
    pose proof (ok_int8 b Hb) as Hi. rewrite Forall_forall in Hi. specialize (Hi q Hq). unfold int8 in Hi.
    replace (Z.to_nat b.(b_nRshifts)) with (S (Z.to_nat (b.(b_nRshifts) - 1))) by lia.
    eapply (codes_map _ _ i16); [apply codes_lsb|].
    replace (Z.of_nat (S (Z.to_nat (b.(b_nRshifts) - 1)))) with b.(b_nRshifts) by lia.
    rewrite i8_mod, Z.shiftr_div_pow2 by lia.
    rewrite (Z.mul_comm (_ / _)), <- Z.div_mod by lia. apply i16_small. lia.
  - assert (b.(b_nRshifts) = 0) as -> by lia. rewrite shifted_0. apply codes_skip.
Qed.
Lemma codes_sign st qo p q :
  types_ok st qo -> int8 q ->
  codes (encode_sign (sign_icdf st qo p) q) (decode_sign (sign_icdf st qo p) (Z.abs q)) q.
Proof.
  intros Ht Hq. unfold int8 in Hq. destruct (sign_table st qo p Ht) as [Hok Hl].
  unfold encode_sign, decode_sign. destruct (Z.eqb_spec q 0) as [->|H0]; cbn [negb].
  { apply codes_skip. }
  destruct (Z.gtb_spec (Z.abs q) 0); [|lia].
  assert (silk_enc_map q = b2z (q >? 0)) as ->.
  { unfold silk_enc_map. rewrite Z.shiftr_div_pow2 by lia. change (2 ^ 15) with 32768.
    destruct (Z.gtb_spec q 0); cbn [b2z]; dlia. }
  eapply (codes_map _ _ (fun x => i16 (Z.abs q * silk_dec_map x))).
  { apply codes_table; [done|]. rewrite Hl. destruct (q >? 0); cbn [b2z]; lia. }
  unfold silk_dec_map. rewrite Z.shiftl_mul_pow2 by lia. change (2 ^ 1) with 2.
  destruct (Z.gtb_spec q 0); cbn [b2z]; rewrite i16_small; lia.
Qed.

(** The mark of the decoder keeps the number of pulses that selects the table. *)
Lemma mark_sum_spec s n :
  0 <= s <= 16 -> 0 <= n -> 0 <= mark_sum (s, n) /\ (0 < mark_sum (s, n) <-> 0 < s \/ 0 < n) /\
  Z.land (mark_sum (s, n)) 31 = Z.land s 31.
Proof.
  intros Hs Hn. unfold mark_sum. cbn [fst snd]. destruct (Z.gtb_spec n 0); [|split_and!; try done; lia].
  rewrite Z.shiftl_mul_pow2, lor_add_pow2 by lia. change (2 ^ 5) with 32. split_and!; try lia.
  rewrite !land_31. by rewrite Z.mod_add by lia.
Qed.

Lemma codes_block_signs st qo b :
  types_ok st qo -> block_ok b ->
  codes (encode_block_signs st qo (b.(b_pulses), b.(b_sum)))
    (decode_block_signs st qo (map Z.abs b.(b_pulses), mark_sum (b.(b_sum), b.(b_nRshifts)))) b.(b_pulses).
Proof.
  intros Ht Hb. unfold encode_block_signs, decode_block_signs. pose proof (ok_shifts b Hb) as Hn.
  assert (0 <= b.(b_sum) <= 16) as Hs.
  { rewrite (ok_sum b Hb). split; [|apply (ok_fits b Hb)].
    rewrite (ok_abs b Hb). apply sum_list_pos, shifted_pos, abs_pos. }
  destruct (mark_sum_spec b.(b_sum) b.(b_nRshifts) Hs ltac:(lia)) as (M0 & M1 & M2).
  pose proof (ok_pulse b Hb) as Hp.
  destruct (Z.gtb_spec b.(b_sum) 0) as [H0|H0], (Z.gtb_spec (mark_sum (b.(b_sum), b.(b_nRshifts))) 0) as [H1|H1];
    try lia.
  - assert (sign_icdf st qo (mark_sum (b.(b_sum), b.(b_nRshifts))) = sign_icdf st qo b.(b_sum)) as ->.
    { unfold sign_icdf. change 0x1F with 31. by rewrite M2. }
    rewrite <- (map_id b.(b_pulses)) at 3. apply codes_each. intros q Hq. apply codes_sign; [done|].
    pose proof (ok_int8 b Hb) as Hi. rewrite Forall_forall in Hi. by apply Hi.
  - destruct (abs_zero b Hb H0) as [-> _]. apply codes_skip.
Qed.

(** *** The whole frame *)

Lemma length_blocks n : forall l, length (blocks n l) = n.
Proof. induction n as [|n IH]; intros l; cbn [blocks length]; [done|]. by rewrite IH. Qed.

Lemma blocks_concat bs :
  Forall (fun b => length b = 16%nat) bs -> blocks (length bs) (concat bs) = bs.
Proof.
  induction 1 as [|b bs Hb Hbs IH]; [done|]. cbn [length blocks concat].
  rewrite take_app_length' by done. by rewrite drop_app_length', IH by done.
Qed.

Lemma concat_blocks n : forall l, (16 * n <= length l)%nat ->
  concat (blocks n l) = take (16 * n) l /\ Forall (fun b => length b = 16%nat) (blocks n l).
Proof.
  induction n as [|n IH]; intros l Hl; [done|]. cbn [blocks concat].
  destruct (IH (drop 16 l)) as [E1 E2]; [rewrite length_drop; lia|]. rewrite E1. split.
  - rewrite <- (take_drop 16 (take (16 * S n) l)), take_take, skipn_firstn_comm.
    f_equal; f_equal; lia.
  - constructor; [rewrite length_take; lia|done].
Qed.

Lemma zip_maps {A B C} (f : A -> B) (g : A -> C) l : zip (map f l) (map g l) = map (fun x => (f x, g x)) l.
Proof. induction l as [|x l IH]; [done|]. cbn. by rewrite IH. Qed.

Lemma best_level_range n K : forall k st bs m r,
  0 <= k -> k + Z.of_nat n <= K -> 0 <= r < K -> 0 <= best_level n k st bs m r < K.
Proof.
  induction n as [|n IH]; intros k st bs m r Hk Hn Hr; cbn [best_level]; [done|]. cbv zeta.
  destruct (_ <? _); apply IH; lia.
Qed.

Lemma mapM_Some {A} (l : list A) : mapM id (map Some l) = Some l.
Proof. induction l as [|x l IH]; [done|]. cbn. by rewrite IH. Qed.

Lemma codes_blocks st qo frame_length pulses bs :
  types_ok st qo -> Forall block_ok bs ->
  Z.to_nat (sign_blocks frame_length) = length bs ->
  blocks (length bs) pulses = map b_pulses bs ->
  codes (enc_all encode_shell bs >>> enc_all encode_lsbs bs >>>
         silk_encode_signs pulses frame_length st qo (map b_sum bs))
    (decode_blocks st qo frame_length (map (fun b => (b.(b_sum), b.(b_nRshifts))) bs))
    (concat (map b_pulses bs)).
Proof.
  intros Ht Hbs Hn Hp. unfold decode_blocks, silk_encode_signs, silk_decode_signs. cbv zeta.
  rewrite Forall_forall in Hbs.
  eapply codes_seq.
  { apply (codes_each encode_shell decode_shell (fun b => (b.(b_sum), b.(b_nRshifts))) b_abs).
    intros b Hb. apply codes_block_shell, Hbs, Hb. }
  cbv beta. rewrite zip_maps. eapply codes_seq.
  { apply (codes_each encode_lsbs decode_lsbs _ (fun b => map Z.abs b.(b_pulses))).
    intros b Hb. apply codes_block_lsbs, Hbs, Hb. }
  cbv beta. rewrite Hn, Hp, map_map, zip_maps.
  assert (blocks (length bs) (concat (map (fun b => map Z.abs b.(b_pulses)) bs))
          = map (fun b => map Z.abs b.(b_pulses)) bs) as ->.
  { rewrite <- (length_map (fun b => map Z.abs b.(b_pulses)) bs) at 1. apply blocks_concat.
    apply Forall_forall. intros l (b & <- & Hb)%in_map_iff. rewrite length_map. apply ok_length, Hbs, Hb. }
  rewrite zip_maps. eapply (codes_map _ _ (@concat Z)); [|reflexivity].
  apply codes_each_map. intros b Hb. apply codes_block_signs; [done|]. by apply Hbs.
Qed.

(** Frame lengths for which the number of blocks of both sides agree: whole blocks, and the
    12 kHz frame of 10 ms. *)
Definition frame_ok (frame_length : Z) : Prop :=
  0 <= frame_length /\ (frame_length mod 16 = 0 \/ frame_length = 120).

Lemma frame_blocks fl :
  frame_ok fl -> sign_blocks fl = shell_blocks fl /\ 0 <= shell_blocks fl /\
  (fl mod 16 = 0 -> 16 * shell_blocks fl = fl) /\ (fl mod 16 <> 0 -> fl = 120).
Proof.
  intros [Hf Hm]. unfold sign_blocks, shell_blocks, SHELL_CODEC_FRAME_LENGTH, LOG2_SHELL_CODEC_FRAME_LENGTH.
  rewrite !Z.shiftr_div_pow2 by lia. change (2 ^ 4) with 16. change (16 / 2) with 8. cbv zeta.
  destruct (Z.ltb_spec (fl / 16 * 16) fl); split_and!; try dlia; destruct Hm as [Hm| ->]; try dlia; done.
Qed.

(** The caller's array has room for the blocks. *)
Definition frame_room (frame_length : Z) : Z :=
  if frame_length mod 16 =? 0 then frame_length else frame_length + 16.

Lemma padded_spec pulses fl :
  frame_ok fl -> frame_room fl <= len pulses -> Forall int8 pulses ->
  16 * shell_blocks fl <= len (padded_pulses pulses fl) /\ Forall int8 (padded_pulses pulses fl).
Proof.
  intros Hf Hr Hi. destruct (frame_blocks fl Hf) as (_ & H0 & H1 & H2).
  unfold padded_pulses, frame_room, SHELL_CODEC_FRAME_LENGTH, LOG2_SHELL_CODEC_FRAME_LENGTH in *.
  rewrite Z.shiftr_div_pow2 by lia. change (2 ^ 4) with 16.
  destruct (Z.eqb_spec (fl mod 16) 0) as [Hm|Hm].
  - destruct (Z.ltb_spec (fl / 16 * 16) fl); [dlia|]. split; [lia|done].
  - rewrite (H2 Hm) in *. change (120 / 16 * 16 <? 120) with true. cbv iota.
    change (shell_blocks 120) with 8. split.
    + rewrite !len_app, len_take by lia. unfold len in *. rewrite repeat_length. lia.
    + apply Forall_app. split; [by apply Forall_take|]. apply Forall_app. split; [|by apply Forall_drop].
      apply Forall_forall. intros x ->%repeat_spec. unfold int8. lia.
Qed.

Lemma codes_silk_pulses fuel st qo pulses fl :
  types_ok st qo -> frame_ok fl -> frame_room fl <= len pulses -> Forall int8 pulses -> (7 < fuel)%nat ->
  exists e, silk_encode_pulses fuel st qo pulses fl = Some e /\
    codes e (silk_decode_pulses st qo fl)
      (Some (take (16 * Z.to_nat (shell_blocks fl)) (padded_pulses pulses fl))).
Proof.
  intros Ht Hf Hr Hi Hfuel. destruct (padded_spec pulses fl Hf Hr Hi) as [Hl Hp].
  destruct (frame_blocks fl Hf) as (Hsb & H0 & _ & _).
  set (n := Z.to_nat (shell_blocks fl)) in *. set (pp := padded_pulses pulses fl) in *.
  destruct (concat_blocks n pp) as [Ec Eb]; [unfold len in Hl; lia|].
  destruct (scale_blocks_total fuel (repeat 0 8) (blocks n pp)) as (bs & Es & Em & Ho); [done..| |].
  { assert (Forall int8 (concat (blocks n pp))) as Hc by (rewrite Ec; by apply Forall_take).
    clear -Eb Hc. induction Eb as [|b l Hb Hl IH]; [constructor|]. cbn [concat] in Hc.
    apply Forall_app in Hc as [Hc1 Hc2]. constructor; [done|by apply IH]. }
  assert (length bs = n) as Hn by (by rewrite <- (length_map b_pulses bs), Em, length_blocks).
  unfold silk_encode_pulses, scaled. fold n pp. rewrite Es. cbn [mbind option_bind]. eexists. split; [done|].
  unfold encode_blocks, silk_decode_pulses. cbv zeta.
  set (r := best_level (Z.to_nat (N_RATE_LEVELS - 1)) 0 st bs silk_int32_MAX 0).
  assert (0 <= r < 9) as Hrl by (apply best_level_range; unfold N_RATE_LEVELS; lia).
  destruct Ht as [Ht1 Ht2]. destruct (levels_table st Ht1) as [Hok Hlev].
  eapply codes_seq; [apply codes_table; [done|lia]|]. cbv beta. fold n.
  eapply codes_seq.
  { rewrite <- Hn. apply (codes_times (encode_sum r) (decode_sum r)
      (fun b => Some (b.(b_sum), b.(b_nRshifts)))). intros b Hb. rewrite Forall_forall in Ho.
    apply codes_sum; [lia|by apply Ho]. }
  rewrite <- (map_map (fun b => (b.(b_sum), b.(b_nRshifts))) Some), mapM_Some. cbv beta iota.
  eapply (codes_map _ _ Some); [|rewrite <- Ec, <- Em; reflexivity].
  apply codes_blocks; [done..|by rewrite Hsb, Hn|by rewrite Hn].
Qed.

(** ** Decoding arbitrary bytes *)

(** The loop over the shift counts ends: the tenth symbol cannot ask for more. *)
Lemma yields_lsb_count fuel : forall s n,
  0 <= s <= 17 -> 0 <= n <= 10 -> (n = 10 -> s <= 16) -> (Z.to_nat (10 - n) < fuel)%nat ->
  yields dec_inv (decode_lsb_count fuel s n)
    (fun r => exists s' n', r = Some (s', n') /\ 0 <= s' <= 16 /\ 0 <= n' <= 10).
Proof.
  induction fuel as [|fuel IH]; intros s n Hs Hn Hlast Hf; [lia|]. cbn [decode_lsb_count]. cbv zeta.
  change (N_RATE_LEVELS - 1) with 9. unfold SILK_MAX_PULSES. destruct (Z.eqb_spec s (16 + 1)) as [H17|H17].
  - destruct (Z.eqb_spec (n + 1) 10) as [H10|H10].
    + eapply yields_seq; [apply yields_table; by vm_compute|]. cbv beta.
      change (len _) with 17. intros x Hx. apply IH; lia.
    + rewrite drop_0. destruct (pulses_table 9) as [Hok Hl]; [lia|].
      eapply yields_seq; [by apply yields_table|]. cbv beta. rewrite Hl. intros x Hx. apply IH; lia.
  - apply yields_done. exists s, n. split; [done|]. lia.
Qed.

Lemma yields_sum r : 0 <= r < 10 ->
  yields dec_inv (decode_sum r) (fun r => exists s n, r = Some (s, n) /\ 0 <= s <= 16 /\ 0 <= n <= 10).
Proof.
  intros Hr. destruct (pulses_table r Hr) as [Hok Hl]. eapply yields_seq; [by apply yields_table|].
  cbv beta. rewrite Hl. intros s Hs. apply yields_lsb_count; lia.
Qed.
Ltac yield_splits := repeat
  (eapply yields_seq; [apply yields_split; [unfold split_tables; cbn [In]; tauto|lia]|
    cbv beta; let a := fresh "a" in let b := fresh "b" in intros [a b]; cbn [fst snd]; intros ?]).

Lemma yields_shell p :
  0 <= p <= 16 ->
  yields dec_inv (silk_shell_decoder p) (fun l => length l = 16%nat /\ Forall (fun a => 0 <= a <= 16) l).
Proof.
  intros Hp. unfold silk_shell_decoder. yield_splits. apply yields_done.
  split; [done|]. repeat (apply Forall_cons_2; [lia|]). apply List.Forall_nil.
Qed.

Lemma yields_lsb m : forall x,
  0 <= x -> yields dec_inv (decode_lsb m x) (fun y => 0 <= y < (x + 1) * 2 ^ Z.of_nat m).
Proof.
  induction m as [|m IH]; intros x Hx; cbn [decode_lsb]; cbv zeta.
  { apply yields_done. change (2 ^ Z.of_nat 0) with 1. lia. }
  rewrite Z.shiftl_mul_pow2 by lia. change (2 ^ 1) with 2.
  eapply yields_seq; [apply yields_table; by vm_compute|]. cbv beta. change (len silk_lsb_iCDF) with 2.
  intros b Hb. eapply yields_impl; [apply IH; lia|]. cbv beta. intros y Hy.
  rewrite Nat2Z.inj_succ, Z.pow_succ_r by lia. nia.
Qed.

(** Amplitudes after the shell code and after the shifted out bits. *)
Lemma yields_lsbs l s n :
  length l = 16%nat -> Forall (fun a => 0 <= a <= 16) l -> 0 <= n <= 10 ->
  yields dec_inv (decode_lsbs (l, (s, n)))
    (fun l => length l = 16%nat /\ Forall (fun a => 0 <= a < 17 * 2 ^ 10) l).
Proof.
  intros Hl Ha Hn. unfold decode_lsbs. rewrite Forall_forall in Ha. destruct (Z.gtb_spec n 0).
  - rewrite <- Hl. apply yields_each. intros a Hin. specialize (Ha a Hin).
    eapply yields_seq; [apply yields_lsb; lia|]. cbv beta. intros y Hy. apply yields_done.
    assert (2 ^ Z.of_nat (Z.to_nat n) <= 2 ^ 10) by (apply Z.pow_le_mono_r; lia).
    rewrite i16_small; nia.
  - apply yields_done. split; [done|]. apply Forall_forall. intros a Hin. specialize (Ha a Hin). lia.
Qed.
Lemma yields_sign st qo p q :
  types_ok st qo -> 0 <= q < 17 * 2 ^ 10 ->
  yields dec_inv (decode_sign (sign_icdf st qo p) q) (fun x => Z.abs x < 17 * 2 ^ 10).
Proof.
  intros Ht Hq. destruct (sign_table st qo p Ht) as [Hok Hl]. unfold decode_sign.
  destruct (Z.gtb_spec q 0); [|apply yields_done; lia].
  eapply yields_seq; [by apply yields_table|]. cbv beta. rewrite Hl. intros x Hx. apply yields_done.
  unfold silk_dec_map. rewrite Z.shiftl_mul_pow2 by lia.
  assert (x = 0 \/ x = 1) as [-> | ->] by lia; rewrite i16_small; lia.
Qed.

Lemma yields_block_signs st qo l p :
  types_ok st qo -> length l = 16%nat -> Forall (fun a => 0 <= a < 17 * 2 ^ 10) l ->
  yields dec_inv (decode_block_signs st qo (l, p))
    (fun l => length l = 16%nat /\ Forall (fun x => Z.abs x < 17 * 2 ^ 10) l).
Proof.
  intros Ht Hl Ha. unfold decode_block_signs. rewrite Forall_forall in Ha. destruct (Z.gtb_spec p 0).
  - rewrite <- Hl. apply yields_each. intros q Hq. apply yields_sign; [done|by apply Ha].
  - apply yields_done. split; [done|]. apply Forall_forall. intros q Hq. specialize (Ha q Hq). lia.
Qed.

Lemma in_zip_l {A B} (x : A) (y : B) xs ys : In (x, y) (zip xs ys) -> In x xs /\ In y ys.
Proof.
  revert ys. induction xs as [|a xs IH]; intros [|b ys]; cbn; try done.
  intros [[= -> ->]|Hin]; [tauto|]. destruct (IH ys Hin). tauto.
Qed.

Lemma length_zip {A B} (xs : list A) (ys : list B) : length xs = length ys -> length (zip xs ys) = length xs.
Proof. intros Hl. rewrite length_zip_with. lia. Qed.

(** Blocks of 16 elements with a property. *)
Definition all_blocks (P : Z -> Prop) (bs : list (list Z)) : Prop :=
  Forall (fun l => length l = 16%nat /\ Forall P l) bs.

Lemma all_blocks_concat P bs :
  all_blocks P bs -> length (concat bs) = (16 * length bs)%nat /\ Forall P (concat bs).
Proof.
  induction 1 as [|b bs [Hb HP] Hbs [IH1 IH2]]; [done|]. cbn [concat length]. rewrite length_app.
  split; [lia|by apply Forall_app].
Qed.

Lemma yields_decode_blocks st qo fl sums :
  types_ok st qo -> Z.to_nat (sign_blocks fl) = length sums ->
  Forall (fun s => 0 <= s.1 <= 16 /\ 0 <= s.2 <= 10) sums ->
  yields dec_inv (decode_blocks st qo fl sums)
    (fun l => length l = (16 * length sums)%nat /\ Forall (fun x => Z.abs x < 17 * 2 ^ 10) l).
Proof.
  intros Ht Hn Hs. rewrite Forall_forall in Hs. unfold decode_blocks, silk_decode_signs. cbv zeta.
  eapply yields_seq.
  { apply (yields_each dec_inv decode_shell sums (fun l => length l = 16%nat /\ Forall (fun a => 0 <= a <= 16) l)).
    intros s Hin. destruct (Hs s Hin) as [H1 H2]. unfold decode_shell. destruct (Z.gtb_spec s.1 0).
    - by apply yields_shell.
    - apply yields_done. split; [done|]. by apply Forall_forall; intros x ->%repeat_spec. }
  intros sh [Lsh Hsh]. rewrite Forall_forall in Hsh. eapply yields_seq.
  { apply (yields_each dec_inv decode_lsbs (zip sh sums)
      (fun l => length l = 16%nat /\ Forall (fun a => 0 <= a < 17 * 2 ^ 10) l)).
    intros [l [s n]] [H1 H2]%in_zip_l. destruct (Hsh l H1). destruct (Hs _ H2). by apply yields_lsbs. }
  intros ls [Lls Hls]. rewrite length_zip, Lsh in Lls by done.
  assert (blocks (Z.to_nat (sign_blocks fl)) (concat ls) = ls) as ->.
  { rewrite Hn, <- Lls. apply blocks_concat. eapply Forall_impl; [|exact Hls]. cbv beta. tauto. }
  rewrite Forall_forall in Hls. eapply yields_seq.
  { apply (yields_each dec_inv (decode_block_signs st qo) _
      (fun l => length l = 16%nat /\ Forall (fun x => Z.abs x < 17 * 2 ^ 10) l)).
    intros [l p] [H1 _]%in_zip_l. destruct (Hls l H1). by apply yields_block_signs. }
  intros bs [Lbs Hbs]. rewrite length_zip in Lbs by (by rewrite length_map, Lls).
  apply yields_done. rewrite <- Lls, <- Lbs. by apply all_blocks_concat.
Qed.

Lemma yields_silk_pulses st qo fl :
  types_ok st qo -> frame_ok fl ->
  yields dec_inv (silk_decode_pulses st qo fl)
    (fun r => exists l, r = Some l /\ len l = 16 * shell_blocks fl /\ Forall (fun x => Z.abs x < 17 * 2 ^ 10) l).
Proof.
  intros [Ht1 Ht2] Hf. destruct (frame_blocks fl Hf) as (Hsb & H0 & _ & _). unfold silk_decode_pulses.
  destruct (levels_table st Ht1) as [Hok Hl]. eapply yields_seq; [by apply yields_table|]. cbv beta zeta.
  rewrite Hl. intros r Hr. eapply yields_seq.
  { apply (yields_each dec_inv (fun _ => decode_sum r) _
      (fun r => exists s n, r = Some (s, n) /\ 0 <= s <= 16 /\ 0 <= n <= 10)).
    intros i _. apply yields_sum. lia. }
  intros os [Ln Hos]. rewrite length_seq in Ln.
  assert (exists sums, os = map Some sums /\ Forall (fun s => 0 <= s.1 <= 16 /\ 0 <= s.2 <= 10) sums)
    as (sums & -> & Hs).
  { clear -Hos. induction Hos as [|o os (s & n & -> & Hs & Hn) _ (sums & -> & IH)]; [by exists []|].
    exists ((s, n) :: sums). split; [done|by constructor]. }
  rewrite length_map in Ln. rewrite mapM_Some. eapply yields_seq.
  { apply yields_decode_blocks; [done|by rewrite Hsb, Ln|done]. }
  intros l [Hll Ha]. apply yields_done. exists l. split_and!; [done|unfold len; lia|done].
Qed.
End RoundTrip.
