(* ===== verification/SilkGains.v ===== *)
(** * Gains of SILK (silk/gain_quant.c)

    The gain of each subframe is quantised on a log scale to 64 levels; the
    first is coded as a level or, like the others, as a difference to the level
    before.  Both sides keep the last level. *)

From S2P Require Import Prelude SilkMath.

Definition MIN_QGAIN_DB : Z := 2.
Definition MAX_QGAIN_DB : Z := 88.
Definition N_LEVELS_QGAIN : Z := 64.
Definition MAX_DELTA_GAIN_QUANT : Z := 36.
Definition MIN_DELTA_GAIN_QUANT : Z := -4.

Definition OFFSET : Z := MIN_QGAIN_DB * 128 / 6 + 16 * 128.
Definition SCALE_Q16 : Z :=
  65536 * (N_LEVELS_QGAIN - 1) / ((MAX_QGAIN_DB - MIN_QGAIN_DB) * 128 / 6).
Definition INV_SCALE_Q16 : Z :=
  65536 * ((MAX_QGAIN_DB - MIN_QGAIN_DB) * 128 / 6) / (N_LEVELS_QGAIN - 1).

(** "Scale and convert to linear scale" *)
Definition gain_of (prev_ind : Z) : Z :=
  silk_log2lin (Z.min (silk_SMULWB INV_SCALE_Q16 prev_ind + OFFSET) 3967).

(** One subframe of the quantiser: [ind[ k ]], [gain_Q16[ k ]] and [*prev_ind];
    [full] is [k == 0 && conditional == 0]. *)
Definition quant_gain (full : bool) (gain_Q16 prev_ind : Z) : Z * Z * Z :=
  let ind := i8 (silk_SMULWB SCALE_Q16 (silk_lin2log gain_Q16 - OFFSET)) in
  let ind := if ind <? prev_ind then i8 (ind + 1) else ind in
  let ind := i8 (silk_LIMIT ind 0 (N_LEVELS_QGAIN - 1)) in
  let '(ind, prev_ind) :=
    if full then
      let ind := i8 (silk_LIMIT ind (prev_ind + MIN_DELTA_GAIN_QUANT) (N_LEVELS_QGAIN - 1)) in
      (ind, ind)
    else
      let ind := i8 (ind - prev_ind) in
      let double_step_size_threshold := 2 * MAX_DELTA_GAIN_QUANT - N_LEVELS_QGAIN + prev_ind in
      let ind :=
        if ind >? double_step_size_threshold
        then i8 (double_step_size_threshold + silk_RSHIFT (ind - double_step_size_threshold + 1) 1)
        else ind in
      let ind := i8 (silk_LIMIT ind MIN_DELTA_GAIN_QUANT MAX_DELTA_GAIN_QUANT) in
      let prev_ind :=
        if ind >? double_step_size_threshold then
          let prev_ind := i8 (prev_ind + (silk_LSHIFT ind 1 - double_step_size_threshold)) in
          i8 (Z.min prev_ind (N_LEVELS_QGAIN - 1))
        else i8 (prev_ind + ind) in
      (i8 (ind - MIN_DELTA_GAIN_QUANT), prev_ind) in
  (ind, gain_of prev_ind, prev_ind).

(** The subframes from the first on. *)
Fixpoint quant_gains (full : bool) (gain_Q16 : list Z) (prev_ind : Z) : list Z * list Z * Z :=
  match gain_Q16 with
  | [] => ([], [], prev_ind)
  | g :: rest =>
      let '(i, g, prev_ind) := quant_gain full g prev_ind in
      let '(ix, gs, prev_ind) := quant_gains false rest prev_ind in
      (i :: ix, g :: gs, prev_ind)
  end.

(** Indices, quantised gains and last index; [gain_Q16] has [nb_subfr] entries. *)
Definition silk_gains_quant (gain_Q16 : list Z) (prev_ind : Z) (conditional : bool)
    : list Z * list Z * Z :=
  quant_gains (negb conditional) gain_Q16 prev_ind.

(** One subframe of the dequantiser: [gain_Q16[ k ]] and [*prev_ind]. *)
Definition dequant_gain (full : bool) (ind prev_ind : Z) : Z * Z :=
  let prev_ind :=
    if full then i8 (Z.max ind (prev_ind - 16))
    else
      let ind_tmp := ind + MIN_DELTA_GAIN_QUANT in
      let double_step_size_threshold := 2 * MAX_DELTA_GAIN_QUANT - N_LEVELS_QGAIN + prev_ind in
      if ind_tmp >? double_step_size_threshold
      then i8 (prev_ind + (silk_LSHIFT ind_tmp 1 - double_step_size_threshold))
      else i8 (prev_ind + ind_tmp) in
  let prev_ind := i8 (silk_LIMIT prev_ind 0 (N_LEVELS_QGAIN - 1)) in
  (gain_of prev_ind, prev_ind).

Fixpoint dequant_gains (full : bool) (ind : list Z) (prev_ind : Z) : list Z * Z :=
  match ind with
  | [] => ([], prev_ind)
  | i :: rest =>
      let '(g, prev_ind) := dequant_gain full i prev_ind in
      let '(gs, prev_ind) := dequant_gains false rest prev_ind in
      (g :: gs, prev_ind)
  end.

Definition silk_gains_dequant (ind : list Z) (prev_ind : Z) (conditional : bool) : list Z * Z :=
  dequant_gains (negb conditional) ind prev_ind.

Definition silk_gains_ID (ind : list Z) : Z :=
  foldl (fun gainsID i => silk_ADD_LSHIFT32 i gainsID 8) 0 ind.

(** ** Both sides agree *)

Definition level_ok (prev_ind : Z) : Prop := 0 <= prev_ind <= 63.
(** The range of an index that can be coded. *)
Definition gain_index_ok (full : bool) (i : Z) : Prop := 0 <= i <= (if full then 63 else 40).

Lemma silk_LSHIFT_1 x : -100 <= x <= 100 -> silk_LSHIFT x 1 = 2 * x.
Proof.
  intros Hx. unfold silk_LSHIFT, u32, i32. rewrite Z.shiftl_mul_pow2 by lia. change (2 ^ 1) with 2.
  dlia.
Qed.

Lemma quant_dequant_gain full g prev :
  level_ok prev ->
  let '(i, q, prev') := quant_gain full g prev in
  level_ok prev' /\ gain_index_ok full i /\ dequant_gain full i prev = (q, prev').
Proof.
  unfold level_ok, gain_index_ok. intros Hp. unfold quant_gain. cbv zeta.
  set (x := i8 (silk_SMULWB _ _)). set (y := if x <? prev then i8 (x + 1) else x).
  assert (0 <= i8 (silk_LIMIT y 0 (N_LEVELS_QGAIN - 1)) <= 63) as Hz.
  { pose proof (silk_LIMIT_range y 0 (N_LEVELS_QGAIN - 1) ltac:(done)) as Hr.
    unfold N_LEVELS_QGAIN in *. rewrite i8_small by lia. lia. }
  set (z := i8 (silk_LIMIT y 0 (N_LEVELS_QGAIN - 1))) in *. clearbody z. clear y x.
  unfold dequant_gain. unfold N_LEVELS_QGAIN, MIN_DELTA_GAIN_QUANT, MAX_DELTA_GAIN_QUANT in *. cbv zeta.
  destruct full.
  - rewrite (silk_LIMIT_clamp z) by lia. rewrite (i8_small (Z.max (prev + -4) _)) by lia.
    split; [lia|]. split; [lia|]. rewrite (i8_small (Z.max _ (prev - 16))) by lia.
    rewrite silk_LIMIT_clamp, i8_small by lia.
    replace (Z.max 0 _) with (Z.max (prev + -4) (Z.min z (64 - 1))) by lia. done.
  - rewrite (i8_small (z - prev)) by lia. unfold silk_RSHIFT.
    rewrite Z.shiftr_div_pow2 by lia. change (2 ^ 1) with 2. change (2 * 36 - 64 + prev) with (8 + prev).
    set (d := if z - prev >? 8 + prev then _ else z - prev).
    assert (d = (if z - prev >? 8 + prev then 8 + prev + (z - prev - (8 + prev) + 1) / 2 else z - prev) /\
            - prev <= d <= 63 /\ (d > 8 + prev -> z - prev > 8 + prev)) as (Ed & Hd & Hd2).
    { subst d. destruct (Z.gtb_spec (z - prev) (8 + prev)); [rewrite i8_small by dlia|]; split_and!; dlia. }
    clearbody d. rewrite !(silk_LIMIT_clamp d) by lia.
    rewrite (i8_small (Z.max (-4) _)) by lia. set (e := Z.max (-4) (Z.min d 36)).
    assert (-4 <= e <= 36) as He by lia.
    assert (- prev <= e) as He2 by lia.
    assert (e <= 8 + prev -> prev + e <= 63) as He3.
    { subst e. destruct (Z.gtb_spec (z - prev) (8 + prev)); dlia. }
    clearbody e. rewrite !silk_LSHIFT_1 by lia. replace (e - -4) with (e + 4) by lia. rewrite (i8_small (e + 4)) by lia.
    replace (e + 4 + -4) with e by lia. rewrite silk_LSHIFT_1 by lia.
    destruct (Z.gtb_spec e (8 + prev)) as [Hg|Hg].
    + rewrite !(i8_small (prev + _)) by lia. rewrite (silk_LIMIT_clamp (prev + _)) by lia.
      rewrite (i8_small (Z.min _ _)), (i8_small (Z.max _ _)) by lia.
      replace (Z.max 0 (Z.min (prev + (2 * e - (8 + prev))) (64 - 1)))
        with (Z.min (prev + (2 * e - (8 + prev))) (64 - 1)) by lia. split_and!; try lia. done.
    + rewrite !(i8_small (prev + _)) by lia. rewrite (silk_LIMIT_clamp (prev + _)) by lia.
      replace (Z.max 0 (Z.min (prev + e) (64 - 1))) with (prev + e) by lia. rewrite i8_small by lia.
      split_and!; try lia. done.
Qed.

(** The indices of a frame: the first may be a level. *)
Definition gain_indices_ok (full : bool) (l : list Z) : Prop :=
  match l with [] => True | i :: l => gain_index_ok full i /\ Forall (gain_index_ok false) l end.

Lemma quant_dequant_gains full gs prev :
  level_ok prev ->
  let '(ix, qs, prev') := quant_gains full gs prev in
  level_ok prev' /\ length ix = length gs /\ gain_indices_ok full ix /\ dequant_gains full ix prev = (qs, prev').
Proof.
  revert full prev. induction gs as [|g gs IH]; intros full prev Hp; cbn [quant_gains]; [done|].
  pose proof (quant_dequant_gain full g prev Hp) as H1. destruct (quant_gain full g prev) as [[i q] prev1].
  destruct H1 as (Hp1 & Hi & Hd). specialize (IH false prev1 Hp1).
  destruct (quant_gains false gs prev1) as [[ix qs] prev2]. destruct IH as (Hp2 & Hl & Hix & Hds).
  split; [done|]. split; [cbn [length]; by rewrite Hl|]. split.
  - split; [done|]. destruct ix as [|j ix]; [constructor|]. destruct Hix. by constructor.
  - cbn [dequant_gains]. by rewrite Hd, Hds.
Qed.
