(* ===== verification/SilkStereo.v ===== *)
(** * Stereo prediction of SILK (silk/stereo_quant_pred.c,
      silk/stereo_encode_pred.c, silk/stereo_decode_pred.c)

    The two mid/side predictors are quantised to the nearest of 75 levels and
    coded as three indices each. *)

From S2P Require Import Prelude EntropyInterface EntropySeq SilkMath SilkTables.

Definition STEREO_QUANT_TAB_SIZE : Z := 16.
Definition STEREO_QUANT_SUB_STEPS : Z := 5.

(** [lvl_Q13] of step [i] and sub-step [j]. *)
Definition stereo_level (i j : Z) : Z :=
  let low_Q13 := silk_stereo_pred_quant_Q13.[i] in
  let step_Q13 :=
    silk_SMULWB (silk_stereo_pred_quant_Q13.[i + 1] - low_Q13)
      (SILK_FIX_CONST 1 (2 * STEREO_QUANT_SUB_STEPS) 16) in
  silk_SMLABB low_Q13 step_Q13 (2 * j + 1).

(** The steps and sub-steps in the order of the two loops. *)
Definition stereo_steps : list (Z * Z) :=
  flat_map (fun i => map (fun j => (Z.of_nat i, Z.of_nat j)) (seq 0 (Z.to_nat STEREO_QUANT_SUB_STEPS)))
    (seq 0 (Z.to_nat (STEREO_QUANT_TAB_SIZE - 1))).

(** The search: [quant_pred_Q13], [ix[ n ][ 0 ]] and [ix[ n ][ 1 ]]; it leaves
    both loops when the error does not decrease. *)
Fixpoint stereo_search (l : list (Z * Z)) (pred_Q13 err_min_Q13 : Z) (best : Z * Z * Z) : Z * Z * Z :=
  match l with
  | [] => best
  | (i, j) :: l =>
      let lvl_Q13 := stereo_level i j in
      let err_Q13 := Z.abs (i32 (pred_Q13 - lvl_Q13)) in
      if err_Q13 <? err_min_Q13 then stereo_search l pred_Q13 err_Q13 (lvl_Q13, i, j) else best
  end.

(** The indices of one predictor. *)
Record stereo_ix := { ix_0 : Z; ix_1 : Z; ix_2 : Z }.

(** [quant] is what [quant_pred_Q13] and [ix] hold before. *)
Definition stereo_quant (pred_Q13 : Z) (quant : Z * Z * Z) : Z * stereo_ix :=
  let '(q, i, j) := stereo_search stereo_steps pred_Q13 silk_int32_MAX quant in
  let ix2 := silk_DIV32_16 i 3 in
  (q, {| ix_0 := i - ix2 * 3; ix_1 := j; ix_2 := ix2 |}).

(** The two predictors after quantisation, and their indices; [junk0], [junk1]
    are what [ix] holds before. *)
Definition silk_stereo_quant_pred (junk0 junk1 : Z * Z) (pred_Q13 : Z * Z) : (Z * Z) * (stereo_ix * stereo_ix) :=
  let '(q0, ix0) := stereo_quant pred_Q13.1 (0, junk0.1, junk0.2) in
  let '(q1, ix1) := stereo_quant pred_Q13.2 (q0, junk1.1, junk1.2) in
  ((q0 - q1, q1), (ix0, ix1)).

Section Coder.
Context `{EntropyCoder E D}.

Definition silk_stereo_encode_pred (ix : stereo_ix * stereo_ix) : E -> E :=
  let n := 5 * ix.1.(ix_2) + ix.2.(ix_2) in
  ec_enc_icdf n silk_stereo_pred_joint_iCDF 8 >>>
  enc_all (fun x => ec_enc_icdf x.(ix_0) silk_uniform3_iCDF 8 >>> ec_enc_icdf x.(ix_1) silk_uniform5_iCDF 8)
    [ix.1; ix.2].

Definition silk_stereo_encode_mid_only (mid_only_flag : Z) : E -> E :=
  ec_enc_icdf mid_only_flag silk_stereo_only_code_mid_iCDF 8.

Definition decode_pred_ix (_ : nat) : D -> (Z * Z) * D :=
  i <~ ec_dec_icdf silk_uniform3_iCDF 8;
  j <~ ec_dec_icdf silk_uniform5_iCDF 8;
  dec_ret (i, j).

Definition silk_stereo_decode_pred : D -> (Z * Z) * D :=
  n <~ ec_dec_icdf silk_stereo_pred_joint_iCDF 8;
  let ix0_2 := silk_DIV32_16 n 5 in
  let ix1_2 := n - 5 * ix0_2 in
  '(i0, j0) <~ decode_pred_ix 0;
  '(i1, j1) <~ decode_pred_ix 1;
  let pred0 := stereo_level (i0 + 3 * ix0_2) j0 in
  let pred1 := stereo_level (i1 + 3 * ix1_2) j1 in
  dec_ret (pred0 - pred1, pred1).

Definition silk_stereo_decode_mid_only : D -> Z * D := ec_dec_icdf silk_stereo_only_code_mid_iCDF 8.
End Coder.

(** ** The search finds the nearest level *)

(** Increasing levels. *)
Fixpoint increasing (b : Z) (l : list Z) : bool :=
  match l with [] => true | x :: l => (b <? x) && increasing x l end.

Lemma increasing_above b l x : increasing b l = true -> In x l -> b < x.
Proof.
  revert b. induction l as [|y l IH]; intros b; cbn [increasing In]; [done|].
  intros [Hy Hl]%andb_true_iff [->|Hin]; [lia|]. specialize (IH y Hl Hin). lia.
Qed.

(** A predictor in range has no overflow in the search. *)
Definition pred_ok (p : Z) : Prop := - 2 ^ 30 < p < 2 ^ 30.

Definition level_of (ij : Z * Z) : Z := stereo_level ij.1 ij.2.

Lemma stereo_search_spec l p b i j :
  pred_ok p -> Forall (fun ij => - 2 ^ 30 < level_of ij < 2 ^ 30) ((i, j) :: l) ->
  b = stereo_level i j -> increasing b (map level_of l) = true ->
  exists i' j', stereo_search l p (Z.abs (p - b)) (b, i, j) = (stereo_level i' j', i', j') /\
    In (i', j') ((i, j) :: l) /\
    forall ij, In ij ((i, j) :: l) -> Z.abs (p - stereo_level i' j') <= Z.abs (p - level_of ij).
Proof.
  unfold pred_ok. intros Hp. revert b i j. induction l as [|[i1 j1] l IH]; intros b i j Hr -> Hinc.
  - exists i, j. cbn [stereo_search]. split; [done|]. split; [by left|].
    intros ij [<-|[]]. unfold level_of. cbn [fst snd]. lia.
  - apply Forall_cons_1 in Hr as [Hb Hr]. pose proof (Forall_inv Hr) as H1. cbv beta in H1.
    cbn [map increasing] in Hinc. apply andb_true_iff in Hinc as [Hlt Hinc]. cbn [stereo_search]. cbv zeta.
    unfold level_of in H1, Hlt, Hb. cbn [fst snd] in H1, Hlt, Hb. apply Z.ltb_lt in Hlt.
    rewrite i32_small by lia. destruct (Z.ltb_spec (Z.abs (p - stereo_level i1 j1)) (Z.abs (p - stereo_level i j))) as [Hc|Hc].
    + destruct (IH (stereo_level i1 j1) i1 j1 Hr eq_refl Hinc) as (i' & j' & -> & Hin & Hmin).
      exists i', j'. split; [done|]. split; [by right|].
      intros ij [<-|Hij]; [|by apply Hmin]. unfold level_of. cbn [fst snd].
      pose proof (Hmin (i1, j1) (or_introl eq_refl)) as H2. unfold level_of in H2. cbn [fst snd] in H2. lia.
    + exists i, j. split; [done|]. split; [by left|].
      intros ij [<-|Hij]; [unfold level_of; cbn [fst snd]; lia|].
      assert (stereo_level i1 j1 <= level_of ij) as Hle.
      { destruct Hij as [<-|Hij]; [unfold level_of; cbn [fst snd]; lia|].
        apply Z.lt_le_incl, (increasing_above _ (map level_of l)); [done|]. by apply in_map. }
      lia.
Qed.

Lemma stereo_levels_ok :
  Forall (fun ij => - 2 ^ 30 < level_of ij < 2 ^ 30) stereo_steps /\
  increasing (stereo_level 0 0) (map level_of (tl stereo_steps)) = true.
Proof.
  assert (forallb (fun ij => (- 2 ^ 30 <? level_of ij) && (level_of ij <? 2 ^ 30)) stereo_steps = true) as H
    by (vm_compute; reflexivity).
  split; [|vm_compute; reflexivity]. apply Forall_forall. intros ij Hij.
  rewrite forallb_forall in H. specialize (H ij Hij). lia.
Qed.

Lemma in_stereo_steps i j : In (i, j) stereo_steps <-> 0 <= i < 15 /\ 0 <= j < 5.
Proof.
  unfold stereo_steps. rewrite in_flat_map. change (Z.to_nat (STEREO_QUANT_TAB_SIZE - 1)) with 15%nat.
  change (Z.to_nat STEREO_QUANT_SUB_STEPS) with 5%nat. split.
  - intros (a & Ha%in_seq & (b & [= <- <-] & Hb%in_seq)%in_map_iff). lia.
  - intros [Hi Hj]. exists (Z.to_nat i). split; [apply in_seq; lia|]. apply in_map_iff.
    exists (Z.to_nat j). split; [f_equal; lia|apply in_seq; lia].
Qed.

Lemma stereo_quant_spec p junk :
  pred_ok p ->
  exists i j, stereo_search stereo_steps p silk_int32_MAX junk = (stereo_level i j, i, j) /\
    0 <= i < 15 /\ 0 <= j < 5 /\
    forall i' j', 0 <= i' < 15 -> 0 <= j' < 5 -> Z.abs (p - stereo_level i j) <= Z.abs (p - stereo_level i' j').
Proof.
  intros Hp. destruct stereo_levels_ok as [Hr Hinc].
  assert (stereo_steps = (0, 0) :: tl stereo_steps) as E by reflexivity.
  rewrite E in Hr. destruct (stereo_search_spec (tl stereo_steps) p _ 0 0 Hp Hr eq_refl Hinc) as (i & j & Hs & Hin & Hmin).
  exists i, j. rewrite <- E in Hin, Hmin. split.
  - rewrite E. cbn [stereo_search]. cbv zeta. rewrite <- Hs. unfold pred_ok in Hp.
    change (stereo_level 0 0) with (-13364). rewrite i32_small by lia.
    unfold silk_int32_MAX. destruct (Z.ltb_spec (Z.abs (p - -13364)) (2 ^ 31 - 1)); [done|lia].
  - apply in_stereo_steps in Hin as [Hi Hj]. split; [done|]. split; [done|]. intros i' j' Hi' Hj'.
    apply (Hmin (i', j')). exact (proj2 (in_stereo_steps i' j') (conj Hi' Hj')).
Qed.

(** ** Round trip *)

Definition stereo_ix_ok (x : stereo_ix) : Prop :=
  0 <= x.(ix_0) <= 2 /\ 0 <= x.(ix_1) <= 4 /\ 0 <= x.(ix_2) <= 4.
Definition ix_level (x : stereo_ix) : Z := stereo_level (x.(ix_0) + 3 * x.(ix_2)) x.(ix_1).

Section RoundTrip.
Context `{EntropyCoder E D}.

Lemma codes_pred_ix n x :
  stereo_ix_ok x ->
  codes (ec_enc_icdf x.(ix_0) silk_uniform3_iCDF 8 >>> ec_enc_icdf x.(ix_1) silk_uniform5_iCDF 8)
    (decode_pred_ix n) (x.(ix_0), x.(ix_1)).
Proof.
  intros (H0 & H1 & _). eapply codes_seq; [apply codes_table; [by vm_compute|change (len _) with 3; lia]|].
  eapply (codes_map _ _ (fun j => (x.(ix_0), j))); [|done].
  apply codes_table; [by vm_compute|change (len _) with 5; lia].
Qed.

Lemma codes_stereo_pred x y :
  stereo_ix_ok x -> stereo_ix_ok y ->
  codes (silk_stereo_encode_pred (x, y)) silk_stereo_decode_pred (ix_level x - ix_level y, ix_level y).
Proof.
  intros Hx Hy. unfold silk_stereo_encode_pred, silk_stereo_decode_pred. cbn [fst snd]. cbv zeta.
  destruct Hx as (X0 & X1 & X2) eqn:Ex. destruct Hy as (Y0 & Y1 & Y2) eqn:Ey.
  eapply codes_seq; [apply codes_table; [by vm_compute|change (len _) with 25; lia]|]. cbv beta.
  unfold silk_DIV32_16. rewrite Z.quot_div_nonneg by lia.
  replace ((5 * ix_2 x + ix_2 y) / 5) with (ix_2 x) by dlia.
  replace (5 * ix_2 x + ix_2 y - 5 * ix_2 x) with (ix_2 y) by lia.
  cbn [enc_all]. eapply codes_seq; [by apply codes_pred_ix|]. cbv beta iota.
  eapply codes_ext; [| |eapply (codes_last (ec_enc_icdf (ix_0 y) silk_uniform3_iCDF 8 >>> ec_enc_icdf (ix_1 y) silk_uniform5_iCDF 8));
    [by apply codes_pred_ix|]]; [done|done|]. cbv beta iota. apply codes_skip.
Qed.

(** What the encoder quantises to is what the decoder computes. *)
Lemma stereo_quant_ix p junk :
  pred_ok p -> let '(q, x) := stereo_quant p junk in stereo_ix_ok x /\ q = ix_level x.
Proof.
  intros Hp. unfold stereo_quant. destruct (stereo_quant_spec p junk Hp) as (i & j & -> & Hi & Hj & _).
  unfold silk_DIV32_16. rewrite Z.quot_div_nonneg by lia. split.
  - unfold stereo_ix_ok. cbn [ix_0 ix_1 ix_2]. dlia.
  - unfold ix_level. cbn [ix_0 ix_1 ix_2]. f_equal. dlia.
Qed.

Lemma codes_stereo_quant junk0 junk1 p :
  pred_ok p.1 -> pred_ok p.2 ->
  let '(q, ix) := silk_stereo_quant_pred junk0 junk1 p in
  codes (silk_stereo_encode_pred ix) silk_stereo_decode_pred q.
Proof.
  intros H0 H1. unfold silk_stereo_quant_pred.
  pose proof (stereo_quant_ix p.1 (0, junk0.1, junk0.2) H0) as S0.
  destruct (stereo_quant p.1 _) as [q0 x0]. destruct S0 as [X0 ->].
  pose proof (stereo_quant_ix p.2 (ix_level x0, junk1.1, junk1.2) H1) as S1.
  destruct (stereo_quant p.2 _) as [q1 x1]. destruct S1 as [X1 ->].
  by apply codes_stereo_pred.
Qed.
End RoundTrip.
