(* ===== verification/SilkIndices.v ===== *)
(** * Side information of SILK frames (silk/encode_indices.c,
      silk/decode_indices.c, silk/NLSF_unpack.c; table selection of
      silk/decoder_set_fs.c and silk/control_codec.c)

    The quantisation indices of a frame: signal type, gains, line spectral
    frequencies, pitch lags, long-term prediction gains and the seed.  Lags are
    coded as a difference to the previous frame where both are voiced, so both
    sides keep the last lag and signal type. *)

From S2P Require Import Prelude EntropyInterface EntropySeq SilkMath SilkTables.

Definition MAX_NB_SUBFR : Z := 4.
Definition TYPE_VOICED : Z := 2.
Definition CODE_INDEPENDENTLY : Z := 0.
Definition CODE_INDEPENDENTLY_NO_LTP_SCALING : Z := 1.
Definition CODE_CONDITIONALLY : Z := 2.
Definition NLSF_QUANT_MAX_AMPLITUDE : Z := 4.

Record SideInfoIndices := {
  GainsIndices : list Z;
  LTPIndex : list Z;
  NLSFIndices : list Z;
  lagIndex : Z;
  contourIndex : Z;
  signalType : Z;
  quantOffsetType : Z;
  NLSFInterpCoef_Q2 : Z;
  PERIndex : Z;
  LTP_scaleIndex : Z;
  Seed : Z
}.

(** The fields of the channel states (silk/structs.h) that these functions use;
    they are the same in [silk_encoder_state] and [silk_decoder_state]. *)
Record channel := {
  fs_kHz : Z;
  nb_subfr : Z;
  psNLSF_CB : silk_NLSF_CB_struct;
  pitch_lag_low_bits_iCDF : list Z;
  pitch_contour_iCDF : list Z;
  ec_prevSignalType : Z;
  ec_prevLagIndex : Z
}.

(** The tables for a sampling rate and a number of subframes. *)
Definition contour_table (fs_kHz nb_subfr : Z) : list Z :=
  if fs_kHz =? 8 then
    if nb_subfr =? MAX_NB_SUBFR then silk_pitch_contour_NB_iCDF else silk_pitch_contour_10_ms_NB_iCDF
  else
    if nb_subfr =? MAX_NB_SUBFR then silk_pitch_contour_iCDF else silk_pitch_contour_10_ms_iCDF.
Definition codebook (fs_kHz : Z) : silk_NLSF_CB_struct :=
  if (fs_kHz =? 8) || (fs_kHz =? 12) then silk_NLSF_CB_NB_MB else silk_NLSF_CB_WB.
Definition low_bits_table (fs_kHz : Z) : list Z :=
  if fs_kHz =? 16 then silk_uniform8_iCDF
  else if fs_kHz =? 12 then silk_uniform6_iCDF
  else silk_uniform4_iCDF.

Record silk_encoder_state := {
  enc_channel : channel;
  enc_indices : SideInfoIndices;
  enc_indices_LBRR : list SideInfoIndices
}.
Record silk_decoder_state := {
  dec_channel : channel;
  dec_indices : SideInfoIndices;
  VAD_flags : list Z
}.

Definition set_prev (c : channel) (prevSignalType prevLagIndex : Z) : channel :=
  {| fs_kHz := c.(fs_kHz); nb_subfr := c.(nb_subfr); psNLSF_CB := c.(psNLSF_CB);
     pitch_lag_low_bits_iCDF := c.(pitch_lag_low_bits_iCDF); pitch_contour_iCDF := c.(pitch_contour_iCDF);
     ec_prevSignalType := prevSignalType; ec_prevLagIndex := prevLagIndex |}.

(** ** Unpacking a codebook entry *)

(** For the pairs from coefficient [i] on: indices of the entropy tables and
    predictor coefficients. *)
Fixpoint unpack_pairs (n : nat) (cb : silk_NLSF_CB_struct) (ec_sel_ptr i : Z) : list Z * list Z :=
  match n with
  | O => ([], [])
  | S n =>
      let entry := cb.(ec_sel).[ec_sel_ptr] in
      let ix0 := silk_SMULBB (Z.land (silk_RSHIFT entry 1) 7) (2 * NLSF_QUANT_MAX_AMPLITUDE + 1) in
      let p0 := cb.(pred_Q8).[i + Z.land entry 1 * (cb.(order) - 1)] in
      let ix1 := silk_SMULBB (Z.land (silk_RSHIFT entry 5) 7) (2 * NLSF_QUANT_MAX_AMPLITUDE + 1) in
      let p1 := cb.(pred_Q8).[i + Z.land (silk_RSHIFT entry 4) 1 * (cb.(order) - 1) + 1] in
      let '(ix, p) := unpack_pairs n cb (ec_sel_ptr + 1) (i + 2) in
      (ix0 :: ix1 :: ix, p0 :: p1 :: p)
  end.

(** [ec_ix] and [pred_Q8]. *)
Definition silk_NLSF_unpack (cb : silk_NLSF_CB_struct) (CB1_index : Z) : list Z * list Z :=
  unpack_pairs (Z.to_nat (cb.(order) / 2)) cb (CB1_index * cb.(order) / 2) 0.

Section Coder.
Context `{EntropyCoder E D}.

(** ** Encoder *)

Definition encode_type (encode_LBRR : bool) (x : SideInfoIndices) : E -> E :=
  let typeOffset := 2 * x.(signalType) + x.(quantOffsetType) in
  if encode_LBRR || (typeOffset >=? 2) then ec_enc_icdf (typeOffset - 2) silk_type_offset_VAD_iCDF 8
  else ec_enc_icdf typeOffset silk_type_offset_no_VAD_iCDF 8.

Definition encode_gains (nb_subfr condCoding : Z) (x : SideInfoIndices) : E -> E :=
  (if condCoding =? CODE_CONDITIONALLY then ec_enc_icdf x.(GainsIndices).[0] silk_delta_gain_iCDF 8
   else
     ec_enc_icdf (silk_RSHIFT x.(GainsIndices).[0] 3) (row silk_gain_iCDF x.(signalType)) 8 >>>
     ec_enc_icdf (Z.land x.(GainsIndices).[0] 7) silk_uniform8_iCDF 8) >>>
  enc_all (fun i => ec_enc_icdf x.(GainsIndices).[Z.of_nat i] silk_delta_gain_iCDF 8)
    (seq 1 (Z.to_nat (nb_subfr - 1))).

(** One coefficient, with the table at [ix] of [ec_iCDF]. *)
Definition encode_NLSF (cb : silk_NLSF_CB_struct) (vi : Z * Z) : E -> E :=
  let '(v, ix) := vi in
  if v >=? NLSF_QUANT_MAX_AMPLITUDE then
    ec_enc_icdf (2 * NLSF_QUANT_MAX_AMPLITUDE) (icdf_at cb.(ec_iCDF) ix) 8 >>>
    ec_enc_icdf (v - NLSF_QUANT_MAX_AMPLITUDE) silk_NLSF_EXT_iCDF 8
  else if v <=? - NLSF_QUANT_MAX_AMPLITUDE then
    ec_enc_icdf 0 (icdf_at cb.(ec_iCDF) ix) 8 >>>
    ec_enc_icdf (- v - NLSF_QUANT_MAX_AMPLITUDE) silk_NLSF_EXT_iCDF 8
  else ec_enc_icdf (v + NLSF_QUANT_MAX_AMPLITUDE) (icdf_at cb.(ec_iCDF) ix) 8.

(** [&CB1_iCDF[ ( signalType >> 1 ) * nVectors ]] *)
Definition CB1_table (cb : silk_NLSF_CB_struct) (signalType : Z) : list Z :=
  icdf_at cb.(CB1_iCDF) (Z.shiftr signalType 1 * cb.(nVectors)).

Definition encode_NLSFs (c : channel) (x : SideInfoIndices) : E -> E :=
  let cb := c.(psNLSF_CB) in
  ec_enc_icdf x.(NLSFIndices).[0] (CB1_table cb x.(signalType)) 8 >>>
  (let '(ec_ix, _) := silk_NLSF_unpack cb x.(NLSFIndices).[0] in
   enc_all (fun i => encode_NLSF cb (x.(NLSFIndices).[Z.of_nat i + 1], ec_ix.[Z.of_nat i]))
     (seq 0 (Z.to_nat cb.(order)))) >>>
  (if c.(nb_subfr) =? MAX_NB_SUBFR
   then ec_enc_icdf x.(NLSFInterpCoef_Q2) silk_NLSF_interpolation_factor_iCDF 8 else enc_skip).

Definition encode_absolute_lag (c : channel) (x : SideInfoIndices) : E -> E :=
  let pitch_high_bits := silk_DIV32_16 x.(lagIndex) (silk_RSHIFT c.(fs_kHz) 1) in
  let pitch_low_bits := x.(lagIndex) - silk_SMULBB pitch_high_bits (silk_RSHIFT c.(fs_kHz) 1) in
  ec_enc_icdf pitch_high_bits silk_pitch_lag_iCDF 8 >>>
  ec_enc_icdf pitch_low_bits c.(pitch_lag_low_bits_iCDF) 8.

Definition encode_lag (c : channel) (condCoding : Z) (x : SideInfoIndices) : E -> E :=
  if (condCoding =? CODE_CONDITIONALLY) && (c.(ec_prevSignalType) =? TYPE_VOICED) then
    let delta_lagIndex := x.(lagIndex) - c.(ec_prevLagIndex) in
    if (delta_lagIndex <? -8) || (delta_lagIndex >? 11) then
      ec_enc_icdf 0 silk_pitch_delta_iCDF 8 >>> encode_absolute_lag c x
    else ec_enc_icdf (delta_lagIndex + 9) silk_pitch_delta_iCDF 8
  else encode_absolute_lag c x.

Definition encode_voiced (c : channel) (condCoding : Z) (x : SideInfoIndices) : E -> E :=
  encode_lag c condCoding x >>>
  ec_enc_icdf x.(contourIndex) c.(pitch_contour_iCDF) 8 >>>
  ec_enc_icdf x.(PERIndex) silk_LTP_per_index_iCDF 8 >>>
  enc_all (fun k => ec_enc_icdf x.(LTPIndex).[Z.of_nat k] (row silk_LTP_gain_iCDF_ptrs x.(PERIndex)) 8)
    (seq 0 (Z.to_nat c.(nb_subfr))) >>>
  (if condCoding =? CODE_INDEPENDENTLY then ec_enc_icdf x.(LTP_scaleIndex) silk_LTPscale_iCDF 8 else enc_skip).

(** The symbols and the channel behind them. *)
Definition encode_frame (c : channel) (encode_LBRR : bool) (condCoding : Z) (x : SideInfoIndices)
    : (E -> E) * channel :=
  (encode_type encode_LBRR x >>>
   encode_gains c.(nb_subfr) condCoding x >>>
   encode_NLSFs c x >>>
   (if x.(signalType) =? TYPE_VOICED then encode_voiced c condCoding x else enc_skip) >>>
   ec_enc_icdf x.(Seed) silk_uniform4_iCDF 8,
   set_prev c x.(signalType)
     (if x.(signalType) =? TYPE_VOICED then x.(lagIndex) else c.(ec_prevLagIndex))).

Definition enc_selected (s : silk_encoder_state) (FrameIndex : Z) (encode_LBRR : bool) : SideInfoIndices :=
  if encode_LBRR then nth (Z.to_nat FrameIndex) s.(enc_indices_LBRR) s.(enc_indices) else s.(enc_indices).

Definition silk_encode_indices (psEncC : silk_encoder_state) (FrameIndex : Z) (encode_LBRR : bool)
    (condCoding : Z) : (E -> E) * silk_encoder_state :=
  let psIndices := enc_selected psEncC FrameIndex encode_LBRR in
  let '(e, c) := encode_frame psEncC.(enc_channel) encode_LBRR condCoding psIndices in
  (e, {| enc_channel := c; enc_indices := psEncC.(enc_indices);
         enc_indices_LBRR := psEncC.(enc_indices_LBRR) |}).

(** ** Decoder *)

(** The decoder writes into its indices; fields that are not coded keep their
    value. *)
Definition decode_type (vad : bool) : D -> (Z * Z) * D :=
  if vad then
    Ix <~ ec_dec_icdf silk_type_offset_VAD_iCDF 8;
    let Ix := Ix + 2 in dec_ret (i8 (silk_RSHIFT Ix 1), i8 (Z.land Ix 1))
  else
    Ix <~ ec_dec_icdf silk_type_offset_no_VAD_iCDF 8;
    dec_ret (i8 (silk_RSHIFT Ix 1), i8 (Z.land Ix 1)).

(** Store the elements of a list from index [i] on. *)
Fixpoint wr_all (l : list Z) (i : Z) (vs : list Z) : list Z :=
  match vs with [] => l | v :: vs => wr_all l.[i <- v] (i + 1) vs end.

Definition decode_gains (nb_subfr condCoding signalType : Z) (GainsIndices : list Z) : D -> list Z * D :=
  g0 <~ (if condCoding =? CODE_CONDITIONALLY then
           x <~ ec_dec_icdf silk_delta_gain_iCDF 8; dec_ret (i8 x)
         else
           hi <~ ec_dec_icdf (row silk_gain_iCDF signalType) 8;
           lo <~ ec_dec_icdf silk_uniform8_iCDF 8;
           dec_ret (i8 (i8 (silk_LSHIFT hi 3) + i8 lo)));
  gs <~ dec_all (fun _ => x <~ ec_dec_icdf silk_delta_gain_iCDF 8; dec_ret (i8 x))
          (seq 1 (Z.to_nat (nb_subfr - 1)));
  dec_ret (wr_all GainsIndices 0 (g0 :: gs)).

Definition decode_NLSF (cb : silk_NLSF_CB_struct) (ix : Z) : D -> Z * D :=
  Ix <~ ec_dec_icdf (icdf_at cb.(ec_iCDF) ix) 8;
  if Ix =? 0 then x <~ ec_dec_icdf silk_NLSF_EXT_iCDF 8; dec_ret (i8 (Ix - x - NLSF_QUANT_MAX_AMPLITUDE))
  else if Ix =? 2 * NLSF_QUANT_MAX_AMPLITUDE then
    x <~ ec_dec_icdf silk_NLSF_EXT_iCDF 8; dec_ret (i8 (Ix + x - NLSF_QUANT_MAX_AMPLITUDE))
  else dec_ret (i8 (Ix - NLSF_QUANT_MAX_AMPLITUDE)).

(** [NLSFIndices] and [NLSFInterpCoef_Q2]. *)
Definition decode_NLSFs (c : channel) (signalType : Z) (NLSFIndices : list Z) : D -> (list Z * Z) * D :=
  let cb := c.(psNLSF_CB) in
  n0 <~ ec_dec_icdf (CB1_table cb signalType) 8;
  let n0 := i8 n0 in
  ns <~ (let '(ec_ix, _) := silk_NLSF_unpack cb n0 in
         dec_all (fun i => decode_NLSF cb ec_ix.[Z.of_nat i]) (seq 0 (Z.to_nat cb.(order))));
  let l := wr_all NLSFIndices 0 (n0 :: ns) in
  if c.(nb_subfr) =? MAX_NB_SUBFR then
    x <~ ec_dec_icdf silk_NLSF_interpolation_factor_iCDF 8; dec_ret (l, i8 x)
  else dec_ret (l, 4).

Definition decode_absolute_lag (c : channel) : D -> Z * D :=
  hi <~ ec_dec_icdf silk_pitch_lag_iCDF 8;
  lo <~ ec_dec_icdf c.(pitch_lag_low_bits_iCDF) 8;
  dec_ret (i16 (i16 (i16 hi * silk_RSHIFT c.(fs_kHz) 1) + i16 lo)).

Definition decode_lag (c : channel) (condCoding : Z) : D -> Z * D :=
  if (condCoding =? CODE_CONDITIONALLY) && (c.(ec_prevSignalType) =? TYPE_VOICED) then
    delta_lagIndex <~ ec_dec_icdf silk_pitch_delta_iCDF 8;
    let delta_lagIndex := i16 delta_lagIndex in
    if delta_lagIndex >? 0 then dec_ret (i16 (c.(ec_prevLagIndex) + (delta_lagIndex - 9)))
    else decode_absolute_lag c
  else decode_absolute_lag c.

(** The indices that only voiced frames have. *)
Record voiced := {
  v_lagIndex : Z;
  v_contourIndex : Z;
  v_PERIndex : Z;
  v_LTPIndex : list Z;
  v_LTP_scaleIndex : Z
}.

Definition decode_voiced (c : channel) (condCoding : Z) (LTPIndex : list Z) : D -> voiced * D :=
  lag <~ decode_lag c condCoding;
  contour <~ ec_dec_icdf c.(pitch_contour_iCDF) 8;
  per <~ ec_dec_icdf silk_LTP_per_index_iCDF 8;
  let per := i8 per in
  ltp <~ dec_all (fun _ => x <~ ec_dec_icdf (row silk_LTP_gain_iCDF_ptrs per) 8; dec_ret (i8 x))
           (seq 0 (Z.to_nat c.(nb_subfr)));
  scale <~ (if condCoding =? CODE_INDEPENDENTLY then
              x <~ ec_dec_icdf silk_LTPscale_iCDF 8; dec_ret (i8 x)
            else dec_ret 0);
  dec_ret {| v_lagIndex := lag; v_contourIndex := i8 contour; v_PERIndex := per;
             v_LTPIndex := wr_all LTPIndex 0 ltp; v_LTP_scaleIndex := scale |}.

Definition decode_frame (c : channel) (vad : bool) (condCoding : Z) (old : SideInfoIndices)
    : D -> (SideInfoIndices * channel) * D :=
  '(st, qo) <~ decode_type vad;
  gains <~ decode_gains c.(nb_subfr) condCoding st old.(GainsIndices);
  '(nlsf, interp) <~ decode_NLSFs c st old.(NLSFIndices);
  v <~ (if st =? TYPE_VOICED then decode_voiced c condCoding old.(LTPIndex)
        else dec_ret {| v_lagIndex := old.(lagIndex); v_contourIndex := old.(contourIndex);
                        v_PERIndex := old.(PERIndex); v_LTPIndex := old.(LTPIndex);
                        v_LTP_scaleIndex := old.(LTP_scaleIndex) |});
  seed <~ ec_dec_icdf silk_uniform4_iCDF 8;
  dec_ret ({| GainsIndices := gains; LTPIndex := v.(v_LTPIndex); NLSFIndices := nlsf;
              lagIndex := v.(v_lagIndex); contourIndex := v.(v_contourIndex); signalType := st;
              quantOffsetType := qo; NLSFInterpCoef_Q2 := interp; PERIndex := v.(v_PERIndex);
              LTP_scaleIndex := v.(v_LTP_scaleIndex); Seed := i8 seed |},
           set_prev c st (if st =? TYPE_VOICED then v.(v_lagIndex) else c.(ec_prevLagIndex))).

Definition silk_decode_indices (psDec : silk_decoder_state) (FrameIndex : Z) (decode_LBRR : bool)
    (condCoding : Z) : D -> silk_decoder_state * D :=
  '(indices, c) <~ decode_frame psDec.(dec_channel) (decode_LBRR || negb (psDec.(VAD_flags).[FrameIndex] =? 0))
                     condCoding psDec.(dec_indices);
  dec_ret {| dec_channel := c; dec_indices := indices; VAD_flags := psDec.(VAD_flags) |}.
End Coder.
