(* ===== verification/SilkIndicesProofs.v ===== *)
(** * Side information of SILK frames: proofs *)

From S2P Require Import Prelude EntropyInterface EntropySeq SilkMath SilkTables SilkIndices.

(** ** Tables *)

Definition rate_ok (fs : Z) : Prop := fs = 8 \/ fs = 12 \/ fs = 16.

Lemma codebook_tables fs n0 i :
  rate_ok fs -> 0 <= n0 <= 31 -> 0 <= i < order (codebook fs) ->
  let t := icdf_at (ec_iCDF (codebook fs)) (silk_NLSF_unpack (codebook fs) n0).1.[i] in
  table_ok t = true /\ len t = 9.
Proof.
  intros Hfs Hn Hi. cbv zeta.
  assert (forallb (fun fs => zforall 32 0 (fun n0 => let ix := (silk_NLSF_unpack (codebook fs) n0).1 in
    zforall (Z.to_nat (order (codebook fs))) 0 (fun i =>
      let t := icdf_at (ec_iCDF (codebook fs)) ix.[i] in table_ok t && (len t =? 9)))) [8; 12; 16] = true)
    as H by (vm_compute; reflexivity).
  rewrite forallb_forall in H. specialize (H fs ltac:(cbn [In]; unfold rate_ok in Hfs; intuition congruence)).
  pose proof (zforall_spec _ _ _ n0 H ltac:(lia)) as H1. cbv beta zeta in H1.
  pose proof (zforall_spec _ _ _ i H1 ltac:(lia)) as [H2 H3]%andb_true_iff. split; [done|lia].
Qed.

Lemma codebook_CB1 fs st :
  rate_ok fs -> 0 <= st <= 2 ->
  table_ok (CB1_table (codebook fs) st) = true /\ len (CB1_table (codebook fs) st) = 32.
Proof.
  intros [-> | [-> | ->]] Hs; (assert (st = 0 \/ st = 1 \/ st = 2) as [-> | [-> | ->]] by lia);
    vm_compute; split; reflexivity.
Qed.

Lemma low_bits_ok fs :
  rate_ok fs -> table_ok (low_bits_table fs) = true /\ len (low_bits_table fs) = fs / 2.
Proof. intros [-> | [-> | ->]]; vm_compute; split; reflexivity. Qed.

Lemma contour_ok fs nb : rate_ok fs -> table_ok (contour_table fs nb) = true.
Proof.
  intros Hfs. unfold contour_table. destruct (fs =? 8), (nb =? MAX_NB_SUBFR); vm_compute; reflexivity.
Qed.

Lemma gain_row st : 0 <= st <= 2 -> table_ok (row silk_gain_iCDF st) = true /\ len (row silk_gain_iCDF st) = 8.
Proof. intros Hs. assert (st = 0 \/ st = 1 \/ st = 2) as [-> | [-> | ->]] by lia; vm_compute; split; reflexivity. Qed.

Lemma ltp_row per :
  0 <= per <= 2 -> table_ok (row silk_LTP_gain_iCDF_ptrs per) = true /\
  len (row silk_LTP_gain_iCDF_ptrs per) = Z.shiftl 8 per.
Proof. intros Hp. assert (per = 0 \/ per = 1 \/ per = 2) as [-> | [-> | ->]] by lia; vm_compute; split; reflexivity. Qed.

(** ** Well-formed channels and indices *)

Record channel_ok (c : channel) : Prop := {
  ch_rate : rate_ok c.(fs_kHz);
  ch_subfr : c.(nb_subfr) = 2 \/ c.(nb_subfr) = 4;
  ch_codebook : c.(psNLSF_CB) = codebook c.(fs_kHz);
  ch_low : c.(pitch_lag_low_bits_iCDF) = low_bits_table c.(fs_kHz);
  ch_contour : c.(pitch_contour_iCDF) = contour_table c.(fs_kHz) c.(nb_subfr)
}.

(** The ranges that encode_indices.c asserts. *)
Record indices_ok (c : channel) (lbrr : bool) (condCoding : Z) (x : SideInfoIndices) : Prop := {
  ix_type : 0 <= x.(signalType) <= 2;
  ix_offset : 0 <= x.(quantOffsetType) <= 1;
  ix_lbrr : lbrr = true -> 1 <= x.(signalType);
  ix_gain0 : 0 <= x.(GainsIndices).[0] <= (if condCoding =? CODE_CONDITIONALLY then 40 else 63);
  ix_gains : forall i, 1 <= i < c.(nb_subfr) -> 0 <= x.(GainsIndices).[i] <= 40;
  ix_NLSF0 : 0 <= x.(NLSFIndices).[0] <= 31;
  ix_NLSF : forall i, 1 <= i <= order c.(psNLSF_CB) -> -10 <= x.(NLSFIndices).[i] <= 10;
  ix_interp : 0 <= x.(NLSFInterpCoef_Q2) <= 4;
  ix_lag : 0 <= x.(lagIndex) < 32 * (c.(fs_kHz) / 2);
  ix_contour : 0 <= x.(contourIndex) < len c.(pitch_contour_iCDF);
  ix_PER : 0 <= x.(PERIndex) <= 2;
  ix_LTP : forall k, 0 <= k < c.(nb_subfr) -> 0 <= x.(LTPIndex).[k] < Z.shiftl 8 x.(PERIndex);
  ix_scale : 0 <= x.(LTP_scaleIndex) <= 2;
  ix_seed : 0 <= x.(Seed) <= 3
}.

(** The first [n] entries of an array from index [i] on. *)
Definition entries (l : list Z) (i n : nat) : list Z := map (fun k => l.[Z.of_nat k]) (seq i n).

(** What the decoder knows of the indices of a frame, given those it had. *)
Definition received (c : channel) (condCoding : Z) (old x : SideInfoIndices) : SideInfoIndices :=
  let voiced := x.(signalType) =? TYPE_VOICED in
  {| GainsIndices := wr_all old.(GainsIndices) 0 (entries x.(GainsIndices) 0 (Z.to_nat c.(nb_subfr)));
     LTPIndex := if voiced then wr_all old.(LTPIndex) 0 (entries x.(LTPIndex) 0 (Z.to_nat c.(nb_subfr)))
                 else old.(LTPIndex);
     NLSFIndices := wr_all old.(NLSFIndices) 0
                      (entries x.(NLSFIndices) 0 (Z.to_nat (order c.(psNLSF_CB)) + 1));
     lagIndex := if voiced then x.(lagIndex) else old.(lagIndex);
     contourIndex := if voiced then x.(contourIndex) else old.(contourIndex);
     signalType := x.(signalType);
     quantOffsetType := x.(quantOffsetType);
     NLSFInterpCoef_Q2 := if c.(nb_subfr) =? MAX_NB_SUBFR then x.(NLSFInterpCoef_Q2) else 4;
     PERIndex := if voiced then x.(PERIndex) else old.(PERIndex);
     LTP_scaleIndex := if voiced then (if condCoding =? CODE_INDEPENDENTLY then x.(LTP_scaleIndex) else 0)
                       else old.(LTP_scaleIndex);
     Seed := x.(Seed) |}.

Section RoundTrip.
Context `{EntropyCoder E D}.
Context (c : channel) (lbrr : bool) (condCoding : Z) (x : SideInfoIndices).
Hypothesis c_ok : channel_ok c.
Hypothesis x_ok : indices_ok c lbrr condCoding x.

Ltac table n := apply codes_table; [vm_compute; reflexivity|change (len _) with n].

Lemma codes_type vad :
  vad = (lbrr || (2 * x.(signalType) + x.(quantOffsetType) >=? 2)) ->
  codes (encode_type lbrr x) (decode_type vad) (x.(signalType), x.(quantOffsetType)).
Proof.
  intros ->. destruct x_ok as [Ht Ho Hl _ _ _ _ _ _ _ _ _ _ _]. unfold encode_type, decode_type. cbv zeta.
  set (t := 2 * x.(signalType) + x.(quantOffsetType)).
  assert (i8 (silk_RSHIFT t 1) = x.(signalType) /\ i8 (Z.land t 1) = x.(quantOffsetType)) as [E1 E2].
  { unfold silk_RSHIFT. rewrite Z.shiftr_div_pow2 by lia. change (2 ^ 1) with 2.
    rewrite (Z.land_ones t 1 ltac:(lia) : Z.land t 1 = _). change (2 ^ 1) with 2. subst t.
    split; rewrite i8_small; dlia. }
  destruct (lbrr || (t >=? 2)) eqn:Eq.
  - assert (2 <= t) as Ht2.
    { destruct lbrr; [specialize (Hl eq_refl); subst t; lia|]. cbn [orb] in Eq. lia. }
    eapply (codes_map _ _ (fun Ix => (i8 (silk_RSHIFT (Ix + 2) 1), i8 (Z.land (Ix + 2) 1)))).
    + table 4. subst t. lia.
    + replace (t - 2 + 2) with t by lia. by rewrite E1, E2.
  - apply orb_false_iff in Eq as [_ Eq].
    eapply (codes_map _ _ (fun Ix => (i8 (silk_RSHIFT Ix 1), i8 (Z.land Ix 1)))); [|by rewrite E1, E2].
    table 2. lia.
Qed.

Lemma codes_i8 e (d : D -> Z * D) v :
  codes e d v -> -128 <= v < 128 -> codes e (y <~ d; dec_ret (i8 y)) v.
Proof. intros Hc Hv. eapply (codes_map _ _ i8); [exact Hc|by apply i8_small]. Qed.

(** Entries coded one after the other with the same table. *)
Lemma codes_entries t (l : list Z) i n :
  table_ok t = true -> len t <= 128 ->
  (forall k, Z.of_nat i <= k < Z.of_nat (i + n) -> 0 <= l.[k] < len t) ->
  codes (enc_all (fun k => ec_enc_icdf l.[Z.of_nat k] t 8) (seq i n))
    (dec_all (fun _ => y <~ ec_dec_icdf t 8; dec_ret (i8 y)) (seq i n)) (entries l i n).
Proof.
  intros Ht Hl Hr. eapply codes_ext; [reflexivity| |apply (codes_times _
    (y <~ ec_dec_icdf t 8; dec_ret (i8 y)) (fun k => l.[Z.of_nat k]) (seq i n) i)].
  - by rewrite length_seq.
  - intros k Hk%in_seq. specialize (Hr (Z.of_nat k) ltac:(lia)).
    apply codes_i8; [by apply codes_table|lia].
Qed.

Lemma codes_gains old :
  codes (encode_gains c.(nb_subfr) condCoding x) (decode_gains c.(nb_subfr) condCoding x.(signalType) old)
    (wr_all old 0 (entries x.(GainsIndices) 0 (Z.to_nat c.(nb_subfr)))).
Proof.
  destruct x_ok as [Ht _ _ Hg0 Hgs _ _ _ _ _ _ _ _ _]. unfold encode_gains, decode_gains.
  eapply codes_seq.
  - instantiate (1 := x.(GainsIndices).[0]). destruct (condCoding =? CODE_CONDITIONALLY).
    + apply codes_i8; [|lia]. table 41. lia.
    + destruct (gain_row _ Ht) as [Hok Hlen]. unfold silk_RSHIFT. rewrite Z.shiftr_div_pow2 by lia.
      change (2 ^ 3) with 8. rewrite (Z.land_ones _ 3 ltac:(lia) : Z.land _ 7 = _). change (2 ^ 3) with 8.
      eapply codes_seq; [apply codes_table; [done|rewrite Hlen; dlia]|]. cbv beta.
      eapply (codes_map _ _ (fun lo => i8 (i8 (silk_LSHIFT _ 3) + i8 lo))); [table 8; dlia|].
      unfold silk_LSHIFT. rewrite Z.shiftl_mul_pow2 by lia. change (2 ^ 3) with 8.
      rewrite u32_small, i32_small by dlia. rewrite (i8_small (_ * 8)) by dlia.
      rewrite (i8_small (_ mod 8)) by dlia. rewrite i8_small by dlia. dlia.
  - cbv beta. assert (Z.to_nat c.(nb_subfr) = S (Z.to_nat (c.(nb_subfr) - 1))) as ->.
    { destruct (ch_subfr c c_ok); lia. }
    eapply (codes_map _ _ (fun gs => wr_all old 0 (x.(GainsIndices).[0] :: gs))).
    + apply (codes_entries silk_delta_gain_iCDF x.(GainsIndices) 1); [vm_compute; reflexivity|by vm_compute|].
      change (len silk_delta_gain_iCDF) with 41. intros k Hk. specialize (Hgs k). lia.
    + done.
Qed.

Lemma codes_NLSF ix v :
  let t := icdf_at (ec_iCDF c.(psNLSF_CB)) ix in
  table_ok t = true -> len t = 9 -> -10 <= v <= 10 ->
  codes (encode_NLSF c.(psNLSF_CB) (v, ix)) (decode_NLSF c.(psNLSF_CB) ix) v.
Proof.
  cbv zeta. intros Hok Hl Hv. unfold encode_NLSF, decode_NLSF, NLSF_QUANT_MAX_AMPLITUDE.
  change (- (4)) with (-4). change (2 * 4) with 8.
  destruct (Z.geb_spec v 4) as [H4|H4]; [|destruct (Z.leb_spec v (-4)) as [H5|H5]].
  - eapply codes_seq; [apply codes_table; [done|lia]|]. cbv beta. cbn [Z.eqb Pos.eqb].
    eapply (codes_map _ _ (fun y => i8 (8 + y - 4))); [table 7; lia|]. rewrite i8_small; lia.
  - eapply codes_seq; [apply codes_table; [done|lia]|]. cbv beta. cbn [Z.eqb].
    eapply (codes_map _ _ (fun y => i8 (0 - y - 4))); [table 7; lia|]. rewrite i8_small; lia.
  - eapply codes_last; [apply codes_table; [done|lia]|]. cbv beta.
    destruct (Z.eqb_spec (v + 4) 0); [lia|]. destruct (Z.eqb_spec (v + 4) 8); [lia|].
    rewrite i8_small by lia. replace (v + 4 - 4) with v by lia. apply codes_skip.
Qed.

Lemma codes_NLSFs old :
  codes (encode_NLSFs c x) (decode_NLSFs c x.(signalType) old)
    (wr_all old 0 (entries x.(NLSFIndices) 0 (Z.to_nat (order c.(psNLSF_CB)) + 1)),
     if c.(nb_subfr) =? MAX_NB_SUBFR then x.(NLSFInterpCoef_Q2) else 4).
Proof.
  destruct x_ok as [Ht _ _ _ _ Hn0 Hn Hi _ _ _ _ _ _]. destruct c_ok as [Hr _ Hcb _ _].
  unfold encode_NLSFs, decode_NLSFs. cbv zeta.
  destruct (codebook_CB1 _ _ Hr Ht) as [Hok Hl]. rewrite <- Hcb in Hok, Hl.
  eapply codes_seq; [apply codes_table; [done|lia]|]. cbv beta. rewrite (i8_small (_.[0])) by lia.
  pose proof (codebook_tables c.(fs_kHz) x.(NLSFIndices).[0]) as Htab. rewrite <- Hcb in Htab.
  destruct (silk_NLSF_unpack c.(psNLSF_CB) x.(NLSFIndices).[0]) as [ec_ix p]. cbn [fst] in Htab.
  assert (entries x.(NLSFIndices) 0 (Z.to_nat (order c.(psNLSF_CB)) + 1) =
    x.(NLSFIndices).[0] :: map (fun i => x.(NLSFIndices).[Z.of_nat i + 1]) (seq 0 (Z.to_nat (order c.(psNLSF_CB))))) as ->.
  { unfold entries. rewrite Nat.add_1_r. cbn [seq map]. f_equal. rewrite <- seq_shift, map_map.
    apply map_ext. intros k. f_equal. lia. }
  eapply codes_seq.
  - rewrite <- (map_id (seq 0 _)) at 2.
    apply (codes_each _ (fun i => decode_NLSF c.(psNLSF_CB) ec_ix.[Z.of_nat i]) (fun i => i)
      (fun i => x.(NLSFIndices).[Z.of_nat i + 1])).
    intros k Hk%in_seq. destruct (Htab (Z.of_nat k) Hr ltac:(lia) ltac:(lia)) as [Hk1 Hk2].
    apply codes_NLSF; [done|done|apply Hn; lia].
  - cbv beta. destruct (c.(nb_subfr) =? MAX_NB_SUBFR).
    + eapply (codes_map _ _ (fun y => (_, i8 y))); [table 5; lia|]. by rewrite i8_small by lia.
    + apply codes_skip.
Qed.

Lemma codes_absolute_lag :
  codes (encode_absolute_lag c x) (decode_absolute_lag c) x.(lagIndex).
Proof.
  destruct x_ok as [_ _ _ _ _ _ _ _ Hlag _ _ _ _ _]. destruct c_ok as [Hr _ _ Hlow _].
  unfold encode_absolute_lag, decode_absolute_lag, silk_RSHIFT, silk_DIV32_16, silk_SMULBB. cbv zeta.
  rewrite Z.shiftr_div_pow2 by lia. change (2 ^ 1) with 2. rewrite Hlow.
  destruct (low_bits_ok _ Hr) as [Hok Hl].
  assert (4 <= c.(fs_kHz) / 2 <= 8) as Hh by (destruct Hr as [-> | [-> | ->]]; vm_compute; split; discriminate).
  set (h := c.(fs_kHz) / 2) in *. rewrite Z.quot_div_nonneg by lia.
  assert (0 <= x.(lagIndex) / h < 32 /\ h * (x.(lagIndex) / h) + x.(lagIndex) mod h = x.(lagIndex) /\
          0 <= x.(lagIndex) mod h < h) as (Hq & Hdm & Hm).
  { pose proof (Z.div_mod x.(lagIndex) h ltac:(lia)). pose proof (Z.mod_pos_bound x.(lagIndex) h ltac:(lia)).
    split_and!; try lia; [apply Z.div_pos; lia|apply Z.div_lt_upper_bound; lia]. }
  set (q := x.(lagIndex) / h) in *. rewrite !i16_small by lia. rewrite i32_small by nia.
  eapply codes_seq; [table 32; lia|]. cbv beta.
  eapply (codes_map _ _ (fun lo => i16 (i16 (i16 q * h) + i16 lo))).
  - apply codes_table; [done|lia].
  - rewrite (i16_small q), (i16_small (q * h)), (i16_small (_ - _)), i16_small by nia. lia.
Qed.

Lemma codes_lag : codes (encode_lag c condCoding x) (decode_lag c condCoding) x.(lagIndex).
Proof.
  pose proof (ix_lag _ _ _ _ x_ok) as Hlag. unfold encode_lag, decode_lag.
  destruct (_ && _); [|apply codes_absolute_lag]. cbv zeta.
  destruct (Z.ltb_spec (x.(lagIndex) - c.(ec_prevLagIndex)) (-8)) as [Hd|Hd]; cbn [orb].
  { eapply codes_seq; [table 21; lia|apply codes_absolute_lag]. }
  destruct (Z.gtb_spec (x.(lagIndex) - c.(ec_prevLagIndex)) 11) as [He|He].
  { eapply codes_seq; [table 21; lia|apply codes_absolute_lag]. }
  eapply codes_last; [table 21; lia|]. cbv beta. rewrite (i16_small (_ + 9)) by lia.
  destruct (Z.gtb_spec (x.(lagIndex) - c.(ec_prevLagIndex) + 9) 0); [|lia].
  replace (c.(ec_prevLagIndex) + (x.(lagIndex) - c.(ec_prevLagIndex) + 9 - 9)) with x.(lagIndex) by lia.
  rewrite i16_small by (destruct (ch_rate c c_ok) as [Hr|[Hr|Hr]]; rewrite Hr in Hlag;
    vm_compute (32 * _) in Hlag; lia). apply codes_skip.
Qed.

Lemma codes_voiced old :
  codes (encode_voiced c condCoding x) (decode_voiced c condCoding old)
    {| v_lagIndex := x.(lagIndex); v_contourIndex := x.(contourIndex); v_PERIndex := x.(PERIndex);
       v_LTPIndex := wr_all old 0 (entries x.(LTPIndex) 0 (Z.to_nat c.(nb_subfr)));
       v_LTP_scaleIndex := if condCoding =? CODE_INDEPENDENTLY then x.(LTP_scaleIndex) else 0 |}.
Proof.
  destruct x_ok as [_ _ _ _ _ _ _ _ _ Hc Hp Hltp Hs _]. pose proof (contour_ok c.(fs_kHz) c.(nb_subfr) (ch_rate c c_ok)) as Hct.
  rewrite <- (ch_contour c c_ok) in Hct. unfold encode_voiced, decode_voiced.
  eapply codes_seq; [apply codes_lag|]. eapply codes_seq; [by apply codes_table|].
  eapply codes_seq; [table 3; lia|]. cbv beta zeta. rewrite (i8_small x.(PERIndex)) by lia.
  destruct (ltp_row _ Hp) as [Hok Hl].
  assert (Z.shiftl 8 x.(PERIndex) <= 32) as H32.
  { assert (x.(PERIndex) = 0 \/ x.(PERIndex) = 1 \/ x.(PERIndex) = 2) as [-> | [-> | ->]] by lia; vm_compute; discriminate. }
  eapply codes_seq; [apply (codes_entries (row silk_LTP_gain_iCDF_ptrs x.(PERIndex)) x.(LTPIndex) 0); [done|lia|]|].
  { rewrite Hl. intros k Hk. apply Hltp. lia. }
  cbv beta. rewrite (i8_small x.(contourIndex)).
  2: { assert (len c.(pitch_contour_iCDF) <= 34); [|lia]. rewrite (ch_contour c c_ok). unfold contour_table.
       destruct (_ =? 8), (_ =? MAX_NB_SUBFR); vm_compute; discriminate. }
  destruct (condCoding =? CODE_INDEPENDENTLY).
  - eapply codes_last; [|apply codes_skip]. apply codes_i8; [table 3; lia|lia].
  - apply (codes_skip (A := voiced)).
Qed.

Lemma codes_frame vad old :
  vad = (lbrr || (2 * x.(signalType) + x.(quantOffsetType) >=? 2)) ->
  codes (encode_frame c lbrr condCoding x).1 (decode_frame c vad condCoding old)
    (received c condCoding old x, (encode_frame (E := E) c lbrr condCoding x).2).
Proof.
  intros Hv. unfold encode_frame, decode_frame. cbn [fst snd].
  eapply codes_seq; [by apply codes_type|]. cbv beta iota. eapply codes_seq; [apply codes_gains|].
  eapply codes_seq; [apply codes_NLSFs|]. cbv beta iota.
  eapply (codes_seq _ (ec_enc_icdf x.(Seed) silk_uniform4_iCDF 8)).
  - instantiate (1 := if x.(signalType) =? TYPE_VOICED then _ else _).
    destruct (x.(signalType) =? TYPE_VOICED); [apply codes_voiced|apply codes_skip].
  - eapply codes_map; [table 4; pose proof (ix_seed _ _ _ _ x_ok); lia|]. unfold received.
    rewrite i8_small by (pose proof (ix_seed _ _ _ _ x_ok); lia).
    destruct (x.(signalType) =? TYPE_VOICED); reflexivity.
Qed.
End RoundTrip.

(** ** A sequence of frames *)

(** A frame as the callers pass it: whether it is LBRR data, the conditional
    coding and the indices. *)
Record frame := { f_lbrr : bool; f_cond : Z; f_ix : SideInfoIndices }.

(** The flag that the encoder signals for a frame elsewhere in the packet. *)
Definition vad_flag (x : SideInfoIndices) : Z := b2z (2 * x.(signalType) + x.(quantOffsetType) >=? 2).

Section Frames.
Context `{EntropyCoder E D}.

Fixpoint encode_frames (c : channel) (l : list frame) : E -> E :=
  match l with
  | [] => enc_skip
  | f :: l =>
      let '(e, s) := silk_encode_indices
        {| enc_channel := c; enc_indices := f.(f_ix); enc_indices_LBRR := [f.(f_ix)] |} 0 f.(f_lbrr) f.(f_cond) in
      e >>> encode_frames s.(enc_channel) l
  end.

(** The decoder keeps its channel and its indices from frame to frame. *)
Fixpoint decode_frames (c : channel) (old : SideInfoIndices) (l : list (bool * Z * Z)) : D -> list SideInfoIndices * D :=
  match l with
  | [] => dec_ret []
  | (lbrr, cond, vad) :: l =>
      s <~ silk_decode_indices {| dec_channel := c; dec_indices := old; VAD_flags := [vad] |} 0 lbrr cond;
      r <~ decode_frames s.(dec_channel) s.(dec_indices) l;
      dec_ret (s.(dec_indices) :: r)
  end.

Definition next_channel (c : channel) (x : SideInfoIndices) : channel :=
  set_prev c x.(signalType) (if x.(signalType) =? TYPE_VOICED then x.(lagIndex) else c.(ec_prevLagIndex)).

Fixpoint received_frames (c : channel) (old : SideInfoIndices) (l : list frame) : list SideInfoIndices :=
  match l with
  | [] => []
  | f :: l =>
      let x := received c f.(f_cond) old f.(f_ix) in
      x :: received_frames (next_channel c f.(f_ix)) x l
  end.

Fixpoint frames_ok (c : channel) (l : list frame) : Prop :=
  match l with
  | [] => True
  | f :: l => indices_ok c f.(f_lbrr) f.(f_cond) f.(f_ix) /\ frames_ok (next_channel c f.(f_ix)) l
  end.

Lemma next_channel_ok c x : channel_ok c -> channel_ok (next_channel c x).
Proof. by intros [H1 H2 H3 H4 H5]. Qed.

Lemma codes_frames c old l :
  channel_ok c -> frames_ok c l ->
  codes (encode_frames c l)
    (decode_frames c old (map (fun f => (f.(f_lbrr), f.(f_cond), vad_flag f.(f_ix))) l))
    (received_frames c old l).
Proof.
  revert c old. induction l as [|[lbrr cond x] l IH]; intros c old Hc Hl; [apply codes_skip|].
  destruct Hl as [Hx Hl]. cbn [f_lbrr f_cond f_ix] in Hx, Hl.
  cbn [encode_frames decode_frames received_frames map f_lbrr f_cond f_ix].
  unfold silk_encode_indices, silk_decode_indices, enc_selected.
  cbn [enc_channel enc_indices enc_indices_LBRR dec_channel dec_indices VAD_flags].
  change (nth (Z.to_nat 0) [x] x) with x. replace (if lbrr then x else x) with x by (by destruct lbrr).
  pose proof (codes_frame (E := E) (D := D) c lbrr cond x Hc Hx (lbrr || negb ([vad_flag x].[0] =? 0)) old) as Hf.
  change ([vad_flag x].[0]) with (vad_flag x) in *.
  specialize (Hf ltac:(unfold vad_flag; by destruct lbrr, (_ >=? 2))).
  destruct (encode_frame c lbrr cond x) as [e c'] eqn:Ee. cbn [fst snd enc_channel] in *.
  assert (c' = next_channel c x) as -> by (by injection Ee).
  eapply codes_seq.
  - eapply codes_last; [exact Hf|]. cbv beta iota. apply codes_skip.
  - cbv beta. cbn [dec_channel dec_indices].
    eapply (codes_map _ _ (fun r => received c cond old x :: r)); [|reflexivity].
    apply IH; [by apply next_channel_ok|done].
Qed.
End Frames.

(** ** Decoding arbitrary bytes *)

Lemma len_wr_all vs : forall l i, len (wr_all l i vs) = len l.
Proof. induction vs as [|v vs IH]; intros l i; cbn [wr_all]; [done|]. by rewrite IH, len_wr. Qed.

Lemma rd_wr_all_before vs : forall l i k, k < i -> (wr_all l i vs).[k] = l.[k].
Proof.
  induction vs as [|v vs IH]; intros l i k Hk; cbn [wr_all]; [done|]. rewrite IH by lia. apply rd_wr_ne. lia.
Qed.

Lemma rd_wr_all vs : forall l i k,
  0 <= i -> i + len vs <= len l -> i <= k < i + len vs -> (wr_all l i vs).[k] = vs.[k - i].
Proof.
  induction vs as [|v vs IH]; intros l i k Hi Hl Hk; [unfold len in Hk; cbn in Hk; lia|].
  assert (len (v :: vs) = 1 + len vs) as E1 by (unfold len; cbn [length]; lia). cbn [wr_all].
  destruct (decide (k = i)) as [->|].
  - rewrite rd_wr_all_before by lia. rewrite rd_wr_eq by lia. by rewrite Z.sub_diag.
  - rewrite IH by (rewrite ?len_wr; lia). replace (k - i) with (1 + (k - (i + 1))) by lia.
    rewrite rd_cons_S by lia. done.
Qed.

(** Every stored entry has a property of the values. *)
Lemma wr_all_Forall (P : Z -> Prop) l vs k :
  Forall P vs -> len vs <= len l -> 0 <= k < len vs -> P (wr_all l 0 vs).[k].
Proof.
  intros HP Hl Hk. rewrite rd_wr_all by lia. rewrite Z.sub_0_r. unfold rd, len in *.
  destruct (Z.ltb_spec k 0); [lia|]. rewrite Forall_forall in HP. apply HP, nth_In. lia.
Qed.

(** The arrays of [SideInfoIndices] have their declared lengths. *)
Definition shape_ok (x : SideInfoIndices) : Prop :=
  len x.(GainsIndices) = 4 /\ len x.(LTPIndex) = 4 /\ len x.(NLSFIndices) = 17.

(** The ranges of decoded indices: every table they select from is large enough. *)
Record decoded_ok (c : channel) (condCoding : Z) (x : SideInfoIndices) : Prop := {
  dx_shape : shape_ok x;
  dx_type : 0 <= x.(signalType) <= 2;
  dx_offset : 0 <= x.(quantOffsetType) <= 1;
  dx_gain0 : 0 <= x.(GainsIndices).[0] <= (if condCoding =? CODE_CONDITIONALLY then 40 else 63);
  dx_gains : forall i, 1 <= i < c.(nb_subfr) -> 0 <= x.(GainsIndices).[i] <= 40;
  dx_NLSF0 : 0 <= x.(NLSFIndices).[0] <= 31;
  dx_NLSF : forall i, 1 <= i <= order c.(psNLSF_CB) -> -10 <= x.(NLSFIndices).[i] <= 10;
  dx_interp : 0 <= x.(NLSFInterpCoef_Q2) <= 4;
  dx_voiced : x.(signalType) = TYPE_VOICED ->
    0 <= x.(contourIndex) < len c.(pitch_contour_iCDF) /\ 0 <= x.(PERIndex) <= 2 /\
    (forall k, 0 <= k < c.(nb_subfr) -> 0 <= x.(LTPIndex).[k] < Z.shiftl 8 x.(PERIndex)) /\
    0 <= x.(LTP_scaleIndex) <= 2;
  dx_seed : 0 <= x.(Seed) <= 3
}.

Section Safe.
Context `{EntropyCoder E D}.
Context (c : channel) (condCoding : Z).
Hypothesis c_ok : channel_ok c.

Ltac ytable n := eapply yields_seq;
  [apply yields_table; vm_compute; reflexivity|
   cbv beta; let y := fresh "a" in let Hy := fresh "Ha" in intros y Hy;
   match type of Hy with _ <= _ < len ?t => change (len t) with n in Hy end].

Lemma yields_i8 (d : D -> Z * D) n :
  n <= 128 -> yields dec_inv d (fun s => 0 <= s < n) ->
  yields dec_inv (y <~ d; dec_ret (i8 y)) (fun s => 0 <= s < n).
Proof.
  intros Hn Hd. eapply yields_seq; [exact Hd|]. cbv beta. intros y Hy. apply yields_done.
  rewrite i8_small; lia.
Qed.

Lemma yields_type vad :
  yields dec_inv (decode_type vad) (fun t => 0 <= t.1 <= 2 /\ 0 <= t.2 <= 1).
Proof.
  assert (forall t, 0 <= t <= 5 -> 0 <= i8 (silk_RSHIFT t 1) <= 2 /\ 0 <= i8 (Z.land t 1) <= 1) as Ht.
  { intros t Ht. unfold silk_RSHIFT. rewrite Z.shiftr_div_pow2 by lia. change (2 ^ 1) with 2.
    rewrite (Z.land_ones t 1 ltac:(lia) : Z.land t 1 = _). change (2 ^ 1) with 2. rewrite !i8_small; dlia. }
  unfold decode_type. destruct vad; [ytable 4|ytable 2]; apply yields_done; cbn [fst snd]; apply Ht; lia.
Qed.

Lemma len_cons {A} (a : A) l : len (a :: l) = 1 + len l.
Proof. unfold len. cbn [length]. lia. Qed.

Lemma yields_gains st old :
  0 <= st <= 2 -> len old = 4 ->
  yields dec_inv (decode_gains c.(nb_subfr) condCoding st old) (fun l => len l = 4 /\
    0 <= l.[0] <= (if condCoding =? CODE_CONDITIONALLY then 40 else 63) /\
    forall i, 1 <= i < c.(nb_subfr) -> 0 <= l.[i] <= 40).
Proof.
  intros Hst Hold. unfold decode_gains. destruct (gain_row st Hst) as [Hok Hl].
  eapply (yields_seq _ _ _ (fun g => 0 <= g <= (if condCoding =? CODE_CONDITIONALLY then 40 else 63))).
  { destruct (condCoding =? CODE_CONDITIONALLY).
    - ytable 41. apply yields_done. rewrite i8_small; lia.
    - eapply yields_seq; [by apply yields_table|]. cbv beta. rewrite Hl. intros hi Hhi. ytable 8.
      apply yields_done. unfold silk_LSHIFT. rewrite Z.shiftl_mul_pow2 by lia. change (2 ^ 3) with 8.
      rewrite u32_small, i32_small by lia. rewrite (i8_small (hi * 8)), (i8_small a) by lia. rewrite i8_small; lia. }
  intros g0 Hg0. eapply yields_seq.
  { apply (yields_each dec_inv _ _ (fun s => 0 <= s < 41)). intros k _. apply yields_i8; [lia|].
    change 41 with (len silk_delta_gain_iCDF). apply yields_table. vm_compute. reflexivity. }
  intros gs [Hgl Hgs]. rewrite length_seq in Hgl. apply yields_done.
  assert (len gs = c.(nb_subfr) - 1) as Hlen by (unfold len; destruct (ch_subfr c c_ok); lia).
  split; [by rewrite len_wr_all|]. assert (len (g0 :: gs) <= len old) as Hfit.
  { rewrite len_cons, Hlen, Hold. destruct (ch_subfr c c_ok); lia. }
  split; [rewrite rd_wr_all by (rewrite ?len_cons in *; unfold len in *; lia); done|].
  intros i Hi. rewrite rd_wr_all by (rewrite ?len_cons in *; lia).
  replace (i - 0) with (1 + (i - 1)) by lia. rewrite rd_cons_S by lia.
  pose proof (rd_Forall (fun s => 0 <= s < 41) gs (i - 1) ltac:(cbv beta; lia) Hgs). cbv beta in *. lia.
Qed.

Lemma yields_NLSF ix :
  let t := icdf_at (ec_iCDF c.(psNLSF_CB)) ix in
  table_ok t = true -> len t = 9 ->
  yields dec_inv (decode_NLSF c.(psNLSF_CB) ix) (fun v => -10 <= v <= 10).
Proof.
  cbv zeta. intros Hok Hl. unfold decode_NLSF, NLSF_QUANT_MAX_AMPLITUDE.
  eapply yields_seq; [by apply yields_table|]. cbv beta. rewrite Hl. intros I HI.
  destruct (Z.eqb_spec I 0) as [->|]; [|destruct (Z.eqb_spec I (2 * 4)) as [->|]].
  - ytable 7. apply yields_done. rewrite i8_small; lia.
  - ytable 7. apply yields_done. rewrite i8_small; lia.
  - apply yields_done. rewrite i8_small; lia.
Qed.

Lemma yields_NLSFs st old :
  0 <= st <= 2 -> len old = 17 ->
  yields dec_inv (decode_NLSFs c st old) (fun r => len r.1 = 17 /\ 0 <= r.1.[0] <= 31 /\
    (forall i, 1 <= i <= order c.(psNLSF_CB) -> -10 <= r.1.[i] <= 10) /\ 0 <= r.2 <= 4).
Proof.
  intros Hst Hold. destruct c_ok as [Hr _ Hcb _ _]. unfold decode_NLSFs. cbv zeta.
  destruct (codebook_CB1 _ _ Hr Hst) as [Hok Hl]. rewrite <- Hcb in Hok, Hl.
  eapply yields_seq; [by apply yields_table|]. cbv beta. rewrite Hl. intros n0 Hn0. rewrite (i8_small n0) by lia.
  pose proof (codebook_tables c.(fs_kHz) n0) as Htab. rewrite <- Hcb in Htab.
  destruct (silk_NLSF_unpack c.(psNLSF_CB) n0) as [ec_ix p]. cbn [fst] in Htab.
  assert (0 < order c.(psNLSF_CB) <= 16) as Hord.
  { rewrite Hcb. destruct Hr as [-> | [-> | ->]]; vm_compute; split; (reflexivity || discriminate). }
  eapply yields_seq.
  { apply (yields_each dec_inv _ _ (fun v => -10 <= v <= 10)). intros k Hk%in_seq.
    destruct (Htab (Z.of_nat k) Hr ltac:(lia) ltac:(lia)) as [Hk1 Hk2]. by apply yields_NLSF. }
  intros ns [Hnl Hns]. rewrite length_seq in Hnl.
  assert (len ns = order c.(psNLSF_CB)) as Hlen by (unfold len; lia).
  assert (len (wr_all old 0 (n0 :: ns)) = 17 /\ 0 <= (wr_all old 0 (n0 :: ns)).[0] <= 31 /\
    forall i, 1 <= i <= order c.(psNLSF_CB) -> -10 <= (wr_all old 0 (n0 :: ns)).[i] <= 10) as (L1 & L2 & L3).
  { split; [by rewrite len_wr_all|]. split.
    - rewrite rd_wr_all by (rewrite ?len_cons; lia). change ((n0 :: ns).[0 - 0]) with n0. lia.
    - intros i Hi. rewrite rd_wr_all by (rewrite ?len_cons; lia). replace (i - 0) with (1 + (i - 1)) by lia.
      rewrite rd_cons_S by lia. exact (rd_Forall (fun v => -10 <= v <= 10) ns (i - 1) ltac:(cbv beta; lia) Hns). }
  destruct (c.(nb_subfr) =? MAX_NB_SUBFR); [ytable 5|]; apply yields_done; cbn [fst snd];
    rewrite ?i8_small by lia; split_and!; try done; lia.
Qed.

Lemma yields_lag : yields dec_inv (decode_lag c condCoding) (fun _ => True).
Proof.
  assert (yields dec_inv (decode_absolute_lag c) (fun _ => True)) as Ha.
  { unfold decode_absolute_lag. ytable 32. eapply yields_seq; [|intros; by apply yields_done].
    rewrite (ch_low c c_ok). apply yields_table, low_bits_ok, c_ok. }
  unfold decode_lag. destruct (_ && _); [|done]. ytable 21. cbv zeta.
  destruct (_ >? 0); [by apply yields_done|done].
Qed.

Lemma yields_voiced old :
  len old = 4 ->
  yields dec_inv (decode_voiced c condCoding old) (fun v =>
    0 <= v.(v_contourIndex) < len c.(pitch_contour_iCDF) /\ 0 <= v.(v_PERIndex) <= 2 /\
    len v.(v_LTPIndex) = 4 /\
    (forall k, 0 <= k < c.(nb_subfr) -> 0 <= v.(v_LTPIndex).[k] < Z.shiftl 8 v.(v_PERIndex)) /\
    0 <= v.(v_LTP_scaleIndex) <= 2).
Proof.
  intros Hold. unfold decode_voiced. eapply yields_seq; [apply yields_lag|]. intros lag _.
  eapply yields_seq; [apply yields_table; rewrite (ch_contour c c_ok); apply contour_ok, c_ok|].
  cbv beta. intros contour Hcon. ytable 3. cbv zeta. rewrite (i8_small a) by lia.
  destruct (ltp_row a ltac:(lia)) as [Hok Hl].
  assert (Z.shiftl 8 a <= 32) as H32.
  { assert (a = 0 \/ a = 1 \/ a = 2) as [-> | [-> | ->]] by lia; vm_compute; discriminate. }
  eapply yields_seq.
  { apply (yields_each dec_inv _ _ (fun s => 0 <= s < Z.shiftl 8 a)). intros k _. apply yields_i8; [lia|].
    rewrite <- Hl. by apply yields_table. }
  intros ltp [Hll Hltp]. rewrite length_seq in Hll.
  eapply (yields_seq _ _ _ (fun s => 0 <= s <= 2)).
  { destruct (condCoding =? CODE_INDEPENDENTLY); [ytable 3|]; apply yields_done; rewrite ?i8_small; lia. }
  intros scale Hs. apply yields_done. cbn [v_contourIndex v_PERIndex v_LTPIndex v_LTP_scaleIndex].
  assert (len c.(pitch_contour_iCDF) <= 34) as H34.
  { rewrite (ch_contour c c_ok). unfold contour_table.
    destruct (_ =? 8), (_ =? MAX_NB_SUBFR); vm_compute; discriminate. }
  rewrite i8_small by lia. split_and!; try lia; [by rewrite len_wr_all|].
  intros k Hk. apply (wr_all_Forall (fun s => 0 <= s < Z.shiftl 8 a)); [done|..];
    unfold len in *; destruct (ch_subfr c c_ok); lia.
Qed.

Lemma yields_frame vad old :
  shape_ok old ->
  yields dec_inv (decode_frame c vad condCoding old) (fun r =>
    decoded_ok c condCoding r.1 /\ channel_ok r.2).
Proof.
  intros (S1 & S2 & S3). unfold decode_frame. eapply yields_seq; [apply yields_type|].
  cbv beta. intros [st qo] [Hst Hqo]. cbn [fst snd] in *.
  eapply yields_seq; [by apply yields_gains|]. cbv beta. intros gains (G1 & G2 & G3).
  eapply yields_seq; [by apply yields_NLSFs|]. cbv beta. intros [nlsf interp] (N1 & N2 & N3 & N4). cbn [fst snd] in *.
  eapply (yields_seq _ _ _ (fun v => len v.(v_LTPIndex) = 4 /\ (st = TYPE_VOICED ->
    0 <= v.(v_contourIndex) < len c.(pitch_contour_iCDF) /\ 0 <= v.(v_PERIndex) <= 2 /\
    (forall k, 0 <= k < c.(nb_subfr) -> 0 <= v.(v_LTPIndex).[k] < Z.shiftl 8 v.(v_PERIndex)) /\
    0 <= v.(v_LTP_scaleIndex) <= 2))).
  { destruct (Z.eqb_spec st TYPE_VOICED); [|by apply yields_done].
    eapply yields_impl; [by apply yields_voiced|]. cbv beta. tauto. }
  intros v [V1 V2]. ytable 4. apply yields_done. cbn [fst snd]. rewrite i8_small by lia. split.
  - split; cbn [GainsIndices LTPIndex NLSFIndices signalType quantOffsetType NLSFInterpCoef_Q2 contourIndex
      PERIndex LTP_scaleIndex Seed]; try done; try lia.
  - by destruct c_ok as [H1 H2 H3 H4 H5].
Qed.
End Safe.
