(* ===== verification/SilkNLSF.v ===== *)
(** * Line spectral frequencies of SILK (silk/NLSF_decode.c,
      silk/NLSF_stabilize.c, silk/sort.c)

    The decoder turns indices into line spectral frequencies and then moves
    them apart until neighbours keep a minimum distance; only such a vector
    gives a stable filter. *)

From Stdlib Require Import Sorting.Sorted Sorting.Permutation.
From S2P Require Import Prelude SilkMath SilkTables SilkIndices.

(** ** Sorting (sort.c) *)

(** The inner loop with [j + 1 = n]: the elements before [n] that are larger
    than [value] move up. *)
Fixpoint sort_shift (n : nat) (value : Z) (a : list Z) : list Z :=
  match n with
  | O => a.[0 <- value]
  | S j =>
      if value <? a.[Z.of_nat j] then sort_shift j value a.[Z.of_nat j + 1 <- a.[Z.of_nat j]]
      else a.[Z.of_nat j + 1 <- value]
  end.

Definition silk_insertion_sort_increasing_all_values_int16 (a : list Z) (L : Z) : list Z :=
  foldl (fun a i => sort_shift i a.[Z.of_nat i] a) a (seq 1 (Z.to_nat (L - 1))).

(** ** Stabilisation *)

Definition MAX_LOOPS : nat := 20.

(** The middle elements from [i] on: smallest distance and its index. *)
Fixpoint min_middle (n : nat) (i : Z) (NLSF NDeltaMin : list Z) (m : Z * Z) : Z * Z :=
  match n with
  | O => m
  | S n =>
      let diff_Q15 := NLSF.[i] - (NLSF.[i - 1] + NDeltaMin.[i]) in
      min_middle n (i + 1) NLSF NDeltaMin (if diff_Q15 <? m.1 then (diff_Q15, i) else m)
  end.

(** [min_diff_Q15] and [I]. *)
Definition min_distance (NLSF NDeltaMin : list Z) (L : Z) : Z * Z :=
  let m := (NLSF.[0] - NDeltaMin.[0], 0) in
  let m := min_middle (Z.to_nat (L - 1)) 1 NLSF NDeltaMin m in
  let diff_Q15 := Z.shiftl 1 15 - (NLSF.[L - 1] + NDeltaMin.[L]) in
  if diff_Q15 <? m.1 then (diff_Q15, L) else m.

(** [x + NDeltaMin[i] + ... + NDeltaMin[i+n-1]] *)
Definition sum_delta (NDeltaMin : list Z) (i n : nat) : Z :=
  foldl (fun s k => s + NDeltaMin.[Z.of_nat k]) 0 (seq i n).

(** Move the elements around the smallest distance apart. *)
Definition move_apart (NLSF NDeltaMin : list Z) (L I_ : Z) : list Z :=
  if I_ =? 0 then NLSF.[0 <- NDeltaMin.[0]]
  else if I_ =? L then NLSF.[L - 1 <- i16 (Z.shiftl 1 15 - NDeltaMin.[L])]
  else
    let half := silk_RSHIFT NDeltaMin.[I_] 1 in
    let min_center_Q15 := sum_delta NDeltaMin 0 (Z.to_nat I_) + half in
    let max_center_Q15 := Z.shiftl 1 15 - sum_delta NDeltaMin (Z.to_nat I_ + 1) (Z.to_nat (L - I_)) - half in
    let center_freq_Q15 :=
      i16 (silk_LIMIT (silk_RSHIFT_ROUND (NLSF.[I_ - 1] + NLSF.[I_]) 1) min_center_Q15 max_center_Q15) in
    let NLSF := NLSF.[I_ - 1 <- i16 (center_freq_Q15 - half)] in
    NLSF.[I_ <- i16 (NLSF.[I_ - 1] + NDeltaMin.[I_])].

(** Keep the distance to the element before, from [i] on. *)
Fixpoint push_up (n : nat) (i : Z) (NLSF NDeltaMin : list Z) : list Z :=
  match n with
  | O => NLSF
  | S n => push_up n (i + 1) NLSF.[i <- Z.max NLSF.[i] (silk_ADD_SAT16 NLSF.[i - 1] NDeltaMin.[i])] NDeltaMin
  end.

(** Keep the distance to the element behind, from [n - 1] down. *)
Fixpoint push_down (n : nat) (NLSF NDeltaMin : list Z) : list Z :=
  match n with
  | O => NLSF
  | S m =>
      let i := Z.of_nat m in
      push_down m NLSF.[i <- i16 (Z.min NLSF.[i] (NLSF.[i + 1] - NDeltaMin.[i + 1]))] NDeltaMin
  end.

Definition stabilize_fallback (NLSF NDeltaMin : list Z) (L : Z) : list Z :=
  let NLSF := silk_insertion_sort_increasing_all_values_int16 NLSF L in
  let NLSF := NLSF.[0 <- Z.max NLSF.[0] NDeltaMin.[0]] in
  let NLSF := push_up (Z.to_nat (L - 1)) 1 NLSF NDeltaMin in
  let NLSF := NLSF.[L - 1 <- i16 (Z.min NLSF.[L - 1] (Z.shiftl 1 15 - NDeltaMin.[L]))] in
  push_down (Z.to_nat (L - 1)) NLSF NDeltaMin.

(** At most [loops] rounds, then the fall back. *)
Fixpoint stabilize_loop (loops : nat) (NLSF NDeltaMin : list Z) (L : Z) : list Z :=
  match loops with
  | O => stabilize_fallback NLSF NDeltaMin L
  | S loops =>
      let '(min_diff_Q15, I_) := min_distance NLSF NDeltaMin L in
      if min_diff_Q15 >=? 0 then NLSF
      else stabilize_loop loops (move_apart NLSF NDeltaMin L I_) NDeltaMin L
  end.

Definition silk_NLSF_stabilize (NLSF NDeltaMin : list Z) (L : Z) : list Z :=
  stabilize_loop MAX_LOOPS NLSF NDeltaMin L.

(** ** Decoding *)

(** [SILK_FIX_CONST( NLSF_QUANT_LEVEL_ADJ, 10 )] *)
Definition LEVEL_ADJ_Q10 : Z := SILK_FIX_CONST 1 10 10.

(** Coefficients [n - 1] down to 0; [out_Q10] is the one above. *)
Fixpoint residual_dequant (n : nat) (indices pred_coef_Q8 : list Z) (quant_step_size_Q16 out_Q10 : Z)
    (x_Q10 : list Z) : list Z :=
  match n with
  | O => x_Q10
  | S m =>
      let i := Z.of_nat m in
      let pred_Q10 := silk_RSHIFT (silk_SMULBB out_Q10 pred_coef_Q8.[i]) 8 in
      let out_Q10 := silk_LSHIFT indices.[i] 10 in
      let out_Q10 :=
        if out_Q10 >? 0 then out_Q10 - LEVEL_ADJ_Q10
        else if out_Q10 <? 0 then out_Q10 + LEVEL_ADJ_Q10 else out_Q10 in
      let out_Q10 := silk_SMLAWB pred_Q10 out_Q10 quant_step_size_Q16 in
      residual_dequant m indices pred_coef_Q8 quant_step_size_Q16 out_Q10 x_Q10.[i <- i16 out_Q10]
  end.

Definition silk_NLSF_residual_dequant (indices pred_coef_Q8 : list Z) (quant_step_size_Q16 order : Z) : list Z :=
  residual_dequant (Z.to_nat order) indices pred_coef_Q8 quant_step_size_Q16 0 (repeat 0 (Z.to_nat order)).

(** The codebook vector with the weighted residual of coefficient [i]. *)
Definition NLSF_element (cb : silk_NLSF_CB_struct) (CB1_index : Z) (res_Q10 : list Z) (i : nat) : Z :=
  let k := CB1_index * cb.(order) + Z.of_nat i in
  let NLSF_Q15_tmp :=
    silk_ADD_LSHIFT32 (silk_DIV32_16 (silk_LSHIFT res_Q10.[Z.of_nat i] 14) cb.(CB1_Wght_Q9).[k])
      cb.(CB1_NLSF_Q8).[k] 7 in
  i16 (silk_LIMIT NLSF_Q15_tmp 0 32767).

Definition silk_NLSF_decode (NLSFIndices : list Z) (cb : silk_NLSF_CB_struct) : list Z :=
  let '(_, pred_Q8) := silk_NLSF_unpack cb NLSFIndices.[0] in
  let res_Q10 := silk_NLSF_residual_dequant (drop 1 NLSFIndices) pred_Q8 cb.(quantStepSize_Q16) cb.(order) in
  let pNLSF_Q15 := map (NLSF_element cb NLSFIndices.[0] res_Q10) (seq 0 (Z.to_nat cb.(order))) in
  silk_NLSF_stabilize pNLSF_Q15 cb.(deltaMin_Q15) cb.(order).

(** ** The sort sorts *)

Lemma wr_mid (p : list Z) y rest v : (p ++ y :: rest).[len p <- v] = p ++ v :: rest.
Proof.
  unfold wr, len. destruct (Z.ltb_spec (Z.of_nat (length p)) 0); [lia|]. rewrite Nat2Z.id.
  by rewrite insert_app_r_alt, Nat.sub_diag.
Qed.

Lemma rd_mid (p : list Z) y rest : (p ++ y :: rest).[len p] = y.
Proof. rewrite <- (Z.add_0_r (len p)), rd_app_r by lia. done. Qed.

(** The inner loop inserts [v] into the prefix [p]: behind the last element that
    is not larger. *)
Lemma sort_shift_spec p v : forall y rest,
  exists p1 p2, p = p1 ++ p2 /\ sort_shift (length p) v (p ++ y :: rest) = p1 ++ v :: p2 ++ rest /\
    Forall (fun x => v < x) p2 /\ (p1 = [] \/ exists q x, p1 = q ++ [x] /\ x <= v).
Proof.
  induction p as [|x p IH] using rev_ind; intros y rest.
  - exists [], []. split_and!; [done|done|constructor|by left].
  - rewrite length_app, Nat.add_1_r. cbn [sort_shift]. rewrite <- app_assoc. cbn [app].
    change (Z.of_nat (length p)) with (len p). rewrite rd_mid.
    assert (p ++ x :: y :: rest = (p ++ [x]) ++ y :: rest) as E1 by (by rewrite <- app_assoc).
    assert (len p + 1 = len (p ++ [x])) as E2 by (rewrite len_app; done).
    destruct (Z.ltb_spec v x) as [Hx|Hx].
    + rewrite E1, E2, wr_mid, <- app_assoc. cbn [app].
      destruct (IH x (x :: rest)) as (p1 & p2 & -> & Hs & Hp2 & Hp1). exists p1, (p2 ++ [x]).
      rewrite Hs. split_and!; [by rewrite app_assoc|by rewrite <- app_assoc|apply Forall_app; split; [done|by repeat constructor]|done].
    + rewrite E1, E2, wr_mid. exists (p ++ [x]), []. split_and!; [by rewrite app_nil_r|done|constructor|].
      right. by exists p, x.
Qed.

Lemma Sorted_insert p1 v p2 :
  StronglySorted Z.le (p1 ++ p2) -> Forall (fun x => v < x) p2 ->
  (p1 = [] \/ exists q x, p1 = q ++ [x] /\ x <= v) -> StronglySorted Z.le (p1 ++ v :: p2).
Proof.
  intros Hs Hp2 Hp1. assert (Forall (fun x => x <= v) p1) as Hle.
  { destruct Hp1 as [->|(q & x & -> & Hx)]; [constructor|]. apply Forall_forall. intros z Hz.
    apply in_app_iff in Hz as [Hz|[<-|[]]]; [|done]. rewrite <- app_assoc in Hs.
    assert (forall (A B : list Z), StronglySorted Z.le (A ++ B) -> forall a b, In a A -> In b B -> a <= b) as Happ.
    { clear. induction A as [|c A IH]; intros B Hs a b Ha Hb; [done|]. cbn [app] in Hs. inversion Hs as [|? ? Hs' Hall]; subst.
      destruct Ha as [->|Ha]; [|by apply (IH B)]. rewrite Forall_forall in Hall. apply Hall, in_app_iff. by right. }
    specialize (Happ q ([x] ++ p2) Hs z x Hz (or_introl eq_refl)). lia. }
  clear Hp1. induction p1 as [|c p1 IH]; cbn [app] in *.
  - constructor; [done|]. eapply Forall_impl; [|exact Hp2]. cbv beta. lia.
  - inversion Hs as [|? ? Hs' Hall]; subst. apply Forall_cons_1 in Hle as [Hc Hle].
    constructor; [by apply IH|]. apply Forall_app in Hall as [Ha1 Ha2]. apply Forall_app. split; [done|].
    by constructor.
Qed.

(** After round [i] the first [i + 1] elements are sorted. *)
Lemma sort_rounds n : forall i p rest,
  length p = i -> length rest = n -> StronglySorted Z.le p ->
  let r := foldl (fun a i => sort_shift i a.[Z.of_nat i] a) (p ++ rest) (seq i n) in
  StronglySorted Z.le r /\ Permutation r (p ++ rest).
Proof.
  induction n as [|n IH]; intros i p rest Hp Hr Hs.
  - destruct rest; [|discriminate]. rewrite app_nil_r. done.
  - destruct rest as [|v rest]; [discriminate|]. cbn [seq foldl]. rewrite <- Hp.
    change (Z.of_nat (length p)) with (len p). rewrite rd_mid.
    destruct (sort_shift_spec p v v rest) as (p1 & p2 & -> & -> & Hp2 & Hp1).
    replace (p1 ++ v :: p2 ++ rest) with ((p1 ++ v :: p2) ++ rest) by (by rewrite <- app_assoc).
    destruct (IH (S (length (p1 ++ p2))) (p1 ++ v :: p2) rest) as (Hs' & Hperm);
      [rewrite !length_app; cbn [length]; lia|cbn in Hr; lia|by apply Sorted_insert|].
    split; [done|]. rewrite Hperm. rewrite <- !app_assoc. cbn [app].
    apply Permutation_app_head. apply (Permutation_middle p2 rest v).
Qed.

Lemma insertion_sort_spec a :
  (0 < length a)%nat ->
  StronglySorted Z.le (silk_insertion_sort_increasing_all_values_int16 a (len a)) /\
  Permutation (silk_insertion_sort_increasing_all_values_int16 a (len a)) a.
Proof.
  intros Ha. destruct a as [|x a]; [cbn in Ha; lia|].
  unfold silk_insertion_sort_increasing_all_values_int16.
  replace (Z.to_nat (len (x :: a) - 1)) with (length a) by (unfold len; cbn [length]; lia).
  apply (sort_rounds (length a) 1 [x] a); [done|done|by repeat constructor].
Qed.

(** ** The result of the stabilisation is stable *)

(** Neighbours keep the minimum distance, also from the ends of the range. *)
Definition stable (NLSF NDeltaMin : list Z) (L : Z) : Prop :=
  NDeltaMin.[0] <= NLSF.[0] /\
  (forall i, 1 <= i < L -> NLSF.[i - 1] + NDeltaMin.[i] <= NLSF.[i]) /\
  NLSF.[L - 1] + NDeltaMin.[L] <= 2 ^ 15.

(** [S_k], the least value that coefficient [k] can take. *)
Definition least (NDeltaMin : list Z) (k : Z) : Z := sum_delta NDeltaMin 0 (Z.to_nat k + 1).

Record deltas_ok (NDeltaMin : list Z) (L : Z) : Prop := {
  dl_len : 1 <= L;
  dl_pos : forall i, 0 <= i <= L -> 0 <= NDeltaMin.[i];
  dl_last : 1 <= NDeltaMin.[L];
  dl_sum : least NDeltaMin L <= 2 ^ 15
}.

Definition all_int16 (l : list Z) : Prop := Forall (fun x => - 2 ^ 15 <= x < 2 ^ 15) l.

Lemma i16_range x : - 2 ^ 15 <= i16 x < 2 ^ 15.
Proof. unfold i16. pose proof (Z.mod_pos_bound (x + 2 ^ 15) (2 ^ 16) ltac:(lia)). lia. Qed.

Lemma all_int16_wr l i v : all_int16 l -> - 2 ^ 15 <= v < 2 ^ 15 -> all_int16 l.[i <- v].
Proof. unfold wr, all_int16. intros Hl Hv. destruct (_ <? _); [done|]. by apply Forall_insert. Qed.

Lemma all_int16_rd l i : all_int16 l -> - 2 ^ 15 <= l.[i] < 2 ^ 15.
Proof. intros Hl. apply (rd_Forall (fun x => - 2 ^ 15 <= x < 2 ^ 15) l i); [cbv beta; lia|done]. Qed.

Section Stable.
Context (NDeltaMin : list Z) (L : Z).
Hypothesis ok : deltas_ok NDeltaMin L.

Lemma least_0 : least NDeltaMin 0 = NDeltaMin.[0].
Proof. unfold least. change (Z.to_nat 0 + 1)%nat with 1%nat. unfold sum_delta. cbn [seq foldl]. done. Qed.

Lemma least_S k : 0 <= k -> least NDeltaMin (k + 1) = least NDeltaMin k + NDeltaMin.[k + 1].
Proof.
  intros Hk. unfold least, sum_delta. replace (Z.to_nat (k + 1) + 1)%nat with (S (Z.to_nat k + 1)) by lia.
  rewrite seq_S, foldl_app. cbn [foldl]. do 2 f_equal. lia.
Qed.

Lemma least_mono k n : 0 <= k -> k + Z.of_nat n <= L -> least NDeltaMin k <= least NDeltaMin (k + Z.of_nat n).
Proof.
  intros Hk. induction n as [|n IH]; intros Hn; [rewrite Z.add_0_r; lia|].
  replace (k + Z.of_nat (S n)) with (k + Z.of_nat n + 1) by lia. rewrite least_S by lia.
  pose proof (dl_pos _ _ ok (k + Z.of_nat n + 1) ltac:(lia)). lia.
Qed.

(** Coefficient [k] has room for the distances above it. *)
Lemma least_room k : 0 <= k < L -> least NDeltaMin k + 1 <= 2 ^ 15.
Proof.
  intros Hk. pose proof (dl_sum _ _ ok) as Hs. pose proof (dl_last _ _ ok) as Hl.
  replace L with (L - 1 + 1) in Hs, Hl by lia. rewrite least_S in Hs by lia.
  pose proof (least_mono k (Z.to_nat (L - 1 - k)) ltac:(lia) ltac:(lia)) as Hm.
  replace (k + Z.of_nat (Z.to_nat (L - 1 - k))) with (L - 1) in Hm by lia. lia.
Qed.

Lemma least_nonneg k : 0 <= k <= L -> 0 <= least NDeltaMin k.
Proof.
  intros Hk. pose proof (least_mono 0 (Z.to_nat k) ltac:(lia) ltac:(lia)) as Hm.
  rewrite least_0 in Hm. replace (0 + Z.of_nat (Z.to_nat k)) with k in Hm by lia.
  pose proof (dl_pos _ _ ok 0 ltac:(lia)). lia.
Qed.

(** *** Leaving the loop early *)

Lemma min_middle_le n : forall i NLSF m,
  let r := min_middle n i NLSF NDeltaMin m in
  r.1 <= m.1 /\ forall k, i <= k < i + Z.of_nat n -> r.1 <= NLSF.[k] - (NLSF.[k - 1] + NDeltaMin.[k]).
Proof.
  induction n as [|n IH]; intros i NLSF m; cbn [min_middle]; cbv zeta; [split; [lia|]; lia|].
  set (m' := if _ <? m.1 then _ else m). specialize (IH (i + 1) NLSF m'). cbv zeta in IH.
  destruct IH as [H1 H2].
  assert (m'.1 <= m.1 /\ m'.1 <= NLSF.[i] - (NLSF.[i - 1] + NDeltaMin.[i])) as [M1 M2].
  { subst m'. destruct (Z.ltb_spec (NLSF.[i] - (NLSF.[i - 1] + NDeltaMin.[i])) m.1); cbn [fst]; lia. }
  split; [lia|]. intros k Hk. destruct (decide (k = i)) as [->|]; [lia|]. apply H2. lia.
Qed.

Lemma min_distance_stable NLSF :
  0 <= (min_distance NLSF NDeltaMin L).1 -> stable NLSF NDeltaMin L.
Proof.
  pose proof (dl_len _ _ ok) as HL. unfold min_distance. cbv zeta.
  pose proof (min_middle_le (Z.to_nat (L - 1)) 1 NLSF (NLSF.[0] - NDeltaMin.[0], 0)) as [M1 M2].
  set (m := min_middle _ _ _ _ _) in *. cbn [fst] in M1. change (Z.shiftl 1 15) with (2 ^ 15).
  intros Hd. assert (0 <= m.1 /\ m.1 <= 2 ^ 15 - (NLSF.[L - 1] + NDeltaMin.[L]) \/
    0 <= 2 ^ 15 - (NLSF.[L - 1] + NDeltaMin.[L]) <= m.1) as Hm.
  { destruct (Z.ltb_spec (2 ^ 15 - (NLSF.[L - 1] + NDeltaMin.[L])) m.1); cbn [fst] in Hd; lia. }
  unfold stable. split; [lia|]. split; [|lia]. intros i Hi. specialize (M2 i ltac:(lia)). lia.
Qed.

(** *** The fall back *)

Lemma push_up_spec n : forall i NLSF,
  1 <= i -> i + Z.of_nat n <= L -> L <= len NLSF -> all_int16 NLSF ->
  (forall k, 0 <= k < i -> least NDeltaMin k <= NLSF.[k]) ->
  let r := push_up n i NLSF NDeltaMin in
  len r = len NLSF /\ all_int16 r /\ forall k, 0 <= k < i + Z.of_nat n -> least NDeltaMin k <= r.[k].
Proof.
  induction n as [|n IH]; intros i NLSF Hi Hn Hl Hr Hk; cbn [push_up]; cbv zeta.
  { split; [done|]. split; [done|]. intros k Hk'. apply Hk. lia. }
  set (v := Z.max NLSF.[i] (silk_ADD_SAT16 NLSF.[i - 1] NDeltaMin.[i])).
  pose proof (all_int16_rd NLSF i Hr) as R1. pose proof (all_int16_rd NLSF (i - 1) Hr) as R2.
  pose proof (least_room i ltac:(lia)) as Hroom. pose proof (Hk (i - 1) ltac:(lia)) as Hprev.
  pose proof (least_nonneg (i - 1) ltac:(lia)) as Hpos. pose proof (dl_pos _ _ ok i ltac:(lia)) as Hd.
  assert (least NDeltaMin i = least NDeltaMin (i - 1) + NDeltaMin.[i]) as ES.
  { replace i with (i - 1 + 1) at 1 3 by lia. apply least_S. lia. }
  assert (least NDeltaMin i <= v < 2 ^ 15) as Hv.
  { subst v. unfold silk_ADD_SAT16. cbv zeta. destruct (Z.gtb_spec (NLSF.[i - 1] + NDeltaMin.[i]) 32767); [lia|].
    destruct (Z.ltb_spec (NLSF.[i - 1] + NDeltaMin.[i]) (-32768)); [lia|]. rewrite i16_small by lia. lia. }
  clearbody v. pose proof (IH (i + 1) NLSF.[i <- v]) as IHn. cbv zeta in IHn.
  rewrite len_wr in IHn. replace (i + Z.of_nat (S n)) with (i + 1 + Z.of_nat n) by lia.
  apply IHn; [lia|lia|lia|apply all_int16_wr; [done|lia]|].
  intros k Hk'. destruct (decide (k = i)) as [->|]; [rewrite rd_wr_eq by lia; lia|].
  rewrite rd_wr_ne by lia. apply Hk. lia.
Qed.

Lemma push_down_spec n : forall NLSF,
  Z.of_nat n < L -> L <= len NLSF -> all_int16 NLSF ->
  (forall k, 0 <= k < L -> least NDeltaMin k <= NLSF.[k]) ->
  (forall k, Z.of_nat n + 1 <= k < L -> NLSF.[k - 1] + NDeltaMin.[k] <= NLSF.[k]) ->
  NLSF.[L - 1] + NDeltaMin.[L] <= 2 ^ 15 ->
  stable (push_down n NLSF NDeltaMin) NDeltaMin L.
Proof.
  induction n as [|n IH]; intros NLSF Hn Hl Hr Hk Hd Hlast; cbn [push_down].
  - unfold stable. split_and!; [rewrite <- least_0; apply Hk; lia|exact Hd|done].
  - cbv zeta. set (i := Z.of_nat n) in *. set (v := i16 (Z.min NLSF.[i] (NLSF.[i + 1] - NDeltaMin.[i + 1]))).
    assert (v = Z.min NLSF.[i] (NLSF.[i + 1] - NDeltaMin.[i + 1]) /\ least NDeltaMin i <= v) as [Ev Hv].
    { pose proof (Hk i ltac:(lia)). pose proof (Hk (i + 1) ltac:(lia)) as H1. rewrite least_S in H1 by lia.
      pose proof (least_nonneg i ltac:(lia)). pose proof (all_int16_rd NLSF i Hr).
      subst v. rewrite i16_small by lia. lia. }
    clearbody v. apply IH; [lia|by rewrite len_wr|apply all_int16_wr; [done|]| | |].
    + pose proof (all_int16_rd NLSF i Hr). pose proof (least_nonneg i ltac:(lia)). lia.
    + intros k Hk'. destruct (decide (k = i)) as [->|]; [by rewrite rd_wr_eq by lia|].
      rewrite rd_wr_ne by lia. by apply Hk.
    + intros k Hk'. rewrite (rd_wr_ne _ i k) by lia. destruct (decide (k = i + 1)) as [->|].
      * replace (i + 1 - 1) with i by lia. rewrite rd_wr_eq by lia. lia.
      * rewrite rd_wr_ne by lia. apply Hd. lia.
    + rewrite rd_wr_ne by lia. done.
Qed.

Lemma sort_int16 NLSF :
  len NLSF = L -> all_int16 NLSF ->
  len (silk_insertion_sort_increasing_all_values_int16 NLSF L) = L /\
  all_int16 (silk_insertion_sort_increasing_all_values_int16 NLSF L).
Proof.
  intros Hl Hr. pose proof (dl_len _ _ ok) as HL.
  destruct (insertion_sort_spec NLSF) as [_ Hp]; [unfold len in Hl; lia|]. rewrite Hl in Hp. split.
  - rewrite <- Hl at 2. unfold len. by rewrite (Permutation_length Hp).
  - unfold all_int16. by rewrite Hp.
Qed.

Lemma delta0_range : 0 <= NDeltaMin.[0] < 2 ^ 15.
Proof.
  pose proof (dl_len _ _ ok). pose proof (least_room 0 ltac:(lia)) as Hr. rewrite least_0 in Hr.
  pose proof (dl_pos _ _ ok 0 ltac:(lia)). lia.
Qed.

Lemma fallback_stable NLSF :
  len NLSF = L -> all_int16 NLSF -> stable (stabilize_fallback NLSF NDeltaMin L) NDeltaMin L.
Proof.
  intros Hl Hr. pose proof (dl_len _ _ ok) as HL. unfold stabilize_fallback. cbv zeta.
  destruct (sort_int16 NLSF Hl Hr) as [Hl1 Hr1]. set (a := silk_insertion_sort_increasing_all_values_int16 NLSF L) in *.
  clearbody a. pose proof delta0_range as H0. pose proof (all_int16_rd a 0 Hr1) as Ha0.
  set (b := a.[0 <- Z.max a.[0] NDeltaMin.[0]]).
  assert (len b = L /\ all_int16 b /\ least NDeltaMin 0 <= b.[0]) as (Hl2 & Hr2 & Hb0).
  { subst b. rewrite len_wr, least_0, rd_wr_eq by lia. split_and!; [done|apply all_int16_wr; [done|lia]|lia]. }
  clearbody b.
  destruct (push_up_spec (Z.to_nat (L - 1)) 1 b ltac:(lia) ltac:(lia) ltac:(lia) Hr2) as (Hl3 & Hr3 & Hk).
  { intros k Hk. assert (k = 0) as -> by lia. done. }
  set (u := push_up (Z.to_nat (L - 1)) 1 b NDeltaMin) in *. clearbody u.
  assert (forall k, 0 <= k < L -> least NDeltaMin k <= u.[k]) as Hu by (intros k Hk'; apply Hk; lia).
  change (Z.shiftl 1 15) with (2 ^ 15).
  pose proof (least_nonneg (L - 1) ltac:(lia)) as Hpos. pose proof (Hu (L - 1) ltac:(lia)) as Hlast.
  pose proof (dl_sum _ _ ok) as Hs. assert (least NDeltaMin L = least NDeltaMin (L - 1) + NDeltaMin.[L]) as ES.
  { replace L with (L - 1 + 1) at 1 3 by lia. apply least_S. lia. }
  pose proof (all_int16_rd u (L - 1) Hr3) as Hru. rewrite i16_small by lia.
  set (v := Z.min u.[L - 1] (2 ^ 15 - NDeltaMin.[L])).
  assert (least NDeltaMin (L - 1) <= v /\ v + NDeltaMin.[L] <= 2 ^ 15 /\ v < 2 ^ 15) as (V1 & V2 & V3) by lia.
  clearbody v. apply push_down_spec; [lia|rewrite len_wr; lia|apply all_int16_wr; [done|lia]| | |].
  - intros k Hk'. destruct (decide (k = L - 1)) as [->|]; [by rewrite rd_wr_eq by lia|].
    rewrite rd_wr_ne by lia. by apply Hu.
  - lia.
  - by rewrite rd_wr_eq by lia.
Qed.

Lemma move_apart_int16 NLSF i :
  len NLSF = L -> all_int16 NLSF ->
  len (move_apart NLSF NDeltaMin L i) = L /\ all_int16 (move_apart NLSF NDeltaMin L i).
Proof.
  intros Hl Hr. unfold move_apart. cbv zeta. pose proof delta0_range.
  destruct (_ =? 0); [|destruct (_ =? L)]; rewrite !len_wr; (split; [done|]);
    repeat (apply all_int16_wr; [|first [apply i16_range|lia]]); done.
Qed.

Lemma stabilize_stable loops : forall NLSF,
  len NLSF = L -> all_int16 NLSF -> stable (stabilize_loop loops NLSF NDeltaMin L) NDeltaMin L.
Proof.
  induction loops as [|loops IH]; intros NLSF Hl Hr; cbn [stabilize_loop]; [by apply fallback_stable|].
  pose proof (min_distance_stable NLSF) as Hm. destruct (min_distance NLSF NDeltaMin L) as [d i]. cbn [fst] in Hm.
  destruct (Z.geb_spec d 0); [by apply Hm|]. destruct (move_apart_int16 NLSF i Hl Hr). by apply IH.
Qed.
End Stable.

(** A stable vector is increasing and inside (0, 2^15). *)
Lemma stable_bounds NLSF NDeltaMin L :
  deltas_ok NDeltaMin L -> stable NLSF NDeltaMin L ->
  forall k, 0 <= k < L -> NDeltaMin.[0] <= NLSF.[k] < 2 ^ 15.
Proof.
  intros Hok (H0 & H1 & H2) k Hk. split.
  - destruct Hk as [Hk0 HkL]. revert HkL. pattern k. apply (Zlt_lower_bound_ind _ 0); [|done].
    intros j IH Hj HjL. destruct (decide (j = 0)) as [->|]; [done|].
    specialize (IH (j - 1) ltac:(lia) ltac:(lia)). specialize (H1 j ltac:(lia)).
    pose proof (dl_pos _ _ Hok j ltac:(lia)). lia.
  - assert (forall n, 0 <= L - 1 - Z.of_nat n -> NLSF.[L - 1 - Z.of_nat n] < 2 ^ 15) as Hd.
    { induction n as [|n IH]; intros Hn.
      - replace (L - 1 - Z.of_nat 0) with (L - 1) by lia. pose proof (dl_last _ _ Hok). lia.
      - specialize (IH ltac:(lia)). specialize (H1 (L - 1 - Z.of_nat n) ltac:(lia)).
        replace (L - 1 - Z.of_nat n - 1) with (L - 1 - Z.of_nat (S n)) in H1 by lia.
        pose proof (dl_pos _ _ Hok (L - 1 - Z.of_nat n) ltac:(lia)). lia. }
    specialize (Hd (Z.to_nat (L - 1 - k)) ltac:(lia)).
    replace (L - 1 - Z.of_nat (Z.to_nat (L - 1 - k))) with k in Hd by lia. done.
Qed.

(** *** The codebooks *)

Lemma codebook_deltas cb :
  cb = silk_NLSF_CB_NB_MB \/ cb = silk_NLSF_CB_WB -> deltas_ok cb.(deltaMin_Q15) cb.(order).
Proof.
  assert (forallb (fun cb => zforall (Z.to_nat cb.(order) + 1) 0 (fun i => 0 <=? cb.(deltaMin_Q15).[i]) &&
    (least cb.(deltaMin_Q15) cb.(order) <=? 2 ^ 15) && (1 <=? cb.(deltaMin_Q15).[cb.(order)]) && (1 <=? cb.(order)))
    [silk_NLSF_CB_NB_MB; silk_NLSF_CB_WB] = true) as H by (vm_compute; reflexivity).
  rewrite forallb_forall in H. intros Hcb. specialize (H cb ltac:(cbn [In]; intuition congruence)).
  apply andb_true_iff in H as [H H4]. apply andb_true_iff in H as [H H3]. apply andb_true_iff in H as [H1 H2].
  split; [lia| |lia|lia]. intros i Hi. pose proof (zforall_spec _ _ _ i H1 ltac:(lia)) as Hp.
  cbv beta in Hp. lia.
Qed.

Lemma decode_stable indices cb :
  cb = silk_NLSF_CB_NB_MB \/ cb = silk_NLSF_CB_WB ->
  stable (silk_NLSF_decode indices cb) cb.(deltaMin_Q15) cb.(order).
Proof.
  intros Hcb. pose proof (codebook_deltas cb Hcb) as Hok. unfold silk_NLSF_decode.
  destruct (silk_NLSF_unpack cb indices.[0]) as [ix p]. cbv zeta. apply stabilize_stable; [done|..].
  - unfold len. rewrite length_map, length_seq. pose proof (dl_len _ _ Hok). lia.
  - apply Forall_forall. intros v (k & <- & _)%in_map_iff. apply i16_range.
Qed.
