(* ===== verification/SilkProps.v ===== *)
(** * What the coding of SILK frames guarantees

    Theorems about the excitation, the side information, the gains, the stereo
    predictors and the line spectral frequencies, on the range coder. *)

From Stdlib Require Import Sorting.Sorted Sorting.Permutation.
From S2P Require Import Prelude EntropyInterface EntropySeq SilkMath SilkTables SilkPulses SilkPulsesProofs SilkGains SilkStereo SilkIndices SilkIndicesProofs SilkNLSF.
From S2P Require Import RangeCoder RangeSafe RangeRoundTrip.

(** ** Theorems *)

(** C31: for all 8-bit pulses [silk_encode_pulses] ends, and what it codes
    [silk_decode_pulses] decodes: every block of 16 pulses, the cleared tail of
    the last block included, whatever the amplitudes. *)
Theorem silk_pulses_roundtrip st qo pulses fl :
  types_ok st qo -> frame_ok fl -> frame_room fl <= len pulses -> Forall int8 pulses ->
  exists e : ec_ctx -> ec_ctx, silk_encode_pulses 8 st qo pulses fl = Some e /\
    forall b, packet_ok e b = true ->
      (silk_decode_pulses st qo fl (ec_dec_init (take (length b) (buf (packet e b))) (len b))).1
      = Some (take (16 * Z.to_nat (shell_blocks fl)) (padded_pulses pulses fl)).
Proof.
  intros Ht Hf Hr Hi.
  destruct (codes_silk_pulses (E := ec_ctx) (D := ec_ctx) 8 st qo pulses fl Ht Hf Hr Hi ltac:(lia)) as (e & He & Hc).
  exists e. split; [done|]. intros b Hb. by apply packet_codes.
Qed.

(** C32: on arbitrary bytes [silk_decode_pulses] ends (at most ten shift
    symbols are read for a block) and returns whole blocks of 16-bit pulses of
    magnitude below 17 * 2^10, leaving the decoder in a valid state. *)
Theorem silk_pulses_decode_safe st qo fl d :
  types_ok st qo -> frame_ok fl -> dec_ok d ->
  let r := silk_decode_pulses st qo fl d in
  (exists l, r.1 = Some l /\ len l = 16 * shell_blocks fl /\ Forall (fun x => Z.abs x < 17 * 2 ^ 10) l) /\
  dec_ok r.2.
Proof. intros Ht Hf Hd. exact (yields_silk_pulses (E := ec_ctx) st qo fl Ht Hf d Hd). Qed.

(** C33: the [while( 1 )] loop of [silk_encode_pulses] ends after at most 7
    shifts of any block of 8-bit pulses, whatever is left in [pulses_comb], with
    the least shift for which the amplitudes fit the shell code. *)
Theorem silk_scaling_terminates comb p sum :
  length comb = 8%nat -> length p = 16%nat -> Forall int8 p ->
  exists comb' k, 0 <= k <= 7 /\
    scale_block 8 comb (map Z.abs p) sum 0
    = Some (comb', shifted k (map Z.abs p), sum_list (shifted k (map Z.abs p)), k) /\
    fits (shifted k (map Z.abs p)) /\ (0 < k -> ~ fits (shifted (k - 1) (map Z.abs p))).
Proof.
  intros Hc Hp Hi.
  destruct (scale_block_total 7 8 comb (map Z.abs p) sum 0) as (comb' & k & _ & Hk & Hs & Hf & Hl);
    [done|by rewrite length_map|lia| |by exists comb', k].
  apply Forall_map. eapply Forall_impl; [|exact Hi]. unfold int8, compose. cbv beta. intros a Ha.
  change (2 ^ Z.of_nat 7) with 128. lia.
Qed.

(** C34: a sequence of frames coded with [silk_encode_indices], with any mix of
    conditional and independent coding, is decoded by [silk_decode_indices] to
    the indices of each frame; fields that a frame does not code keep the value
    the decoder had. *)
Theorem silk_indices_roundtrip c old l b :
  channel_ok c -> frames_ok c l -> packet_ok (encode_frames c l) b = true ->
  (decode_frames c old (map (fun f => (f.(f_lbrr), f.(f_cond), vad_flag f.(f_ix))) l)
     (ec_dec_init (take (length b) (buf (packet (encode_frames c l) b))) (len b))).1
  = received_frames c old l.
Proof. intros Hc Hl Hb. apply packet_codes; [|done]. by apply codes_frames. Qed.

(** C35: on arbitrary bytes [silk_decode_indices] returns indices inside all the
    tables that they select from, and the decoder and channel stay valid. *)
Theorem silk_indices_decode_safe s FrameIndex lbrr condCoding d :
  channel_ok s.(dec_channel) -> shape_ok s.(dec_indices) -> dec_ok d ->
  let r := silk_decode_indices s FrameIndex lbrr condCoding d in
  decoded_ok s.(dec_channel) condCoding r.1.(dec_indices) /\ channel_ok r.1.(dec_channel) /\ dec_ok r.2.
Proof.
  intros Hc Hs Hd. unfold silk_decode_indices.
  pose proof (yields_frame (E := ec_ctx) (D := ec_ctx) s.(dec_channel) condCoding Hc
    (lbrr || negb (s.(VAD_flags).[FrameIndex] =? 0)) s.(dec_indices) Hs d Hd) as [[H1 H2] H3].
  unfold dec_bind. destruct (decode_frame _ _ _ _ d) as [[x c'] d']. by split_and!.
Qed.

(** C36: gains: from the indices of [silk_gains_quant] and the same last level,
    [silk_gains_dequant] computes the gains that the encoder goes on with and the
    same new level; the level stays in 0..63 and the indices in the range of
    their tables, for every gain. *)
Theorem silk_gains_sync gains prev conditional :
  level_ok prev ->
  let '(ind, quantised, prev') := silk_gains_quant gains prev conditional in
  silk_gains_dequant ind prev conditional = (quantised, prev') /\
  level_ok prev' /\ length ind = length gains /\ gain_indices_ok (negb conditional) ind.
Proof.
  intros Hp. pose proof (quant_dequant_gains (negb conditional) gains prev Hp) as H.
  unfold silk_gains_quant, silk_gains_dequant. destruct (quant_gains _ _ _) as [[ix qs] prev'].
  destruct H as (H1 & H2 & H3 & H4). done.
Qed.

(** C37: the early exit of the search in [silk_stereo_quant_pred] loses nothing:
    each predictor is quantised to a nearest level of the whole table, and the
    decoder computes the predictors the encoder goes on with. *)
Theorem silk_stereo_sync junk0 junk1 p0 p1 b :
  pred_ok p0 -> pred_ok p1 ->
  let '((q0, q1), ix) := silk_stereo_quant_pred junk0 junk1 (p0, p1) in
  (forall i j, 0 <= i < 15 -> 0 <= j < 5 ->
     Z.abs (p0 - (q0 + q1)) <= Z.abs (p0 - stereo_level i j) /\
     Z.abs (p1 - q1) <= Z.abs (p1 - stereo_level i j)) /\
  (packet_ok (silk_stereo_encode_pred ix) b = true ->
   (silk_stereo_decode_pred (ec_dec_init
      (take (length b) (buf (packet (silk_stereo_encode_pred ix) b))) (len b))).1 = (q0, q1)).
Proof.
  intros H0 H1. pose proof (codes_stereo_quant (E := ec_ctx) (D := ec_ctx) junk0 junk1 (p0, p1) H0 H1) as Hc.
  unfold silk_stereo_quant_pred, stereo_quant in *. cbn [fst snd] in *.
  destruct (stereo_quant_spec p0 (0, junk0.1, junk0.2) H0) as (i0 & j0 & E0 & _ & _ & M0). rewrite E0 in *.
  destruct (stereo_quant_spec p1 (stereo_level i0 j0, junk1.1, junk1.2) H1) as (i1 & j1 & E1 & _ & _ & M1).
  rewrite E1 in *. split; [|intros Hb; by apply packet_codes].
  intros i j Hi Hj. replace (stereo_level i0 j0 - stereo_level i1 j1 + stereo_level i1 j1) with (stereo_level i0 j0) by lia.
  split; [by apply M0|by apply M1].
Qed.

(** C38: whatever the indices, the line spectral frequencies of
    [silk_NLSF_decode] are increasing with the minimum distances of the codebook
    between neighbours and to both ends of the range; in general
    [silk_NLSF_stabilize] makes any 16-bit vector stable, also when it gives up
    its 20 rounds and sorts. *)
Theorem silk_NLSF_stable :
  (forall indices cb, cb = silk_NLSF_CB_NB_MB \/ cb = silk_NLSF_CB_WB ->
     let NLSF := silk_NLSF_decode indices cb in
     stable NLSF cb.(deltaMin_Q15) cb.(order) /\
     forall k, 0 <= k < cb.(order) -> cb.(deltaMin_Q15).[0] <= NLSF.[k] < 2 ^ 15) /\
  (forall NLSF NDeltaMin L, deltas_ok NDeltaMin L -> len NLSF = L -> all_int16 NLSF ->
     stable (silk_NLSF_stabilize NLSF NDeltaMin L) NDeltaMin L).
Proof.
  split.
  - intros indices cb Hcb. split; [by apply decode_stable|].
    by apply stable_bounds; [apply codebook_deltas|apply decode_stable].
  - intros NLSF NDeltaMin L Hok Hl Hr. by apply stabilize_stable.
Qed.

(** ** Witnesses *)

Definition sample_pulses : list Z := [3; -1; 0; 2; -128; 0; 0; 7; 1; 1; -1; 0; 0; 90; 0; -2].

Lemma int8_dec l : forallb (fun x => (-128 <=? x) && (x <=? 127)) l = true -> Forall int8 l.
Proof.
  intros H. apply Forall_forall. intros x Hx. rewrite forallb_forall in H. specialize (H x Hx).
  unfold int8. lia.
Qed.

Lemma silk_pulses_roundtrip_witness :
  exists e : ec_ctx -> ec_ctx, silk_encode_pulses 8 2 1 sample_pulses 16 = Some e /\
    packet_ok e (repeat 0 60) = true /\
    (silk_decode_pulses 2 1 16 (ec_dec_init (take 60 (buf (packet e (repeat 0 60)))) 60)).1 = Some sample_pulses.
Proof.
  destruct (silk_pulses_roundtrip 2 1 sample_pulses 16) as (e & He & Hd).
  - unfold types_ok. lia.
  - unfold frame_ok. split; [lia|left; reflexivity].
  - vm_compute. discriminate.
  - apply int8_dec. vm_compute. reflexivity.
  - exists e. split; [exact He|]. assert (packet_ok e (repeat 0 60) = true) as Hp.
    { assert (exists bs, scaled 8 sample_pulses 16 = Some bs /\
        packet_ok (encode_blocks 2 1 16 (padded_pulses sample_pulses 16) bs) (repeat 0 60) = true) as (bs & Hs & Hb).
      { eexists. split; [vm_compute; reflexivity|]. vm_compute. reflexivity. }
      unfold silk_encode_pulses in He. rewrite Hs in He. cbn [mbind option_bind] in He. injection He as <-. exact Hb. }
    split; [exact Hp|]. exact (Hd (repeat 0 60) Hp).
Defined.

Lemma silk_pulses_decode_safe_witness :
  exists l, (silk_decode_pulses 1 0 120 (ec_dec_init [200; 17; 3; 99] 4)).1 = Some l /\ len l = 128.
Proof.
  destruct (silk_pulses_decode_safe 1 0 120 (ec_dec_init [200; 17; 3; 99] 4)) as [(l & H1 & H2 & _) _].
  - unfold types_ok. lia.
  - unfold frame_ok. split; [lia|right; reflexivity].
  - apply dec_init_safe; [repeat constructor; done|by vm_compute].
  - exists l. split; [exact H1|]. rewrite H2. reflexivity.
Defined.

Lemma silk_scaling_terminates_witness :
  exists comb' k, 0 <= k <= 7 /\
    scale_block 8 (repeat 9 8) (map Z.abs sample_pulses) 5 0
    = Some (comb', shifted k (map Z.abs sample_pulses), sum_list (shifted k (map Z.abs sample_pulses)), k).
Proof.
  destruct (silk_scaling_terminates (repeat 9 8) sample_pulses 5) as (comb' & k & Hk & Hs & _);
    [reflexivity|reflexivity|apply int8_dec; vm_compute; reflexivity|].
  exists comb', k. split; [exact Hk|exact Hs].
Defined.

Definition sample_channel : channel :=
  {| fs_kHz := 16; nb_subfr := 4; psNLSF_CB := codebook 16; pitch_lag_low_bits_iCDF := low_bits_table 16;
     pitch_contour_iCDF := contour_table 16 4; ec_prevSignalType := 0; ec_prevLagIndex := 0 |}.
Definition sample_indices (lag gain0 st : Z) : SideInfoIndices :=
  {| GainsIndices := [gain0; 5; 0; 40]; LTPIndex := [3; 0; 15; 7];
     NLSFIndices := [17; 2; -4; 10; -10; 0; 0; 1; -1; 3; 0; 0; 4; -2; 0; 0; 1];
     lagIndex := lag; contourIndex := 33; signalType := st; quantOffsetType := 1; NLSFInterpCoef_Q2 := 2;
     PERIndex := 1; LTP_scaleIndex := 2; Seed := 3 |}.
Definition sample_frames : list frame :=
  [{| f_lbrr := false; f_cond := 0; f_ix := sample_indices 100 63 2 |};
   {| f_lbrr := true; f_cond := 2; f_ix := sample_indices 105 33 2 |};
   {| f_lbrr := false; f_cond := 1; f_ix := sample_indices 105 20 0 |}].

Lemma sample_channel_ok : channel_ok sample_channel.
Proof. split; try reflexivity; [right; by right|by right]. Qed.

(** Ranges over the entries of an array, by evaluation. *)
Lemma zforall_range n lo (f : Z -> Z) a b :
  zforall n lo (fun i => (a <=? f i) && (f i <=? b)) = true ->
  forall i, lo <= i < lo + Z.of_nat n -> a <= f i <= b.
Proof. intros H i Hi. pose proof (zforall_spec _ _ _ i H Hi) as Hf. cbv beta in Hf. lia. Qed.

Lemma sample_indices_ok c lbrr cond lag gain0 st :
  fs_kHz c = 16 -> nb_subfr c = 4 -> psNLSF_CB c = codebook 16 -> pitch_contour_iCDF c = contour_table 16 4 ->
  0 <= lag < 256 -> 0 <= gain0 <= (if cond =? 2 then 40 else 63) -> 0 <= st <= 2 -> (lbrr = true -> 1 <= st) ->
  indices_ok c lbrr cond (sample_indices lag gain0 st).
Proof.
  intros E1 E2 E3 E4 Hlag Hg Hst Hl. split; rewrite ?E1, ?E2, ?E3, ?E4; cbn [sample_indices signalType
    quantOffsetType GainsIndices NLSFIndices NLSFInterpCoef_Q2 lagIndex contourIndex PERIndex LTPIndex LTP_scaleIndex Seed];
    try lia; try done.
  - intros i Hi. apply (zforall_range 3 1 (fun i => [gain0; 5; 0; 40].[i]) 0 40); [vm_compute; reflexivity|lia].
  - change (order (codebook 16)) with 16. intros i Hi.
    apply (zforall_range 16 1 (fun i => [17; 2; -4; 10; -10; 0; 0; 1; -1; 3; 0; 0; 4; -2; 0; 0; 1].[i]) (-10) 10);
      [vm_compute; reflexivity|lia].
  - change (Z.shiftl 8 1) with 16. intros k Hk.
    pose proof (zforall_range 4 0 (fun i => [3; 0; 15; 7].[i]) 0 15 ltac:(vm_compute; reflexivity) k ltac:(lia)) as H.
    cbv beta in H. lia.
Qed.

Lemma sample_frames_ok : frames_ok sample_channel sample_frames.
Proof.
  cbn [sample_frames frames_ok f_lbrr f_cond f_ix]. split_and!; try exact I;
    apply sample_indices_ok; first [reflexivity|lia|vm_compute; intuition discriminate].
Qed.

Lemma silk_indices_roundtrip_witness :
  map lagIndex (decode_frames sample_channel (sample_indices 0 0 0) [(false, 0, 1); (true, 2, 1); (false, 1, 0)]
     (ec_dec_init (take 80 (buf (packet (encode_frames sample_channel sample_frames) (repeat 0 80)))) 80)).1
  = [100; 105; 105].
Proof.
  change [(false, 0, 1); (true, 2, 1); (false, 1, 0)]
    with (map (fun f => (f.(f_lbrr), f.(f_cond), vad_flag f.(f_ix))) sample_frames).
  pose proof (silk_indices_roundtrip sample_channel (sample_indices 0 0 0) sample_frames (repeat 0 80)
    sample_channel_ok sample_frames_ok ltac:(vm_compute; reflexivity)) as H.
  change (length (repeat 0 80)) with 80%nat in H. change (len (repeat 0 80)) with 80 in H.
  rewrite H. reflexivity.
Defined.

Lemma silk_indices_decode_safe_witness :
  signalType (dec_indices (silk_decode_indices
    {| dec_channel := sample_channel; dec_indices := sample_indices 0 0 0; VAD_flags := [1; 0; 0] |} 0 false 0
    (ec_dec_init [200; 17; 3; 99] 4)).1) <= 2.
Proof.
  apply (dx_type _ _ _ (proj1 (silk_indices_decode_safe
    {| dec_channel := sample_channel; dec_indices := sample_indices 0 0 0; VAD_flags := [1; 0; 0] |} 0 false 0
    (ec_dec_init [200; 17; 3; 99] 4) sample_channel_ok ltac:(by vm_compute)
    ltac:(apply dec_init_safe; [repeat constructor; done|by vm_compute])))).
Defined.

Lemma silk_gains_sync_witness :
  let '(ind, quantised, prev') := silk_gains_quant [100000; 2000000; 50; 70000000] 10 false in
  silk_gains_dequant ind 10 false = (quantised, prev').
Proof.
  pose proof (silk_gains_sync [100000; 2000000; 50; 70000000] 10 false ltac:(unfold level_ok; lia)) as H.
  destruct (silk_gains_quant [100000; 2000000; 50; 70000000] 10 false) as [[ind q] prev']. exact (proj1 H).
Defined.

Lemma silk_stereo_sync_witness :
  let '(q, ix) := silk_stereo_quant_pred (0, 0) (0, 0) (3000, -777) in
  packet_ok (silk_stereo_encode_pred ix) (repeat 0 8) = true /\
  (silk_stereo_decode_pred (ec_dec_init
     (take 8 (buf (packet (silk_stereo_encode_pred ix) (repeat 0 8)))) 8)).1 = q.
Proof.
  pose proof (silk_stereo_sync (0, 0) (0, 0) 3000 (-777) (repeat 0 8)
    ltac:(unfold pred_ok; lia) ltac:(unfold pred_ok; lia)) as H.
  assert (packet_ok (silk_stereo_encode_pred (silk_stereo_quant_pred (0, 0) (0, 0) (3000, -777)).2) (repeat 0 8) = true)
    as Hp by (vm_compute; reflexivity).
  destruct (silk_stereo_quant_pred (0, 0) (0, 0) (3000, -777)) as [[q0 q1] ix]. cbn [snd] in Hp.
  split; [exact Hp|]. exact (proj2 H Hp).
Defined.

Lemma silk_NLSF_stable_witness :
  stable (silk_NLSF_decode [17; 2; -4; 10; -10; 0; 0; 1; -1; 3; 0; 0; 4; -2; 0; 0; 1] silk_NLSF_CB_WB)
    silk_NLSF_DELTA_MIN_WB_Q15 16.
Proof.
  exact (proj1 (proj1 silk_NLSF_stable [17; 2; -4; 10; -10; 0; 0; 1; -1; 3; 0; 0; 4; -2; 0; 0; 1]
    silk_NLSF_CB_WB (or_intror eq_refl))).
Defined.
