(* ===== verification/Rate.v ===== *)
(** * Bit allocation (celt/rate.c)

    [clt_compute_allocation] shares the bits of a frame out among the bands: it
    searches the allocation vectors, interpolates between two of them, decides
    which of the high bands to skip, and splits each band's share into fine
    energy bits and PVQ bits.  Encoder and decoder run the same function; the
    few decisions of the encoder are coded on the way. *)

From S2P Require Import Prelude RangeCoder EntropyInterface CeltMode QuantBands.

Definition LOG2_FRAC_TABLE : list Z :=
  [0; 8; 13; 16; 19; 21; 23; 24; 26; 27; 28; 29; 30; 31; 32; 32; 33; 34; 34; 35; 36; 36; 37; 37].
Definition ALLOC_STEPS : Z := 6.
Definition FINE_OFFSET : Z := 21.

(** ** The two sides of a coded decision

    Each [if (encode) ec_enc_...; else ... = ec_dec_...] of the C function is one
    operation of a [port]: the encoder's port writes the value it is given and
    returns it, the decoder's ignores it and returns the one it reads. *)

Record port (S : Type) := {
  p_flag : bool -> S -> bool * S;
  p_uint : Z -> Z -> S -> Z * S
}.
Arguments p_flag {S} _ _ _.
Arguments p_uint {S} _ _ _ _.

Section Ports.
Context `{EntropyCoder E D}.

Definition enc_port : port E := {|
  p_flag := fun b s => (b, ec_enc_bit_logp b 1 s);
  p_uint := fun v ft s => (v, ec_enc_uint v ft s)
|}.

Definition dec_port : port D := {|
  p_flag := fun _ s => ec_dec_bit_logp 1 s;
  p_uint := fun _ ft s => ec_dec_uint ft s
|}.
End Ports.

(** What the function computes: its result and the arrays and variables that it
    writes through its pointers. *)
Record allocation := {
  codedBands : Z;
  intensity : Z;
  dual_stereo : bool;
  balance : Z;
  pulses : list Z;
  ebits : list Z;
  fine_priority : list Z
}.

Section Allocation.
Context (m : CELTMode) (start end_ C LM : Z).

Definition alloc_floor : Z := Z.shiftl C BITRES.
Definition stereo : Z := b2z (C >? 1).

(** ** interp_bits2pulses

    The arrays [bits1], [bits2] and [thresh] are filled by one expression per
    band and only read afterwards: here they are functions of the band, and
    [tmp] is the number of bits that the code at hand tries for a band. *)

(** [for (j=end;j-->start;)]: what bands [start], ..., [start+n-1] would use. *)
Fixpoint alloc_psum (n : nat) (tmp thresh : Z -> Z) (cap : list Z) (done : bool) (psum : Z) : Z :=
  match n with
  | O => psum
  | S n =>
      let j := start + Z.of_nat n in
      if (tmp j >=? thresh j) || done then
        alloc_psum n tmp thresh cap true (psum + Z.min (tmp j) cap.[j])
      else alloc_psum n tmp thresh cap done (if tmp j >=? alloc_floor then psum + alloc_floor else psum)
  end.

Definition nbands : nat := Z.to_nat (end_ - start).

(** [bits1[j] + (mid*(opus_int32)bits2[j]>>ALLOC_STEPS)] *)
Definition interp (bits1 bits2 : Z -> Z) (mid j : Z) : Z :=
  bits1 j + Z.shiftr (mid * bits2 j) ALLOC_STEPS.

(** The bisection: [lo] after [n] more rounds. *)
Fixpoint interp_bisect (n : nat) (psum_at : Z -> Z) (total lo hi : Z) : Z :=
  match n with
  | O => lo
  | S n =>
      let mid := Z.shiftr (lo + hi) 1 in
      if psum_at mid >? total then interp_bisect n psum_at total lo mid
      else interp_bisect n psum_at total mid hi
  end.

(** The loop that stores the interpolated allocation. *)
Fixpoint interp_store (n : nat) (tmp thresh : Z -> Z) (cap : list Z) (done : bool) (bits : list Z) (psum : Z)
    : list Z * Z :=
  match n with
  | O => (bits, psum)
  | S n =>
      let j := start + Z.of_nat n in
      let '(t, done) :=
        if (tmp j <? thresh j) && negb done then
          (if tmp j >=? alloc_floor then alloc_floor else 0, done)
        else (tmp j, true) in
      let t := Z.min t cap.[j] in
      interp_store n tmp thresh cap done bits.[j <- t] (psum + t)
  end.

(** *** Skipping bands *)

Record skip_state := {
  sk_codedBands : Z;
  sk_total : Z;
  sk_psum : Z;
  sk_intensity_rsv : Z;
  sk_bits : list Z
}.

(** The bits that band [codedBands-1] would have, with what is left over. *)
Definition skip_band_bits (codedBands total psum : Z) (bits : list Z) : Z :=
  let j := codedBands - 1 in
  let left := total - psum in
  let d := m.(eBands).[codedBands] - m.(eBands).[start] in
  let percoeff := celt_udiv (u32 left) d in
  let left := left - d * percoeff in
  let rem := Z.max (left - (m.(eBands).[j] - m.(eBands).[start])) 0 in
  let band_width := m.(eBands).[codedBands] - m.(eBands).[j] in
  bits.[j] + percoeff * band_width + rem.

(** The encoder's choice to stop skipping at this band. *)
Definition stop_skipping (prev signalBandwidth codedBands band_bits : Z) : bool :=
  let j := codedBands - 1 in
  let band_width := m.(eBands).[codedBands] - m.(eBands).[j] in
  let depth_threshold := if codedBands >? 17 then (if j <? prev then 7 else 9) else 0 in
  (codedBands <=? start + 2)
  || ((band_bits >? Z.shiftr (Z.shiftl (Z.shiftl (depth_threshold * band_width) LM) BITRES) 4)
      && (j <=? signalBandwidth)).

(** The bookkeeping of a skipped band: its bits are reclaimed, but for one fine
    energy bit per channel. *)
Definition skip_band (j psum intensity_rsv band_bits : Z) (bits : list Z) : Z * Z * list Z :=
  let psum := psum - (bits.[j] + intensity_rsv) in
  let intensity_rsv := if intensity_rsv >? 0 then LOG2_FRAC_TABLE.[j - start] else intensity_rsv in
  let psum := psum + intensity_rsv in
  if band_bits >=? alloc_floor then (psum + alloc_floor, intensity_rsv, bits.[j <- alloc_floor])
  else (psum, intensity_rsv, bits.[j <- 0]).

(** [for (codedBands=end;;codedBands--)]; [n] bounds the number of bands that are
    left, so the loop stops at [skip_start] before the bound does. *)
Fixpoint skip_loop {S} (p : port S) (n : nat) (thresh : Z -> Z) (skip_start skip_rsv prev signalBandwidth : Z)
    (st : skip_state) (s : S) : skip_state * S :=
  match n with
  | O => (st, s)
  | Datatypes.S n =>
      let '(Build_skip_state codedBands total psum intensity_rsv bits) := st in
      let j := codedBands - 1 in
      if j <=? skip_start then
        (Build_skip_state codedBands (total + skip_rsv) psum intensity_rsv bits, s)
      else
        let band_bits := skip_band_bits codedBands total psum bits in
        let skip psum band_bits s :=
          let '(psum, intensity_rsv, bits) := skip_band j psum intensity_rsv band_bits bits in
          skip_loop p n thresh skip_start skip_rsv prev signalBandwidth
            (Build_skip_state j total psum intensity_rsv bits) s in
        if band_bits >=? Z.max (thresh j) (alloc_floor + Z.shiftl 1 BITRES) then
          let '(stop, s) := p_flag p (stop_skipping prev signalBandwidth codedBands band_bits) s in
          if stop then (st, s)
          else skip (psum + Z.shiftl 1 BITRES) (band_bits - Z.shiftl 1 BITRES) s
        else skip psum band_bits s
  end.

(** *** The stereo parameters *)

Definition code_intensity {S} (p : port S) (intensity_rsv codedBands intensity : Z) (s : S) : Z * S :=
  if intensity_rsv >? 0 then
    let '(v, s) := p_uint p (Z.min intensity codedBands - start) (codedBands + 1 - start) s in
    (start + v, s)
  else (0, s).

(** The flag, and what is left of its reservation. *)
Definition code_dual_stereo {S} (p : port S) (dual_stereo_rsv : Z) (dual_stereo : bool) (s : S) : bool * S :=
  if dual_stereo_rsv >? 0 then p_flag p dual_stereo s else (false, s).

(** *** The remaining bits *)

(** [for (j=start;j<codedBands;j++) bits[j] += percoeff*(eBands[j+1]-eBands[j])] *)
Fixpoint add_percoeff (n : nat) (j percoeff : Z) (bits : list Z) : list Z :=
  match n with
  | O => bits
  | S n => add_percoeff n (j + 1) percoeff bits.[j <- bits.[j] + percoeff * width m j]
  end.

Fixpoint add_left (n : nat) (j left : Z) (bits : list Z) : list Z :=
  match n with
  | O => bits
  | S n =>
      let tmp := Z.min left (width m j) in
      add_left n (j + 1) (left - tmp) bits.[j <- bits.[j] + tmp]
  end.

(** *** Fine energy and PVQ bits of one band *)

(** The branch [N>1]: from [bit] and the cap, the new [bits[j]], [ebits[j]],
    [fine_priority[j]] and the excess. *)
Definition fine_wide (dual_stereo : bool) (intensity j bit capj : Z) : Z * Z * Z * Z :=
  let N := Z.shiftl (width m j) LM in
  let excess := Z.max (bit - capj) 0 in
  let bits := bit - excess in
  let den := C * N + b2z ((C =? 2) && (N >? 2) && negb dual_stereo && (j <? intensity)) in
  let NClogN := den * (m.(logN).[j] + Z.shiftl LM BITRES) in
  let offset := Z.shiftr NClogN 1 - den * FINE_OFFSET in
  let offset := if N =? 2 then offset + Z.shiftr (Z.shiftl den BITRES) 2 else offset in
  let offset :=
    if bits + offset <? Z.shiftl (den * 2) BITRES then offset + Z.shiftr NClogN 2
    else if bits + offset <? Z.shiftl (den * 3) BITRES then offset + Z.shiftr NClogN 3
    else offset in
  let eb := Z.max 0 (bits + offset + Z.shiftl den (BITRES - 1)) in
  let eb := Z.shiftr (celt_udiv eb den) BITRES in
  let eb := if C * eb >? Z.shiftr bits BITRES then Z.shiftr (Z.shiftr bits stereo) BITRES else eb in
  let eb := Z.min eb MAX_FINE_BITS in
  (bits - Z.shiftl (C * eb) BITRES, eb, b2z (eb * Z.shiftl den BITRES >=? bits + offset), excess).

(** The branch [N==1]. *)
Definition fine_narrow (bit : Z) : Z * Z * Z * Z :=
  let excess := Z.max 0 (bit - Z.shiftl C BITRES) in
  (bit - excess, 0, 1, excess).

(** One round of the loop: the three array elements and the new balance. *)
Definition fine_band (dual_stereo : bool) (intensity j bits balance capj : Z) : Z * Z * Z * Z :=
  let N := Z.shiftl (width m j) LM in
  let bit := bits + balance in
  let '(bits, eb, fp, excess) :=
    if N >? 1 then fine_wide dual_stereo intensity j bit capj else fine_narrow bit in
  if excess >? 0 then
    let extra_fine := Z.min (Z.shiftr excess (stereo + BITRES)) (MAX_FINE_BITS - eb) in
    let extra_bits := Z.shiftl (extra_fine * C) BITRES in
    (bits, eb + extra_fine, b2z (extra_bits >=? excess - balance), excess - extra_bits)
  else (bits, eb, fp, excess).

Fixpoint fine_loop (n : nat) (j : Z) (dual_stereo : bool) (intensity : Z) (cap : list Z) (balance : Z)
    (bits eb fp : list Z) : Z * list Z * list Z * list Z :=
  match n with
  | O => (balance, bits, eb, fp)
  | S n =>
      let '(b, e, f, balance) := fine_band dual_stereo intensity j bits.[j] balance cap.[j] in
      fine_loop n (j + 1) dual_stereo intensity cap balance bits.[j <- b] eb.[j <- e] fp.[j <- f]
  end.

(** The skipped bands: all their bits are fine energy bits. *)
Fixpoint fine_skipped (n : nat) (j : Z) (bits eb fp : list Z) : list Z * list Z * list Z :=
  match n with
  | O => (bits, eb, fp)
  | S n =>
      let e := Z.shiftr (Z.shiftr bits.[j] stereo) BITRES in
      fine_skipped n (j + 1) bits.[j <- 0] eb.[j <- e] fp.[j <- b2z (e <? 1)]
  end.

(** From the comment "Allocate the remaining bits" to the end of the function. *)
Definition share_out (codedBands total psum intensity : Z) (dual_stereo : bool) (cap bits eb fp : list Z)
    : allocation :=
  let left := total - psum in
  let d := m.(eBands).[codedBands] - m.(eBands).[start] in
  let percoeff := celt_udiv (u32 left) d in
  let left := left - d * percoeff in
  let coded := Z.to_nat (codedBands - start) in
  let bits := add_percoeff coded start percoeff bits in
  let bits := add_left coded start left bits in
  let '(balance, bits, eb, fp) := fine_loop coded start dual_stereo intensity cap 0 bits eb fp in
  let '(bits, eb, fp) := fine_skipped (Z.to_nat (end_ - codedBands)) codedBands bits eb fp in
  {| codedBands := codedBands; intensity := intensity; dual_stereo := dual_stereo;
     balance := balance; pulses := bits; ebits := eb; fine_priority := fp |}.

Definition interp_bits2pulses {S} (p : port S) (skip_start : Z) (bits1 bits2 thresh : Z -> Z) (cap : list Z)
    (total skip_rsv intensity intensity_rsv : Z) (dual_stereo : bool) (dual_stereo_rsv : Z)
    (bits eb fp : list Z) (prev signalBandwidth : Z) (s : S) : allocation * S :=
  let psum_at mid := alloc_psum nbands (interp bits1 bits2 mid) thresh cap false 0 in
  let lo := interp_bisect (Z.to_nat ALLOC_STEPS) psum_at total 0 (Z.shiftl 1 ALLOC_STEPS) in
  let '(bits, psum) := interp_store nbands (interp bits1 bits2 lo) thresh cap false bits 0 in
  let '(st, s) := skip_loop p nbands thresh skip_start skip_rsv prev signalBandwidth
                    (Build_skip_state end_ total psum intensity_rsv bits) s in
  let '(Build_skip_state codedBands total psum intensity_rsv bits) := st in
  let '(intensity, s) := code_intensity p intensity_rsv codedBands intensity s in
  let '(total, dual_stereo_rsv) :=
    if intensity <=? start then (total + dual_stereo_rsv, 0) else (total, dual_stereo_rsv) in
  let '(dual_stereo, s) := code_dual_stereo p dual_stereo_rsv dual_stereo s in
  (share_out codedBands total psum intensity dual_stereo cap bits eb fp, s).

(** ** clt_compute_allocation *)

Definition thresh (j : Z) : Z :=
  Z.max (Z.shiftl C BITRES) (Z.shiftr (Z.shiftl (Z.shiftl (3 * width m j) LM) BITRES) 4).

Definition trim_offset (alloc_trim j : Z) : Z :=
  let t := Z.shiftr (C * width m j * (alloc_trim - 5 - LM) * (end_ - j - 1) * Z.shiftl 1 (LM + BITRES)) 6 in
  if Z.shiftl (width m j) LM =? 1 then t - Z.shiftl C BITRES else t.

(** [C*N*m->allocVectors[v*len+j]<<LM>>2] *)
Definition vector_bits (v j : Z) : Z :=
  Z.shiftr (Z.shiftl (C * width m j * m.(allocVectors).[v * m.(nbEBands) + j]) LM) 2.

(** [if (bitsj > 0) bitsj = IMAX(0, bitsj + trim_offset[j])] *)
Definition trimmed (alloc_trim j bitsj : Z) : Z :=
  if bitsj >? 0 then Z.max 0 (bitsj + trim_offset alloc_trim j) else bitsj.

(** The [do ... while (lo <= hi)] search; [lo] at its end. *)
Fixpoint vector_search (n : nat) (psum_at : Z -> Z) (total lo hi : Z) : Z :=
  match n with
  | O => lo
  | S n =>
      let mid := Z.shiftr (lo + hi) 1 in
      let '(lo, hi) := if psum_at mid >? total then (lo, mid - 1) else (mid + 1, hi) in
      if lo <=? hi then vector_search n psum_at total lo hi else lo
  end.

(** [for (j=start;j<end;j++) if (offsets[j]>0) skip_start = j] *)
Fixpoint last_boosted (n : nat) (j skip_start : Z) (offsets : list Z) : Z :=
  match n with
  | O => skip_start
  | S n => last_boosted n (j + 1) (if offsets.[j] >? 0 then j else skip_start) offsets
  end.

(** The reservations: [skip_rsv], [intensity_rsv], [dual_stereo_rsv] and the rest. *)
Definition reserve (total : Z) : Z * Z * Z * Z :=
  let total := Z.max total 0 in
  let skip_rsv := if total >=? Z.shiftl 1 BITRES then Z.shiftl 1 BITRES else 0 in
  let total := total - skip_rsv in
  if C =? 2 then
    let intensity_rsv := LOG2_FRAC_TABLE.[end_ - start] in
    if intensity_rsv >? total then (skip_rsv, 0, 0, total)
    else
      let total := total - intensity_rsv in
      let dual_stereo_rsv := if total >=? Z.shiftl 1 BITRES then Z.shiftl 1 BITRES else 0 in
      (skip_rsv, intensity_rsv, dual_stereo_rsv, total - dual_stereo_rsv)
  else (skip_rsv, 0, 0, total).

Definition clt_compute_allocation {S} (p : port S) (offsets cap : list Z) (alloc_trim intensity : Z)
    (dual_stereo : bool) (total : Z) (bits eb fp : list Z) (prev signalBandwidth : Z) (s : S)
    : allocation * S :=
  let '(skip_rsv, intensity_rsv, dual_stereo_rsv, total) := reserve total in
  let psum_at mid :=
    alloc_psum nbands (fun j => trimmed alloc_trim j (vector_bits mid j) + offsets.[j]) thresh cap false 0 in
  let lo := vector_search (Z.to_nat m.(nbAllocVectors)) psum_at total 1 (m.(nbAllocVectors) - 1) in
  let hi := lo in
  let lo := lo - 1 in
  let bits1 j :=
    let bits1j := trimmed alloc_trim j (vector_bits lo j) in
    if lo >? 0 then bits1j + offsets.[j] else bits1j in
  let bits2 j :=
    let bits2j := if hi >=? m.(nbAllocVectors) then cap.[j] else vector_bits hi j in
    Z.max 0 (trimmed alloc_trim j bits2j + offsets.[j] - bits1 j) in
  let skip_start := last_boosted nbands start start offsets in
  interp_bits2pulses p skip_start bits1 bits2 thresh cap total skip_rsv intensity intensity_rsv dual_stereo
    dual_stereo_rsv bits eb fp prev signalBandwidth s.
End Allocation.
