(* ===== verification/RateProofs.v ===== *)
(** * Proofs about the bit allocation

    The bookkeeping of rate.c is exact: every eighth of a bit of the budget ends
    up in one band, in the balance, or in a symbol that was coded.  The lemmas
    follow the passes of the code.

    [clt_compute_allocation] run with the encoder's port is in [sync] with the
    same function run with the decoder's: the decoder finds the encoder's
    allocation without its arguments [prev], [signalBandwidth], [intensity] and
    [dual_stereo].  Ports that simulate one another give the same allocation. *)

From S2P Require Import Prelude RangeCoder EntropyInterface CeltMode QuantBands Rate.
From S2P Require Import Prelude RangeCoder EntropyInterface CeltMode Rate.

(** ** Sums over bands *)

Fixpoint bsum (f : Z -> Z) (a : Z) (n : nat) : Z :=
  match n with O => 0 | S n => f a + bsum f (a + 1) n end.

Lemma bsum_ext f g a n : (forall k, a <= k < a + Z.of_nat n -> f k = g k) -> bsum f a n = bsum g a n.
Proof.
  revert a. induction n as [|n IH]; intros a H; cbn [bsum]; [done|].
  rewrite H, (IH (a + 1)) by (intros; try apply H; lia). done.
Qed.

Lemma bsum_add f g a n : bsum (fun k => f k + g k) a n = bsum f a n + bsum g a n.
Proof. revert a. induction n as [|n IH]; intros a; cbn [bsum]; [done|]. rewrite IH. lia. Qed.

Lemma bsum_scale c f a n : bsum (fun k => c * f k) a n = c * bsum f a n.
Proof. revert a. induction n as [|n IH]; intros a; cbn [bsum]; [lia|]. rewrite IH. lia. Qed.

Lemma bsum_app f a n k : bsum f a (n + k) = bsum f a n + bsum f (a + Z.of_nat n) k.
Proof.
  revert a. induction n as [|n IH]; intros a; cbn [bsum Nat.add].
  - by rewrite Z.add_0_r.
  - rewrite IH. replace (a + 1 + Z.of_nat n) with (a + Z.of_nat (S n)) by lia. lia.
Qed.

Lemma bsum_nonneg f a n : (forall k, a <= k < a + Z.of_nat n -> 0 <= f k) -> 0 <= bsum f a n.
Proof.
  revert a. induction n as [|n IH]; intros a H; cbn [bsum]; [lia|].
  pose proof (H a). pose proof (IH (a + 1)). assert (0 <= bsum f (a + 1) n); [|lia].
  apply IH. intros k Hk. apply H. lia.
Qed.

(** A sum of differences telescopes. *)
Lemma bsum_width m a n : bsum (width m) a n = m.(eBands).[a + Z.of_nat n] - m.(eBands).[a].
Proof.
  revert a. induction n as [|n IH]; intros a; cbn [bsum]; [rewrite Z.add_0_r; lia|].
  rewrite IH. unfold width. replace (a + 1 + Z.of_nat n) with (a + Z.of_nat (S n)) by lia. lia.
Qed.

(** The element at [j] changes, the rest of the sum does not. *)
Lemma bsum_wr l a n j v :
  a <= j < a + Z.of_nat n -> 0 <= j < len l ->
  bsum (rd l.[j <- v]) a n = bsum (rd l) a n - l.[j] + v.
Proof.
  revert a. induction n as [|n IH]; intros a Hj Hl; cbn [bsum]; [lia|].
  destruct (decide (a = j)) as [->|Hne].
  - rewrite rd_wr_eq by lia. rewrite (bsum_ext _ (rd l)); [lia|].
    intros k Hk. apply rd_wr_ne. lia.
  - rewrite rd_wr_ne, IH by lia. lia.
Qed.

(** ** What the mode and the arguments must satisfy *)

Record mode_ok (m : CELTMode) : Prop := {
  mo_vectors : 2 <= m.(nbAllocVectors);
  mo_width : forall j, 0 <= j < m.(nbEBands) -> 0 < width m j;
  mo_alloc : forall i, 0 <= m.(allocVectors).[i];
  mo_first : forall j, 0 <= j < m.(nbEBands) -> m.(allocVectors).[j] = 0
}.

Section Budget.
Context (m : CELTMode) (start end_ C LM : Z).
Hypothesis Hm : mode_ok m.
Hypothesis Hbands : 0 <= start < end_ /\ end_ <= m.(nbEBands) /\ end_ - start <= 23.
Hypothesis HC : C = 1 \/ C = 2.
Hypothesis HLM : 0 <= LM.

Lemma alloc_floor_eq : alloc_floor C = 8 * C.
Proof. unfold alloc_floor, BITRES. rewrite Z.shiftl_mul_pow2; lia. Qed.

Lemma stereo_pow : 0 <= stereo C /\ 2 ^ stereo C = C.
Proof. destruct HC as [-> | ->]; done. Qed.

Lemma width_pos j : 0 <= j < m.(nbEBands) -> 0 < Z.shiftl (width m j) LM.
Proof.
  intros Hj. rewrite Z.shiftl_mul_pow2 by done. pose proof (mo_width m Hm j Hj). nia.
Qed.

(** ** Splitting one band's bits *)

(** The outcome of a round: the band's bits and the balance are conserved. *)
Definition split_ok (capj bit : Z) (r : Z * Z * Z * Z) : Prop :=
  let '(b, e, f, bal) := r in
  0 <= b <= Z.max capj (8 * C) /\ 0 <= e <= MAX_FINE_BITS /\ 0 <= f <= 1 /\ 0 <= bal /\
  b + 8 * C * e + bal = bit.

Lemma fine_fits bits e :
  0 <= bits -> 0 <= e ->
  let e' := if C * e >? Z.shiftr bits BITRES then Z.shiftr (Z.shiftr bits (stereo C)) BITRES else e in
  0 <= e' /\ 8 * C * e' <= bits.
Proof.
  intros Hb He. cbv zeta. unfold BITRES. destruct stereo_pow as [Hs HsC].
  rewrite !Z.shiftr_div_pow2, HsC by lia. change (2 ^ 3) with 8.
  destruct (Z.gtb_spec (C * e) (bits / 8)) as [H|H].
  - destruct HC as [-> | ->]; dlia.
  - destruct HC as [-> | ->]; dlia.
Qed.

Lemma fine_wide_ok ds it j bit capj :
  0 <= j < m.(nbEBands) -> 0 <= bit -> 0 <= capj -> split_ok capj bit (fine_wide m C LM ds it j bit capj).
Proof.
  intros Hj Hb Hc. unfold fine_wide. cbv zeta. pose proof (width_pos j Hj) as HN.
  set (N := Z.shiftl (width m j) LM) in *. set (bits := bit - Z.max (bit - capj) 0).
  set (den := C * N + _).
  assert (0 < den) as Hden. { subst den. pose proof (b2z_range ((C =? 2) && (N >? 2) && negb ds && (j <? it))).
    destruct HC as [-> | ->]; lia. }
  set (off := if bits + _ <? _ then _ else _). set (q := Z.shiftr (celt_udiv _ den) BITRES).
  assert (0 <= q) as Hq.
  { subst q. apply Z.shiftr_nonneg. unfold celt_udiv. apply Z.div_pos; lia. }
  destruct (fine_fits bits q ltac:(subst bits; lia) Hq) as [He1 He2]. cbv zeta in He1, He2.
  set (e := if C * q >? _ then _ else _) in *. unfold split_ok.
  split_and!; try apply b2z_range; unfold MAX_FINE_BITS, BITRES in *;
    rewrite ?Z.shiftl_mul_pow2 by lia; subst bits; destruct HC as [-> | ->]; lia.
Qed.

Lemma fine_narrow_ok capj bit : 0 <= bit -> split_ok capj bit (fine_narrow C bit).
Proof.
  intros Hb. unfold fine_narrow, split_ok, BITRES, MAX_FINE_BITS. rewrite Z.shiftl_mul_pow2 by lia.
  cbv zeta. lia.
Qed.

Lemma fine_band_ok ds it j bits bal capj :
  0 <= j < m.(nbEBands) -> 0 <= bits -> 0 <= bal -> 0 <= capj ->
  split_ok capj (bits + bal) (fine_band m C LM ds it j bits bal capj).
Proof.
  intros Hj Hb Hbal Hc. unfold fine_band. cbv zeta.
  assert (split_ok capj (bits + bal)
            (if Z.shiftl (width m j) LM >? 1 then fine_wide m C LM ds it j (bits + bal) capj
             else fine_narrow C (bits + bal))) as H.
  { destruct (_ >? 1); [apply fine_wide_ok|apply fine_narrow_ok]; lia. }
  destruct (if _ >? 1 then _ else _) as [[[b e] f] ex]. destruct (Z.gtb_spec ex 0); [|done].
  unfold split_ok in *. destruct H as (H1 & H2 & H3 & H4 & H5).
  destruct stereo_pow as [Hs HsC]. unfold BITRES in *.
  rewrite Z.shiftr_div_pow2, Z.pow_add_r, HsC, Z.shiftl_mul_pow2 by lia. change (2 ^ 3) with 8.
  set (x := Z.min _ _). assert (0 <= x <= MAX_FINE_BITS - e /\ x * C * 8 <= ex).
  { subst x. destruct HC as [-> | ->]; dlia. }
  split_and!; try apply b2z_range; lia.
Qed.

(** ** The passes over the arrays

    Each pass rewrites a range of bands and leaves the others alone. *)

Definition same_outside (a : Z) (n : nat) (l l' : list Z) : Prop :=
  len l' = len l /\ forall k, k < a \/ a + Z.of_nat n <= k -> l'.[k] = l.[k].

Lemma same_refl a l : same_outside a 0 l l.
Proof. done. Qed.

Lemma same_head a n l l' v :
  same_outside (a + 1) n l.[a <- v] l' -> 0 <= a < len l -> same_outside a (S n) l l' /\ l'.[a] = v.
Proof.
  intros [H1 H2] Ha. rewrite len_wr in H1. split; [split; [done|]|].
  - intros k Hk. rewrite H2 by lia. apply rd_wr_ne. lia.
  - rewrite H2 by lia. by apply rd_wr_eq.
Qed.

Lemma same_wr a n l j v : a <= j < a + Z.of_nat n -> same_outside a n l l.[j <- v].
Proof. intros Hj. split; [apply len_wr|]. intros k Hk. apply rd_wr_ne. lia. Qed.

Lemma same_trans a n l1 l2 l3 : same_outside a n l1 l2 -> same_outside a n l2 l3 -> same_outside a n l1 l3.
Proof. intros [H1 H2] [H3 H4]. split; [lia|]. intros k Hk. by rewrite H4, H2. Qed.

Lemma same_weaken a n a' n' l l' :
  same_outside a n l l' -> a' <= a -> a + Z.of_nat n <= a' + Z.of_nat n' -> same_outside a' n' l l'.
Proof. intros [H1 H2] Ha Hn. split; [done|]. intros k Hk. apply H2. lia. Qed.

Lemma same_bsum a n l l' b k :
  same_outside a n l l' -> b + Z.of_nat k <= a \/ a + Z.of_nat n <= b -> bsum (rd l') b k = bsum (rd l) b k.
Proof. intros [_ H] Hd. apply bsum_ext. intros i Hi. apply H. lia. Qed.

(** What a band ends up with. *)
Definition band_ok (cap pulses eb fp : list Z) (k : Z) : Prop :=
  0 <= pulses.[k] <= Z.max cap.[k] (8 * C) /\ 0 <= eb.[k] <= MAX_FINE_BITS /\ 0 <= fp.[k] <= 1.

(** The bits of a band, with its fine energy bits. *)
Definition spent (pulses eb : list Z) (k : Z) : Z := pulses.[k] + 8 * C * eb.[k].

Definition room (n : Z) (l1 l2 l3 : list Z) : Prop := n <= len l1 /\ n <= len l2 /\ n <= len l3.

Lemma fine_loop_ok ds it cap n : forall j bal bits eb fp,
  0 <= j -> j + Z.of_nat n <= m.(nbEBands) -> room (j + Z.of_nat n) bits eb fp -> 0 <= bal ->
  (forall k, j <= k < j + Z.of_nat n -> 0 <= bits.[k] /\ 0 <= cap.[k]) ->
  let '(bal', bits', eb', fp') := fine_loop m C LM n j ds it cap bal bits eb fp in
  (forall k, j <= k < j + Z.of_nat n -> band_ok cap bits' eb' fp' k) /\ 0 <= bal' /\
  bsum (spent bits' eb') j n + bal' = bsum (rd bits) j n + bal /\
  same_outside j n bits bits' /\ same_outside j n eb eb' /\ same_outside j n fp fp'.
Proof.
  induction n as [|n IH]; intros j bal bits eb fp Hj Hn (R1 & R2 & R3) Hbal Hk; cbn [fine_loop bsum].
  { split_and!; try apply same_refl; try done. intros k Hk'. lia. }
  destruct (Hk j ltac:(lia)) as [Hbj Hcj].
  pose proof (fine_band_ok ds it j bits.[j] bal cap.[j] ltac:(lia) Hbj Hbal Hcj) as Hs.
  destruct (fine_band _ _ _ _ _ _ _ _ _) as [[[b e] f] bal1]. destruct Hs as (S1 & S2 & S3 & S4 & S5).
  specialize (IH (j + 1) bal1 bits.[j <- b] eb.[j <- e] fp.[j <- f]).
  unfold room in IH. rewrite !len_wr in IH. specialize (IH ltac:(lia) ltac:(lia) ltac:(lia) S4).
  specialize (IH ltac:(intros k Hk'; rewrite rd_wr_ne by lia; apply Hk; lia)).
  destruct (fine_loop _ _ _ _ _ _ _ _ _ _ _ _) as [[[bal' bits'] eb'] fp'].
  destruct IH as (I1 & I2 & I3 & I4 & I5 & I6).
  apply same_head in I4 as [I4 E4]; [|lia]. apply same_head in I5 as [I5 E5]; [|lia].
  apply same_head in I6 as [I6 E6]; [|lia]. split_and!; try done.
  - intros k Hk'. destruct (decide (k = j)) as [->|Hne]; [|apply I1; lia].
    unfold band_ok. rewrite E4, E5, E6. lia.
  - unfold spent at 1. rewrite E4, E5.
    rewrite (bsum_ext (rd bits.[j <- b]) (rd bits)) in I3 by (intros; apply rd_wr_ne; lia). lia.
Qed.

(** The skipped bands hold nothing or one fine energy bit per channel, so their
    split is exact, as the assertion in the code says. *)
Lemma fine_skipped_ok n : forall j bits eb fp,
  0 <= j -> room (j + Z.of_nat n) bits eb fp ->
  (forall k, j <= k < j + Z.of_nat n -> bits.[k] = 0 \/ bits.[k] = 8 * C) ->
  let '(bits', eb', fp') := fine_skipped C n j bits eb fp in
  (forall k, j <= k < j + Z.of_nat n -> bits'.[k] = 0 /\ 0 <= eb'.[k] <= 1 /\ 0 <= fp'.[k] <= 1) /\
  bsum (spent bits' eb') j n = bsum (rd bits) j n /\
  same_outside j n bits bits' /\ same_outside j n eb eb' /\ same_outside j n fp fp'.
Proof.
  induction n as [|n IH]; intros j bits eb fp Hj (R1 & R2 & R3) Hk; cbn [fine_skipped bsum].
  { split_and!; try apply same_refl; try done. intros k Hk'. lia. }
  set (e := Z.shiftr (Z.shiftr bits.[j] (stereo C)) BITRES).
  assert (0 <= e <= 1 /\ 8 * C * e = bits.[j]) as [He1 He2].
  { subst e. destruct (Hk j ltac:(lia)) as [-> | ->]; destruct HC as [-> | ->];
      vm_compute; done || (split; [split|]; congruence). }
  set (f := b2z (e <? 1)).
  specialize (IH (j + 1) bits.[j <- 0] eb.[j <- e] fp.[j <- f]).
  unfold room in IH. rewrite !len_wr in IH. specialize (IH ltac:(lia) ltac:(lia)).
  specialize (IH ltac:(intros k Hk'; rewrite rd_wr_ne by lia; apply Hk; lia)).
  destruct (fine_skipped _ _ _ _ _ _) as [[bits' eb'] fp'].
  destruct IH as (I1 & I3 & I4 & I5 & I6).
  apply same_head in I4 as [I4 E4]; [|lia]. apply same_head in I5 as [I5 E5]; [|lia].
  apply same_head in I6 as [I6 E6]; [|lia]. split_and!; try done.
  - intros k Hk'. destruct (decide (k = j)) as [->|Hne]; [|apply I1; lia].
    rewrite E4, E5, E6. pose proof (b2z_range (e <? 1)). subst f. lia.
  - unfold spent at 1. rewrite E4, E5.
    rewrite (bsum_ext (rd bits.[j <- 0]) (rd bits)) in I3 by (intros; apply rd_wr_ne; lia). lia.
Qed.

Lemma add_percoeff_ok pc n : forall j bits,
  0 <= j -> j + Z.of_nat n <= len bits -> j + Z.of_nat n <= m.(nbEBands) -> 0 <= pc ->
  let bits' := add_percoeff m n j pc bits in
  (forall k, j <= k < j + Z.of_nat n -> bits.[k] <= bits'.[k]) /\
  bsum (rd bits') j n = bsum (rd bits) j n + pc * bsum (width m) j n /\ same_outside j n bits bits'.
Proof.
  induction n as [|n IH]; intros j bits Hj Hl Hn Hpc; cbn [add_percoeff bsum]; cbv zeta.
  { split_and!; try apply same_refl; lia. }
  specialize (IH (j + 1) bits.[j <- bits.[j] + pc * width m j]). rewrite len_wr in IH. cbv zeta in IH.
  destruct (IH ltac:(lia) ltac:(lia) ltac:(lia) Hpc) as (I1 & I2 & I3).
  apply same_head in I3 as [I3 E3]; [|lia]. pose proof (mo_width m Hm j ltac:(lia)).
  rewrite (bsum_ext (rd bits.[j <- _]) (rd bits)) in I2 by (intros; apply rd_wr_ne; lia).
  split_and!; [|lia|done]. intros k Hk. destruct (decide (k = j)) as [->|Hne]; [nia|].
  specialize (I1 k ltac:(lia)). rewrite rd_wr_ne in I1 by lia. done.
Qed.

Lemma add_left_ok n : forall j left bits,
  0 <= j -> j + Z.of_nat n <= len bits -> j + Z.of_nat n <= m.(nbEBands) ->
  0 <= left <= bsum (width m) j n ->
  let bits' := add_left m n j left bits in
  (forall k, j <= k < j + Z.of_nat n -> bits.[k] <= bits'.[k]) /\
  bsum (rd bits') j n = bsum (rd bits) j n + left /\ same_outside j n bits bits'.
Proof.
  induction n as [|n IH]; intros j left bits Hj Hl Hn Hleft; cbn [add_left bsum] in *; cbv zeta.
  { split_and!; try apply same_refl; lia. }
  pose proof (mo_width m Hm j ltac:(lia)) as Hw.
  assert (0 <= bsum (width m) (j + 1) n).
  { apply bsum_nonneg. intros k Hk. pose proof (mo_width m Hm k ltac:(lia)). lia. }
  set (t := Z.min left (width m j)).
  specialize (IH (j + 1) (left - t) bits.[j <- bits.[j] + t]). rewrite len_wr in IH. cbv zeta in IH.
  destruct (IH ltac:(lia) ltac:(lia) ltac:(lia) ltac:(lia)) as (I1 & I2 & I3).
  apply same_head in I3 as [I3 E3]; [|lia].
  rewrite (bsum_ext (rd bits.[j <- _]) (rd bits)) in I2 by (intros; apply rd_wr_ne; lia).
  split_and!; [|lia|done]. intros k Hk. destruct (decide (k = j)) as [->|Hne]; [lia|].
  specialize (I1 k ltac:(lia)). rewrite rd_wr_ne in I1 by lia. done.
Qed.

Abbreviation n_bands := (nbands start end_).

Lemma bsum_split f cb :
  start <= cb <= end_ ->
  bsum f start n_bands = bsum f start (Z.to_nat (cb - start)) + bsum f cb (Z.to_nat (end_ - cb)).
Proof.
  intros Hcb. unfold nbands. replace (Z.to_nat (end_ - start))
    with (Z.to_nat (cb - start) + Z.to_nat (end_ - cb))%nat by lia.
  rewrite bsum_app. repeat f_equal. lia.
Qed.

Lemma band_span cb : start < cb <= end_ -> 0 < m.(eBands).[cb] - m.(eBands).[start].
Proof.
  intros Hcb. pose proof (bsum_width m start (Z.to_nat (cb - start))) as E.
  replace (start + Z.of_nat (Z.to_nat (cb - start))) with cb in E by lia.
  assert (0 <= bsum (width m) (start + 1) (Z.to_nat (cb - start) - 1)) as H1.
  { apply bsum_nonneg. intros k Hk. pose proof (mo_width m Hm k ltac:(lia)). lia. }
  pose proof (mo_width m Hm start ltac:(lia)). rewrite <- E.
  replace (Z.to_nat (cb - start)) with (S (Z.to_nat (cb - start) - 1)) by lia. cbn [bsum]. lia.
Qed.

(** All of [total - psum] is handed out. *)
Definition shared_ok (cap bits : list Z) (left : Z) (cb : Z) (a : allocation) : Prop :=
  (forall k, start <= k < end_ -> band_ok cap a.(pulses) a.(ebits) a.(fine_priority) k) /\
  (forall k, cb <= k < end_ -> a.(pulses).[k] = 0 /\ a.(ebits).[k] <= 1) /\ 0 <= a.(balance) /\
  bsum (spent a.(pulses) a.(ebits)) start n_bands + a.(balance) = bsum (rd bits) start n_bands + left.

Lemma share_out_ok cb total psum it ds cap bits eb fp :
  start < cb <= end_ -> room end_ bits eb fp -> 0 <= total - psum < 2 ^ 32 ->
  (forall k, start <= k < end_ -> 0 <= bits.[k] /\ 0 <= cap.[k]) ->
  (forall k, cb <= k < end_ -> bits.[k] = 0 \/ bits.[k] = 8 * C) ->
  let a := share_out m start end_ C LM cb total psum it ds cap bits eb fp in
  shared_ok cap bits (total - psum) cb a /\ a.(codedBands) = cb /\ a.(intensity) = it /\ a.(dual_stereo) = ds.
Proof.
  intros Hcb (R1 & R2 & R3) Hleft Hb Hskip. unfold share_out. cbv zeta. rewrite u32_small by lia.
  set (left := total - psum) in *. set (n := Z.to_nat (cb - start)).
  pose proof (band_span cb Hcb) as Hd. set (d := m.(eBands).[cb] - m.(eBands).[start]) in *.
  assert (bsum (width m) start n = d) as Hw.
  { rewrite bsum_width. subst n d. repeat f_equal. lia. }
  unfold celt_udiv. pose proof (Z.mod_pos_bound left d Hd) as Hmod.
  rewrite Z.mod_eq in Hmod by lia. set (pc := left / d) in *.
  assert (0 <= pc) as Hpc by (apply Z.div_pos; lia).
  destruct (add_percoeff_ok pc n start bits ltac:(lia) ltac:(lia) ltac:(lia) Hpc) as (A1 & A2 & A3).
  cbv zeta in *. set (bits1 := add_percoeff m n start pc bits) in *. destruct A3 as [A3 A4].
  destruct (add_left_ok n start (left - d * pc) bits1 ltac:(lia) ltac:(lia) ltac:(lia) ltac:(lia)) as (L1 & L2 & L3).
  cbv zeta in *. set (bits2 := add_left m n start (left - d * pc) bits1) in *. destruct L3 as [L3 L4].
  pose proof (fine_loop_ok ds it cap n start 0 bits2 eb fp) as F.
  destruct (fine_loop _ _ _ _ _ _ _ _ _ _ _ _) as [[[bal bits3] eb3] fp3].
  destruct F as (F1 & F2 & F3 & F4 & F5 & F6); [lia..|unfold room; lia|lia| |].
  { intros k Hk. specialize (A1 k Hk). specialize (L1 k Hk). specialize (Hb k ltac:(lia)). lia. }
  pose proof (fine_skipped_ok (Z.to_nat (end_ - cb)) cb bits3 eb3 fp3) as G.
  destruct (fine_skipped _ _ _ _ _ _) as [[bits4 eb4] fp4].
  assert (forall k, cb <= k < end_ -> bits3.[k] = bits.[k]) as Hout.
  { intros k Hk. destruct F4 as [_ F4]. rewrite F4, L4, A4 by lia. done. }
  destruct G as (G1 & G2 & G3 & G4 & G5); [lia| |intros k Hk; rewrite Hout by lia; apply Hskip; lia|].
  { destruct F4, F5, F6. unfold room. lia. }
  split; [|done]. unfold shared_ok. cbn [pulses ebits fine_priority balance]. split_and!; [| |done|].
  - intros k Hk. destruct (decide (k < cb)).
    + unfold band_ok. rewrite (proj2 G3), (proj2 G4), (proj2 G5) by lia. apply F1. lia.
    + destruct (G1 k ltac:(lia)) as (E0 & ? & ?). unfold band_ok, MAX_FINE_BITS. rewrite E0. lia.
  - intros k Hk. destruct (G1 k ltac:(lia)) as (E0 & ? & ?). lia.
  - rewrite !(bsum_split _ cb) by lia. rewrite G2, (bsum_ext (rd bits3) (rd bits)) by (intros; apply Hout; lia).
    fold n. rewrite (bsum_ext (spent bits4 eb4) (spent bits3 eb3)); [lia|].
    intros k Hk. unfold spent. rewrite (proj2 G3), (proj2 G4) by lia. done.
Qed.

(** ** The interpolated allocation *)

Lemma bsum_last f a n : bsum f a (S n) = bsum f a n + f (a + Z.of_nat n).
Proof. rewrite <- Nat.add_1_r, bsum_app. cbn [bsum]. lia. Qed.

(** What is stored is not negative and no more than what the search counted. *)
Lemma interp_store_ok tmp th cap n : forall done bits psum q,
  start + Z.of_nat n <= len bits -> psum <= q ->
  (forall k, start <= k < start + Z.of_nat n -> 0 <= tmp k /\ 0 <= cap.[k]) ->
  let '(bits', psum') := interp_store start C n tmp th cap done bits psum in
  (forall k, start <= k < start + Z.of_nat n -> 0 <= bits'.[k]) /\
  bsum (rd bits') start n = psum' - psum /\ same_outside start n bits bits' /\
  psum' <= alloc_psum start C n tmp th cap done q.
Proof.
  induction n as [|n IH]; intros done bits psum q Hl Hq Hk; cbn [interp_store alloc_psum].
  { split_and!; try apply same_refl; cbn [bsum]; lia. }
  set (j := start + Z.of_nat n). destruct (Hk j ltac:(lia)) as [Ht Hc]. pose proof alloc_floor_eq as Haf.
  set (r := if (tmp j <? th j) && negb done then _ else _).
  set (q' := if tmp j >=? alloc_floor C then q + alloc_floor C else q).
  assert (0 <= r.1 /\ psum + Z.min r.1 cap.[j] <=
            (if (tmp j >=? th j) || done then q + Z.min (tmp j) cap.[j] else q') /\
          r.2 = (tmp j >=? th j) || done) as (R1 & R2 & R3).
  { subst r q'. destruct (Z.ltb_spec (tmp j) (th j)), (Z.geb_spec (tmp j) (th j)), done,
      (Z.geb_spec (tmp j) (alloc_floor C)); cbn; split_and!; try done; lia. }
  destruct r as [t done']. cbn [fst snd] in *. subst done'.
  specialize (IH ((tmp j >=? th j) || done) bits.[j <- Z.min t cap.[j]] (psum + Z.min t cap.[j]) _
                ltac:(rewrite len_wr; lia) R2 ltac:(intros k Hk'; apply Hk; lia)).
  destruct (interp_store _ _ _ _ _ _ _ _ _) as [bits' psum']. destruct IH as (I1 & I2 & [I3 I4] & I5).
  assert (bits'.[j] = Z.min t cap.[j]) as Ej.
  { rewrite I4 by lia. apply rd_wr_eq. lia. }
  rewrite len_wr in I3. rewrite bsum_last. fold j. split_and!.
  - intros k Hk'. destruct (decide (k = j)) as [->|]; [lia|apply I1; lia].
  - lia.
  - split; [done|]. intros k Hk'. rewrite I4 by lia. apply rd_wr_ne. lia.
  - destruct (_ || _) eqn:Ed; [done|]. apply orb_false_iff in Ed as [_ ->]. done.
Qed.

(** The bisection keeps an allocation that fits. *)
Lemma interp_bisect_ok f total n : forall lo hi,
  0 <= lo <= hi -> f lo <= total ->
  0 <= interp_bisect n f total lo hi /\ f (interp_bisect n f total lo hi) <= total.
Proof.
  induction n as [|n IH]; intros lo hi Hlo Hf; cbn [interp_bisect]; [lia|].
  rewrite Z.shiftr_div_pow2 by lia. change (2 ^ 1) with 2.
  destruct (Z.gtb_spec (f ((lo + hi) / 2)) total); apply IH; try done; dlia.
Qed.

Lemma vector_search_ok f total H n : forall lo hi,
  1 <= lo <= hi -> hi < H -> lo = 1 \/ f (lo - 1) <= total -> hi + 1 = H \/ total < f (hi + 1) ->
  hi - lo < Z.of_nat n ->
  let r := vector_search n f total lo hi in
  1 <= r <= H /\ (r = 1 \/ f (r - 1) <= total) /\ (r = H \/ total < f r).
Proof.
  induction n as [|n IH]; intros lo hi Hlo HH Hf Hg Hn; cbn [vector_search]; cbv zeta; [lia|].
  rewrite Z.shiftr_div_pow2 by lia. change (2 ^ 1) with 2. set (mid := (lo + hi) / 2).
  assert (lo <= mid <= hi) by (subst mid; dlia). clearbody mid. destruct (Z.gtb_spec (f mid) total); case_cmp.
  - apply IH; try lia. right. by replace (mid - 1 + 1) with mid by lia.
  - assert (mid = lo) as -> by lia. split_and!; [lia|lia|done|by right].
  - apply IH; try lia. right. by replace (mid + 1 - 1) with mid by lia.
  - assert (mid = hi) as -> by lia. split_and!; [lia|lia| |done]. right. by replace (hi + 1 - 1) with hi by lia.
Qed.

(** ** Skipping *)

Lemma skip_band_bits_range cb total psum bits :
  start < cb <= end_ -> 0 <= total - psum < 2 ^ 32 ->
  bits.[cb - 1] <= skip_band_bits m start cb total psum bits <= bits.[cb - 1] + (total - psum).
Proof.
  intros Hcb Hl. unfold skip_band_bits, celt_udiv. cbv zeta. rewrite u32_small by lia.
  pose proof (band_span cb Hcb) as Hd. pose proof (Z.mod_pos_bound (total - psum) _ Hd) as Hmod.
  rewrite Z.mod_eq in Hmod by lia.
  assert (0 <= (total - psum) / (m.(eBands).[cb] - m.(eBands).[start])) as Hq by (apply Z.div_pos; lia).
  set (pc := (total - psum) / _) in *. clearbody pc.
  assert (0 <= m.(eBands).[cb - 1] - m.(eBands).[start]).
  { destruct (decide (cb - 1 = start)) as [->|]; [lia|]. pose proof (band_span (cb - 1)). lia. }
  pose proof (mo_width m Hm (cb - 1) ltac:(lia)) as Hw. unfold width in Hw.
  replace (cb - 1 + 1) with cb in Hw by lia. nia.
Qed.

Definition frac_table_ok (i : Z) : bool :=
  (8 <=? LOG2_FRAC_TABLE.[i]) && ((i =? 1) || (LOG2_FRAC_TABLE.[i - 1] <=? LOG2_FRAC_TABLE.[i])).

Lemma frac_table i : 1 <= i <= 23 -> frac_table_ok i = true.
Proof. intros Hi. apply (zforall_spec 23 1 frac_table_ok); [vm_compute; reflexivity|lia]. Qed.

(** The reservation for the intensity parameter covers the bands still coded. *)
Definition rsv_ok (irsv0 irsv cb : Z) : Prop :=
  (irsv0 = 0 /\ irsv = 0) \/ (0 < irsv <= irsv0 /\ irsv = LOG2_FRAC_TABLE.[cb - start]).

(** The state of the loop: [k] eighths of a bit have been coded, [psum] counts
    them and the bits of all bands, and it fits. *)
Record skip_inv (irsv0 k : Z) (st : skip_state) : Prop := {
  si_cb : start < st.(sk_codedBands) <= end_;
  si_len : end_ <= len st.(sk_bits);
  si_pos : forall j, start <= j < end_ -> 0 <= st.(sk_bits).[j];
  si_skipped : forall j, st.(sk_codedBands) <= j < end_ -> st.(sk_bits).[j] = 0 \/ st.(sk_bits).[j] = 8 * C;
  si_rsv : rsv_ok irsv0 st.(sk_intensity_rsv) st.(sk_codedBands);
  si_k : 0 <= k;
  si_fits : st.(sk_psum) <= st.(sk_total);
  si_sum : st.(sk_psum) = bsum (rd st.(sk_bits)) start n_bands + k + st.(sk_intensity_rsv) - irsv0
}.

Lemma skip_band_inv irsv0 k cb total psum irsv bits f bb :
  skip_inv irsv0 k (Build_skip_state cb total psum irsv bits) -> start < cb - 1 ->
  0 <= f -> bb <= bits.[cb - 1] + (total - psum) -> f = 0 \/ f + 8 * C <= bb ->
  let '(psum', irsv', bits') := skip_band start C (cb - 1) (psum + f) irsv (bb - f) bits in
  skip_inv irsv0 (k + f) (Build_skip_state (cb - 1) total psum' irsv' bits').
Proof.
  intros [I1 I2 I3 I4 I5 I6 I7 I8] Hcb Hf Hbb Hff. cbn in *. unfold skip_band. rewrite alloc_floor_eq.
  set (j := cb - 1) in *. pose proof (I3 j ltac:(lia)) as Hj.
  set (irsv' := if irsv >? 0 then _ else _).
  assert (rsv_ok irsv0 irsv' j /\ irsv' <= irsv) as [Hr' Hle].
  { subst irsv'. unfold rsv_ok in *.
    pose proof (frac_table (cb - start) ltac:(lia)) as [_ T2]%andb_true_iff.
    pose proof (frac_table (j - start) ltac:(lia)) as [T1 _]%andb_true_iff. apply Z.leb_le in T1.
    destruct (Z.gtb_spec irsv 0); [|lia]. apply orb_true_iff in T2 as [T2|T2]; [lia|]. apply Z.leb_le in T2.
    replace (cb - start - 1) with (j - start) in T2 by lia. lia. }
  clearbody irsv'.
  assert (forall v, bsum (rd bits.[j <- v]) start n_bands = bsum (rd bits) start n_bands - bits.[j] + v) as Hs.
  { intros v. apply bsum_wr; [|lia]. unfold nbands. lia. }
  assert (forall v, v = 0 \/ v = 8 * C -> forall i, j <= i < end_ -> bits.[j <- v].[i] = 0 \/ bits.[j <- v].[i] = 8 * C) as Hz.
  { intros v Hv i Hi. destruct (decide (i = j)) as [->|]; [rewrite rd_wr_eq by lia; done|].
    rewrite rd_wr_ne by lia. apply I4. lia. }
  assert (forall v, 0 <= v -> forall i, start <= i < end_ -> 0 <= bits.[j <- v].[i]) as Hp.
  { intros v Hv i Hi. destruct (decide (i = j)) as [->|]; [rewrite rd_wr_eq by lia; done|].
    rewrite rd_wr_ne by lia. apply I3. lia. }
  case_cmp; (constructor; cbn; [lia|by rewrite len_wr|apply Hp; lia|apply Hz; lia|done|lia| |rewrite Hs]); lia.
Qed.

(** ** Metering

    [metered p] also counts what is coded, in eighths of a bit: a flag is 8, and a
    value out of [ft] is the least number of eighths that tells [ft] values apart. *)

Definition eighths (ft : Z) : Z := Z.log2_up (ft ^ 8).

Definition metered {S} (p : port S) : port (S * Z) := {|
  p_flag := fun b '(s, k) => let '(b, s) := p_flag p b s in (b, (s, k + 8));
  p_uint := fun v ft '(s, k) => let '(v, s) := p_uint p v ft s in (v, (s, k + eighths ft))
|}.

Definition skip_done (irsv0 skip_rsv total k : Z) (st : skip_state) : Prop :=
  start < st.(sk_codedBands) <= end_ /\ end_ <= len st.(sk_bits) /\
  (forall j, start <= j < end_ -> 0 <= st.(sk_bits).[j]) /\
  (forall j, st.(sk_codedBands) <= j < end_ -> st.(sk_bits).[j] = 0 \/ st.(sk_bits).[j] = 8 * C) /\
  rsv_ok irsv0 st.(sk_intensity_rsv) st.(sk_codedBands) /\
  0 <= st.(sk_total) - st.(sk_psum) /\ 0 <= k /\
  st.(sk_total) - st.(sk_psum) + bsum (rd st.(sk_bits)) start n_bands + k + st.(sk_intensity_rsv)
  = total + skip_rsv + irsv0.

Lemma skip_loop_ok {S} (p : port S) th skip_start skip_rsv prev sbw total irsv0 n : forall st s k,
  start <= skip_start -> skip_rsv = 8 \/ (skip_rsv = 0 /\ irsv0 = 0 /\ total < 8) ->
  0 <= irsv0 <= 64 -> total + irsv0 < 2 ^ 31 -> st.(sk_total) = total ->
  st.(sk_codedBands) = start + Z.of_nat n -> skip_inv irsv0 k st ->
  let '(st', (_, k')) := skip_loop m start C LM (metered p) n th skip_start skip_rsv prev sbw st (s, k) in
  skip_done irsv0 skip_rsv total k' st'.
Proof.
  induction n as [|n IH]; intros st s k Hss Hrsv Hi0 Htot Et En Hinv.
  { destruct Hinv. lia. }
  cbn [skip_loop]. destruct st as [cb tot psum irsv bits]. cbn [sk_codedBands sk_total] in *. subst tot.
  pose proof Hinv as [I1 I2 I3 I4 I5 I6 I7 I8]. cbn in *.
  assert (0 <= bsum (rd bits) start n_bands) as Hsum.
  { apply bsum_nonneg. intros j Hj. apply I3. unfold nbands in Hj. lia. }
  destruct (Z.leb_spec (cb - 1) skip_start) as [Hstop|Hgo].
  { unfold skip_done. cbn. destruct Hrsv as [-> | (-> & -> & ?)]; split_and!; try done; lia. }
  assert (0 <= irsv <= irsv0) as Hir by (unfold rsv_ok in I5; lia).
  pose proof (skip_band_bits_range cb total psum bits I1 ltac:(lia)) as [Hb1 Hb2].
  set (bb := skip_band_bits _ _ _ _ _ _) in *. clearbody bb. pose proof alloc_floor_eq as Haf.
  change (Z.shiftl 1 BITRES) with 8.
  destruct (Z.geb_spec bb (th (cb - 1) `max` (alloc_floor C + 8))) as [Hflag|Hno].
  - cbn [metered p_flag]. destruct (p_flag p _ s) as [stop s']. destruct stop.
    + assert (bits.[cb - 1] <= bsum (rd bits) start n_bands) as Hle.
      { pose proof (bsum_wr bits start n_bands (cb - 1) 0 ltac:(unfold nbands; lia) ltac:(lia)) as E0.
        assert (0 <= bsum (rd bits.[cb - 1 <- 0]) start n_bands); [|lia].
        apply bsum_nonneg. unfold nbands. intros j Hj. destruct (decide (j = cb - 1)) as [->|].
        - rewrite rd_wr_eq by lia. lia.
        - rewrite rd_wr_ne by lia. apply I3. lia. }
      unfold skip_done. cbn. split_and!; try done; lia.
    + pose proof (skip_band_inv irsv0 k cb total psum irsv bits 8 bb Hinv ltac:(lia) ltac:(lia) Hb2 ltac:(lia)) as Hn.
      destruct (skip_band _ _ _ _ _ _ _) as [[psum' irsv'] bits']. apply IH; cbn; try done; lia.
  - pose proof (skip_band_inv irsv0 k cb total psum irsv bits 0 bb Hinv ltac:(lia) ltac:(lia) Hb2 ltac:(lia)) as Hn.
    rewrite Z.add_0_r, Z.sub_0_r in Hn.
    destruct (skip_band _ _ _ _ _ _ _) as [[psum' irsv'] bits']. rewrite Z.add_0_r in Hn.
    apply IH; cbn; try done; lia.
Qed.

(** ** The whole function *)

Lemma frac_table_eighths i : 0 <= i <= 23 -> LOG2_FRAC_TABLE.[i] = eighths (i + 1).
Proof.
  intros Hi. apply Z.eqb_eq.
  apply (zforall_spec 24 0 (fun i => LOG2_FRAC_TABLE.[i] =? eighths (i + 1))); [vm_compute; reflexivity|lia].
Qed.

(** The account of an allocation: [k] eighths of a bit were coded. *)
Definition budget_ok (cap : list Z) (budget k : Z) (a : allocation) : Prop :=
  start < a.(codedBands) <= end_ /\
  (forall j, start <= j < end_ -> band_ok cap a.(pulses) a.(ebits) a.(fine_priority) j) /\
  (forall j, a.(codedBands) <= j < end_ -> a.(pulses).[j] = 0 /\ a.(ebits).[j] <= 1) /\
  0 <= a.(balance) /\
  bsum (spent a.(pulses) a.(ebits)) start n_bands + a.(balance) + k = budget.

Lemma alloc_psum_ext tmp tmp' th cap n : forall done q,
  (forall k, start <= k < start + Z.of_nat n -> tmp k = tmp' k) ->
  alloc_psum start C n tmp th cap done q = alloc_psum start C n tmp' th cap done q.
Proof.
  induction n as [|n IH]; intros dn q H; cbn [alloc_psum]; [done|].
  rewrite (H (start + Z.of_nat n)) by lia. by rewrite !IH by (intros; apply H; lia).
Qed.

(** The interpolation leaves a state that the skip loop can start from. *)
Lemma interp_start bits1 bits2 th cap total irsv bits :
  end_ <= len bits -> irsv = 0 \/ irsv = LOG2_FRAC_TABLE.[end_ - start] ->
  (forall k, start <= k < end_ -> 0 <= bits1 k /\ 0 <= bits2 k /\ 0 <= cap.[k]) ->
  alloc_psum start C n_bands bits1 th cap false 0 <= total ->
  let psum_at mid := alloc_psum start C n_bands (interp bits1 bits2 mid) th cap false 0 in
  let lo := interp_bisect (Z.to_nat ALLOC_STEPS) psum_at total 0 (Z.shiftl 1 ALLOC_STEPS) in
  let '(bits', psum) := interp_store start C n_bands (interp bits1 bits2 lo) th cap false bits 0 in
  skip_inv irsv 0 (Build_skip_state end_ total psum irsv bits').
Proof.
  intros Hl Hirsv Hb Hfit psum_at lo.
  assert (psum_at 0 <= total) as H0.
  { unfold psum_at. rewrite (alloc_psum_ext _ bits1); [done|]. intros k _. unfold interp.
    rewrite Z.mul_0_l. change (Z.shiftr 0 ALLOC_STEPS) with 0. lia. }
  destruct (interp_bisect_ok psum_at total (Z.to_nat ALLOC_STEPS) 0 (Z.shiftl 1 ALLOC_STEPS)) as [Hlo1 Hlo2];
    [done|done|]. fold lo in Hlo1, Hlo2.
  pose proof (interp_store_ok (interp bits1 bits2 lo) th cap n_bands false bits 0 0) as Hs.
  destruct (interp_store _ _ _ _ _ _ _ _ _) as [bits' psum].
  assert (start + Z.of_nat n_bands = end_) as En by (unfold nbands; lia). rewrite En in Hs.
  destruct Hs as (S1 & S2 & [S3 S4] & S5); [lia|lia| |].
  { intros k Hk. destruct (Hb k Hk) as (B1 & B2 & B3). split; [|done]. unfold interp.
    assert (0 <= Z.shiftr (lo * bits2 k) ALLOC_STEPS) by (apply Z.shiftr_nonneg; nia). lia. }
  fold (psum_at lo) in S5. pose proof (frac_table (end_ - start) ltac:(lia)) as [T1 _]%andb_true_iff.
  apply Z.leb_le in T1. constructor; cbn; try done; try lia. unfold rsv_ok. lia.
Qed.

Lemma interp_bits2pulses_ok {S} (p : port S) skip_start bits1 bits2 th cap total skip_rsv it irsv ds drsv
    bits eb fp prev sbw s :
  room end_ bits eb fp -> start <= skip_start -> 0 <= total -> total + irsv < 2 ^ 30 ->
  skip_rsv = 8 \/ (skip_rsv = 0 /\ irsv = 0 /\ total < 8) ->
  irsv = 0 \/ irsv = LOG2_FRAC_TABLE.[end_ - start] -> drsv = 0 \/ drsv = 8 ->
  (forall k, start <= k < end_ -> 0 <= bits1 k /\ 0 <= bits2 k /\ 0 <= cap.[k]) ->
  alloc_psum start C n_bands bits1 th cap false 0 <= total ->
  let '(a, (_, k)) := interp_bits2pulses m start end_ C LM (metered p) skip_start bits1 bits2 th cap total
                        skip_rsv it irsv ds drsv bits eb fp prev sbw (s, 0) in
  budget_ok cap (total + skip_rsv + irsv + drsv) k a.
Proof.
  intros (R1 & R2 & R3) Hss Ht Htot Hrsv Hirsv Hdrsv Hb Hfit. unfold interp_bits2pulses.
  pose proof (interp_start bits1 bits2 th cap total irsv bits R1 Hirsv Hb Hfit) as Hinv. cbv zeta in *.
  destruct (interp_store _ _ _ _ _ _ _ _ _) as [bits' psum].
  assert (0 <= irsv <= 64) as Hi.
  { rewrite frac_table_eighths in Hirsv by lia.
    destruct Hirsv as [-> | ->]; [lia|]. unfold eighths. split; [apply Z.log2_up_nonneg|].
    etrans; [apply (Z.log2_up_le_mono _ (2 ^ 64))|done]. change (2 ^ 64) with (256 ^ 8).
    apply Z.pow_le_mono_l. lia. }
  pose proof (skip_loop_ok p th skip_start skip_rsv prev sbw total irsv n_bands
    (Build_skip_state end_ total psum irsv bits') s 0 Hss Hrsv Hi ltac:(lia) eq_refl
    ltac:(cbn; unfold nbands; lia) Hinv) as Hd.
  destruct (skip_loop _ _ _ _ _ _ _ _ _ _ _ _ _) as [[cb tot psum' irsv' bits''] [s1 k1]].
  destruct Hd as (D1 & D2 & D3 & D4 & D5 & D6 & D7 & D8). cbn in *.
  assert (0 <= bsum (rd bits'') start n_bands) as Hsum.
  { apply bsum_nonneg. intros j Hj. apply D3. unfold nbands in Hj. lia. }
  assert (0 <= irsv' <= irsv /\ (irsv' > 0 -> irsv' = eighths (cb + 1 - start))) as [Hi' Hcost].
  { unfold rsv_ok in D5. split; [lia|]. intros Hp. destruct D5 as [D5|D5]; [lia|].
    destruct D5 as [_ ->]. rewrite frac_table_eighths by lia. f_equal. lia. }
  unfold code_intensity. cbn [metered p_uint].
  set (r := if irsv' >? 0 then _ else _).
  assert (r.2.2 = k1 + irsv') as Ek.
  { subst r. destruct (Z.gtb_spec irsv' 0); [|cbn; lia].
    destruct (p_uint p _ _ s1) as [v s2]. cbn. rewrite Hcost at 1 by lia. lia. }
  destruct r as [it' [s2 k2]]. cbn in Ek. subst k2.
  set (q := if it' <=? start then _ else _).
  assert (q.1 + q.2 = tot + drsv /\ (q.2 = 0 \/ q.2 = 8) /\ tot <= q.1 <= tot + 8) as (Q1 & Q2 & Q3).
  { subst q. destruct (it' <=? start); cbn; lia. }
  destruct q as [tot' drsv']. cbn in Q1, Q2, Q3. unfold code_dual_stereo. cbn [metered p_flag].
  set (w := if drsv' >? 0 then _ else _).
  assert (w.2.2 = k1 + irsv' + drsv') as Ew.
  { subst w. destruct (Z.gtb_spec drsv' 0); [|cbn; lia]. destruct (p_flag p ds s2) as [b s3]. cbn. lia. }
  destruct w as [ds' [s3 k3]]. cbn in Ew. subst k3.
  destruct (share_out_ok cb tot' psum' it' ds' cap bits'' eb fp D1 ltac:(unfold room; lia) ltac:(lia)
    ltac:(intros k Hk; split; [by apply D3|by apply Hb]) D4) as ((A1 & A2 & A3 & A4) & A5 & _).
  unfold budget_ok. rewrite A5. split_and!; try done; lia.
Qed.

Lemma thresh_pos j : 0 < thresh m C LM j.
Proof. unfold thresh, BITRES. rewrite (Z.shiftl_mul_pow2 C) by lia. lia. Qed.

Lemma vector_bits_nonneg v j : 0 <= j < m.(nbEBands) -> 0 <= vector_bits m C LM v j.
Proof.
  intros Hj. unfold vector_bits. apply Z.shiftr_nonneg. rewrite Z.shiftl_nonneg.
  pose proof (mo_width m Hm j Hj). pose proof (mo_alloc m Hm (v * nbEBands m + j)). nia.
Qed.

Lemma trimmed_nonneg trim j b : 0 <= b -> 0 <= trimmed m end_ C LM trim j b.
Proof. intros Hb. unfold trimmed. case_cmp; lia. Qed.

(** The first allocation vector gives nothing to any band. *)
Lemma first_vector trim j : 0 <= j < m.(nbEBands) -> trimmed m end_ C LM trim j (vector_bits m C LM 0 j) = 0.
Proof.
  intros Hj. unfold vector_bits. rewrite Z.mul_0_l, Z.add_0_l, (mo_first m Hm j Hj), Z.mul_0_r.
  rewrite Z.shiftl_0_l, Z.shiftr_0_l. done.
Qed.

Lemma alloc_psum_zero cap n q : alloc_psum start C n (fun _ => 0) (thresh m C LM) cap false q = q.
Proof.
  induction n as [|n IH]; cbn [alloc_psum]; [done|]. pose proof (thresh_pos (start + Z.of_nat n)).
  pose proof alloc_floor_eq. destruct (Z.geb_spec 0 (thresh m C LM (start + Z.of_nat n))); [lia|].
  destruct (Z.geb_spec 0 (alloc_floor C)); [lia|]. done.
Qed.

Lemma last_boosted_ge offsets n : forall j s, start <= j -> start <= s -> start <= last_boosted n j s offsets.
Proof.
  induction n as [|n IH]; intros j s Hj Hs; cbn [last_boosted]; [done|]. apply IH; [lia|]. by case_cmp.
Qed.

Lemma reserve_ok total :
  let '(skip_rsv, irsv, drsv, rest) := reserve start end_ C total in
  skip_rsv + irsv + drsv + rest = Z.max total 0 /\ 0 <= rest /\
  (skip_rsv = 8 \/ (skip_rsv = 0 /\ irsv = 0 /\ rest < 8)) /\
  (irsv = 0 \/ irsv = LOG2_FRAC_TABLE.[end_ - start]) /\ 0 <= irsv /\ (drsv = 0 \/ drsv = 8).
Proof.
  unfold reserve. change (Z.shiftl 1 BITRES) with 8.
  pose proof (frac_table (end_ - start) ltac:(lia)) as [T1 _]%andb_true_iff. apply Z.leb_le in T1.
  destruct (Z.geb_spec (Z.max total 0) 8), (C =? 2); try (destruct (Z.gtb_spec LOG2_FRAC_TABLE.[end_ - start]
    (Z.max total 0 - 8))); try (destruct (Z.gtb_spec LOG2_FRAC_TABLE.[end_ - start] (Z.max total 0 - 0)));
    try case_cmp; split_and!; lia.
Qed.

Lemma clt_compute_allocation_ok {S} (p : port S) offsets cap trim it ds total bits eb fp prev sbw s :
  room end_ bits eb fp -> total < 2 ^ 30 ->
  (forall k, start <= k < end_ -> 0 <= offsets.[k] /\ 0 <= cap.[k]) ->
  let '(a, (_, k)) := clt_compute_allocation m start end_ C LM (metered p) offsets cap trim it ds total
                        bits eb fp prev sbw (s, 0) in
  budget_ok cap (Z.max total 0) k a.
Proof.
  intros HR Htot Hoc. unfold clt_compute_allocation. pose proof (reserve_ok total) as Hr.
  destruct (reserve _ _ _ _) as [[[skip_rsv irsv] drsv] rest]. destruct Hr as (E1 & E2 & E3 & E4 & E5 & E6).
  set (psum_at := fun mid => alloc_psum _ _ _ _ _ _ _ _).
  destruct (vector_search_ok psum_at rest m.(nbAllocVectors) (Z.to_nat m.(nbAllocVectors)) 1
              (m.(nbAllocVectors) - 1)) as (V1 & V2 & _); try (pose proof (mo_vectors m Hm); lia).
  set (lo := vector_search _ _ _ _ _) in *. clearbody lo. cbv zeta.
  set (bits1 := fun j => if lo - 1 >? 0 then _ else _). set (bits2 := fun j => Z.max 0 _).
  replace (Z.max total 0) with (rest + skip_rsv + irsv + drsv) by lia.
  assert (forall k, start <= k < end_ -> 0 <= trimmed m end_ C LM trim k (vector_bits m C LM (lo - 1) k)) as Ht.
  { intros k Hk. apply trimmed_nonneg, vector_bits_nonneg. lia. }
  apply interp_bits2pulses_ok; try done; try lia.
  - apply last_boosted_ge; lia.
  - intros k Hk. destruct (Hoc k Hk) as [O1 O2]. specialize (Ht k Hk). subst bits1 bits2. cbv beta.
    case_cmp; lia.
  - assert (start + Z.of_nat n_bands = end_) as En by (unfold nbands; lia).
    destruct (Z.gtb_spec (lo - 1) 0) as [Hlo|Hlo].
    + destruct V2 as [V2|V2]; [lia|]. done.
    + rewrite (alloc_psum_ext _ (fun _ => 0)); [rewrite alloc_psum_zero; done|].
      intros k Hk. subst bits1. cbv beta. replace (lo - 1) with 0 by lia. apply first_vector. lia.
Qed.
End Budget.

(** ** Simulation of ports *)

Section Simulation.
Context {S T : Type} (R : S -> T -> Prop).

(** Equal results, related states. *)
Definition agree {A} (x : A * S) (y : A * T) : Prop := x.1 = y.1 /\ R x.2 y.2.

Lemma agree_bind {A B} (x : A * S) (y : A * T) (f : A -> S -> B * S) (g : A -> T -> B * T) :
  agree x y -> (forall a s t, R s t -> agree (f a s) (g a t)) ->
  agree (let '(a, s) := x in f a s) (let '(a, t) := y in g a t).
Proof. destruct x as [a s], y as [b t]. intros [E HR] H. cbn in *. subst b. by apply H. Qed.

Record port_sim (p : port S) (q : port T) : Prop := {
  sim_flag : forall b s t, R s t -> agree (p_flag p b s) (p_flag q b t);
  sim_uint : forall v ft s t, R s t -> agree (p_uint p v ft s) (p_uint q v ft t)
}.

Context (p : port S) (q : port T) (Hsim : port_sim p q).
Context (m : CELTMode) (start end_ C LM : Z).

Lemma skip_loop_sim th skip_start skip_rsv prev sbw n : forall st s t,
  R s t -> agree (skip_loop m start C LM p n th skip_start skip_rsv prev sbw st s)
                 (skip_loop m start C LM q n th skip_start skip_rsv prev sbw st t).
Proof.
  induction n as [|n IH]; intros st s t HR; cbn [skip_loop]; [done|].
  destruct st as [cb tot psum irsv bits]. destruct (_ <=? skip_start); [done|].
  destruct (_ >=? _).
  - apply agree_bind; [by apply (sim_flag _ _ Hsim)|]. intros stop s' t' HR'. destruct stop; [done|].
    destruct (skip_band _ _ _ _ _ _ _) as [[psum' irsv'] bits']. by apply IH.
  - destruct (skip_band _ _ _ _ _ _ _) as [[psum' irsv'] bits']. by apply IH.
Qed.

Lemma allocation_sim offsets cap trim it ds total bits eb fp prev sbw s t :
  R s t ->
  agree (clt_compute_allocation m start end_ C LM p offsets cap trim it ds total bits eb fp prev sbw s)
        (clt_compute_allocation m start end_ C LM q offsets cap trim it ds total bits eb fp prev sbw t).
Proof.
  intros HR. unfold clt_compute_allocation, interp_bits2pulses.
  destruct (reserve _ _ _ _) as [[[skip_rsv irsv] drsv] rest]. cbv zeta.
  destruct (interp_store _ _ _ _ _ _ _ _ _) as [bits' psum].
  apply agree_bind; [by apply skip_loop_sim|]. intros [cb tot psum' irsv' bits''] s1 t1 HR1.
  apply agree_bind.
  { unfold code_intensity. destruct (_ >? 0); [|done].
    apply agree_bind; [by apply (sim_uint _ _ Hsim)|]. done. }
  intros it' s2 t2 HR2. destruct (if it' <=? start then _ else _) as [tot' drsv'].
  apply agree_bind; [|done]. unfold code_dual_stereo. destruct (_ >? 0); [|done]. by apply (sim_flag _ _ Hsim).
Qed.
End Simulation.

(** A meter does not change the allocation. *)
Lemma metered_sim {S} (p : port S) : port_sim (fun x s => x.1 = s) (metered p) p.
Proof.
  split; intros; destruct s as [s k]; cbn in *; subst t; unfold agree.
  - by destruct (p_flag p b s).
  - by destruct (p_uint p v ft s).
Qed.

(** Any run accounts for the budget, as its metered twin shows. *)
Lemma allocation_accounts {S} (p : port S) m start end_ C LM offsets cap trim it ds total bits eb fp prev sbw s :
  mode_ok m -> 0 <= start < end_ /\ end_ <= m.(nbEBands) /\ end_ - start <= 23 ->
  C = 1 \/ C = 2 -> 0 <= LM -> room end_ bits eb fp -> total < 2 ^ 30 ->
  (forall j, start <= j < end_ -> 0 <= offsets.[j] /\ 0 <= cap.[j]) ->
  let run T (p : port T) := clt_compute_allocation m start end_ C LM p offsets cap trim it ds total bits eb fp prev sbw in
  let '(a, s') := run _ p s in
  exists k, run _ (metered p) (s, 0) = (a, (s', k)) /\ budget_ok start end_ C cap (Z.max total 0) k a.
Proof.
  intros Hm Hb HC HLM HR Ht Hoc run.
  pose proof (clt_compute_allocation_ok m start end_ C LM Hm Hb HC HLM p offsets cap trim it ds total bits eb fp
                prev sbw s HR Ht Hoc) as Hok.
  pose proof (allocation_sim _ (metered p) p (metered_sim p) m start end_ C LM offsets cap trim it ds total
                bits eb fp prev sbw (s, 0) s eq_refl) as [E1 E2].
  unfold run. destruct (clt_compute_allocation _ _ _ _ _ p _ _ _ _ _ _ _ _ _ _ _ s) as [a s'].
  destruct (clt_compute_allocation _ _ _ _ _ (metered p) _ _ _ _ _ _ _ _ _ _ _ _) as [a2 [s2 k]].
  cbn in *. subst. by exists k.
Qed.

(** ** The two sides *)

Section Sync.
Context `{EntropyCoder E D}.
Context (m : CELTMode) (start end_ C LM : Z).

Lemma sync_flag {A} b b' (e2 : bool -> E -> A * E) d2 :
  (forall x, sync (e2 x) (d2 x)) ->
  sync (fun s => let '(x, s) := p_flag enc_port b s in e2 x s)
       (fun s => let '(x, s) := p_flag dec_port b' s in d2 x s).
Proof.
  intros H2. apply (codes_then (ec_enc_bit_logp b 1) (ec_dec_bit_logp 1) b (e2 b) d2); [|done].
  apply codes_bit_logp. lia.
Qed.

Lemma sync_uint {A} v v' ft (e2 : Z -> E -> A * E) d2 :
  1 < ft < 2 ^ 32 -> 0 <= v < ft -> sync (e2 v) (d2 v) ->
  sync (fun s => let '(x, s) := p_uint enc_port v ft s in e2 x s)
       (fun s => let '(x, s) := p_uint dec_port v' ft s in d2 x s).
Proof.
  intros Hft Hv H2. apply (codes_then (ec_enc_uint v ft) (ec_dec_uint ft) v (e2 v) d2); [|done].
  by apply codes_uint.
Qed.

Lemma sync_skip_loop th skip_start skip_rsv prev sbw prev' sbw' n : forall st,
  sync (skip_loop m start C LM (enc_port (E := E) (D := D)) n th skip_start skip_rsv prev sbw st)
       (skip_loop m start C LM (dec_port (E := E) (D := D)) n th skip_start skip_rsv prev' sbw' st).
Proof.
  induction n as [|n IH]; intros st; cbn [skip_loop]; [apply sync_ret|].
  destruct st as [cb tot psum irsv bits]. destruct (_ <=? skip_start); [apply sync_ret|].
  destruct (_ >=? _).
  - apply sync_flag. intros stop. destruct stop; [apply sync_ret|].
    destruct (skip_band _ _ _ _ _ _ _) as [[psum' irsv'] bits']. apply IH.
  - destruct (skip_band _ _ _ _ _ _ _) as [[psum' irsv'] bits']. apply IH.
Qed.

(** The first band is never skipped. *)
Lemma skip_loop_coded {S} (p : port S) th skip_start skip_rsv prev sbw n : forall st s,
  start <= skip_start -> st.(sk_codedBands) = start + Z.of_nat n -> (0 < n)%nat ->
  start < ((skip_loop m start C LM p n th skip_start skip_rsv prev sbw st s).1).(sk_codedBands)
        <= st.(sk_codedBands).
Proof.
  induction n as [|n IH]; intros st s Hss En Hn; [lia|]. cbn [skip_loop].
  destruct st as [cb tot psum irsv bits]. cbn in En |- *. destruct (Z.leb_spec (cb - 1) skip_start); [cbn; lia|].
  assert (forall psum irsv bits s, start < sk_codedBands
    ((skip_loop m start C LM p n th skip_start skip_rsv prev sbw (Build_skip_state (cb - 1) tot psum irsv bits) s).1) <= cb) as Hs.
  { intros. pose proof (IH (Build_skip_state (cb - 1) tot psum0 irsv0 bits0) s0 Hss) as H2. cbn in H2. lia. }
  destruct (_ >=? _).
  - destruct (p_flag p _ s) as [stop s']. destruct stop; [cbn; lia|].
    destruct (skip_band _ _ _ _ _ _ _) as [[psum' irsv'] bits']. apply Hs.
  - destruct (skip_band _ _ _ _ _ _ _) as [[psum' irsv'] bits']. apply Hs.
Qed.

Lemma sync_allocation offsets cap trim it it' ds ds' total bits eb fp prev sbw prev' sbw' :
  start < end_ -> end_ - start <= 23 -> start <= it ->
  sync (clt_compute_allocation m start end_ C LM (enc_port (E := E) (D := D)) offsets cap trim it ds total
          bits eb fp prev sbw)
       (clt_compute_allocation m start end_ C LM (dec_port (E := E) (D := D)) offsets cap trim it' ds' total
          bits eb fp prev' sbw').
Proof.
  intros Hse Hn Hit. unfold clt_compute_allocation, interp_bits2pulses.
  destruct (reserve _ _ _ _) as [[[skip_rsv irsv] drsv] rest]. cbv zeta.
  destruct (interp_store _ _ _ _ _ _ _ _ _) as [bits' psum].
  apply sync_bind; [apply sync_skip_loop|]. intros s.
  pose proof (skip_loop_coded (enc_port (E := E) (D := D)) (thresh m C LM)
    (last_boosted (nbands start end_) start start offsets) skip_rsv prev sbw (nbands start end_)
    (Build_skip_state end_ rest psum irsv bits') s
    ltac:(apply last_boosted_ge; lia) ltac:(cbn; unfold nbands; lia) ltac:(unfold nbands; lia)) as Hcb.
  destruct (skip_loop _ _ _ _ _ _ _ _ _ _ _ _ s) as [[cb tot psum' irsv' bits''] s']. cbn in Hcb |- *.
  apply sync_bind.
  - unfold code_intensity. destruct (_ >? 0); [|apply sync_ret].
    eapply (sync_uint _ _ _ (fun v s => (start + v, s))); [lia|lia|apply sync_ret].
  - intros s2. destruct (if _ <=? start then _ else _) as [tot' drsv'].
    apply sync_bind; [|intros; apply sync_ret]. unfold code_dual_stereo. destruct (_ >? 0); [|apply sync_ret].
    eapply sync_ext; [| |apply (sync_flag ds ds' (fun x s => (x, s)) (fun x s => (x, s))); intros; apply sync_ret];
      intros; [done|]. cbn. by destruct (ec_dec_bit_logp 1 s0).
Qed.
End Sync.
