(* ===== verification/PulseCache.v ===== *)
(** * The generator of the pulse cache (celt/rate.c, celt/cwrs.c, custom modes)

    [compute_pulse_cache] builds the table of PVQ costs and the table of caps of
    a mode; the tables of the standard mode in static_modes_float.h are its
    output.  The costs come from [log2_frac], a logarithm that is rounded up. *)

From S2P Require Import Prelude RangeCoder CeltMode CwrsTable QuantBands Rate.

(** ** log2_frac *)

(** The [do ... while (frac-->0)] loop: [frac+1] rounds. *)
Fixpoint log2_frac_loop (n : nat) (frac l val : Z) : Z * Z :=
  match n with
  | O => (l, val)
  | S n =>
      let b := Z.shiftr val 16 in
      let l := l + Z.shiftl b frac in
      let val := Z.shiftr (u32 (val + b)) b in
      let val := Z.shiftr (u32 (val * val + 0x7FFF)) 15 in
      log2_frac_loop n (frac - 1) l val
  end.

Definition log2_frac (val frac : Z) : Z :=
  let l := EC_ILOG val in
  if negb (Z.land val (u32 (val - 1)) =? 0) then
    let val := if l >? 16 then Z.shiftr (val - 1) (l - 16) + 1 else u32 (Z.shiftl val (16 - l)) in
    let l := Z.shiftl (l - 1) frac in
    let '(l, val) := log2_frac_loop (S (Z.to_nat frac)) frac l val in
    l + b2z (val >? 0x8000)
  else Z.shiftl (l - 1) frac.

(** The array that [get_required_bits] fills, for [_n] dimensions and up to
    [_maxk] pulses. *)
Definition get_required_bits (_n _maxk _frac : Z) : list Z :=
  0 :: map (fun k => i16 (log2_frac (CELT_PVQ_V true _n (Z.of_nat k)) _frac)) (seq 1 (Z.to_nat _maxk)).

(** ** compute_pulse_cache *)

Definition MAX_PSEUDO : Z := 40.

Definition fits_maxN : list Z := [32767; 32767; 32767; 1476; 283; 109; 60; 40; 29; 24; 20; 18; 16; 14; 13].
Definition fits_maxK : list Z := [32767; 32767; 32767; 32767; 1172; 238; 95; 53; 36; 27; 22; 18; 16; 15; 13].

Definition fits_in32 (_n _k : Z) : bool :=
  if _n >=? 14 then
    if _k >=? 14 then false else _n <=? fits_maxN.[_k]
  else _k <=? fits_maxK.[_n].

Section Mode.
Context (nb : Z) (eB lN : list Z).

(** [(eBands[j+1]-eBands[j])<<i>>1] *)
Definition half_width (i j : Z) : Z := Z.shiftr (Z.shiftl (eB.[j + 1] - eB.[j]) i) 1.

(** The inner search [for (n=0;n<nbEBands && (k!=i || n<j);n++)], from band [n]. *)
Fixpoint find_width (f : nat) (cindex : list Z) (i j k N n : Z) : option Z :=
  match f with
  | O => None
  | S f =>
      if (n <? nb) && (negb (k =? i) || (n <? j)) then
        if N =? half_width k n then Some cindex.[k * nb + n] else find_width f cindex i j k N (n + 1)
      else None
  end.

(** [for (k=0;k<=i;k++)]: the last [k] with a match decides. *)
Fixpoint find_widths (f : nat) (cindex : list Z) (i j N k : Z) : list Z :=
  match f with
  | O => cindex
  | S f =>
      let cindex := match find_width (Z.to_nat nb) cindex i j k N 0 with
                    | Some v => cindex.[i * nb + j <- v]
                    | None => cindex
                    end in
      find_widths f cindex i j N (k + 1)
  end.

(** [while (fits_in32(N,get_pulses(K+1)) && K<MAX_PSEUDO) K++] *)
Definition max_pseudo (N : Z) : Z :=
  while_fuel 41 (fun K => fits_in32 N (get_pulses (K + 1)) && (K <? MAX_PSEUDO)) (fun K => K + 1) 0.

Record scan_state := { sc_cindex : list Z; sc_curr : Z; sc_entries : list (Z * Z * Z) }.

(** The body of the scan for one band: a new entry (N, K, I) for a new width. *)
Definition scan_band (i : Z) (s : scan_state) (j : Z) : scan_state :=
  let N := half_width i j in
  let cindex := s.(sc_cindex).[i * nb + j <- -1] in
  let cindex := find_widths (Z.to_nat (i + 1)) cindex i j N 0 in
  if (cindex.[i * nb + j] =? -1) && negb (N =? 0) then
    let K := max_pseudo N in
    {| sc_cindex := cindex.[i * nb + j <- i16 s.(sc_curr)]; sc_curr := s.(sc_curr) + (K + 1);
       sc_entries := s.(sc_entries) ++ [(N, K, s.(sc_curr))] |}
  else {| sc_cindex := cindex; sc_curr := s.(sc_curr); sc_entries := s.(sc_entries) |}.

Definition zrange (n : Z) : list Z := map Z.of_nat (seq 0 (Z.to_nat n)).

Definition scan_widths (LM : Z) : scan_state :=
  fold_left (fun s i => fold_left (scan_band i) (zrange nb) s) (zrange (LM + 2))
    {| sc_cindex := repeat 0 (Z.to_nat (nb * (LM + 2))); sc_curr := 0; sc_entries := [] |}.

(** The costs of one entry. *)
Definition fill_entry (bits : list Z) (e : Z * Z * Z) : list Z :=
  let '(N, K, at_) := e in
  let tmp := get_required_bits N (get_pulses K) BITRES in
  let bits := fold_left (fun bits j => bits.[at_ + j <- u8 (tmp.[get_pulses j] - 1)]) (map Z.of_nat (seq 1 (Z.to_nat K))) bits in
  bits.[at_ <- u8 K].

(** *** Caps *)

(** The cost of one more split: the loop over [k] with [max_bits] and [N]. *)
Definition split_round (j LM0 : Z) '((max_bits, N) : Z * Z) (k : Z) : Z * Z :=
  let max_bits := Z.shiftl max_bits 1 in
  let offset := Z.shiftr (lN.[j] + Z.shiftl (LM0 + k) BITRES) 1 - QTHETA_OFFSET in
  let num := 459 * ((2 * N - 1) * offset + max_bits) in
  let den := Z.shiftl (2 * N - 1) 9 - 459 in
  let qb := Z.min (Z.quot (num + Z.shiftr den 1) den) 57 in
  (max_bits + qb, Z.shiftl N 1).

Definition stereo_split (j i max_bits N : Z) : Z :=
  let two := N =? 2 in
  let max_bits := Z.shiftl max_bits 1 in
  let offset := Z.shiftr (lN.[j] + Z.shiftl i BITRES) 1 - (if two then QTHETA_OFFSET_TWOPHASE else QTHETA_OFFSET) in
  let ndof := 2 * N - 1 - b2z two in
  let num := (if two then 512 else 487) * (max_bits + ndof * offset) in
  let den := Z.shiftl ndof 9 - (if two then 512 else 487) in
  let qb := Z.min (Z.quot (num + Z.shiftr den 1) den) (if two then 64 else 61) in
  max_bits + qb.

Definition fine_part (j i C max_bits N : Z) : Z :=
  let ndof := C * N + b2z ((C =? 2) && (N >? 2)) in
  let offset := Z.shiftr (lN.[j] + Z.shiftl i BITRES) 1 - FINE_OFFSET in
  let offset := if N =? 2 then offset + Z.shiftr (Z.shiftl 1 BITRES) 2 else offset in
  let num := max_bits + ndof * offset in
  let den := Z.shiftl (ndof - 1) BITRES in
  let qb := Z.min (Z.quot (num + Z.shiftr den 1) den) MAX_FINE_BITS in
  max_bits + Z.shiftl (C * qb) BITRES.

Definition band_cap (bits cindex : list Z) (i C j : Z) : Z :=
  let n0 := eB.[j + 1] - eB.[j] in
  let max_bits :=
    if Z.shiftl n0 i =? 1 then Z.shiftl (C * (1 + MAX_FINE_BITS)) BITRES
    else
      let '(n0, LM0) :=
        if n0 >? 2 then (Z.shiftr n0 1, -1)
        else if n0 <=? 1 then (Z.shiftl n0 (Z.min i 1), Z.min i 1)
        else (n0, 0) in
      let pcache := cindex.[(LM0 + 1) * nb + j] in
      let max_bits := bits.[pcache + bits.[pcache]] + 1 in
      let '(max_bits, N) := fold_left (split_round j LM0) (zrange (i - LM0)) (max_bits, n0) in
      let max_bits := if C =? 2 then stereo_split j i max_bits N else max_bits in
      fine_part j i C max_bits N in
  u8 (Z.quot (4 * max_bits) (C * Z.shiftl (eB.[j + 1] - eB.[j]) i) - 64).

Definition compute_pulse_cache (LM : Z) : PulseCache :=
  let s := scan_widths LM in
  let bits := fold_left fill_entry s.(sc_entries) (repeat 0 (Z.to_nat s.(sc_curr))) in
  let caps := flat_map (fun i => flat_map (fun C => map (band_cap bits s.(sc_cindex) i C) (zrange nb)) [1; 2])
                (zrange (LM + 1)) in
  {| cache_size := s.(sc_curr); cache_index := s.(sc_cindex); cache_bits := bits; cache_caps := caps |}.
End Mode.
