(* ===== verification/PulseCacheProofs.v ===== *)
(** * The cache of pulse costs

    [bits2pulses] picks the number of pulses whose cost is nearest to the bits of
    a band, and the costs of the static cache are those of the PVQ code: never
    too low, and at most an eighth of a bit too high. *)

From S2P Require Import Prelude RangeCoder EntCode CeltMode CwrsTable Cwrs Rate RateProofs PulseCache.

(** ** log2_frac is rounded up *)

(** One round: the mantissa is halved when it has 17 bits, then squared, both
    rounded up; [W] is what it stands for. *)
Lemma log2_frac_round W v e :
  0 <= W -> 0 <= v <= 131069 -> 0 <= e -> W * 2 ^ 15 <= v * 2 ^ e ->
  let b := Z.shiftr v 16 in
  let v1 := Z.shiftr (u32 (v + b)) b in
  let v2 := Z.shiftr (u32 (v1 * v1 + 0x7FFF)) 15 in
  0 <= b /\ 0 <= v2 <= 131069 /\ W * W * 2 ^ 15 <= v2 * 2 ^ (2 * (e + b)).
Proof.
  intros HW Hv He H b v1 v2.
  assert (0 <= b <= 1) as Hb by (subst b; rewrite Z.shiftr_div_pow2 by lia; change (2 ^ 16) with 65536; dlia).
  assert (0 <= v1 <= 65535 /\ v <= v1 * 2 ^ b) as [Hv1 Hle].
  { subst v1. rewrite u32_small by lia. rewrite Z.shiftr_div_pow2 by lia. subst b.
    rewrite Z.shiftr_div_pow2 in * by lia. change (2 ^ 16) with 65536 in *.
    assert (v / 65536 = 0 \/ v / 65536 = 1) as [E|E] by lia; rewrite E; [change (2 ^ 0) with 1|change (2 ^ 1) with 2]; dlia. }
  assert (v2 * 2 ^ 15 <= v1 * v1 + 0x7FFF /\ v1 * v1 <= v2 * 2 ^ 15) as [Hv2a Hv2].
  { subst v2. rewrite u32_small by nia. rewrite Z.shiftr_div_pow2 by lia. change (2 ^ 15) with 32768. dlia. }
  split; [lia|]. split; [change (2 ^ 15) with 32768 in *; nia|].
  assert (W * 2 ^ 15 <= v1 * 2 ^ (e + b)) as H1.
  { rewrite Z.pow_add_r by lia. pose proof (Z.pow_pos_nonneg 2 e). nia. }
  replace (2 * (e + b)) with ((e + b) + (e + b)) by lia. rewrite Z.pow_add_r by lia.
  set (P := 2 ^ (e + b)) in *. assert (0 < P) by (apply Z.pow_pos_nonneg; lia).
  assert (W * 2 ^ 15 * (W * 2 ^ 15) <= v1 * P * (v1 * P)) as H2 by (apply Z.mul_le_mono_nonneg; nia).
  change (2 ^ 15) with 32768 in *. assert (v1 * v1 * (P * P) <= v2 * 32768 * (P * P)) by (apply Z.mul_le_mono_nonneg_r; nia).
  nia.
Qed.

Lemma log2_frac_loop_ok n : forall l v W e,
  l = e * 2 ^ Z.of_nat n -> 0 <= W -> 0 <= v <= 131069 -> 0 <= e -> W * 2 ^ 15 <= v * 2 ^ e ->
  let '(l', v') := log2_frac_loop (S n) (Z.of_nat n) l v in
  0 <= l' /\ v' <= 131069 /\ W ^ (2 * 2 ^ Z.of_nat n) * 2 ^ 15 <= v' * 2 ^ (2 * l').
Proof.
  induction n as [|n IH]; intros l v W e El HW Hv He H;
    destruct (log2_frac_round W v e HW Hv He H) as (Hb & Hv2 & H2); cbv zeta in *; cbn [log2_frac_loop];
    set (b := Z.shiftr v 16) in *; set (v2 := Z.shiftr (u32 (_ + 0x7FFF)) 15) in *.
  - change (2 ^ Z.of_nat 0) with 1 in *. change (Z.of_nat 0) with 0. rewrite Z.shiftl_0_r.
    split; [lia|]. split; [lia|]. rewrite Z.mul_1_r, Z.pow_2_r. replace (l + b) with (e + b) by lia. done.
  - specialize (IH (l + Z.shiftl b (Z.of_nat (S n))) v2 (W * W) (2 * (e + b))).
    replace (Z.of_nat (S n) - 1) with (Z.of_nat n) by lia. cbn [log2_frac_loop] in IH.
    destruct (log2_frac_loop n _ _ _) as [l' v']. destruct IH as (I1 & I2 & I3); try lia; try nia.
    + rewrite Z.shiftl_mul_pow2, El, Nat2Z.inj_succ, Z.pow_succ_r by lia. lia.
    + split; [done|]. split; [done|].
      replace (W ^ (2 * 2 ^ Z.of_nat (S n))) with ((W * W) ^ (2 * 2 ^ Z.of_nat n)); [done|].
      rewrite <- Z.pow_2_r, <- Z.pow_mul_r by (try apply Z.mul_nonneg_nonneg; try apply Z.pow_nonneg; lia).
      f_equal. rewrite Nat2Z.inj_succ, Z.pow_succ_r by lia. lia.
Qed.

Lemma land_pred_pow2 v : 0 < v -> Z.land v (v - 1) = 0 -> v = 2 ^ Z.log2 v.
Proof.
  intros Hv H. destruct (Z.log2_spec v Hv) as [H1 H2].
  destruct (decide (v = 2 ^ Z.log2 v)) as [|Hne]; [done|exfalso].
  assert (0 < v - 1) by (pose proof (Z.log2_nonneg v); pose proof (Z.pow_pos_nonneg 2 (Z.log2 v)); lia).
  assert (Z.log2 (v - 1) = Z.log2 v) as E by (apply Z.log2_unique; [apply Z.log2_nonneg|lia]).
  pose proof (Z.bit_log2 v Hv) as B1. pose proof (Z.bit_log2 (v - 1) ltac:(lia)) as B2. rewrite E in B2.
  assert (Z.testbit (Z.land v (v - 1)) (Z.log2 v) = true) as B by (by rewrite Z.land_spec, B1, B2).
  rewrite H, Z.bits_0 in B. done.
Qed.

(** The mantissa that the loop starts from is rounded up. *)
Lemma log2_frac_start val :
  0 < val < 2 ^ 32 ->
  let l := Z.log2 val + 1 in
  let v := if l >? 16 then Z.shiftr (val - 1) (l - 16) + 1 else u32 (Z.shiftl val (16 - l)) in
  0 <= v <= 65536 /\ val * 2 ^ 15 <= v * 2 ^ (l - 1).
Proof.
  intros Hval l v. destruct (Z.log2_spec val ltac:(lia)) as [H1 H2]. rewrite <- Z.add_1_r in H2. fold l in H2.
  pose proof (Z.log2_nonneg val). subst v. destruct (Z.gtb_spec l 16) as [Hl|Hl].
  - rewrite Z.shiftr_div_pow2 by lia. set (P := 2 ^ (l - 16)).
    assert (0 < P) by (apply Z.pow_pos_nonneg; lia).
    assert (2 ^ l = P * 65536) as El by (subst P; change 65536 with (2 ^ 16); rewrite <- Z.pow_add_r by lia; f_equal; lia).
    assert (2 ^ (l - 1) = P * 32768) as El' by (subst P; change 32768 with (2 ^ 15); rewrite <- Z.pow_add_r by lia; f_equal; lia).
    pose proof (Z.mod_pos_bound (val - 1) P ltac:(lia)) as Hm. pose proof (Z.div_mod (val - 1) P ltac:(lia)) as Hd.
    rewrite El'. change (2 ^ 15) with 32768. nia.
  - rewrite Z.shiftl_mul_pow2 by lia.
    assert (2 ^ l * 2 ^ (16 - l) = 65536) as E by (rewrite <- Z.pow_add_r by lia; by replace (l + (16 - l)) with 16 by lia).
    assert (2 ^ (16 - l) * 2 ^ (l - 1) = 2 ^ 15) as E' by (rewrite <- Z.pow_add_r by lia; f_equal; lia).
    assert (0 < 2 ^ (16 - l)) by (apply Z.pow_pos_nonneg; lia).
    rewrite u32_small by nia. split; [nia|]. rewrite <- Z.mul_assoc, E'. lia.
Qed.

Lemma log2_frac_ge val frac : 0 < val < 2 ^ 32 -> 0 <= frac -> val ^ (2 ^ frac) <= 2 ^ log2_frac val frac.
Proof.
  intros Hval Hf. unfold log2_frac, EC_ILOG. rewrite ec_ilog_log2 by lia. cbv zeta.
  pose proof (Z.log2_nonneg val) as Hlog. pose proof (Z.pow_pos_nonneg 2 frac ltac:(lia) Hf) as HF.
  rewrite (u32_small (val - 1)) by lia. destruct (Z.eqb_spec (Z.land val (val - 1)) 0) as [E|E]; cbn [negb].
  { apply land_pred_pow2 in E; [|lia]. rewrite Z.shiftl_mul_pow2, Z.pow_mul_r by lia.
    replace (Z.log2 val + 1 - 1) with (Z.log2 val) by lia. by rewrite <- E. }
  destruct (log2_frac_start val Hval) as [Hv H0]. cbv zeta in *.
  set (v := if Z.log2 val + 1 >? 16 then _ else _) in *. clearbody v.
  pose proof (log2_frac_loop_ok (Z.to_nat frac) (Z.shiftl (Z.log2 val + 1 - 1) frac) v val (Z.log2 val + 1 - 1)) as L.
  rewrite Z2Nat.id in L by lia.
  destruct (log2_frac_loop _ _ _ _) as [l v']. destruct L as (L1 & L2 & L3); try lia.
  { rewrite Z.shiftl_mul_pow2 by lia. done. }
  set (X := val ^ 2 ^ frac) in *. assert (0 <= X) by (apply Z.pow_nonneg; lia).
  rewrite (Z.mul_comm 2 (2 ^ frac)), Z.pow_mul_r, Z.pow_2_r in L3 by lia. fold X in L3.
  replace (2 * l) with (l + l) in L3 by lia. rewrite Z.pow_add_r in L3 by lia.
  assert (0 < 2 ^ l) by (apply Z.pow_pos_nonneg; lia). change (2 ^ 15) with 32768 in L3.
  destruct (Z.gtb_spec v' 0x8000) as [Hg|Hg]; cbn [b2z].
  - rewrite Z.pow_add_r by lia. change (2 ^ 1) with 2. nia.
  - rewrite Z.add_0_r. nia.
Qed.

(** ** The bisection *)

(** A line of the cache: its first element is the number of the others, which do
    not decrease. *)
Record line_sorted (line : Z -> Z) : Prop := {
  ls_count : 1 <= line 0 <= 40;
  ls_first : 0 <= line 1;
  ls_mono : forall i j, 1 <= i <= j -> j <= line 0 -> line i <= line j
}.

Section Search.
Context (line : Z -> Z) (Hline : line_sorted line) (bits : Z).

Lemma cache_search_ok n : forall lo hi,
  0 <= lo <= hi -> 1 <= hi <= line 0 -> (lo = 0 \/ line lo < bits) -> (hi = line 0 \/ bits <= line hi) ->
  hi - lo <= 2 ^ Z.of_nat n ->
  let '(lo', hi') := cache_search n line bits lo hi in
  0 <= lo' <= hi' /\ hi' <= lo' + 1 /\ 1 <= hi' <= line 0 /\
  (lo' = 0 \/ line lo' < bits) /\ (hi' = line 0 \/ bits <= line hi').
Proof.
  induction n as [|n IH]; intros lo hi Hlo Hhi Hl Hh Hn; cbn [cache_search].
  { change (2 ^ Z.of_nat 0) with 1 in Hn. split_and!; try done; lia. }
  rewrite Z.shiftr_div_pow2 by lia. change (2 ^ 1) with 2.
  rewrite Nat2Z.inj_succ, Z.pow_succ_r in Hn by lia.
  assert (0 < 2 ^ Z.of_nat n) by (apply Z.pow_pos_nonneg; lia).
  set (mid := (lo + hi + 1) / 2). set (P := 2 ^ Z.of_nat n) in *.
  assert (lo <= mid <= hi /\ 1 <= mid /\ mid - lo <= P /\ hi - mid <= P) by (subst mid; dlia).
  clearbody mid. destruct (Z.geb_spec (line mid) bits); apply IH; try done; lia.
Qed.

(** The cost of [k] pulses, less one. *)
Definition cost (k : Z) : Z := if k =? 0 then -1 else line k.

Lemma cost_mono i j : 0 <= i <= j -> j <= line 0 -> cost i <= cost j.
Proof.
  intros Hi Hj. unfold cost. destruct Hline as [L1 L2 L3]. pose proof (L3 1 j). pose proof (L3 i j).
  destruct (Z.eqb_spec i 0), (Z.eqb_spec j 0); lia.
Qed.

Lemma cache_search_nearest :
  let '(lo, hi) := cache_search LOG_MAX_PSEUDO line bits 0 (line 0) in
  let q := if bits - cost lo <=? line hi - bits then lo else hi in
  0 <= q <= line 0 /\
  forall k, 0 <= k <= line 0 -> Z.abs (bits - cost q) <= Z.abs (bits - cost k).
Proof.
  destruct Hline as [L1 L2 L3].
  pose proof (cache_search_ok LOG_MAX_PSEUDO 0 (line 0)) as Hs.
  destruct (cache_search _ _ _ _ _) as [lo hi].
  destruct Hs as (S1 & S2 & S3 & S4 & S5); [lia|lia|by left|by left|change (2 ^ Z.of_nat LOG_MAX_PSEUDO) with 64; lia|].
  assert (line hi = cost hi) as Eh by (unfold cost; destruct (Z.eqb_spec hi 0); [lia|done]). rewrite Eh in *.
  assert (lo = 0 /\ cost lo = -1 \/ cost lo < bits) as Hlo.
  { unfold cost. destruct (Z.eqb_spec lo 0); [by left|right; lia]. }
  cbv zeta. split; [case_cmp; lia|]. intros k Hk.
  pose proof (cost_mono 0 k ltac:(lia) ltac:(lia)) as H0. change (cost 0) with (-1) in H0.
  pose proof (cost_mono lo hi ltac:(lia) ltac:(lia)).
  destruct (decide (k = hi)) as [->|]; [case_cmp; lia|].
  destruct (decide (k <= lo)) as [Hk1|Hk1]; [pose proof (cost_mono k lo)|pose proof (cost_mono hi k)];
    case_cmp; lia.
Qed.
End Search.

(** ** The static cache *)

(** The lines of the cache, with the dimension that each is for. *)
Definition cache_lines : list (Z * Z) :=
  [(0, 1); (41, 2); (82, 3); (123, 4); (164, 6); (200, 9); (222, 11); (240, 8); (266, 12); (283, 18);
   (295, 22); (305, 16); (318, 24); (328, 36); (336, 44); (343, 32); (351, 48); (358, 72); (364, 88);
   (370, 64); (376, 96); (382, 144); (387, 176)].

(** The dimension of a band, or of half a band for [LM = -1]. *)
Definition band_dim (m : CELTMode) (band LM : Z) : Z := Z.shiftr (Z.shiftl (width m band) (LM + 1)) 1.

Definition listed (LM band : Z) : bool :=
  let i := cache_index50.[(LM + 1) * 21 + band] in
  (i =? -1) || existsb (fun '(j, N) => (i =? j) && (band_dim mode48000_960_120 band LM =? N)) cache_lines.

(** An entry of a line: sorted, coded by the PVQ table, and its cost right. *)
Definition entry_ok (i N k : Z) : bool :=
  let c := cache_bits50.[i + k] in
  let K := get_pulses k in
  ((k =? 1) || (cache_bits50.[i + (k - 1)] <=? c)) && (0 <=? c) && (1 <=? K) &&
  ((N =? 1) || (pvq_fits false N K &&
     (eighths (CELT_PVQ_V false N K) <=? c + 1) && (c <=? eighths (CELT_PVQ_V false N K)))).

Definition line_ok '((i, N) : Z * Z) : bool :=
  let n := cache_bits50.[i] in
  (1 <=? n) && (n <=? 40) && zforall (Z.to_nat n) 1 (entry_ok i N).

Lemma cache_lines_ok : forallb line_ok cache_lines = true.
Proof. vm_compute. reflexivity. Qed.

Lemma bands_listed : zforall 5 (-1) (fun LM => zforall 21 0 (listed LM)) = true.
Proof. vm_compute. reflexivity. Qed.

Section Band.
Context (band LM : Z).
Hypothesis (Hb : 0 <= band < 21) (HLM : -1 <= LM <= 3).
Hypothesis (Hix : cache_index50.[(LM + 1) * 21 + band] <> -1).

Abbreviation line := (cache_line mode48000_960_120 band LM).
Abbreviation N := (band_dim mode48000_960_120 band LM).

Lemma band_line : line_ok (cache_index50.[(LM + 1) * 21 + band], N) = true.
Proof.
  pose proof (zforall_spec _ _ _ LM bands_listed ltac:(lia)) as H.
  apply (zforall_spec _ _ _ band) in H; [|lia]. unfold listed in H.
  apply orb_true_iff in H as [H|H]; [by apply Z.eqb_eq in H|].
  apply existsb_exists in H as ([j M] & Hin & [E1 E2]%andb_true_iff).
  apply Z.eqb_eq in E1, E2. rewrite E1, E2. pose proof cache_lines_ok as Hl.
  rewrite forallb_forall in Hl. by apply Hl.
Qed.

Lemma band_entry k : 1 <= k <= line 0 -> entry_ok (cache_index50.[(LM + 1) * 21 + band]) N k = true.
Proof.
  intros Hk. pose proof band_line as [[H1 H2]%andb_true_iff H3]%andb_true_iff. unfold cache_line in Hk.
  cbn [cache cache_bits cache_index nbEBands mode48000_960_120] in Hk. rewrite Z.add_0_r in Hk.
  apply (zforall_spec _ _ _ k) in H3; [done|lia].
Qed.

Lemma band_line_sorted : line_sorted line.
Proof.
  assert (1 <= line 0 <= 40) as Hc.
  { pose proof band_line as [[H1 H2]%andb_true_iff _]%andb_true_iff. unfold cache_line.
    cbn [cache cache_bits cache_index nbEBands mode48000_960_120]. rewrite Z.add_0_r. lia. }
  split; [done| |].
  - pose proof (band_entry 1 ltac:(lia)) as [[[_ H2]%andb_true_iff _]%andb_true_iff _]%andb_true_iff.
    by apply Z.leb_le in H2.
  - intros i j Hi Hj. replace j with (i + Z.of_nat (Z.to_nat (j - i))) in Hj |- * by lia.
    induction (Z.to_nat (j - i)) as [|n IH]; [by rewrite Z.add_0_r|].
    specialize (IH ltac:(lia)). etrans; [exact IH|].
    pose proof (band_entry (i + Z.of_nat (S n)) ltac:(lia)) as [[[H2 _]%andb_true_iff _]%andb_true_iff _]%andb_true_iff.
    apply orb_true_iff in H2 as [H2|H2]; [apply Z.eqb_eq in H2; lia|]. apply Z.leb_le in H2.
    replace (i + Z.of_nat (S n) - 1) with (i + Z.of_nat n) in H2 by lia. exact H2.
Qed.

Lemma bits2pulses_nearest bits :
  let q := bits2pulses mode48000_960_120 band LM bits in
  0 <= q <= line 0 /\
  forall k, 0 <= k <= line 0 ->
    Z.abs (bits - pulses2bits mode48000_960_120 band LM q)
    <= Z.abs (bits - pulses2bits mode48000_960_120 band LM k).
Proof.
  pose proof (cache_search_nearest line band_line_sorted (bits - 1)) as H.
  unfold bits2pulses. destruct (cache_search _ _ _ _ _) as [lo hi]. cbv zeta in *.
  change (if lo =? 0 then -1 else line lo) with (cost line lo).
  set (q := if bits - 1 - cost line lo <=? line hi - (bits - 1) then lo else hi) in *.
  destruct H as [H1 H2]. split; [done|]. intros k Hk. specialize (H2 k Hk).
  assert (forall x, pulses2bits mode48000_960_120 band LM x = cost line x + 1) as E.
  { intros x. unfold pulses2bits, cost. destruct (x =? 0); lia. }
  rewrite !E. lia.
Qed.

Lemma pulses2bits_cost k :
  2 <= N -> 1 <= k <= line 0 ->
  1 <= get_pulses k /\ pvq_fits false N (get_pulses k) = true /\
  eighths (CELT_PVQ_V false N (get_pulses k)) <= pulses2bits mode48000_960_120 band LM k
    <= eighths (CELT_PVQ_V false N (get_pulses k)) + 1.
Proof.
  intros HN Hk. pose proof (band_entry k Hk) as [[[_ H0]%andb_true_iff H1]%andb_true_iff H2]%andb_true_iff.
  apply orb_true_iff in H2 as [H2|[[H2 H3]%andb_true_iff H4]%andb_true_iff]; [lia|].
  apply Z.leb_le in H1, H3, H4. split_and!; try done.
  - unfold pulses2bits. destruct (Z.eqb_spec k 0); [lia|]. exact H3.
  - unfold pulses2bits. destruct (Z.eqb_spec k 0); [lia|]. unfold cache_line.
    cbn [cache cache_bits cache_index nbEBands mode48000_960_120]. lia.
Qed.
End Band.
