(* ===== verification/RateProps.v ===== *)
(** * What the bit allocation guarantees

    Theorems about celt/rate.c and celt/rate.h: the decoder derives the encoder's
    allocation, the allocation accounts for every eighth of a bit, and the number
    of pulses of a band is the best that the PVQ code has. *)

From S2P Require Import Prelude RangeCoder RangeRoundTrip CeltMode CwrsTable Cwrs Rate RateProofs PulseCache PulseCacheProofs.

(** ** The standard mode *)

Lemma mode48000_ok : mode_ok mode48000_960_120.
Proof.
  split.
  - done.
  - intros j Hj. cbn in Hj. apply Z.ltb_lt.
    apply (zforall_spec 21 0 (fun j => 0 <? width mode48000_960_120 j)); [vm_compute; reflexivity|lia].
  - intros i. apply rd_Forall; [done|]. apply List.Forall_forall. intros x Hx.
    apply Z.leb_le. revert x Hx. apply forallb_forall. vm_compute. reflexivity.
  - intros j Hj. cbn in Hj. apply Z.eqb_eq.
    apply (zforall_spec 21 0 (fun j => band_allocation.[j] =? 0)); [vm_compute; reflexivity|lia].
Qed.

(** ** Theorems *)

(** [log2_frac] never returns less than the binary logarithm: with [frac]
    fractional bits, its result is at least 2^frac * log2(val), for every nonzero
    32-bit value (the source says so, and that it was tested). *)
Theorem log2_frac_conservative val frac :
  0 < val < 2 ^ 32 -> 0 <= frac <= 16 -> val ^ (2 ^ frac) <= 2 ^ log2_frac val frac.
Proof. intros Hv Hf. apply log2_frac_ge; lia. Qed.

(** C8: the static tables of the standard mode - index, costs and caps - are what
    [compute_pulse_cache] computes from its bands. *)
Theorem pulse_cache_generated :
  compute_pulse_cache mode48000_960_120.(nbEBands) mode48000_960_120.(eBands) mode48000_960_120.(logN)
    mode48000_960_120.(maxLM) = mode48000_960_120.(cache).
Proof. vm_compute. reflexivity. Qed.

(** [bits2pulses] chooses, of all the pulse counts in the cache line of a band,
    one whose cost is nearest to the bits given; a band of two or more
    dimensions can be coded with that many pulses by the PVQ table, and the cached
    cost is the exact cost of its index, rounded up to an eighth of a bit, or
    one eighth more. *)
Theorem pulse_choice_correct band LM bits :
  0 <= band < 21 -> -1 <= LM <= 3 -> cache_index50.[(LM + 1) * 21 + band] <> -1 ->
  let m := mode48000_960_120 in
  let q := bits2pulses m band LM bits in
  let N := band_dim m band LM in
  (0 <= q <= cache_line m band LM 0 /\
   forall k, 0 <= k <= cache_line m band LM 0 ->
     Z.abs (bits - pulses2bits m band LM q) <= Z.abs (bits - pulses2bits m band LM k)) /\
  (2 <= N -> 0 < q ->
   1 <= get_pulses q /\ pvq_fits false N (get_pulses q) = true /\
   eighths (CELT_PVQ_V false N (get_pulses q)) <= pulses2bits m band LM q
     <= eighths (CELT_PVQ_V false N (get_pulses q)) + 1).
Proof.
  intros Hb HLM Hix m q N. pose proof (bits2pulses_nearest band LM Hb HLM Hix bits) as [H1 H2].
  fold m q in H1, H2. split; [done|]. intros HN Hq. apply pulses2bits_cost; try done. unfold m in *. lia.
Qed.

(** The decoder finds the encoder's allocation: from the same mode, band
    range, boosts, caps, trim and budget, [clt_compute_allocation] run on the
    packet returns the number of coded bands, the stereo parameters, the balance
    and the bits of every band that the encoder computed, although it does not know the
    encoder's band history, signal bandwidth and stereo decisions. *)
Lemma allocation_sync m start end_ C LM offsets cap trim it it' ds ds' total bits eb fp prev prev' sbw sbw' b :
  start < end_ -> end_ - start <= 23 -> start <= it ->
  let enc := clt_compute_allocation m start end_ C LM enc_port offsets cap trim it ds total bits eb fp prev sbw in
  let dec := clt_compute_allocation m start end_ C LM dec_port offsets cap trim it' ds' total bits eb fp prev' sbw' in
  packet_ok (fun c => (enc c).2) b = true ->
  (dec (ec_dec_init (take (length b) (buf (packet (fun c => (enc c).2) b))) (len b))).1
  = (enc (ec_enc_init b (len b))).1.
Proof.
  intros Hse Hn Hit enc dec Hp. apply (packet_syncs enc dec b); [|done]. by apply sync_allocation.
Qed.

(** C40: the allocation is exact, for the encoder and the decoder alike (any [p]):
    with [k] the eighths of a bit that its flags and the intensity parameter
    take, the fine energy bits, the PVQ bits and the balance add up to the budget.
    At least one band is coded; each band gets between 0 and [MAX_FINE_BITS] fine
    bits per channel and PVQ bits within its cap (or one bit per channel, where
    that is more), as the assertions at the end of the loop say; a skipped band gets
    at most one fine bit per channel and nothing else. *)
Theorem allocation_budget {S} (p : port S) m start end_ C LM offsets cap trim it ds total bits eb fp prev sbw s :
  mode_ok m -> 0 <= start < end_ /\ end_ <= m.(nbEBands) /\ end_ - start <= 23 ->
  C = 1 \/ C = 2 -> 0 <= LM -> room end_ bits eb fp -> total < 2 ^ 30 ->
  (forall j, start <= j < end_ -> 0 <= offsets.[j] /\ 0 <= cap.[j]) ->
  let run T (p : port T) := clt_compute_allocation m start end_ C LM p offsets cap trim it ds total bits eb fp prev sbw in
  let '(a, s') := run _ p s in
  exists k, run _ (metered p) (s, 0) = (a, (s', k)) /\ budget_ok start end_ C cap (Z.max total 0) k a.
Proof. apply allocation_accounts. Qed.

(** ** Witnesses *)

Lemma log2_frac_conservative_witness : log2_frac 4573910 3 = 178 /\ 4573910 ^ 8 <= 2 ^ 178.
Proof. split; [vm_compute; reflexivity|]. exact (log2_frac_conservative 4573910 3 ltac:(lia) ltac:(lia)). Defined.

Lemma pulse_choice_correct_witness :
  let m := mode48000_960_120 in
  bits2pulses m 12 1 60 = 2 /\ pvq_fits false 8 2 = true /\
  eighths (CELT_PVQ_V false 8 2) <= pulses2bits m 12 1 2 <= eighths (CELT_PVQ_V false 8 2) + 1.
Proof.
  pose proof (pulse_choice_correct 12 1 60 ltac:(lia) ltac:(lia) ltac:(vm_compute; congruence)) as [_ H].
  cbv zeta in *. change (bits2pulses mode48000_960_120 12 1 60) with 2 in H.
  change (band_dim mode48000_960_120 12 1) with 8 in H. change (get_pulses 2) with 2 in H.
  split; [vm_compute; reflexivity|]. destruct (H ltac:(lia) ltac:(lia)) as (_ & H1 & H2). done.
Defined.

(** A stereo frame of 10 ms in 80 bytes. *)
Definition demo_alloc {S} (p : port S) (it : Z) (ds : bool) (prev sbw : Z) : S -> allocation * S :=
  clt_compute_allocation mode48000_960_120 0 21 2 2 p (repeat 0 21) (init_caps mode48000_960_120 2 2) 5 it ds
    1200 (repeat 0 21) (repeat 0 21) (repeat 0 21) prev sbw.

Lemma allocation_budget_witness :
  let '(a, s') := demo_alloc enc_port 10 true 21 20 (ec_enc_init (repeat 0 80) 80) in
  exists k, demo_alloc (metered enc_port) 10 true 21 20 (ec_enc_init (repeat 0 80) 80, 0) = (a, (s', k)) /\
    budget_ok 0 21 2 (init_caps mode48000_960_120 2 2) 1200 k a.
Proof.
  apply (allocation_budget enc_port mode48000_960_120 0 21 2 2 (repeat 0 21) (init_caps mode48000_960_120 2 2) 5
           10 true 1200 (repeat 0 21) (repeat 0 21) (repeat 0 21) 21 20 (ec_enc_init (repeat 0 80) 80) mode48000_ok);
    [cbn; lia|by right|lia|done|lia|].
  intros j Hj. split; apply Z.leb_le.
  - apply (zforall_spec 21 0 (fun j => 0 <=? (repeat 0 21).[j])); [vm_compute; reflexivity|lia].
  - apply (zforall_spec 21 0 (fun j => 0 <=? (init_caps mode48000_960_120 2 2).[j])); [vm_compute; reflexivity|lia].
Defined.
