(* ===== verification/CeltSide.v ===== *)
(** * The side information of a CELT frame (celt/celt_encoder.c, celt/celt_decoder.c)

    Between the coarse energies and the pulse vectors a frame codes: the
    time-frequency flags of the bands, the spread, the boosts of the dynamic
    allocation, the allocation trim, the allocation itself and the fine
    energies.  What is coded depends at every step on the bits used so far, which
    the decoder has to count in the same way.

    The parts of [celt_encode_with_ec] and [celt_decode_with_ec] are written as functions of the
    decisions that the encoder has taken.  A frame at constant bit rate is modelled: at a
    variable rate the encoder moves the end of the packet between the trim and
    the allocation. *)

From S2P Require Import Prelude RangeCoder EntropyInterface EntropySeq CeltMode QuantBands Rate.

(** ** Tables, celt/celt.h and celt/celt.c *)

Definition trim_icdf : list Z := [126; 124; 119; 109; 87; 41; 19; 9; 4; 2; 0].
Definition spread_icdf : list Z := [25; 23; 2; 0].
Definition SPREAD_NORMAL : Z := 2.
Definition tf_select_table : list (list Z) :=
  [[0; -1; 0; -1; 0; -1; 0; -1]; [0; -1; 0; -2; 1; 0; 1; -1];
   [0; -2; 0; -3; 2; 0; 1; -1]; [0; -2; 0; -3; 3; 0; 1; -1]].

(** [tf_select_table[LM][4*isTransient+k]] *)
Definition tf_table (LM : nat) (isTransient : bool) (k : Z) : Z :=
  (nth LM tf_select_table []).[4 * b2z isTransient + k].

(** [LM>0 && tell+logp+1<=budget], in 32-bit unsigned arithmetic *)
Definition tf_select_rsv (LM : nat) (logp budget tell : Z) : bool :=
  (0 <? LM)%nat && (u32 (tell + logp + 1) <=? budget).

(** Coding [tf_select] makes a difference. *)
Definition tf_differs (LM : nat) (isTransient : bool) (tf_changed : Z) : bool :=
  negb (tf_table LM isTransient (0 + tf_changed) =? tf_table LM isTransient (2 + tf_changed)).

(** What the dynamic allocation adds per step:
    [quanta = IMIN(width<<BITRES, IMAX(6<<BITRES, width))] *)
Definition dyn_quanta (m : CELTMode) (C LM i : Z) : Z :=
  let w := Z.shiftl (C * width m i) LM in
  Z.min (Z.shiftl w BITRES) (Z.max (Z.shiftl 6 BITRES) w).

(** The elements [start..end-1] of an array that is only accessed there. *)
Definition from_start (start : Z) (l : list Z) : list Z := repeat 0 (Z.to_nat start) ++ l.

Section Side.
Context `{EntropyCoder E D}.

(** ** Time-frequency flags *)

(** The loop of [tf_encode] over the elements [start..end-1] of [tf_res]. *)
Fixpoint tf_enc_loop (tf_res : list Z) (isTransient : bool) (budget curr tf_changed logp tell : Z) (enc : E)
    : (list Z * Z) * E :=
  match tf_res with
  | [] => (([], tf_changed), enc)
  | t :: tf_res =>
      let '(t, curr, tf_changed, tell, enc) :=
        if u32 (tell + logp) <=? budget then
          let enc := ec_enc_bit_logp (negb (Z.lxor t curr =? 0)) logp enc in
          (t, t, Z.lor tf_changed t, u32 (ec_tell_enc enc), enc)
        else (curr, curr, tf_changed, tell, enc) in
      let '((r, tf_changed), enc) :=
        tf_enc_loop tf_res isTransient budget curr tf_changed (if isTransient then 4 else 5) tell enc in
      ((t :: r, tf_changed), enc)
  end.

Definition tf_encode (isTransient : bool) (tf_res : list Z) (LM : nat) (tf_select : bool) (enc : E)
    : list Z * E :=
  let budget := u32 (ec_storage_enc enc * 8) in
  let tell := u32 (ec_tell_enc enc) in
  let logp := if isTransient then 2 else 4 in
  let rsv := tf_select_rsv LM logp budget tell in
  let budget := u32 (budget - b2z rsv) in
  let '((tf_res, tf_changed), enc) := tf_enc_loop tf_res isTransient budget 0 0 logp tell enc in
  let '(tf_select, enc) :=
    if rsv && tf_differs LM isTransient tf_changed then (tf_select, ec_enc_bit_logp tf_select 1 enc)
    else (false, enc) in
  (map (fun t => tf_table LM isTransient (2 * b2z tf_select + t)) tf_res, enc).

(** The loop of [tf_decode] over [n] bands. *)
Fixpoint tf_dec_loop (n : nat) (isTransient : bool) (budget curr tf_changed logp tell : Z) (dec : D)
    : (list Z * Z) * D :=
  match n with
  | O => (([], tf_changed), dec)
  | S n =>
      let '(curr, tf_changed, tell, dec) :=
        if u32 (tell + logp) <=? budget then
          let '(b, dec) := ec_dec_bit_logp logp dec in
          let curr := Z.lxor curr (b2z b) in
          (curr, Z.lor tf_changed curr, u32 (ec_tell_dec dec), dec)
        else (curr, tf_changed, tell, dec) in
      let '((r, tf_changed), dec) :=
        tf_dec_loop n isTransient budget curr tf_changed (if isTransient then 4 else 5) tell dec in
      ((curr :: r, tf_changed), dec)
  end.

Definition tf_decode (n : nat) (isTransient : bool) (LM : nat) (dec : D) : list Z * D :=
  let budget := u32 (ec_storage_dec dec * 8) in
  let tell := u32 (ec_tell_dec dec) in
  let logp := if isTransient then 2 else 4 in
  let rsv := tf_select_rsv LM logp budget tell in
  let budget := u32 (budget - b2z rsv) in
  let '((tf_res, tf_changed), dec) := tf_dec_loop n isTransient budget 0 0 logp tell dec in
  let '(tf_select, dec) :=
    if rsv && tf_differs LM isTransient tf_changed then ec_dec_bit_logp 1 dec else (false, dec) in
  (map (fun t => tf_table LM isTransient (2 * b2z tf_select + t)) tf_res, dec).

(** ** Spread *)

(** The decision that the encoder takes and codes if there is room; without it
    the decoder assumes the normal spread. *)
Definition spread_encode (total_bits spread : Z) (enc : E) : option Z * E :=
  if ec_tell_enc enc + 4 <=? total_bits then (Some spread, ec_enc_icdf spread spread_icdf 5 enc)
  else (None, enc).

Definition spread_decode (total_bits : Z) (dec : D) : Z * D :=
  if ec_tell_dec dec + 4 <=? total_bits then ec_dec_icdf spread_icdf 5 dec else (SPREAD_NORMAL, dec).

(** ** Dynamic allocation *)

(** The loop of one band in the encoder, with [n] bounding its rounds: the boost,
    the number of steps [j], the total boost and the position. *)
Fixpoint dyn_enc_band (n : nat) (cap quanta total_bits offset j logp boost total_boost tell : Z) (enc : E)
    : (Z * Z * Z * Z) * E :=
  match n with
  | O => ((boost, j, total_boost, tell), enc)
  | S n =>
      if (tell + Z.shiftl logp BITRES <? total_bits - total_boost) && (boost <? cap) then
        let flag := j <? offset in
        let enc := ec_enc_bit_logp flag logp enc in
        let tell := ec_tell_frac_enc enc in
        if negb flag then ((boost, j, total_boost, tell), enc)
        else dyn_enc_band n cap quanta total_bits offset (j + 1) 1 (boost + quanta) (total_boost + quanta) tell enc
      else ((boost, j, total_boost, tell), enc)
  end.

(** A step adds at least one to the boost, so [cap] rounds are enough. *)
Definition dyn_rounds (cap : Z) : nat := Z.to_nat cap.

(** The bands from [i] on; [offsets] are the steps wanted for them. *)
Fixpoint dyn_enc_bands (m : CELTMode) (C LM : Z) (cap : list Z) (total_bits : Z) (offsets : list Z)
    (i dynalloc_logp total_boost tell : Z) (enc : E) : (list Z * Z * Z) * E :=
  match offsets with
  | [] => (([], total_boost, tell), enc)
  | offset :: offsets =>
      let '((boost, j, total_boost, tell), enc) :=
        dyn_enc_band (dyn_rounds cap.[i]) cap.[i] (dyn_quanta m C LM i) total_bits offset 0 dynalloc_logp 0
          total_boost tell enc in
      let dynalloc_logp := if negb (j =? 0) then Z.max 2 (dynalloc_logp - 1) else dynalloc_logp in
      let '((r, total_boost, tell), enc) :=
        dyn_enc_bands m C LM cap total_bits offsets (i + 1) dynalloc_logp total_boost tell enc in
      ((boost :: r, total_boost, tell), enc)
  end.

Fixpoint dyn_dec_band (n : nat) (cap quanta logp boost total_bits tell : Z) (dec : D) : (Z * Z * Z) * D :=
  match n with
  | O => ((boost, total_bits, tell), dec)
  | S n =>
      if (tell + Z.shiftl logp BITRES <? total_bits) && (boost <? cap) then
        let '(flag, dec) := ec_dec_bit_logp logp dec in
        let tell := ec_tell_frac_dec dec in
        if negb flag then ((boost, total_bits, tell), dec)
        else dyn_dec_band n cap quanta 1 (boost + quanta) (total_bits - quanta) tell dec
      else ((boost, total_bits, tell), dec)
  end.

Fixpoint dyn_dec_bands (m : CELTMode) (C LM : Z) (cap : list Z) (n : nat)
    (i dynalloc_logp total_bits tell : Z) (dec : D) : (list Z * Z * Z) * D :=
  match n with
  | O => (([], total_bits, tell), dec)
  | S n =>
      let '((boost, total_bits, tell), dec) :=
        dyn_dec_band (dyn_rounds cap.[i]) cap.[i] (dyn_quanta m C LM i) dynalloc_logp 0 total_bits tell dec in
      let dynalloc_logp := if boost >? 0 then Z.max 2 (dynalloc_logp - 1) else dynalloc_logp in
      let '((r, total_bits, tell), dec) :=
        dyn_dec_bands m C LM cap n (i + 1) dynalloc_logp total_bits tell dec in
      ((boost :: r, total_bits, tell), dec)
  end.

(** ** Trim *)

Definition trim_encode (tell room trim : Z) (enc : E) : Z * E :=
  if tell + Z.shiftl 6 BITRES <=? room then (trim, ec_enc_icdf trim trim_icdf 7 enc) else (5, enc).

Definition trim_decode (tell room : Z) (dec : D) : Z * D :=
  if tell + Z.shiftl 6 BITRES <=? room then ec_dec_icdf trim_icdf 7 dec else (5, dec).

(** ** The whole *)

(** What the encoder has decided for a frame. *)
Record decisions := {
  d_isTransient : bool;
  d_tf_res : list Z;
  d_tf_select : bool;
  d_spread : Z;
  d_offsets : list Z;
  d_trim : Z;
  d_intensity : Z;
  d_dual_stereo : bool;
  d_prev : Z;
  d_signalBandwidth : Z
}.

(** What both ends know afterwards. *)
Record side := {
  s_tf_res : list Z;
  s_spread : Z;
  s_boosts : list Z;
  s_trim : Z;
  s_anti_collapse_rsv : Z;
  s_alloc : allocation;
  s_energies : list Z
}.

(** [bits] and [anti_collapse_rsv] of both functions, from the packet size. *)
Definition alloc_budget (nbBytes tell_frac : Z) (isTransient : bool) (LM : Z) : Z * Z :=
  let bits := Z.shiftl (nbBytes * 8) BITRES - tell_frac - 1 in
  let anti_collapse_rsv :=
    if isTransient && (LM >=? 2) && (bits >=? Z.shiftl (LM + 2) BITRES) then Z.shiftl 1 BITRES else 0 in
  (bits - anti_collapse_rsv, anti_collapse_rsv).

Section Frame.
Context (m : CELTMode) (start end_ C : Z) (LM : nat) (nbBytes : Z).

(** With the remaining errors, and the spread if it was coded. *)
Definition side_encode (x : decisions) (oldEBands error : list Z) : E -> (side * (list Z * option Z)) * E :=
  tf_res <~ tf_encode x.(d_isTransient) x.(d_tf_res) LM x.(d_tf_select);
  spread <~ spread_encode (nbBytes * 8) x.(d_spread);
  let cap := init_caps m (Z.of_nat LM) C in
  let total_bits := Z.shiftl (nbBytes * 8) BITRES in
  tell <~ read ec_tell_frac_enc;
  '(boosts, total_boost, tell) <~
    dyn_enc_bands m C (Z.of_nat LM) cap total_bits x.(d_offsets) start 6 0 tell;
  trim <~ trim_encode tell (total_bits - total_boost) x.(d_trim);
  tell <~ read ec_tell_frac_enc;
  let '(bits, rsv) := alloc_budget nbBytes tell x.(d_isTransient) (Z.of_nat LM) in
  let zero := repeat 0 (Z.to_nat m.(nbEBands)) in
  a <~ clt_compute_allocation m start end_ C (Z.of_nat LM) enc_port (from_start start boosts) cap trim
         x.(d_intensity) x.(d_dual_stereo) bits zero zero zero x.(d_prev) x.(d_signalBandwidth);
  '(oldEBands, error) <~ quant_fine_energy m.(nbEBands) start end_ oldEBands error a.(ebits) C;
  dec_ret ({| s_tf_res := tf_res; s_spread := default SPREAD_NORMAL spread; s_boosts := boosts;
              s_trim := trim; s_anti_collapse_rsv := rsv; s_alloc := a; s_energies := oldEBands |}, (error, spread)).

Definition side_decode (isTransient : bool) (oldEBands : list Z) : D -> side * D :=
  tf_res <~ tf_decode (nbands start end_) isTransient LM;
  spread <~ spread_decode (nbBytes * 8);
  let cap := init_caps m (Z.of_nat LM) C in
  let total_bits := Z.shiftl (nbBytes * 8) BITRES in
  tell <~ read ec_tell_frac_dec;
  '(boosts, total_bits, tell) <~
    dyn_dec_bands m C (Z.of_nat LM) cap (nbands start end_) start 6 total_bits tell;
  trim <~ trim_decode tell total_bits;
  tell <~ read ec_tell_frac_dec;
  let '(bits, rsv) := alloc_budget nbBytes tell isTransient (Z.of_nat LM) in
  let zero := repeat 0 (Z.to_nat m.(nbEBands)) in
  a <~ clt_compute_allocation m start end_ C (Z.of_nat LM) dec_port (from_start start boosts) cap trim
         0 false bits zero zero zero 0 0;
  oldEBands <~ unquant_fine_energy m.(nbEBands) start end_ oldEBands a.(ebits) C;
  dec_ret {| s_tf_res := tf_res; s_spread := spread; s_boosts := boosts; s_trim := trim;
             s_anti_collapse_rsv := rsv; s_alloc := a; s_energies := oldEBands |}.
End Frame.
End Side.
