(* ===== verification/CeltSideProofs.v ===== *)
(** * The decoder follows the side information

    Each part of the side information is in [sync] with its decoder: both count
    the same bits, take the same branches, and end with the same values. *)

From S2P Require Import Prelude RangeCoder EntropyInterface EntropySeq CeltMode QuantBands Rate RateProofs CeltSide.

Section Sync.
Context `{EntropyCoder E D}.

Definition is_bit (x : Z) : Prop := x = 0 \/ x = 1.

(** A bit, then a part that starts with the position. *)
Lemma sync_bit_tell {A} b logp (K : Z -> E -> A * E) (K' : bool -> Z -> D -> A * D) :
  1 <= logp <= 16 -> (forall t, sync (K t) (K' b t)) ->
  sync (fun s => K (ec_tell_enc (ec_enc_bit_logp b logp s)) (ec_enc_bit_logp b logp s))
       (fun s => let '(x, s) := ec_dec_bit_logp logp s in K' x (ec_tell_dec s) s).
Proof.
  intros Hl HK. apply (codes_then (ec_enc_bit_logp b logp) (ec_dec_bit_logp logp) b
    (fun s => K (ec_tell_enc s) s) (fun x s => K' x (ec_tell_dec s) s)); [by apply codes_bit_logp|].
  by apply sync_with_tell.
Qed.

Lemma sync_bit_tell_frac {A} b logp (K : Z -> E -> A * E) (K' : bool -> Z -> D -> A * D) :
  1 <= logp <= 16 -> (forall t, sync (K t) (K' b t)) ->
  sync (fun s => K (ec_tell_frac_enc (ec_enc_bit_logp b logp s)) (ec_enc_bit_logp b logp s))
       (fun s => let '(x, s) := ec_dec_bit_logp logp s in K' x (ec_tell_frac_dec s) s).
Proof.
  intros Hl HK. apply (codes_then (ec_enc_bit_logp b logp) (ec_dec_bit_logp logp) b
    (fun s => K (ec_tell_frac_enc s) s) (fun x s => K' x (ec_tell_frac_dec s) s)); [by apply codes_bit_logp|].
  by apply sync_with_tell_frac.
Qed.

(** ** Time-frequency flags *)

Lemma tf_flag t curr : is_bit t -> is_bit curr -> Z.lxor curr (b2z (negb (Z.lxor t curr =? 0))) = t.
Proof. intros [-> | ->] [-> | ->]; reflexivity. Qed.

Lemma sync_tf_loop tr budget l : forall curr ch logp tell,
  Forall is_bit l -> is_bit curr -> 1 <= logp <= 16 ->
  sync (tf_enc_loop l tr budget curr ch logp tell) (tf_dec_loop (length l) tr budget curr ch logp tell).
Proof.
  induction l as [|t l IH]; intros curr ch logp tell Hl Hc Hlogp; cbn [tf_enc_loop tf_dec_loop length];
    [apply sync_ret|].
  apply Forall_cons_1 in Hl as [Ht Hl].
  assert (1 <= (if tr then 4 else 5) <= 16) as Hlp by (destruct tr; lia).
  set (lp := if tr then 4 else 5) in *.
  assert (forall t curr ch tell, is_bit curr ->
    sync (fun s => let '((r, ch), s) := tf_enc_loop l tr budget curr ch lp tell s in ((t :: r, ch), s))
         (fun s => let '((r, ch), s) := tf_dec_loop (length l) tr budget curr ch lp tell s in ((t :: r, ch), s))) as Hrest.
  { intros t' curr' ch' tell' Hc'.
    eapply sync_ext; [| |apply (sync_bind _ (fun x s => ((t' :: x.1, x.2), s)) _ (fun x s => ((t' :: x.1, x.2), s))
      (IH curr' ch' lp tell' Hl Hc' Hlp)); intros; apply sync_ret].
    - intros s. cbv beta. by destruct (tf_enc_loop _ _ _ _ _ _ _ _) as [[r c] s'].
    - intros s. cbv beta. by destruct (tf_dec_loop _ _ _ _ _ _ _ _) as [[r c] s']. }
  destruct (u32 (tell + logp) <=? budget); [|by apply Hrest].
  set (b := negb (Z.lxor t curr =? 0)).
  eapply sync_ext; [| |apply (sync_bit_tell b logp
    (fun tl s => let '((r, ch), s) := tf_enc_loop l tr budget t (Z.lor ch t) lp (u32 tl) s in ((t :: r, ch), s))
    (fun x tl s => let curr := Z.lxor curr (b2z x) in
       let '((r, ch), s) := tf_dec_loop (length l) tr budget curr (Z.lor ch curr) lp (u32 tl) s in ((curr :: r, ch), s)) Hlogp)].
  - done.
  - intros s. cbv beta zeta. by destruct (ec_dec_bit_logp logp s).
  - intros tl. cbv beta zeta. unfold b. rewrite (tf_flag t curr Ht Hc). by apply Hrest.
Qed.

(** The flags and the choice of the table, from the packet size [n] and the
    position [t] on. *)
Definition tf_enc_from (n t : Z) (tr : bool) (l : list Z) (LM : nat) (sel : bool) (s : E) : list Z * E :=
  let logp := if tr then 2 else 4 in
  let rsv := tf_select_rsv LM logp (u32 (n * 8)) (u32 t) in
  let '((r, ch), s) := tf_enc_loop l tr (u32 (u32 (n * 8) - b2z rsv)) 0 0 logp (u32 t) s in
  let '(sel, s) := if rsv && tf_differs LM tr ch then (sel, ec_enc_bit_logp sel 1 s) else (false, s) in
  (map (fun t => tf_table LM tr (2 * b2z sel + t)) r, s).

Definition tf_dec_from (n t : Z) (tr : bool) (k : nat) (LM : nat) (s : D) : list Z * D :=
  let logp := if tr then 2 else 4 in
  let rsv := tf_select_rsv LM logp (u32 (n * 8)) (u32 t) in
  let '((r, ch), s) := tf_dec_loop k tr (u32 (u32 (n * 8) - b2z rsv)) 0 0 logp (u32 t) s in
  let '(sel, s) := if rsv && tf_differs LM tr ch then ec_dec_bit_logp 1 s else (false, s) in
  (map (fun t => tf_table LM tr (2 * b2z sel + t)) r, s).

Lemma sync_tf_from n t tr l LM sel :
  Forall is_bit l -> sync (tf_enc_from n t tr l LM sel) (tf_dec_from n t tr (length l) LM).
Proof.
  intros Hl. unfold tf_enc_from, tf_dec_from. cbv zeta.
  set (logp := if tr then 2 else 4). assert (1 <= logp <= 16) as Hlp by (subst logp; destruct tr; lia).
  set (rsv := tf_select_rsv LM logp (u32 (n * 8)) (u32 t)). set (budget := u32 (_ - b2z rsv)).
  eapply sync_ext; [| |apply (sync_bind (tf_enc_loop l tr budget 0 0 logp (u32 t))
    (fun x s => let '(sel, s) := if rsv && tf_differs LM tr x.2 then (sel, ec_enc_bit_logp sel 1 s) else (false, s) in
                (map (fun t => tf_table LM tr (2 * b2z sel + t)) x.1, s))
    (tf_dec_loop (length l) tr budget 0 0 logp (u32 t))
    (fun x s => let '(sel, s) := if rsv && tf_differs LM tr x.2 then ec_dec_bit_logp 1 s else (false, s) in
                (map (fun t => tf_table LM tr (2 * b2z sel + t)) x.1, s)))].
  - intros s. cbv beta. by destruct (tf_enc_loop _ _ _ _ _ _ _ _) as [[r c] s'].
  - intros s. cbv beta. by destruct (tf_dec_loop _ _ _ _ _ _ _ _) as [[r c] s'].
  - apply sync_tf_loop; [done|by left|done].
  - intros s. destruct (tf_enc_loop _ _ _ _ _ _ _ _) as [[r c] s']. cbn [fst snd].
    destruct (rsv && _); [|apply sync_ret].
    apply (codes_then (ec_enc_bit_logp sel 1) (ec_dec_bit_logp 1) sel
      (fun s => (map (fun t => tf_table LM tr (2 * b2z sel + t)) r, s))
      (fun x s => (map (fun t => tf_table LM tr (2 * b2z x + t)) r, s)));
      [apply codes_bit_logp; lia|apply sync_ret].
Qed.

Lemma sync_tf tr l LM sel :
  Forall is_bit l -> sync (tf_encode tr l LM sel) (tf_decode (length l) tr LM).
Proof.
  intros Hl. apply (sync_with_storage (fun n s => tf_enc_from n (ec_tell_enc s) tr l LM sel s)
    (fun n s => tf_dec_from n (ec_tell_dec s) tr (length l) LM s)). intros n.
  apply (sync_with_tell (fun t s => tf_enc_from n t tr l LM sel s) (fun t s => tf_dec_from n t tr (length l) LM s)).
  intros t. by apply sync_tf_from.
Qed.

(** ** Spread and trim *)

Lemma sync_spread total_bits spread :
  0 <= spread < 4 ->
  sync (fun s => (default SPREAD_NORMAL (spread_encode total_bits spread s).1, (spread_encode total_bits spread s).2))
       (spread_decode total_bits).
Proof.
  intros Hs. unfold spread_encode, spread_decode.
  eapply sync_ext; [| |apply (sync_with_tell
    (fun t s => if t + 4 <=? total_bits then (spread, ec_enc_icdf spread spread_icdf 5 s) else (SPREAD_NORMAL, s))
    (fun t s => if t + 4 <=? total_bits then ec_dec_icdf spread_icdf 5 s else (SPREAD_NORMAL, s)))].
  - intros s. cbv beta. by destruct (_ <=? _).
  - done.
  - intros t. destruct (_ <=? _); [|apply sync_ret]. apply codes_icdf; [lia|done|].
    apply (zforall_spec 4 0 (icdf_codable spread_icdf 5)); [reflexivity|lia].
Qed.

Lemma sync_trim tell room trim : 0 <= trim < 11 -> sync (trim_encode tell room trim) (trim_decode tell room).
Proof.
  intros Ht. unfold trim_encode, trim_decode. destruct (_ <=? _); [|apply sync_ret].
  apply codes_icdf; [lia|done|]. apply (zforall_spec 11 0 (icdf_codable trim_icdf 7)); [reflexivity|lia].
Qed.

(** ** Dynamic allocation *)

(** What the decoder keeps of a band: the boost, the bits left and the position. *)
Definition band_view (total_bits : Z) (x : Z * Z * Z * Z) : Z * Z * Z :=
  let '(boost, _, total_boost, tell) := x in (boost, total_bits - total_boost, tell).

Lemma sync_dyn_band cap quanta total_bits offset n : forall j logp boost total_boost tell,
  1 <= logp <= 16 ->
  sync (fun s => (band_view total_bits (dyn_enc_band n cap quanta total_bits offset j logp boost total_boost tell s).1,
                  (dyn_enc_band n cap quanta total_bits offset j logp boost total_boost tell s).2))
       (dyn_dec_band n cap quanta logp boost (total_bits - total_boost) tell).
Proof.
  induction n as [|n IH]; intros j logp boost total_boost tell Hlogp; cbn [dyn_enc_band dyn_dec_band];
    [exact (sync_ret (boost, total_bits - total_boost, tell))|].
  destruct (_ && _); [|exact (sync_ret (boost, total_bits - total_boost, tell))].
  set (flag := j <? offset).
  eapply sync_ext; [| |apply (sync_bit_tell_frac flag logp
    (fun tl s => if negb flag then ((boost, total_bits - total_boost, tl), s)
       else (band_view total_bits (dyn_enc_band n cap quanta total_bits offset (j + 1) 1 (boost + quanta) (total_boost + quanta) tl s).1,
             (dyn_enc_band n cap quanta total_bits offset (j + 1) 1 (boost + quanta) (total_boost + quanta) tl s).2))
    (fun x tl s => if negb x then ((boost, total_bits - total_boost, tl), s)
       else dyn_dec_band n cap quanta 1 (boost + quanta) (total_bits - total_boost - quanta) tl s) Hlogp)].
  - intros s. cbv beta. by destruct flag.
  - done.
  - intros tl. destruct flag; cbn [negb]; [|apply sync_ret].
    replace (total_bits - total_boost - quanta) with (total_bits - (total_boost + quanta)) by lia. apply IH. lia.
Qed.
(** A band was boosted if a step was made. *)
Lemma dyn_enc_band_steps cap quanta total_bits offset n : forall j logp boost total_boost tell s,
  boost = j * quanta -> 0 <= j ->
  let '(boost', j', _, _) := (dyn_enc_band n cap quanta total_bits offset j logp boost total_boost tell s).1 in
  boost' = j' * quanta /\ 0 <= j'.
Proof.
  induction n as [|n IH]; intros j logp boost total_boost tell s Hb Hj; cbn [dyn_enc_band]; [done|].
  destruct (_ && _); [|done]. destruct (j <? offset); cbn [negb]; [|done]. apply IH; lia.
Qed.

(** With [cap] rounds the loop has ended: more rounds change nothing. *)
Lemma dyn_enc_band_fuel cap quanta total_bits offset n k : forall j logp boost total_boost tell s,
  0 < quanta -> cap - boost <= Z.of_nat n ->
  dyn_enc_band (n + k) cap quanta total_bits offset j logp boost total_boost tell s
  = dyn_enc_band n cap quanta total_bits offset j logp boost total_boost tell s.
Proof.
  induction n as [|n IH]; intros j logp boost total_boost tell s Hq Hn; cbn [dyn_enc_band Nat.add].
  - destruct k as [|k]; [done|]. cbn [dyn_enc_band]. destruct (Z.ltb_spec boost cap); [lia|].
    by rewrite andb_false_r.
  - destruct (_ && _); [|done]. destruct (j <? offset); cbn [negb]; [|done]. apply IH; lia.
Qed.

Section Bands.
Context (m : CELTMode) (C LM : Z) (cap : list Z) (total_bits : Z).
Hypothesis (Hm : mode_ok m) (HC : 1 <= C) (HLM : 0 <= LM).

Lemma dyn_quanta_pos i : 0 <= i < m.(nbEBands) -> 0 < dyn_quanta m C LM i.
Proof.
  intros Hi. pose proof (mo_width m Hm i Hi). unfold dyn_quanta, BITRES. cbv zeta.
  rewrite !(Z.shiftl_mul_pow2 _ 3), Z.shiftl_mul_pow2 by lia.
  assert (0 < C * width m i * 2 ^ LM) by (apply Z.mul_pos_pos; [nia|apply Z.pow_pos_nonneg; lia]). lia.
Qed.

Definition bands_view (x : list Z * Z * Z) : list Z * Z * Z :=
  let '(boosts, total_boost, tell) := x in (boosts, total_bits - total_boost, tell).

Lemma sync_dyn_bands offsets : forall i logp total_boost tell,
  0 <= i -> i + len offsets <= m.(nbEBands) -> 2 <= logp <= 6 ->
  sync (fun s => (bands_view (dyn_enc_bands m C LM cap total_bits offsets i logp total_boost tell s).1,
                  (dyn_enc_bands m C LM cap total_bits offsets i logp total_boost tell s).2))
       (dyn_dec_bands m C LM cap (length offsets) i logp (total_bits - total_boost) tell).
Proof.
  induction offsets as [|o offsets IH]; intros i logp tb tell Hi Hl Hlogp; cbn [dyn_enc_bands dyn_dec_bands length];
    [exact (sync_ret ([], total_bits - tb, tell))|].
  assert (1 + len offsets = len (o :: offsets)) as El by (unfold len; cbn [length]; lia).
  pose proof (dyn_quanta_pos i ltac:(unfold len in *; lia)) as Hq.
  set (band := dyn_enc_band (dyn_rounds cap.[i]) cap.[i] (dyn_quanta m C LM i) total_bits o 0 logp 0 tb tell).
  set (next := fun (p : bool) => if p then Z.max 2 (logp - 1) else logp).
  eapply sync_ext; [| |apply (sync_bind_proj (band_view total_bits) band
    (fun '(boost, j, tb, tell) s =>
       let r := dyn_enc_bands m C LM cap total_bits offsets (i + 1) (next (negb (j =? 0))) tb tell s in
       (let '(l, lft, tell) := bands_view r.1 in (boost :: l, lft, tell), r.2))
    (dyn_dec_band (dyn_rounds cap.[i]) cap.[i] (dyn_quanta m C LM i) logp 0 (total_bits - tb) tell)
    (fun '(boost, lft, tell) s =>
       let '((l, lft, tell), s) := dyn_dec_bands m C LM cap (length offsets) (i + 1) (next (boost >? 0)) lft tell s in
       ((boost :: l, lft, tell), s)))].
  - intros s. cbv beta. destruct (band s) as [[[[boost j] tb'] tell'] s1]. cbv zeta. unfold next.
    destruct (dyn_enc_bands _ _ _ _ _ _ _ _ _ _ _) as [[[l tb2] tell2] s2]. done.
  - intros s. cbv beta. destruct (dyn_dec_band _ _ _ _ _ _ _ _) as [[[boost lft] tell'] s1]. done.
  - apply sync_dyn_band. lia.
  - intros s. pose proof (dyn_enc_band_steps cap.[i] (dyn_quanta m C LM i) total_bits o (dyn_rounds cap.[i])
      0 logp 0 tb tell s ltac:(lia) ltac:(lia)) as Hs. fold band in Hs.
    destruct (band s) as [[[[boost j] tb'] tell'] s1]. cbn [fst band_view] in *. destruct Hs as [Hs1 Hs2].
    replace (boost >? 0) with (negb (j =? 0)).
    2: { destruct (Z.eqb_spec j 0), (Z.gtb_spec boost 0); try done; nia. }
    assert (2 <= next (negb (j =? 0)) <= 6) as Hn by (unfold next; destruct (negb _); lia).
    eapply sync_ext; [| |apply (sync_bind _ (fun x s => ((boost :: x.1.1, x.1.2, x.2), s)) _
      (fun x s => ((boost :: x.1.1, x.1.2, x.2), s))
      (IH (i + 1) (next (negb (j =? 0))) tb' tell' ltac:(lia) ltac:(lia) Hn)); intros; apply sync_ret].
    + intros s2. cbv beta. by destruct (dyn_enc_bands _ _ _ _ _ _ _ _ _ _ _) as [[[l tb2] tell2] s3].
    + intros s2. cbv beta. by destruct (dyn_dec_bands _ _ _ _ _ _ _ _ _ _) as [[[l tb2] tell2] s3].
Qed.
End Bands.

(** ** The whole *)

Lemma dyn_enc_bands_spec m C LM cap total_bits offsets : forall i logp tb tell s,
  mode_ok m -> 1 <= C -> 0 <= LM -> 0 <= i -> i + len offsets <= m.(nbEBands) ->
  Forall (fun b => 0 <= b) (dyn_enc_bands m C LM cap total_bits offsets i logp tb tell s).1.1.1.
Proof.
  induction offsets as [|o offsets IH]; intros i logp tb tell s Hm HC HLM Hi Hl; cbn [dyn_enc_bands]; [constructor|].
  assert (1 + len offsets = len (o :: offsets)) as El by (unfold len; cbn [length]; lia).
  pose proof (dyn_quanta_pos m C LM Hm HC HLM i ltac:(unfold len in *; lia)) as Hq.
  pose proof (dyn_enc_band_steps cap.[i] (dyn_quanta m C LM i) total_bits o (dyn_rounds cap.[i])
      0 logp 0 tb tell s ltac:(lia) ltac:(lia)) as Hs.
  destruct (dyn_enc_band _ _ _ _ _ _ _ _ _ _ _) as [[[[boost j] tb'] tell'] s1]. cbn [fst] in Hs.
  set (lp := if negb (j =? 0) then _ else _). specialize (IH (i + 1) lp tb' tell' s1 Hm HC HLM ltac:(lia) ltac:(lia)).
  destruct (dyn_enc_bands _ _ _ _ _ _ _ _ _ _ _) as [[[l tb2] tell2] s2]. constructor; [nia|done].
Qed.

Lemma init_caps_nonneg m LM C i :
  (forall k, 0 <= m.(cache).(cache_caps).[k]) -> mode_ok m -> 0 <= LM -> 1 <= C -> 0 <= (init_caps m LM C).[i].
Proof.
  intros Hcap Hm HLM HC. apply (rd_Forall (fun c => 0 <= c)); [done|]. unfold init_caps.
  apply List.Forall_forall. intros x Hx. apply in_map_iff in Hx as (k & <- & Hk). apply in_seq in Hk.
  apply Z.shiftr_nonneg. specialize (Hcap (nbEBands m * (2 * LM + C - 1) + Z.of_nat k)).
  pose proof (mo_width m Hm (Z.of_nat k) ltac:(lia)) as Hw. rewrite Z.shiftl_mul_pow2 by lia.
  apply Z.mul_nonneg_nonneg; [nia|]. apply Z.mul_nonneg_nonneg; [lia|apply Z.pow_nonneg; lia].
Qed.

(** The decisions are in the range of what can be coded. *)
Record decisions_ok (start end_ : Z) (x : decisions) : Prop := {
  do_tf_len : length x.(d_tf_res) = nbands start end_;
  do_tf : Forall is_bit x.(d_tf_res);
  do_spread : 0 <= x.(d_spread) < 4;
  do_offsets : length x.(d_offsets) = nbands start end_;
  do_trim : 0 <= x.(d_trim) < 11;
  do_intensity : start <= x.(d_intensity)
}.

Lemma sync_side m start end_ C LM nbBytes x old error :
  mode_ok m -> (forall k, 0 <= m.(cache).(cache_caps).[k]) ->
  0 <= start < end_ /\ end_ <= m.(nbEBands) /\ end_ - start <= 23 -> C = 1 \/ C = 2 ->
  0 <= nbBytes <= 1275 -> decisions_ok start end_ x ->
  sync (view fst (side_encode m start end_ C LM nbBytes x old error))
       (side_decode m start end_ C LM nbBytes x.(d_isTransient) old).
Proof.
  intros Hm Hcaps Hb HC Hn [X1 X2 X3 X4 X5 X6]. unfold side_encode, side_decode. rewrite <- X1 at 1.
  apply (sync_view_bind (fun r => r)); [by apply sync_view, sync_tf|]. intros s1.
  apply (sync_view_bind (default SPREAD_NORMAL)); [by apply sync_spread|]. intros s2. cbv zeta.
  set (cap := init_caps m (Z.of_nat LM) C). set (total_bits := Z.shiftl (nbBytes * 8) BITRES).
  apply (sync_view_bind (fun t => t)); [exact sync_tell_frac|]. intros s3.
  assert (start + len x.(d_offsets) = end_) as Hlen by (unfold len; rewrite X4; unfold nbands; lia).
  apply (sync_view_bind (bands_view total_bits)).
  { pose proof (sync_dyn_bands m C (Z.of_nat LM) cap total_bits Hm ltac:(lia) ltac:(lia) x.(d_offsets) start 6 0
      (read ec_tell_frac_enc s3).1 ltac:(lia) ltac:(lia) ltac:(lia)) as Hd.
    rewrite X4, Z.sub_0_r in Hd. exact Hd. }
  intros s4. pose proof (dyn_enc_bands_spec m C (Z.of_nat LM) cap total_bits x.(d_offsets) start 6 0
      (read ec_tell_frac_enc s3).1 s4 Hm ltac:(lia) ltac:(lia) ltac:(lia) ltac:(lia)) as Hboost.
  destruct (dyn_enc_bands _ _ _ _ _ _ _ _ _ _ s4) as [[[boosts tb] tell] s5]. cbn [fst bands_view] in *.
  apply (sync_view_bind (fun t => t)); [by apply sync_view, sync_trim|]. intros s6.
  apply (sync_view_bind (fun t => t)); [exact sync_tell_frac|]. intros s7.
  pose proof (tell_frac_nonneg s7) as Ht. change (read ec_tell_frac_enc s7).1 with (ec_tell_frac_enc s7).
  destruct (alloc_budget nbBytes (ec_tell_frac_enc s7) (d_isTransient x) (Z.of_nat LM)) as [bits rsv] eqn:Ebud.
  assert (bits < 2 ^ 30) as Hbits.
  { unfold alloc_budget, BITRES in Ebud. rewrite !Z.shiftl_mul_pow2 in Ebud by lia. injection Ebud as <- <-.
    destruct (_ && _); lia. }
  assert (forall j, 0 <= (from_start start boosts).[j]) as Hoff.
  { intros j. apply (rd_Forall (fun b => 0 <= b)); [done|]. unfold from_start. apply Forall_app. split; [|done].
    apply List.Forall_forall. intros y Hy. apply repeat_spec in Hy. lia. }
  set (zero := repeat 0 (Z.to_nat (nbEBands m))).
  apply (sync_view_bind (fun a => a)); [apply sync_view, sync_allocation; lia|]. intros s8.
  assert (len zero = nbEBands m) as Hz by (unfold len, zero; rewrite repeat_length; lia).
  pose proof (allocation_accounts enc_port m start end_ C (Z.of_nat LM) (from_start start boosts) cap
    (trim_encode tell (total_bits - tb) (d_trim x) s6).1 x.(d_intensity) x.(d_dual_stereo) bits zero zero zero
    x.(d_prev) x.(d_signalBandwidth) s8 Hm Hb HC ltac:(lia) ltac:(unfold room; lia) Hbits) as Hacc.
  cbv beta zeta in Hacc. specialize (Hacc ltac:(intros j Hj; split; [by apply Hoff|apply init_caps_nonneg; (done || lia)])).
  revert Hacc. destruct (clt_compute_allocation _ _ _ _ _ enc_port _ _ _ _ _ _ _ _ _ _ _ s8) as [a s9].
  intros (k & _ & _ & Hband & _).
  cbn [fst]. apply (sync_view_bind fst).
  { apply sync_fine_coded. intros i Hi. destruct (Hband i Hi) as (_ & [_ He] & _). done. }
  intros s10. destruct (quant_fine_energy _ _ _ _ _ _ _ s10) as [[old' error'] s11].
  exact (sync_view_ret fst _).
Qed.
End Sync.

Lemma mode48000_caps k : 0 <= mode48000_960_120.(cache).(cache_caps).[k].
Proof.
  apply rd_Forall; [done|]. apply List.Forall_forall. intros x Hx.
  apply Z.leb_le. revert x Hx. apply forallb_forall. vm_compute. reflexivity.
Qed.
