(* ===== verification/Vq.v ===== *)
(** * Pyramid vector quantisation of a band (celt/vq.c)

    The rotation that spreads the pulses, the search for the pulse vector
    nearest to a direction, its coding, and the way back to a unit vector, in
    the FIXED_POINT build. *)

From S2P Require Import Prelude RangeCoder EntropyInterface EntropySeq EntCode CwrsTable Cwrs FixedPoint MathOps.

(** ** Parts of an array *)

(** The [n] elements of the array from [&l[off]] on, and an array after
    [OPUS_COPY(&l[off], src, ...)]. *)
Definition slice (l : list Z) (off n : Z) : list Z := take (Z.to_nat n) (drop (Z.to_nat off) l).
Definition splice (l : list Z) (off : Z) (src : list Z) : list Z :=
  take (Z.to_nat off) l ++ src ++ drop (Z.to_nat off + length src) l.

(** [for (i=0;i<n;i++) f(i)] on a state. *)
Definition for_upto {S : Type} (n : Z) (f : S -> Z -> S) (s : S) : S :=
  fold_left (fun s i => f s (Z.of_nat i)) (seq 0 (Z.to_nat n)) s.
(** [for (i=n-1;i>=0;i--) f(i)] *)
Definition for_downfrom {S : Type} (n : Z) (f : S -> Z -> S) (s : S) : S :=
  fold_left (fun s i => f s (Z.of_nat i)) (rev (seq 0 (Z.to_nat n))) s.

(** ** Rotation *)

Definition rotate_pair (stride c s ms : Z) (X : list Z) (i : Z) : list Z :=
  let x1 := X.[i] in
  let x2 := X.[i + stride] in
  X.[i + stride <- EXTRACT16 (PSHR32 (MAC16_16 (MULT16_16 c x2) s x1) 15)]
   .[i <- EXTRACT16 (PSHR32 (MAC16_16 (MULT16_16 c x1) ms x2) 15)].

Definition exp_rotation1 (X : list Z) (len stride c s : Z) : list Z :=
  let ms := i16 (- s) in
  let X := for_upto (len - stride) (rotate_pair stride c s ms) X in
  for_downfrom (len - 2 * stride) (rotate_pair stride c s ms) X.

Definition SPREAD_NONE : Z := 0.
Definition SPREAD_AGGRESSIVE : Z := 3.
Definition SPREAD_FACTOR : list Z := [15; 10; 5].

(** [while ((stride2*stride2+stride2)*stride + (stride>>2) < len) stride2++;]
    The left side grows with every round, so [len] rounds are enough. *)
Definition rotation_stride2 (len stride : Z) : Z :=
  if len >=? 8 * stride then
    while_fuel (Z.to_nat len)
      (fun stride2 => (stride2 * stride2 + stride2) * stride + Z.shiftr stride 2 <? len)
      (fun stride2 => stride2 + 1) 1
  else 0.

Definition exp_rotation (X : list Z) (len dir stride K spread : Z) : list Z :=
  if (2 * K >=? len) || (spread =? SPREAD_NONE) then X
  else
    let factor := SPREAD_FACTOR.[spread - 1] in
    let gain := i16 (celt_div (MULT16_16 Q15ONE len) (len + factor * K)) in
    let theta := i16 (HALF16 (MULT16_16_Q15 gain gain)) in
    let c := celt_cos_norm (EXTEND32 theta) in
    let s := celt_cos_norm (EXTEND32 (SUB16 Q15ONE theta)) in
    let stride2 := rotation_stride2 len stride in
    let len := celt_udiv len stride in
    for_upto stride (fun X i =>
      let x := slice X (i * len) len in
      splice X (i * len)
        (if dir <? 0 then
           let x := if negb (stride2 =? 0) then exp_rotation1 x len stride2 s c else x in
           exp_rotation1 x len 1 c s
         else
           let x := exp_rotation1 x len 1 c (i16 (- s)) in
           if negb (stride2 =? 0) then exp_rotation1 x len stride2 s (i16 (- c)) else x)) X.

(** ** From pulses to a unit vector *)

(** What [normalise_residual] stores into [X]. *)
Definition normalise_residual (iy : list Z) (Ryy gain : Z) : list Z :=
  let k := Z.shiftr (celt_ilog2 Ryy) 1 in
  let t := VSHR32 Ryy (2 * (k - 7)) in
  let g := i16 (MULT16_16_P15 (celt_rsqrt_norm t) gain) in
  map (fun y => EXTRACT16 (PSHR32 (MULT16_16 g y) (k + 1))) iy.

Definition extract_collapse_mask (iy : list Z) (N B : Z) : Z :=
  if B <=? 1 then 1
  else
    let N0 := celt_udiv N B in
    for_upto B (fun collapse_mask i =>
      let tmp := for_upto (Z.max 1 N0) (fun tmp j => Z.lor tmp (u32 iy.[i * N0 + j])) 0 in
      Z.lor collapse_mask (Z.shiftl (b2z (negb (tmp =? 0))) i)) 0.

(** ** The search *)

Definition celt_inner_prod (x y : list Z) : Z :=
  fold_left (fun xy '(a, b) => MAC16_16 xy a b) (combine x y) 0.

(** State of the search: [iy], [y] (twice the pulses, 16 bits wide), [xy], [yy] and [pulsesLeft]. *)
Record pvq_state := {
  pv_iy : list Z;
  pv_y : list Z;
  pv_xy : Z;
  pv_yy : Z;
  pv_left : Z
}.

(** The projection on the pyramid: one element. *)
Definition presearch_step (rcp : Z) (st : pvq_state) (x : Z) : pvq_state :=
  let iy := MULT16_16_Q15 x rcp in
  let y := i16 iy in
  {| pv_iy := st.(pv_iy) ++ [iy];
     pv_y := st.(pv_y) ++ [i16 (y * 2)];
     pv_xy := MAC16_16 st.(pv_xy) x y;
     pv_yy := i16 (MAC16_16 st.(pv_yy) y y);
     pv_left := st.(pv_left) - iy |}.

Definition presearch (X : list Z) (K N : Z) : list Z * pvq_state :=
  if K >? Z.shiftr N 1 then
    let sum := fold_left ADD32 X 0 in
    let '(X, sum) := if sum <=? K then (16384 :: repeat 0 (Z.to_nat (N - 1)), 16384) else (X, sum) in
    let rcp := EXTRACT16 (MULT16_32_Q16 K (celt_rcp sum)) in
    (X, fold_left (presearch_step rcp) X
          {| pv_iy := []; pv_y := []; pv_xy := 0; pv_yy := 0; pv_left := K |})
  else
    let zero := repeat 0 (Z.to_nat N) in
    (X, {| pv_iy := zero; pv_y := zero; pv_xy := 0; pv_yy := 0; pv_left := K |}).

(** [if (pulsesLeft > N+3)]: all that is left goes to the first position. *)
Definition dump_pulses (N : Z) (st : pvq_state) : pvq_state :=
  if st.(pv_left) >? N + 3 then
    let tmp := i16 st.(pv_left) in
    let yy := i16 (MAC16_16 st.(pv_yy) tmp tmp) in
    {| pv_iy := st.(pv_iy).[0 <- st.(pv_iy).[0] + st.(pv_left)];
       pv_y := st.(pv_y);
       pv_xy := st.(pv_xy);
       pv_yy := i16 (MAC16_16 yy tmp st.(pv_y).[0]);
       pv_left := 0 |}
  else st.

(** The score [(Rxy, Ryy)] of one more pulse at position [j]. *)
Definition pulse_score (X : list Z) (st : pvq_state) (yy rshift j : Z) : Z * Z :=
  let Rxy := EXTRACT16 (SHR32 (ADD32 st.(pv_xy) (EXTEND32 X.[j])) rshift) in
  (i16 (MULT16_16_Q15 Rxy Rxy), ADD16 yy st.(pv_y).[j]).

(** [best_num], [best_den] and [best_id] after position [j]. *)
Definition better_pulse (X : list Z) (st : pvq_state) (yy rshift : Z) (best : Z * Z * Z) (j : Z) : Z * Z * Z :=
  let '(best_num, best_den, best_id) := best in
  let '(Rxy, Ryy) := pulse_score X st yy rshift j in
  if MULT16_16 best_den Rxy >? MULT16_16 Ryy best_num then (Rxy, Ryy, j) else best.

Definition best_pulse (X : list Z) (st : pvq_state) (yy rshift N : Z) : Z :=
  let '(num, den) := pulse_score X st yy rshift 0 in
  (fold_left (better_pulse X st yy rshift) (map Z.of_nat (seq 1 (Z.to_nat (N - 1)))) (num, den, 0)).2.

(** One round of the greedy search; [i] counts the rounds. *)
Definition add_pulse (X : list Z) (K N pulsesLeft : Z) (st : pvq_state) (i : Z) : pvq_state :=
  let rshift := 1 + celt_ilog2 (K - pulsesLeft + i + 1) in
  let yy := ADD16 st.(pv_yy) 1 in
  let id := best_pulse X st yy rshift N in
  {| pv_iy := st.(pv_iy).[id <- st.(pv_iy).[id] + 1];
     pv_y := st.(pv_y).[id <- i16 (st.(pv_y).[id] + 2)];
     pv_xy := ADD32 st.(pv_xy) (EXTEND32 X.[id]);
     pv_yy := ADD16 yy st.(pv_y).[id];
     pv_left := st.(pv_left) |}.

(** The function leaves the magnitudes in [X]; it returns the pulses [iy] and their energy. *)
Definition op_pvq_search_c (X : list Z) (K N : Z) : list Z * (list Z * Z) :=
  let signx := map (fun x => b2z (x <? 0)) X in
  let X := map (fun x => i16 (ABS16 x)) X in
  let '(X, st) := presearch X K N in
  let st := dump_pulses N st in
  let st := for_upto st.(pv_left) (add_pulse X K N st.(pv_left)) st in
  (X, (map (fun '(iy, s) => Z.lxor iy (- s) + s) (combine st.(pv_iy) signx), st.(pv_yy))).

(** ** Coding

    [op_pvq_search] is one of several functions, chosen for the processor;
    [op_pvq_search_c] is the portable one. *)

Section Coding.
Context (op_pvq_search : list Z -> Z -> Z -> list Z * (list Z * Z)).
Context `{EntropyCoder E D}.

(** [X] afterwards and the collapse mask. *)
Definition alg_quant (X : list Z) (N K spread B gain : Z) (resynth : bool) (enc : E) : (list Z * Z) * E :=
  let X := exp_rotation X N 1 B K spread in
  let '(X, (iy, yy)) := op_pvq_search X K N in
  let enc := encode_pulses false iy N K enc in
  let X := if resynth then exp_rotation (normalise_residual iy yy gain) N (-1) B K spread else X in
  ((X, extract_collapse_mask iy N B), enc).

Definition alg_unquant (N K spread B gain : Z) (dec : D) : (list Z * Z) * D :=
  let '((iy, Ryy), dec) := decode_pulses false N K dec in
  let X := exp_rotation (normalise_residual iy Ryy gain) N (-1) B K spread in
  ((X, extract_collapse_mask iy N B), dec).
End Coding.
