(* ===== verification/VqProofs.v ===== *)
(** * The search returns a pulse vector

    [op_pvq_search_c] places exactly [K] pulses and returns their energy, for
    every band whose coefficients are symmetric 16-bit numbers: the projection
    never takes more pulses than there are, and no 16-bit sum wraps. *)

From S2P Require Import Prelude RangeCoder EntropyInterface EntropySeq EntCode CwrsTable Cwrs CwrsProps FixedPoint MathOps Vq.

(** ** Sums over a vector *)

Lemma pulses_app a b : pulses (a ++ b) = pulses a + pulses b.
Proof. induction a as [|x a IH]; cbn; [done|]. unfold pulses in *. lia. Qed.
Lemma energy_app a b : energy (a ++ b) = energy a + energy b.
Proof. induction a as [|x a IH]; cbn; [done|]. unfold energy in *. lia. Qed.

Lemma energy_bound y : 0 <= energy y <= pulses y * pulses y.
Proof.
  induction y as [|x y IH]; cbn; [lia|]. pose proof (pulses_nonneg y). unfold energy, pulses in *.
  set (e := foldr _ 0 y) in *. set (p := foldr _ 0 y) in *. nia.
Qed.

(** A vector around one of its positions. *)
Lemma wr_split (y : list Z) i v :
  0 <= i < len y ->
  y.[i <- v] = take (Z.to_nat i) y ++ v :: drop (S (Z.to_nat i)) y /\
  y = take (Z.to_nat i) y ++ y.[i] :: drop (S (Z.to_nat i)) y.
Proof.
  unfold len, wr, rd. destruct (Z.ltb_spec i 0); [lia|]. intros Hi. split.
  - apply insert_take_drop. lia.
  - symmetry. apply take_drop_middle. destruct (nth_lookup_or_length y (Z.to_nat i) 0); [done|lia].
Qed.

Lemma pulses_wr y i v : 0 <= i < len y -> pulses y.[i <- v] = pulses y - Z.abs y.[i] + Z.abs v.
Proof.
  intros Hi. destruct (wr_split y i v Hi) as [-> E]. apply (f_equal pulses) in E. rewrite pulses_app in *.
  cbn in *. unfold pulses in *. lia.
Qed.

Lemma energy_wr y i v : 0 <= i < len y -> energy y.[i <- v] = energy y - y.[i] * y.[i] + v * v.
Proof.
  intros Hi. destruct (wr_split y i v Hi) as [-> E]. apply (f_equal energy) in E. rewrite energy_app in *.
  cbn in *. unfold energy in *. lia.
Qed.

Lemma rd_le_pulses y i : Z.abs y.[i] <= pulses y.
Proof.
  unfold rd. destruct (i <? 0); [pose proof (pulses_nonneg y); lia|]. generalize (Z.to_nat i) as n.
  induction y as [|x y IH]; intros [|n]; cbn; try lia; pose proof (pulses_nonneg y); unfold pulses in *; [lia|].
  specialize (IH n). lia.
Qed.

Lemma rd_map_double l i : (map (fun a => a * 2) l).[i] = l.[i] * 2.
Proof.
  unfold rd. destruct (i <? 0); [done|]. generalize (Z.to_nat i) as n.
  induction l as [|x l IH]; intros [|n]; cbn; auto.
Qed.

Lemma map_double_wr l i v : (map (fun a => a * 2) l).[i <- v * 2] = map (fun a => a * 2) l.[i <- v].
Proof. unfold wr. destruct (i <? 0); [done|]. exact (eq_sym (list_fmap_insert (fun a => a * 2) l (Z.to_nat i) v)). Qed.

(** ** The state of the search *)

Section Search.
Context (K N : Z).
Hypothesis (HK : 1 <= K <= 128) (HN : 2 <= N <= 2 ^ 15).

Record pv_ok (st : pvq_state) : Prop := {
  ok_len : len st.(pv_iy) = N;
  ok_nonneg : Forall (fun a => 0 <= a) st.(pv_iy);
  ok_y : st.(pv_y) = map (fun a => a * 2) st.(pv_iy);
  ok_yy : st.(pv_yy) = energy st.(pv_iy)
}.

Definition placed (st : pvq_state) : Z := pulses st.(pv_iy).

Lemma rd_nonneg l i : Forall (fun a => 0 <= a) l -> 0 <= rd l i.
Proof.
  intros Hl. unfold rd. destruct (i <? 0); [lia|]. generalize (Z.to_nat i) as n.
  induction Hl as [|x l Hx Hl IH]; intros [|n]; cbn; auto; lia.
Qed.

Lemma Forall_wr (P : Z -> Prop) l i v : Forall P l -> P v -> Forall P l.[i <- v].
Proof. intros Hl Hv. unfold wr. destruct (i <? 0); [done|]. by apply Forall_insert. Qed.

Lemma best_pulse_range X st yy rshift : 0 <= best_pulse X st yy rshift N < N.
Proof.
  unfold best_pulse. destruct (pulse_score X st yy rshift 0) as [num den].
  assert (forall l best, Forall (fun j => 0 <= j < N) l -> 0 <= best.2 < N ->
            0 <= (fold_left (better_pulse X st yy rshift) l best).2 < N) as Hf.
  { induction l as [|j l IH]; intros best Hl Hb; cbn; [done|]. apply Forall_cons_1 in Hl as [Hj Hl].
    apply IH; [done|]. unfold better_pulse. destruct best as [[bn bd] bi].
    destruct (pulse_score X st yy rshift j) as [rx ry]. by destruct (_ >? _). }
  apply Hf; [|cbn; lia]. apply List.Forall_forall. intros j Hj. apply in_map_iff in Hj as (n & <- & Hn%in_seq). lia.
Qed.

Lemma MAC16_16_exact c a b :
  - 2 ^ 15 < a < 2 ^ 15 -> - 2 ^ 15 <= b < 2 ^ 15 -> - 2 ^ 31 <= c + a * b < 2 ^ 31 -> MAC16_16 c a b = c + a * b.
Proof. intros Ha Hb Hc. unfold MAC16_16. by rewrite !i16_small, i32_small by lia. Qed.

Lemma add_pulse_ok X left st i :
  pv_ok st -> placed st < K ->
  pv_ok (add_pulse X K N left st i) /\ placed (add_pulse X K N left st i) = placed st + 1.
Proof.
  intros [Hl Hn Hy He] Hp. unfold add_pulse, placed in *.
  pose proof (best_pulse_range X st (ADD16 (pv_yy st) 1) (1 + celt_ilog2 (K - left + i + 1))) as Hid.
  set (id := best_pulse _ _ _ _ _) in *. clearbody id. cbn.
  pose proof (rd_nonneg (pv_iy st) id Hn). pose proof (rd_le_pulses (pv_iy st) id).
  pose proof (energy_bound (pv_iy st)). rewrite He, Hy, rd_map_double.
  assert (energy (pv_iy st) <= 127 * 127) by nia.
  rewrite (ADD16_exact (energy _) 1), ADD16_exact by lia.
  rewrite i16_small by lia. replace ((pv_iy st).[id] * 2 + 2) with (((pv_iy st).[id] + 1) * 2) by lia.
  rewrite map_double_wr. split; [|rewrite pulses_wr by lia; lia].
  split; cbn; [by rewrite len_wr|by apply Forall_wr; [|lia]|done|]. rewrite energy_wr by lia. lia.
Qed.

Lemma add_pulses_ok X left n : forall st i0,
  pv_ok st -> placed st + Z.of_nat n = K ->
  let st' := fold_left (fun s i => add_pulse X K N left s (Z.of_nat i)) (seq i0 n) st in
  pv_ok st' /\ placed st' = K.
Proof.
  induction n as [|n IH]; intros st i0 Hok Hp; cbn [seq fold_left]; [split; [done|lia]|].
  destruct (add_pulse_ok X left st (Z.of_nat i0) Hok ltac:(lia)) as [Hok' Hp']. apply IH; [done|lia].
Qed.

(** What the search has at the end. *)
Record pv_final (st : pvq_state) : Prop := {
  fin_len : len st.(pv_iy) = N;
  fin_nonneg : Forall (fun a => 0 <= a) st.(pv_iy);
  fin_yy : st.(pv_yy) = energy st.(pv_iy);
  fin_placed : placed st = K
}.

Lemma dump_pulses_ok st :
  pv_ok st -> placed st + st.(pv_left) = K -> st.(pv_left) > N + 3 -> pv_final (dump_pulses N st).
Proof.
  intros [Hl Hn Hy He] Hp H0. unfold dump_pulses, placed in *.
  destruct (Z.gtb_spec (pv_left st) (N + 3)); [|lia].
  pose proof (rd_nonneg (pv_iy st) 0 Hn). pose proof (rd_le_pulses (pv_iy st) 0).
  pose proof (energy_bound (pv_iy st)). pose proof (pulses_nonneg (pv_iy st)).
  set (a := (pv_iy st).[0]) in *. set (q := pulses (pv_iy st)) in *. set (e := energy (pv_iy st)) in *.
  assert (e + pv_left st * pv_left st + pv_left st * (a * 2) <= 128 * 128) by nia.
  assert (0 <= pv_left st * (a * 2)) by nia. assert (e + pv_left st * pv_left st <= 128 * 128) by nia.
  rewrite He, Hy, rd_map_double. fold e a. rewrite (i16_small (pv_left st)) by lia.
  rewrite (MAC16_16_exact e) by nia. rewrite (i16_small (e + _)) by nia.
  rewrite MAC16_16_exact by nia. rewrite i16_small by nia.
  split; cbn; [by rewrite len_wr|apply Forall_wr; [done|lia]| |]; unfold placed; cbn.
  - rewrite energy_wr by lia. fold a e. lia.
  - rewrite pulses_wr by lia. fold a q. lia.
Qed.

Lemma greedy_ok X st :
  pv_ok st -> placed st + st.(pv_left) = K -> 0 <= st.(pv_left) ->
  let st := dump_pulses N st in pv_final (for_upto st.(pv_left) (add_pulse X K N st.(pv_left)) st).
Proof.
  intros Hok Hp H0. destruct (decide (pv_left st > N + 3)) as [Hd|Hd].
  - pose proof (dump_pulses_ok st Hok Hp Hd) as Hf.
    assert (pv_left (dump_pulses N st) = 0) as E.
    { unfold dump_pulses. destruct (Z.gtb_spec (pv_left st) (N + 3)); [done|lia]. }
    cbv zeta. by rewrite E.
  - assert (dump_pulses N st = st) as ->.
    { unfold dump_pulses. destruct (Z.gtb_spec (pv_left st) (N + 3)); [lia|done]. }
    destruct (add_pulses_ok X (pv_left st) (Z.to_nat (pv_left st)) st 0 Hok ltac:(lia)) as [[H1 H2 H3 H4] H5].
    by split.
Qed.

(** ** The projection *)

Lemma presearch_steps rcp X : forall st,
  0 <= rcp < 2 ^ 15 -> Forall (fun x => 0 <= x < 2 ^ 15) X ->
  Forall (fun a => 0 <= a) st.(pv_iy) -> st.(pv_y) = map (fun a => a * 2) st.(pv_iy) ->
  st.(pv_yy) = energy st.(pv_iy) -> placed st + st.(pv_left) = K ->
  placed st + pulses (map (fun x => x * rcp / 2 ^ 15) X) <= K ->
  let st' := fold_left (presearch_step rcp) X st in
  len st'.(pv_iy) = len st.(pv_iy) + len X /\ Forall (fun a => 0 <= a) st'.(pv_iy) /\
  st'.(pv_y) = map (fun a => a * 2) st'.(pv_iy) /\ st'.(pv_yy) = energy st'.(pv_iy) /\
  placed st' + st'.(pv_left) = K /\ 0 <= st'.(pv_left).
Proof.
  induction X as [|x X IH]; intros st Hr HX Hn Hy He Hp Hb; cbn [fold_left].
  { cbn in *. unfold len. cbn. split_and!; try done; lia. }
  apply Forall_cons_1 in HX as [Hx HX]. cbn [map pulses foldr] in Hb.
  change (foldr _ 0 ?l) with (pulses l) in Hb.
  pose proof (pulses_nonneg (map (fun x => x * rcp / 2 ^ 15) X)).
  assert (0 <= x * rcp / 2 ^ 15) by (apply Z.div_pos; nia). pose proof (pulses_nonneg (pv_iy st)).
  pose proof (energy_bound (pv_iy st)). unfold placed in *.
  set (iy := x * rcp / 2 ^ 15) in *. assert (energy (pv_iy st) + iy * iy <= 128 * 128) by nia.
  assert (presearch_step rcp st x = {| pv_iy := pv_iy st ++ [iy]; pv_y := pv_y st ++ [iy * 2];
     pv_xy := MAC16_16 (pv_xy st) x iy; pv_yy := pv_yy st + iy * iy; pv_left := pv_left st - iy |}) as ->.
  { unfold presearch_step. rewrite MULT16_16_Q15_exact by lia. fold iy. rewrite (i16_small iy) by nia.
    rewrite (MAC16_16_exact (pv_yy st)) by nia. by rewrite !i16_small by nia. }
  unfold len in *. destruct (IH {| pv_iy := pv_iy st ++ [iy]; pv_y := pv_y st ++ [iy * 2];
     pv_xy := MAC16_16 (pv_xy st) x iy; pv_yy := pv_yy st + iy * iy; pv_left := pv_left st - iy |})
    as (H5 & H6 & H7 & H8 & H9 & H10); cbn in *; try done.
  - apply Forall_app; by repeat constructor.
  - by rewrite map_app, Hy.
  - rewrite energy_app, He. cbn. lia.
  - rewrite pulses_app. cbn. lia.
  - rewrite pulses_app. cbn. lia.
  - rewrite length_app in H5. cbn in H5. split_and!; try done. lia.
Qed.

Definition sumZ (l : list Z) : Z := foldr Z.add 0 l.

Lemma sum_exact X : forall s,
  Forall (fun x => 0 <= x < 2 ^ 15) X -> 0 <= s -> s + len X * 2 ^ 15 < 2 ^ 31 ->
  fold_left ADD32 X s = s + sumZ X /\ 0 <= sumZ X <= len X * 2 ^ 15.
Proof.
  induction X as [|x X IH]; intros s HX Hs Hb; cbn; [unfold len; cbn; lia|].
  apply Forall_cons_1 in HX as [Hx HX]. unfold len in *. cbn in Hb |- *. unfold ADD32 at 2. rewrite i32_small by lia.
  destruct (IH (s + x) HX ltac:(lia) ltac:(lia)) as [-> ?]. unfold sumZ in *. lia.
Qed.

Lemma pulses_div_sum rcp X :
  Forall (fun x => 0 <= x < 2 ^ 15) X -> 0 <= rcp ->
  pulses (map (fun x => x * rcp / 2 ^ 15) X) * 2 ^ 15 <= sumZ X * rcp.
Proof.
  intros HX Hr. induction HX as [|x X Hx HX IH]; cbn; [lia|]. unfold pulses, sumZ in *.
  pose proof (floor15 (x * rcp)). assert (0 <= x * rcp / 2 ^ 15) by (apply Z.div_pos; nia). lia.
Qed.

Lemma presearch_ok X :
  len X = N -> Forall (fun x => 0 <= x < 2 ^ 15) X ->
  let st := (presearch X K N).2 in pv_ok st /\ placed st + st.(pv_left) = K /\ 0 <= st.(pv_left).
Proof.
  intros Hl HX. unfold presearch. destruct (K >? Z.shiftr N 1).
  2: { unfold placed. cbv zeta. cbn [snd pv_iy pv_left]. set (z := repeat 0 (Z.to_nat N)).
       assert (pulses z = 0 /\ energy z = 0 /\ Forall (fun a => 0 <= a) z /\ z = map (fun a => a * 2) z) as (E1 & E2 & E3 & E4).
       { subst z. induction (Z.to_nat N) as [|n IH]; cbn; [done|]. unfold pulses, energy in *.
         destruct IH as (-> & -> & IH3 & <-). by repeat constructor. }
       rewrite E1. split; [|lia]. split; cbn [pv_iy pv_y pv_yy]; [|done|done|by rewrite E2].
       subst z. unfold len. rewrite repeat_length. lia. }
  destruct (sum_exact X 0 HX ltac:(lia) ltac:(nia)) as [-> Hs0]. rewrite Z.add_0_l.
  set (Xs := if sumZ X <=? K then _ else _). destruct Xs as [X' s'] eqn:EX. subst Xs.
  assert (len X' = N /\ Forall (fun x => 0 <= x < 2 ^ 15) X' /\ s' = sumZ X' /\ K < s' <= 2 ^ 30) as (Hl' & HX' & Es & Hs).
  { destruct (Z.leb_spec (sumZ X) K) as [|Hgt]; injection EX as <- <-; [|split_and!; try done; nia].
    split_and!; [unfold len; cbn; rewrite repeat_length; lia| | |lia..].
    - constructor; [lia|]. apply List.Forall_forall. intros x ->%repeat_spec. lia.
    - assert (sumZ (repeat 0 (Z.to_nat (N - 1))) = 0) as E0 by (induction (Z.to_nat (N - 1)); done).
      unfold sumZ in *. cbn [foldr]. lia. }
  clear EX. destruct (celt_rcp_bound s' ltac:(lia)) as [HR HRs]. set (R := celt_rcp s') in *. clearbody R.
  assert (exists rcp, EXTRACT16 (MULT16_32_Q16 K R) = rcp /\ 0 <= rcp < 2 ^ 15 /\ rcp * s' <= K * (2 ^ 15 + 3)) as (rcp & -> & Hrcp & Hrs).
  { unfold EXTRACT16, MULT16_32_Q16. rewrite (i16_small K) by lia. rewrite Z.shiftr_div_pow2 by lia.
    pose proof (Z.mul_div_le (K * R) (2 ^ 16) ltac:(lia)) as Hle. assert (0 <= K * R / 2 ^ 16) by (apply Z.div_pos; nia).
    set (rcp := K * R / 2 ^ 16) in *. clearbody rcp. change (2 ^ 16) with 65536 in *. change (2 ^ 15) with 32768 in *.
    change (2 ^ 31) with 2147483648 in *. change (2 ^ 30) with 1073741824 in *.
    assert (65536 * (rcp * s') <= K * (2147483648 + 3 * 65536)) as H1 by nia.
    assert (rcp * s' <= K * 32771) as H2 by lia. assert (rcp < 32768) as H3 by nia.
    exists rcp. rewrite i32_small, i16_small by lia. lia. }
  pose proof (pulses_div_sum rcp X' HX' ltac:(lia)) as Hp. rewrite <- Es in Hp.
  set (st0 := {| pv_iy := []; pv_y := []; pv_xy := 0; pv_yy := 0; pv_left := K |}).
  destruct (presearch_steps rcp X' st0) as (H1 & H2 & H3 & H4 & H5 & H6); try done.
  { unfold placed. cbn [st0 pv_iy pulses foldr]. change (pulses []) with 0.
    set (p := pulses _) in *. change (2 ^ 15) with 32768 in *. lia. }
  cbn [snd]. split; [|done]. split; try done. rewrite H1. unfold len at 1. cbn. lia.
Qed.

(** ** The whole search *)

Lemma lxor_sign a (b : bool) : Z.lxor a (- b2z b) + b2z b = if b then - a else a.
Proof.
  destruct b; cbn [b2z]; [|by rewrite Z.lxor_0_r, Z.add_0_r].
  change (- (1)) with (-1). rewrite Z.lxor_m1_r. unfold Z.lnot. lia.
Qed.

Lemma signed_sums (iy : list Z) (sg : list bool) :
  length sg = length iy ->
  let y := map (fun '(a, s) => Z.lxor a (- s) + s) (combine iy (map b2z sg)) in
  length y = length iy /\ pulses y = pulses iy /\ energy y = energy iy.
Proof.
  revert sg. induction iy as [|a iy IH]; intros [|b sg] Hl; cbn in *; try lia; try done.
  rewrite lxor_sign. destruct (IH sg ltac:(lia)) as (H1 & H2 & H3).
  unfold pulses, energy in *. rewrite H1, H2, H3. destruct b; split_and!; lia.
Qed.

Lemma op_pvq_search_c_pulses X :
  len X = N -> Forall (fun x => - 2 ^ 15 < x < 2 ^ 15) X ->
  let '(_, (iy, yy)) := op_pvq_search_c X K N in
  len iy = N /\ pulses iy = K /\ yy = energy iy.
Proof.
  intros Hl HX. unfold op_pvq_search_c. set (X' := map (fun x => i16 (ABS16 x)) X).
  assert (len X' = N /\ Forall (fun x => 0 <= x < 2 ^ 15) X') as [Hl' HX'].
  { subst X'. unfold len in *. rewrite length_map. split; [done|]. apply Forall_map.
    eapply Forall_impl; [|exact HX]. intros x Hx. cbv beta in *. unfold ABS16.
    destruct (Z.ltb_spec x 0); rewrite i16_small by lia; lia. }
  pose proof (presearch_ok X' Hl' HX') as (Hok & Hp & H0). destruct (presearch X' K N) as [X'' st]. cbn [snd] in *.
  pose proof (greedy_ok X'' st Hok Hp H0) as Hf. cbv zeta in *. set (fin := for_upto _ _ _) in *.
  destruct Hf as [F1 F2 F3 F4]. clearbody fin.
  rewrite <- (map_map (fun x => x <? 0) b2z).
  destruct (signed_sums (pv_iy fin) (map (fun x => x <? 0) X)) as (S1 & S2 & S3).
  { rewrite length_map. unfold len in *. lia. }
  unfold len in *. rewrite S1, S2, S3. unfold placed in F4. done.
Qed.
End Search.
