(* ===== verification/BandOps.v ===== *)
(** * Arithmetic on the coefficients of a band (celt/bands.c, celt/vq.c)

    The orthogonal transforms that change the time resolution of a band, the
    mid-side transforms of a stereo pair, renormalisation and the measure of the
    angle between two vectors; and the integer functions that the bit allocation
    depends on, which have to give the same result on every machine. *)

From S2P Require Import Prelude RangeCoder EntropyInterface EntropySeq EntCode CwrsTable Cwrs FixedPoint MathOps Vq CeltMode QuantBands.

(** ** Bit-exact functions *)

Definition celt_lcg_rand (seed : Z) : Z := u32 (1664525 * seed + 1013904223).

Definition bitexact_cos (x : Z) : Z :=
  let tmp := Z.shiftr (4096 + x * x) 13 in
  let x2 := i16 tmp in
  let x2 := i16 ((32767 - x2) + FRAC_MUL16 x2 (-7651 + FRAC_MUL16 x2 (8277 + FRAC_MUL16 (-626) x2))) in
  i16 (1 + x2).

Definition bitexact_log2tan (isin icos : Z) : Z :=
  let lc := EC_ILOG icos in
  let ls := EC_ILOG isin in
  let icos := Z.shiftl icos (15 - lc) in
  let isin := Z.shiftl isin (15 - ls) in
  (ls - lc) * Z.shiftl 1 11
  + FRAC_MUL16 isin (FRAC_MUL16 isin (-2597) + 7932)
  - FRAC_MUL16 icos (FRAC_MUL16 icos (-2597) + 7932).

(** [celt_sudiv]: C's division, toward zero. *)
Definition celt_sudiv (n d : Z) : Z := Z.quot n d.

Definition exp2_table8 : list Z := [16384; 17866; 19483; 21247; 23170; 25267; 27554; 30048].

Definition compute_qn (N b offset pulse_cap : Z) (stereo : bool) : Z :=
  let N2 := 2 * N - 1 in
  let N2 := if stereo && (N =? 2) then N2 - 1 else N2 in
  let qb := celt_sudiv (b + N2 * offset) N2 in
  let qb := Z.min (b - pulse_cap - Z.shiftl 4 BITRES) qb in
  let qb := Z.min (Z.shiftl 8 BITRES) qb in
  if qb <? Z.shiftr (Z.shiftl 1 BITRES) 1 then 1
  else
    let qn := Z.shiftr exp2_table8.[Z.land qb 7] (14 - Z.shiftr qb BITRES) in
    Z.shiftl (Z.shiftr (qn + 1) 1) 1.

(** ** Time-frequency changes *)

Definition SQRT_HALF : Z := 23170.

(** [haar1]: one pair of the butterfly. *)
Definition haar_pair (stride i : Z) (X : list Z) (j : Z) : list Z :=
  let tmp1 := MULT16_16 SQRT_HALF X.[stride * 2 * j + i] in
  let tmp2 := MULT16_16 SQRT_HALF X.[stride * (2 * j + 1) + i] in
  X.[stride * 2 * j + i <- EXTRACT16 (PSHR32 (ADD32 tmp1 tmp2) 15)]
   .[stride * (2 * j + 1) + i <- EXTRACT16 (PSHR32 (SUB32 tmp1 tmp2) 15)].

Definition haar1 (X : list Z) (N0 stride : Z) : list Z :=
  let N0 := Z.shiftr N0 1 in
  for_upto stride (fun X i => for_upto N0 (haar_pair stride i) X) X.

Definition ordery_table : list Z :=
  [1; 0;
   3; 0; 2; 1;
   7; 0; 4; 3; 6; 1; 5; 2;
   15; 0; 8; 7; 12; 3; 11; 4; 14; 1; 9; 6; 13; 2; 10; 5].

(** The place of block [i]: [ordery[i]] or [i]. *)
Definition ordery (stride : Z) (hadamard : bool) (i : Z) : Z :=
  if hadamard then ordery_table.[stride - 2 + i] else i.

(** The array [tmp] has unspecified contents before the loops; they write all of it. *)
Definition deinterleave_hadamard (X : list Z) (N0 stride : Z) (hadamard : bool) : list Z :=
  for_upto stride (fun tmp i =>
    for_upto N0 (fun tmp j => tmp.[ordery stride hadamard i * N0 + j <- X.[j * stride + i]]) tmp)
    (repeat 0 (Z.to_nat (N0 * stride))).

Definition interleave_hadamard (X : list Z) (N0 stride : Z) (hadamard : bool) : list Z :=
  for_upto stride (fun tmp i =>
    for_upto N0 (fun tmp j => tmp.[j * stride + i <- X.[ordery stride hadamard i * N0 + j]]) tmp)
    (repeat 0 (Z.to_nat (N0 * stride))).

(** ** Stereo *)

Definition map2 (f : Z -> Z -> Z) (X Y : list Z) : list Z := map (fun '(x, y) => f x y) (combine X Y).

(** What [intensity_stereo] stores into [X]. *)
Definition intensity_stereo (m : CELTMode) (X Y bandE : list Z) (bandID : Z) : list Z :=
  let i := bandID in
  let shift := celt_zlog2 (MAX32 bandE.[i] bandE.[i + m.(nbEBands)]) - 13 in
  let left := i16 (VSHR32 bandE.[i] shift) in
  let right := i16 (VSHR32 bandE.[i + m.(nbEBands)] shift) in
  let norm := i16 (EPSILON + celt_sqrt (i32 (EPSILON + MULT16_16 left left + MULT16_16 right right))) in
  let a1 := DIV32_16 (SHL32 (EXTEND32 left) 14) norm in
  let a2 := DIV32_16 (SHL32 (EXTEND32 right) 14) norm in
  map2 (fun l r => EXTRACT16 (SHR32 (MAC16_16 (MULT16_16 a1 l) a2 r) 14)) X Y.

Definition stereo_split (X Y : list Z) : list Z * list Z :=
  let half := MULT16_16 SQRT_HALF in
  (map2 (fun x y => EXTRACT16 (SHR32 (ADD32 (half x) (half y)) 15)) X Y,
   map2 (fun x y => EXTRACT16 (SHR32 (SUB32 (half y) (half x)) 15)) X Y).

(** [QCONST32(6e-4f, 28)] *)
Definition MERGE_FLOOR : Z := 161061.

Definition stereo_merge (X Y : list Z) (mid : Z) : list Z * list Z :=
  let xp := celt_inner_prod Y X in
  let side := celt_inner_prod Y Y in
  let xp := MULT16_32_Q15 mid xp in
  let mid2 := i16 (SHR16 mid 1) in
  let El := i32 (MULT16_16 mid2 mid2 + side - 2 * xp) in
  let Er := i32 (MULT16_16 mid2 mid2 + side + 2 * xp) in
  if (Er <? MERGE_FLOOR) || (El <? MERGE_FLOOR) then (X, X)
  else
    let kl := Z.shiftr (celt_ilog2 El) 1 in
    let kr := Z.shiftr (celt_ilog2 Er) 1 in
    let lgain := celt_rsqrt_norm (VSHR32 El (2 * (kl - 7))) in
    let rgain := celt_rsqrt_norm (VSHR32 Er (2 * (kr - 7))) in
    let kl := if kl <? 7 then 7 else kl in
    let kr := if kr <? 7 then 7 else kr in
    let l x := i16 (MULT16_16_P15 mid x) in
    (map2 (fun x r => EXTRACT16 (PSHR32 (MULT16_16 lgain (SUB16 (l x) r)) (kl + 1))) X Y,
     map2 (fun x r => EXTRACT16 (PSHR32 (MULT16_16 rgain (ADD16 (l x) r)) (kr + 1))) X Y).

(** [compute_channel_weights]: the pair [w]. *)
Definition compute_channel_weights (Ex Ey : Z) : Z * Z :=
  let minE := MIN32 Ex Ey in
  let Ex := ADD32 Ex (Z.quot minE 3) in
  let Ey := ADD32 Ey (Z.quot minE 3) in
  let shift := celt_ilog2 (i32 (EPSILON + MAX32 Ex Ey)) - 14 in
  (i16 (VSHR32 Ex shift), i16 (VSHR32 Ey shift)).

Definition renormalise_vector (X : list Z) (gain : Z) : list Z :=
  let E := i32 (EPSILON + celt_inner_prod X X) in
  let k := Z.shiftr (celt_ilog2 E) 1 in
  let t := VSHR32 E (2 * (k - 7)) in
  let g := i16 (MULT16_16_P15 (celt_rsqrt_norm t) gain) in
  map (fun x => EXTRACT16 (PSHR32 (MULT16_16 g x) (k + 1))) X.

(** [Emid] and [Eside] of [stereo_itheta], 32-bit sums. *)
Definition itheta_energies (X Y : list Z) (stereo : bool) : Z * Z :=
  if stereo then
    let m := map2 (fun x y => ADD16 (SHR16 x 1) (SHR16 y 1)) X Y in
    let s := map2 (fun x y => i16 (SUB16 (SHR16 x 1) (SHR16 y 1))) X Y in
    (fold_left (fun e a => MAC16_16 e a a) m EPSILON, fold_left (fun e a => MAC16_16 e a a) s EPSILON)
  else (ADD32 EPSILON (celt_inner_prod X X), ADD32 EPSILON (celt_inner_prod Y Y)).

(** The angle between mid and side, 0 to 16384 for a quarter of a turn. *)
Definition stereo_itheta_c (X Y : list Z) (stereo : bool) : Z :=
  let '(Emid, Eside) := itheta_energies X Y stereo in
  let mid := i16 (celt_sqrt Emid) in
  let side := i16 (celt_sqrt Eside) in
  MULT16_16_Q15 20861 (celt_atan2p side mid).

Lemma mac_below l : forall e, e < 2 ^ 31 -> fold_left (fun e a => MAC16_16 e a a) l e < 2 ^ 31.
Proof.
  induction l as [|a l IH]; intros e He; [done|]. cbn [fold_left]. apply IH. unfold MAC16_16, i32.
  pose proof (Z.mod_pos_bound (e + i16 a * i16 a + 2 ^ 31) (2 ^ 32)). lia.
Qed.
Lemma itheta_energies_below X Y stereo :
  (itheta_energies X Y stereo).1 < 2 ^ 31 /\ (itheta_energies X Y stereo).2 < 2 ^ 31.
Proof.
  destruct stereo; cbn [itheta_energies fst snd]; [by split; apply mac_below|]. unfold ADD32, i32.
  split; match goal with |- context [?a mod 2 ^ 32] => pose proof (Z.mod_pos_bound a (2 ^ 32)) end; lia.
Qed.

(** The angle is in the first quadrant where the sums do not overflow. *)
Lemma stereo_itheta_c_range X Y stereo :
  0 < (itheta_energies X Y stereo).1 -> 0 < (itheta_energies X Y stereo).2 -> 0 <= stereo_itheta_c X Y stereo <= 16384.
Proof.
  intros Hm Hs. destruct (itheta_energies_below X Y stereo) as [Bm Bs]. unfold stereo_itheta_c.
  destruct (itheta_energies X Y stereo) as [Emid Eside]. cbn [fst snd] in *.
  pose proof (celt_sqrt_range Emid ltac:(lia)). pose proof (celt_sqrt_range Eside ltac:(lia)).
  rewrite !i16_small by lia. pose proof (celt_atan2p_range (celt_sqrt Eside) (celt_sqrt Emid) ltac:(lia) ltac:(lia) ltac:(lia)).
  set (t := celt_atan2p _ _) in *. clearbody t. rewrite MULT16_16_Q15_exact by lia.
  pose proof (floor15 (20861 * t)). change (2 ^ 15) with 32768 in *. dlia.
Qed.
