(* ===== verification/Theta.v ===== *)
(** * The angle of a split (celt/bands.c, compute_theta)

    A stereo pair, or a band that is split in two halves, is coded as an angle
    between the two parts followed by each part as a unit vector.  The angle is
    quantised to [qn+1] levels; [qn] and the distribution it is coded with
    depend on the bits available and on the shape of the band. *)

From S2P Require Import Prelude RangeCoder EntropyInterface EntropySeq EntCode CwrsTable Cwrs FixedPoint MathOps Vq CeltMode QuantBands BandOps.

(** ** What the encoder measures

    The decisions that depend on the signal: the angle, and the pulse vector.
    Both are computed by functions with several implementations; any that
    returns an angle of the first quadrant and a vector of [K] pulses will do. *)
Class SignalAnalysis := {
  stereo_itheta : list Z -> list Z -> bool -> Z;
  op_pvq_search : list Z -> Z -> Z -> list Z * (list Z * Z);
  stereo_itheta_range : forall X Y stereo, 0 <= stereo_itheta X Y stereo <= 16384;
  op_pvq_search_pulses : forall X K N, 2 <= N <= 2 ^ 15 -> 1 <= K <= 128 -> len X = N ->
    let '(_, (iy, yy)) := op_pvq_search X K N in len iy = N /\ pulses iy = K /\ yy = energy iy
}.

(** ** The two sides of a coded value

    Each [if (encode) ... else ...] around the entropy coder is one operation
    of a [band_port]: the encoder's writes the value it is given, the
    decoder's ignores it and returns the one it reads. *)
Record band_port (S : Type) := {
  bp_encode : bool;
  bp_tell_frac : S -> Z;
  (** value, its interval [fl], [fh] of [ft], and the decoder's way from a
      frequency to value and interval *)
  bp_symbol : Z -> Z -> Z -> Z -> (Z -> Z * Z * Z) -> S -> Z * S;
  bp_uint : Z -> Z -> S -> Z * S;
  bp_bit_logp : bool -> Z -> S -> bool * S;
  bp_bits : Z -> Z -> S -> Z * S;
  (** [alg_quant] or [alg_unquant] *)
  bp_alg : list Z -> Z -> Z -> Z -> Z -> Z -> bool -> S -> (list Z * Z) * S
}.
Arguments bp_encode {S} _.
Arguments bp_tell_frac {S} _ _.
Arguments bp_symbol {S} _ _ _ _ _ _ _.
Arguments bp_uint {S} _ _ _ _.
Arguments bp_bit_logp {S} _ _ _ _.
Arguments bp_bits {S} _ _ _ _.
Arguments bp_alg {S} _ _ _ _ _ _ _ _ _.

Section Ports.
Context `{A : SignalAnalysis} `{EntropyCoder E D}.

Definition enc_band : band_port E := {|
  bp_encode := true;
  bp_tell_frac := ec_tell_frac_enc;
  bp_symbol := fun x fl fh ft _ s => (x, ec_encode fl fh ft s);
  bp_uint := fun x ft s => (x, ec_enc_uint x ft s);
  bp_bit_logp := fun b logp s => (b, ec_enc_bit_logp b logp s);
  bp_bits := fun x bits s => (x, ec_enc_bits x bits s);
  bp_alg := fun X N K spread B gain resynth => alg_quant op_pvq_search X N K spread B gain resynth
|}.

Definition dec_band : band_port D := {|
  bp_encode := false;
  bp_tell_frac := ec_tell_frac_dec;
  bp_symbol := fun _ _ _ ft find s =>
    let '(fs, s) := ec_decode ft s in
    let '(x, fl, fh) := find fs in (x, ec_dec_update fl fh ft s);
  bp_uint := fun _ ft => ec_dec_uint ft;
  bp_bit_logp := fun _ logp => ec_dec_bit_logp logp;
  bp_bits := fun _ bits => ec_dec_bits bits;
  bp_alg := fun _ N K spread B gain _ => alg_unquant N K spread B gain
|}.
End Ports.

(** ** Context

    [struct band_ctx], without the coder (the port and its state) and the
    fields that change ([remaining_bits] and [seed], which are passed along). *)
Record band_ctx := {
  resynth : bool;
  bc_m : CELTMode;
  bc_i : Z;
  bc_intensity : Z;
  spread : Z;
  tf_change : Z;
  bandE : list Z;
  theta_round : Z;
  disable_inv : bool;
  avoid_split_noise : bool
}.

(** [struct split_ctx], with what [compute_theta] changes through its pointers. *)
Record split_ctx := {
  inv : bool;
  imid : Z;
  iside : Z;
  delta : Z;
  itheta : Z;
  qalloc : Z;
  sp_b : Z;
  sp_fill : Z
}.

(** ** The distributions of the angle *)

(** A step: [p0] up to the middle, then 1. *)
Definition step_interval (x0 x : Z) : Z * Z :=
  let p0 := 3 in
  (if x <=? x0 then p0 * x else (x - 1 - x0) + (x0 + 1) * p0,
   if x <=? x0 then p0 * (x + 1) else (x - x0) + (x0 + 1) * p0).
Definition step_find (x0 fs : Z) : Z * Z * Z :=
  let p0 := 3 in
  let x := if fs <? (x0 + 1) * p0 then Z.quot fs p0 else x0 + 1 + (fs - (x0 + 1) * p0) in
  let '(fl, fh) := step_interval x0 x in (x, fl, fh).

(** A triangle with its top in the middle. *)
Definition tri_total (qn : Z) : Z := (Z.shiftr qn 1 + 1) * (Z.shiftr qn 1 + 1).
Definition tri_interval (qn itheta : Z) : Z * Z :=
  let ft := tri_total qn in
  let fs := if itheta <=? Z.shiftr qn 1 then itheta + 1 else qn + 1 - itheta in
  let fl := if itheta <=? Z.shiftr qn 1 then Z.shiftr (itheta * (itheta + 1)) 1
            else ft - Z.shiftr ((qn + 1 - itheta) * (qn + 2 - itheta)) 1 in
  (fl, fl + fs).
Definition tri_find (qn fm : Z) : Z * Z * Z :=
  let ft := tri_total qn in
  if fm <? Z.shiftr (Z.shiftr qn 1 * (Z.shiftr qn 1 + 1)) 1 then
    let itheta := Z.shiftr (u32 (isqrt32 (u32 (8 * fm + 1)) - 1)) 1 in
    let fs := itheta + 1 in
    let fl := Z.shiftr (itheta * (itheta + 1)) 1 in
    (itheta, fl, fl + fs)
  else
    let itheta := Z.shiftr (u32 (2 * (qn + 1) - isqrt32 (u32 (8 * (ft - fm - 1) + 1)))) 1 in
    let fs := qn + 1 - itheta in
    let fl := ft - Z.shiftr ((qn + 1 - itheta) * (qn + 2 - itheta)) 1 in
    (itheta, fl, fl + fs).

Section Theta.
Context `{SignalAnalysis} {S : Type} (p : band_port S) (c : band_ctx).

Definition code_theta (stereo : bool) (N B0 qn itheta : Z) : S -> Z * S :=
  if stereo && (N >? 2) then
    let x0 := Z.quot qn 2 in
    let ft := 3 * (x0 + 1) + x0 in
    let '(fl, fh) := step_interval x0 itheta in
    bp_symbol p itheta fl fh ft (step_find x0)
  else if (B0 >? 1) || stereo then bp_uint p itheta (qn + 1)
  else
    let '(fl, fh) := tri_interval qn itheta in
    bp_symbol p itheta fl fh (tri_total qn) (tri_find qn).

(** The share of the bits of mid and side that [itheta] asks for. *)
Definition theta_delta (N imid iside : Z) : Z :=
  FRAC_MUL16 (Z.shiftl (N - 1) 7) (bitexact_log2tan iside imid).

(** The encoder's level, from the angle that it measured. *)
Definition quant_theta (stereo : bool) (N b qn itheta : Z) : Z :=
  if negb stereo || (c.(theta_round) =? 0) then
    let itheta := Z.shiftr (itheta * qn + 8192) 14 in
    if negb stereo && c.(avoid_split_noise) && (itheta >? 0) && (itheta <? qn) then
      let unquantized := celt_udiv (itheta * 16384) qn in
      let imid := bitexact_cos (i16 unquantized) in
      let iside := bitexact_cos (i16 (16384 - unquantized)) in
      let delta := theta_delta N imid iside in
      if delta >? b then qn else if delta <? - b then 0 else itheta
    else itheta
  else
    let bias := if itheta >? 8192 then Z.quot 32767 qn else Z.quot (-32767) qn in
    let down := Z.min (qn - 1) (Z.max 0 (Z.shiftr (itheta * qn + bias) 14)) in
    if c.(theta_round) <? 0 then down else down + 1.

(** The resolution of the angle. *)
Definition theta_qn (N b LM : Z) (stereo : bool) : Z :=
  let pulse_cap := c.(bc_m).(logN).[c.(bc_i)] + LM * Z.shiftl 1 BITRES in
  let offset := Z.shiftr pulse_cap 1 - (if stereo && (N =? 2) then QTHETA_OFFSET_TWOPHASE else QTHETA_OFFSET) in
  let qn := compute_qn N b offset pulse_cap stereo in
  if stereo && (c.(bc_i) >=? c.(bc_intensity)) then 1 else qn.

(** What the angle [itheta] says about the two parts. *)
Definition split_angle (inv : bool) (itheta N b B qalloc fill : Z) : split_ctx :=
  let b := b - qalloc in
  if itheta =? 0 then
    {| inv := inv; imid := 32767; iside := 0; delta := -16384; itheta := itheta; qalloc := qalloc;
       sp_b := b; sp_fill := Z.land fill (Z.shiftl 1 B - 1) |}
  else if itheta =? 16384 then
    {| inv := inv; imid := 0; iside := 32767; delta := 16384; itheta := itheta; qalloc := qalloc;
       sp_b := b; sp_fill := Z.land fill (Z.shiftl (Z.shiftl 1 B - 1) B) |}
  else
    let imid := bitexact_cos (i16 itheta) in
    let iside := bitexact_cos (i16 (16384 - itheta)) in
    {| inv := inv; imid := imid; iside := iside; delta := theta_delta N imid iside; itheta := itheta;
       qalloc := qalloc; sp_b := b; sp_fill := fill |}.

(** The coded part: the angle, the inversion flag and the parts as the encoder goes on with them. *)
Definition theta_code (remaining_bits : Z) (X Y : list Z) (N b B0 qn : Z) (stereo : bool)
    : S -> (Z * bool * list Z * list Z) * S :=
  let encode := bp_encode p in
  let itheta := if encode then stereo_itheta X Y stereo else 0 in
  if negb (qn =? 1) then
    let itheta := if encode then quant_theta stereo N b qn itheta else itheta in
    itheta <~ code_theta stereo N B0 qn itheta;
    let itheta := celt_udiv (itheta * 16384) qn in
    let '(X, Y) :=
      if encode && stereo then
        if itheta =? 0 then (intensity_stereo c.(bc_m) X Y c.(bandE) c.(bc_i), Y) else stereo_split X Y
      else (X, Y) in
    dec_ret (itheta, false, X, Y)
  else if stereo then
    let inv := encode && (itheta >? 8192) && negb c.(disable_inv) in
    let Y := if encode && inv then map (fun y => i16 (- y)) Y else Y in
    let X := if encode then intensity_stereo c.(bc_m) X Y c.(bandE) c.(bc_i) else X in
    inv <~ (if (b >? Z.shiftl 2 BITRES) && (remaining_bits >? Z.shiftl 2 BITRES) then bp_bit_logp p inv 2
            else dec_ret false);
    let inv := if c.(disable_inv) then false else inv in
    dec_ret (0, inv, X, Y)
  else dec_ret (itheta, false, X, Y).

Definition compute_theta (remaining_bits : Z) (X Y : list Z) (N b B B0 LM : Z) (stereo : bool) (fill : Z)
    : S -> (split_ctx * list Z * list Z) * S :=
  let qn := theta_qn N b LM stereo in
  tell <~ read (bp_tell_frac p);
  '(itheta, inv, X, Y) <~ theta_code remaining_bits X Y N b B0 qn stereo;
  tell' <~ read (bp_tell_frac p);
  dec_ret (split_angle inv itheta N b B (tell' - tell) fill, X, Y).
End Theta.
