(* ===== verification/Bands.v ===== *)
(** * Coding the coefficients of a frame (celt/bands.c)

    [quant_all_bands] goes through the bands; each is coded by [quant_band] or
    [quant_band_stereo], which change its time resolution and hand it to
    [quant_partition]; that splits it in two as long as it has more bits than a
    single pulse vector can use.  Encoder and decoder are the same code with
    different ports. *)

From S2P Require Import Prelude RangeCoder EntropyInterface EntropySeq EntCode CwrsTable Cwrs FixedPoint MathOps Vq CeltMode QuantBands BandOps Theta.

(** ** Results *)

(** A mono part: collapse mask, coefficients, and the two fields of the context that change. *)
Record part := {
  q_cm : Z;
  q_X : list Z;
  q_rem : Z;
  q_seed : Z
}.

(** A band: with what goes to [lowband_out]; [q_Y] is empty for one channel. *)
Record band := {
  b_cm : Z;
  b_X : list Z;
  b_Y : list Z;
  b_out : list Z;
  b_rem : Z;
  b_seed : Z
}.

(** ** No pulses: noise or a copy of lower frequencies *)

Fixpoint fill_noise (n : nat) (seed : Z) : list Z * Z :=
  match n with
  | O => ([], seed)
  | Datatypes.S n =>
      let seed := celt_lcg_rand seed in
      let '(X, seed') := fill_noise n seed in
      (i16 (Z.shiftr (i32 seed) 20) :: X, seed')
  end.

Fixpoint fill_fold (lowband : list Z) (seed : Z) : list Z * Z :=
  match lowband with
  | [] => ([], seed)
  | x :: lowband =>
      let seed := celt_lcg_rand seed in
      let tmp := if negb (Z.land seed 32768 =? 0) then 4 else -4 in
      let '(X, seed') := fill_fold lowband seed in
      (i16 (x + tmp) :: X, seed')
  end.

Definition fill_band (resynth : bool) (X : list Z) (N B : Z) (lowband : option (list Z)) (gain fill rem seed : Z) : part :=
  if resynth then
    let cm_mask := Z.shiftl 1 B - 1 in
    let fill := Z.land fill cm_mask in
    if fill =? 0 then {| q_cm := 0; q_X := repeat 0 (Z.to_nat N); q_rem := rem; q_seed := seed |}
    else
      let '(X, seed, cm) :=
        match lowband with
        | None => let '(X, seed) := fill_noise (Z.to_nat N) seed in (X, seed, cm_mask)
        | Some l => let '(X, seed) := fill_fold l seed in (X, seed, fill)
        end in
      {| q_cm := cm; q_X := renormalise_vector X gain; q_rem := rem; q_seed := seed |}
  else {| q_cm := 0; q_X := X; q_rem := rem; q_seed := seed |}.

(** [while (ctx->remaining_bits < 0 && q > 0)]: [q] and [remaining_bits] afterwards. *)
Fixpoint never_bust (m : CELTMode) (i LM : Z) (q : nat) (rem curr_bits : Z) : Z * Z :=
  if rem <? 0 then
    match q with
    | O => (0, rem)
    | Datatypes.S q =>
        let rem := rem + curr_bits in
        let curr_bits := pulses2bits m i LM (Z.of_nat q) in
        never_bust m i LM q (rem - curr_bits) curr_bits
    end
  else (Z.of_nat q, rem).

(** The shares of mid and side: [IMAX(0, IMIN(b, (b-delta)/2))] and the rest. *)
Definition mid_bits (b delta : Z) : Z := Z.max 0 (Z.min b (Z.quot (b - delta) 2)).

(** What the first part has not used beyond three bits goes to the second. *)
Definition rebalanced (bits first_bits used_from used_to : Z) (wanted : bool) : Z :=
  let rebalance := first_bits - (used_from - used_to) in
  if (rebalance >? Z.shiftl 3 BITRES) && wanted then bits + (rebalance - Z.shiftl 3 BITRES) else bits.

Section Bands.
Context `{SignalAnalysis} {S : Type} (p : band_port S).

Section Band.
Context (c : band_ctx).

(** ** One partition *)

Definition quant_leaf (LM : Z) (X : list Z) (N b B : Z) (lowband : option (list Z)) (gain fill rem seed : Z)
    : S -> part * S :=
  let m := c.(bc_m) in
  let i := c.(bc_i) in
  let q := bits2pulses m i LM b in
  let curr_bits := pulses2bits m i LM q in
  let '(q, rem) := never_bust m i LM (Z.to_nat q) (rem - curr_bits) curr_bits in
  if negb (q =? 0) then
    let K := get_pulses q in
    '(X, cm) <~ bp_alg p X N K c.(spread) B gain c.(resynth);
    dec_ret {| q_cm := cm; q_X := X; q_rem := rem; q_seed := seed |}
  else dec_ret (fill_band c.(resynth) X N B lowband gain fill rem seed).

(** Give more bits to low-energy MDCTs than they would otherwise deserve. *)
Definition masked_delta (B0 N LM : Z) (sp : split_ctx) : Z :=
  if (B0 >? 1) && negb (Z.land sp.(itheta) 16383 =? 0) then
    if sp.(itheta) >? 8192 then sp.(delta) - Z.shiftr sp.(delta) (4 - LM)
    else Z.min 0 (sp.(delta) + Z.shiftr (Z.shiftl N BITRES) (5 - LM))
  else sp.(delta).

(** [n] is [LM+1]: a band can be split until [LM] is -1. *)
Fixpoint quant_partition (n : nat) (X : list Z) (N b B : Z) (lowband : option (list Z)) (gain fill rem seed : Z)
    : S -> part * S :=
  let m := c.(bc_m) in
  let i := c.(bc_i) in
  let LM := Z.of_nat n - 1 in
  match n with
  | Datatypes.S n =>
      if (b >? cache_line m i LM (cache_line m i LM 0) + 12) && (N >? 2) then
        let B0 := B in
        let N := Z.shiftr N 1 in
        let Y := drop (Z.to_nat N) X in
        let X := take (Z.to_nat N) X in
        let LM := LM - 1 in
        let fill := if B =? 1 then Z.lor (Z.land fill 1) (Z.shiftl fill 1) else fill in
        let B := Z.shiftr (B + 1) 1 in
        '(sp, X, Y) <~ compute_theta p c rem X Y N b B B0 LM false fill;
        let mid := sp.(imid) in
        let side := sp.(iside) in
        let b := sp.(sp_b) in
        let fill := sp.(sp_fill) in
        let delta := masked_delta B0 N LM sp in
        let mbits := mid_bits b delta in
        let sbits := b - mbits in
        let rem := rem - sp.(qalloc) in
        let lowband1 := option_map (take (Z.to_nat N)) lowband in
        let lowband2 := option_map (drop (Z.to_nat N)) lowband in
        let gain1 := i16 (MULT16_16_P15 gain mid) in
        let gain2 := i16 (MULT16_16_P15 gain side) in
        if mbits >=? sbits then
          r1 <~ quant_partition n X N mbits B lowband1 gain1 fill rem seed;
          let sbits := rebalanced sbits mbits rem r1.(q_rem) (negb (sp.(itheta) =? 0)) in
          r2 <~ quant_partition n Y N sbits B lowband2 gain2 (Z.shiftr fill B) r1.(q_rem) r1.(q_seed);
          dec_ret {| q_cm := Z.lor r1.(q_cm) (Z.shiftl r2.(q_cm) (Z.shiftr B0 1));
                     q_X := r1.(q_X) ++ r2.(q_X); q_rem := r2.(q_rem); q_seed := r2.(q_seed) |}
        else
          r2 <~ quant_partition n Y N sbits B lowband2 gain2 (Z.shiftr fill B) rem seed;
          let mbits := rebalanced mbits sbits rem r2.(q_rem) (negb (sp.(itheta) =? 16384)) in
          r1 <~ quant_partition n X N mbits B lowband1 gain1 fill r2.(q_rem) r2.(q_seed);
          dec_ret {| q_cm := Z.lor (Z.shiftl r2.(q_cm) (Z.shiftr B0 1)) r1.(q_cm);
                     q_X := r1.(q_X) ++ r2.(q_X); q_rem := r1.(q_rem); q_seed := r1.(q_seed) |}
      else quant_leaf LM X N b B lowband gain fill rem seed
  | O => quant_leaf LM X N b B lowband gain fill rem seed
  end.

(** ** One channel of a band *)

Definition NORM_SCALING : Z := 16384.

(** The round of [quant_band_n1] for one channel. *)
Definition code_n1 (x rem : Z) : S -> (Z * Z) * S :=
  '(sign, rem) <~ (if rem >=? Z.shiftl 1 BITRES then
                     sign <~ bp_bits p (b2z (x <? 0)) 1;
                     dec_ret (sign, rem - Z.shiftl 1 BITRES)
                   else dec_ret (0, rem));
  dec_ret (if c.(resynth) then if negb (sign =? 0) then - NORM_SCALING else NORM_SCALING else x, rem).

Definition quant_band_n1 (X : list Z) (Y : option (list Z)) (rem seed : Z) : S -> band * S :=
  '(x, rem) <~ code_n1 X.[0] rem;
  '(Y, rem) <~ (match Y with
                | Some Y => '(y, rem) <~ code_n1 Y.[0] rem; dec_ret ([y], rem)
                | None => dec_ret ([], rem)
                end);
  dec_ret {| b_cm := 1; b_X := [x]; b_Y := Y; b_out := [SHR16 x 4]; b_rem := rem; b_seed := seed |}.

Definition bit_interleave_table : list Z := [0; 1; 1; 1; 2; 3; 3; 3; 2; 3; 3; 3; 2; 3; 3; 3].
Definition bit_deinterleave_table : list Z :=
  [0; 3; 12; 15; 48; 51; 60; 63; 192; 195; 204; 207; 240; 243; 252; 255].

(** [for (k=0;k<recombine;k++)] before the coding: [X], [lowband] and [fill]. *)
Definition recombine_step (encode : bool) (N : Z) (st : list Z * option (list Z) * Z) (k : Z)
    : list Z * option (list Z) * Z :=
  let '(X, lowband, fill) := st in
  let haar x := haar1 x (Z.shiftr N k) (Z.shiftl 1 k) in
  (if encode then haar X else X, option_map haar lowband,
   Z.lor bit_interleave_table.[Z.land fill 15] (Z.shiftl bit_interleave_table.[Z.shiftr fill 4] 2)).

(** [while ((N_B&1) == 0 && tf_change<0)]: [X], [lowband], [fill], [B], [N_B] and [time_divide]; [n] bounds the rounds,
    of which there are at most [-tf_change]. *)
Fixpoint divide_time (n : nat) (encode : bool) (X : list Z) (lowband : option (list Z))
    (fill B N_B time_divide tf_change : Z) : list Z * option (list Z) * Z * Z * Z * Z :=
  match n with
  | O => (X, lowband, fill, B, N_B, time_divide)
  | Datatypes.S n =>
      if (Z.land N_B 1 =? 0) && (tf_change <? 0) then
        let haar x := haar1 x N_B B in
        divide_time n encode (if encode then haar X else X) (option_map haar lowband)
          (Z.lor fill (Z.shiftl fill B)) (Z.shiftl B 1) (Z.shiftr N_B 1) (time_divide + 1) (tf_change + 1)
      else (X, lowband, fill, B, N_B, time_divide)
  end.

(** [for (k=0;k<time_divide;k++)] after it: [X], [cm], [B] and [N_B]. *)
Definition undivide_step (st : list Z * Z * Z * Z) (k : Z) : list Z * Z * Z * Z :=
  let '(X, cm, B, N_B) := st in
  let B := Z.shiftr B 1 in
  let N_B := Z.shiftl N_B 1 in
  (haar1 X N_B B, Z.lor cm (Z.shiftr cm B), B, N_B).

Definition unrecombine_step (N0 : Z) (st : list Z * Z) (k : Z) : list Z * Z :=
  let '(X, cm) := st in
  (haar1 X (Z.shiftr N0 k) (Z.shiftl 1 k), bit_deinterleave_table.[cm]).

(** The resynthesis after the partition: [X], [cm] and [lowband_out]. *)
Definition quant_band_resynth (N0 recombine time_divide B0 N_B0 : Z) (longBlocks : bool) (X : list Z) (cm : Z)
    : list Z * Z * list Z :=
  let X := if B0 >? 1
           then interleave_hadamard X (Z.shiftr N_B0 recombine) (Z.shiftl B0 recombine) longBlocks else X in
  let '(X, cm, B, _) := for_upto time_divide undivide_step (X, cm, B0, N_B0) in
  let '(X, cm) := for_upto recombine (unrecombine_step N0) (X, cm) in
  let B := Z.shiftl B recombine in
  let n := i16 (celt_sqrt (SHL32 (EXTEND32 N0) 22)) in
  (X, Z.land cm (Z.shiftl 1 B - 1), map (fun x => i16 (MULT16_16_Q15 n x)) X).

(** The copy of [lowband] to [lowband_scratch] is not seen here: lists do not
    change, and where the code works in place ([lowband_scratch] is NULL, in the
    last band only) the array is not read again. *)
Definition quant_band (LM : nat) (X : list Z) (N b B : Z) (lowband : option (list Z)) (gain fill rem seed : Z)
    : S -> band * S :=
  let encode := bp_encode p in
  let N0 := N in
  let longBlocks := B =? 1 in
  let N_B := celt_udiv N B in
  if N =? 1 then quant_band_n1 X None rem seed
  else
    let recombine := if c.(tf_change) >? 0 then c.(tf_change) else 0 in
    let '(X, lowband, fill) := for_upto recombine (recombine_step encode N) (X, lowband, fill) in
    let B := Z.shiftr B recombine in
    let N_B := Z.shiftl N_B recombine in
    let '(X, lowband, fill, B, N_B, time_divide) :=
      divide_time (Z.to_nat (- c.(tf_change))) encode X lowband fill B N_B 0 c.(tf_change) in
    let shuffle x := deinterleave_hadamard x (Z.shiftr N_B recombine) (Z.shiftl B recombine) longBlocks in
    let '(X, lowband) :=
      if B >? 1 then (if encode then shuffle X else X, option_map shuffle lowband) else (X, lowband) in
    r <~ quant_partition (Datatypes.S LM) X N b B lowband gain fill rem seed;
    let '(X, cm, out) :=
      if c.(resynth) then quant_band_resynth N0 recombine time_divide B N_B longBlocks r.(q_X) r.(q_cm)
      else (r.(q_X), r.(q_cm), []) in
    dec_ret {| b_cm := cm; b_X := X; b_Y := []; b_out := out; b_rem := r.(q_rem); b_seed := r.(q_seed) |}.

(** ** Two channels *)

(** [N=2]: mid and side are orthogonal, the side is coded with one bit. *)
Definition quant_band_stereo2 (LM : nat) (sp : split_ctx) (X Y : list Z) (B : Z) (lowband : option (list Z))
    (orig_fill rem seed : Z) : S -> band * S :=
  let sbits := if negb (sp.(itheta) =? 0) && negb (sp.(itheta) =? 16384) then Z.shiftl 1 BITRES else 0 in
  let mbits := sp.(sp_b) - sbits in
  let c2 := sp.(itheta) >? 8192 in
  let rem := rem - (sp.(qalloc) + sbits) in
  let '(x2, y2) := if c2 then (Y, X) else (X, Y) in
  sign <~ (if negb (sbits =? 0)
           then bp_bits p (b2z (i32 (x2.[0] * y2.[1] - x2.[1] * y2.[0]) <? 0)) 1
           else dec_ret 0);
  let sign := 1 - 2 * sign in
  r <~ quant_band LM x2 2 mbits B lowband Q15ONE orig_fill rem seed;
  let x2 := r.(b_X) in
  let y2 := [i16 (- sign * x2.[1]); i16 (sign * x2.[0])] in
  let '(X, Y) := if c2 then (y2, x2) else (x2, y2) in
  let '(X, Y) :=
    if c.(resynth) then
      let X := map (fun x => i16 (MULT16_16_Q15 sp.(imid) x)) X in
      let Y := map (fun y => i16 (MULT16_16_Q15 sp.(iside) y)) Y in
      (map2 (fun x y => i16 (SUB16 x y)) X Y, map2 (fun x y => ADD16 x y) X Y)
    else (X, Y) in
  dec_ret {| b_cm := r.(b_cm); b_X := X; b_Y := Y; b_out := r.(b_out); b_rem := r.(b_rem); b_seed := r.(b_seed) |}.

(** The mid first if it has more bits, else the side. *)
Definition quant_band_split (LM : nat) (sp : split_ctx) (X Y : list Z) (N B : Z) (lowband : option (list Z))
    (rem seed : Z) : S -> band * S :=
  let fill := sp.(sp_fill) in
  let mbits := mid_bits sp.(sp_b) sp.(delta) in
  let sbits := sp.(sp_b) - mbits in
  let rem := rem - sp.(qalloc) in
  if mbits >=? sbits then
    r1 <~ quant_band LM X N mbits B lowband Q15ONE fill rem seed;
    let sbits := rebalanced sbits mbits rem r1.(b_rem) (negb (sp.(itheta) =? 0)) in
    r2 <~ quant_band LM Y N sbits B None sp.(iside) (Z.shiftr fill B) r1.(b_rem) r1.(b_seed);
    dec_ret {| b_cm := Z.lor r1.(b_cm) r2.(b_cm); b_X := r1.(b_X); b_Y := r2.(b_X); b_out := r1.(b_out);
               b_rem := r2.(b_rem); b_seed := r2.(b_seed) |}
  else
    r2 <~ quant_band LM Y N sbits B None sp.(iside) (Z.shiftr fill B) rem seed;
    let mbits := rebalanced mbits sbits rem r2.(b_rem) (negb (sp.(itheta) =? 16384)) in
    r1 <~ quant_band LM X N mbits B lowband Q15ONE fill r2.(b_rem) r2.(b_seed);
    dec_ret {| b_cm := Z.lor r2.(b_cm) r1.(b_cm); b_X := r1.(b_X); b_Y := r2.(b_X); b_out := r1.(b_out);
               b_rem := r1.(b_rem); b_seed := r1.(b_seed) |}.

Definition quant_band_stereo (LM : nat) (X Y : list Z) (N b B : Z) (lowband : option (list Z)) (fill rem seed : Z)
    : S -> band * S :=
  if N =? 1 then quant_band_n1 X (Some Y) rem seed
  else
    '(sp, X, Y) <~ compute_theta p c rem X Y N b B B (Z.of_nat LM) true fill;
    r <~ (if N =? 2 then quant_band_stereo2 LM sp X Y B lowband fill rem seed
          else quant_band_split LM sp X Y N B lowband rem seed);
    let '(X, Y) := if c.(resynth) && negb (N =? 2) then stereo_merge r.(b_X) r.(b_Y) sp.(imid)
                   else (r.(b_X), r.(b_Y)) in
    let Y := if c.(resynth) && sp.(inv) then map (fun y => i16 (- y)) Y else Y in
    dec_ret {| b_cm := r.(b_cm); b_X := X; b_Y := Y; b_out := r.(b_out); b_rem := r.(b_rem); b_seed := r.(b_seed) |}.
End Band.
End Bands.
