(* ===== verification/AllBands.v ===== *)
(** * All bands of a frame (celt/bands.c, quant_all_bands)

    The loop over the bands: how many bits a band gets from its allocation and
    what the previous ones have left, where a band without pulses is copied
    from, the switch from dual to intensity stereo, and the encoder's choice
    between two roundings of the angle. *)

From S2P Require Import Prelude RangeCoder EntropyInterface EntropySeq EntCode CwrsTable Cwrs FixedPoint MathOps Vq CeltMode QuantBands BandOps Theta Bands.

(** The arguments that both sides have. *)
Record bands_in := {
  in_m : CELTMode;
  in_start : Z;
  in_end : Z;
  in_LM : nat;
  in_pulses : list Z;
  in_shortBlocks : bool;
  in_spread : Z;
  in_intensity : Z;
  in_tf_res : list Z;
  in_total_bits : Z;
  in_codedBands : Z;
  in_disable_inv : bool
}.

(** The local state of the loop.  [norm] and [norm2] are lists of what has been
    written, from the start of the arrays; likewise [collapse_masks], with
    the masks of the first and of the last channel of the bands from [start]
    on.  [st_X] and [st_Y] are the coefficients of those bands afterwards. *)
Record bands_st := {
  st_balance : Z;
  st_dual_stereo : bool;
  st_norm : list Z;
  st_norm2 : list Z;
  st_lowband_offset : Z;
  st_update_lowband : bool;
  st_avoid_split_noise : bool;
  st_seed : Z;
  st_xmask : list Z;
  st_ymask : list Z;
  st_X : list Z;
  st_Y : list Z
}.

Section Loop.
Context (f : bands_in).

Definition M : Z := Z.shiftl 1 (Z.of_nat f.(in_LM)).
Definition blocks : Z := if f.(in_shortBlocks) then M else 1.
Definition eband (i : Z) : Z := M * f.(in_m).(eBands).[i].
Definition band_N (i : Z) : Z := eband (i + 1) - eband i.
Definition norm_offset : Z := eband f.(in_start).
Definition last_band (i : Z) : bool := i =? f.(in_end) - 1.

(** [b], from the balance and the bits that remain. *)
Definition band_bits (i balance remaining_bits : Z) : Z :=
  if i <=? f.(in_codedBands) - 1 then
    let curr_balance := celt_sudiv balance (Z.min 3 (f.(in_codedBands) - i)) in
    Z.max 0 (Z.min 16383 (Z.min (remaining_bits + 1) (f.(in_pulses).[i] + curr_balance)))
  else 0.

(** Duplicate enough of the first band to be able to fold the second one. *)
Definition special_hybrid_folding (norm : list Z) : list Z :=
  let n1 := band_N f.(in_start) in
  let n2 := band_N (f.(in_start) + 1) in
  splice norm n1 (slice norm (2 * n1 - n2) (n2 - n1)).

(** The position to fold from: the arrays, and [lowband_offset], at band [i]. *)
Definition folding_position (resynth : bool) (i lowband_offset : Z) (update_lowband : bool) : Z :=
  if resynth && ((eband i - band_N i >=? eband f.(in_start)) || (i =? f.(in_start) + 1))
     && (update_lowband || (lowband_offset =? 0))
  then i else lowband_offset.

(** [effective_lowband], never repeating content within a band *)
Definition effective_lowband (i lowband_offset : Z) : Z :=
  Z.max 0 (eband lowband_offset - norm_offset - band_N i).

(** The bands that band [i] is folded from. *)
Definition fold_bands (i lowband_offset : Z) : Z * Z :=
  let eff := effective_lowband i lowband_offset in
  (while_fuel (Z.to_nat lowband_offset) (fun k => eband k >? eff + norm_offset) (fun k => k - 1) (lowband_offset - 1),
   while_fuel (Z.to_nat i) (fun k => (k <? i) && (eband k <? eff + norm_offset + band_N i)) (fun k => k + 1)
     lowband_offset).

(** [do cm |= collapse_masks[fold_i]; while (++fold_i<fold_end);] *)
Definition fold_mask (masks : list Z) (fold_start fold_end : Z) : Z :=
  for_upto (Z.max 1 (fold_end - fold_start))
    (fun cm k => Z.lor cm masks.[fold_start + k - f.(in_start)]) 0.

(** [effective_lowband], or [None] for -1, and the masks of the bands folded from. *)
Definition fold_region (st : bands_st) (i lowband_offset tf_change : Z) : option Z * Z * Z :=
  if negb (lowband_offset =? 0)
     && (negb (f.(in_spread) =? SPREAD_AGGRESSIVE) || (blocks >? 1) || (tf_change <? 0)) then
    let '(fold_start, fold_end) := fold_bands i lowband_offset in
    (Some (effective_lowband i lowband_offset),
     fold_mask st.(st_xmask) fold_start fold_end, fold_mask st.(st_ymask) fold_start fold_end)
  else (None, Z.shiftl 1 blocks - 1, Z.shiftl 1 blocks - 1).

(** [norm+effective_lowband] *)
Definition lowband_of (norm : list Z) (eff : option Z) (N : Z) : option (list Z) :=
  option_map (fun e => slice norm e N) eff.

(** [lowband_out]: not for the last band. *)
Definition store_norm (norm : list Z) (i : Z) (out : list Z) : list Z :=
  if last_band i then norm else splice norm (eband i - norm_offset) out.

(** Switch off dual stereo to do intensity. *)
Definition merge_norms (norm norm2 : list Z) (i : Z) : list Z :=
  let n := Z.to_nat (eband i - norm_offset) in
  splice norm 0 (map2 (fun x y => i16 (HALF32 (x + y))) (take n norm) (take n norm2)).

(** What a round does before it codes: [lowband_offset], [effective_lowband], the masks [x_cm] and [y_cm],
    [dual_stereo], [norm] and [norm2]. *)
Definition band_prep (resynth : bool) (i : Z) (st : bands_st) : Z * option Z * Z * Z * bool * list Z * list Z :=
  let lowband_offset := folding_position resynth i st.(st_lowband_offset) st.(st_update_lowband) in
  let '(norm, norm2) :=
    if i =? f.(in_start) + 1 then
      (special_hybrid_folding st.(st_norm),
       if st.(st_dual_stereo) then special_hybrid_folding st.(st_norm2) else st.(st_norm2))
    else (st.(st_norm), st.(st_norm2)) in
  let '(eff, x_cm, y_cm) := fold_region st i lowband_offset f.(in_tf_res).[i] in
  let '(dual_stereo, norm) :=
    if st.(st_dual_stereo) && (i =? f.(in_intensity))
    then (false, if resynth then merge_norms norm norm2 i else norm)
    else (st.(st_dual_stereo), norm) in
  (lowband_offset, eff, x_cm, y_cm, dual_stereo, norm, norm2).

Section Coder.
Context `{SignalAnalysis} {S : Type} (p : band_port S).
(** The encoder's further arguments. *)
Context (theta_rdo RESYNTH : bool) (bandE_ : list Z).

(** [resynth = !encode || theta_rdo], or 1 in a build with RESYNTH. *)
Definition resynth_ : bool := negb (bp_encode p) || theta_rdo || RESYNTH.

Definition ctx_of (i theta_round : Z) (avoid : bool) : band_ctx := {|
  resynth := resynth_; bc_m := f.(in_m); bc_i := i; bc_intensity := f.(in_intensity); spread := f.(in_spread);
  tf_change := f.(in_tf_res).[i]; bandE := bandE_; theta_round := theta_round;
  disable_inv := f.(in_disable_inv); avoid_split_noise := avoid |}.

(** The distortion that the encoder compares. *)
Definition rdo_dist (w : Z * Z) (X Y : list Z) (r : band) : Z :=
  i32 (MULT16_32_Q15 w.1 (celt_inner_prod X r.(b_X)) + MULT16_32_Q15 w.2 (celt_inner_prod Y r.(b_Y))).

(** [if (theta_rdo && i < intensity)]: code the band with the angle rounded down and then up, from
    the same state of the coder, and keep the better one.  [norm] is what the first try has left. *)
Definition quant_band_rdo (i : Z) (avoid : bool) (X Y : list Z) (b : Z) (eff : option Z) (norm : list Z) (cm rem seed : Z)
    : S -> (band * list Z) * S :=
  fun s =>
    let N := band_N i in
    let w := compute_channel_weights bandE_.[i] bandE_.[i + f.(in_m).(nbEBands)] in
    let try round norm :=
      quant_band_stereo p (ctx_of i round avoid) f.(in_LM) X Y N b blocks (lowband_of norm eff N) cm rem seed s in
    let '(r0, s0) := try (-1) norm in
    let norm := store_norm norm i r0.(b_out) in
    let norm := if i =? f.(in_start) + 1 then special_hybrid_folding norm else norm in
    let '(r1, s1) := try 1 norm in
    let norm := store_norm norm i r1.(b_out) in
    if rdo_dist w X Y r0 >=? rdo_dist w X Y r1 then ((r0, store_norm norm i r0.(b_out)), s0)
    else ((r1, norm), s1).

(** The band as one or two channels: the masks, the coefficients, [norm], [norm2] and [seed]. *)
Definition code_band (i : Z) (dual_stereo avoid : bool) (X : list Z) (Y : option (list Z)) (b : Z) (eff : option Z)
    (norm norm2 : list Z) (x_cm y_cm rem seed : Z)
    : S -> (Z * Z * list Z * list Z * list Z * list Z * Z) * S :=
  let N := band_N i in
  let c := ctx_of i 0 avoid in
  match Y with
  | Some Y =>
      if dual_stereo then
        rx <~ quant_band p c f.(in_LM) X N (Z.quot b 2) blocks (lowband_of norm eff N) Q15ONE x_cm rem seed;
        ry <~ quant_band p c f.(in_LM) Y N (Z.quot b 2) blocks (lowband_of norm2 eff N) Q15ONE y_cm
                rx.(b_rem) rx.(b_seed);
        dec_ret (rx.(b_cm), ry.(b_cm), rx.(b_X), ry.(b_X), store_norm norm i rx.(b_out),
                 store_norm norm2 i ry.(b_out), ry.(b_seed))
      else
        '(r, norm) <~ (if theta_rdo && (i <? f.(in_intensity)) then
                         quant_band_rdo i avoid X Y b eff norm (Z.lor x_cm y_cm) rem seed
                       else
                         r <~ quant_band_stereo p c f.(in_LM) X Y N b blocks (lowband_of norm eff N)
                                (Z.lor x_cm y_cm) rem seed;
                         dec_ret (r, store_norm norm i r.(b_out)));
        dec_ret (r.(b_cm), r.(b_cm), r.(b_X), r.(b_Y), norm, norm2, r.(b_seed))
  | None =>
      r <~ quant_band p c f.(in_LM) X N b blocks (lowband_of norm eff N) Q15ONE (Z.lor x_cm y_cm) rem seed;
      dec_ret (r.(b_cm), r.(b_cm), r.(b_X), [], store_norm norm i r.(b_out), norm2, r.(b_seed))
  end.

(** One round of the loop.  The mode is the standard one, whose [effEBands] is 21, all its bands, and [end] is at most 21:
    [i >= m->effEBands] does not occur, and [X] and [Y] are always the band of the spectrum. *)
Definition band_step (X_ : list Z) (Y_ : option (list Z)) (i : Z) (st : bands_st) : S -> bands_st * S :=
  let N := band_N i in
  let X := slice X_ (eband i) N in
  let Y := option_map (fun Y_ => slice Y_ (eband i) N) Y_ in
  tell <~ read (bp_tell_frac p);
  let balance := if negb (i =? f.(in_start)) then st.(st_balance) - tell else st.(st_balance) in
  let remaining_bits := f.(in_total_bits) - tell - 1 in
  let b := band_bits i balance remaining_bits in
  let '(lowband_offset, eff, x_cm, y_cm, dual_stereo, norm, norm2) := band_prep resynth_ i st in
  '(x_cm, y_cm, X, Y, norm, norm2, seed) <~
    code_band i dual_stereo st.(st_avoid_split_noise) X Y b eff norm norm2 x_cm y_cm remaining_bits st.(st_seed);
  dec_ret {| st_balance := balance + (f.(in_pulses).[i] + tell); st_dual_stereo := dual_stereo;
             st_norm := norm; st_norm2 := norm2; st_lowband_offset := lowband_offset;
             st_update_lowband := b >? Z.shiftl N BITRES; st_avoid_split_noise := false; st_seed := seed;
             st_xmask := st.(st_xmask) ++ [u8 x_cm]; st_ymask := st.(st_ymask) ++ [u8 y_cm];
             st_X := st.(st_X) ++ X; st_Y := st.(st_Y) ++ Y |}.

Fixpoint bands_loop (n : nat) (X_ : list Z) (Y_ : option (list Z)) (i : Z) (st : bands_st) : S -> bands_st * S :=
  match n with
  | O => dec_ret st
  | Datatypes.S n => st <~ band_step X_ Y_ i st; bands_loop n X_ Y_ (i + 1) st
  end.

End Coder.

(** The encoder tries both roundings of the angle at high complexity. *)
Definition theta_rdo_ (encode dual_stereo : bool) (complexity : Z) (Y_ : option (list Z)) : bool :=
  encode && match Y_ with Some _ => true | None => false end && negb dual_stereo && (complexity >=? 8).

Definition quant_all_bands `{SignalAnalysis} {S : Type} (p : band_port S) (RESYNTH : bool) (bandE_ : list Z)
    (complexity : Z) (dual_stereo : bool) (balance seed : Z) (X_ : list Z) (Y_ : option (list Z)) : S -> bands_st * S :=
  let theta_rdo := theta_rdo_ (bp_encode p) dual_stereo complexity Y_ in
  bands_loop p theta_rdo RESYNTH bandE_ (Z.to_nat (f.(in_end) - f.(in_start))) X_ Y_ f.(in_start)
    {| st_balance := balance; st_dual_stereo := dual_stereo; st_norm := []; st_norm2 := [];
       st_lowband_offset := 0; st_update_lowband := true; st_avoid_split_noise := blocks >? 1;
       st_seed := seed; st_xmask := []; st_ymask := []; st_X := []; st_Y := [] |}.
End Loop.
