(* ===== verification/ThetaProofs.v ===== *)
(** * The angle is decoded as it was coded

    The resolution [qn] is 1 or an even number up to 256; for every resolution
    the three distributions are inverted by the decoder, the triangular one with
    [isqrt32]; and the encoder never leaves the [qn+1] levels. *)

From S2P Require Import Prelude RangeCoder EntropyInterface EntropySeq EntCode CwrsTable Cwrs FixedPoint MathOps Vq CeltMode QuantBands BandOps Theta.

(** ** Resolution *)

Definition qn_ok (qn : Z) : Prop := 2 <= qn <= 256 /\ qn = 2 * Z.shiftr qn 1.

Definition qn_of_qb (qb : Z) : Z :=
  Z.shiftl (Z.shiftr (Z.shiftr exp2_table8.[Z.land qb 7] (14 - Z.shiftr qb BITRES) + 1) 1) 1.

Lemma qn_table : zforall 61 4 (fun qb => (2 <=? qn_of_qb qb) && (qn_of_qb qb <=? 256)
                                         && (qn_of_qb qb =? 2 * Z.shiftr (qn_of_qb qb) 1)) = true.
Proof. vm_compute. reflexivity. Qed.

(** The assertion at the end of [compute_qn]. *)
Lemma compute_qn_ok N b offset pulse_cap stereo :
  compute_qn N b offset pulse_cap stereo = 1 \/ qn_ok (compute_qn N b offset pulse_cap stereo).
Proof.
  unfold compute_qn. cbv zeta. set (qb := Z.min (Z.shiftl 8 BITRES) _).
  assert (qb <= 64) by (subst qb; change (Z.shiftl 8 BITRES) with 64; lia). clearbody qb.
  change (Z.shiftr (Z.shiftl 1 BITRES) 1) with 4. destruct (Z.ltb_spec qb 4); [by left|right].
  fold (qn_of_qb qb). pose proof (zforall_spec _ _ _ qb qn_table ltac:(lia)) as Hq. cbv beta in Hq.
  rewrite !andb_true_iff in Hq. destruct Hq as [[H1 H2] H3]. apply Z.leb_le in H1, H2. apply Z.eqb_eq in H3.
  by split.
Qed.

Lemma compute_qn_split N b offset pulse_cap stereo :
  4 <= Z.min (b - pulse_cap - 32) (Z.quot (b + (if stereo && (N =? 2) then 2 * N - 1 - 1 else 2 * N - 1) * offset)
                                     (if stereo && (N =? 2) then 2 * N - 1 - 1 else 2 * N - 1)) ->
  compute_qn N b offset pulse_cap stereo <> 1.
Proof.
  intros Hq. unfold compute_qn. cbv zeta. change (Z.shiftl 4 BITRES) with 32. change (Z.shiftl 8 BITRES) with 64.
  change (Z.shiftr (Z.shiftl 1 BITRES) 1) with 4. unfold celt_sudiv.
  set (qb := Z.min (b - pulse_cap - 32) _) in *. clearbody qb.
  destruct (Z.ltb_spec (Z.min 64 qb) 4); [lia|].
  fold (qn_of_qb (Z.min 64 qb)).
  pose proof (zforall_spec _ _ _ (Z.min 64 qb) qn_table ltac:(lia)) as H1. cbv beta in H1.
  rewrite !andb_true_iff in H1. destruct H1 as [[H1 _] _]. apply Z.leb_le in H1. lia.
Qed.

Lemma theta_qn_ok c N b LM stereo : theta_qn c N b LM stereo = 1 \/ qn_ok (theta_qn c N b LM stereo).
Proof. unfold theta_qn. destruct (stereo && _); [by left|]. apply compute_qn_ok. Qed.

(** ** Distributions *)

Section Levels.
Context (qn h : Z).
Hypothesis (Hh : 1 <= h <= 128) (Eq : qn = 2 * h).

Lemma half_qn : Z.shiftr qn 1 = h.
Proof. rewrite Z.shiftr_div_pow2 by lia. change (2 ^ 1) with 2. dlia. Qed.

Lemma step_ok x :
  0 <= x <= qn -> let '(fl, fh) := step_interval h x in
  0 <= fl < fh /\ fh <= 3 * (h + 1) + h /\ forall fs, fl <= fs < fh -> step_find h fs = (x, fl, fh).
Proof.
  intros Hx. unfold step_find, step_interval. cbv zeta.
  destruct (Z.leb_spec x h) as [Hl|Hl]; (split; [lia|split; [lia|]]); intros fs Hfs.
  - destruct (Z.ltb_spec fs ((h + 1) * 3)); [|lia]. rewrite Z.quot_div_nonneg by lia.
    assert (fs / 3 = x) as -> by dlia. by destruct (Z.leb_spec x h); [|lia].
  - destruct (Z.ltb_spec fs ((h + 1) * 3)); [lia|].
    replace (h + 1 + (fs - (h + 1) * 3)) with x by lia. by destruct (Z.leb_spec x h); [lia|].
Qed.

Lemma step_safe fs :
  0 <= fs < 3 * (h + 1) + h ->
  0 <= (step_find h fs).1.1 <= qn /\ 0 <= (step_find h fs).1.2 <= fs /\
  fs < (step_find h fs).2 <= 3 * (h + 1) + h.
Proof.
  intros Hfs. assert (exists x, 0 <= x <= qn /\ (step_interval h x).1 <= fs < (step_interval h x).2) as (x & Hx & Hin).
  { unfold step_interval. destruct (Z.ltb_spec fs ((h + 1) * 3)).
    - exists (fs / 3). destruct (Z.leb_spec (fs / 3) h); cbn [fst snd]; dlia.
    - exists (h + 1 + (fs - (h + 1) * 3)). destruct (Z.leb_spec (h + 1 + (fs - (h + 1) * 3)) h); cbn [fst snd]; lia. }
  pose proof (step_ok x Hx) as Ho. destruct (step_interval h x) as [fl fh]. cbn [fst snd] in Hin.
  destruct Ho as (H1 & H2 & H3). rewrite (H3 fs Hin). cbn [fst snd]. lia.
Qed.

Lemma tri_half a : Z.shiftr (a * (a + 1)) 1 = a * (a + 1) / 2.
Proof. by rewrite Z.shiftr_div_pow2 by lia. Qed.

Lemma tri_even a : 2 * (a * (a + 1) / 2) = a * (a + 1).
Proof.
  assert ((a * (a + 1)) mod 2 = 0) as E.
  { rewrite <- Z.mul_mod_idemp_l, <- Z.mul_mod_idemp_r by lia. pose proof (Z.mod_pos_bound a 2).
    destruct (decide (a mod 2 = 0)) as [->|]; [done|].
    replace ((a + 1) mod 2) with 0 by dlia. by rewrite Z.mul_0_r. }
  dlia.
Qed.

(** The square root finds the row of a triangle: [g] between the [y-1]st and [y]th triangular number. *)
Lemma tri_root g y :
  1 <= y <= 130 -> y * (y - 1) <= 2 * g < y * (y + 1) ->
  2 * y - 1 <= isqrt32 (u32 (8 * g + 1)) <= 2 * y.
Proof.
  intros Hy Hg. rewrite u32_small by nia. rewrite isqrt32_sqrt by nia.
  destruct (Z.sqrt_spec (8 * g + 1) ltac:(nia)) as [H1 H2]. pose proof (Z.sqrt_nonneg (8 * g + 1)).
  set (s := Z.sqrt (8 * g + 1)) in *. clearbody s. nia.
Qed.

Lemma tri_ok x :
  0 <= x <= qn -> let '(fl, fh) := tri_interval qn x in
  0 <= fl < fh /\ fh <= tri_total qn /\ forall fm, fl <= fm < fh -> tri_find qn fm = (x, fl, fh).
Proof.
  intros Hx. unfold tri_interval, tri_find, tri_total. cbv zeta. rewrite half_qn.
  pose proof (tri_even x) as Ex. pose proof (tri_even (qn + 1 - x)) as Ey. pose proof (tri_even h) as Eh.
  replace (qn + 2 - x) with (qn + 1 - x + 1) by lia. rewrite !tri_half.
  set (tx := x * (x + 1) / 2) in *. set (ty := (qn + 1 - x) * (qn + 1 - x + 1) / 2) in *.
  set (th := h * (h + 1) / 2) in *.
  assert (x = h -> tx = (h + 1) * (h + 1) - ty) as Exh by (intros ->; nia).
  assert (forall fm, fm < th -> tx <= fm < tx + (x + 1) -> x <= h ->
    Z.shiftr (u32 (isqrt32 (u32 (8 * fm + 1)) - 1)) 1 = x) as Hlow.
  { intros fm Hfm Hin Hxh. pose proof (tri_root fm (x + 1) ltac:(lia) ltac:(clear - Ex Hin; lia)).
    rewrite Z.shiftr_div_pow2, u32_small by lia. change (2 ^ 1) with 2. dlia. }
  assert (forall fm, h <= x -> (h + 1) * (h + 1) - ty <= fm < (h + 1) * (h + 1) - ty + (qn + 1 - x) ->
    Z.shiftr (u32 (2 * (qn + 1) - isqrt32 (u32 (8 * ((h + 1) * (h + 1) - fm - 1) + 1)))) 1 = x) as Hhigh.
  { intros fm Hhx Hin. pose proof (tri_root ((h + 1) * (h + 1) - fm - 1) (qn + 1 - x) ltac:(lia) ltac:(clear - Ey Hin; lia)).
    rewrite Z.shiftr_div_pow2, u32_small by lia. change (2 ^ 1) with 2. dlia. }
  assert (0 <= tx /\ 0 <= th /\ (x <= h -> tx <= th) /\ (h < x -> th + h + 1 <= (h + 1) * (h + 1) - ty)) as (P1 & P2 & P3 & P4).
  { clearbody tx ty th. clear - Ex Ey Eh Hx Hh Eq. split_and!; [nia..| |]; intros Hxh.
    - assert (x * (x + 1) <= h * (h + 1)) by (apply Z.mul_le_mono_nonneg; lia). lia.
    - assert ((qn + 1 - x) * (qn + 1 - x + 1) <= h * (h + 1)) by (apply Z.mul_le_mono_nonneg; lia). pose proof (Z.square_nonneg h). lia. }
  assert (tx + (x + 1) <= th \/ h <= x) as P5.
  { destruct (decide (h <= x)); [by right|left]. assert ((x + 1) * (x + 2) <= h * (h + 1)) by (apply Z.mul_le_mono_nonneg; lia). lia. }
  assert (qn + 1 - x <= ty) as P6 by (clearbody ty; clear - Ey Hx; nia). pose proof (Z.square_nonneg h) as P7.
  destruct (Z.leb_spec x h) as [Hl|Hl]; (split; [lia|split; [lia|]]); intros fm Hin.
  - destruct (Z.ltb_spec fm th) as [Ht|Ht].
    + rewrite Hlow by lia. by rewrite tri_half.
    + assert (x = h) as -> by lia. specialize (Exh eq_refl). rewrite Hhigh by lia.
      replace (qn + 2 - h) with (qn + 1 - h + 1) by lia. rewrite tri_half. fold ty. f_equal; [f_equal|]; lia.
  - destruct (Z.ltb_spec fm th) as [Ht|Ht]; [lia|]. rewrite Hhigh by lia.
    replace (qn + 2 - x) with (qn + 1 - x + 1) by lia. by rewrite tri_half.
Qed.

Lemma tri_safe fm :
  0 <= fm < tri_total qn ->
  0 <= (tri_find qn fm).1.1 <= qn /\ 0 <= (tri_find qn fm).1.2 <= fm /\ fm < (tri_find qn fm).2 <= tri_total qn.
Proof.
  intros Hfm. assert (exists x, 0 <= x <= qn /\ (tri_interval qn x).1 <= fm < (tri_interval qn x).2) as (x & Hx & Hin).
  { unfold tri_interval, tri_total in *. rewrite half_qn in *.
    destruct (Z.ltb_spec fm (h * (h + 1) / 2)) as [Hl|Hl].
    - set (s := Z.sqrt (8 * fm + 1)). destruct (Z.sqrt_spec (8 * fm + 1) ltac:(lia)) as [S1 S2]. fold s in S1, S2.
      pose proof (Z.sqrt_nonneg (8 * fm + 1)) as S0. fold s in S0. clearbody s.
      exists ((s - 1) / 2). set (x := (s - 1) / 2). assert (s = 2 * x + 1 \/ s = 2 * x + 2) as Hs by (subst x; dlia).
      clearbody x. pose proof (tri_even x) as Ex. pose proof (tri_even h) as Eh.
      assert (x <= h) by nia. destruct (Z.leb_spec x h); [|lia]. rewrite tri_half. cbn [fst snd].
      set (tx := x * (x + 1) / 2) in *. clearbody tx. nia.
    - set (g := (h + 1) * (h + 1) - fm - 1). set (s := Z.sqrt (8 * g + 1)). pose proof (tri_even h) as Eh.
      assert (0 <= g) by (subst g; lia).
      destruct (Z.sqrt_spec (8 * g + 1) ltac:(lia)) as [S1 S2]. fold s in S1, S2.
      pose proof (Z.sqrt_nonneg (8 * g + 1)) as S0. fold s in S0. clearbody s.
      set (y := (s + 1) / 2). assert (s = 2 * y - 1 \/ s = 2 * y) as Hs by (subst y; dlia). clearbody y.
      assert (y * (y - 1) <= 2 * g < y * (y + 1)) as Hg by nia. assert (1 <= y <= h + 1) by (subst g; nia).
      exists (qn + 1 - y). pose proof (tri_even y) as Ey. pose proof (tri_even (qn + 1 - y)) as Ex.
      destruct (Z.leb_spec (qn + 1 - y) h).
      + assert (y = h + 1) as -> by lia. replace (qn + 1 - (h + 1)) with h in * by lia. rewrite tri_half. cbn [fst snd]. subst g. lia.
      + replace (qn + 1 - (qn + 1 - y)) with y by lia. replace (qn + 2 - (qn + 1 - y)) with (y + 1) by lia.
        rewrite tri_half. cbn [fst snd]. subst g. lia. }
  pose proof (tri_ok x Hx) as Ho. destruct (tri_interval qn x) as [fl fh]. cbn [fst snd] in Hin.
  destruct Ho as (H1 & H2 & H3). rewrite (H3 fm Hin). cbn [fst snd]. lia.
Qed.
End Levels.

(** ** Coding *)

Section Code.
Context `{A : SignalAnalysis} `{EntropyCoder E D}.

Lemma qn_half qn : qn_ok qn -> 1 <= Z.shiftr qn 1 <= 128 /\ qn = 2 * Z.shiftr qn 1 /\ Z.quot qn 2 = Z.shiftr qn 1.
Proof.
  intros [Hq E1]. set (h := Z.shiftr qn 1) in *. clearbody h. rewrite E1.
  rewrite Z.quot_div_nonneg by lia. split; [lia|]. split; [done|]. dlia.
Qed.

(** What the encoder writes as level [x] the decoder reads as [x]. *)
Lemma codes_theta stereo N B0 qn x x' :
  qn_ok qn -> 0 <= x <= qn ->
  codes (fun s => (code_theta enc_band stereo N B0 qn x s).2) (code_theta dec_band stereo N B0 qn x') x.
Proof.
  intros Hq Hx. destruct (qn_half qn Hq) as (Hh & E1 & E2). destruct Hq as [Hq _]. unfold code_theta.
  destruct (stereo && (N >? 2)).
  - rewrite E2. pose proof (step_ok qn (Z.shiftr qn 1) Hh E1 x Hx) as Ho.
    destruct (step_interval _ x) as [fl fh]. destruct (step_interval _ x') as [fl' fh'].
    destruct Ho as (H1 & H2 & H3). cbn [bp_symbol enc_band dec_band snd]. apply codes_freq; [done|done|lia|done].
  - destruct ((B0 >? 1) || stereo).
    + cbn [bp_uint enc_band dec_band snd]. apply codes_uint; lia.
    + pose proof (tri_ok qn (Z.shiftr qn 1) Hh E1 x Hx) as Ho.
      destruct (tri_interval qn x) as [fl fh]. destruct (tri_interval qn x') as [fl' fh'].
      destruct Ho as (H1 & H2 & H3). cbn [bp_symbol enc_band dec_band snd]. apply codes_freq; [done|done| |done].
      unfold tri_total. nia.
Qed.

(** On arbitrary data the decoder reads one of the levels. *)
Lemma yields_theta stereo N B0 qn x' :
  qn_ok qn -> yields dec_inv (code_theta dec_band stereo N B0 qn x') (fun x => 0 <= x <= qn).
Proof.
  intros Hq. destruct (qn_half qn Hq) as (Hh & E1 & E2). destruct Hq as [Hq _]. unfold code_theta.
  destruct (stereo && (N >? 2)).
  - rewrite E2. destruct (step_interval _ x') as [fl fh]. cbn [bp_symbol dec_band].
    apply yields_freq; [lia|]. intros fs Hfs. by apply step_safe.
  - destruct ((B0 >? 1) || stereo).
    + cbn [bp_uint dec_band]. eapply yields_impl; [apply yields_uint; lia|]. cbv beta. lia.
    + destruct (tri_interval qn x') as [fl fh]. cbn [bp_symbol dec_band]. apply yields_freq.
      * unfold tri_total. nia.
      * intros fs Hfs. by apply (tri_safe qn (Z.shiftr qn 1)).
Qed.

(** The encoder's level is one of the [qn+1]. *)
Lemma quant_theta_range c stereo N b qn t :
  1 <= qn <= 256 -> 0 <= t <= 16384 -> 0 <= quant_theta c stereo N b qn t <= qn.
Proof.
  intros Hq Ht. unfold quant_theta. cbv zeta.
  assert (0 <= Z.shiftr (t * qn + 8192) 14 <= qn) as H1.
  { rewrite Z.shiftr_div_pow2 by lia. change (2 ^ 14) with 16384. split; [apply Z.div_pos; nia|].
    apply Z.lt_succ_r, Z.div_lt_upper_bound; nia. }
  destruct (negb stereo || _); [repeat case_match; lia|]. destruct (_ <? 0); lia.
Qed.
End Code.
