(* ===== verification/BandsSync.v ===== *)
(** * Decoder and resynthesising encoder compute the same bands

    The encoder that resynthesises and the decoder are in [sync] at every level:
    the angle, a partition, a band.  The decoder finds the
    coefficients, collapse masks, random seed and remaining bits that the
    encoder holds after the band, although it starts from other coefficients. *)

From S2P Require Import Prelude RangeCoder EntropyInterface EntropySeq EntCode CwrsTable Cwrs CwrsProps FixedPoint MathOps Vq VqProofs CeltMode QuantBands PulseCacheProofs BandOps Theta ThetaProofs Bands.

(** The contexts of the two sides differ in what only the encoder uses. *)
Record ctx_sim (c c' : band_ctx) : Prop := {
  sim_resynth : c.(resynth) = true /\ c'.(resynth) = true;
  sim_m : c.(bc_m) = c'.(bc_m);
  sim_i : c.(bc_i) = c'.(bc_i);
  sim_intensity : c.(bc_intensity) = c'.(bc_intensity);
  sim_spread : c.(spread) = c'.(spread);
  sim_tf_change : c.(tf_change) = c'.(tf_change);
  sim_disable_inv : c.(disable_inv) = c'.(disable_inv)
}.

(** What the coder needs to know about a mode, for band [i]: every number of
    pulses that a leaf may use has a codeword, and a split is always fine enough
    to have an angle of its own.  [n] is [LM+1]. *)
Record band_ok (m : CELTMode) (i : Z) (LM : nat) : Prop := {
  leaf_ok : forall n b, (n <= S LM)%nat -> let L := Z.of_nat n - 1 in
    2 <= band_dim m i L -> 0 <= bits2pulses m i L b /\
    forall q, 1 <= q <= bits2pulses m i L b ->
      1 <= get_pulses q <= 128 /\ pvq_fits false (band_dim m i L) (get_pulses q) = true;
  split_ok : forall n b, (n <= LM)%nat -> let L := Z.of_nat n in let N := band_dim m i L in
    2 < N -> cache_line m i L (cache_line m i L 0) + 12 < b ->
    Z.shiftr N 1 = band_dim m i (L - 1) /\ N = 2 * Z.shiftr N 1 /\
    compute_qn (Z.shiftr N 1) b (Z.shiftr (m.(logN).[i] + (L - 1) * 8) 1 - 4) (m.(logN).[i] + (L - 1) * 8) false <> 1;
  dim_small : forall n, (n <= S LM)%nat -> band_dim m i (Z.of_nat n - 1) <= 2 ^ 15
}.

(** ** Lengths *)

Lemma length_for_upto {B} (g : list B -> Z -> list B) n X :
  (forall X i, length (g X i) = length X) -> length (for_upto n g X) = length X.
Proof.
  intros Hg. unfold for_upto. generalize (seq 0 (Z.to_nat n)) as l. intros l. revert X.
  induction l as [|i l IH]; intros X; cbn; [done|]. by rewrite IH, Hg.
Qed.

Lemma length_for_downfrom {B} (g : list B -> Z -> list B) n X :
  (forall X i, length (g X i) = length X) -> length (for_downfrom n g X) = length X.
Proof.
  intros Hg. unfold for_downfrom. generalize (rev (seq 0 (Z.to_nat n))) as l. intros l. revert X.
  induction l as [|i l IH]; intros X; cbn; [done|]. by rewrite IH, Hg.
Qed.

Lemma length_wr (l : list Z) i v : length l.[i <- v] = length l.
Proof. unfold wr. destruct (i <? 0); [done|]. apply length_insert. Qed.

Lemma length_splice_slice (X Y : list Z) off n :
  length Y = length (slice X off n) -> length (splice X off Y) = length X.
Proof.
  unfold splice, slice. rewrite !length_app, length_drop, !length_take, length_drop. intros HY. lia.
Qed.

Lemma length_exp_rotation1 X len stride c s : length (exp_rotation1 X len stride c s) = length X.
Proof.
  unfold exp_rotation1. rewrite length_for_downfrom, length_for_upto; [done|..];
  intros; unfold rotate_pair; by rewrite !length_wr.
Qed.

Lemma length_exp_rotation X len dir stride K spread : length (exp_rotation X len dir stride K spread) = length X.
Proof.
  unfold exp_rotation. destruct (_ || _); [done|]. cbv zeta. apply length_for_upto. intros Z i.
  apply (length_splice_slice _ _ _ (celt_udiv len stride)). repeat case_match; by rewrite ?length_exp_rotation1.
Qed.

Lemma length_haar1 X N0 stride : length (haar1 X N0 stride) = length X.
Proof.
  unfold haar1. apply length_for_upto. intros Y i. apply length_for_upto. intros Z j.
  unfold haar_pair. by rewrite !length_wr.
Qed.

Lemma length_map2 f X Y : length X = length Y -> length (map2 f X Y) = length X.
Proof. intros HL. unfold map2. rewrite length_map, length_combine. lia. Qed.

Lemma length_shuffle_writes (N0 n stride : Z) (idx val : Z -> Z -> Z) :
  length (for_upto stride (fun tmp i => for_upto N0 (fun tmp j => tmp.[idx i j <- val i j]) tmp) (repeat 0 (Z.to_nat n)))
  = Z.to_nat n.
Proof.
  rewrite length_for_upto; [apply repeat_length|]. intros X i. apply length_for_upto. intros. apply length_wr.
Qed.

Lemma length_deinterleave X N0 stride hd : length (deinterleave_hadamard X N0 stride hd) = Z.to_nat (N0 * stride).
Proof. apply (length_shuffle_writes N0 (N0 * stride) stride (fun i j => ordery stride hd i * N0 + j) (fun i j => X.[j * stride + i])). Qed.

Lemma length_interleave X N0 stride hd : length (interleave_hadamard X N0 stride hd) = Z.to_nat (N0 * stride).
Proof. apply (length_shuffle_writes N0 (N0 * stride) stride (fun i j => j * stride + i) (fun i j => X.[ordery stride hd i * N0 + j])). Qed.

(** ** Changes of the time resolution

    Blocks of a band: [B] of them, which divides [N], and positive values of
    [tf_change] only recombine existing blocks. *)
Definition band_shape (N B tf : Z) : Prop := 0 < B /\ N mod B = 0 /\ (tf <= 0 \/ B mod 2 ^ tf = 0).

Lemma for_upto_rel {S T} (R : S -> T -> Prop) n (g : S -> Z -> S) (h : T -> Z -> T) s t :
  (forall s t i, R s t -> R (g s i) (h t i)) -> R s t -> R (for_upto n g s) (for_upto n h t).
Proof.
  intros Hs. unfold for_upto. generalize (seq 0 (Z.to_nat n)) as l. intros l. revert s t.
  induction l as [|i l IH]; intros s t Hst; cbn; [done|]. by apply IH, Hs.
Qed.

(** The encoder changes [X] as well, without changing its length, nor that of [lowband]. *)
Definition keeps (X X' : list Z) (lb : option (list Z)) (s t : list Z * option (list Z) * Z) : Prop :=
  s.1.2 = t.1.2 /\ s.2 = t.2 /\ length s.1.1 = length X /\ t.1.1 = X' /\
  option_map (@length Z) s.1.2 = option_map (@length Z) lb.

Lemma option_map_length f (lb : option (list Z)) :
  (forall l, length (f l) = length l) -> option_map (@length Z) (option_map f lb) = option_map (@length Z) lb.
Proof. intros Hf. destruct lb; cbn; [|done]. by rewrite Hf. Qed.

Lemma recombine_sim r N X X' lb fill :
  keeps X X' lb (for_upto r (recombine_step true N) (X, lb, fill)) (for_upto r (recombine_step false N) (X', lb, fill)).
Proof.
  apply for_upto_rel; [|done]. intros [[X1 l1] f1] [[X2 l2] f2] k (E1 & E2 & E3 & E4 & E5). cbn in *. subst.
  split_and!; cbn; try done; [by rewrite length_haar1|].
  rewrite option_map_length; [done|]. intros. apply length_haar1.
Qed.

Definition dropX (r : list Z * option (list Z) * Z * Z * Z * Z) : option (list Z) * Z * Z * Z * Z :=
  let '(X, lb, fill, B, N_B, td) := r in (lb, fill, B, N_B, td).
Definition onlyX (r : list Z * option (list Z) * Z * Z * Z * Z) : list Z := r.1.1.1.1.1.

Lemma divide_sim n X X' : forall lb fill B N_B td tf (X0 : list Z),
  length X = length X0 ->
  let r := divide_time n true X lb fill B N_B td tf in
  let r' := divide_time n false X' lb fill B N_B td tf in
  dropX r = dropX r' /\ length (onlyX r) = length X0 /\ onlyX r' = X' /\
  option_map (@length Z) r.1.1.1.1.2 = option_map (@length Z) lb.
Proof.
  revert X. induction n as [|n IH]; intros X lb fill B N_B td tf X0 HX; cbn [divide_time]; [done|].
  destruct (_ && _); [|done].
  destruct (IH (haar1 X N_B B) (option_map (fun x => haar1 x N_B B) lb) (Z.lor fill (Z.shiftl fill B)) (Z.shiftl B 1)
    (Z.shiftr N_B 1) (td + 1) (tf + 1) X0) as (H1 & H2 & H3 & H4); [by rewrite length_haar1|].
  split_and!; try done. cbv zeta. rewrite H4. apply option_map_length. intros. apply length_haar1.
Qed.

(** The number of coefficients is the number of blocks times their length. *)
Lemma divide_product n e X : forall lb fill B N_B td tf,
  0 < B -> let '(_, _, _, B1, N1, td1) := divide_time n e X lb fill B N_B td tf in
  0 < B1 /\ N1 * B1 = N_B * B /\ N1 * 2 ^ (td1 - td) = N_B /\ td <= td1.
Proof.
  revert X. induction n as [|n IH]; intros X lb fill B N_B td tf HB; cbn [divide_time].
  { rewrite Z.sub_diag. lia. }
  destruct (_ && _) eqn:Hg; [|rewrite Z.sub_diag; lia]. apply andb_true_iff in Hg as [Hev _].
  apply Z.eqb_eq in Hev. change 1 with (2 ^ 1 - 1) in Hev at 1. rewrite land_pow2_pred in Hev by lia.
  assert (Z.shiftl B 1 = 2 * B) as EB by (rewrite Z.shiftl_mul_pow2 by lia; lia).
  assert (2 * Z.shiftr N_B 1 = N_B) as EN by (rewrite Z.shiftr_div_pow2 by lia; change (2 ^ 1) with 2 in *; dlia).
  specialize (IH (if e then haar1 X N_B B else X) (option_map (fun x => haar1 x N_B B) lb) (Z.lor fill (Z.shiftl fill B))
    (Z.shiftl B 1) (Z.shiftr N_B 1) (td + 1) (tf + 1) ltac:(lia)).
  destruct (divide_time n _ _ _ _ _ _ _ _) as [[[[[X1 l1] f1] B1] N1] td1]. destruct IH as (H1 & H2 & H3 & H4).
  split_and!; [done|nia| |lia]. replace (td1 - td) with (td1 - (td + 1) + 1) by lia. rewrite Z.pow_add_r by lia. lia.
Qed.

(** The length that the shuffle of the blocks gives. *)
Lemma shuffle_product N B tf B1 N1 :
  band_shape N B tf -> let r := if tf >? 0 then tf else 0 in
  0 < B1 -> N1 * B1 = Z.shiftl (celt_udiv N B) r * Z.shiftr B r -> (tf <= 0 \/ (B1 = Z.shiftr B r /\ N1 = Z.shiftl (celt_udiv N B) r)) ->
  Z.shiftr N1 r * Z.shiftl B1 r = N.
Proof.
  intros (HB & Hd & Ht) r HB1 EP Hcase. subst r. unfold celt_udiv in *. destruct (Z.gtb_spec tf 0).
  - destruct Hcase as [|[-> ->]]; [lia|]. destruct Ht as [|Ht]; [lia|].
    rewrite Z.shiftr_shiftl_l, Z.sub_diag, Z.shiftl_0_r by lia.
    rewrite Z.shiftr_div_pow2, Z.shiftl_mul_pow2 by lia. pose proof (Z.pow_pos_nonneg 2 tf ltac:(lia) ltac:(lia)).
    assert (B / 2 ^ tf * 2 ^ tf = B) as -> by (pose proof (Z.div_mod B (2 ^ tf) ltac:(lia)); lia).
    pose proof (Z.div_mod N B ltac:(lia)). lia.
  - rewrite Z.shiftr_0_r, Z.shiftl_0_r in *. rewrite EP.
    pose proof (Z.div_mod N B ltac:(lia)). lia.
Qed.

(** ** The angle *)

Section Sync.
Context `{A : SignalAnalysis} `{EntropyCoder E D}.

Lemma code_theta_enc stereo N B0 qn x s :
  code_theta enc_band stereo N B0 qn x s = (x, (code_theta enc_band stereo N B0 qn x s).2).
Proof. unfold code_theta. repeat case_match; done. Qed.

Lemma sync_theta_code c c' rem X Y X' Y' N b B0 qn stereo :
  ctx_sim c c' -> stereo = true \/ qn <> 1 -> qn = 1 \/ qn_ok qn ->
  sync (view (fun r => (r.1.1, X', Y')) (theta_code enc_band c rem X Y N b B0 qn stereo))
       (theta_code dec_band c' rem X' Y' N b B0 qn stereo).
Proof.
  intros Hc Hs Hq. unfold theta_code. cbn [bp_encode enc_band dec_band]. destruct (Z.eqb_spec qn 1) as [->|Hq1].
  - destruct Hs as [->|]; [|done]. cbn [negb andb]. cbv zeta.
    set (v := (stereo_itheta X Y true >? 8192) && negb (disable_inv c)). clearbody v.
    rewrite <- (sim_disable_inv _ _ Hc). destruct (_ && _).
    + eapply sync_ext; [| |apply (codes_then (ec_enc_bit_logp v 2) (ec_dec_bit_logp 2) v
        (fun s => ((0, if disable_inv c then false else v, X', Y'), s))
        (fun v s => ((0, if disable_inv c then false else v, X', Y'), s)))]; [done|done| |apply sync_ret].
      apply codes_bit_logp. lia.
    + apply (sync_view_ret (fun r : Z * bool * list Z * list Z => (r.1.1, X', Y'))).
  - destruct Hq as [|Hq]; [done|]. cbn [negb]. cbv zeta.
    set (x := quant_theta c stereo N b qn (stereo_itheta X Y stereo)).
    assert (0 <= x <= qn) as Hx by (apply quant_theta_range; [destruct Hq; lia|apply stereo_itheta_range]).
    clearbody x. eapply sync_ext; [| |apply (codes_then _ _ x
        (fun s => ((celt_udiv (x * 16384) qn, false, X', Y'), s))
        (fun x s => ((celt_udiv (x * 16384) qn, false, X', Y'), s)) (codes_theta stereo N B0 qn x 0 Hq Hx))];
      [| |apply sync_ret].
    + intros s. unfold view, dec_bind. rewrite (code_theta_enc _ _ _ _ _ s).
      destruct (true && stereo); [|done]. destruct (_ =? 0); [done|]. by destruct (stereo_split X Y).
    + done.
Qed.

Lemma theta_qn_sim c c' N b LM stereo : ctx_sim c c' -> theta_qn c N b LM stereo = theta_qn c' N b LM stereo.
Proof. intros Hc. unfold theta_qn. by rewrite (sim_m _ _ Hc), (sim_i _ _ Hc), (sim_intensity _ _ Hc). Qed.

(** Both sides compute the same split; the encoder keeps its parts, the decoder has none yet. *)
Lemma sync_compute_theta c c' rem X Y X' Y' N b B B0 LM stereo fill :
  ctx_sim c c' -> stereo = true \/ theta_qn c N b LM stereo <> 1 ->
  sync (view (fun r => (r.1.1, X', Y')) (compute_theta enc_band c rem X Y N b B B0 LM stereo fill))
       (compute_theta dec_band c' rem X' Y' N b B B0 LM stereo fill).
Proof.
  intros Hc Hs. unfold compute_theta. cbv zeta. rewrite <- (theta_qn_sim c c') by done.
  eapply (sync_view_bind (fun t => t)); [apply sync_view, sync_tell_frac|]. intros s. cbn [read fst].
  eapply sync_view_bind; [by apply sync_theta_code; [| |apply theta_qn_ok]|].
  intros s1. destruct (theta_code enc_band c rem X Y N b B0 _ stereo s1) as [[[[t v] X1] Y1] s2]. cbn [fst snd].
  eapply (sync_view_bind (fun t => t)); [apply sync_view, sync_tell_frac|]. intros s3. cbn [read fst].
  apply (sync_view_ret (fun r : split_ctx * list Z * list Z => (r.1.1, X', Y'))).
Qed.

(** The parts keep their lengths; the halves of a mono band are not changed. *)
Lemma theta_parts {T} (p : band_port T) c rem X Y N b B B0 LM stereo fill s :
  length X = length Y ->
  let r := (compute_theta p c rem X Y N b B B0 LM stereo fill s).1 in
  (length r.1.2 = length X /\ length r.2 = length Y) /\ (stereo = false -> r.1.2 = X /\ r.2 = Y).
Proof.
  intros HL. unfold compute_theta, theta_code, dec_bind, read, dec_ret. cbv zeta.
  assert (forall i, length (intensity_stereo (bc_m c) X Y (bandE c) i) = length X) as Hi.
  { intros i. unfold intensity_stereo. by apply length_map2. }
  destruct (negb (_ =? 1)).
  - destruct (code_theta p stereo N B0 _ _ s) as [t s1]. destruct (bp_encode p), stereo; cbn [andb]; try done.
    destruct (_ =? 0); cbn; [rewrite Hi; by split|]. split; [|done]. rewrite !length_map2 by done. by split.
  - destruct stereo; [|done]. set (v := bp_encode p && _ && _). destruct (if _ && _ then _ else _) as [w s1].
    cbn. split; [|done]. destruct (bp_encode p), v; cbn [andb]; rewrite ?length_map; try done;
      (split; [|done]); unfold intensity_stereo; rewrite length_map2; rewrite ?length_map; done.
Qed.

(** ** A partition *)

Lemma sync_alg X N K spr B gain :
  2 <= N <= 2 ^ 15 -> 1 <= K <= 128 -> pvq_fits false N K = true -> len X = N ->
  sync (alg_quant op_pvq_search X N K spr B gain true) (alg_unquant N K spr B gain).
Proof.
  intros HN HK Hf HX. unfold alg_quant, alg_unquant.
  pose proof (op_pvq_search_pulses (exp_rotation X N 1 B K spr) K N HN HK) as Hs.
  unfold len in *. rewrite length_exp_rotation in Hs. specialize (Hs HX).
  destruct (op_pvq_search _ K N) as [X1 [iy yy]]. destruct Hs as (H1 & H2 & ->).
  apply (codes_then (encode_pulses false iy N K) (decode_pulses false N K) (iy, energy iy)
    (fun s => ((exp_rotation (normalise_residual iy (energy iy) gain) N (-1) B K spr, extract_collapse_mask iy N B), s))
    (fun r s => let '(iy, Ryy) := r in
       ((exp_rotation (normalise_residual iy Ryy gain) N (-1) B K spr, extract_collapse_mask iy N B), s)));
    [|apply sync_ret].
  apply codes_pulses; try done; lia.
Qed.

Lemma never_bust_le m i LM q : forall rem curr,
  0 <= (never_bust m i LM q rem curr).1 <= Z.of_nat q.
Proof.
  induction q as [|q IH]; intros rem curr; cbn [never_bust]; destruct (rem <? 0); cbn [fst]; try lia.
  specialize (IH (rem + curr - pulses2bits m i LM (Z.of_nat q)) (pulses2bits m i LM (Z.of_nat q))). lia.
Qed.

Section Band.
Context (c c' : band_ctx) (LM : nat).
Hypothesis (Hc : ctx_sim c c') (Hok : band_ok c.(bc_m) c.(bc_i) LM).

Lemma sync_leaf n X X' b B lowband gain fill rem seed :
  (n <= S LM)%nat -> let L := Z.of_nat n - 1 in let N := band_dim c.(bc_m) c.(bc_i) L in
  2 <= N -> len X = N ->
  sync (quant_leaf enc_band c L X N b B lowband gain fill rem seed)
       (quant_leaf dec_band c' L X' N b B lowband gain fill rem seed).
Proof.
  intros Hn L N HN HX. unfold quant_leaf. cbv zeta. rewrite <- (sim_m _ _ Hc), <- (sim_i _ _ Hc), <- (sim_spread _ _ Hc).
  destruct (sim_resynth _ _ Hc) as [-> ->].
  destruct (leaf_ok _ _ _ Hok n b Hn HN) as [Hq0 Hq]. fold L in Hq0, Hq. fold N in Hq.
  set (q0 := bits2pulses _ _ _ b) in *.
  pose proof (never_bust_le (bc_m c) (bc_i c) L (Z.to_nat q0)
    (rem - pulses2bits (bc_m c) (bc_i c) L q0) (pulses2bits (bc_m c) (bc_i c) L q0)) as Hle.
  destruct (never_bust _ _ _ _ _ _) as [q rem']. cbn [fst] in Hle.
  destruct (Z.eqb_spec q 0) as [->|Hne]; cbn [negb]; [apply sync_done|].
  destruct (Hq q ltac:(lia)) as [HK Hf].
  eapply sync_seq; [apply sync_alg; try done|].
  - split; [done|]. by apply (dim_small _ _ _ Hok).
  - intros s. destruct (bp_alg _ _ _ _ _ _ _ _ s) as [[X1 cm] s1]. apply sync_done.
Qed.

Lemma sync_partition n : forall X X' N b B lowband gain fill rem seed,
  (n <= S LM)%nat -> N = band_dim c.(bc_m) c.(bc_i) (Z.of_nat n - 1) -> 2 <= N -> len X = N ->
  sync (quant_partition enc_band c n X N b B lowband gain fill rem seed)
       (quant_partition dec_band c' n X' N b B lowband gain fill rem seed).
Proof.
  induction n as [|n IH]; intros X X' N b B lowband gain fill rem seed Hn EN HN HX.
  { subst N. by apply (sync_leaf 0). }
  cbn [quant_partition]. cbv zeta. rewrite <- (sim_m _ _ Hc), <- (sim_i _ _ Hc).
  destruct (_ && _) eqn:Hsp; [|subst N; by apply (sync_leaf (S n))].
  apply andb_true_iff in Hsp as [Hb HN2]. apply Z.gtb_lt in Hb, HN2.
  replace (Z.of_nat (S n) - 1) with (Z.of_nat n) in * by lia.
  destruct (split_ok _ _ _ Hok n b ltac:(lia) ltac:(lia) ltac:(lia)) as (E1 & E2 & Hqn).
  rewrite <- EN in E1, E2, Hqn. set (N2 := Z.shiftr N 1) in *.
  assert (length (take (Z.to_nat N2) X) = length (drop (Z.to_nat N2) X) /\ len (take (Z.to_nat N2) X) = N2) as [HL HLX].
  { unfold len in *. rewrite length_take, length_drop. lia. }
  eapply sync_bind_view.
  { apply (sync_compute_theta c c' rem _ _ (take (Z.to_nat N2) X') (drop (Z.to_nat N2) X')); [done|]. right. exact Hqn. }
  intros s.
  destruct (theta_parts enc_band c rem _ _ N2 b (Z.shiftr (B + 1) 1) B (Z.of_nat n - 1) false
    (if B =? 1 then Z.lor (Z.land fill 1) (Z.shiftl fill 1) else fill) s HL) as [_ Hsame].
  destruct (compute_theta enc_band c rem _ _ N2 b _ B _ false _ s) as [[[sp X1] Y1] s1]. cbn [fst snd] in *.
  destruct (Hsame eq_refl) as [-> ->].
  assert (len (drop (Z.to_nat N2) X) = N2) as HLY by (unfold len in *; congruence).
  assert (2 <= N2) by lia.
  destruct (_ >=? _); (eapply sync_seq; [by apply IH; try lia|]); intros s2; (eapply sync_seq; [by apply IH; try lia|]);
    intros s3; apply sync_done.
Qed.

(** ** A band *)

Lemma sync_code_n1 x x' rem : sync (code_n1 enc_band c x rem) (code_n1 dec_band c' x' rem).
Proof.
  unfold code_n1. destruct (sim_resynth _ _ Hc) as [-> ->]. destruct (rem >=? _).
  - eapply sync_ext; [| |apply (codes_then (ec_enc_bits (b2z (x <? 0)) 1) (ec_dec_bits 1) (b2z (x <? 0))
      (fun s => ((if negb (b2z (x <? 0) =? 0) then - NORM_SCALING else NORM_SCALING, rem - Z.shiftl 1 BITRES), s))
      (fun sg s => ((if negb (sg =? 0) then - NORM_SCALING else NORM_SCALING, rem - Z.shiftl 1 BITRES), s)))];
      [done| | |apply sync_ret].
    + intros s. unfold dec_bind. cbn [bp_bits dec_band]. by destruct (ec_dec_bits 1 s).
    + apply codes_bits; [lia|]. pose proof (b2z_range (x <? 0)). lia.
  - apply sync_done.
Qed.

Lemma sync_n1 X X' Y Y' rem seed :
  match Y, Y' with Some _, Some _ | None, None => True | _, _ => False end ->
  sync (quant_band_n1 enc_band c X Y rem seed) (quant_band_n1 dec_band c' X' Y' rem seed).
Proof.
  intros HY. unfold quant_band_n1. eapply sync_seq; [apply sync_code_n1|]. intros s.
  destruct (code_n1 _ _ _ _ s) as [[x rem1] s1]. cbn [fst]. eapply sync_seq.
  - destruct Y as [Y|], Y' as [Y'|]; try done; [|apply sync_done].
    eapply sync_seq; [apply sync_code_n1|]. intros s2. destruct (code_n1 _ _ _ _ s2) as [[y rem2] s3]. apply sync_done.
  - intros s2. destruct (match Y with Some _ => _ | None => _ end s2) as [[Z1 rem2] s3]. apply sync_done.
Qed.

Lemma sync_quant_band X X' N b B lowband gain fill rem seed :
  N = band_dim c.(bc_m) c.(bc_i) (Z.of_nat LM) -> 1 <= N -> band_shape N B c.(tf_change) -> len X = N ->
  sync (quant_band enc_band c LM X N b B lowband gain fill rem seed)
       (quant_band dec_band c' LM X' N b B lowband gain fill rem seed).
Proof.
  intros EN HN Hsh HX. unfold quant_band. cbv zeta. cbn [bp_encode enc_band dec_band].
  rewrite <- (sim_tf_change _ _ Hc). destruct (sim_resynth _ _ Hc) as [-> ->].
  destruct (Z.eqb_spec N 1) as [|HN1]; [by apply sync_n1|].
  set (r := if tf_change c >? 0 then tf_change c else 0).
  pose proof (recombine_sim r N X X' lowband fill) as (E1 & E2 & E3 & E4 & _).
  destruct (for_upto r (recombine_step true N) _) as [[X1 l1] f1].
  destruct (for_upto r (recombine_step false N) _) as [[X2 l2] f2]. cbn [fst snd] in *. subst X2 l2 f2.
  set (B1 := Z.shiftr B r). set (N1 := Z.shiftl (celt_udiv N B) r). set (n := Z.to_nat (- tf_change c)).
  assert (0 < B1) as HB1.
  { destruct Hsh as (HB & _ & Ht). subst B1 r. destruct (Z.gtb_spec (tf_change c) 0); [|by rewrite Z.shiftr_0_r].
    destruct Ht as [|Ht]; [lia|]. rewrite Z.shiftr_div_pow2 by lia.
    pose proof (Z.pow_pos_nonneg 2 (tf_change c) ltac:(lia) ltac:(lia)).
    pose proof (Z.div_mod B (2 ^ tf_change c) ltac:(lia)). nia. }
  pose proof (divide_product n true X1 l1 f1 B1 N1 0 (tf_change c) HB1) as Hp.
  destruct (divide_sim n X1 X' l1 f1 B1 N1 0 (tf_change c) X E3) as (D1 & D2 & D3 & _).
  assert (tf_change c <= 0 \/ divide_time n true X1 l1 f1 B1 N1 0 (tf_change c) = (X1, l1, f1, B1, N1, 0)) as Hcase.
  { destruct (decide (tf_change c <= 0)); [by left|right]. subst n. by replace (Z.to_nat (- tf_change c)) with O by lia. }
  destruct (divide_time n true X1 l1 f1 B1 N1 0 (tf_change c)) as [[[[[X3 l3] f3] B3] N3] td].
  destruct (divide_time n false X' l1 f1 B1 N1 0 (tf_change c)) as [[[[[X4 l4] f4] B4] N4] td4].
  cbn [dropX onlyX fst snd] in *. injection D1 as <- <- <- <- <-. subst X4. destruct Hp as (HB3 & HP & _ & _).
  assert (Z.shiftr N3 r * Z.shiftl B3 r = N) as Esh.
  { apply (shuffle_product N B (tf_change c)); try done. destruct Hcase as [|Ec]; [by left|right].
    by injection Ec as _ _ _ -> -> _. }
  assert (forall Xe, len Xe = N -> forall Xd lb,
    sync (quant_partition enc_band c (S LM) Xe N b B3 lb gain f3 rem seed)
         (quant_partition dec_band c' (S LM) Xd N b B3 lb gain f3 rem seed)) as Hpart.
  { intros Xe HXe Xd lb. apply sync_partition; try done; [|lia]. rewrite EN. f_equal. lia. }
  unfold len in *.
  destruct (B3 >? 1); (eapply sync_seq; [apply Hpart|]).
  - rewrite length_deinterleave, Esh. lia.
  - intros s. destruct (quant_band_resynth _ _ _ _ _ _ _ _) as [[X5 cm5] out5]. apply sync_done.
  - lia.
  - intros s. destruct (quant_band_resynth _ _ _ _ _ _ _ _) as [[X5 cm5] out5]. apply sync_done.
Qed.

Lemma sync_stereo2 sp X X' Y Y' B lowband fill rem seed :
  band_dim c.(bc_m) c.(bc_i) (Z.of_nat LM) = 2 -> band_shape 2 B c.(tf_change) -> len X = 2 -> len Y = 2 ->
  sync (quant_band_stereo2 enc_band c LM sp X Y B lowband fill rem seed)
       (quant_band_stereo2 dec_band c' LM sp X' Y' B lowband fill rem seed).
Proof.
  intros EN Hsh HX HY. unfold quant_band_stereo2. cbv zeta. destruct (sim_resynth _ _ Hc) as [-> ->].
  set (sb := if negb (itheta sp =? 0) && _ then _ else 0). destruct (if itheta sp >? 8192 then (Y, X) else (X, Y)) as [x2 y2] eqn:E2.
  assert (len x2 = 2) as Hx2 by (destruct (itheta sp >? 8192); injection E2 as <- <-; done).
  destruct (if itheta sp >? 8192 then (Y', X') else (X', Y')) as [x2' y2'].
  eapply (sync_seq (A := Z)).
  - destruct (negb (sb =? 0)); [|apply sync_done]. cbn [bp_bits enc_band dec_band].
    set (v := b2z _). apply (codes_bits v); [lia|]. subst v. pose proof (b2z_range (i32 (x2.[0] * y2.[1] - x2.[1] * y2.[0]) <? 0)). lia.
  - intros s. eapply sync_seq; [by apply sync_quant_band; try lia|]. intros s1.
    destruct (itheta sp >? 8192); apply sync_done.
Qed.

Lemma sync_split sp X X' Y Y' N B lowband rem seed :
  N = band_dim c.(bc_m) c.(bc_i) (Z.of_nat LM) -> 1 <= N -> band_shape N B c.(tf_change) -> len X = N -> len Y = N ->
  sync (quant_band_split enc_band c LM sp X Y N B lowband rem seed)
       (quant_band_split dec_band c' LM sp X' Y' N B lowband rem seed).
Proof.
  intros EN HN Hsh HX HY. unfold quant_band_split. cbv zeta.
  destruct (_ >=? _); (eapply sync_seq; [by apply sync_quant_band|]); intros s;
    (eapply sync_seq; [by apply sync_quant_band|]); intros s1; apply sync_done.
Qed.

Lemma sync_quant_band_stereo X X' Y Y' N b B lowband fill rem seed :
  N = band_dim c.(bc_m) c.(bc_i) (Z.of_nat LM) -> 1 <= N -> band_shape N B c.(tf_change) -> len X = N -> len Y = N ->
  sync (quant_band_stereo enc_band c LM X Y N b B lowband fill rem seed)
       (quant_band_stereo dec_band c' LM X' Y' N b B lowband fill rem seed).
Proof.
  intros EN HN Hsh HX HY. unfold quant_band_stereo. destruct (Z.eqb_spec N 1) as [|HN1]; [by apply sync_n1|].
  destruct (sim_resynth _ _ Hc) as [R1 R2]. rewrite R1, R2. eapply sync_bind_view.
  { apply (sync_compute_theta c c' rem X Y X' Y'); [done|by left]. }
  intros s. assert (length X = length Y) as HL by (unfold len in *; lia).
  destruct (theta_parts enc_band c rem X Y N b B B (Z.of_nat LM) true fill s HL) as [[L1 L2] _].
  destruct (compute_theta enc_band c rem X Y N b B B _ true fill s) as [[[sp X1] Y1] s1]. cbn [fst snd] in *.
  assert (len X1 = N /\ len Y1 = N) as [HX1 HY1] by (unfold len in *; lia).
  eapply sync_seq.
  - destruct (Z.eqb_spec N 2) as [->|]; [apply sync_stereo2|apply sync_split]; done.
  - intros s2. destruct (if true && _ then _ else _) as [X5 Y5]. apply sync_done.
Qed.
End Band.
End Sync.
