(* ===== verification/BandsSafe.v ===== *)
(** * Sizes, masks and budget of a band

    What holds on both sides for every input: coefficient arrays keep their
    length, collapse masks have one bit per block, the angle is one that
    [bitexact_cos] accepts, and a leaf never spends bits that are not there.
    The decoder reads the packet under [dec_inv], so this covers every packet. *)

From S2P Require Import Prelude RangeCoder EntropyInterface EntropySeq EntCode CwrsTable Cwrs CwrsProps FixedPoint MathOps Vq VqProofs CeltMode QuantBands PulseCacheProofs BandOps Theta ThetaProofs Bands BandsSync.

(** ** The budget of a leaf *)

(** The loop stops at the largest number of pulses up to [q0] that the remaining bits allow. *)
Lemma never_bust_spec m i LM q0 rem : forall q,
  (q <= q0)%nat -> (forall k, (q < k <= q0)%nat -> rem < pulses2bits m i LM (Z.of_nat k)) ->
  let '(q1, rem1) := never_bust m i LM q (rem - pulses2bits m i LM (Z.of_nat q)) (pulses2bits m i LM (Z.of_nat q)) in
  0 <= q1 <= Z.of_nat q /\ rem1 = rem - pulses2bits m i LM q1 /\ (q1 = 0 \/ 0 <= rem1) /\
  forall k, q1 < k <= Z.of_nat q0 -> rem < pulses2bits m i LM k.
Proof.
  induction q as [|q IH]; intros Hq Hk; cbn [never_bust].
  - replace (Z.of_nat 0) with 0 in * by lia. destruct (Z.ltb_spec (rem - pulses2bits m i LM 0) 0); split_and!; try lia;
      intros k Hk1; specialize (Hk (Z.to_nat k) ltac:(lia)); by rewrite Z2Nat.id in Hk by lia.
  - destruct (Z.ltb_spec (rem - pulses2bits m i LM (Z.of_nat (S q))) 0).
    + replace (rem - pulses2bits m i LM (Z.of_nat (S q)) + pulses2bits m i LM (Z.of_nat (S q))) with rem by lia.
      assert (forall k, (q < k <= q0)%nat -> rem < pulses2bits m i LM (Z.of_nat k)) as Hk'.
      { intros k Hk1. destruct (decide (k = S q)) as [->|]; [lia|]. apply Hk. lia. }
      specialize (IH ltac:(lia) Hk'). destruct (never_bust _ _ _ _ _ _) as [q1 rem1]. destruct IH as (H1 & H2 & H3 & H4).
      split_and!; try done; lia.
    + split_and!; try lia. intros k Hk1. specialize (Hk (Z.to_nat k) ltac:(lia)). by rewrite Z2Nat.id in Hk by lia.
Qed.

(** ** Masks *)

Lemma for_upto_ind {S} (P : S -> Prop) n (g : S -> Z -> S) s :
  P s -> (forall s i, P s -> 0 <= i < n -> P (g s i)) -> P (for_upto n g s).
Proof.
  intros Hs Hg. unfold for_upto.
  assert (forall l s, (forall i, In i l -> 0 <= Z.of_nat i < n) -> P s -> P (fold_left (fun s i => g s (Z.of_nat i)) l s)) as Hl.
  { induction l as [|i l IH]; intros t Hin Ht; cbn; [done|]. apply IH; [intros; apply Hin; by right|].
    apply Hg; [done|]. apply Hin. by left. }
  apply Hl; [|done]. intros i Hi%in_seq. lia.
Qed.

Lemma extract_mask_range iy N B : 0 <= extract_collapse_mask iy N B < 2 ^ Z.max 1 B.
Proof.
  unfold extract_collapse_mask. destruct (Z.leb_spec B 1).
  { pose proof (Z.pow_le_mono_r 2 1 (Z.max 1 B) ltac:(lia) ltac:(lia)). lia. }
  rewrite (Z.max_r 1 B) by lia. apply for_upto_ind; [split; [lia|apply Z.pow_pos_nonneg; lia]|].
  intros cm i Hcm Hi. apply lor_range; [done|]. rewrite Z.shiftl_mul_pow2 by lia.
  pose proof (b2z_range (negb (for_upto (Z.max 1 (celt_udiv N B))
    (fun tmp j => Z.lor tmp (u32 iy.[i * celt_udiv N B + j])) 0 =? 0))) as Hb.
  pose proof (Z.pow_pos_nonneg 2 i ltac:(lia) ltac:(lia)). pose proof (Z.pow_lt_mono_r 2 i B ltac:(lia) ltac:(lia) ltac:(lia)).
  set (v := b2z _) in *. clearbody v. nia.
Qed.

Lemma land_mask_range x B : 0 <= B -> 0 <= Z.land x (Z.shiftl 1 B - 1) < 2 ^ B.
Proof.
  intros HB. rewrite Z.shiftl_mul_pow2, Z.mul_1_l, land_pow2_pred by done. apply Z.mod_pos_bound, Z.pow_pos_nonneg; lia.
Qed.

Lemma for_upto_S {S} n (g : S -> Z -> S) s : 0 <= n -> for_upto (n + 1) g s = g (for_upto n g s) n.
Proof.
  intros Hn. unfold for_upto. replace (Z.to_nat (n + 1)) with (Datatypes.S (Z.to_nat n)) by lia.
  rewrite seq_S, fold_left_app. cbn. by rewrite Z2Nat.id.
Qed.

(** The blocks after undoing [n] divisions of time. *)
Lemma undivide_blocks n X cm B N_B :
  0 <= n -> let st := for_upto n undivide_step (X, cm, B, N_B) in st.1.2 = Z.shiftr B n /\ length st.1.1.1 = length X.
Proof.
  intros Hn. cbv zeta. revert n Hn. apply natlike_ind; [by rewrite Z.shiftr_0_r|]. intros n Hn [IH1 IH2].
  rewrite <- Z.add_1_r, for_upto_S by done. destruct (for_upto n undivide_step _) as [[[X1 cm1] B1] N1]. cbn in *.
  subst B1. rewrite Z.shiftr_shiftr by lia. by rewrite length_haar1.
Qed.

(** ** What a port returns *)

Record port_ok {S} `{SignalAnalysis} (inv : S -> Prop) (p : band_port S) : Prop := {
  po_theta : forall stereo N B0 qn x, qn_ok qn -> (bp_encode p = true -> 0 <= x <= qn) ->
    yields inv (code_theta p stereo N B0 qn x) (fun x => 0 <= x <= qn);
  po_bit : forall b, yields inv (bp_bit_logp p b 2) (fun _ => True);
  po_bits : forall x, 0 <= x <= 1 -> yields inv (bp_bits p x 1) (fun x => 0 <= x <= 1);
  po_alg : forall X N K spr B gain, 2 <= N <= 2 ^ 15 -> 1 <= K <= 128 -> pvq_fits false N K = true -> len X = N ->
    yields inv (bp_alg p X N K spr B gain true) (fun r => len r.1 = N /\ 0 <= r.2 < 2 ^ Z.max 1 B)
}.

Lemma length_unit iy Ryy gain N dir B K spr :
  length (exp_rotation (normalise_residual iy Ryy gain) N dir B K spr) = length iy.
Proof. rewrite length_exp_rotation. unfold normalise_residual. apply length_map. Qed.

Section Ports.
Context `{A : SignalAnalysis} `{EntropyCoder E D}.

Lemma enc_port_ok : port_ok (fun _ => True) enc_band.
Proof.
  split.
  - intros stereo N B0 qn x Hq Hx s _. rewrite code_theta_enc. by split; [apply Hx|].
  - done.
  - intros x Hx s _. done.
  - intros X N K spr B gain HN HK Hf HX s _. split; [|done]. cbn [bp_alg enc_band]. unfold alg_quant.
    pose proof (op_pvq_search_pulses (exp_rotation X N 1 B K spr) K N HN HK) as Hs.
    unfold len in *. rewrite length_exp_rotation in Hs. specialize (Hs HX).
    destruct (op_pvq_search _ K N) as [X1 [iy yy]]. destruct Hs as (H1 & _). cbn [fst snd].
    rewrite length_unit. split; [done|apply extract_mask_range].
Qed.

Lemma dec_port_ok : port_ok dec_inv dec_band.
Proof.
  split.
  - intros. by apply yields_theta.
  - intros b. cbn [bp_bit_logp dec_band]. apply yields_bit_logp. lia.
  - intros x _. cbn [bp_bits dec_band]. eapply yields_impl; [apply yields_bits; lia|]. cbv beta. lia.
  - intros X N K spr B gain HN HK Hf HX. cbn [bp_alg dec_band]. unfold alg_unquant.
    eapply yields_bind; [apply yields_pulses; [lia|lia|done]|]. intros [iy Ryy] (H1 & _ & _). cbn [fst] in H1.
    apply yields_ret. cbn [fst snd]. unfold len in *. rewrite length_unit. split; [done|apply extract_mask_range].
Qed.
End Ports.

(** ** The split *)

(** An angle that [bitexact_cos] takes without failing its assertions, or one of the two ends. *)
Definition angle_ok (t : Z) : Prop := t = 0 \/ t = 16384 \/ 64 <= t <= 16384 - 64.

Lemma angle_of_level x qn : qn_ok qn -> 0 <= x <= qn -> angle_ok (celt_udiv (x * 16384) qn).
Proof.
  intros [Hq _] Hx. unfold angle_ok, celt_udiv.
  destruct (decide (x = 0)) as [->|]; [by left|]. destruct (decide (x = qn)) as [->|].
  { right. left. rewrite Z.mul_comm, Z.div_mul by lia. done. }
  right. right. split.
  - apply Z.div_le_lower_bound; nia.
  - apply Z.lt_succ_r, Z.div_lt_upper_bound; nia.
Qed.

Lemma FRAC_MUL16_floor a b :
  -32768 <= a <= 32767 -> -32768 <= b <= 32767 ->
  16384 + a * b - 32767 <= 2 ^ 15 * FRAC_MUL16 a b <= 16384 + a * b.
Proof.
  intros Ha Hb. unfold FRAC_MUL16. rewrite !i16_small by lia. rewrite Z.shiftr_div_pow2 by lia. apply floor15.
Qed.

(** The polynomial of [bitexact_cos] on [1..32513], times 2^45, with all roundings against it. *)
Lemma cos_poly u :
  1 <= u <= 32513 ->
  0 <= 32768 * 32768 * 32768 * (32766 - u) - 7651 * 32768 * 32768 * u + (8277 * 32768 - 16383) * (u * u)
       - 626 * (u * u * u) - 16383 * 32768 * u - 16383 * 32768 * 32768.
Proof.
  intros Hu. assert (exists d, u = 32513 - d /\ 0 <= d <= 32512) as (d & -> & Hd) by (exists (32513 - u); lia).
  assert (0 <= d * d * d) by nia. assert (d * d <= 32512 * d) by nia. assert (0 <= d * d) by nia. nia.
Qed.

(** Both assertions of [bitexact_cos], and a positive cosine. *)
Lemma bitexact_cos_ok t :
  64 <= t <= 16384 - 64 ->
  let tmp := Z.shiftr (4096 + t * t) 13 in
  tmp <= 32767 /\
  (32767 - tmp) + FRAC_MUL16 tmp (-7651 + FRAC_MUL16 tmp (8277 + FRAC_MUL16 (-626) tmp)) <= 32766 /\
  0 < bitexact_cos t <= 32767.
Proof.
  intros Ht. cbv zeta. unfold bitexact_cos. cbv zeta. set (u := Z.shiftr (4096 + t * t) 13).
  assert (1 <= u <= 32513) as Hu.
  { subst u. rewrite Z.shiftr_div_pow2 by lia. change (2 ^ 13) with 8192. split.
    - apply Z.div_le_lower_bound; nia.
    - apply Z.lt_succ_r, Z.div_lt_upper_bound; nia. }
  clearbody u. rewrite (i16_small u) by lia. pose proof (cos_poly u Hu) as Hpoly.
  pose proof (FRAC_MUL16_floor (-626) u ltac:(lia) ltac:(lia)) as F1. set (a1 := FRAC_MUL16 (-626) u) in *. clearbody a1.
  change (2 ^ 15) with 32768 in *. assert (-622 <= a1 <= 0) as R1 by lia.
  pose proof (FRAC_MUL16_floor u (8277 + a1) ltac:(lia) ltac:(lia)) as F2. set (a2 := FRAC_MUL16 u _) in *. clearbody a2.
  change (2 ^ 15) with 32768 in *. assert (0 <= a2 <= 8213) as R2 by (clear - F2 R1 Hu; nia).
  pose proof (FRAC_MUL16_floor u (-7651 + a2) ltac:(lia) ltac:(lia)) as F3. set (a3 := FRAC_MUL16 u _) in *. clearbody a3.
  change (2 ^ 15) with 32768 in *. assert (-7652 <= a3 <= u - 1) as R3 by (clear - F3 R2 Hu; nia).
  assert (0 <= 32767 - u + a3) as R4.
  { assert (32768 * (8277 + a1) >= 8277 * 32768 - 626 * u - 16383) as B1 by lia.
    assert (32768 * 32768 * a2 >= u * (8277 * 32768 - 626 * u - 16383) - 16383 * 32768) as B2 by (clear - B1 F2 Hu; nia).
    assert (32768 * 32768 * 32768 * a3 >= u * (u * (8277 * 32768 - 626 * u - 16383) - 16383 * 32768 - 7651 * 32768 * 32768)
              - 16383 * 32768 * 32768) as B3 by (clear - B2 F3 Hu; nia).
    clear - B3 Hpoly. lia. }
  rewrite (i16_small (32767 - u + a3)) by lia. rewrite i16_small by lia. lia.
Qed.

Definition split_wf (sp : split_ctx) : Prop := angle_ok sp.(itheta).

Section Safe.
Context `{A : SignalAnalysis} {T : Type} (inv : T -> Prop) (p : band_port T) (Hp : port_ok inv p).

Lemma yields_tell (f : T -> Z) : yields inv (read f) (fun _ => True).
Proof. by intros s Hs. Qed.

Lemma yields_and {B} (d : T -> B * T) (P Q : B -> Prop) :
  yields inv d P -> (forall s, Q (d s).1) -> yields inv d (fun r => P r /\ Q r).
Proof. intros H1 H2 s Hs. destruct (H1 s Hs). by repeat split. Qed.

Lemma yields_compute_theta c rem X Y N b B B0 LM stereo fill :
  length X = length Y -> stereo = true \/ theta_qn c N b LM stereo <> 1 ->
  yields inv (compute_theta p c rem X Y N b B B0 LM stereo fill)
    (fun r => split_wf r.1.1 /\ length r.1.2 = length X /\ length r.2 = length Y).
Proof.
  intros HL Hs. apply (yields_and _ (fun r => split_wf r.1.1) (fun r => length r.1.2 = length X /\ length r.2 = length Y));
    [|intros s; by apply theta_parts].
  unfold compute_theta. cbv zeta. set (qn := theta_qn c N b LM stereo) in *.
  assert (qn = 1 \/ qn_ok qn) as Hq by apply theta_qn_ok. clearbody qn.
  eapply yields_seq; [apply yields_tell|]. intros t0 _.
  apply (yields_seq inv _ _ (fun r => angle_ok r.1.1.1)).
  - unfold theta_code. cbv zeta. destruct (Z.eqb_spec qn 1) as [->|Hq1]; cbn [negb].
    + destruct Hs as [->|]; [|done]. eapply yields_seq.
      { destruct (_ && _); [apply (po_bit _ _ Hp)|by apply yields_done]. }
      intros v _. apply yields_done. by left.
    + destruct Hq as [|Hq]; [done|]. eapply yields_seq.
      { apply (po_theta _ _ Hp); [done|]. intros ->. apply quant_theta_range; [destruct Hq; lia|apply stereo_itheta_range]. }
      intros x Hx. destruct (if bp_encode p && stereo then _ else _) as [X1 Y1]. apply yields_done.
      by apply angle_of_level.
  - intros [[[t v] X1] Y1] Ht. eapply yields_seq; [apply yields_tell|]. intros t1 _. apply yields_done. cbn in *.
    unfold split_wf, split_angle. destruct (t =? 0); [done|]. by destruct (t =? 16384).
Qed.

Definition lb_ok (N : Z) (lb : option (list Z)) : Prop :=
  match lb with Some l => len l = N | None => True end.

Lemma lb_ok_map (f : list Z -> list Z) N M lb :
  lb_ok N lb -> (forall l, len l = N -> len (f l) = M) -> lb_ok M (option_map f lb).
Proof. destruct lb; cbn; auto. Qed.

(** ** A partition *)

Definition part_ok (N B : Z) (r : part) : Prop := len r.(q_X) = N /\ 0 <= r.(q_cm) < 2 ^ B.

Lemma fill_noise_len n : forall seed, length (fill_noise n seed).1 = n.
Proof.
  induction n as [|n IH]; intros seed; cbn; [done|]. specialize (IH (celt_lcg_rand seed)).
  destruct (fill_noise n _) as [X s']. cbn in *. lia.
Qed.
Lemma fill_fold_len l : forall seed, length (fill_fold l seed).1 = length l.
Proof.
  induction l as [|x l IH]; intros seed; cbn; [done|]. specialize (IH (celt_lcg_rand seed)).
  destruct (fill_fold l _) as [X s']. cbn in *. lia.
Qed.

Lemma fill_band_ok X N B lb gain fill rem seed :
  0 <= N -> 0 <= B -> lb_ok N lb -> part_ok N B (fill_band true X N B lb gain fill rem seed).
Proof.
  intros HN HB Hlb. unfold fill_band, part_ok, renormalise_vector. cbv zeta.
  pose proof (land_mask_range fill B HB) as Hm. pose proof (Z.pow_pos_nonneg 2 B ltac:(lia) HB) as Hpw.
  destruct (_ =? 0); cbn [q_X q_cm].
  { split; [|lia]. unfold len. rewrite repeat_length. lia. }
  destruct lb as [l|]; cbn in Hlb.
  - pose proof (fill_fold_len l seed) as Hl. destruct (fill_fold l seed) as [X1 s1]. cbn [q_X q_cm fst] in *.
    unfold len in *. rewrite length_map. lia.
  - pose proof (fill_noise_len (Z.to_nat N) seed) as Hl. destruct (fill_noise _ seed) as [X1 s1]. cbn [q_X q_cm fst] in *.
    unfold len in *. rewrite length_map. rewrite Z.shiftl_mul_pow2 by done. lia.
Qed.

Section Band.
Context (c : band_ctx) (LM : nat).
Hypothesis (Hr : c.(resynth) = true) (Hok : band_ok c.(bc_m) c.(bc_i) LM).

Lemma yields_leaf n X b B lb gain fill rem seed :
  (n <= S LM)%nat -> let L := Z.of_nat n - 1 in let N := band_dim c.(bc_m) c.(bc_i) L in
  2 <= N -> 1 <= B -> len X = N -> lb_ok N lb ->
  yields inv (quant_leaf p c L X N b B lb gain fill rem seed) (part_ok N B).
Proof.
  intros Hn L N HN HB HX Hlb. unfold quant_leaf. cbv zeta. rewrite Hr.
  destruct (leaf_ok _ _ _ Hok n b Hn HN) as [Hq0 Hq]. fold L in Hq0, Hq. fold N in Hq.
  set (q0 := bits2pulses _ _ _ b) in *.
  pose proof (never_bust_le (bc_m c) (bc_i c) L (Z.to_nat q0)
    (rem - pulses2bits (bc_m c) (bc_i c) L q0) (pulses2bits (bc_m c) (bc_i c) L q0)) as Hle.
  destruct (never_bust _ _ _ _ _ _) as [q rem']. cbn [fst] in Hle.
  destruct (Z.eqb_spec q 0) as [->|Hne]; cbn [negb].
  - apply yields_done, fill_band_ok; [lia|lia|done].
  - destruct (Hq q ltac:(lia)) as [HK Hf]. eapply yields_seq; [apply (po_alg _ _ Hp); try done|].
    + split; [done|]. by apply (dim_small _ _ _ Hok).
    + intros [X1 cm] [H1 H2]. apply yields_done. cbn in *. split; [done|]. by rewrite Z.max_r in H2 by lia.
Qed.

Lemma yields_partition n : forall X N b k lb gain fill rem seed,
  (n <= S LM)%nat -> N = band_dim c.(bc_m) c.(bc_i) (Z.of_nat n - 1) -> 2 <= N -> 0 <= k -> len X = N -> lb_ok N lb ->
  yields inv (quant_partition p c n X N b (2 ^ k) lb gain fill rem seed) (part_ok N (2 ^ k)).
Proof.
  induction n as [|n IH]; intros X N b k lb gain fill rem seed Hn EN HN Hk HX Hlb;
    pose proof (Z.pow_pos_nonneg 2 k ltac:(lia) Hk) as HB.
  { subst N. apply (yields_leaf 0); try done. lia. }
  cbn [quant_partition]. cbv zeta. destruct (_ && _) eqn:Hsp; [|subst N; apply (yields_leaf (S n)); try done; lia].
  apply andb_true_iff in Hsp as [Hb HN2]. apply Z.gtb_lt in Hb, HN2.
  replace (Z.of_nat (S n) - 1) with (Z.of_nat n) in * by lia.
  destruct (split_ok _ _ _ Hok n b ltac:(lia) ltac:(lia) ltac:(lia)) as (E1 & E2 & Hqn).
  rewrite <- EN in E1, E2, Hqn. set (N2 := Z.shiftr N 1) in *.
  assert (length (take (Z.to_nat N2) X) = length (drop (Z.to_nat N2) X) /\ len (take (Z.to_nat N2) X) = N2) as [HL HLX].
  { unfold len in *. rewrite length_take, length_drop. lia. }
  assert (lb_ok N2 (option_map (take (Z.to_nat N2)) lb) /\ lb_ok N2 (option_map (drop (Z.to_nat N2)) lb)) as [Hl1 Hl2].
  { split; (eapply lb_ok_map; [exact Hlb|]); intros l Hl; unfold len in *; rewrite ?length_take, ?length_drop; lia. }
  (* the blocks of one half *)
  assert (exists k', 0 <= k' /\ Z.shiftr (2 ^ k + 1) 1 = 2 ^ k' /\ Z.shiftr (2 ^ k) 1 + 2 ^ k' = 2 ^ k /\ 0 <= Z.shiftr (2 ^ k) 1) as (k' & Hk' & EB & EB2 & HB2).
  { rewrite !Z.shiftr_div_pow2 by lia. change (2 ^ 1) with 2. destruct (decide (k = 0)) as [->|].
    - exists 0. by repeat split.
    - exists (k - 1). replace k with (k - 1 + 1) by lia. rewrite Z.pow_add_r by lia. change (2 ^ 1) with 2.
      replace (k - 1 + 1 - 1) with (k - 1) by lia. pose proof (Z.pow_pos_nonneg 2 (k - 1)).
      split; [lia|]. split_and!; dlia. }
  pose proof (Z.pow_pos_nonneg 2 k' ltac:(lia) Hk') as HB'.
  rewrite EB. eapply yields_seq; [apply yields_compute_theta; [exact HL|by right]|].
  intros [[sp X1] Y1] (Hw & L1 & L2). cbn [fst snd] in *.
  assert (len X1 = N2 /\ len Y1 = N2) as [HX1 HY1] by (unfold len in *; lia).
  assert (forall r1 r2, part_ok N2 (2 ^ k') r1 -> part_ok N2 (2 ^ k') r2 ->
    len (q_X r1 ++ q_X r2) = N /\ 0 <= q_cm r1 < 2 ^ 2 ^ k /\ 0 <= Z.shiftl (q_cm r2) (Z.shiftr (2 ^ k) 1) < 2 ^ 2 ^ k) as Hmerge.
  { intros r1 r2 [H1 H2] [H3 H4]. split; [unfold len in *; rewrite length_app; lia|].
    rewrite Z.shiftl_mul_pow2 by done.
    assert (2 ^ 2 ^ k = 2 ^ Z.shiftr (2 ^ k) 1 * 2 ^ 2 ^ k') as -> by (rewrite <- Z.pow_add_r by lia; f_equal; lia).
    pose proof (Z.pow_pos_nonneg 2 (Z.shiftr (2 ^ k) 1) ltac:(lia) HB2).
    pose proof (Z.pow_pos_nonneg 2 (2 ^ k') ltac:(lia) ltac:(lia)). nia. }
  assert (2 <= N2) as HN22 by lia.
  destruct (_ >=? _).
  - eapply yields_seq; [by apply IH; try lia|]. intros r1 H1. eapply yields_seq; [by apply IH; try lia|]. intros r2 H2.
    apply yields_done. destruct (Hmerge r1 r2 H1 H2) as (M1 & M2 & M3). split; cbn; [done|by apply lor_range].
  - eapply yields_seq; [by apply IH; try lia|]. intros r2 H2. eapply yields_seq; [by apply IH; try lia|]. intros r1 H1.
    apply yields_done. destruct (Hmerge r1 r2 H1 H2) as (M1 & M2 & M3). split; cbn; [done|by apply lor_range].
Qed.

(** ** A band *)

(** Blocks, coefficients and [tf_change] of a band: see [band_shape]. *)
Definition blocks_ok (N k tf : Z) : Prop := 0 <= k /\ N mod 2 ^ k = 0 /\ tf <= k.

Lemma blocks_shape N k tf : blocks_ok N k tf -> band_shape N (2 ^ k) tf.
Proof.
  intros (Hk & Hd & Ht). split; [by apply Z.pow_pos_nonneg|]. split; [done|].
  destruct (decide (tf <= 0)); [by left|right]. replace k with (k - tf + tf) by lia.
  rewrite Z.pow_add_r by lia. apply Z.mod_mul. pose proof (Z.pow_pos_nonneg 2 tf). lia.
Qed.

Definition band_res_ok (N B : Z) (r : band) : Prop := len r.(b_X) = N /\ len r.(b_out) = N /\ 0 <= r.(b_cm) < 2 ^ B.

Lemma yields_code_n1 x rem : yields inv (code_n1 p c x rem) (fun _ => True).
Proof.
  unfold code_n1. apply (yields_seq inv _ _ (fun _ => True)); [|intros [sg rm] _; by apply yields_done].
  destruct (_ >=? _); [|by apply yields_done]. eapply yields_seq; [apply (po_bits _ _ Hp)|intros; by apply yields_done].
  pose proof (b2z_range (x <? 0)). lia.
Qed.

Lemma yields_n1 X Y B rem seed :
  1 <= B -> yields inv (quant_band_n1 p c X Y rem seed)
    (fun r => band_res_ok 1 B r /\ match Y with Some _ => len r.(b_Y) = 1 | None => True end).
Proof.
  intros HB. unfold quant_band_n1. eapply yields_seq; [apply yields_code_n1|]. intros [x rm] _.
  eapply (yields_seq inv _ _ (fun r => match Y with Some _ => len r.1 = 1 | None => True end)).
  - destruct Y as [Y|]; [|by apply yields_done]. eapply yields_seq; [apply yields_code_n1|].
    intros [y rm2] _. by apply yields_done.
  - intros [Y1 rm2] HY. apply yields_done. split; [|done]. split_and!; cbn; try done.
    pose proof (Z.pow_le_mono_r 2 1 B ltac:(lia) HB). lia.
Qed.

Lemma resynth_ok N k tf r td B3 N3 lg X cm :
  blocks_ok N k tf -> r = (if tf >? 0 then tf else 0) -> len X = N ->
  Z.shiftr N3 r * Z.shiftl B3 r = N -> 0 <= td -> Z.shiftl (Z.shiftr B3 td) r = 2 ^ k -> 1 <= N ->
  let '(X1, cm1, out) := quant_band_resynth N r td B3 N3 lg X cm in
  len X1 = N /\ len out = N /\ 0 <= cm1 < 2 ^ 2 ^ k.
Proof.
  intros (Hk & _ & _) Er HX EN Htd EB HN. unfold quant_band_resynth. cbv zeta.
  set (X0 := if B3 >? 1 then _ else X).
  assert (len X0 = N) as HX0.
  { subst X0. destruct (B3 >? 1); [|done]. unfold len. rewrite length_interleave, EN. lia. }
  clearbody X0. pose proof (undivide_blocks td X0 cm B3 N3 Htd) as [E1 E2].
  destruct (for_upto td undivide_step _) as [[[X1 cm1] B1] N1]. cbn [fst snd] in E1, E2.
  assert (length (for_upto r (unrecombine_step N) (X1, cm1)).1 = length X1) as E3.
  { apply (for_upto_ind (fun st => length st.1 = length X1)); [done|].
    intros [X2 cm2] i Hl _. cbn in *. by rewrite length_haar1. }
  destruct (for_upto r (unrecombine_step N) _) as [X2 cm2]. cbn [fst] in E3.
  subst B1. rewrite EB. unfold len in *. rewrite length_map, E3, E2. split; [done|]. split; [done|].
  apply land_mask_range, Z.lt_le_incl, Z.pow_pos_nonneg; lia.
Qed.

Lemma divide_shape n e N : forall X lb fill B N_B td tf,
  len X = N -> lb_ok N lb ->
  exists X3 lb3 f3 N3 d, divide_time n e X lb fill B N_B td tf = (X3, lb3, f3, B * 2 ^ d, N3, td + d)
    /\ 0 <= d /\ len X3 = N /\ lb_ok N lb3 /\ N3 * 2 ^ d = N_B /\ (0 <= tf -> d = 0).
Proof.
  induction n as [|n IH]; intros X lb fill B N_B td tf HX Hlb; cbn [divide_time].
  { exists X, lb, fill, N_B, 0. rewrite Z.add_0_r, !Z.mul_1_r. by repeat split. }
  destruct (_ && _) eqn:Hg.
  2: { exists X, lb, fill, N_B, 0. rewrite Z.add_0_r, !Z.mul_1_r. by repeat split. }
  apply andb_true_iff in Hg as [Hev Hneg]. apply Z.ltb_lt in Hneg.
  apply Z.eqb_eq in Hev. change 1 with (2 ^ 1 - 1) in Hev at 1. rewrite land_pow2_pred in Hev by lia.
  destruct (IH (if e then haar1 X N_B B else X) (option_map (fun x => haar1 x N_B B) lb) (Z.lor fill (Z.shiftl fill B))
    (Z.shiftl B 1) (Z.shiftr N_B 1) (td + 1) (tf + 1)) as (X3 & lb3 & f3 & N3 & d & -> & Hd & H1 & H2 & H3 & _).
  { unfold len in *. destruct e; [|done]. by rewrite length_haar1. }
  { eapply lb_ok_map; [exact Hlb|]. intros l Hl. unfold len in *. by rewrite length_haar1. }
  exists X3, lb3, f3, N3, (d + 1). rewrite Z.pow_add_r by lia. rewrite Z.shiftl_mul_pow2 by lia. rewrite Z.shiftr_div_pow2 in H3 by lia.
  change (2 ^ 1) with 2 in *. split_and!; try done; [|lia|dlia|lia]. f_equal; [f_equal; f_equal|]; lia.
Qed.

Lemma yields_quant_band X N b k lb gain fill rem seed :
  N = band_dim c.(bc_m) c.(bc_i) (Z.of_nat LM) -> 1 <= N -> blocks_ok N k c.(tf_change) -> len X = N -> lb_ok N lb ->
  yields inv (quant_band p c LM X N b (2 ^ k) lb gain fill rem seed) (band_res_ok N (2 ^ k)).
Proof.
  intros EN HN Hbl HX Hlb. pose proof (blocks_shape _ _ _ Hbl) as Hsh. pose proof (Hbl) as (Hk & _ & Htf).
  pose proof (Z.pow_pos_nonneg 2 k ltac:(lia) Hk) as HB.
  unfold quant_band. cbv zeta. rewrite Hr. destruct (Z.eqb_spec N 1) as [->|HN1].
  { eapply yields_impl; [apply (yields_n1 X None (2 ^ k)); lia|]. by intros r []. }
  set (r := if tf_change c >? 0 then tf_change c else 0).
  assert (0 <= r <= k /\ (0 < r -> 0 <= tf_change c)) as [Hrk Hrt].
  { subst r. destruct (Z.gtb_spec (tf_change c) 0); lia. }
  assert (let '(X1, lb1, _) := for_upto r (recombine_step (bp_encode p) N) (X, lb, fill) in len X1 = N /\ lb_ok N lb1) as Hrec.
  { apply (for_upto_ind (fun '(X1, lb1, _) => len X1 = N /\ lb_ok N lb1)); [done|].
    intros [[X1 l1] f1] i [H1 H2] _. cbn. split.
    - unfold len in *. destruct (bp_encode p); [|done]. by rewrite length_haar1.
    - eapply lb_ok_map; [exact H2|]. intros l Hl. unfold len in *. by rewrite length_haar1. }
  destruct (for_upto r _ _) as [[X1 lb1] f1]. destruct Hrec as [HX1 Hlb1].
  set (B1 := Z.shiftr (2 ^ k) r). set (N1 := Z.shiftl (celt_udiv N (2 ^ k)) r).
  assert (B1 = 2 ^ (k - r)) as EB1.
  { subst B1. rewrite Z.shiftr_div_pow2 by lia. symmetry. apply Z.pow_sub_r; lia. }
  destruct (divide_shape (Z.to_nat (- tf_change c)) (bp_encode p) N X1 lb1 f1 B1 N1 0 (tf_change c) HX1 Hlb1)
    as (X3 & lb3 & f3 & N3 & td & -> & Htd & HX3 & Hlb3 & HP & Htd0).
  rewrite Z.add_0_l, EB1, <- Z.pow_add_r by lia.
  assert (Z.shiftr N3 r * Z.shiftl (2 ^ (k - r + td)) r = N) as Esh.
  { apply (shuffle_product N (2 ^ k) (tf_change c)); try done.
    - apply Z.pow_pos_nonneg; lia.
    - fold r B1 N1. rewrite EB1, <- HP, Z.pow_add_r by lia. ring.
    - fold r B1 N1. destruct (decide (tf_change c <= 0)); [by left|right].
      rewrite Htd0 in * by lia. rewrite Z.add_0_r. split; [done|]. lia. }
  assert (Z.shiftl (Z.shiftr (2 ^ (k - r + td)) td) r = 2 ^ k) as EBk.
  { rewrite Z.shiftr_div_pow2, Z.shiftl_mul_pow2 by lia. rewrite <- Z.pow_sub_r, <- Z.pow_add_r by lia. f_equal. lia. }
  assert (forall Xe lbe, len Xe = N -> lb_ok N lbe ->
    yields inv (quant_partition p c (S LM) Xe N b (2 ^ (k - r + td)) lbe gain f3 rem seed) (part_ok N (2 ^ (k - r + td)))) as Hpart.
  { intros Xe lbe HXe Hle. apply yields_partition; try done; [|lia..]. rewrite EN. f_equal. lia. }
  assert (forall l, len l = N -> len (deinterleave_hadamard l (Z.shiftr N3 r) (Z.shiftl (2 ^ (k - r + td)) r) (2 ^ k =? 1)) = N) as Hshuf.
  { intros l _. unfold len. rewrite length_deinterleave, Esh. lia. }
  destruct (2 ^ (k - r + td) >? 1).
  - eapply yields_seq; [apply Hpart|].
    + destruct (bp_encode p); [by apply Hshuf|done].
    + eapply lb_ok_map; [exact Hlb3|]. exact Hshuf.
    + intros q [HqX _]. pose proof (resynth_ok N k (tf_change c) r td (2 ^ (k - r + td)) N3 (2 ^ k =? 1) (q_X q) (q_cm q)
        Hbl eq_refl HqX Esh Htd EBk HN) as Hres. destruct (quant_band_resynth _ _ _ _ _ _ _ _) as [[X5 cm5] out5].
      by apply yields_done.
  - eapply yields_seq; [by apply Hpart|].
    intros q [HqX _]. pose proof (resynth_ok N k (tf_change c) r td (2 ^ (k - r + td)) N3 (2 ^ k =? 1) (q_X q) (q_cm q)
        Hbl eq_refl HqX Esh Htd EBk HN) as Hres. destruct (quant_band_resynth _ _ _ _ _ _ _ _) as [[X5 cm5] out5].
    by apply yields_done.
Qed.

(** ** A stereo band *)

Definition stereo_res_ok (N B : Z) (r : band) : Prop := band_res_ok N B r /\ len r.(b_Y) = N.

Lemma len_map2 f X Y : len X = len Y -> len (map2 f X Y) = len X.
Proof. unfold len. intros HL. rewrite length_map2; lia. Qed.
Lemma len_map (f : Z -> Z) (X : list Z) : len (map f X) = len X.
Proof. unfold len. by rewrite length_map. Qed.

Lemma yields_stereo2 sp X Y k lb fill rem seed :
  band_dim c.(bc_m) c.(bc_i) (Z.of_nat LM) = 2 -> blocks_ok 2 k c.(tf_change) -> len X = 2 -> len Y = 2 -> lb_ok 2 lb ->
  yields inv (quant_band_stereo2 p c LM sp X Y (2 ^ k) lb fill rem seed) (stereo_res_ok 2 (2 ^ k)).
Proof.
  intros EN Hbl HX HY Hlb. unfold quant_band_stereo2. cbv zeta. rewrite Hr.
  set (sb := if negb (itheta sp =? 0) && _ then _ else 0).
  destruct (if itheta sp >? 8192 then (Y, X) else (X, Y)) as [x2 y2] eqn:E2.
  assert (len x2 = 2) as Hx2 by (destruct (itheta sp >? 8192); injection E2 as <- <-; done). clear E2.
  apply (yields_seq inv _ _ (fun _ => True)).
  { destruct (negb (sb =? 0)); [|by apply yields_done].
    pose proof (b2z_range (i32 (x2.[0] * y2.[1] - x2.[1] * y2.[0]) <? 0)) as Hb. set (v := b2z _) in *.
    eapply yields_impl; [by apply (po_bits _ _ Hp)|done]. }
  intros sg _. eapply yields_seq; [by apply (yields_quant_band _ 2); try lia|]. intros r (H1 & H2 & H3).
  assert (forall (u : list Z) (v w : Z), len u = 2 -> len [v; w] = len u) as Hl by (intros u v w ->; done).
  destruct (itheta sp >? 8192); apply yields_done; unfold stereo_res_ok, band_res_ok;
    cbn [b_X b_Y b_out b_cm]; rewrite !len_map2; rewrite ?len_map; auto; try (symmetry; auto).
Qed.

Lemma yields_stereo_split sp X Y N k lb rem seed :
  N = band_dim c.(bc_m) c.(bc_i) (Z.of_nat LM) -> 1 <= N -> blocks_ok N k c.(tf_change) ->
  len X = N -> len Y = N -> lb_ok N lb ->
  yields inv (quant_band_split p c LM sp X Y N (2 ^ k) lb rem seed) (stereo_res_ok N (2 ^ k)).
Proof.
  intros EN HN Hbl HX HY Hlb. unfold quant_band_split. cbv zeta.
  assert (forall r1 r2 cm, band_res_ok N (2 ^ k) r1 -> band_res_ok N (2 ^ k) r2 ->
    cm = Z.lor (b_cm r1) (b_cm r2) \/ cm = Z.lor (b_cm r2) (b_cm r1) -> forall rm sd,
    stereo_res_ok N (2 ^ k) {| b_cm := cm; b_X := b_X r1; b_Y := b_X r2; b_out := b_out r1; b_rem := rm; b_seed := sd |}) as Hm.
  { intros r1 r2 cm (A1 & A2 & A3) (B1 & B2 & B3) Hcm rm sd. split; [|done]. split; [done|]. split; [done|].
    cbn [b_cm]. destruct Hcm as [-> | ->]; by apply lor_range. }
  destruct (_ >=? _).
  - eapply yields_seq; [by apply yields_quant_band|]. intros r1 H1.
    eapply yields_seq; [by apply yields_quant_band|]. intros r2 H2. apply yields_done, Hm; auto.
  - eapply yields_seq; [by apply yields_quant_band|]. intros r2 H2.
    eapply yields_seq; [by apply yields_quant_band|]. intros r1 H1. apply yields_done, Hm; auto.
Qed.

Lemma yields_quant_band_stereo X Y N b k lb fill rem seed :
  N = band_dim c.(bc_m) c.(bc_i) (Z.of_nat LM) -> 1 <= N -> blocks_ok N k c.(tf_change) ->
  len X = N -> len Y = N -> lb_ok N lb ->
  yields inv (quant_band_stereo p c LM X Y N b (2 ^ k) lb fill rem seed) (stereo_res_ok N (2 ^ k)).
Proof.
  intros EN HN Hbl HX HY Hlb. pose proof Hbl as (Hk & _). pose proof (Z.pow_pos_nonneg 2 k ltac:(lia) Hk) as HB.
  unfold quant_band_stereo. rewrite Hr. destruct (Z.eqb_spec N 1) as [->|HN1].
  { eapply yields_impl; [apply (yields_n1 X (Some Y) (2 ^ k)); lia|]. done. }
  eapply yields_seq; [apply yields_compute_theta; [unfold len in *; lia|by left]|].
  intros [[sp X1] Y1] (Hw & L1 & L2). cbn [fst snd] in *.
  assert (len X1 = N /\ len Y1 = N) as [HX1 HY1] by (unfold len in *; lia).
  apply (yields_seq inv _ _ (stereo_res_ok N (2 ^ k))).
  { destruct (Z.eqb_spec N 2) as [->|]; [by apply yields_stereo2|by apply yields_stereo_split]. }
  intros r ((R1 & R2 & R3) & R4). cbn [andb].
  assert (len (stereo_merge (b_X r) (b_Y r) (imid sp)).1 = N /\ len (stereo_merge (b_X r) (b_Y r) (imid sp)).2 = N) as [M1 M2].
  { unfold stereo_merge. cbv zeta. destruct (_ || _); [done|]. cbn [fst snd]. rewrite !len_map2 by lia. done. }
  destruct (negb (N =? 2)).
  - destruct (stereo_merge _ _ _) as [X2 Y2]. cbn [fst snd] in *. apply yields_done. split; [done|].
    cbn. destruct (Theta.inv sp); rewrite ?len_map; done.
  - apply yields_done. split; [done|]. cbn. destruct (Theta.inv sp); rewrite ?len_map; done.
Qed.
End Band.
End Safe.
