(* ===== verification/AllBandsSync.v ===== *)
(** * The loop over the bands

    The invariant of [quant_all_bands]: the folding buffers hold one value per
    coefficient coded so far, so no band is folded from memory that was not
    written; masks have one bit per block.

    [quant_all_bands] with the encoder's port and with the decoder's are in
    [sync] as long as the encoder resynthesises: coefficients, masks, folding
    buffers and seed agree after every band, also when the encoder codes
    a band twice and keeps one of the two. *)

From S2P Require Import Prelude RangeCoder EntropyInterface EntropySeq EntCode CwrsTable Cwrs CwrsProps FixedPoint MathOps Vq VqProofs CeltMode QuantBands PulseCacheProofs BandOps Theta ThetaProofs Bands BandsSync BandsSafe AllBands.

(** What the loop relies on: the mode, and [tf_res]. *)
Record frame_ok (f : bands_in) (k : Z) : Prop := {
  fr_range : 0 <= f.(in_start) < f.(in_end);
  fr_blocks : blocks f = 2 ^ k /\ 0 <= k <= 3;
  fr_mono : forall i j, f.(in_start) <= i <= j -> j <= f.(in_end) -> eband f i <= eband f j;
  fr_band : forall i, f.(in_start) <= i < f.(in_end) ->
    band_ok f.(in_m) i f.(in_LM) /\ band_N f i = band_dim f.(in_m) i (Z.of_nat f.(in_LM)) /\ 1 <= band_N f i /\
    blocks_ok (band_N f i) k f.(in_tf_res).[i];
  fr_fold : forall i, f.(in_start) + 1 < i < f.(in_end) -> band_N f i <= eband f i - norm_offset f;
  fr_hybrid : f.(in_start) + 1 < f.(in_end) ->
    band_N f f.(in_start) <= band_N f (f.(in_start) + 1) <= 2 * band_N f f.(in_start)
}.

(** ** Slices *)

Lemma len_subarray l off n : 0 <= off -> 0 <= n -> off + n <= len l -> len (slice l off n) = n.
Proof. unfold len, slice. rewrite length_take, length_drop. lia. Qed.

Lemma len_spliced l off src : 0 <= off -> off <= len l -> len (splice l off src) = Z.max (len l) (off + len src).
Proof. unfold len, splice. rewrite !length_app, length_take, length_drop. lia. Qed.

(** What a splice leaves in front of it. *)
Lemma take_splice l off src : 0 <= off <= len l -> take (Z.to_nat off) (splice l off src) = take (Z.to_nat off) l.
Proof.
  unfold len, splice. intros Ho. rewrite take_app_le by (rewrite length_take; lia). by rewrite take_take, Nat.min_id.
Qed.

Lemma slice_agree l l' n off m :
  take (Z.to_nat n) l = take (Z.to_nat n) l' -> 0 <= off -> 0 <= m -> off + m <= n -> slice l off m = slice l' off m.
Proof.
  intros E Ho Hm Hn. unfold slice.
  assert (forall x : list Z, take (Z.to_nat m) (drop (Z.to_nat off) x)
            = take (Z.to_nat m) (drop (Z.to_nat off) (take (Z.to_nat n) x))) as H.
  { intros x. rewrite !take_drop_commute, take_take. f_equal. f_equal. lia. }
  by rewrite (H l), (H l'), E.
Qed.

Lemma splice_agree l l' off src :
  take (Z.to_nat off) l = take (Z.to_nat off) l' -> 0 <= off ->
  len l <= off + len src -> len l' <= off + len src -> splice l off src = splice l' off src.
Proof.
  unfold splice, len. intros -> Ho H1 H2. f_equal. f_equal. rewrite !drop_ge by lia. done.
Qed.

Section Loop.
Context (f : bands_in) (k : Z) (Hf : frame_ok f k).
Abbreviation start := f.(in_start).
Abbreviation end_ := f.(in_end).
Abbreviation N := (band_N f).

(** Coefficients before band [i]. *)
Definition F (i : Z) : Z := eband f i - norm_offset f.

Lemma F_start : F start = 0.
Proof. unfold F, norm_offset. lia. Qed.
Lemma F_next i : F (i + 1) = F i + N i.
Proof. unfold F, band_N. lia. Qed.
Lemma F_mono i j : start <= i <= j -> j <= end_ -> F i <= F j.
Proof. intros H1 H2. pose proof (fr_mono _ _ Hf i j H1 H2). unfold F. lia. Qed.
Lemma F_nonneg i : start <= i <= end_ -> 0 <= F i.
Proof. intros H1. rewrite <- F_start. apply F_mono; lia. Qed.
Lemma N_pos i : start <= i < end_ -> 1 <= N i.
Proof. intros H1. by destruct (fr_band _ _ Hf i H1) as (_ & _ & H2 & _). Qed.

(** The buffers when band [i] is coded: the second band has what was duplicated for it. *)
Definition norm_len (i : Z) : Z := if i =? start + 1 then N i else F i.

Lemma F_le_norm_len i : start <= i < end_ -> F i <= norm_len i <= F i + N i.
Proof.
  intros Hi. pose proof (F_nonneg i ltac:(lia)). pose proof (N_pos i Hi). unfold norm_len.
  destruct (Z.eqb_spec i (start + 1)) as [->|]; [|lia]. pose proof (fr_hybrid _ _ Hf ltac:(lia)).
  rewrite F_next, F_start in *. lia.
Qed.

Section Hybrid.
Hypothesis (H1 : start + 1 < end_).

Lemma len_special l : len l = F (start + 1) \/ len l = N (start + 1) -> len (special_hybrid_folding f l) = N (start + 1).
Proof.
  intros Hl. pose proof (fr_hybrid _ _ Hf H1). pose proof (N_pos start ltac:(lia)).
  rewrite F_next, F_start in Hl. unfold special_hybrid_folding. rewrite len_spliced by lia. rewrite len_subarray by lia. lia.
Qed.

Lemma take_special l :
  F (start + 1) <= len l -> take (Z.to_nat (F (start + 1))) (special_hybrid_folding f l) = take (Z.to_nat (F (start + 1))) l.
Proof.
  intros Hl. rewrite F_next, F_start, Z.add_0_l in *. unfold special_hybrid_folding.
  pose proof (N_pos start ltac:(lia)). apply take_splice. lia.
Qed.

(** Duplicating gives the same result from any buffer with the same first band. *)
Lemma special_agree l l' :
  take (Z.to_nat (F (start + 1))) l = take (Z.to_nat (F (start + 1))) l' ->
  F (start + 1) <= len l <= N (start + 1) ->
  len l' <= F (start + 1) + N (start + 1) ->
  take (Z.to_nat (N (start + 1))) (special_hybrid_folding f l') = special_hybrid_folding f l.
Proof.
  intros E Hl Hl'. pose proof (fr_hybrid _ _ Hf H1). pose proof (N_pos start ltac:(lia)).
  rewrite F_next, F_start, Z.add_0_l in *. unfold special_hybrid_folding.
  rewrite (slice_agree l' l (N start)) by (try symmetry; (done || lia)).
  set (src := slice l _ _). assert (len src = N (start + 1) - N start) as Hsrc by (subst src; rewrite len_subarray; lia).
  unfold splice, len in *. rewrite E. rewrite app_assoc, app_assoc.
  rewrite (drop_ge l) by lia. rewrite app_nil_r.
  assert (length (take (Z.to_nat (N start)) l' ++ src) = Z.to_nat (N (start + 1))) as Hlen.
  { rewrite <- E, length_app, length_take. lia. }
  rewrite take_app_le by lia. apply take_ge. lia.
Qed.
End Hybrid.

(** ** The invariant *)

Record st_ok (theta_rdo two : bool) (i : Z) (st : bands_st) : Prop := {
  so_norm : i < end_ -> len st.(st_norm) = F i;
  so_norm2 : i < end_ -> st.(st_dual_stereo) = true -> len st.(st_norm2) = F i;
  so_lbo : st.(st_lowband_offset) = 0 \/ start < st.(st_lowband_offset) < i;
  so_rdo : theta_rdo = true -> st.(st_dual_stereo) = false;
  so_X : len st.(st_X) = F i;
  so_Y : two = true -> len st.(st_Y) = F i;
  so_masks : len st.(st_xmask) = i - start /\ len st.(st_ymask) = i - start /\
    Forall (fun m => 0 <= m < 2 ^ 2 ^ k) st.(st_xmask) /\ Forall (fun m => 0 <= m < 2 ^ 2 ^ k) st.(st_ymask)
}.

(** A place to fold from lies in what is written. *)
Definition eff_ok (i : Z) (eff : option Z) : Prop :=
  match eff with Some e => 0 <= e /\ e + N i <= norm_len i | None => True end.

Lemma eff_lowband i eff norm : start <= i < end_ -> eff_ok i eff -> len norm = norm_len i -> lb_ok (N i) (lowband_of norm eff (N i)).
Proof.
  intros Hi He Hn. pose proof (N_pos i Hi). destruct eff as [e|]; [|done]. cbn in *. apply len_subarray; lia.
Qed.

Lemma merge_len i norm norm2 :
  start <= i < end_ -> len norm = norm_len i -> len norm2 = norm_len i -> len (merge_norms f norm norm2 i) = norm_len i.
Proof.
  intros Hi H1 H2. pose proof (F_le_norm_len i Hi). pose proof (F_nonneg i ltac:(lia)). unfold merge_norms. fold (F i).
  assert (len (take (Z.to_nat (F i)) norm) = F i /\ len (take (Z.to_nat (F i)) norm2) = F i) as [E1 E2].
  { unfold len in *. rewrite !length_take. lia. }
  rewrite len_spliced by lia. rewrite len_map2 by lia. lia.
Qed.

Lemma folding_ok i st rdo two :
  start <= i < end_ -> st_ok rdo two i st ->
  let lbo := folding_position f true i st.(st_lowband_offset) st.(st_update_lowband) in
  (lbo = 0 \/ start < lbo < i + 1) /\ eff_ok i (fold_region f st i lbo f.(in_tf_res).[i]).1.1.
Proof.
  intros Hi Hst lbo. pose proof (N_pos i Hi) as HN. pose proof (fr_range _ _ Hf).
  assert (lbo = 0 \/ start < lbo < i + 1) as Hl.
  { subst lbo. unfold folding_position. destruct (so_lbo _ _ _ _ Hst) as [->|Hl].
    - destruct (_ && _) eqn:E; [|by left]. right.
      rewrite !andb_true_iff, orb_true_iff in E. destruct E as [[_ [E|E]] _]; [|lia].
      apply Z.geb_le in E. destruct (decide (i = start)) as [->|]; lia.
    - destruct (_ && _); right; lia. }
  split; [done|]. unfold fold_region. destruct (Z.eqb_spec lbo 0) as [->|Hne]; [done|]. cbn [negb andb].
  destruct (_ || _); [|done]. destruct (fold_bands f i lbo) as [fs fe]. cbn [fst eff_ok].
  unfold effective_lowband. fold (F lbo). replace (eband f lbo - norm_offset f) with (F lbo) by done.
  split; [lia|]. pose proof (F_mono lbo i ltac:(lia) ltac:(lia)). unfold norm_len.
  destruct (Z.eqb_spec i (start + 1)) as [->|].
  - assert (lbo = start + 1) as -> by lia. pose proof (fr_hybrid _ _ Hf ltac:(lia)). rewrite F_next, F_start. lia.
  - pose proof (fr_fold _ _ Hf i ltac:(lia)). fold (F i) in *. lia.
Qed.

Lemma prep_ok i st rdo two :
  start <= i < end_ -> st_ok rdo two i st ->
  let '(lbo, eff, x_cm, y_cm, dual, norm, norm2) := band_prep f true i st in
  (lbo = 0 \/ start < lbo < i + 1) /\ eff_ok i eff /\ len norm = norm_len i /\ (dual = true -> len norm2 = norm_len i) /\
  (rdo = true -> dual = false /\ (i = start + 1 -> special_hybrid_folding f norm = norm)).
Proof.
  intros Hi Hst. unfold band_prep. pose proof (folding_ok i st rdo two Hi Hst) as [Hl He].
  set (lbo := folding_position _ _ _ _ _) in *. clearbody lbo. cbv zeta.
  destruct (fold_region f st i lbo _) as [[eff x_cm] y_cm]. cbn [fst] in He.
  pose proof (so_norm _ _ _ _ Hst ltac:(lia)) as H1. pose proof (so_norm2 _ _ _ _ Hst ltac:(lia)) as H2.
  pose proof (so_rdo _ _ _ _ Hst) as H3. unfold norm_len in *.
  destruct (Z.eqb_spec i (start + 1)) as [->|Hne].
  - pose proof (F_next start) as EF. rewrite F_start, Z.add_0_l in EF. pose proof (fr_hybrid _ _ Hf ltac:(lia)).
    pose proof (len_special ltac:(lia) (st_norm st) ltac:(lia)) as L1.
    assert (st_dual_stereo st = true -> len (special_hybrid_folding f (st_norm2 st)) = N (start + 1)) as L2.
    { intros Hd. apply len_special; [lia|left]. by apply H2. }
    assert (special_hybrid_folding f (special_hybrid_folding f (st_norm st)) = special_hybrid_folding f (st_norm st)) as Hidem.
    { rewrite <- (special_agree ltac:(lia) (st_norm st) (special_hybrid_folding f (st_norm st))) at 2.
      - symmetry. apply take_ge. pose proof (len_special ltac:(lia) (special_hybrid_folding f (st_norm st)) ltac:(lia)) as L3.
        unfold len in L3. lia.
      - symmetry. apply take_special; lia.
      - lia.
      - lia. }
    destruct (st_dual_stereo st) eqn:Hd; cbn [andb].
    + destruct (_ =? in_intensity f).
      * split_and!; try done. 2: by intros ?%H3.
        pose proof (merge_len (start + 1) (special_hybrid_folding f (st_norm st)) (special_hybrid_folding f (st_norm2 st)) ltac:(lia)) as Hm.
        unfold norm_len in Hm. rewrite Z.eqb_refl in Hm. apply Hm; [done|by apply L2].
      * split_and!; try done. by intros ?%H3.
    + split_and!; try done.
  - destruct (st_dual_stereo st) eqn:Hd; cbn [andb]; [|by split_and!].
    destruct (_ =? in_intensity f).
    + split_and!; try done.
      pose proof (merge_len i (st_norm st) (st_norm2 st) Hi) as Hm. unfold norm_len in Hm.
      destruct (Z.eqb_spec i (start + 1)); [lia|]. apply Hm; [done|by apply H2].
    + split_and!; try done. by intros ?%H3.
Qed.

(** ** Two tries at one band *)

Lemma len_store i norm out :
  start <= i < end_ -> len norm = norm_len i -> len out = N i -> i + 1 < end_ -> len (store_norm f norm i out) = F (i + 1).
Proof.
  intros Hi Hn Ho Hl. unfold store_norm, last_band. destruct (Z.eqb_spec i (end_ - 1)); [lia|].
  pose proof (F_le_norm_len i Hi). pose proof (F_nonneg i ltac:(lia)). fold (F i). rewrite len_spliced by lia. rewrite F_next. lia.
Qed.

(** What the first try leaves in the buffer does not show in the second, nor in the result. *)
Lemma retry i norm eff o0 o1 :
  start <= i < end_ -> len norm = norm_len i -> eff_ok i eff ->
  (i = start + 1 -> special_hybrid_folding f norm = norm) -> len o0 = N i -> len o1 = N i ->
  let norm0 := store_norm f norm i o0 in
  let norm1 := if i =? start + 1 then special_hybrid_folding f norm0 else norm0 in
  lowband_of norm1 eff (N i) = lowband_of norm eff (N i) /\
  store_norm f norm1 i o1 = store_norm f norm i o1 /\
  store_norm f (store_norm f norm1 i o1) i o0 = store_norm f norm i o0.
Proof.
  intros Hi Hn He Hsp H0 H1. pose proof (F_le_norm_len i Hi) as HF. pose proof (F_nonneg i ltac:(lia)) as HF0.
  pose proof (N_pos i Hi) as HN. unfold store_norm, last_band.
  destruct (Z.eqb_spec i (end_ - 1)) as [Hla|Hla]; cbv zeta.
  { destruct (Z.eqb_spec i (start + 1)) as [Es|]; [|done]. by rewrite Hsp. }
  change (eband f i - norm_offset f) with (F i).
  set (norm0 := splice norm (F i) o0).
  assert (take (Z.to_nat (F i)) norm0 = take (Z.to_nat (F i)) norm /\ len norm0 = F i + N i) as [T0 L0].
  { subst norm0. rewrite take_splice by lia. split; [done|]. rewrite len_spliced by lia. lia. }
  set (norm1 := if i =? start + 1 then special_hybrid_folding f norm0 else norm0).
  assert (take (Z.to_nat (F i)) norm1 = take (Z.to_nat (F i)) norm /\ len norm1 = F i + N i /\
    lowband_of norm1 eff (N i) = lowband_of norm eff (N i)) as (T1 & L1 & Elb).
  { subst norm1. clearbody norm0. unfold eff_ok, norm_len in *. destruct (Z.eqb_spec i (start + 1)) as [->|Hne].
    - pose proof (fr_hybrid _ _ Hf ltac:(lia)). pose proof (N_pos start ltac:(lia)).
      pose proof (F_next start) as EF. rewrite F_start, Z.add_0_l in EF.
      split_and!.
      + rewrite take_special by lia. done.
      + unfold special_hybrid_folding. rewrite len_spliced by lia. rewrite len_subarray by lia. lia.
      + destruct eff as [e|]; [|done]. cbn in *. f_equal. apply (slice_agree _ _ (N (start + 1))); try lia.
        rewrite (special_agree ltac:(lia) norm norm0) by (done || lia). rewrite Hsp by done.
        symmetry. apply take_ge. unfold len in *. lia.
    - split_and!; try done. destruct eff as [e|]; [|done]. cbn in *. f_equal. apply (slice_agree _ _ (F i)); try lia. done. }
  clearbody norm1. split; [done|].
  assert (splice norm1 (F i) o1 = splice norm (F i) o1) as E1 by (apply splice_agree; (done || lia)).
  rewrite E1. split; [done|]. apply splice_agree; [|lia| |lia].
  - apply take_splice. lia.
  - rewrite len_spliced by lia. lia.
Qed.

(** ** One round *)

Section Coder.
Context `{A : SignalAnalysis}.

Lemma ctx_band i {T} (p : band_port T) rdo RES bandE_ round avoid :
  start <= i < end_ -> resynth_ p rdo RES = true ->
  let c := ctx_of f p rdo RES bandE_ i round avoid in
  c.(resynth) = true /\ band_ok c.(bc_m) c.(bc_i) f.(in_LM) /\
  N i = band_dim c.(bc_m) c.(bc_i) (Z.of_nat f.(in_LM)) /\ 1 <= N i /\ blocks_ok (N i) k c.(tf_change).
Proof. intros Hi HR. destruct (fr_band _ _ Hf i Hi) as (H1 & H2 & H3 & H4). exact (conj HR (conj H1 (conj H2 (conj H3 H4)))). Qed.

(** Result of a coded band: masks, sizes and buffers. *)
Definition coded_ok (two : bool) (i : Z) (dual : bool) (norm norm2 : list Z)
    (r : Z * Z * list Z * list Z * list Z * list Z * Z) : Prop :=
  let '(x_cm, y_cm, X, Y, norm', norm2', _) := r in
  0 <= x_cm < 2 ^ 2 ^ k /\ 0 <= y_cm < 2 ^ 2 ^ k /\ len X = N i /\ (two = true -> len Y = N i) /\
  (i + 1 < end_ -> len norm' = F (i + 1)) /\ (i + 1 < end_ -> dual = true -> len norm2' = F (i + 1)).

Section Safe.
Context {T : Type} (inv : T -> Prop) (p : band_port T) (Hp : port_ok inv p) (rdo RES : bool) (bandE_ : list Z).
Hypothesis (HR : resynth_ p rdo RES = true).

Lemma yields_rdo i avoid X Y b eff norm cm rem seed :
  start <= i < end_ -> len norm = norm_len i -> eff_ok i eff -> (i = start + 1 -> special_hybrid_folding f norm = norm) ->
  len X = N i -> len Y = N i ->
  yields inv (quant_band_rdo f p rdo RES bandE_ i avoid X Y b eff norm cm rem seed)
    (fun r => stereo_res_ok (N i) (2 ^ k) r.1 /\ (i + 1 < end_ -> len r.2 = F (i + 1))).
Proof.
  intros Hi Hn He Hsp HX HY s Hs. unfold quant_band_rdo. cbv zeta. destruct (fr_blocks _ _ Hf) as [-> _].
  destruct (ctx_band i p rdo RES bandE_ (-1) avoid Hi HR) as (C1 & C2 & C3 & C4 & C5).
  destruct (ctx_band i p rdo RES bandE_ 1 avoid Hi HR) as (D1 & D2 & D3 & D4 & D5).
  assert (lb_ok (N i) (lowband_of norm eff (N i))) as Hlb by by apply eff_lowband.
  destruct (yields_quant_band_stereo inv p Hp _ _ C1 C2 X Y _ b k _ cm rem seed C3 C4 C5 HX HY Hlb s Hs) as [R0 I0].
  destruct (quant_band_stereo p (ctx_of f p rdo RES bandE_ i (-1) avoid) _ _ _ _ _ _ _ _ _ _ s) as [r0 s0]. cbn [fst snd] in *.
  assert (len (b_out r0) = N i) as O0 by (destruct R0 as ((_ & O0 & _) & _); done).
  pose proof (retry i norm eff (b_out r0) (b_out r0) Hi Hn He Hsp O0 O0) as (E1 & _ & _). cbv zeta in E1. rewrite E1.
  destruct (yields_quant_band_stereo inv p Hp _ _ D1 D2 X Y _ b k _ cm rem seed D3 D4 D5 HX HY Hlb s Hs) as [R1 I1].
  destruct (quant_band_stereo p (ctx_of f p rdo RES bandE_ i 1 avoid) _ _ _ _ _ _ _ _ _ _ s) as [r1 s1]. cbn [fst snd] in *.
  assert (len (b_out r1) = N i) as O1 by (destruct R1 as ((_ & O1 & _) & _); done).
  pose proof (retry i norm eff (b_out r0) (b_out r1) Hi Hn He Hsp O0 O1) as (_ & E2 & E3). cbv zeta in E2, E3.
  rewrite E3, E2.
  destruct (_ >=? _); cbn [fst snd]; (split; [|done]); (split; [done|]); intros; by apply len_store.
Qed.

Lemma yields_code_band i two dual avoid X Y b eff norm norm2 x_cm y_cm rem seed :
  start <= i < end_ -> len norm = norm_len i -> (dual = true -> len norm2 = norm_len i) -> eff_ok i eff ->
  (rdo = true -> dual = false /\ (i = start + 1 -> special_hybrid_folding f norm = norm)) ->
  len X = N i -> match Y with Some Y => len Y = N i | None => two = false /\ dual = false end ->
  yields inv (code_band f p rdo RES bandE_ i dual avoid X Y b eff norm norm2 x_cm y_cm rem seed)
    (coded_ok two i dual norm norm2).
Proof.
  intros Hi Hn Hn2 He Hr HX HY. unfold code_band. cbv zeta. destruct (fr_blocks _ _ Hf) as [-> _].
  destruct (ctx_band i p rdo RES bandE_ 0 avoid Hi HR) as (C1 & C2 & C3 & C4 & C5).
  assert (lb_ok (N i) (lowband_of norm eff (N i))) as Hlb by by apply eff_lowband.
  destruct Y as [Y|].
  - destruct dual.
    + eapply yields_seq; [by apply (yields_quant_band inv p Hp)|]. intros rx (X1 & X2 & X3).
      eapply yields_seq; [apply (yields_quant_band inv p Hp); try done; apply eff_lowband; auto|].
      intros ry (Y1 & Y2 & Y3). apply yields_done.
      refine (conj X3 (conj Y3 (conj X1 (conj (fun _ => Y1) (conj _ _))))); intros; apply len_store; auto.
    + apply (yields_seq inv _ _ (fun r => stereo_res_ok (N i) (2 ^ k) r.1 /\ (i + 1 < end_ -> len r.2 = F (i + 1)))).
      * destruct (rdo && _) eqn:Erdo.
        -- apply andb_true_iff in Erdo as [Er _]. destruct (Hr Er) as [_ Hsp]. by apply yields_rdo.
        -- eapply yields_seq; [by apply (yields_quant_band_stereo inv p Hp)|]. intros r R.
           apply yields_done. split; [done|]. intros. apply len_store; try done. by destruct R as ((_ & O & _) & _).
      * intros [r norm'] (((R1 & R2 & R3) & R4) & R5). apply yields_done.
        refine (conj R3 (conj R3 (conj R1 (conj (fun _ => R4) (conj R5 _))))). done.
  - destruct HY as [-> ->]. eapply yields_seq; [by apply (yields_quant_band inv p Hp)|]. intros rx (X1 & X2 & X3).
    apply yields_done. refine (conj X3 (conj X3 (conj X1 (conj _ (conj _ _))))); [done| |done].
    intros. by apply len_store.
Qed.

(** The state after a round, on both sides. *)
Lemma yields_band_step i X_ Y_ st :
  start <= i < end_ -> st_ok rdo (match Y_ with Some _ => true | None => false end) i st ->
  (Y_ = None -> st.(st_dual_stereo) = false) ->
  eband f end_ <= len X_ -> match Y_ with Some Y => eband f end_ <= len Y | None => True end -> 0 <= eband f start ->
  yields inv (band_step f p rdo RES bandE_ X_ Y_ i st)
    (fun st' => st_ok rdo (match Y_ with Some _ => true | None => false end) (i + 1) st'
                /\ (Y_ = None -> st'.(st_dual_stereo) = false)).
Proof.
  intros Hi Hst Hdn HX HY H0. unfold band_step. cbv zeta. rewrite HR. set (two := match Y_ with Some _ => true | None => false end) in *.
  pose proof (N_pos i Hi). pose proof (fr_mono _ _ Hf start i ltac:(lia) ltac:(lia)).
  pose proof (fr_mono _ _ Hf (i + 1) end_ ltac:(lia) ltac:(lia)).
  assert (forall l : list Z, eband f end_ <= len l -> len (slice l (eband f i) (N i)) = N i) as Hsl.
  { intros l Hl. apply len_subarray; [lia..|]. unfold band_N in *. lia. }
  eapply yields_seq; [apply yields_tell|]. intros tell _.
  pose proof (prep_ok i st rdo two Hi Hst) as Hprep.
  assert ((band_prep f true i st).1.1.2 = true -> st_dual_stereo st = true) as Hdual.
  { unfold band_prep. destruct (if i =? start + 1 then _ else _) as [a b]. destruct (fold_region _ _ _ _ _) as [[c d] e].
    cbv zeta. destruct (st_dual_stereo st); [done|]. cbn. done. }
  destruct (band_prep f true i st) as [[[[[[lbo eff] x_cm] y_cm] dual] norm] norm2]. cbn [fst snd] in Hdual.
  destruct Hprep as (P1 & P2 & P3 & P4 & P5).
  eapply yields_seq.
  { apply (yields_code_band i two); try done; [by apply Hsl|].
    destruct Y_ as [Y|]; cbn; [by apply Hsl|]. split; [done|]. destruct dual; [|done].
    rewrite Hdn in Hdual by done. symmetry. auto. }
  intros [[[[[[xc yc] X'] Y'] n'] n2'] sd] (Q1 & Q2 & Q3 & Q4 & Q5 & Q6).
  destruct (so_masks _ _ _ _ Hst) as (M1 & M2 & M3 & M4).
  assert (forall m, 0 <= m < 2 ^ 2 ^ k -> 0 <= u8 m < 2 ^ 2 ^ k) as Hu8.
  { intros m Hm. destruct (fr_blocks _ _ Hf) as [_ Hk]. rewrite u8_small; [done|].
    assert (2 ^ 2 ^ k <= 2 ^ 2 ^ 3) by (apply Z.pow_le_mono_r; [lia|]; apply Z.pow_le_mono_r; lia).
    change (2 ^ 2 ^ 3) with 256 in *. lia. }
  apply yields_done. split.
  2: { cbn. intros E. destruct dual; [|done]. symmetry. rewrite (Hdn E) in Hdual. auto. }
  split; cbn [st_norm st_norm2 st_dual_stereo st_lowband_offset st_X st_Y st_xmask st_ymask].
  - done.
  - done.
  - done.
  - intros E. by destruct (P5 E).
  - pose proof (so_X _ _ _ _ Hst). rewrite F_next. unfold len in *. rewrite length_app. lia.
  - intros E. pose proof (so_Y _ _ _ _ Hst E). specialize (Q4 E). rewrite F_next. unfold len in *. rewrite length_app. lia.
  - unfold len in *. rewrite !length_app. cbn [length]. split; [lia|]. split; [lia|].
    split; apply Forall_app; (split; [done|]); constructor; auto.
Qed.

Lemma yields_loop X_ Y_ n : forall i st,
  start <= i -> i + Z.of_nat n = end_ -> st_ok rdo (match Y_ with Some _ => true | None => false end) i st ->
  (Y_ = None -> st.(st_dual_stereo) = false) ->
  eband f end_ <= len X_ -> match Y_ with Some Y => eband f end_ <= len Y | None => True end -> 0 <= eband f start ->
  yields inv (bands_loop f p rdo RES bandE_ n X_ Y_ i st)
    (st_ok rdo (match Y_ with Some _ => true | None => false end) end_).
Proof.
  induction n as [|n IH]; intros i st Hi En Hst Hd HX HY H0; cbn [bands_loop].
  { apply yields_done. replace end_ with i by lia. done. }
  eapply yields_seq; [apply yields_band_step; try done; lia|]. intros st' [H1 H2]. apply IH; try done; lia.
Qed.
End Safe.
End Coder.
End Loop.

Section Sync.
Context `{A : SignalAnalysis} `{EntropyCoder E D}.
Context (f : bands_in) (k : Z) (Hf : frame_ok f k).
Context (rdo RES RES' : bool) (bE bE' : list Z).
Hypothesis (HR : rdo || RES = true).
Abbreviation enc := (enc_band (E := E) (D := D)).
Abbreviation dec := (dec_band (E := E) (D := D)).

Lemma enc_resynth : resynth_ enc rdo RES = true.
Proof. exact HR. Qed.

Lemma ctx_of_sim i round avoid avoid' :
  ctx_sim (ctx_of f enc rdo RES bE i round avoid) (ctx_of f dec false RES' bE' i 0 avoid').
Proof. by split. Qed.

(** The decoder's one try at a stereo band, and the buffer after it. *)
Definition dec_try i avoid X Y b eff norm cm rem seed : D -> (band * list Z) * D :=
  r <~ quant_band_stereo dec (ctx_of f dec false RES' bE' i 0 avoid) f.(in_LM) X Y (band_N f i) b (blocks f)
         (lowband_of norm eff (band_N f i)) cm rem seed;
  dec_ret (r, store_norm f norm i r.(b_out)).

Definition enc_try round i avoid X Y b eff norm cm rem seed : E -> (band * list Z) * E :=
  r <~ quant_band_stereo enc (ctx_of f enc rdo RES bE i round avoid) f.(in_LM) X Y (band_N f i) b (blocks f)
         (lowband_of norm eff (band_N f i)) cm rem seed;
  dec_ret (r, store_norm f norm i r.(b_out)).

Section Round.
Context (i : Z) (Hi : f.(in_start) <= i < f.(in_end)).

Lemma sync_try round avoid avoid' X X' Y Y' b eff norm cm rem seed :
  len X = band_N f i -> len Y = band_N f i ->
  sync (enc_try round i avoid X Y b eff norm cm rem seed) (dec_try i avoid' X' Y' b eff norm cm rem seed).
Proof.
  intros HX HY. destruct (ctx_band f k Hf i enc rdo RES bE round avoid Hi enc_resynth) as (C1 & C2 & C3 & C4 & C5).
  unfold enc_try, dec_try. destruct (fr_blocks _ _ Hf) as [-> _]. eapply sync_seq.
  - apply sync_quant_band_stereo; try done; by apply blocks_shape.
  - intros s. apply sync_done.
Qed.

(** Coding the band twice comes to one of the two tries, from the same state. *)
Lemma rdo_is_try avoid X Y b eff norm cm rem seed s :
  len norm = norm_len f i -> eff_ok f i eff ->
  (i = f.(in_start) + 1 -> special_hybrid_folding f norm = norm) -> len X = band_N f i -> len Y = band_N f i ->
  exists round, quant_band_rdo f enc rdo RES bE i avoid X Y b eff norm cm rem seed s
                = enc_try round i avoid X Y b eff norm cm rem seed s.
Proof.
  intros Hn He Hsp HX HY. unfold quant_band_rdo, enc_try, dec_bind, dec_ret. cbv zeta.
  destruct (fr_blocks _ _ Hf) as [-> _].
  assert (lb_ok (band_N f i) (lowband_of norm eff (band_N f i))) as Hlb by by apply (eff_lowband f k Hf).
  assert (forall round, len (b_out (quant_band_stereo enc (ctx_of f enc rdo RES bE i round avoid) (in_LM f) X Y
    (band_N f i) b (2 ^ k) (lowband_of norm eff (band_N f i)) cm rem seed s).1) = band_N f i) as Ho.
  { intros round. destruct (ctx_band f k Hf i enc rdo RES bE round avoid Hi enc_resynth) as (C1 & C2 & C3 & C4 & C5).
    destruct (yields_quant_band_stereo (fun _ => True) enc enc_port_ok _ _ C1 C2 X Y _ b k _ cm rem seed C3 C4 C5 HX HY Hlb s Logic.I)
      as [((_ & O & _) & _) _]. exact O. }
  pose proof (Ho (-1)) as O0. pose proof (Ho 1) as O1.
  pose proof (retry f k Hf i norm eff _ _ Hi Hn He Hsp O0 O1) as (E1 & E2 & E3). cbv zeta in E1, E2, E3.
  destruct (quant_band_stereo enc (ctx_of f enc rdo RES bE i (-1) avoid) _ _ _ _ _ _ _ _ _ _ s) as [r0 s0] eqn:Q0.
  cbn [fst] in E1, E2, E3. rewrite E1.
  destruct (quant_band_stereo enc (ctx_of f enc rdo RES bE i 1 avoid) _ _ _ _ _ _ _ _ _ _ s) as [r1 s1] eqn:Q1.
  cbn [fst] in E2, E3. rewrite E3, E2. destruct (_ >=? _).
  - exists (-1). by rewrite Q0.
  - exists 1. by rewrite Q1.
Qed.

Lemma sync_code_band dual avoid avoid' X X' Y Y' b eff norm norm2 x_cm y_cm rem seed :
  len norm = norm_len f i -> eff_ok f i eff ->
  (rdo = true -> dual = false /\ (i = f.(in_start) + 1 -> special_hybrid_folding f norm = norm)) ->
  len X = band_N f i ->
  match Y, Y' with Some Y, Some _ => len Y = band_N f i | None, None => True | _, _ => False end ->
  sync (code_band f enc rdo RES bE i dual avoid X Y b eff norm norm2 x_cm y_cm rem seed)
       (code_band f dec false RES' bE' i dual avoid' X' Y' b eff norm norm2 x_cm y_cm rem seed).
Proof.
  intros Hn He Hr HX HY. unfold code_band. cbv zeta.
  destruct (ctx_band f k Hf i enc rdo RES bE 0 avoid Hi enc_resynth) as (C1 & C2 & C3 & C4 & C5).
  assert (forall U U' bits lb gain fill rm sd, len U = band_N f i ->
    sync (quant_band enc (ctx_of f enc rdo RES bE i 0 avoid) (in_LM f) U (band_N f i) bits (blocks f) lb gain fill rm sd)
         (quant_band dec (ctx_of f dec false RES' bE' i 0 avoid') (in_LM f) U' (band_N f i) bits (blocks f) lb gain fill rm sd)) as Hmono.
  { intros. destruct (fr_blocks _ _ Hf) as [-> _]. apply sync_quant_band; try done; by apply blocks_shape. }
  destruct Y as [Y|], Y' as [Y'|]; try done.
  - destruct dual.
    + eapply sync_seq; [by apply Hmono|]. intros s. eapply sync_seq; [by apply Hmono|]. intros s1. apply sync_done.
    + cbn [andb]. eapply sync_seq; [|intros s; destruct (_ s) as [[r n'] s']; apply sync_done].
      fold (dec_try i avoid' X' Y' b eff norm (Z.lor x_cm y_cm) rem seed).
      destruct (rdo && _) eqn:Erdo; [|by apply (sync_try 0)].
      apply andb_true_iff in Erdo as [Er _]. destruct (Hr Er) as [_ Hsp]. apply sync_pointwise. intros s.
      destruct (rdo_is_try avoid X Y b eff norm (Z.lor x_cm y_cm) rem seed s Hn He Hsp HX HY) as (round & Eq).
      exists (enc_try round i avoid X Y b eff norm (Z.lor x_cm y_cm) rem seed). split; [|by rewrite Eq]. by apply sync_try.
  - eapply sync_seq; [by apply Hmono|]. intros s. apply sync_done.
Qed.
End Round.

Definition same_channels (Y_ Y_' : option (list Z)) : Prop :=
  match Y_, Y_' with Some Y, Some _ => eband f f.(in_end) <= len Y | None, None => True | _, _ => False end.

Lemma sync_band_step i X_ X_' Y_ Y_' st :
  f.(in_start) <= i < f.(in_end) ->
  st_ok f k rdo (match Y_ with Some _ => true | None => false end) i st ->
  eband f f.(in_end) <= len X_ -> same_channels Y_ Y_' -> 0 <= eband f f.(in_start) ->
  sync (band_step f enc rdo RES bE X_ Y_ i st) (band_step f dec false RES' bE' X_' Y_' i st).
Proof.
  intros Hi Hst HX HY H0. unfold band_step. cbv zeta. rewrite enc_resynth. change (resynth_ dec false RES') with true.
  pose proof (N_pos f k Hf i Hi). pose proof (fr_mono _ _ Hf (in_start f) i ltac:(lia) ltac:(lia)).
  pose proof (fr_mono _ _ Hf (i + 1) (in_end f) ltac:(lia) ltac:(lia)).
  assert (forall l : list Z, eband f (in_end f) <= len l -> len (slice l (eband f i) (band_N f i)) = band_N f i) as Hsl.
  { intros l Hl. apply len_subarray; [lia..|]. unfold band_N in *. lia. }
  eapply sync_seq; [apply sync_tell_frac|]. intros s. cbn [read fst bp_tell_frac enc_band dec_band].
  pose proof (prep_ok f k Hf i st rdo _ Hi Hst) as Hprep.
  destruct (band_prep f true i st) as [[[[[[lbo eff] x_cm] y_cm] dual] norm] norm2].
  destruct Hprep as (P1 & P2 & P3 & P4 & P5).
  eapply sync_seq.
  - apply sync_code_band; try done; [by apply Hsl|]. unfold same_channels in HY.
    destruct Y_ as [Y|], Y_' as [Y'|]; try done. by apply Hsl.
  - intros s1. destruct (code_band _ _ _ _ _ _ _ _ _ _ _ _ _ _ _ _ _ _ s1) as [[[[[[[xc yc] X'] Y'] n'] n2'] sd] s2].
    apply sync_done.
Qed.

Lemma sync_loop X_ X_' Y_ Y_' n : forall i st,
  f.(in_start) <= i -> i + Z.of_nat n = f.(in_end) ->
  st_ok f k rdo (match Y_ with Some _ => true | None => false end) i st -> (Y_ = None -> st.(st_dual_stereo) = false) ->
  eband f f.(in_end) <= len X_ -> same_channels Y_ Y_' -> 0 <= eband f f.(in_start) ->
  sync (bands_loop f enc rdo RES bE n X_ Y_ i st) (bands_loop f dec false RES' bE' n X_' Y_' i st).
Proof.
  induction n as [|n IH]; intros i st Hi En Hst Hd HX HY H0; cbn [bands_loop]; [apply sync_done|].
  eapply sync_seq; [apply sync_band_step; try done; lia|]. intros s.
  destruct (yields_band_step f k Hf (fun _ => True) enc enc_port_ok rdo RES bE enc_resynth i X_ Y_ st ltac:(lia) Hst Hd HX
    ltac:(unfold same_channels in HY; destruct Y_, Y_'; done) H0 s Logic.I) as [[S1 S2] _].
  apply IH; try done; lia.
Qed.
End Sync.

(** The state before the first band. *)
Lemma st_ok_init f k rdo two dual balance seed avoid :
  frame_ok f k -> (rdo = true -> dual = false) ->
  st_ok f k rdo two f.(in_start)
    {| st_balance := balance; st_dual_stereo := dual; st_norm := []; st_norm2 := []; st_lowband_offset := 0;
       st_update_lowband := true; st_avoid_split_noise := avoid; st_seed := seed; st_xmask := []; st_ymask := [];
       st_X := []; st_Y := [] |}.
Proof.
  intros Hf Hd. pose proof (F_start f) as E0.
  split; cbn [st_norm st_norm2 st_dual_stereo st_lowband_offset st_X st_Y st_xmask st_ymask];
    rewrite ?E0; try done; [by left|]. rewrite Z.sub_diag. by repeat split.
Qed.

Section All.
Context `{A : SignalAnalysis} `{EntropyCoder E D}.

Lemma sync_quant_all_bands f k RES RES' bE bE' complexity complexity' dual balance seed X_ X_' Y_ Y_' :
  frame_ok f k -> theta_rdo_ true dual complexity Y_ || RES = true -> (Y_ = None -> dual = false) ->
  eband f f.(in_end) <= len X_ -> same_channels f Y_ Y_' -> 0 <= eband f f.(in_start) ->
  sync (quant_all_bands f (enc_band (E := E) (D := D)) RES bE complexity dual balance seed X_ Y_)
       (quant_all_bands f (dec_band (E := E) (D := D)) RES' bE' complexity' dual balance seed X_' Y_').
Proof.
  intros Hf HR Hd HX HY H0. unfold quant_all_bands. cbv zeta. pose proof (fr_range _ _ Hf).
  apply (sync_loop f k Hf); try done; [lia|].
  apply st_ok_init; [done|]. unfold theta_rdo_. intros E1. rewrite !andb_true_iff in E1.
  destruct E1 as [[_ E1] _]. by destruct dual.
Qed.
End All.
