(* ===== verification/BandsResynth.v ===== *)
(** * The 48 kHz mode, and the encoder without resynthesis

    [frame_ok] for [mode48000_960_120] and every frame size: every leaf has a
    codeword for each number of pulses it may choose, a mono band is only split
    when the angle gets at least two levels, and there is always
    enough below a band to fold it from.

    An encoder that keeps no reconstruction writes the same symbols as one that does: masks, folding
    buffers, seed and reconstructed coefficients never reach the
    entropy coder.  Two runs that differ in them stay at the same state of the
    coder, with the same number of remaining bits. *)

From S2P Require Import Prelude RangeCoder EntropyInterface EntropySeq EntCode CwrsTable Cwrs CwrsProps FixedPoint MathOps Vq VqProofs CeltMode QuantBands PulseCacheProofs BandOps Theta ThetaProofs Bands BandsSync BandsSafe AllBands AllBandsSync.
From S2P Require Import Prelude RangeCoder EntropyInterface EntropySeq EntCode CwrsTable Cwrs FixedPoint MathOps Vq CeltMode QuantBands BandOps Theta Bands AllBands.

Abbreviation m48 := mode48000_960_120.

(** Bands with at least two coefficients have a line in the cache. *)
Lemma lines_exist :
  zforall 5 (-1) (fun LM => zforall 21 0 (fun i =>
    (band_dim m48 i LM <? 2) || negb (cache_index50.[(LM + 1) * 21 + i] =? -1))) = true.
Proof. vm_compute. reflexivity. Qed.

Lemma get_pulses_table : zforall 40 1 (fun q => get_pulses q <=? 128) = true.
Proof. vm_compute. reflexivity. Qed.

(** At the smallest number of bits that splits a band: it has an even number of coefficients, and the
    angle has more than one level. *)
Definition split_check (i LM : Z) : bool :=
  let N := band_dim m48 i LM in
  let b := cache_line m48 i LM (cache_line m48 i LM 0) + 13 in
  let pulse_cap := m48.(logN).[i] + (LM - 1) * 8 in
  let N2 := 2 * Z.shiftr N 1 - 1 in
  (N <=? 2) || ((N =? 2 * Z.shiftr N 1) && (0 <? N2) && (4 <=? b - pulse_cap - 32)
                && (4 * N2 <=? b + N2 * (Z.shiftr pulse_cap 1 - 4))).

Lemma splits_checked : zforall 4 0 (fun LM => zforall 21 0 (fun i => split_check i LM)) = true.
Proof. vm_compute. reflexivity. Qed.

Lemma dims_small : zforall 5 (-1) (fun LM => zforall 21 0 (fun i => band_dim m48 i LM <=? 2 ^ 15)) = true.
Proof. vm_compute. reflexivity. Qed.

Lemma band_dim_half i L : 0 <= L -> Z.shiftr (band_dim m48 i L) 1 = band_dim m48 i (L - 1).
Proof.
  intros HL. unfold band_dim. rewrite Z.shiftr_shiftr by lia. change (1 + 1) with 2. replace (L - 1 + 1) with L by lia.
  rewrite Z.shiftl_mul_pow2, (Z.shiftl_mul_pow2 _ L), !Z.shiftr_div_pow2 by lia.
  rewrite Z.pow_add_r by lia. change (2 ^ 2) with (2 ^ 1 * 2 ^ 1). change (2 ^ 1) with 2.
  rewrite Z.mul_assoc. by rewrite Z.div_mul_cancel_r.
Qed.

Lemma m48_band_ok i (LM : nat) : 0 <= i < 21 -> (LM <= 3)%nat -> band_ok m48 i LM.
Proof.
  intros Hi HLM. split.
  - intros n b Hn L HN. assert (-1 <= L <= 3) as HL by (subst L; lia).
    assert (cache_index50.[(L + 1) * 21 + i] <> -1) as Hix.
    { pose proof (zforall_spec _ _ _ L lines_exist ltac:(lia)) as Hz. apply (zforall_spec _ _ _ i) in Hz; [|lia].
      apply orb_true_iff in Hz as [Hz|Hz]; [apply Z.ltb_lt in Hz; lia|]. apply negb_true_iff, Z.eqb_neq in Hz. done. }
    destruct (bits2pulses_nearest i L Hi HL Hix b) as [Hq _]. cbv zeta in Hq. split; [lia|]. intros q Hq1.
    destruct (pulses2bits_cost i L Hi HL Hix q HN ltac:(lia)) as (K1 & K2 & _).
    pose proof (band_line_sorted i L Hi HL Hix) as [Hl _ _].
    pose proof (zforall_spec _ _ _ q get_pulses_table ltac:(lia)) as Hg. apply Z.leb_le in Hg. done.
  - intros n b Hn L N HN Hb. assert (0 <= L <= 3) as HL by (subst L; lia).
    pose proof (zforall_spec _ _ _ L splits_checked ltac:(lia)) as Hz. apply (zforall_spec _ _ _ i) in Hz; [|lia].
    unfold split_check in Hz. fold N in Hz. apply orb_true_iff in Hz as [Hz|Hz]; [apply Z.leb_le in Hz; lia|].
    rewrite !andb_true_iff in Hz. destruct Hz as [[[H1 H2] H3] H4]. apply Z.eqb_eq in H1. apply Z.ltb_lt in H2. apply Z.leb_le in H3, H4.
    split; [apply band_dim_half; lia|]. split; [done|].
    apply compute_qn_split. cbn [andb]. set (pc := (logN m48).[i] + (L - 1) * 8) in *.
    set (N2 := 2 * Z.shiftr N 1 - 1) in *. set (ofs := Z.shiftr pc 1 - 4) in *.
    set (b0 := cache_line m48 i L (cache_line m48 i L 0)) in *. clearbody pc N2 ofs b0.
    apply Z.min_glb; [lia|]. rewrite Z.quot_div_nonneg by nia. apply Z.div_le_lower_bound; lia.
  - intros n Hn. pose proof (zforall_spec _ _ _ (Z.of_nat n - 1) dims_small ltac:(lia)) as Hz.
    apply (zforall_spec _ _ _ i) in Hz; [|lia]. by apply Z.leb_le in Hz.
Qed.

(** ** Folding *)

Lemma widths_pos : zforall 21 0 (fun i => 1 <=? width m48 i) = true.
Proof. vm_compute. reflexivity. Qed.
Lemma fold_room : zforall 21 0 (fun s => zforall 21 0 (fun i =>
  (i <=? s + 1) || (width m48 i <=? m48.(eBands).[i] - m48.(eBands).[s]))) = true.
Proof. vm_compute. reflexivity. Qed.
Lemma hybrid_room : zforall 20 0 (fun s => (width m48 s <=? width m48 (s + 1)) && (width m48 (s + 1) <=? 2 * width m48 s)) = true.
Proof. vm_compute. reflexivity. Qed.

(** ** A frame *)

Definition block_log (f : bands_in) : Z := if f.(in_shortBlocks) then Z.of_nat f.(in_LM) else 0.

(** Bands and time-frequency changes that the callers pass. *)
Definition frame_args (f : bands_in) : bool :=
  (0 <=? f.(in_start)) && (f.(in_start) <? f.(in_end)) && (f.(in_end) <=? 21) && (f.(in_LM) <=? 3)%nat
  && zforall 21 0 (fun i => f.(in_tf_res).[i] <=? block_log f).

Lemma eband_M f i : in_m f = m48 -> eband f i = 2 ^ Z.of_nat f.(in_LM) * m48.(eBands).[i].
Proof. intros E. unfold eband, M. rewrite E, Z.shiftl_mul_pow2 by lia. by rewrite Z.mul_1_l. Qed.

Lemma m48_frame_ok f : in_m f = m48 -> frame_args f = true -> frame_ok f (block_log f).
Proof.
  intros Em Ha. unfold frame_args in Ha. rewrite !andb_true_iff in Ha. destruct Ha as [[[[A1 A2] A3] A4] A5].
  apply Z.leb_le in A1, A3. apply Z.ltb_lt in A2. apply Nat.leb_le in A4.
  pose proof (Z.pow_pos_nonneg 2 (Z.of_nat (in_LM f)) ltac:(lia) ltac:(lia)) as HM. set (M' := 2 ^ Z.of_nat (in_LM f)) in *.
  assert (forall i, 0 <= i < 21 -> 1 <= width m48 i) as Hw.
  { intros i Hi. pose proof (zforall_spec _ _ _ i widths_pos ltac:(lia)) as Hz. by apply Z.leb_le in Hz. }
  assert (forall i, band_N f i = M' * width m48 i) as HN.
  { intros i. unfold band_N, width. rewrite !eband_M by done. fold M'. lia. }
  assert (0 <= block_log f <= 3 /\ blocks f = 2 ^ block_log f) as [Hk Hb].
  { unfold block_log, blocks, M. destruct (in_shortBlocks f); [|done]. split; [lia|]. rewrite Z.shiftl_mul_pow2; lia. }
  split.
  - lia.
  - done.
  - intros i j Hij Hj. rewrite !eband_M by done. fold M'. apply Z.mul_le_mono_nonneg_l; [lia|].
    replace j with (i + Z.of_nat (Z.to_nat (j - i))) in Hj |- * by lia. induction (Z.to_nat (j - i)) as [|n IH].
    { by rewrite Z.add_0_r. }
    specialize (IH ltac:(lia)). specialize (Hw (i + Z.of_nat n) ltac:(lia)). unfold width in Hw.
    replace (i + Z.of_nat (S n)) with (i + Z.of_nat n + 1) by lia. lia.
  - intros i Hi. rewrite Em. specialize (Hw i ltac:(lia)). split; [apply m48_band_ok; lia|]. rewrite HN. split; [|split; [nia|split; [lia|split]]].
    + unfold band_dim. rewrite Z.shiftl_mul_pow2, Z.shiftr_div_pow2 by lia. rewrite Z.pow_add_r by lia. fold M'.
      rewrite Z.mul_assoc, Z.div_mul by lia. lia.
    + unfold M', block_log. destruct (in_shortBlocks f); [|by rewrite Z.mod_1_r].
      rewrite Z.mul_comm. apply Z.mod_mul. lia.
    + pose proof (zforall_spec _ _ _ i A5 ltac:(lia)) as Hz. by apply Z.leb_le in Hz.
  - intros i Hi. pose proof (zforall_spec _ _ _ (in_start f) fold_room ltac:(lia)) as Hz.
    apply (zforall_spec _ _ _ i) in Hz; [|lia]. apply orb_true_iff in Hz as [Hz|Hz]; [apply Z.leb_le in Hz; lia|].
    apply Z.leb_le in Hz. rewrite HN. unfold norm_offset. rewrite !eband_M by done. fold M'. nia.
  - intros Hi. pose proof (zforall_spec _ _ _ (in_start f) hybrid_room ltac:(lia)) as Hz.
    apply andb_true_iff in Hz as [Z1 Z2]. apply Z.leb_le in Z1, Z2. rewrite !HN. nia.
Qed.

Lemma m48_eband_start f : in_m f = m48 -> frame_args f = true -> 0 <= eband f f.(in_start) /\ eband f f.(in_end) <= 2 ^ Z.of_nat f.(in_LM) * 100.
Proof.
  intros Em Ha. pose proof (m48_frame_ok f Em Ha) as Hf. unfold frame_args in Ha. rewrite !andb_true_iff in Ha.
  destruct Ha as [[[[A1 A2] A3] A4] A5]. apply Z.leb_le in A1, A3. apply Z.ltb_lt in A2.
  rewrite !eband_M by done. pose proof (Z.pow_pos_nonneg 2 (Z.of_nat (in_LM f)) ltac:(lia) ltac:(lia)).
  assert (zforall 22 0 (fun i => (0 <=? m48.(eBands).[i]) && (m48.(eBands).[i] <=? 100)) = true) as Hall by (vm_compute; reflexivity).
  pose proof (zforall_spec _ _ _ (in_start f) Hall ltac:(lia)) as Z1. pose proof (zforall_spec _ _ _ (in_end f) Hall ltac:(lia)) as Z2.
  apply andb_true_iff in Z1 as [Z1 _], Z2 as [_ Z2]. apply Z.leb_le in Z1, Z2. nia.
Qed.

(** Two runs that end in the same state, with results that agree on [proj]. *)
Definition same_run {S X Y : Type} (proj : X -> Y) (e1 e2 : S -> X * S) : Prop :=
  forall s, (e1 s).2 = (e2 s).2 /\ proj (e1 s).1 = proj (e2 s).1.

Lemma same_bind {S X X' Y Y'} (f : X -> X') (g : Y -> Y') e1 e2 (k1 k2 : X -> S -> Y * S) :
  same_run f e1 e2 -> (forall x1 x2, f x1 = f x2 -> same_run g (k1 x1) (k2 x2)) ->
  same_run g (dec_bind e1 k1) (dec_bind e2 k2).
Proof.
  intros H1 H2 s. destruct (H1 s) as [E1 E2]. unfold dec_bind.
  destruct (e1 s) as [x1 s1], (e2 s) as [x2 s2]. cbn in *. subst s2. by apply H2.
Qed.

Lemma same_ret {S X Y} (f : X -> Y) x1 x2 : f x1 = f x2 -> same_run (S := S) f (dec_ret x1) (dec_ret x2).
Proof. by intros E s. Qed.

Lemma same_run_refl {S X Y} (f : X -> Y) (e : S -> X * S) : same_run f e e.
Proof. by intros s. Qed.

Lemma same_next {S X Y Y'} (g : Y -> Y') (e : S -> X * S) (k1 k2 : X -> S -> Y * S) :
  (forall x, same_run g (k1 x) (k2 x)) -> same_run g (dec_bind e k1) (dec_bind e k2).
Proof. intros Hk. apply (same_bind (fun x => x)); [apply same_run_refl|]. by intros x _ <-. Qed.

Definition with_resynth (b : bool) (c : band_ctx) : band_ctx := {|
  resynth := b; bc_m := c.(bc_m); bc_i := c.(bc_i); bc_intensity := c.(bc_intensity); spread := c.(spread);
  tf_change := c.(tf_change); bandE := c.(bandE); theta_round := c.(theta_round); disable_inv := c.(disable_inv);
  avoid_split_noise := c.(avoid_split_noise) |}.

(** All of a split but the fill mask. *)
Definition split_view (sp : split_ctx) : bool * Z * Z * Z * Z * Z * Z :=
  (sp.(inv), sp.(imid), sp.(iside), sp.(delta), sp.(itheta), sp.(qalloc), sp.(sp_b)).

Lemma split_view_fill v t N b B q fill1 fill2 :
  split_view (split_angle v t N b B q fill1) = split_view (split_angle v t N b B q fill2).
Proof.
  unfold split_angle, split_view. destruct (t =? 0); [|destruct (t =? 16384)];
    cbn [inv imid iside delta itheta qalloc sp_b]; reflexivity.
Qed.

Section Same.
Context `{A : SignalAnalysis} `{EntropyCoder E D}.
Abbreviation enc := (enc_band (E := E) (D := D)).
Context (c : band_ctx) (b1 b2 : bool).
Abbreviation c1 := (with_resynth b1 c).
Abbreviation c2 := (with_resynth b2 c).

Lemma same_theta rem X Y N b B B0 LM stereo fill1 fill2 :
  same_run (fun r => (split_view r.1.1, r.1.2, r.2))
    (compute_theta enc c1 rem X Y N b B B0 LM stereo fill1) (compute_theta enc c2 rem X Y N b B B0 LM stereo fill2).
Proof.
  unfold compute_theta. cbv zeta. change (theta_qn c1) with (theta_qn c). change (theta_qn c2) with (theta_qn c).
  apply same_next. intros t0.
  change (theta_code enc c1) with (theta_code enc c). change (theta_code enc c2) with (theta_code enc c).
  apply same_next. intros [[[t v] X1] Y1].
  apply same_next. intros t1. apply same_ret. cbn [fst snd].
  rewrite (split_view_fill v t N b B (t1 - t0) fill1 fill2). reflexivity.
Qed.

Lemma same_alg X N K spr B g1 g2 : same_run (fun _ => tt) (bp_alg enc X N K spr B g1 b1) (bp_alg enc X N K spr B g2 b2).
Proof.
  intros s. cbn [bp_alg enc_band]. unfold alg_quant. by destruct (op_pvq_search _ K N) as [X1 [iy yy]].
Qed.

Lemma same_leaf L X N b B lb1 lb2 g1 g2 fill1 fill2 rem sd1 sd2 :
  same_run q_rem (quant_leaf enc c1 L X N b B lb1 g1 fill1 rem sd1) (quant_leaf enc c2 L X N b B lb2 g2 fill2 rem sd2).
Proof.
  unfold quant_leaf. cbn [bc_m bc_i spread resynth with_resynth]. cbv zeta. destruct (never_bust _ _ _ _ _ _) as [q rem'].
  destruct (negb (q =? 0)).
  - eapply same_bind; [apply same_alg|]. intros [X1 cm1] [X2 cm2] _. by apply same_ret.
  - apply same_ret. unfold fill_band. cbv zeta.
    assert (forall r X N B lb g fill sd, q_rem (fill_band r X N B lb g fill rem' sd) = rem') as Hr.
    { intros. unfold fill_band. cbv zeta. destruct r; [|done]. destruct (_ =? 0); [done|].
      destruct lb; [destruct (fill_fold _ _)|destruct (fill_noise _ _)]; done. }
    exact (eq_trans (Hr _ _ _ _ _ _ _ _) (eq_sym (Hr _ _ _ _ _ _ _ _))).
Qed.

Lemma same_partition n : forall X N b B lb1 lb2 g1 g2 fill1 fill2 rem sd1 sd2,
  same_run q_rem (quant_partition enc c1 n X N b B lb1 g1 fill1 rem sd1) (quant_partition enc c2 n X N b B lb2 g2 fill2 rem sd2).
Proof.
  induction n as [|n IH]; intros; cbn [quant_partition]; [apply same_leaf|]. cbv zeta.
  cbn [bc_m bc_i with_resynth]. destruct (_ && _); [|apply same_leaf].
  eapply same_bind; [apply same_theta|]. intros [[sp1 X1] Y1] [[sp2 X2] Y2] Ev. cbn [fst snd] in Ev.
  injection Ev as _ _ _ E4 E5 E6 E7 -> ->.
  assert (masked_delta B (Z.shiftr N 1) (Z.of_nat (S n) - 1 - 1) sp1 = masked_delta B (Z.shiftr N 1) (Z.of_nat (S n) - 1 - 1) sp2) as ->
    by (unfold masked_delta; by rewrite E4, E5).
  rewrite E5, E6, E7. destruct (_ >=? _).
  - eapply same_bind; [apply IH|]. intros r1 r1' ->. eapply same_bind; [apply IH|]. intros r2 r2' E2. by apply same_ret.
  - eapply same_bind; [apply IH|]. intros r1 r1' ->. eapply same_bind; [apply IH|]. intros r2 r2' E2. by apply same_ret.
Qed.

(** ** A band *)

Lemma same_n1 X Y rem sd1 sd2 : same_run b_rem (quant_band_n1 enc c1 X Y rem sd1) (quant_band_n1 enc c2 X Y rem sd2).
Proof.
  assert (forall x rm, same_run snd (code_n1 enc c1 x rm) (code_n1 enc c2 x rm)) as Hn.
  { intros x rm. unfold code_n1. apply same_next. intros [sg rm']. by apply same_ret. }
  unfold quant_band_n1. eapply same_bind; [apply Hn|]. intros [x1 r1] [x2 r2] Er. cbn in Er. subst r2.
  eapply (same_bind snd).
  - destruct Y as [Y|]; [|apply same_run_refl]. eapply same_bind; [apply Hn|]. intros [y1 r2] [y2 r3] Er. cbn in Er. subst r3.
    by apply same_ret.
  - intros [Y1 r2] [Y2 r3] Er. cbn in Er. subst r3. by apply same_ret.
Qed.

Lemma recombine_X r e N X lb1 lb2 f1 f2 :
  (for_upto r (recombine_step e N) (X, lb1, f1)).1.1 = (for_upto r (recombine_step e N) (X, lb2, f2)).1.1.
Proof.
  unfold for_upto. generalize (seq 0 (Z.to_nat r)) as l. intros l. revert X lb1 lb2 f1 f2.
  induction l as [|i l IH]; intros X lb1 lb2 f1 f2; cbn; [done|]. apply IH.
Qed.

Lemma divide_X n e : forall X lb1 lb2 f1 f2 B N_B td tf,
  let '(X1, _, _, B1, N1, t1) := divide_time n e X lb1 f1 B N_B td tf in
  let '(X2, _, _, B2, N2, t2) := divide_time n e X lb2 f2 B N_B td tf in X1 = X2 /\ B1 = B2 /\ N1 = N2 /\ t1 = t2.
Proof.
  induction n as [|n IH]; intros X lb1 lb2 f1 f2 B N_B td tf; cbn [divide_time]; [done|].
  destruct (_ && _); [|done]. apply IH.
Qed.

Lemma same_quant_band LM X N b B lb1 lb2 g1 g2 fill1 fill2 rem sd1 sd2 :
  same_run b_rem (quant_band enc c1 LM X N b B lb1 g1 fill1 rem sd1) (quant_band enc c2 LM X N b B lb2 g2 fill2 rem sd2).
Proof.
  unfold quant_band. cbn [bc_m bc_i tf_change resynth with_resynth]. cbv zeta. destruct (N =? 1); [apply same_n1|].
  set (r := if tf_change c >? 0 then tf_change c else 0).
  pose proof (recombine_X r (bp_encode enc) N X lb1 lb2 fill1 fill2) as EX.
  destruct (for_upto r _ (X, lb1, fill1)) as [[X1 l1] f1], (for_upto r _ (X, lb2, fill2)) as [[X2 l2] f2]. cbn [fst] in EX. subst X2.
  pose proof (divide_X (Z.to_nat (- tf_change c)) (bp_encode enc) X1 l1 l2 f1 f2 (Z.shiftr B r) (Z.shiftl (celt_udiv N B) r) 0 (tf_change c)) as Ed.
  destruct (divide_time _ _ X1 l1 _ _ _ _ _) as [[[[[X3 l3] f3] B3] N3] t3], (divide_time _ _ X1 l2 _ _ _ _ _) as [[[[[X4 l4] f4] B4] N4] t4].
  destruct Ed as (<- & <- & <- & <-). destruct (B3 >? 1).
  all: eapply same_bind; [apply same_partition|]; intros r1 r2 Er;
    (destruct b1, b2; repeat (destruct (quant_band_resynth _ _ _ _ _ _ _ _) as [[? ?] ?]); by apply same_ret).
Qed.

Lemma same_stereo LM X Y N b B lb1 lb2 fill1 fill2 rem sd1 sd2 :
  same_run b_rem (quant_band_stereo enc c1 LM X Y N b B lb1 fill1 rem sd1)
                 (quant_band_stereo enc c2 LM X Y N b B lb2 fill2 rem sd2).
Proof.
  unfold quant_band_stereo. destruct (N =? 1); [apply same_n1|]. cbn [resynth with_resynth].
  eapply same_bind; [apply same_theta|]. intros [[sp1 X1] Y1] [[sp2 X2] Y2] Ev. cbn [fst snd] in Ev.
  injection Ev as _ _ _ E4 E5 E6 E7 -> ->. eapply (same_bind b_rem).
  - destruct (N =? 2).
    + unfold quant_band_stereo2. cbv zeta. rewrite E5, E6, E7. cbn [resynth with_resynth].
      destruct (if itheta sp2 >? 8192 then (Y2, X2) else (X2, Y2)) as [x2 y2].
      apply same_next. intros sg. eapply same_bind; [apply same_quant_band|].
      intros r1 r2 Er. destruct (itheta sp2 >? 8192), b1, b2; by apply same_ret.
    + unfold quant_band_split. cbv zeta. rewrite E4, E5, E6, E7. destruct (_ >=? _).
      all: eapply same_bind; [apply same_quant_band|]; intros r1 r1' ->;
        (eapply same_bind; [apply same_quant_band|]; intros r2 r2' E2; by apply same_ret).
  - intros r1 r2 Er. destruct (if b1 && _ then _ else _), (if b2 && _ then _ else _). by apply same_ret.
Qed.
End Same.

(** ** All bands *)

Section All.
Context `{A : SignalAnalysis} `{EntropyCoder E D} (f : bands_in).
Abbreviation enc := (enc_band (E := E) (D := D)).

(** What the coding of the next band depends on. *)
Definition st_view (st : bands_st) : Z * bool * bool :=
  (st.(st_balance), st.(st_dual_stereo), st.(st_avoid_split_noise)).

Lemma same_band_step R1 R2 bE X_ Y_ i st1 st2 :
  st_view st1 = st_view st2 ->
  same_run st_view (band_step f enc false R1 bE X_ Y_ i st1) (band_step f enc false R2 bE X_ Y_ i st2).
Proof.
  intros Ev. injection Ev as E1 E2 E3. unfold band_step. cbv zeta. rewrite E1.
  apply same_next. intros tell.
  assert ((band_prep f (resynth_ enc false R1) i st1).1.1.2 = (band_prep f (resynth_ enc false R2) i st2).1.1.2) as Ed.
  { unfold band_prep. rewrite E2. repeat destruct (if i =? _ then _ else _) as [? ?].
    destruct (fold_region f st1 _ _ _) as [[? ?] ?], (fold_region f st2 _ _ _) as [[? ?] ?]. cbv zeta.
    by destruct (st_dual_stereo st2 && _). }
  destruct (band_prep f _ i st1) as [[[[[[lo1 ef1] x1] y1] d1] n1] m1], (band_prep f _ i st2) as [[[[[[lo2 ef2] x2] y2] d2] n2] m2].
  cbn [fst snd] in Ed. subst d2. rewrite E3. set (b := band_bits _ _ _ _).
  eapply (same_bind (fun _ => tt)).
  - unfold code_band. cbv zeta.
    change (ctx_of f enc false R1 bE i 0) with (fun a => with_resynth (resynth_ enc false R1) (ctx_of f enc false R1 bE i 0 a)).
    change (ctx_of f enc false R2 bE i 0) with (fun a => with_resynth (resynth_ enc false R2) (ctx_of f enc false R1 bE i 0 a)).
    cbv beta. destruct (option_map _ Y_) as [Y|].
    + destruct d1.
      * eapply same_bind; [apply same_quant_band|]. intros r1 r2 ->. eapply same_bind; [apply same_quant_band|].
        intros r3 r4 _. by apply same_ret.
      * cbn [andb]. eapply (same_bind (fun _ => tt)).
        { eapply same_bind; [apply same_stereo|]. intros r1 r2 _. by apply same_ret. }
        intros [r1 ?] [r2 ?] _. by apply same_ret.
    + eapply same_bind; [apply same_quant_band|]. intros r1 r2 _. by apply same_ret.
  - intros [[[[[[? ?] ?] ?] ?] ?] ?] [[[[[[? ?] ?] ?] ?] ?] ?] _. by apply same_ret.
Qed.

Lemma same_loop R1 R2 bE X_ Y_ n : forall i st1 st2,
  st_view st1 = st_view st2 ->
  same_run st_view (bands_loop f enc false R1 bE n X_ Y_ i st1) (bands_loop f enc false R2 bE n X_ Y_ i st2).
Proof.
  induction n as [|n IH]; intros i st1 st2 Ev; cbn [bands_loop]; [by apply same_ret|].
  eapply same_bind; [by apply same_band_step|]. intros t1 t2 Et. by apply IH.
Qed.

(** The coder ends in the same state with and without resynthesis. *)
Lemma resynth_same_state R1 R2 bE complexity dual balance seed X_ Y_ s :
  (quant_all_bands f enc R1 bE complexity dual balance seed X_ Y_ s).2
  = (quant_all_bands f enc R2 bE complexity dual balance seed X_ Y_ s).2.
Proof.
  unfold quant_all_bands. cbv zeta. destruct (theta_rdo_ _ dual complexity Y_) eqn:Er.
  - assert (forall st n i, bands_loop f enc true R1 bE n X_ Y_ i st = bands_loop f enc true R2 bE n X_ Y_ i st) as Heq.
    { intros st n. revert st. induction n as [|n IH]; intros st i; cbn [bands_loop]; [done|].
      change (band_step f enc true R1) with (band_step f enc true R2). f_equal. }
    by rewrite Heq.
  - by apply same_loop.
Qed.
End All.
