(* ===== verification/BandsProps.v ===== *)
(** * What the band coder guarantees

    Theorems about celt/bands.c, celt/vq.c and celt/mathops.c. *)

From S2P Require Import Prelude RangeCoder EntropyInterface EntropySeq EntCode RangeSafe RangeRoundTrip RangeProps CwrsTable Cwrs CwrsProps FixedPoint MathOps Vq VqProofs CeltMode QuantBands PulseCacheProofs BandOps Theta ThetaProofs Bands BandsSync BandsSafe AllBands AllBandsSync BandsResynth.

(** ** The portable functions as the encoder's analysis

    On coefficients outside the range that [op_pvq_search_c] is made for, or whose
    energies overflow the 32 bits of [stereo_itheta_c], a fixed answer is used instead. *)

Definition in_range (X : list Z) : bool := forallb (fun x => (- 2 ^ 15 <? x) && (x <? 2 ^ 15)) X.

Definition safe_itheta (X Y : list Z) (stereo : bool) : Z :=
  let '(Emid, Eside) := itheta_energies X Y stereo in
  if (0 <? Emid) && (0 <? Eside) then stereo_itheta_c X Y stereo else 0.

Definition safe_search (X : list Z) (K N : Z) : list Z * (list Z * Z) :=
  if in_range X then op_pvq_search_c X K N else (X, (K :: repeat 0 (Z.to_nat (N - 1)), K * K)).

Lemma in_range_spec X : in_range X = true -> Forall (fun x => - 2 ^ 15 < x < 2 ^ 15) X.
Proof. unfold in_range. rewrite forallb_forall, List.Forall_forall. intros H x Hx. specialize (H x Hx). lia. Qed.

Lemma safe_itheta_range X Y stereo : 0 <= safe_itheta X Y stereo <= 16384.
Proof.
  unfold safe_itheta. pose proof (stereo_itheta_c_range X Y stereo) as Hr. destruct (itheta_energies X Y stereo) as [Emid Eside].
  cbn [fst snd] in Hr. destruct (_ && _) eqn:E; [|lia]. apply Hr; lia.
Qed.

Lemma safe_search_pulses X K N :
  2 <= N <= 2 ^ 15 -> 1 <= K <= 128 -> len X = N ->
  let '(_, (iy, yy)) := safe_search X K N in len iy = N /\ pulses iy = K /\ yy = energy iy.
Proof.
  intros HN HK HX. unfold safe_search. destruct (in_range X) eqn:E.
  - apply op_pvq_search_c_pulses; try done. by apply in_range_spec.
  - assert (pulses (repeat 0 (Z.to_nat (N - 1))) = 0 /\ energy (repeat 0 (Z.to_nat (N - 1))) = 0) as [E1 E2].
    { induction (Z.to_nat (N - 1)) as [|n IH]; [done|]. cbn. unfold pulses, energy in *. by destruct IH as [-> ->]. }
    unfold len. cbn [length pulses energy foldr]. rewrite repeat_length.
    change (foldr (fun a k => Z.abs a + k) 0 ?l) with (pulses l). change (foldr (fun a e => a * a + e) 0 ?l) with (energy l).
    rewrite E1, E2. lia.
Qed.

#[export] Instance c_analysis : SignalAnalysis := {|
  stereo_itheta := safe_itheta;
  op_pvq_search := safe_search;
  stereo_itheta_range := safe_itheta_range;
  op_pvq_search_pulses := safe_search_pulses
|}.

(** ** Properties *)

Section Props.
Context `{A : SignalAnalysis}.
Abbreviation enc := (enc_band (E := ec_ctx) (D := ec_ctx)).
Abbreviation dec := (dec_band (E := ec_ctx) (D := ec_ctx)).

(** C39: the bands round trip.  For every frame of the standard mode, of one or two channels (dual,
    mid/side and intensity stereo), of any length up to 20 ms, with long or short blocks, whatever symbols come before and after:
    decoding the packet that [quant_all_bands] writes with the encoder's port gives the decoder exactly the coefficients, the
    collapse masks, the folding buffers, the seed and the bit balance of an encoder that resynthesises
    (R = true), whether or not the encoder that wrote the packet did ([RES]), at every complexity, for
    any analysis of the signal that returns an angle and a vector of pulses, whatever is in the
    decoder's buffers. *)
Theorem bands_roundtrip f RES RES' bE bE' complexity complexity' dual balance seed X_ X_' Y_ Y_' pre post b :
  in_m f = mode48000_960_120 -> frame_args f = true -> (Y_ = None -> dual = false) ->
  eband f f.(in_end) <= len X_ -> same_channels f Y_ Y_' ->
  forallb sym_wf pre = true -> forallb sym_wf post = true ->
  let encode := fun R c => quant_all_bands f enc R bE complexity dual balance seed X_ Y_ (enc_symbols pre c) in
  let decode := fun s => quant_all_bands f dec RES' bE' complexity' dual balance seed X_' Y_' (dec_symbols pre s).2 in
  let whole := fun c => enc_symbols post (encode RES c).2 in
  packet_ok whole b = true ->
  (decode (ec_dec_init (take (length b) (buf (packet whole b))) (len b))).1 = (encode true (ec_enc_init b (len b))).1.
Proof.
  intros Em Ha Hd HX HY Hpre Hpost encode decode whole Hp.
  pose proof (m48_frame_ok f Em Ha) as Hf. destruct (m48_eband_start f Em Ha) as [H0 _].
  pose proof (sync_quant_all_bands (E := ec_ctx) (D := ec_ctx) f (block_log f) true RES' bE bE' complexity complexity'
    dual balance seed X_ X_' Y_ Y_' Hf (orb_true_r _) Hd HX HY H0) as Hs.
  set (whole1 := fun c => enc_symbols post (encode true c).2).
  assert (forall c, whole c = whole1 c) as Hw.
  { intros c. unfold whole, whole1, encode. f_equal. apply resynth_same_state. }
  assert (packet whole b = packet whole1 b) as Epk by (unfold packet; by rewrite Hw).
  assert (packet_ok whole1 b = true) as Hp1 by (unfold packet_ok in *; by rewrite <- Epk, <- Hw).
  rewrite Epk. exact (packet_between _ _ pre post b Hs Hpre Hpost Hp1).
Qed.

(** C14: decoding the bands of a frame from arbitrary data.  From any state of the decoder, for any
    allocation, balance, seed, spread and stereo mode, [quant_all_bands] with the decoder's port
    gives every band all its coefficients in each channel (so a band is never folded from
    a part of [norm] that has not been written) and two collapse masks with no bit beyond the number
    of blocks, and leaves the range decoder in a valid state. *)
Theorem bands_decode_safe f RES bE complexity dual balance seed X_ Y_ d :
  in_m f = mode48000_960_120 -> frame_args f = true -> (Y_ = None -> dual = false) ->
  eband f f.(in_end) <= len X_ -> match Y_ with Some Y => eband f f.(in_end) <= len Y | None => True end ->
  dec_ok d ->
  let '(st, d') := quant_all_bands f dec RES bE complexity dual balance seed X_ Y_ d in
  let n := eband f f.(in_end) - eband f f.(in_start) in
  let mask_ok := fun m => 0 <= m < 2 ^ blocks f in
  len st.(st_X) = n /\ (Y_ <> None -> len st.(st_Y) = n) /\
  len st.(st_xmask) = f.(in_end) - f.(in_start) /\ len st.(st_ymask) = f.(in_end) - f.(in_start) /\
  Forall mask_ok st.(st_xmask) /\ Forall mask_ok st.(st_ymask) /\ dec_ok d'.
Proof.
  intros Em Ha Hd HX HY Hok. pose proof (m48_frame_ok f Em Ha) as Hf. destruct (m48_eband_start f Em Ha) as [H0 _].
  pose proof (fr_range _ _ Hf) as Hr.
  pose proof (yields_loop f _ Hf dec_inv dec (dec_port_ok (E := ec_ctx) (D := ec_ctx)) false RES bE (orb_true_l _) X_ Y_
    (Z.to_nat (f.(in_end) - f.(in_start))) f.(in_start)
    {| st_balance := balance; st_dual_stereo := dual; st_norm := []; st_norm2 := []; st_lowband_offset := 0;
       st_update_lowband := true; st_avoid_split_noise := blocks f >? 1; st_seed := seed; st_xmask := [];
       st_ymask := []; st_X := []; st_Y := [] |}
    ltac:(lia) ltac:(lia) (st_ok_init f _ false _ _ _ _ _ Hf (fun H : false = true => False_ind _ (diff_false_true H))) Hd HX HY H0 d Hok) as [Hst Hd'].
  unfold quant_all_bands. cbv zeta. change (theta_rdo_ (bp_encode dec) dual complexity Y_) with false.
  destruct (bands_loop _ _ _ _ _ _ _ _ _ _ d) as [st d']. cbn [fst snd] in *.
  destruct Hst as [_ _ _ _ L1 L2 (M1 & M2 & M3 & M4)]. rewrite (proj1 (fr_blocks _ _ Hf)). unfold F, norm_offset in *.
  split; [done|]. split; [|done]. intros HYn. apply L2. by destruct Y_.
Qed.
End Props.

(** C12: the pulse search.  For every vector of at least two 16-bit coefficients (-32768 apart) and every
    number of pulses the codec uses, [op_pvq_search_c] - reciprocal projection, dumping
    of what is left, greedy search with a 16-bit quotient test, restored signs - returns as many coefficients, whose
    absolute values add up to exactly [K], with the sum of their squares: what [encode_pulses] needs. *)
Theorem pvq_search_exact X K N :
  2 <= N <= 2 ^ 15 -> 1 <= K <= 128 -> len X = N -> Forall (fun x => - 2 ^ 15 < x < 2 ^ 15) X ->
  let '(_, (iy, yy)) := op_pvq_search_c X K N in len iy = N /\ pulses iy = K /\ yy = energy iy.
Proof. intros HN HK Hl HX. by apply op_pvq_search_c_pulses. Qed.

(** C17: the angle of a split round trips: for every resolution that [compute_theta] works with, every level and all three
    distributions (step, uniform, triangular), the decoder - which finds
    the level of the triangular one with an integer square root - reads the level that the encoder wrote,
    whatever follows in the packet. *)
Theorem theta_roundtrip `{A : SignalAnalysis} c stereo N b LM B0 x x' post buffer :
  let qn := theta_qn c N b LM stereo in
  qn <> 1 -> 0 <= x <= qn -> forallb sym_wf post = true ->
  let write := code_theta (enc_band (E := ec_ctx) (D := ec_ctx)) stereo N B0 qn x in
  let read := code_theta (dec_band (E := ec_ctx) (D := ec_ctx)) stereo N B0 qn x' in
  let whole := fun s => enc_symbols post (write s).2 in
  packet_ok whole buffer = true ->
  (read (ec_dec_init (take (length buffer) (buf (packet whole buffer))) (len buffer))).1 = x.
Proof.
  intros qn Hq Hx Hpost write rd whole Hp. destruct (theta_qn_ok c N b LM stereo) as [E1|Hqn]; [done|]. fold qn in Hqn.
  pose proof (codes_theta (E := ec_ctx) (D := ec_ctx) stereo N B0 qn x x' Hqn Hx) as Hc.
  exact (packet_between (fun s => (x, (write s).2)) rd [] post buffer Hc eq_refl Hpost Hp).
Qed.

(** C19: the budget of a partition.  A part that is not split gets, of all the numbers of pulses up to the one
    that its share [b] asks for, the largest whose cost the remaining bits of the frame cover,
    and the remaining bits fall by exactly that cost: they never become negative here.  It is coded with that
    many pulses, or filled if there are none; for both ports. *)
Theorem leaf_budget `{A : SignalAnalysis} {S} (p : band_port S) c LM X N b B lowband gain fill rem seed s :
  let cost := pulses2bits c.(bc_m) c.(bc_i) LM in
  let q0 := bits2pulses c.(bc_m) c.(bc_i) LM b in
  0 <= q0 ->
  exists q, 0 <= q <= q0 /\ (forall k, q < k <= q0 -> rem < cost k) /\ (0 <= rem -> cost q <= rem) /\
  let rem' := rem - cost q in
  quant_leaf p c LM X N b B lowband gain fill rem seed s =
    if q =? 0 then (fill_band c.(resynth) X N B lowband gain fill rem' seed, s)
    else let '((X', cm), s') := bp_alg p X N (get_pulses q) c.(spread) B gain c.(resynth) s in
         ({| q_cm := cm; q_X := X'; q_rem := rem'; q_seed := seed |}, s').
Proof.
  intros cost q0 Hq0.
  pose proof (never_bust_spec c.(bc_m) c.(bc_i) LM (Z.to_nat q0) rem (Z.to_nat q0) ltac:(lia) ltac:(lia)) as Hnb.
  rewrite Z2Nat.id in Hnb by done. fold cost in Hnb. unfold quant_leaf. fold q0. cbv zeta. fold (cost q0).
  destruct (never_bust _ _ _ _ _ _) as [q rem1]. destruct Hnb as (H1 & H2 & H3 & H4). exists q. subst rem1.
  split; [lia|]. split; [done|]. split.
  - intros Hr. destruct H3 as [->|H3]; [|lia]. by unfold cost, pulses2bits.
  - destruct (q =? 0); cbn [negb]; [done|]. unfold dec_bind, dec_ret. by destruct (bp_alg p X _ _ _ _ _ _ s) as [[X' cm] s'].
Qed.

(** ** Witnesses *)

(** A stereo frame of 2.5 ms, bands 8 to 12. *)
Definition demo_bands : bands_in := {|
  in_m := mode48000_960_120; in_start := 8; in_end := 13; in_LM := 0;
  in_pulses := [0; 0; 0; 0; 0; 0; 0; 0; 60; 70; 50; 90; 40];
  in_shortBlocks := false; in_spread := 2; in_intensity := 11; in_tf_res := repeat 0 21;
  in_total_bits := 8 * 8 * 30; in_codedBands := 12; in_disable_inv := false |}.
Definition demo_X : list Z := map (fun i => i16 (Z.of_nat i * Z.of_nat i * 977 mod 9001 - 4500)) (seq 0 20).
Definition demo_Y : list Z := map (fun i => i16 (Z.of_nat i * 3571 mod 8009 - 4000)) (seq 0 20).
Definition demo_bandE : list Z := map (fun i => 1000 + 37 * Z.of_nat i) (seq 0 42).

Lemma bands_roundtrip_witness :
  let encode := fun R c => quant_all_bands demo_bands (enc_band (E := ec_ctx) (D := ec_ctx)) R demo_bandE 5 false 40 7
                             demo_X (Some demo_Y) (enc_symbols [SBitLogp true 3] c) in
  let decode := fun s => quant_all_bands demo_bands (dec_band (E := ec_ctx) (D := ec_ctx)) false [] 0 false 40 7
                             [] (Some []) (dec_symbols [SBitLogp true 3] s).2 in
  let whole := fun c => enc_symbols [SUint 7 9] (encode false c).2 in
  let b := repeat 0 30 in
  (decode (ec_dec_init (take (length b) (buf (packet whole b))) (len b))).1 = (encode true (ec_enc_init b (len b))).1.
Proof.
  exact (bands_roundtrip demo_bands false false demo_bandE [] 5 0 false 40 7 demo_X [] (Some demo_Y) (Some [])
    [SBitLogp true 3] [SUint 7 9] (repeat 0 30) ltac:(reflexivity) ltac:(vm_compute; reflexivity)
    ltac:(congruence) ltac:(vm_compute; congruence) ltac:(vm_compute; congruence)
    ltac:(reflexivity) ltac:(reflexivity) ltac:(vm_compute; reflexivity)).
Defined.

(** The same bands from bytes that no encoder wrote. *)
Lemma bands_decode_safe_witness :
  let '(st, d') := quant_all_bands demo_bands (dec_band (E := ec_ctx) (D := ec_ctx)) false [] 0 true 40 7
                     (repeat 0 20) (Some (repeat 0 20)) (ec_dec_init [17; 200; 3; 99; 250; 1; 2] 7) in
  let n := eband demo_bands 13 - eband demo_bands 8 in
  let mask_ok := fun m => 0 <= m < 2 ^ blocks demo_bands in
  len st.(st_X) = n /\ (Some (repeat 0 20) <> None -> len st.(st_Y) = n) /\
  len st.(st_xmask) = 13 - 8 /\ len st.(st_ymask) = 13 - 8 /\
  Forall mask_ok st.(st_xmask) /\ Forall mask_ok st.(st_ymask) /\ dec_ok d'.
Proof.
  apply (bands_decode_safe demo_bands false [] 0 true 40 7 (repeat 0 20) (Some (repeat 0 20))
    (ec_dec_init [17; 200; 3; 99; 250; 1; 2] 7));
    [reflexivity|vm_compute; reflexivity|congruence|vm_compute; congruence..|].
  apply dec_init_safe; [repeat constructor; done|by vm_compute].
Defined.

Lemma pvq_search_exact_witness :
  let '(_, (iy, yy)) := op_pvq_search_c [3000; -12000; 100; 9000; -5; 0; 4400] 5 7 in
  len iy = 7 /\ pulses iy = 5 /\ yy = energy iy.
Proof.
  exact (pvq_search_exact [3000; -12000; 100; 9000; -5; 0; 4400] 5 7 ltac:(lia) ltac:(lia) eq_refl
    (in_range_spec [3000; -12000; 100; 9000; -5; 0; 4400] eq_refl)).
Defined.

(** The split of band 20 of a long frame: the triangular distribution. *)
Definition demo_ctx : band_ctx := {|
  resynth := true; bc_m := mode48000_960_120; bc_i := 20; bc_intensity := 21; spread := 2; tf_change := 0;
  bandE := []; theta_round := 0; disable_inv := false; avoid_split_noise := false |}.

Lemma theta_roundtrip_witness :
  let qn := theta_qn demo_ctx 88 600 2 false in
  let write := code_theta (enc_band (E := ec_ctx) (D := ec_ctx)) false 88 1 qn 7 in
  let read := code_theta (dec_band (E := ec_ctx) (D := ec_ctx)) false 88 1 qn 0 in
  let whole := fun s => enc_symbols [SUint 7 9] (write s).2 in
  (read (ec_dec_init (take 5 (buf (packet whole (repeat 0 5)))) 5)).1 = 7.
Proof.
  exact (theta_roundtrip demo_ctx false 88 600 2 1 7 0 [SUint 7 9] (repeat 0 5) ltac:(vm_compute; congruence)
    ltac:(vm_compute; split; congruence) eq_refl ltac:(vm_compute; reflexivity)).
Defined.

Lemma leaf_budget_witness :
  let p := enc_band (E := ec_ctx) (D := ec_ctx) in
  let cost := pulses2bits mode48000_960_120 20 (-1) in
  let q0 := bits2pulses mode48000_960_120 20 (-1) 70 in
  0 <= q0 /\
  exists q, 0 <= q <= q0 /\ (forall k, q < k <= q0 -> 60 < cost k) /\ (0 <= 60 -> cost q <= 60) /\
  quant_leaf p demo_ctx (-1) demo_X 11 70 1 None 32767 1 60 7 (ec_enc_init (repeat 0 30) 30) =
    if q =? 0 then (fill_band true demo_X 11 1 None 32767 1 (60 - cost q) 7, ec_enc_init (repeat 0 30) 30)
    else let '((X', cm), s') := bp_alg p demo_X 11 (get_pulses q) 2 1 32767 true (ec_enc_init (repeat 0 30) 30) in
         ({| q_cm := cm; q_X := X'; q_rem := 60 - cost q; q_seed := 7 |}, s').
Proof.
  split; [vm_compute; congruence|].
  exact (leaf_budget (enc_band (E := ec_ctx) (D := ec_ctx)) demo_ctx (-1) demo_X 11 70 1 None 32767 1 60 7
    (ec_enc_init (repeat 0 30) 30) ltac:(vm_compute; congruence)).
Defined.
