(* ===== verification/CeltFrame.v ===== *)
(** * A whole CELT frame (celt/celt_encoder.c, celt/celt_decoder.c)

    [frame_encode] and [frame_decode] are what [celt_encode_with_ec] and
    [celt_decode_with_ec] do with the range coder between the start and the end
    of a frame that is not silent, at constant bit rate: silence and post-filter
    flags, transient flag, coarse energies, side information, the bands, the
    anti-collapse flag and the left-over bits.  The analysis that takes the encoder's decisions and the
    synthesis from the decoded frame are not part of them. *)

From S2P Require Import Prelude RangeCoder EntropyInterface EntropySeq EntCode FixedPoint CeltMode QuantBands QuantCoarse Rate CeltSide.
From S2P Require Import Vq BandOps Theta Bands AllBands.

Definition tapset_icdf : list Z := [2; 1; 0].

(** What the post-filter of the decoder needs: period, gain and tap set. *)
Record postfilter := {
  postfilter_pitch : Z;
  postfilter_gain : Z;
  postfilter_tapset : Z
}.
Definition no_postfilter : postfilter := {| postfilter_pitch := 0; postfilter_gain := 0; postfilter_tapset := 0 |}.

(** [QCONST16(.09375f,15)*(qg+1)] *)
Definition pf_gain (qg : Z) : Z := 3072 * (qg + 1).

(** The encoder's pre-filter: [pitch_index], [qg] and [prefilter_tapset] of [run_prefilter]. *)
Record prefilter := {
  pitch_index : Z;
  qg : Z;
  tapset : Z
}.

(** The prefilter may be on: [nbAvailableBytes] leave room for its parameters. *)
Definition pf_enabled (start C nbAvailableBytes : Z) (lfe : bool) : bool :=
  (lfe && (nbAvailableBytes >? 3) || (nbAvailableBytes >? 12 * C)) && (start =? 0).

(** What the encoder has decided for a frame, apart from the side information. *)
Record frame_in := {
  fi_prefilter : option prefilter;
  fi_decisions : decisions;
  fi_bandLogE : list Z;
  fi_delayedIntra : Z;
  fi_nbAvailableBytes : Z;
  fi_force_intra : bool;
  fi_loss_rate : Z;
  fi_lfe : bool;
  fi_spread : Z;               (** [st->spread_decision] of the frame before *)
  fi_complexity : Z;
  fi_bandE : list Z;
  fi_X : list Z;
  fi_Y : option (list Z);
  fi_anti_collapse_on : bool
}.

(** What both ends know of the frame afterwards. *)
Record frame := {
  f_postfilter : postfilter;
  f_isTransient : bool;
  f_side : side;
  f_bands : bands_st;
  f_anti_collapse_on : bool;
  f_energies : list Z;
  f_bits_left : Z
}.

Definition with_transient (b : bool) (x : decisions) : decisions := {|
  d_isTransient := b; d_tf_res := x.(d_tf_res); d_tf_select := x.(d_tf_select); d_spread := x.(d_spread);
  d_offsets := x.(d_offsets); d_trim := x.(d_trim); d_intensity := x.(d_intensity);
  d_dual_stereo := x.(d_dual_stereo); d_prev := x.(d_prev); d_signalBandwidth := x.(d_signalBandwidth) |}.

(** The arguments of [quant_all_bands]. *)
Definition bands_of (m : CELTMode) (start end_ : Z) (LM : nat) (nbBytes : Z) (isTransient : bool) (spread : Z)
    (disable_inv : bool) (sd : side) : bands_in := {|
  in_m := m; in_start := start; in_end := end_; in_LM := LM; in_pulses := sd.(s_alloc).(pulses);
  in_shortBlocks := isTransient; in_spread := spread; in_intensity := sd.(s_alloc).(intensity);
  in_tf_res := from_start start sd.(s_tf_res); in_total_bits := nbBytes * Z.shiftl 8 BITRES - sd.(s_anti_collapse_rsv);
  in_codedBands := sd.(s_alloc).(codedBands); in_disable_inv := disable_inv |}.

Section Frame.
Context `{SignalAnalysis} `{EntropyCoder E D}.
Context (m : CELTMode) (start end_ C : Z) (LM : nat) (nbBytes : Z) (disable_inv : bool).
Abbreviation total_bits := (nbBytes * 8).

(** ** Encoder

    The code is [mirror = false].  With [mirror = true] the encoder takes every decision that depends on the number of bits
    the way the decoder takes it; the two differ only in cases that the
    theorems exclude or show to be impossible. *)

Section Encode.
Context (mirror : bool) (x : frame_in).

(** The flag of a frame that is not silent. *)
Definition silence_encode (tell : Z) : E -> unit * E :=
  if tell =? 1 then emit tt (ec_enc_bit_logp false 15) else dec_ret tt.

(** The parameters of an active prefilter. *)
Definition pf_params (pf : prefilter) : E -> postfilter * E :=
  let pitch := pf.(pitch_index) + 1 in
  let octave := EC_ILOG pitch - 5 in
  octave <~ emit octave (ec_enc_uint octave 6);
  low <~ emit (pitch - Z.shiftl 16 octave) (ec_enc_bits (pitch - Z.shiftl 16 octave) (4 + octave));
  qg <~ emit pf.(qg) (ec_enc_bits pf.(qg) 3);
  tell <~ read ec_tell_enc;
  tapset <~ (if negb mirror || (tell + 2 <=? total_bits)
             then emit pf.(tapset) (ec_enc_icdf pf.(tapset) tapset_icdf 2) else dec_ret 0);
  dec_ret {| postfilter_pitch := Z.shiftl 16 octave + low - 1; postfilter_gain := pf_gain qg; postfilter_tapset := tapset |}.

Definition pf_code (pf : option prefilter) : E -> postfilter * E :=
  match pf with
  | Some pf => _ <~ emit true (ec_enc_bit_logp true 1); pf_params pf
  | None => _ <~ emit false (ec_enc_bit_logp false 1); dec_ret no_postfilter
  end.

(** With the [tell] that the decoder goes on with. *)
Definition prefilter_encode (tell : Z) (pf : option prefilter) : E -> (postfilter * Z) * E :=
  if (start =? 0) && (tell + 16 <=? total_bits) then
    r <~ pf_code pf;
    tell <~ read ec_tell_enc;
    dec_ret (r, tell)
  else if negb mirror then
    match pf with
    | Some _ => r <~ pf_code pf; dec_ret (r, tell)
    | None => dec_ret (no_postfilter, tell)
    end
  else dec_ret (no_postfilter, tell).

(** [ec_tell(enc)], or what the decoder knows. *)
Definition tell_now (tell : Z) : E -> Z * E := if mirror then dec_ret tell else read ec_tell_enc.

(** The flag, and the decoder's [tell]. *)
Definition transient_encode (tell : Z) (isTransient : bool) : E -> (bool * Z) * E :=
  t <~ tell_now tell;
  if (0 <? LM)%nat && (t + 3 <=? total_bits) then
    _ <~ emit isTransient (ec_enc_bit_logp isTransient 3);
    tell <~ read ec_tell_enc;
    dec_ret (isTransient, tell)
  else dec_ret (false, tell).

(** Before the energies; [tell] is where the frame starts. *)
Definition frame_header (tell : Z) : E -> (postfilter * bool * Z) * E :=
  _ <~ silence_encode tell;
  '(pf, tell) <~ prefilter_encode tell
    (if pf_enabled start C x.(fi_nbAvailableBytes) x.(fi_lfe) then x.(fi_prefilter) else None);
  '(isTransient, tell) <~ transient_encode tell x.(fi_decisions).(d_isTransient);
  tell <~ tell_now tell;
  dec_ret (pf, isTransient, tell).

(** [effEnd] is [end]: the standard mode has as many effective bands as bands. *)
Definition coarse_of : coarse_in := {|
  ci_nbEBands := m.(nbEBands); ci_start := start; ci_end := end_; ci_effEnd := end_; ci_C := C;
  ci_LM := LM; ci_nbAvailableBytes := x.(fi_nbAvailableBytes); ci_force_intra := x.(fi_force_intra);
  ci_two_pass := x.(fi_complexity) >=? 4; ci_loss_rate := x.(fi_loss_rate); ci_lfe := x.(fi_lfe) |}.

(** The energies and the side information: with the errors, and the spread if it was coded. *)
Definition frame_sides (isTransient : bool) (tell : Z) (oldEBands error : list Z) : E -> (side * (list Z * option Z)) * E :=
  '(st, _) <~ quant_coarse_energy_at mirror coarse_of x.(fi_bandLogE) oldEBands error x.(fi_delayedIntra) tell;
  side_encode m start end_ C LM nbBytes (with_transient isTransient x.(fi_decisions)) st.(cs_old) st.(cs_error).

(** The bands and what follows. *)
Definition frame_rest (RESYNTH : bool) (seed : Z) (pf : postfilter) (isTransient : bool) (spread : Z) (sd : side)
    (error : list Z) : E -> frame * E :=
  bands <~ quant_all_bands (bands_of m start end_ LM nbBytes isTransient spread disable_inv sd) (enc_band (E := E) (D := D))
    RESYNTH x.(fi_bandE) x.(fi_complexity) sd.(s_alloc).(dual_stereo) sd.(s_alloc).(balance) seed x.(fi_X) x.(fi_Y);
  on <~ (if sd.(s_anti_collapse_rsv) >? 0
         then emit x.(fi_anti_collapse_on) (ec_enc_bits (b2z x.(fi_anti_collapse_on)) 1) else dec_ret false);
  tell <~ read ec_tell_enc;
  '(oldEBands, _, rest) <~ quant_energy_finalise m.(nbEBands) start end_ sd.(s_energies) error sd.(s_alloc).(ebits)
    sd.(s_alloc).(fine_priority) (total_bits - tell) C;
  dec_ret {| f_postfilter := pf; f_isTransient := isTransient; f_side := sd; f_bands := bands;
             f_anti_collapse_on := on; f_energies := oldEBands; f_bits_left := rest |}.

(** [st->spread_decision] is left as it was when there is no room to code it. *)
Definition spread_used (spread : option Z) : Z := default (if mirror then SPREAD_NORMAL else x.(fi_spread)) spread.

Definition frame_from (RESYNTH : bool) (oldEBands error : list Z) (seed tell : Z) : E -> frame * E :=
  '(pf, isTransient, tell) <~ frame_header tell;
  '(sd, (error, spread)) <~ frame_sides isTransient tell oldEBands error;
  frame_rest RESYNTH seed pf isTransient (spread_used spread) sd error.

Definition frame_encode (RESYNTH : bool) (oldEBands error : list Z) (seed : Z) : E -> frame * E :=
  tell <~ read ec_tell_enc; frame_from RESYNTH oldEBands error seed tell.
End Encode.

(** ** Decoder *)

Definition silence_decode (tell : Z) : D -> bool * D :=
  if tell >=? total_bits then dec_ret true else if tell =? 1 then ec_dec_bit_logp 15 else dec_ret false.

Definition postfilter_decode (tell : Z) : D -> (postfilter * Z) * D :=
  if (start =? 0) && (tell + 16 <=? total_bits) then
    on <~ ec_dec_bit_logp 1;
    r <~ (if on then
            octave <~ ec_dec_uint 6;
            low <~ ec_dec_bits (4 + octave);
            qg <~ ec_dec_bits 3;
            tell <~ read ec_tell_dec;
            tapset <~ (if tell + 2 <=? total_bits then ec_dec_icdf tapset_icdf 2 else dec_ret 0);
            dec_ret {| postfilter_pitch := Z.shiftl 16 octave + low - 1; postfilter_gain := pf_gain qg;
                       postfilter_tapset := tapset |}
          else dec_ret no_postfilter);
    tell <~ read ec_tell_dec;
    dec_ret (r, tell)
  else dec_ret (no_postfilter, tell).

Definition transient_decode (tell : Z) : D -> (bool * Z) * D :=
  if (0 <? LM)%nat && (tell + 3 <=? total_bits) then
    isTransient <~ ec_dec_bit_logp 3;
    tell <~ read ec_tell_dec;
    dec_ret (isTransient, tell)
  else dec_ret (false, tell).

(** [None] for a silent frame. *)
Definition header_decode (tell : Z) : D -> option (postfilter * bool * Z) * D :=
  silence <~ silence_decode tell;
  if silence : bool then dec_ret None
  else
    '(pf, tell) <~ postfilter_decode tell;
    '(isTransient, tell) <~ transient_decode tell;
    dec_ret (Some (pf, isTransient, tell)).

Definition sides_decode (isTransient : bool) (tell : Z) (oldEBands : list Z) : D -> side * D :=
  oldEBands <~ decode_coarse_at m.(nbEBands) start end_ oldEBands C LM tell;
  side_decode m start end_ C LM nbBytes isTransient oldEBands.

(** [X_] and [Y_] are the decoder's buffers. *)
Definition rest_decode (seed : Z) (X_ : list Z) (Y_ : option (list Z)) (pf : postfilter) (isTransient : bool) (sd : side)
    : D -> frame * D :=
  bands <~ quant_all_bands (bands_of m start end_ LM nbBytes isTransient sd.(s_spread) disable_inv sd)
    (dec_band (E := E) (D := D)) false [] 0 sd.(s_alloc).(dual_stereo) sd.(s_alloc).(balance) seed X_ Y_;
  on <~ (if sd.(s_anti_collapse_rsv) >? 0 then b <~ ec_dec_bits 1; dec_ret (negb (b =? 0)) else dec_ret false);
  tell <~ read ec_tell_dec;
  '(oldEBands, rest) <~ unquant_energy_finalise m.(nbEBands) start end_ sd.(s_energies) sd.(s_alloc).(ebits)
    sd.(s_alloc).(fine_priority) (total_bits - tell) C;
  dec_ret {| f_postfilter := pf; f_isTransient := isTransient; f_side := sd; f_bands := bands;
             f_anti_collapse_on := on; f_energies := oldEBands; f_bits_left := rest |}.

Definition frame_decode (oldEBands : list Z) (seed : Z) (X_ : list Z) (Y_ : option (list Z)) : D -> option frame * D :=
  tell <~ read ec_tell_dec;
  h <~ header_decode tell;
  match h with
  | None => dec_ret None
  | Some (pf, isTransient, tell) =>
      sd <~ sides_decode isTransient tell oldEBands;
      f <~ rest_decode seed X_ Y_ pf isTransient sd;
      dec_ret (Some f)
  end.
End Frame.
