(* ===== verification/CeltFrameProofs.v ===== *)
(** * A CELT frame: encoder and decoder stay in step *)

From S2P Require Import Prelude RangeCoder EntropyInterface EntropySeq EntCode CwrsTable Cwrs FixedPoint CeltMode QuantBands QuantCoarse Rate RateProofs RateProps.
From S2P Require Import RangeRoundTrip CeltSide CeltSideProofs Vq BandOps Theta Bands AllBands AllBandsSync BandsResynth CeltFrame.

Definition prefilter_ok (pf : prefilter) : Prop :=
  15 <= pf.(pitch_index) <= 1022 /\ 0 <= pf.(qg) < 8 /\ 0 <= pf.(tapset) < 3.

(** The octave of a period, and what is coded of it. *)
Lemma octave_range p : 16 <= p <= 1023 ->
  let o := EC_ILOG p - 5 in 0 <= o <= 5 /\ 0 <= p - Z.shiftl 16 o < 2 ^ (4 + o).
Proof.
  intros Hp o. subst o. unfold EC_ILOG. pose proof (ec_ilog_bounds p ltac:(lia)) as H1.
  set (l := ec_ilog p) in *. assert (5 <= l <= 10) as Hl.
  { split.
    - destruct (Z.le_gt_cases 5 l); [done|]. assert (2 ^ l <= 2 ^ 4) by (apply Z.pow_le_mono_r; lia). lia.
    - destruct (Z.le_gt_cases l 10); [done|]. assert (2 ^ 10 <= 2 ^ (l - 1)) by (apply Z.pow_le_mono_r; lia). lia. }
  split; [lia|]. rewrite Z.shiftl_mul_pow2 by lia. change 16 with (2 ^ 4). rewrite <- Z.pow_add_r by lia.
  replace (4 + (l - 5)) with (l - 1) by lia. replace l with (l - 1 + 1) in H1 at 2 by lia. rewrite Z.pow_add_r in H1 by lia. lia.
Qed.

(** ** What the side information says about the bands *)

Section Facts.
Context `{EntropyCoder E D}.
Abbreviation any := (fun _ : E => True).

Lemma yields_any {A} (d : E -> A * E) : yields any d (fun _ => True).
Proof. by intros s _. Qed.

Lemma tf_enc_bits tf tr budget curr ch logp tell :
  Forall is_bit tf -> is_bit curr ->
  yields any (tf_enc_loop tf tr budget curr ch logp tell) (fun r => Forall is_bit r.1).
Proof.
  intros Ht. revert curr ch logp tell. induction Ht as [|t tf Hx Ht IH]; intros curr ch logp tell Hc s _; cbn [tf_enc_loop]; [done|].
  destruct (_ <=? budget).
  - specialize (IH t (Z.lor ch t) (if tr then 4 else 5) (u32 (ec_tell_enc (ec_enc_bit_logp (negb (Z.lxor t curr =? 0)) logp s))) Hx
      (ec_enc_bit_logp (negb (Z.lxor t curr =? 0)) logp s) Logic.I).
    destruct (tf_enc_loop _ _ _ _ _ _ _ _) as [[r c'] s']. cbn [fst] in *. split; [|done]. constructor; [done|]. by destruct IH.
  - specialize (IH curr ch (if tr then 4 else 5) tell Hc s Logic.I).
    destruct (tf_enc_loop _ _ _ _ _ _ _ _) as [[r c'] s']. cbn [fst] in *. split; [|done]. constructor; [done|]. by destruct IH.
Qed.

Definition tf_ok (LM : nat) (tr : bool) (t : Z) : Prop := t <= if tr then Z.of_nat LM else 0.

Lemma tf_table_ok LM tr sel t : (LM <= 3)%nat -> is_bit t -> tf_ok LM tr (tf_table LM tr (2 * b2z sel + t)).
Proof.
  intros HLM [-> | ->]; unfold tf_ok; do 4 (destruct LM as [|LM]; [destruct tr, sel; by vm_compute|]); lia.
Qed.

Lemma tf_encode_ok tr tf LM sel : (LM <= 3)%nat -> Forall is_bit tf ->
  yields any (tf_encode tr tf LM sel) (Forall (tf_ok LM tr)).
Proof.
  intros HLM Ht s _. unfold tf_encode. cbv zeta. set (rsv := tf_select_rsv _ _ _ _).
  destruct (tf_enc_bits tf tr (u32 (u32 (ec_storage_enc s * 8) - b2z rsv)) 0 0 (if tr then 2 else 4) (u32 (ec_tell_enc s)) Ht
    ltac:(by left) s Logic.I) as [Hb _].
  destruct (tf_enc_loop _ _ _ _ _ _ _ s) as [[r ch] s1]. cbn [fst] in Hb.
  destruct (if rsv && _ then _ else _) as [sel' s2]. cbn [fst]. split; [|done]. apply Forall_map.
  eapply List.Forall_impl; [|exact Hb]. intros t Hx. by apply tf_table_ok.
Qed.

(** One channel has no dual stereo. *)
Lemma mono_not_dual {S} (p : port S) m start end_ LM offs cap trim it ds total b0 eb fp prev sbw s :
  (clt_compute_allocation m start end_ 1 LM p offs cap trim it ds total b0 eb fp prev sbw s).1.(dual_stereo) = false.
Proof.
  unfold clt_compute_allocation, reserve. change (1 =? 2) with false. cbv zeta iota. unfold interp_bits2pulses. cbv zeta.
  destruct (interp_store _ _ _ _ _ _ _) as [b1 psum]. destruct (skip_loop _ _ _ _ _ _ _ _ _ _ _ _) as [[cb tot ps ir b2] s1].
  destruct (code_intensity _ _ _ _ _) as [i1 s2]. destruct (i1 <=? start); unfold code_dual_stereo; change (0 >? 0) with false; cbv iota;
    unfold share_out; cbv zeta; destruct (fine_loop _ _ _ _ _ _ _ _ _ _ _) as [[[? ?] ?] ?]; by destruct (fine_skipped _ _ _ _ _ _) as [[? ?] ?].
Qed.

(** The time-frequency changes fit the blocks, one channel is not dual, and the spread of both ends. *)
Definition side_fact (LM : nat) (C : Z) (tr : bool) (r : side * (list Z * option Z)) : Prop :=
  Forall (tf_ok LM tr) r.1.(s_tf_res) /\ (C = 1 -> r.1.(s_alloc).(dual_stereo) = false) /\
  r.1.(s_spread) = default SPREAD_NORMAL r.2.2.

Lemma side_facts m start end_ C LM nbBytes x old error :
  (LM <= 3)%nat -> Forall is_bit x.(d_tf_res) ->
  yields any (side_encode m start end_ C LM nbBytes x old error) (side_fact LM C x.(d_isTransient)).
Proof.
  intros HLM Ht. unfold side_encode. eapply yields_seq; [by apply tf_encode_ok|]. intros tf Htf.
  eapply yields_seq; [apply yields_any|]. intros spr _. cbv zeta.
  eapply yields_seq; [apply yields_any|]. intros t1 _. eapply yields_seq; [apply yields_any|]. intros [[bo tb] t2] _.
  eapply yields_seq; [apply yields_any|]. intros trim _. eapply yields_seq; [apply yields_any|]. intros t3 _.
  destruct (alloc_budget _ _ _ _) as [bits rsv].
  eapply (yields_seq any _ _ (fun a => C = 1 -> a.(dual_stereo) = false)).
  { intros s _. split; [|done]. intros ->. apply mono_not_dual. }
  intros a Ha. eapply yields_seq; [apply yields_any|]. intros [e1 e2] _. by apply yields_done.
Qed.
End Facts.

Section Sync.
Context `{A : SignalAnalysis} `{EntropyCoder E D}.
Context (start end_ C : Z) (LM : nat) (nbBytes : Z) (disable_inv : bool) (x : frame_in).
Abbreviation m := mode48000_960_120.

Record frame_in_ok : Prop := {
  fo_pf : forall pf, x.(fi_prefilter) = Some pf -> prefilter_ok pf;
  fo_decisions : decisions_ok start end_ x.(fi_decisions);
  fo_range : 0 <= start < end_ /\ end_ <= 21;
  fo_LM : (LM <= 3)%nat;
  fo_C : match x.(fi_Y) with None => C = 1 | Some Y => C = 2 /\ 2 ^ Z.of_nat LM * 100 <= len Y end;
  fo_X : 2 ^ Z.of_nat LM * 100 <= len x.(fi_X);
  fo_bytes : 0 <= nbBytes <= 1275
}.

(** ** The parts in front *)

Lemma sync_silence tell : tell < nbBytes * 8 ->
  sync (view (fun _ => false) (silence_encode (E := E) tell)) (silence_decode nbBytes tell).
Proof.
  intros Ht. unfold silence_encode, silence_decode. destruct (Z.geb_spec tell (nbBytes * 8)); [lia|].
  destruct (tell =? 1); [|exact (sync_ret false)]. exact (codes_bit_logp false 15 ltac:(lia)).
Qed.

Lemma sync_pf pf : (forall p, pf = Some p -> prefilter_ok p) ->
  sync (pf_code (E := E) nbBytes true pf)
    (on <~ ec_dec_bit_logp 1;
     (if on then
        octave <~ ec_dec_uint 6;
        low <~ ec_dec_bits (4 + octave);
        qg <~ ec_dec_bits 3;
        tell <~ read ec_tell_dec;
        tapset <~ (if tell + 2 <=? nbBytes * 8 then ec_dec_icdf tapset_icdf 2 else dec_ret 0);
        dec_ret {| postfilter_pitch := Z.shiftl 16 octave + low - 1; postfilter_gain := pf_gain qg;
                   postfilter_tapset := tapset |}
      else dec_ret no_postfilter)).
Proof.
  intros Hpf. unfold pf_code. destruct pf as [pf|].
  - destruct (Hpf pf eq_refl) as (P1 & P2 & P3). destruct (octave_range (pitch_index pf + 1) ltac:(lia)) as [O1 O2].
    apply sync_emit; [apply codes_bit_logp; lia|]. unfold pf_params. cbv zeta.
    apply sync_emit; [apply codes_uint; lia|]. apply sync_emit; [apply codes_bits; [lia|done]|].
    apply sync_emit; [apply codes_bits; lia|]. apply (sync_seq (read ec_tell_enc)); [apply sync_tell|].
    intros s. cbn [read fst negb orb]. apply sync_seq; [|intros; apply sync_done].
    destruct (_ <=? _); [|apply sync_done]. apply codes_icdf; [lia|done|].
    assert (tapset pf = 0 \/ tapset pf = 1 \/ tapset pf = 2) as [-> |[-> | ->]] by lia; done.
  - apply sync_emit; [apply codes_bit_logp; lia|]. apply sync_done.
Qed.

Lemma dec_bind_assoc {S T U V} (e : S -> T * S) (k : T -> S -> U * S) (k' : U -> S -> V * S) s :
  dec_bind (dec_bind e k) k' s = dec_bind e (fun a => dec_bind (k a) k') s.
Proof. unfold dec_bind. by destruct (e s). Qed.

Lemma sync_prefilter tell pf : (forall p, pf = Some p -> prefilter_ok p) ->
  sync (prefilter_encode (E := E) start nbBytes true tell pf) (postfilter_decode start nbBytes tell).
Proof.
  intros Hpf. unfold prefilter_encode, postfilter_decode. destruct (_ && _); [|apply sync_done].
  eapply sync_ext; [reflexivity|intros s; apply dec_bind_assoc|].
  apply sync_seq; [by apply sync_pf|]. intros s. apply (sync_seq (read ec_tell_enc)); [apply sync_tell|]. intros s'. apply sync_done.
Qed.

Lemma sync_transient tell tr : sync (transient_encode (E := E) LM nbBytes true tell tr) (transient_decode LM nbBytes tell).
Proof.
  unfold transient_encode, transient_decode. change (dec_bind (tell_now true tell) ?k) with (k tell). cbv beta.
  destruct (_ && _); [|apply sync_done]. apply sync_emit; [apply codes_bit_logp; lia|].
  apply (sync_seq (read ec_tell_enc)); [apply sync_tell|]. intros s. apply sync_done.
Qed.

Lemma sync_header tell : frame_in_ok -> tell < nbBytes * 8 ->
  sync (view Some (frame_header (E := E) start C LM nbBytes true x tell)) (header_decode start LM nbBytes tell).
Proof.
  intros Hx Ht. unfold frame_header, header_decode.
  apply (sync_view_bind (fun _ => false)); [by apply sync_silence|]. intros s1. cbv iota.
  apply (sync_view_bind (fun r => r)).
  { apply sync_view, sync_prefilter. intros p. destruct (pf_enabled _ _ _ _); [|done]. apply (fo_pf Hx). }
  intros s2. destruct (prefilter_encode _ _ _ _ _ s2) as [[pf t1] s3]. cbn [fst].
  apply (sync_view_bind (fun r => r)); [apply sync_view, sync_transient|].
  intros s4. destruct (transient_encode _ _ _ _ _ s4) as [[tr t2] s5]. cbn [fst].
  exact (sync_view_ret Some (pf, tr, t2)).
Qed.

(** ** The energies and the side information *)

Lemma sync_sides tr tell old error : frame_in_ok -> C * 21 <= len old ->
  sync (view fst (frame_sides (E := E) m start end_ C LM nbBytes true x tr tell old error))
       (sides_decode m start end_ C LM nbBytes tr tell old).
Proof.
  intros [F1 F2 F3 F4 F5 F6 F7] Hold. unfold frame_sides, sides_decode.
  assert (C = 1 \/ C = 2) as HC by (destruct (fi_Y x); [right; tauto|by left]).
  apply (sync_view_bind (fun r => cs_old r.1)).
  { apply (sync_coarse_energy_at (coarse_of m start end_ C LM x)); cbn [coarse_of ci_LM ci_start ci_end ci_nbEBands ci_C];
      [lia|lia|exact (proj2 F3)|exact Hold]. }
  intros s1. destruct (quant_coarse_energy_at _ _ _ _ _ _ _ s1) as [[st d1] s2]. cbn [fst].
  apply (sync_side m start end_ C LM nbBytes (with_transient tr x.(fi_decisions)) st.(cs_old) st.(cs_error));
    [apply mode48000_ok|apply mode48000_caps|cbn; lia|done|done|].
  destruct F2. by split.
Qed.

(** ** The bands and the rest *)

Lemma bands_args tr spread sd : frame_in_ok -> Forall (tf_ok LM tr) sd.(s_tf_res) ->
  frame_args (bands_of m start end_ LM nbBytes tr spread disable_inv sd) = true.
Proof.
  intros [_ _ F3 F4 _ _ _] Htf. unfold frame_args. cbn [bands_of in_start in_end in_LM in_tf_res].
  assert ((0 <=? start) = true) as -> by lia. assert ((start <? end_) = true) as -> by lia. assert ((end_ <=? 21) = true) as -> by lia.
  rewrite (proj2 (Nat.leb_le _ _) F4). cbn [andb]. apply zforall_intro. intros i _. apply Z.leb_le.
  unfold block_log. cbn [bands_of in_shortBlocks in_LM].
  apply (rd_Forall (tf_ok LM tr)); [unfold tf_ok; destruct tr; lia|]. unfold from_start. apply Forall_app. split; [|done].
  apply List.Forall_forall. intros y Hy%repeat_spec. subst y. unfold tf_ok. destruct tr; lia.
Qed.

Lemma sync_rest tr pf spread sd error seed X' Y' :
  frame_in_ok -> Forall (tf_ok LM tr) sd.(s_tf_res) -> (C = 1 -> sd.(s_alloc).(dual_stereo) = false) -> spread = sd.(s_spread) ->
  match x.(fi_Y), Y' with Some _, Some _ | None, None => True | _, _ => False end ->
  sync (frame_rest (E := E) (D := D) m start end_ C LM nbBytes disable_inv x true seed pf tr spread sd error)
       (rest_decode (E := E) (D := D) m start end_ C LM nbBytes disable_inv seed X' Y' pf tr sd).
Proof.
  intros Hx Htf Hdual -> HY. unfold frame_rest, rest_decode.
  set (f := bands_of m start end_ LM nbBytes tr sd.(s_spread) disable_inv sd).
  assert (in_m f = m) as Em by done. pose proof (bands_args tr sd.(s_spread) sd Hx Htf) as Ha. fold f in Ha.
  pose proof (m48_frame_ok f Em Ha) as Hf. destruct (m48_eband_start f Em Ha) as [H0 H1].
  destruct Hx as [_ _ _ _ F5 F6 _]. apply sync_seq.
  { apply (sync_quant_all_bands f (block_log f)); [done|apply orb_true_r| |cbn in H1 |- *; lia| |done].
    - intros E1. rewrite E1 in F5. by apply Hdual.
    - unfold same_channels. destruct (fi_Y x), Y'; try done. cbn in H1 |- *. lia. }
  intros s1. apply sync_seq.
  { destruct (_ >? 0); [|apply sync_done]. eapply codes_map; [apply codes_bits; [lia|destruct (fi_anti_collapse_on x); cbn; lia]|].
    by destruct (fi_anti_collapse_on x). }
  intros s2. apply (sync_seq (read ec_tell_enc)); [apply sync_tell|]. intros s3. cbn [read fst].
  apply (sync_bind_view final_view); [apply sync_finalise|]. intros s4.
  destruct (quant_energy_finalise _ _ _ _ _ _ _ _ _ s4) as [[[o e] l] s5]. apply sync_done.
Qed.

(** ** The frame *)

(** The encoder that takes the decoder's decisions; nothing is coded when there is no room at all. *)
Definition mirror_frame (old error : list Z) (seed : Z) : E -> option frame * E :=
  tell <~ read ec_tell_enc;
  if tell >=? nbBytes * 8 then dec_ret None
  else view Some (frame_from (E := E) (D := D) m start end_ C LM nbBytes disable_inv true x true old error seed tell).

Lemma sync_frame old error seed X' Y' :
  frame_in_ok -> C * 21 <= len old ->
  match x.(fi_Y), Y' with Some _, Some _ | None, None => True | _, _ => False end ->
  sync (mirror_frame old error seed)
       (frame_decode (E := E) (D := D) m start end_ C LM nbBytes disable_inv old seed X' Y').
Proof.
  intros Hx Hold HY. unfold mirror_frame, frame_decode. apply (sync_seq (read ec_tell_enc)); [apply sync_tell|]. intros s0.
  cbn [read fst]. destruct (Z.geb_spec (ec_tell_enc s0) (nbBytes * 8)) as [Hge|Hlt].
  { unfold header_decode, silence_decode. destruct (Z.geb_spec (ec_tell_enc s0) (nbBytes * 8)); [|lia]. exact (sync_ret None). }
  unfold frame_from. apply (sync_view_bind Some); [by apply sync_header|]. intros s1.
  destruct (frame_header _ _ _ _ _ _ _ s1) as [[[pf tr] t] s2]. cbn [fst].
  apply (sync_view_bind fst); [by apply sync_sides|]. intros s3.
  assert (side_fact LM C tr (frame_sides (E := E) m start end_ C LM nbBytes true x tr t old error s3).1) as (T1 & T2 & T3).
  { unfold frame_sides, dec_bind. destruct (quant_coarse_energy_at _ _ _ _ _ _ _ s3) as [[st d1] s4].
    apply (side_facts m start end_ C LM nbBytes (with_transient tr x.(fi_decisions)) st.(cs_old) st.(cs_error) (fo_LM Hx)); [|done].
    exact (do_tf _ _ _ (fo_decisions Hx)). }
  destruct (frame_sides _ _ _ _ _ _ _ _ _ _ _ _ s3) as [[sd [er spr]] s4]. cbn [fst snd] in *.
  eapply sync_ext; [| |apply (sync_seq (frame_rest (E := E) (D := D) m start end_ C LM nbBytes disable_inv x true seed pf tr (spread_used true x spr) sd er)
    (fun f => dec_ret (Some f)) (rest_decode (E := E) (D := D) m start end_ C LM nbBytes disable_inv seed X' Y' pf tr sd)
    (fun f => dec_ret (Some f)))]; [|done| |intros; apply sync_done].
  - intros s. unfold view, dec_bind, dec_ret. by destruct (frame_rest _ _ _ _ _ _ _ _ _ _ _ _ _ _ _ s).
  - by apply sync_rest.
Qed.

(** Resynthesis does not change the packet. *)
Lemma frame_same_state mirror R1 R2 old error seed tell s :
  (frame_from (E := E) (D := D) m start end_ C LM nbBytes disable_inv mirror x R1 old error seed tell s).2
  = (frame_from (E := E) (D := D) m start end_ C LM nbBytes disable_inv mirror x R2 old error seed tell s).2.
Proof.
  revert s. assert (same_run (fun _ => tt)
    (frame_from (E := E) (D := D) m start end_ C LM nbBytes disable_inv mirror x R1 old error seed tell)
    (frame_from (E := E) (D := D) m start end_ C LM nbBytes disable_inv mirror x R2 old error seed tell)) as Hs;
    [|intros s; apply Hs].
  unfold frame_from. apply same_next. intros [[pf tr] t]. apply same_next. intros [sd [er spr]]. unfold frame_rest.
  eapply (same_bind (fun _ => tt)); [split; [apply resynth_same_state|done]|]. intros b1 b2 _.
  apply same_next. intros on. apply same_next. intros t'. apply same_next. intros [[o e] l]. by apply same_ret.
Qed.
End Sync.

(** ** The encoder takes the decoder's decisions

    A frame starts a packet, or follows other symbols in a hybrid packet. *)

Lemma tell_bits v k c : nend_bits c + k <= 32 ->
  ec_tell (RangeCoder.ec_enc_bits v k c) = ec_tell c + k /\ nend_bits (RangeCoder.ec_enc_bits v k c) = nend_bits c + k.
Proof.
  intros Hk. unfold RangeCoder.ec_enc_bits, EC_WINDOW_SIZE. cbv zeta. destruct (Z.gtb_spec (nend_bits c + k) 32); [lia|].
  unfold ec_tell. cbn. lia.
Qed.

(** After silence flag, prefilter flag and octave. *)
Lemma tell_octave b n o : 0 <= o <= 5 ->
  let c := RangeCoder.ec_enc_uint o 6 (RangeCoder.ec_enc_bit_logp true 1 (RangeCoder.ec_enc_bit_logp false 15 (ec_enc_init b n))) in
  ec_tell c <= 6 /\ nend_bits c = 0.
Proof.
  intros Ho. assert (o = 0 \/ o = 1 \/ o = 2 \/ o = 3 \/ o = 4 \/ o = 5) as [->|[->|[->|[->|[->| ->]]]]] by lia;
    vm_compute; split; congruence.
Qed.

Section Mirror.
Context `{A : SignalAnalysis}.
Context (start end_ C : Z) (LM : nat) (nbBytes : Z) (disable_inv : bool) (x : frame_in).
Abbreviation m := mode48000_960_120.
Abbreviation header := (frame_header (E := ec_ctx) (D := ec_ctx) start C LM nbBytes).

(** Where a frame may start. *)
Definition frame_start (c : ec_ctx) : Prop :=
  (start = 0 /\ (exists b, c = ec_enc_init b nbBytes) /\ 2 <= nbBytes) \/
  (start <> 0 /\ ec_tell c <> 1).

(** A prefilter that is coded has its room: [nbAvailableBytes], which decides on it, may be more than the packet has. *)
Definition prefilter_fits : Prop :=
  pf_enabled start C x.(fi_nbAvailableBytes) x.(fi_lfe) = true -> x.(fi_prefilter) <> None -> 3 <= nbBytes.

Lemma tapset_room p b : prefilter_ok p -> 3 <= nbBytes ->
  pf_code (E := ec_ctx) nbBytes false (Some p) (RangeCoder.ec_enc_bit_logp false 15 (ec_enc_init b nbBytes))
  = pf_code (E := ec_ctx) nbBytes true (Some p) (RangeCoder.ec_enc_bit_logp false 15 (ec_enc_init b nbBytes)).
Proof.
  intros (P1 & P2 & P3) Hn. destruct (octave_range (pitch_index p + 1) ltac:(lia)) as [O1 O2].
  cbn [pf_code]. unfold pf_params, dec_bind, emit, read. cbv zeta. cbn [negb orb].
  destruct (tell_octave b nbBytes _ O1) as [T1 T2]. set (o := EC_ILOG (pitch_index p + 1) - 5) in *.
  change (ec_enc_uint o 6 ?c) with (RangeCoder.ec_enc_uint o 6 c). change (ec_enc_bit_logp true 1 ?c) with (RangeCoder.ec_enc_bit_logp true 1 c).
  set (c3 := RangeCoder.ec_enc_uint o 6 _) in *.
  destruct (tell_bits (pitch_index p + 1 - Z.shiftl 16 o) (4 + o) c3 ltac:(lia)) as [T3 T4].
  change (ec_enc_bits ?v (4 + o) ?c) with (RangeCoder.ec_enc_bits v (4 + o) c). set (c4 := RangeCoder.ec_enc_bits _ (4 + o) c3) in *.
  destruct (tell_bits p.(qg) 3 c4 ltac:(lia)) as [T5 T6].
  change (ec_enc_bits ?v 3 ?c) with (RangeCoder.ec_enc_bits v 3 c). set (c5 := RangeCoder.ec_enc_bits _ 3 c4) in *.
  change (ec_tell_enc c5) with (ec_tell c5). assert ((ec_tell c5 + 2 <=? nbBytes * 8) = true) as -> by lia. done.
Qed.

(** Once [t] is the position, so it is for the rest of the header. *)
Lemma transient_mirror t tr c : t = ec_tell c ->
  exists b s, transient_encode (E := ec_ctx) LM nbBytes false t tr c = ((b, ec_tell s), s) /\
              transient_encode (E := ec_ctx) LM nbBytes true t tr c = ((b, ec_tell s), s).
Proof.
  intros ->. unfold transient_encode, tell_now, dec_bind, dec_ret, read, emit.
  change (ec_tell_enc c) with (ec_tell c). destruct (_ && _); eauto.
Qed.

Lemma header_mirror c :
  frame_start c -> prefilter_fits -> (forall pf, x.(fi_prefilter) = Some pf -> prefilter_ok pf) -> 1 <= C ->
  exists pf tr t s, header false x (ec_tell c) c = ((pf, tr, ec_tell s), s) /\ header true x (ec_tell c) c = ((pf, tr, t), s) /\
    (t + 3 <=? storage s * 8) = (ec_tell s + 3 <=? storage s * 8).
Proof.
  intros Hs Hfits Hpf HC. set (p := if pf_enabled start C x.(fi_nbAvailableBytes) x.(fi_lfe) then x.(fi_prefilter) else None).
  assert (forall s1 q c1, silence_encode (E := ec_ctx) (ec_tell c) c = (tt, s1) ->
    prefilter_encode (E := ec_ctx) start nbBytes false (ec_tell c) p s1 = ((q, ec_tell c1), c1) ->
    prefilter_encode (E := ec_ctx) start nbBytes true (ec_tell c) p s1 = ((q, ec_tell c1), c1) ->
    exists pf tr t s, header false x (ec_tell c) c = ((pf, tr, ec_tell s), s) /\ header true x (ec_tell c) c = ((pf, tr, t), s) /\
      (t + 3 <=? storage s * 8) = (ec_tell s + 3 <=? storage s * 8)) as Hrest.
  { intros s1 q c1 E1 E2 E3. destruct (transient_mirror (ec_tell c1) x.(fi_decisions).(d_isTransient) c1 eq_refl) as (b & s & E4 & E5).
    exists q, b, (ec_tell s), s. unfold frame_header, dec_bind. fold p. rewrite E1, E2, E3. rewrite E4, E5. done. }
  destruct Hs as [(H1 & (b & ->) & H2)|[H1 H2]].
  - change (ec_tell (ec_enc_init b nbBytes)) with 1 in *. set (c1 := RangeCoder.ec_enc_bit_logp false 15 (ec_enc_init b nbBytes)).
    assert (silence_encode (E := ec_ctx) 1 (ec_enc_init b nbBytes) = (tt, c1)) as Es by done.
    assert (forall q, p = Some q -> prefilter_ok q /\ 3 <= nbBytes) as Hp.
    { intros q. unfold p. destruct (pf_enabled _ _ _ _) eqn:Eq; [|done]. intros E. split; [by apply Hpf|].
      apply Hfits; [done|]. by rewrite E. }
    destruct (Z.leb_spec 3 nbBytes) as [Hn|Hn].
    + assert (exists q s, pf_code (E := ec_ctx) nbBytes false p c1 = (q, s) /\ pf_code (E := ec_ctx) nbBytes true p c1 = (q, s)) as (q & s & E1 & E2).
      { destruct p as [q|]; [|eauto]. destruct (Hp q eq_refl) as [P1 P2]. unfold c1. rewrite tapset_room by done.
        destruct (pf_code _ _ _ _) as [r s]. eauto. }
      apply (Hrest c1 q s); [done| |].
      all: unfold prefilter_encode; rewrite H1; change (0 =? 0) with true; assert ((1 + 16 <=? nbBytes * 8) = true) as -> by lia;
        cbn [andb]; unfold dec_bind; rewrite ?E1, ?E2; done.
    + assert (nbBytes = 2) as En by lia.
      assert (p = None) as Ep by (destruct p as [q|]; [destruct (Hp q eq_refl); lia|done]).
      unfold frame_header, dec_bind. fold p. rewrite Ep, Es. unfold prefilter_encode, transient_encode, tell_now, dec_bind, dec_ret, read, emit.
      rewrite En in *. change (1 + 16 <=? 2 * 8) with false. rewrite andb_false_r. cbn [negb].
      change (ec_tell_enc c1) with 2. change (2 + 3 <=? 2 * 8) with true. change (1 + 3 <=? 2 * 8) with true. rewrite andb_true_r.
      destruct (0 <? LM)%nat.
      * do 4 eexists. split; [done|]. by split.
      * exists no_postfilter, false, 1, c1. split; [reflexivity|split; [reflexivity|]].
        change (storage c1) with nbBytes. by rewrite En.
  - apply (Hrest c no_postfilter c).
    + unfold silence_encode. by rewrite (proj2 (Z.eqb_neq _ _) H2).
    + unfold prefilter_encode, p, pf_enabled. rewrite (proj2 (Z.eqb_neq _ _) H1), andb_false_r. done.
    + unfold prefilter_encode, p, pf_enabled. rewrite (proj2 (Z.eqb_neq _ _) H1), andb_false_r. done.
Qed.

(** ** Where the encoder goes its own way

    The three cases that remain: a prefilter is coded in a packet of two bytes, the first band of the coarse energies is
    cut to a single bit, and there is no room for the spread after a frame with another one. *)
Definition in_step (old error : list Z) (c : ec_ctx) : Prop :=
  let '((pf, tr, t), s) := header false x (ec_tell c) c in
  prefilter_fits /\
  coarse_passes_exact (coarse_of m start end_ C LM x) x.(fi_bandLogE) old error s = true /\
  (x.(fi_spread) = SPREAD_NORMAL \/ (frame_sides (E := ec_ctx) (D := ec_ctx) m start end_ C LM nbBytes false x tr t old error s).1.2.2 <> None).

(** The coarse energies use the position only to see if there is room for a flag. *)
Lemma coarse_at_tell a eBands old error d t t' s :
  (t + 3 <=? storage s * 8) = (t' + 3 <=? storage s * 8) ->
  quant_coarse_energy_at (E := ec_ctx) true a eBands old error d t s = quant_coarse_energy_at (E := ec_ctx) true a eBands old error d t' s.
Proof.
  intros Ht. unfold quant_coarse_energy_at. cbv zeta. change (ec_storage_enc s) with (storage s).
  assert (negb (t + 3 >? storage s * 8) = negb (t' + 3 >? storage s * 8)) as -> by (rewrite !Z.gtb_ltb, <- !Z.leb_antisym; exact Ht).
  unfold coarse_pass, quant_coarse_energy_impl. cbv zeta. by rewrite Ht.
Qed.

Lemma frame_mirror R old error seed c :
  frame_start c -> (forall pf, x.(fi_prefilter) = Some pf -> prefilter_ok pf) -> 1 <= C -> in_step old error c ->
  frame_from (E := ec_ctx) (D := ec_ctx) m start end_ C LM nbBytes disable_inv false x R old error seed (ec_tell c) c
  = frame_from (E := ec_ctx) (D := ec_ctx) m start end_ C LM nbBytes disable_inv true x R old error seed (ec_tell c) c.
Proof.
  intros Hs Hpf HC Hi. assert (prefilter_fits) as Hfits.
  { unfold in_step in Hi. destruct (header false x (ec_tell c) c) as [[[? ?] ?] ?]. apply Hi. }
  destruct (header_mirror c Hs Hfits Hpf HC) as (pf & tr & t & s & E1 & E2 & Et). unfold in_step in Hi. rewrite E1 in Hi.
  destruct Hi as (_ & Hx & Hsp). unfold frame_from, dec_bind. rewrite E1, E2.
  assert (frame_sides (E := ec_ctx) (D := ec_ctx) m start end_ C LM nbBytes false x tr (ec_tell s) old error s
          = frame_sides (E := ec_ctx) (D := ec_ctx) m start end_ C LM nbBytes true x tr t old error s) as Esd.
  { unfold frame_sides, dec_bind. rewrite (coarse_at_tell _ _ _ _ _ t (ec_tell s) s Et).
    pose proof (coarse_energy_exact (E := ec_ctx) (D := ec_ctx) (coarse_of m start end_ C LM x) x.(fi_bandLogE) old error
      x.(fi_delayedIntra) s HC Hx) as Ec. unfold quant_coarse_energy in Ec. change (ec_tell_enc s) with (ec_tell s) in Ec. by rewrite Ec. }
  rewrite <- Esd. destruct (frame_sides _ _ _ _ _ _ _ _ _ _ _ _ s) as [[sd [er spr]] s1]. cbn [fst snd] in Hsp.
  assert (spread_used false x spr = spread_used true x spr) as ->; [|done].
  unfold spread_used. destruct spr; [done|]. destruct Hsp as [-> |]; done.
Qed.
End Mirror.
