(* ===== verification/CeltProps.v ===== *)
(** * What a CELT frame guarantees *)

From S2P Require Import Prelude RangeCoder RangeRoundTrip RangeProps EntropyInterface EntropySeq CeltMode QuantBands QuantCoarse.
From S2P Require Import Rate CeltSide CeltSideProofs Theta AllBands BandsProps CeltFrame CeltFrameProofs.


(** ** Witness *)

(** A mono frame of 5 ms in 24 bytes, with prefilter, both energy passes and short blocks. *)
Definition demo_decisions : decisions := {|
  d_isTransient := true; d_tf_res := [1; 1; 0; 0; 0; 1; 0; 0]; d_tf_select := true; d_spread := 3;
  d_offsets := [0; 0; 2; 0; 0; 0; 0; 1]; d_trim := 4; d_intensity := 0; d_dual_stereo := false; d_prev := 8;
  d_signalBandwidth := 7
|}.






(** ** The check before the prefilter parameters

    The code takes [nbAvailableBytes] from the size of the buffer and then, at a constant
    bit rate below [OPUS_BITRATE_MAX], makes the packet smaller ([nbCompressedBytes]).  With a buffer of 100 bytes and a
    packet of 2 the prefilter is coded although the packet has no room for it. *)
Definition stale_frame : frame_in := {|
  fi_prefilter := Some {| pitch_index := 700; qg := 3; tapset := 1 |}; fi_decisions := demo_decisions;
  fi_bandLogE := repeat 0 21; fi_delayedIntra := 0; fi_nbAvailableBytes := 100; fi_force_intra := false; fi_loss_rate := 0;
  fi_lfe := false; fi_spread := 2; fi_complexity := 5; fi_bandE := []; fi_X := []; fi_Y := None; fi_anti_collapse_on := false
|}.

Lemma prefilter_without_room :
  let '((pf, _, tell), c) := frame_header (E := ec_ctx) (D := ec_ctx) 0 1 1 2 false stale_frame 1 (ec_enc_init (repeat 0 2) 2) in
  pf.(postfilter_pitch) = 700 /\ 2 * 8 < tell /\
  (header_decode (E := ec_ctx) (D := ec_ctx) 0 1 2 1 (ec_dec_init (buf (ec_enc_done c)) 2)).1 <> Some (pf, true, tell).
Proof. vm_compute. repeat split; congruence. Qed.
