(* ===== verification/OpusDecode.v ===== *)
(** * The Opus decoder (src/opus_decoder.c)

    The driver that turns packets into samples: it parses the packet, chooses
    between the SILK and the CELT decoder, conceals lost packets, recovers lost
    frames from redundancy, and fades between modes.  The two synthesis decoders
    are the class [Synthesis]; everything else of [opus_decode_frame] and
    [opus_decode_native] is here, every buffer access included.

    The sample buffers are arrays; an access outside an array or a failing
    [celt_assert] is the outcome [Fault].  A C function that changes the decoder
    and the samples and returns a number is a function to
    [res (OpusDecoder * list Z * Z)]: errors leave a state behind, too. *)

From S2P Require Import Prelude FixedPoint MathOps Memory Packet.
From S2P Require Import RangeCoder.

(** ** Tables and arithmetic *)

Definition window120 : list Z :=
  [2; 20; 55; 108; 178; 266; 372; 494; 635; 792; 966; 1157;
   1365; 1590; 1831; 2089; 2362; 2651; 2956; 3276; 3611; 3961; 4325; 4703;
   5094; 5499; 5916; 6346; 6788; 7241; 7705; 8179; 8663; 9156; 9657; 10167;
   10684; 11207; 11736; 12271; 12810; 13353; 13899; 14447; 14997; 15547; 16098; 16648;
   17197; 17744; 18287; 18827; 19363; 19893; 20418; 20936; 21447; 21950; 22445; 22931;
   23407; 23874; 24330; 24774; 25208; 25629; 26039; 26435; 26819; 27190; 27548; 27893;
   28224; 28541; 28845; 29135; 29411; 29674; 29924; 30160; 30384; 30594; 30792; 30977;
   31151; 31313; 31463; 31602; 31731; 31849; 31958; 32057; 32148; 32229; 32303; 32370;
   32429; 32481; 32528; 32568; 32604; 32634; 32661; 32683; 32701; 32717; 32729; 32740;
   32748; 32754; 32758; 32762; 32764; 32766; 32767; 32767; 32767; 32767; 32767; 32767].

Definition celt_exp2_frac (x : Z) : Z :=
  let frac := SHL16 x 4 in
  ADD16 16383 (MULT16_16_Q15 frac (ADD16 22804 (MULT16_16_Q15 frac
    (ADD16 14819 (MULT16_16_Q15 10204 frac))))).

Definition celt_exp2 (x : Z) : Z :=
  let integer := SHR16 x 10 in
  if integer >? 14 then 0x7f000000
  else if integer <? -15 then 0
  else
    let frac := i16 (celt_exp2_frac (i16 (x - SHL16 integer 10))) in
    VSHR32 (EXTEND32 frac) (- integer - 2).

Definition SAT16 (x : Z) : Z := if x >? 32767 then 32767 else if x <? -32768 then -32768 else i16 x.
Definition SATURATE (x a : Z) : Z := if x >? a then a else if x <? - a then - a else x.
Definition MULT16_32_P16 (a b : Z) : Z := i32 (Z.shiftr (i16 a * b + 32768) 16).

(** ** The decoder state *)

Record silk_DecControlStruct := {
  nChannelsAPI : Z;
  nChannelsInternal : Z;
  API_sampleRate : Z;
  internalSampleRate : Z;
  payloadSize_ms : Z;
  prevPitchLag : Z;
  enable_deep_plc : bool
}.

(** What a call of [silk_Decode] leaves behind: the decoder, the range decoder,
    the pitch lag it exports, its return value, [*nSamplesOut] and the samples
    it wrote at [samplesOut]. *)
Record silk_out (SILK : Type) := {
  so_state : SILK;
  so_dec : ec_ctx;
  so_prevPitchLag : Z;
  so_ret : Z;
  so_nSamplesOut : Z;
  so_samples : list Z
}.
Arguments so_state {_} _.
Arguments so_dec {_} _.
Arguments so_prevPitchLag {_} _.
Arguments so_ret {_} _.
Arguments so_nSamplesOut {_} _.
Arguments so_samples {_} _.

(** What a call of [celt_decode_with_ec] leaves behind; [co_pcm] is the block of
    samples it was given, as written. *)
Record celt_out (CELT : Type) := {
  co_state : CELT;
  co_dec : ec_ctx;
  co_ret : Z;
  co_pcm : list Z
}.
Arguments co_state {_} _.
Arguments co_dec {_} _.
Arguments co_ret {_} _.
Arguments co_pcm {_} _.

(** The requests that the driver makes of the CELT decoder. *)
Inductive celt_request :=
| CELT_RESET_STATE
| CELT_SET_COMPLEXITY (value : Z)
| CELT_SET_START_BAND (value : Z)
| CELT_SET_END_BAND (value : Z)
| CELT_SET_CHANNELS (value : Z)
| CELT_SET_PHASE_INVERSION_DISABLED (value : Z)
| CELT_GET_PITCH
| CELT_GET_MODE
| CELT_GET_FINAL_RANGE
| CELT_GET_PHASE_INVERSION_DISABLED.

(** What [opus_custom_decoder_ctl] returns, for pointers that are not null and a mode of [nbEBands] bands. *)
Definition celt_ctl_ret (nbEBands : Z) (request : celt_request) : Z :=
  match request with
  | CELT_SET_COMPLEXITY value => if (value <? 0) || (value >? 10) then OPUS_BAD_ARG else OPUS_OK
  | CELT_SET_START_BAND value => if (value <? 0) || (value >=? nbEBands) then OPUS_BAD_ARG else OPUS_OK
  | CELT_SET_END_BAND value => if (value <? 1) || (value >? nbEBands) then OPUS_BAD_ARG else OPUS_OK
  | CELT_SET_CHANNELS value => if (value <? 1) || (value >? 2) then OPUS_BAD_ARG else OPUS_OK
  | CELT_SET_PHASE_INVERSION_DISABLED value => if (value <? 0) || (value >? 1) then OPUS_BAD_ARG else OPUS_OK
  | CELT_RESET_STATE | CELT_GET_PITCH | CELT_GET_MODE | CELT_GET_FINAL_RANGE | CELT_GET_PHASE_INVERSION_DISABLED => OPUS_OK
  end.

(** The bands of the standard mode. *)
Definition std_nbEBands : Z := 21.

(** The synthesis decoders, as the driver uses them.  [celt_update] is the state after a request that
    was accepted.  [celt_decode_with_ec] gets
    the bytes of the frame ([None] for a null pointer) and their number, the
    samples of its output buffer (read when it accumulates), the frame size, the
    range decoder when it shares one, and the accumulation flag. *)
Class Synthesis (SILK CELT : Type) := {
  silk_ResetDecoder : SILK -> SILK;
  silk_Decode : SILK -> silk_DecControlStruct -> Z -> bool -> ec_ctx -> silk_out SILK;
  celt_update : celt_request -> CELT -> CELT;
  celt_get_phase_inversion_disabled : CELT -> Z;
  celt_get_pitch : CELT -> Z;
  celt_get_final_range : CELT -> Z;
  celt_decode_with_ec : CELT -> option (list Z) -> Z -> list Z -> Z -> option ec_ctx -> bool -> celt_out CELT
}.

Record OpusDecoder (SILK CELT : Type) := Mk_OpusDecoder {
  silk_dec : SILK;
  celt_dec : CELT;
  channels : Z;
  Fs : Z;
  DecControl : silk_DecControlStruct;
  decode_gain : Z;
  complexity : Z;
  stream_channels : Z;
  bandwidth : Z;
  mode : Z;
  prev_mode : Z;
  frame_size : Z;
  prev_redundancy : bool;
  last_packet_duration : Z;
  rangeFinal : Z
}.
Arguments Mk_OpusDecoder {_ _} _ _ _ _ _ _ _ _ _ _ _ _ _ _ _.
Arguments silk_dec {_ _} _.
Arguments celt_dec {_ _} _.
Arguments channels {_ _} _.
Arguments Fs {_ _} _.
Arguments DecControl {_ _} _.
Arguments decode_gain {_ _} _.
Arguments complexity {_ _} _.
Arguments stream_channels {_ _} _.
Arguments bandwidth {_ _} _.
Arguments mode {_ _} _.
Arguments prev_mode {_ _} _.
Arguments frame_size {_ _} _.
Arguments prev_redundancy {_ _} _.
Arguments last_packet_duration {_ _} _.
Arguments rangeFinal {_ _} _.

(** The requests of [opus_decoder_ctl] that are compiled without neural weights
    in a file. *)
Inductive decoder_request :=
| DEC_GET_BANDWIDTH
| DEC_SET_COMPLEXITY (value : Z)
| DEC_GET_COMPLEXITY
| DEC_GET_FINAL_RANGE
| DEC_RESET_STATE
| DEC_GET_SAMPLE_RATE
| DEC_GET_PITCH
| DEC_GET_GAIN
| DEC_SET_GAIN (value : Z)
| DEC_GET_LAST_PACKET_DURATION
| DEC_SET_PHASE_INVERSION_DISABLED (value : Z)
| DEC_GET_PHASE_INVERSION_DISABLED
| DEC_UNKNOWN.

Section Decoder.
Context {SILK CELT : Type}.
Abbreviation decoder := (OpusDecoder SILK CELT).

Definition set_silk (v : SILK) (st : decoder) : decoder :=
  Mk_OpusDecoder v st.(celt_dec) st.(channels) st.(Fs) st.(DecControl) st.(decode_gain) st.(complexity)
    st.(stream_channels) st.(bandwidth) st.(mode) st.(prev_mode) st.(frame_size) st.(prev_redundancy)
    st.(last_packet_duration) st.(rangeFinal).
Definition set_celt (v : CELT) (st : decoder) : decoder :=
  Mk_OpusDecoder st.(silk_dec) v st.(channels) st.(Fs) st.(DecControl) st.(decode_gain) st.(complexity)
    st.(stream_channels) st.(bandwidth) st.(mode) st.(prev_mode) st.(frame_size) st.(prev_redundancy)
    st.(last_packet_duration) st.(rangeFinal).
Definition set_control (v : silk_DecControlStruct) (st : decoder) : decoder :=
  Mk_OpusDecoder st.(silk_dec) st.(celt_dec) st.(channels) st.(Fs) v st.(decode_gain) st.(complexity)
    st.(stream_channels) st.(bandwidth) st.(mode) st.(prev_mode) st.(frame_size) st.(prev_redundancy)
    st.(last_packet_duration) st.(rangeFinal).
(** [st->mode], [st->bandwidth], [st->frame_size] and [st->stream_channels]. *)
Definition set_packet (m b f s : Z) (st : decoder) : decoder :=
  Mk_OpusDecoder st.(silk_dec) st.(celt_dec) st.(channels) st.(Fs) st.(DecControl) st.(decode_gain)
    st.(complexity) s b m st.(prev_mode) f st.(prev_redundancy) st.(last_packet_duration) st.(rangeFinal).
(** [st->rangeFinal], [st->prev_mode] and [st->prev_redundancy]. *)
Definition set_prev (r m : Z) (red : bool) (st : decoder) : decoder :=
  Mk_OpusDecoder st.(silk_dec) st.(celt_dec) st.(channels) st.(Fs) st.(DecControl) st.(decode_gain)
    st.(complexity) st.(stream_channels) st.(bandwidth) st.(mode) m st.(frame_size) red
    st.(last_packet_duration) r.
(** [st->decode_gain] and [st->complexity]. *)
Definition set_options (g c : Z) (st : decoder) : decoder :=
  Mk_OpusDecoder st.(silk_dec) st.(celt_dec) st.(channels) st.(Fs) st.(DecControl) g c
    st.(stream_channels) st.(bandwidth) st.(mode) st.(prev_mode) st.(frame_size) st.(prev_redundancy)
    st.(last_packet_duration) st.(rangeFinal).
Definition set_duration (v : Z) (st : decoder) : decoder :=
  Mk_OpusDecoder st.(silk_dec) st.(celt_dec) st.(channels) st.(Fs) st.(DecControl) st.(decode_gain)
    st.(complexity) st.(stream_channels) st.(bandwidth) st.(mode) st.(prev_mode) st.(frame_size)
    st.(prev_redundancy) v st.(rangeFinal).

Definition F20 (st : decoder) : Z := st.(Fs) / 50.
Definition F10 (st : decoder) : Z := Z.shiftr (F20 st) 1.
Definition F5 (st : decoder) : Z := Z.shiftr (F10 st) 1.
Definition F2_5 (st : decoder) : Z := Z.shiftr (F5 st) 1.
End Decoder.

(** ** Fades *)

(** [n] samples from sample [j] on of [smooth_fade], whose channels are
    interleaved: each is read before it is written, so [out] may be one of the
    inputs. *)
Fixpoint smooth_fade_from (n : nat) (j : Z) (in1 in2 : list Z) (chans inc : Z) : res (list Z) :=
  match n with
  | O => Ok []
  | S n =>
      x ← get window120 (j / chans * inc);
      let w := MULT16_16_Q15 x x in
      a ← get in1 j;
      b ← get in2 j;
      let y := i16 (SHR32 (ADD32 (MULT16_16 w b) (MULT16_16 (Q15ONE - w) a)) 15) in
      l ← smooth_fade_from n (j + 1) in1 in2 chans inc;
      Ok (y :: l)
  end.

Definition smooth_fade (in1 in2 : list Z) (overlap chans Fs : Z) : res (list Z) :=
  smooth_fade_from (Z.to_nat (overlap * chans)) 0 in1 in2 chans (48000 / Fs).

(** ** Decoding one frame *)

Section Frame.
Context `{Synthesis SILK CELT}.
Abbreviation decoder := (OpusDecoder SILK CELT).
(** What uninitialised variables of the stack hold. *)
Context (junk : Z) (junk_dec : ec_ctx).
(** [celt_decoder_ctl]: the decoder and the return value; and with [MUST_SUCCEED], which asserts that it is [OPUS_OK]. *)
Definition celt_decoder_ctl (request : celt_request) (st : decoder) : decoder * Z :=
  let ret := celt_ctl_ret std_nbEBands request in
  (if ret =? OPUS_OK then set_celt (celt_update request st.(celt_dec)) st else st, ret).
Definition must_ctl (request : celt_request) (st : decoder) : res decoder :=
  let '(st, ret) := celt_decoder_ctl request st in if ret =? OPUS_OK then Ok st else Fault.

(** The recursive calls of [opus_decode_frame]: the decoder, the bytes ([None]
    for a null pointer) and their number, the sample array and the index of the
    output in it, the frame size and [decode_fec]. *)
Context (rec : decoder -> option (list Z) -> Z -> list Z -> Z -> Z -> bool -> res (decoder * list Z * Z)).

(** [do ... while (audiosize > 0)]: concealment in pieces of at most 20 ms. *)
Fixpoint plc_pieces (fuel : nat) (st : decoder) (pcm : list Z) (p audiosize : Z)
    : res (decoder * list Z * Z) :=
  match fuel with
  | O => Fault
  | S fuel =>
      '(st, pcm, ret) ← rec st None 0 pcm p (Z.min audiosize (F20 st)) false;
      if ret <? 0 then Ok (st, pcm, ret)
      else
        let p := p + ret * st.(channels) in
        let audiosize := audiosize - ret in
        if audiosize >? 0 then plc_pieces fuel st pcm p audiosize else Ok (st, pcm, 0)
  end.

(** [DecControl] before SILK runs. *)
Definition silk_control (st : decoder) (lost : bool) (m b audiosize : Z) : res silk_DecControlStruct :=
  let c := st.(DecControl) in
  '(ci, rate) ←
    (if lost then Ok (c.(nChannelsInternal), c.(internalSampleRate))
     else if m =? MODE_SILK_ONLY then
       if b =? 1101 then Ok (st.(stream_channels), 8000)
       else if b =? 1102 then Ok (st.(stream_channels), 12000)
       else if b =? 1103 then Ok (st.(stream_channels), 16000)
       else Fault
     else Ok (st.(stream_channels), 16000));
  Ok {| nChannelsAPI := c.(nChannelsAPI); nChannelsInternal := ci;
        API_sampleRate := c.(API_sampleRate); internalSampleRate := rate;
        payloadSize_ms := Z.max 10 (1000 * audiosize / st.(Fs));
        prevPitchLag := c.(prevPitchLag); enable_deep_plc := st.(complexity) >=? 5 |}.

Definition set_pitch (v : Z) (c : silk_DecControlStruct) : silk_DecControlStruct :=
  {| nChannelsAPI := c.(nChannelsAPI); nChannelsInternal := c.(nChannelsInternal);
     API_sampleRate := c.(API_sampleRate); internalSampleRate := c.(internalSampleRate);
     payloadSize_ms := c.(payloadSize_ms); prevPitchLag := v; enable_deep_plc := c.(enable_deep_plc) |}.

(** [do ... while( decoded_samples < frame_size )]: the calls of [silk_Decode],
    writing to [out] at [q].  The last component says that decoding failed. *)
Fixpoint silk_calls (fuel : nat) (st : decoder) (dec : ec_ctx) (out : list Z) (q frame_size lost_flag decoded : Z)
    : res (decoder * ec_ctx * list Z * bool) :=
  match fuel with
  | O => Fault
  | S fuel =>
      let o := silk_Decode st.(silk_dec) st.(DecControl) lost_flag (decoded =? 0) dec in
      let st := set_control (set_pitch o.(so_prevPitchLag) st.(DecControl)) (set_silk o.(so_state) st) in
      out ← store out q o.(so_samples);
      if negb (o.(so_ret) =? 0) && (lost_flag =? 0) then Ok (st, o.(so_dec), out, true)
      else
        '(n, out) ←
          (if negb (o.(so_ret) =? 0) then
             out ← store out q (repeat 0 (Z.to_nat (frame_size * st.(channels))));
             Ok (frame_size, out)
           else Ok (o.(so_nSamplesOut), out));
        let decoded := decoded + n in
        if decoded <? frame_size then
          silk_calls fuel st o.(so_dec) out (q + n * st.(channels)) frame_size lost_flag decoded
        else Ok (st, o.(so_dec), out, false)
  end.

(** The SILK layer: it writes to the output when CELT adds to it, else to
    [pcm_silk].  Returned are also both buffers. *)
Definition silk_stage (st : decoder) (data : option (list Z)) (dec : ec_ctx) (pcm : list Z)
    (p frame_size m b audiosize : Z) (decode_fec celt_accum : bool)
    : res (decoder * ec_ctx * list Z * list Z * bool) :=
  let size := if negb (m =? MODE_CELT_ONLY) && negb celt_accum
              then Z.max (F10 st) frame_size * st.(channels) else 0 in
  let pcm_silk := repeat junk (Z.to_nat size) in
  if m =? MODE_CELT_ONLY then Ok (st, dec, pcm, pcm_silk, false)
  else
    let st := if st.(prev_mode) =? MODE_CELT_ONLY then set_silk (silk_ResetDecoder st.(silk_dec)) st else st in
    let lost := match data with None => true | Some _ => false end in
    c ← silk_control st lost m b audiosize;
    let st := set_control c st in
    let lost_flag := if lost then 1 else 2 * b2z decode_fec in
    if celt_accum then
      '(st, dec, pcm, bad) ← silk_calls (Z.to_nat frame_size) st dec pcm p frame_size lost_flag 0;
      Ok (st, dec, pcm, pcm_silk, bad)
    else
      '(st, dec, pcm_silk, bad) ← silk_calls (Z.to_nat frame_size) st dec pcm_silk 0 frame_size lost_flag 0;
      Ok (st, dec, pcm, pcm_silk, bad).

(** The redundant frame announced behind the SILK data: the range decoder, the
    bytes left, [redundancy], [celt_to_silk] and [redundancy_bytes]. *)
Definition redundancy_header (dec : ec_ctx) (len m : Z) : ec_ctx * Z * bool * bool * Z :=
  let '(redundancy, dec) := if m =? MODE_HYBRID then ec_dec_bit_logp 12 dec else (true, dec) in
  if redundancy then
    let '(celt_to_silk, dec) := ec_dec_bit_logp 1 dec in
    let '(redundancy_bytes, dec) :=
      if m =? MODE_HYBRID then let '(x, dec) := ec_dec_uint 256 dec in (x + 2, dec)
      else (len - Z.shiftr (ec_tell dec + 7) 3, dec) in
    let len := len - redundancy_bytes in
    let '(len, redundancy_bytes, redundancy) :=
      if len * 8 <? ec_tell dec then (0, 0, false) else (len, redundancy_bytes, true) in
    (set_storage (dec.(storage) - redundancy_bytes) dec, len, redundancy, celt_to_silk, redundancy_bytes)
  else (dec, len, false, false, 0).

Definition redundancy_stage (data : option (list Z)) (dec : ec_ctx) (len m : Z) (decode_fec : bool)
    : ec_ctx * Z * bool * bool * Z :=
  let present := match data with None => false | Some _ => true end in
  if negb decode_fec && negb (m =? MODE_CELT_ONLY) && present
     && (ec_tell dec + 17 + 20 * b2z (m =? MODE_HYBRID) <=? 8 * len)
  then redundancy_header dec len m else (dec, len, false, false, 0).

(** A call of [celt_decode_with_ec] on the samples at [p]. *)
Definition celt_call (st : decoder) (data : option (list Z)) (len : Z) (pcm : list Z) (p frame_size : Z)
    (dec : option ec_ctx) (accum : bool) : res (decoder * list Z * celt_out CELT) :=
  block ← load pcm p (frame_size * st.(channels));
  let o := celt_decode_with_ec st.(celt_dec) data len block frame_size dec accum in
  pcm ← store pcm p o.(co_pcm);
  Ok (set_celt o.(co_state) st, pcm, o).

(** [switch(bandwidth)] *)
Definition endband (b : Z) : res Z :=
  if b =? 1101 then Ok 13
  else if (b =? 1102) || (b =? 1103) then Ok 17
  else if b =? 1104 then Ok 19
  else if b =? 1105 then Ok 21 else Fault.

(** The CELT layer and the sum of the layers: the decoder, the range decoder,
    the samples and [celt_ret]. *)
Definition celt_stage (st : decoder) (data : option (list Z)) (len : Z) (dec : ec_ctx) (pcm pcm_silk : list Z)
    (p frame_size m : Z) (decode_fec celt_accum redundancy celt_to_silk : bool)
    : res (decoder * ec_ctx * list Z * Z) :=
  '(st, dec, pcm, celt_ret) ←
    (if negb (m =? MODE_SILK_ONLY) then
       let celt_frame_size := Z.min (F20 st) frame_size in
       st ← (if negb (m =? st.(prev_mode)) && (st.(prev_mode) >? 0) && negb st.(prev_redundancy)
             then must_ctl CELT_RESET_STATE st else Ok st);
       '(st, pcm, o) ← celt_call st (if decode_fec then None else data) len pcm p celt_frame_size (Some dec) celt_accum;
       Ok (st, o.(co_dec), pcm, o.(co_ret))
     else
       pcm ← (if negb celt_accum
              then store pcm p (repeat 0 (Z.to_nat (frame_size * st.(channels)))) else Ok pcm);
       if (st.(prev_mode) =? MODE_HYBRID) && negb (redundancy && celt_to_silk && st.(prev_redundancy)) then
         st ← must_ctl (CELT_SET_START_BAND 0) st;
         '(st, pcm, _) ← celt_call st (Some [0xFF; 0xFF]) 2 pcm p (F2_5 st) None celt_accum;
         Ok (st, dec, pcm, 0)
       else Ok (st, dec, pcm, 0));
  if negb (m =? MODE_CELT_ONLY) && negb celt_accum then
    x ← load pcm p (frame_size * st.(channels));
    y ← load pcm_silk 0 (frame_size * st.(channels));
    pcm ← store pcm p (zip_with (fun a b => SAT16 (ADD32 a b)) x y);
    Ok (st, dec, pcm, celt_ret)
  else Ok (st, dec, pcm, celt_ret).

(** [smooth_fade] from [a] (array and index) to the output at [q]. *)
Definition fade_to (st : decoder) (a : list Z) (i : Z) (b : list Z) (j : Z) (pcm : list Z) (q : Z) : res (list Z) :=
  let n := F2_5 st * st.(channels) in
  x ← load a i n;
  y ← load b j n;
  z ← smooth_fade x y (F2_5 st) st.(channels) st.(Fs);
  store pcm q z.

(** [for] loops that copy the first 2.5 ms. *)
Definition copy_start (st : decoder) (a pcm : list Z) (p : Z) : res (list Z) :=
  x ← load a 0 (F2_5 st * st.(channels)); store pcm p x.

(** The redundant CELT frame, from the first band on: the decoder, its samples and its final range. *)
Definition redundant_frame (st : decoder) (data : option (list Z)) (len redundancy_bytes : Z)
    : res (decoder * list Z * Z) :=
  match data with
  | None => Fault
  | Some l =>
      st ← must_ctl (CELT_SET_START_BAND 0) st;
      bytes ← load l len redundancy_bytes;
      '(st, audio, _) ← celt_call st (Some bytes) redundancy_bytes
        (repeat junk (Z.to_nat (F5 st * st.(channels)))) 0 (F5 st) None false;
      st ← must_ctl CELT_GET_FINAL_RANGE st;
      Ok (st, audio, celt_get_final_range st.(celt_dec))
  end.

(** The fades into and out of redundant frames and of mode changes. *)
Definition transition_stage (st : decoder) (pcm : list Z) (p audiosize : Z) (transition : bool)
    (pcm_transition : list Z) : res (list Z) :=
  if transition then
    let h := st.(channels) * F2_5 st in
    if audiosize >=? F5 st then
      pcm ← copy_start st pcm_transition pcm p;
      fade_to st pcm_transition h pcm (p + h) pcm (p + h)
    else fade_to st pcm_transition 0 pcm p pcm p
  else Ok pcm.

(** [if(st->decode_gain)] *)
Definition gain_stage (st : decoder) (pcm : list Z) (p frame_size : Z) : res (list Z) :=
  if st.(decode_gain) =? 0 then Ok pcm
  else
    let gain := celt_exp2 (i16 (MULT16_16_P15 21771 st.(decode_gain))) in
    x ← load pcm p (frame_size * st.(channels));
    store pcm p (map (fun v => i16 (SATURATE (MULT16_32_P16 v gain) 32767)) x).

(** [pcm_transition]: the concealment of the previous mode, into a buffer of 5 ms. *)
Definition conceal (st : decoder) (on : bool) (audiosize : Z) : res (decoder * list Z) :=
  if on then
    '(st, pcm_transition, _) ← rec st None 0 (repeat junk (Z.to_nat (F5 st * st.(channels)))) 0
                                 (Z.min (F5 st) audiosize) false;
    Ok (st, pcm_transition)
  else Ok (st, []).

(** All that follows the redundancy header and the concealment of the old mode;
    [frame_size] is [audiosize] by now. *)
Definition decode_frame_rest (st : decoder) (data : option (list Z)) (dec : ec_ctx) (len : Z) (pcm pcm_silk : list Z)
    (p frame_size m b : Z) (decode_fec celt_accum transition redundancy celt_to_silk : bool) (redundancy_bytes : Z)
    (pcm_transition : list Z) : res (decoder * list Z * Z) :=
  let start_band := if negb (m =? MODE_CELT_ONLY) then 17 else 0 in
  st ← (if negb (b =? 0) then e ← endband b; must_ctl (CELT_SET_END_BAND e) st else Ok st);
  st ← must_ctl (CELT_SET_CHANNELS st.(stream_channels)) st;
  '(st, redundant_audio, redundant_rng) ←
    (if redundancy && celt_to_silk
     then redundant_frame st data len redundancy_bytes else Ok (st, [], 0));
  st ← must_ctl (CELT_SET_START_BAND start_band) st;
  '(st, dec, pcm, celt_ret) ← celt_stage st data len dec pcm pcm_silk p frame_size m decode_fec celt_accum
                                redundancy celt_to_silk;
  st ← must_ctl CELT_GET_MODE st;
  let h := st.(channels) * F2_5 st in
  '(st, pcm, redundant_audio, redundant_rng) ←
    (if redundancy && negb celt_to_silk then
       st ← must_ctl CELT_RESET_STATE st;
       '(st, redundant_audio, redundant_rng) ← redundant_frame st data len redundancy_bytes;
       let q := p + st.(channels) * (frame_size - F2_5 st) in
       pcm ← fade_to st pcm q redundant_audio h pcm q;
       Ok (st, pcm, redundant_audio, redundant_rng)
     else Ok (st, pcm, redundant_audio, redundant_rng));
  pcm ← (if redundancy && celt_to_silk && (negb (st.(prev_mode) =? MODE_SILK_ONLY) || st.(prev_redundancy)) then
           pcm ← copy_start st redundant_audio pcm p;
           fade_to st redundant_audio h pcm (p + h) pcm (p + h)
         else Ok pcm);
  pcm ← transition_stage st pcm p frame_size transition pcm_transition;
  pcm ← gain_stage st pcm p frame_size;
  let rng := if len <=? 1 then 0 else Z.lxor dec.(rng) redundant_rng in
  Ok (set_prev rng m (redundancy && negb celt_to_silk) st, pcm, if celt_ret <? 0 then celt_ret else frame_size).

(** From "In fixed-point, we can tell CELT ..." on: [audiosize], [m] and [b] are
    what the packet or the concealment asks for. *)
Definition decode_frame_main (st : decoder) (data : option (list Z)) (len : Z) (pcm : list Z) (p frame_size : Z)
    (decode_fec : bool) (audiosize m b : Z) : res (decoder * list Z * Z) :=
  let present := match data with None => false | Some _ => true end in
  let celt_accum := negb (m =? MODE_CELT_ONLY) && (frame_size >=? F10 st) in
  let transition := present && (st.(prev_mode) >? 0) &&
    ((m =? MODE_CELT_ONLY) && negb (st.(prev_mode) =? MODE_CELT_ONLY) && negb st.(prev_redundancy)
     || negb (m =? MODE_CELT_ONLY) && (st.(prev_mode) =? MODE_CELT_ONLY)) in
  '(st, pcm_transition) ← conceal st (transition && (m =? MODE_CELT_ONLY)) audiosize;
  if audiosize >? frame_size then Ok (st, pcm, OPUS_BAD_ARG)
  else
    let frame_size := audiosize in
    let dec := match data with None => junk_dec | Some l => ec_dec_init l len end in
    '(st, dec, pcm, pcm_silk, bad) ← silk_stage st data dec pcm p frame_size m b audiosize decode_fec celt_accum;
    if (bad : bool) then Ok (st, pcm, OPUS_INTERNAL_ERROR)
    else
      let '(dec, len, redundancy, celt_to_silk, redundancy_bytes) := redundancy_stage data dec len m decode_fec in
      let transition := transition && negb redundancy in
      '(st, pcm_transition) ←
        (if transition && negb (m =? MODE_CELT_ONLY) then conceal st true audiosize else Ok (st, pcm_transition));
      decode_frame_rest st data dec len pcm pcm_silk p frame_size m b decode_fec celt_accum transition redundancy
        celt_to_silk redundancy_bytes pcm_transition.

(** The size of a concealed frame, at most 20 ms. *)
Definition plc_audiosize (st : decoder) (m audiosize : Z) : Z :=
  if audiosize <? F20 st then
    if audiosize >? F10 st then F10 st
    else if negb (m =? MODE_SILK_ONLY) && (audiosize >? F5 st) && (audiosize <? F10 st) then F5 st
    else audiosize
  else audiosize.

Definition decode_frame_body (st : decoder) (data : option (list Z)) (len : Z) (pcm : list Z) (p frame_size : Z)
    (decode_fec : bool) : res (decoder * list Z * Z) :=
  if frame_size <? F2_5 st then Ok (st, pcm, OPUS_BUFFER_TOO_SMALL)
  else
    let frame_size := Z.min frame_size (st.(Fs) / 25 * 3) in
    match (if len <=? 1 then None else data) with
    | Some l => decode_frame_main st (Some l) len pcm p frame_size decode_fec
                  st.(OpusDecode.frame_size) st.(mode) st.(bandwidth)
    | None =>
        let frame_size := if len <=? 1 then Z.min frame_size st.(OpusDecode.frame_size) else frame_size in
        let audiosize := frame_size in
        let m := if st.(prev_redundancy) then MODE_CELT_ONLY else st.(prev_mode) in
        if m =? 0 then
          pcm ← store pcm p (repeat 0 (Z.to_nat (audiosize * st.(channels)))); Ok (st, pcm, audiosize)
        else if audiosize >? F20 st then
          '(st, pcm, ret) ← plc_pieces (Z.to_nat audiosize) st pcm p audiosize;
          Ok (st, pcm, if ret <? 0 then ret else frame_size)
        else decode_frame_main st None len pcm p frame_size decode_fec (plc_audiosize st m audiosize) m 0
    end.
End Frame.

(** ** Decoding a packet *)

Section Native.
Context `{Synthesis SILK CELT} (junk : Z) (junk_dec : ec_ctx).
Abbreviation decoder := (OpusDecoder SILK CELT).

Fixpoint opus_decode_frame (fuel : nat) (st : decoder) (data : option (list Z)) (len : Z) (pcm : list Z)
    (p frame_size : Z) (decode_fec : bool) : res (decoder * list Z * Z) :=
  match fuel with
  | O => Fault
  | S fuel => decode_frame_body junk junk_dec (opus_decode_frame fuel) st data len pcm p frame_size decode_fec
  end.

(** A frame asks for concealment, and long concealment for its pieces, but
    neither for more. *)
Abbreviation decode_frame := (opus_decode_frame 2).

(** [do ... while (pcm_count < frame_size)] *)
Fixpoint plc_loop (fuel : nat) (st : decoder) (pcm : list Z) (p frame_size pcm_count : Z)
    : res (decoder * list Z * Z) :=
  match fuel with
  | O => Fault
  | S fuel =>
      '(st, pcm, ret) ← decode_frame st None 0 pcm (p + pcm_count * st.(channels)) (frame_size - pcm_count) false;
      if ret <? 0 then Ok (st, pcm, ret)
      else
        let pcm_count := pcm_count + ret in
        if pcm_count <? frame_size then plc_loop fuel st pcm p frame_size pcm_count
        else if negb (pcm_count =? frame_size) then Fault
        else Ok (set_duration pcm_count st, pcm, pcm_count)
  end.

(** [opus_decode_native] without data. *)
Definition decode_lost (st : decoder) (pcm : list Z) (p frame_size : Z) : res (decoder * list Z * Z) :=
  if negb (Z.rem frame_size (st.(Fs) / 400) =? 0) then Ok (st, pcm, OPUS_BAD_ARG)
  else plc_loop (Z.to_nat frame_size + 1) st pcm p frame_size 0.

(** The loop over the [n] frames from frame [i] on, whose bytes begin at [d]. *)
Fixpoint decode_frames (n : nat) (i : Z) (packet : list Z) (d : Z) (size : list Z) (st : decoder) (pcm : list Z)
    (p frame_size packet_frame_size nb_samples : Z) : res (decoder * list Z * Z) :=
  match n with
  | O => Ok (set_duration nb_samples st, pcm, nb_samples)
  | S n =>
      data ← load packet d size.[i];
      '(st, pcm, ret) ← decode_frame st (Some data) size.[i] pcm (p + nb_samples * st.(channels))
                          (frame_size - nb_samples) false;
      if ret <? 0 then Ok (st, pcm, ret)
      else if negb (ret =? packet_frame_size) then Fault
      else decode_frames n (i + 1) packet (d + size.[i]) size st pcm p frame_size packet_frame_size (nb_samples + ret)
  end.

(** The recovery of a lost packet from the redundancy in the first frame. *)
Definition decode_fec_packet (st : decoder) (packet : list Z) (d : Z) (size : list Z) (pcm : list Z) (p frame_size : Z)
    (packet_mode packet_bandwidth packet_frame_size packet_stream_channels : Z) : res (decoder * list Z * Z) :=
  if (frame_size <? packet_frame_size) || (packet_mode =? MODE_CELT_ONLY) || (st.(mode) =? MODE_CELT_ONLY) then
    decode_lost st pcm p frame_size
  else
    let duration_copy := st.(last_packet_duration) in
    '(st, pcm, ret) ←
      (if negb (frame_size - packet_frame_size =? 0) then
         '(st, pcm, ret) ← decode_lost st pcm p (frame_size - packet_frame_size);
         if ret <? 0 then Ok (set_duration duration_copy st, pcm, ret)
         else if negb (ret =? frame_size - packet_frame_size) then Fault
         else Ok (st, pcm, ret)
       else Ok (st, pcm, 0));
    if ret <? 0 then Ok (st, pcm, ret)
    else
      let st := set_packet packet_mode packet_bandwidth packet_frame_size packet_stream_channels st in
      data ← load packet d size.[0];
      '(st, pcm, ret) ← decode_frame st (Some data) size.[0] pcm
                          (p + st.(channels) * (frame_size - packet_frame_size)) packet_frame_size true;
      if ret <? 0 then Ok (st, pcm, ret)
      else Ok (set_duration frame_size st, pcm, frame_size).

(** The decoder, the samples, the return value and [*packet_offset]; [size] is
    the array of frame sizes as allocated. *)
Definition opus_decode_native (st : decoder) (data : option (list Z)) (len : Z) (pcm : list Z) (p frame_size : Z)
    (decode_fec : Z) (self_delimited : bool) (size : list Z) : res (decoder * list Z * Z * Z) :=
  let no_offset (r : res (decoder * list Z * Z)) := '(st, pcm, ret) ← r; Ok (st, pcm, ret, 0) in
  if (decode_fec <? 0) || (decode_fec >? 1) then Ok (st, pcm, OPUS_BAD_ARG, 0)
  else
    let lost := (len =? 0) || match data with None => true | Some _ => false end in
    if (negb (decode_fec =? 0) || lost) && negb (Z.rem frame_size (st.(Fs) / 400) =? 0)
    then Ok (st, pcm, OPUS_BAD_ARG, 0)
    else if lost then no_offset (decode_lost st pcm p frame_size)
    else if len <? 0 then Ok (st, pcm, OPUS_BAD_ARG, 0)
    else
      match data with
      | None => Fault
      | Some packet =>
          packet_mode ← opus_packet_get_mode packet;
          packet_bandwidth ← opus_packet_get_bandwidth packet;
          packet_frame_size ← opus_packet_get_samples_per_frame packet st.(Fs);
          packet_stream_channels ← opus_packet_get_nb_channels packet;
          match opus_packet_parse_impl packet len self_delimited size with
          | Fault => Fault
          | Err c => Ok (st, pcm, c, 0)
          | Ok r =>
              let '(count, size, d, packet_offset) :=
                (r.(pr_count), r.(pr_size), r.(pr_payload_offset), r.(pr_packet_offset)) in
              let offset (r : res (decoder * list Z * Z)) := '(st, pcm, ret) ← r; Ok (st, pcm, ret, packet_offset) in
              if negb (decode_fec =? 0) then
                offset (decode_fec_packet st packet d size pcm p frame_size packet_mode packet_bandwidth
                          packet_frame_size packet_stream_channels)
              else if count * packet_frame_size >? frame_size then
                Ok (st, pcm, OPUS_BUFFER_TOO_SMALL, packet_offset)
              else
                let st := set_packet packet_mode packet_bandwidth packet_frame_size packet_stream_channels st in
                offset (decode_frames (Z.to_nat count) 0 packet d size st pcm p frame_size packet_frame_size 0)
          end
      end.

Definition opus_decode (st : decoder) (data : option (list Z)) (len : Z) (pcm : list Z) (frame_size decode_fec : Z)
    (size : list Z) : res (decoder * list Z * Z) :=
  if frame_size <=? 0 then Ok (st, pcm, OPUS_BAD_ARG)
  else
    '(st, pcm, ret, _) ← opus_decode_native st data len pcm 0 frame_size decode_fec false size;
    Ok (st, pcm, ret).

(** ** Initialisation and control *)

(** The states of SILK and CELT as their own initialisation leaves them. *)
Definition opus_decoder_init (silk : SILK) (celt : CELT) (Fs chans : Z) : res decoder :=
  if (negb (Fs =? 48000) && negb (Fs =? 24000) && negb (Fs =? 16000) && negb (Fs =? 12000) && negb (Fs =? 8000))
     || (negb (chans =? 1) && negb (chans =? 2))
  then Err OPUS_BAD_ARG
  else Ok {| silk_dec := silk; celt_dec := celt; channels := chans; OpusDecode.Fs := Fs;
             DecControl := {| nChannelsAPI := chans; nChannelsInternal := 0; API_sampleRate := Fs;
                              internalSampleRate := 0; payloadSize_ms := 0; prevPitchLag := 0;
                              enable_deep_plc := false |};
             decode_gain := 0; complexity := 0; stream_channels := chans; bandwidth := 0; mode := 0;
             prev_mode := 0; frame_size := Fs / 400; prev_redundancy := false; last_packet_duration := 0;
             rangeFinal := 0 |}.

(** The assertions on the state, without the architecture. *)
Definition validate_opus_decoder (st : decoder) : bool :=
  let c := st.(DecControl) in
  ((st.(channels) =? 1) || (st.(channels) =? 2)) &&
  ((st.(Fs) =? 48000) || (st.(Fs) =? 24000) || (st.(Fs) =? 16000) || (st.(Fs) =? 12000) || (st.(Fs) =? 8000)) &&
  (c.(API_sampleRate) =? st.(Fs)) &&
  ((c.(internalSampleRate) =? 0) || (c.(internalSampleRate) =? 16000) || (c.(internalSampleRate) =? 12000)
   || (c.(internalSampleRate) =? 8000)) &&
  (c.(nChannelsAPI) =? st.(channels)) &&
  ((c.(nChannelsInternal) =? 0) || (c.(nChannelsInternal) =? 1) || (c.(nChannelsInternal) =? 2)) &&
  ((c.(payloadSize_ms) =? 0) || (c.(payloadSize_ms) =? 10) || (c.(payloadSize_ms) =? 20) || (c.(payloadSize_ms) =? 40)
   || (c.(payloadSize_ms) =? 60)) &&
  ((st.(stream_channels) =? 1) || (st.(stream_channels) =? 2)).

(** The new state, the return value and the value stored through the pointer. *)
Definition opus_decoder_ctl (st : decoder) (request : decoder_request) : decoder * Z * option Z :=
  let found v := (st, OPUS_OK, Some v) in
  match request with
  | DEC_GET_BANDWIDTH => found st.(bandwidth)
  | DEC_SET_COMPLEXITY value =>
      if (value <? 0) || (value >? 10) then (st, OPUS_BAD_ARG, None)
      else ((celt_decoder_ctl (CELT_SET_COMPLEXITY value) (set_options st.(decode_gain) value st)).1, OPUS_OK, None)
  | DEC_GET_COMPLEXITY => found st.(complexity)
  | DEC_GET_FINAL_RANGE => found st.(rangeFinal)
  | DEC_RESET_STATE =>
      (Mk_OpusDecoder (silk_ResetDecoder st.(silk_dec)) (celt_update CELT_RESET_STATE st.(celt_dec)) st.(channels) st.(Fs)
         st.(DecControl) st.(decode_gain) st.(complexity) st.(channels) 0 0 0 (st.(Fs) / 400) false 0 0,
       OPUS_OK, None)
  | DEC_GET_SAMPLE_RATE => found st.(Fs)
  | DEC_GET_PITCH =>
      if st.(prev_mode) =? MODE_CELT_ONLY then found (celt_get_pitch st.(celt_dec))
      else found st.(DecControl).(prevPitchLag)
  | DEC_GET_GAIN => found st.(decode_gain)
  | DEC_SET_GAIN value =>
      if (value <? -32768) || (value >? 32767) then (st, OPUS_BAD_ARG, None)
      else (set_options value st.(complexity) st, OPUS_OK, None)
  | DEC_GET_LAST_PACKET_DURATION => found st.(last_packet_duration)
  | DEC_SET_PHASE_INVERSION_DISABLED value =>
      if (value <? 0) || (value >? 1) then (st, OPUS_BAD_ARG, None)
      else (celt_decoder_ctl (CELT_SET_PHASE_INVERSION_DISABLED value) st, None)
  | DEC_GET_PHASE_INVERSION_DISABLED => found (celt_get_phase_inversion_disabled st.(celt_dec))
  | DEC_UNKNOWN => (st, OPUS_UNIMPLEMENTED, None)
  end.

Definition opus_decoder_get_nb_samples (dec : decoder) (packet : list Z) (len : Z) : res Z :=
  opus_packet_get_nb_samples packet len dec.(Fs).
End Native.
