(* ===== verification/OpusDecodeProofs.v ===== *)
(** * The stages of the Opus decoder stay inside their buffers

    What the driver needs of the range decoder ([ec_tell] only grows, so that a
    redundant frame lies inside the packet), what it promises about buffers
    ([within]: only its own samples change), [SynthesisLaws], what it relies on from SILK
    and CELT, [dec_inv], the invariant of the decoder, which implies the assertions of
    [validate_opus_decoder], and each stage of [opus_decode_frame]. *)

From S2P Require Import Prelude FixedPoint Memory Packet PacketProofs EntropyInterface.
From S2P Require Import RangeCoder EntCode RangeSafe OpusDecode.

(** ** Functions that always return

    The functions of the driver report errors in their return value: their
    outcome is [Ok], or a fault. *)

Definition must {A} (m : res A) (P : A -> Prop) : Prop :=
  match m with Ok x => P x | _ => False end.

Lemma must_ok {A} (x : A) (P : A -> Prop) : P x -> must (Ok x) P.
Proof. done. Qed.

Lemma must_bind {A B} (m : res A) (f : A -> res B) (P : A -> Prop) (Q : B -> Prop) :
  must m P -> (forall x, P x -> must (f x) Q) -> must (m ≫= f) Q.
Proof. intros Hm Hf. destruct m; simpl in *; [auto|done..]. Qed.

Lemma must_impl {A} (m : res A) (P Q : A -> Prop) : must m P -> (forall x, P x -> Q x) -> must m Q.
Proof. intros Hm H. destruct m; simpl in *; [auto|done..]. Qed.

(** ** The bits used grow *)

Lemma read_byte_frame c :
  let '(_, c') := ec_read_byte c in
  rng c' = rng c /\ nbits_total c' = nbits_total c /\ storage c' = storage c.
Proof. unfold ec_read_byte. by destruct (offs c <? storage c). Qed.

Lemma tell_normalize_step c :
  0 < rng c <= 2 ^ 23 ->
  rng (dec_normalize_step c) = rng c * 2 ^ 8 /\ ec_tell (dec_normalize_step c) = ec_tell c.
Proof.
  intros Hr. unfold dec_normalize_step. cbv zeta.
  set (c1 := set_rng _ _). pose proof (read_byte_frame c1) as Hf.
  destruct (ec_read_byte c1) as [b c2]. destruct Hf as (H1 & H2 & _).
  assert (Hr1 : rng c1 = rng c * 2 ^ 8).
  { subst c1. cbn [rng set_rng set_nbits_total]. change EC_SYM_BITS with 8.
    rewrite Z.shiftl_mul_pow2 by lia. apply u32_small. lia. }
  assert (nbits_total c1 = nbits_total c + 8) by done.
  unfold ec_tell, EC_ILOG. cbn [rng nbits_total set_val set_rem]. split; [lia|].
  rewrite H1, H2, Hr1, !ec_ilog_log2 by lia.
  rewrite Z.log2_mul_pow2 by lia. lia.
Qed.

Lemma tell_while n c :
  0 < rng c <= 2 ^ 31 ->
  ec_tell (while_fuel n (fun c => rng c <=? EC_CODE_BOT) dec_normalize_step c) = ec_tell c.
Proof.
  revert c. induction n as [|n IH]; intros c Hr; [done|]. rewrite while_fuel_S.
  destruct (Z.leb_spec (rng c) EC_CODE_BOT) as [Hs|]; [|done].
  change EC_CODE_BOT with (2 ^ 23) in Hs.
  destruct (tell_normalize_step c ltac:(lia)) as [Hg Ht]. rewrite IH by lia. done.
Qed.

(** A step that narrows the range to [r] without changing what was read. *)
Lemma tell_narrow c c' :
  0 < rng c' <= rng c -> rng c <= 2 ^ 31 -> nbits_total c' = nbits_total c ->
  ec_tell c <= ec_tell (ec_dec_normalize c') /\
  (rng c <= 2 * rng c' + 1 -> ec_tell (ec_dec_normalize c') <= ec_tell c + 1).
Proof.
  intros Hr Hc Hn. unfold ec_dec_normalize. rewrite tell_while by lia.
  unfold ec_tell, EC_ILOG. rewrite Hn, !ec_ilog_log2 by lia.
  pose proof (Z.log2_le_mono (rng c') (rng c) ltac:(lia)). split; [lia|]. intros Hh.
  pose proof (Z.log2_le_mono _ _ Hh) as Hl. rewrite Z.log2_succ_double in Hl by lia. lia.
Qed.

Lemma tell_bit_logp logp c :
  1 <= logp <= 16 -> dec_ok c ->
  ec_tell c <= ec_tell (ec_dec_bit_logp logp c).2 /\
  (logp = 1 -> ec_tell (ec_dec_bit_logp logp c).2 <= ec_tell c + 1).
Proof.
  intros Hl [Hr Hv _ _ _ _ _ _ _]. unfold ec_dec_bit_logp. cbv zeta. cbn [snd].
  rewrite Z.shiftr_div_pow2 by lia.
  pose proof (Z.pow_le_mono_r 2 logp 16 ltac:(lia) ltac:(lia)).
  pose proof (Z.pow_le_mono_r 2 1 logp ltac:(lia) ltac:(lia)).
  assert (Hs : 0 < rng c / 2 ^ logp < rng c).
  { split; [apply Z.div_str_pos; lia|]. apply Z.div_lt_upper_bound; nia. }
  destruct (val c <? _); cbn [negb].
  - destruct (tell_narrow c (set_rng (rng c / 2 ^ logp) c)) as [H1 H2]; [done || (cbn; lia)..|].
    split; [done|]. intros ->. apply H2. cbn [rng set_rng]. change (2 ^ 1) with 2. dlia.
  - destruct (tell_narrow c (set_rng (u32 (rng c - rng c / 2 ^ logp)) (set_val (u32 (val c - rng c / 2 ^ logp)) c)))
      as [H1 H2]; [cbn [rng set_rng]; rewrite ?u32_small by lia; lia|lia|done|].
    split; [done|]. intros ->. apply H2. cbn [rng set_rng]. rewrite u32_small by lia.
    change (2 ^ 1) with 2. dlia.
Qed.

Lemma tell_uint256 c : dec_ok c -> ec_tell c <= ec_tell (ec_dec_uint 256 c).2.
Proof.
  intros Hc. pose proof Hc as [Hr Hv _ _ _ _ _ _ _]. unfold ec_dec_uint.
  change (u32 (256 - 1)) with 255. change (EC_ILOG 255) with 8. cbv zeta.
  change (8 >? EC_UINT_BITS) with false. cbv iota. change (255 + 1) with 256.
  unfold ec_decode. cbv zeta. set (q := celt_udiv (rng c) 256).
  assert (Hq : 0 < q /\ q * 256 <= rng c) by (subst q; unfold celt_udiv; split; dlia).
  cbn [rng val ext set_ext]. set (s := 256 - _).
  assert (Hs : 0 <= s < 256).
  { apply (found_bounds 256 c q Hc); lia. }
  cbn [snd]. unfold ec_dec_update. cbv zeta. cbn [rng val ext set_ext set_val].
  unfold IMUL32. rewrite !(u32_small (q * _)) by nia.
  apply tell_narrow; [|cbn; lia|done].
  cbn [rng set_rng set_val set_ext]. destruct (s >? 0); [nia|]. rewrite u32_small by nia. nia.
Qed.

Lemma tell_init b n : ec_tell (ec_dec_init b n) = 1.
Proof.
  unfold ec_dec_init. set (c0 := Mk_ec_ctx _ _ _ _ _ _ _ _ _ _ _ _).
  pose proof (read_byte_frame c0) as Hf. destruct (ec_read_byte c0) as [x c1]. destruct Hf as (H1 & H2 & _).
  unfold ec_dec_normalize. rewrite tell_while; unfold ec_tell, EC_ILOG; cbn [rng nbits_total set_val set_rem];
    rewrite H1, ?H2; subst c0; by vm_compute.
Qed.

(** A redundant frame has at least two bytes, as the comment in the source says,
    and lies behind the bytes that are left for the main frame. *)
Lemma redundancy_header_ok dec n m :
  dec_ok dec -> 1 <= ec_tell dec -> ec_tell dec + 17 + 20 * b2z (m =? MODE_HYBRID) <= 8 * n ->
  let '(_, n', red, _, rb) := redundancy_header dec n m in
  0 <= n' <= n /\ (red = true -> 2 <= rb /\ 1 <= n' /\ n' + rb = n).
Proof.
  intros Hd Ht Hn. unfold redundancy_header.
  destruct (m =? MODE_HYBRID); cbn [b2z] in Hn.
  - destruct (tell_bit_logp 12 dec ltac:(lia) Hd) as [T1 _].
    destruct (dec_bit_logp_safe 12 ltac:(lia) dec Hd) as [_ Hd1].
    destruct (ec_dec_bit_logp 12 dec) as [[] dec1]; [|lia]. cbn [snd] in *.
    destruct (tell_bit_logp 1 dec1 ltac:(lia) Hd1) as [T2 _].
    destruct (dec_bit_logp_safe 1 ltac:(lia) dec1 Hd1) as [_ Hd2].
    destruct (ec_dec_bit_logp 1 dec1) as [c2s dec2]. cbn [snd] in *.
    pose proof (tell_uint256 dec2 Hd2) as T3.
    destruct (dec_uint_safe 256 ltac:(lia) dec2 Hd2) as [Hx _].
    destruct (ec_dec_uint 256 dec2) as [x dec3]. cbn [fst snd] in *.
    destruct (Z.ltb_spec ((n - (x + 2)) * 8) (ec_tell dec3)); lia.
  - destruct (tell_bit_logp 1 dec ltac:(lia) Hd) as [T1 T2]. specialize (T2 eq_refl).
    destruct (ec_dec_bit_logp 1 dec) as [c2s dec2]. cbn [snd] in *.
    rewrite Z.shiftr_div_pow2 by lia. change (2 ^ 3) with 8.
    assert (8 * ((ec_tell dec2 + 7) / 8) <= ec_tell dec2 + 7 < 8 * ((ec_tell dec2 + 7) / 8) + 8) by dlia.
    destruct (Z.ltb_spec ((n - (n - (ec_tell dec2 + 7) / 8)) * 8) (ec_tell dec2)); lia.
Qed.

(** ** Samples *)

(** Only the [n] samples from [p] on may differ. *)
Definition within (pcm pcm' : list Z) (p n : Z) : Prop :=
  len pcm' = len pcm /\ forall i, i < p \/ p + n <= i -> pcm'.[i] = pcm.[i].

Lemma within_refl pcm p n : within pcm pcm p n.
Proof. done. Qed.
#[export] Hint Resolve within_refl : opus.

Lemma within_trans a b c p n : within a b p n -> within b c p n -> within a c p n.
Proof. intros [E1 H1] [E2 H2]. split; [lia|]. intros i Hi. by rewrite H2, H1. Qed.

Lemma within_sub a b q m p n : within a b q m -> p <= q -> q + m <= p + n -> within a b p n.
Proof. intros [E H] Hq Hm. split; [done|]. intros i Hi. apply H. lia. Qed.

Lemma sat_store pcm p l :
  0 <= p -> p + len l <= len pcm -> must (store pcm p l) (fun pcm' => within pcm pcm' p (len l)).
Proof.
  intros Hp Hl. rewrite store_ok by done. split; [by apply len_splice|].
  intros i Hi. by apply rd_splice_out.
Qed.

Lemma sat_load pcm p n :
  0 <= p -> 0 <= n -> p + n <= len pcm -> must (load pcm p n) (fun l => len l = n).
Proof.
  intros Hp Hn Hl. unfold load. destruct (Z.leb_spec n 0); [cbn; unfold len; cbn; lia|].
  destruct (Z.leb_spec 0 p), (Z.leb_spec (p + n) (len pcm)); try lia. by apply len_slice.
Qed.

Lemma len_repeat_Z {A} (x : A) n : 0 <= n -> len (repeat x (Z.to_nat n)) = n.
Proof. intros. unfold len. rewrite repeat_length. lia. Qed.

Lemma sat_fade_from n j in1 in2 chans inc :
  0 < chans -> 0 <= inc -> 0 <= j -> j + Z.of_nat n <= len in1 -> j + Z.of_nat n <= len in2 ->
  (j + Z.of_nat n - 1) / chans * inc < 120 ->
  must (smooth_fade_from n j in1 in2 chans inc) (fun l => len l = Z.of_nat n).
Proof.
  intros Hc Hi. revert j. induction n as [|n IH]; intros j Hj H1 H2 Hw; [done|].
  cbn [smooth_fade_from].
  assert (j / chans <= (j + Z.of_nat (S n) - 1) / chans) by (apply Z.div_le_mono; lia).
  assert (0 <= j / chans) by (apply Z.div_pos; lia).
  rewrite (get_ok window120) by (change (len window120) with 120; nia).
  rewrite !get_ok by lia. cbn [mbind res_bind].
  eapply must_bind; [apply IH; try lia|].
  { replace (j + 1 + Z.of_nat n - 1) with (j + Z.of_nat (S n) - 1) by lia. done. }
  intros l Hl. apply must_ok. rewrite Nat2Z.inj_succ. unfold len in *. cbn [length]. lia.
Qed.

Lemma sat_smooth_fade in1 in2 overlap chans Fs :
  0 < chans -> 0 < overlap -> 0 < Fs -> overlap * (48000 / Fs) <= 120 ->
  len in1 = overlap * chans -> len in2 = overlap * chans ->
  must (smooth_fade in1 in2 overlap chans Fs) (fun l => len l = overlap * chans).
Proof.
  intros Hc Ho Hf Hi H1 H2. unfold smooth_fade.
  assert (0 <= 48000 / Fs) by (apply Z.div_pos; lia).
  assert (Hd : (overlap * chans - 1) / chans = overlap - 1).
  { symmetry. apply (Z.div_unique_pos _ _ _ (chans - 1)); nia. }
  eapply must_impl; [apply sat_fade_from; try (rewrite ?Z2Nat.id; nia)|].
  - rewrite Z2Nat.id by nia. rewrite Z.add_0_l, Hd.
    destruct (decide (48000 / Fs = 0)) as [->|]; nia.
  - cbv beta. intros l Hl. nia.
Qed.

(** ** What the driver relies on *)

Definition rates : list Z := [48000; 24000; 16000; 12000; 8000].

(** A control structure with which [silk_Decode] passes its checks. *)
Definition control_ok (c : silk_DecControlStruct) : Prop :=
  (c.(nChannelsInternal) = 1 \/ c.(nChannelsInternal) = 2) /\
  (c.(internalSampleRate) = 8000 \/ c.(internalSampleRate) = 12000 \/ c.(internalSampleRate) = 16000) /\
  (c.(payloadSize_ms) = 10 \/ c.(payloadSize_ms) = 20 \/ c.(payloadSize_ms) = 40 \/ c.(payloadSize_ms) = 60) /\
  (c.(nChannelsAPI) = 1 \/ c.(nChannelsAPI) = 2) /\ In c.(API_sampleRate) rates.

(** A call of [silk_Decode] gives 10 ms of 10 ms packets and 20 ms of longer ones. *)
Definition silk_samples (c : silk_DecControlStruct) : Z :=
  c.(API_sampleRate) * (if c.(payloadSize_ms) =? 10 then 10 else 20) / 1000.

(** The frame sizes of CELT at a rate: 2.5, 5, 10 and 20 ms. *)
Definition celt_frame (rate n : Z) : Prop :=
  n = rate / 400 \/ n = 2 * (rate / 400) \/ n = 4 * (rate / 400) \/ n = 8 * (rate / 400).

(** The fields of the control structure that say what a packet is. *)
Definition control_view (c : silk_DecControlStruct) :=
  (c.(nChannelsAPI), c.(nChannelsInternal), c.(API_sampleRate), c.(internalSampleRate), c.(payloadSize_ms)).

(** SILK frames of 10 or 20 ms in a packet. *)
Definition packet_frames (c : silk_DecControlStruct) : Z := if c.(payloadSize_ms) =? 10 then 1 else c.(payloadSize_ms) / 20.

(** A SILK decoder in the middle of a packet: [n] frames of it have been decoded, by a first call and calls that go on,
    all for the same kind of packet and all successful. *)
Section Packets.
Context `{Synthesis SILK CELT}.
Inductive mid_packet : SILK -> Z * Z * Z * Z * Z -> Z -> Prop :=
| mid_first s c lost dec :
    control_ok c -> (silk_Decode s c lost true dec).(so_ret) = 0 ->
    mid_packet (silk_Decode s c lost true dec).(so_state) (control_view c) 1
| mid_next s c lost dec n :
    mid_packet s (control_view c) n -> n < packet_frames c -> (silk_Decode s c lost false dec).(so_ret) = 0 ->
    mid_packet (silk_Decode s c lost false dec).(so_state) (control_view c) (n + 1).

(** A call that the driver may make: the first of a packet, or the next one while frames are left. *)
Definition silk_turn (s : SILK) (c : silk_DecControlStruct) (first : bool) : Prop :=
  control_ok c /\ (first = true \/ exists n, mid_packet s (control_view c) n /\ n < packet_frames c).
End Packets.

(** The promises of the synthesis decoders at an output rate.  [silk_Decode], called in turn,
    writes one frame and returns its length, can fail only on the first call for
    a packet, and only reads on in the packet.  [celt_decode_with_ec] writes in
    the block of its frame size, and when it conceals it does not fail, returns that size and, unless it adds to the block,
    writes samples that do not depend on what the block held. *)
Class SynthesisLaws (rate : Z) {SILK CELT : Type} `{Synthesis SILK CELT} : Prop := {
  silk_room : forall s c lost first dec, silk_turn s c first ->
    len (silk_Decode s c lost first dec).(so_samples) <= silk_samples c * c.(nChannelsAPI);
  silk_writes : forall s c lost first dec, silk_turn s c first -> (silk_Decode s c lost first dec).(so_ret) = 0 ->
    len (silk_Decode s c lost first dec).(so_samples) = silk_samples c * c.(nChannelsAPI);
  silk_count : forall s c lost first dec, silk_turn s c first -> (silk_Decode s c lost first dec).(so_ret) = 0 ->
    (silk_Decode s c lost first dec).(so_nSamplesOut) = silk_samples c;
  silk_fails_first : forall s c lost dec, silk_turn s c false -> (silk_Decode s c lost false dec).(so_ret) = 0;
  silk_reads_on : forall s c lost first dec, silk_turn s c first -> dec_ok dec ->
    dec_ok (silk_Decode s c lost first dec).(so_dec) /\
    ec_tell dec <= ec_tell (silk_Decode s c lost first dec).(so_dec);
  celt_writes : forall s data n block size dec accum,
    len (celt_decode_with_ec s data n block size dec accum).(co_pcm) = len block;
  celt_conceals : forall s n block size dec accum, 0 <= n <= 1275 -> celt_frame rate size ->
    (celt_decode_with_ec s None n block size dec accum).(co_ret) = size;
  celt_overwrites : forall s n block block' size dec, 0 <= n <= 1275 -> celt_frame rate size -> len block = len block' ->
    celt_decode_with_ec s None n block size dec false = celt_decode_with_ec s None n block' size dec false
}.

(** ** Frame sizes *)

(** In units of 2.5 ms. *)
Definition frame_units (k : Z) : Prop := k = 1 \/ k = 2 \/ k = 4 \/ k = 8 \/ k = 16 \/ k = 24.

Section Units.
Context {SILK CELT : Type} (st : OpusDecoder SILK CELT).
Hypothesis Hr : In st.(Fs) rates.
Definition unit_size : Z := st.(Fs) / 400.

Lemma units :
  20 <= unit_size <= 120 /\ st.(Fs) = 400 * unit_size /\ F2_5 st = unit_size /\ F5 st = 2 * unit_size /\
  F10 st = 4 * unit_size /\ F20 st = 8 * unit_size /\ st.(Fs) / 25 * 3 = 48 * unit_size /\
  unit_size * (48000 / st.(Fs)) = 120.
Proof.
  unfold unit_size, F2_5, F5, F10, F20.
  destruct Hr as [<-|[<-|[<-|[<-|[<-|[]]]]]]; vm_compute; intuition congruence.
Qed.

Lemma payload_units k : 0 <= k -> 1000 * (k * unit_size) / st.(Fs) = 5 * k / 2.
Proof.
  intros Hk. destruct units as (Hu & -> & _).
  replace (1000 * (k * unit_size)) with (5 * k * (200 * unit_size)) by lia.
  replace (400 * unit_size) with (2 * (200 * unit_size)) by lia. apply Z.div_mul_cancel_r; lia.
Qed.
End Units.

(** ** The invariant *)

Section Invariant.
Context {SILK CELT : Type}.
Abbreviation decoder := (OpusDecoder SILK CELT).

(** The parameters of a packet that the decoder may be asked to decode. *)
Definition params_ok (u m b f : Z) : Prop :=
  (m = MODE_SILK_ONLY /\ (b = 1101 \/ b = 1102 \/ b = 1103) /\ (f = 4 * u \/ f = 8 * u \/ f = 16 * u \/ f = 24 * u)) \/
  (m = MODE_HYBRID /\ (b = 1104 \/ b = 1105) /\ (f = 4 * u \/ f = 8 * u)) \/
  (m = MODE_CELT_ONLY /\ (b = 1101 \/ b = 1103 \/ b = 1104 \/ b = 1105) /\
   (f = u \/ f = 2 * u \/ f = 4 * u \/ f = 8 * u)).

(** SILK has run, or at least has been told what to run. *)
Definition silk_known (c : silk_DecControlStruct) : Prop :=
  (c.(nChannelsInternal) = 1 \/ c.(nChannelsInternal) = 2) /\
  (c.(internalSampleRate) = 8000 \/ c.(internalSampleRate) = 12000 \/ c.(internalSampleRate) = 16000).

Record dec_inv (rate : Z) (st : decoder) : Prop := {
  di_rate : st.(Fs) = rate /\ In rate rates;
  di_channels : st.(channels) = 1 \/ st.(channels) = 2;
  di_stream : st.(stream_channels) = 1 \/ st.(stream_channels) = 2;
  di_api : st.(DecControl).(API_sampleRate) = st.(Fs) /\ st.(DecControl).(nChannelsAPI) = st.(channels);
  di_payload : In st.(DecControl).(payloadSize_ms) [0; 10; 20; 40; 60];
  di_internal : (st.(DecControl).(nChannelsInternal) = 0 /\ st.(DecControl).(internalSampleRate) = 0)
                \/ silk_known st.(DecControl);
  di_prev : In st.(prev_mode) [0; MODE_SILK_ONLY; MODE_HYBRID; MODE_CELT_ONLY];
  di_silk : st.(prev_mode) = MODE_SILK_ONLY \/ st.(prev_mode) = MODE_HYBRID -> silk_known st.(DecControl);
  di_frame : exists k, frame_units k /\ st.(frame_size) = k * unit_size st
}.

(** The fields that decoding a frame does not change. *)
Definition frame_view (st : decoder) :=
  (st.(channels), st.(Fs), st.(decode_gain), st.(complexity), st.(stream_channels), st.(bandwidth), st.(mode),
   st.(frame_size), st.(last_packet_duration)).
Definition kept (st st' : decoder) : Prop := frame_view st' = frame_view st.
(** Nor do the stages before the last change these. *)
Definition prev_view (st : decoder) := (st.(prev_mode), st.(prev_redundancy)).
Definition kept_all (st st' : decoder) : Prop :=
  kept st st' /\ prev_view st' = prev_view st /\ control_view st'.(DecControl) = control_view st.(DecControl).

Lemma kept_fields st st' :
  kept st st' ->
  st'.(channels) = st.(channels) /\ st'.(Fs) = st.(Fs) /\ st'.(stream_channels) = st.(stream_channels) /\
  st'.(bandwidth) = st.(bandwidth) /\ st'.(mode) = st.(mode) /\ st'.(frame_size) = st.(frame_size) /\
  unit_size st' = unit_size st /\ F2_5 st' = F2_5 st /\ F5 st' = F5 st /\ F10 st' = F10 st /\ F20 st' = F20 st.
Proof.
  unfold kept, frame_view. intros H. injection H as E1 E2 E3 E4 E5 E6 E7 E8 E9.
  unfold unit_size, F2_5, F5, F10, F20. unfold F2_5, F5, F10, F20. rewrite E2. by split_and!.
Qed.

Lemma kept_refl st : kept st st.
Proof. done. Qed.
Lemma kept_trans a b c : kept a b -> kept b c -> kept a c.
Proof. unfold kept. congruence. Qed.
Lemma kept_all_refl st : kept_all st st.
Proof. done. Qed.
Lemma kept_all_trans a b c : kept_all a b -> kept_all b c -> kept_all a c.
Proof. unfold kept_all, kept. intros (?&?&?) (?&?&?). split_and!; congruence. Qed.

Lemma kept_all_inv rate st st' : kept_all st st' -> dec_inv rate st -> dec_inv rate st'.
Proof.
  intros (Hk & Hp & Hc) [H1 H2 H3 H4 H5 H6 H7 H8 H9].
  pose proof (kept_fields _ _ Hk) as (E1 & E2 & E3 & E4 & E5 & E6 & E7 & _).
  unfold prev_view in Hp. unfold control_view in Hc. injection Hp as P1 P2. injection Hc as C1 C2 C3 C4 C5.
  assert (silk_known (DecControl st) -> silk_known (DecControl st')) by (unfold silk_known; congruence).
  split; rewrite ?E1, ?E2, ?E3, ?E6, ?E7, ?P1, ?P2, ?C1, ?C2, ?C3, ?C4, ?C5; auto. destruct H6; auto.
Qed.
End Invariant.
#[export] Hint Resolve kept_refl kept_all_refl : opus.

(** ** SILK *)

Section Stages.
Context {rate : Z} `{L : SynthesisLaws rate SILK CELT} (junk : Z) (junk_dec : ec_ctx).
Abbreviation decoder := (OpusDecoder SILK CELT).

Lemma control_ok_view c c' : control_view c' = control_view c -> control_ok c -> control_ok c'.
Proof. unfold control_view, control_ok. intros E. injection E as E1 E2 E3 E4 E5. by rewrite E1, E2, E3, E4, E5. Qed.
Lemma silk_samples_view c c' : control_view c' = control_view c -> silk_samples c' = silk_samples c.
Proof. unfold control_view, silk_samples. intros E. injection E as E1 E2 E3 E4 E5. by rewrite E3, E5. Qed.

(** Reading on: what SILK leaves of a well-formed range decoder. *)
Definition reads_on (dec dec' : ec_ctx) : Prop := dec_ok dec -> dec_ok dec' /\ ec_tell dec <= ec_tell dec'.

Lemma packet_frames_view c c' : control_view c' = control_view c -> packet_frames c' = packet_frames c.
Proof. unfold control_view, packet_frames. intros E. injection E as E1 E2 E3 E4 E5. by rewrite E5. Qed.

(** [j] frames of the packet are behind us, [K] to come. *)
Definition silk_at (st : decoder) (j K : Z) : Prop :=
  control_ok st.(DecControl) /\ 0 <= j /\ 0 < K /\ j + K = packet_frames st.(DecControl) /\
  (j = 0 \/ mid_packet st.(silk_dec) (control_view st.(DecControl)) j).

Lemma silk_at_turn st j K : silk_at st j K -> silk_turn st.(silk_dec) st.(DecControl) (j =? 0).
Proof.
  intros (Hok & Hj & HK & Hf & [->|Hm]); (split; [done|]); [by left|].
  destruct (Z.eqb_spec j 0); [by left|right]. exists j. split; [done|lia].
Qed.

(** The state after a successful call. *)
Lemma silk_at_next st j K lost dec :
  silk_at st j K -> 1 < K -> (silk_Decode st.(silk_dec) st.(DecControl) lost (j =? 0) dec).(so_ret) = 0 ->
  let o := silk_Decode st.(silk_dec) st.(DecControl) lost (j =? 0) dec in
  silk_at (set_control (set_pitch o.(so_prevPitchLag) st.(DecControl)) (set_silk o.(so_state) st)) (j + 1) (K - 1).
Proof.
  intros (Hok & Hj & HK & Hf & Hm) H1 Hret o. split_and!; try done; try lia.
  - transitivity (packet_frames st.(DecControl)); [lia|done].
  - right. change (control_view _) with (control_view st.(DecControl)). cbn [silk_dec set_control set_silk].
    subst o. destruct (Z.eqb_spec j 0) as [->|Hj0]; [by apply mid_first|].
    destruct Hm as [|Hm]; [done|]. apply mid_next; [done|lia|done].
Qed.

Lemma sat_silk_calls fuel st dec out q n lost_flag j s K :
  silk_at st j K -> st.(DecControl).(nChannelsAPI) = st.(channels) ->
  s = silk_samples st.(DecControl) -> 0 < s -> 0 <= j * s < n ->
  j * s + K * s >= n -> j * s + (K - 1) * s < n -> K <= Z.of_nat fuel ->
  0 <= q -> q + K * s * st.(channels) <= len out ->
  must (silk_calls fuel st dec out q n lost_flag (j * s)) (fun '(st', dec', out', bad) =>
    kept_all st st' /\ reads_on dec dec' /\ within out out' q (K * s * st.(channels)) /\
    (lost_flag <> 0 -> bad = false)).
Proof.
  intros Hat Hapi Hs Hs0 Hd HK1 HK2 Hf Hq Hroom.
  revert st dec out q j K Hat Hapi Hs Hd HK1 HK2 Hf Hq Hroom.
  induction fuel as [|fuel IH]; intros st dec out q j K Hat Hapi Hs Hd HK1 HK2 Hf Hq Hroom;
    cbn [silk_calls]; [exfalso; nia|].
  assert (E0 : (j * s =? 0) = (j =? 0)) by (destruct (Z.eqb_spec j 0); nia). rewrite E0.
  pose proof (silk_at_turn st j K Hat) as Ht. pose proof Hat as (Hok & Hj & HK & _).
  pose proof (silk_room st.(silk_dec) st.(DecControl) lost_flag (j =? 0) dec Ht) as Hw.
  pose proof (silk_count st.(silk_dec) st.(DecControl) lost_flag (j =? 0) dec Ht) as Hn.
  pose proof (silk_reads_on st.(silk_dec) st.(DecControl) lost_flag (j =? 0) dec Ht) as Hro.
  assert (Hff : negb ((silk_Decode st.(silk_dec) st.(DecControl) lost_flag (j =? 0) dec).(so_ret) =? 0) = true -> j = 0).
  { destruct (Z.eqb_spec j 0); [done|]. by rewrite silk_fails_first. }
  pose proof (silk_at_next st j K lost_flag dec Hat) as Hnext. cbv zeta in Hnext |- *.
  set (o := silk_Decode _ _ _ _ _) in *. set (st1 := set_control _ _) in *.
  assert (Hk1 : kept_all st st1) by done.
  assert (Hc1 : channels st1 = channels st) by done.
  rewrite Hapi in Hw. assert (Hch : 1 <= channels st <= 2) by (destruct Hok as (_&_&_&?&_); lia).
  rewrite <- Hs in Hw, Hn.
  eapply must_bind; [apply sat_store; nia|]. cbv beta. intros out1 Hw1.
  apply (within_sub _ _ _ _ q (K * s * channels st)) in Hw1; [|lia|nia].
  destruct (negb (so_ret o =? 0)) eqn:Ebad; cbn [andb].
  - specialize (Hff eq_refl). subst j. destruct (Z.eqb_spec lost_flag 0) as [->|Hl].
    + apply must_ok. split_and!; done || (intros _; by apply Hro).
    + rewrite Hc1. eapply (must_bind _ _ (fun '(m, out2) => m = n /\ within out out2 q (K * s * channels st))).
      { eapply must_bind; [apply sat_store; rewrite ?len_repeat_Z by nia; [lia|]; destruct Hw1 as [-> _]; nia|].
        cbv beta. intros out2 Hw2. rewrite len_repeat_Z in Hw2 by nia. apply must_ok. split; [done|].
        eapply within_trans; [exact Hw1|]. eapply within_sub; [exact Hw2|lia|nia]. }
      intros [m out2] [-> Hw2]. destruct (Z.ltb_spec (0 * s + n) n); [lia|].
      apply must_ok. split_and!; done || (intros _; by apply Hro).
  - cbn [mbind res_bind]. apply negb_false_iff, Z.eqb_eq in Ebad. rewrite (Hn Ebad).
    replace (j * s + s) with ((j + 1) * s) by lia. destruct (Z.ltb_spec ((j + 1) * s) n).
    + rewrite Hc1. eapply must_impl; [apply (IH st1 _ out1 _ (j + 1) (K - 1)); try done; try nia|].
      * apply Hnext; [nia|done].
      * rewrite Hc1. destruct Hw1 as [-> _]. nia.
      * intros [[[st' dec'] out'] bad] (Hk' & Hr' & Hw' & Hb'). rewrite Hc1 in Hw'. split_and!; [| | |done].
        -- eapply kept_all_trans; [exact Hk1|done].
        -- intros Hdk. destruct (Hro Hdk) as [Hd1 Ht1]. destruct (Hr' Hd1) as [Hd2 Ht2]. split; [done|lia].
        -- eapply within_trans; [exact Hw1|]. eapply within_sub; [exact Hw'|nia|nia].
    + apply must_ok. split_and!; done || (intros _; by apply Hro).
Qed.

(** The sizes a frame can have when SILK runs: also 7.5 ms, when it conceals. *)
Definition silk_units (k : Z) : Prop := frame_units k \/ k = 3.

(** The control structure of [silk_stage], and the length of what SILK gives. *)
Lemma sat_silk_control (st : decoder) lost m b k :
  dec_inv rate st -> silk_units k -> (lost = true -> silk_known st.(DecControl)) ->
  (lost = false -> m = MODE_SILK_ONLY -> b = 1101 \/ b = 1102 \/ b = 1103) ->
  must (silk_control st lost m b (k * unit_size st)) (fun c =>
    control_ok c /\ silk_known c /\ c.(nChannelsAPI) = st.(channels) /\ c.(API_sampleRate) = st.(Fs) /\
    let K := packet_frames c in
    1 <= K <= 3 /\ K * silk_samples c = Z.max (4 * unit_size st) (k * unit_size st) /\
      (K - 1) * silk_samples c < k * unit_size st).
Proof.
  intros [[HFs Hr] Hch Hst [Ha1 Ha2] _ _ _ _ _] Hk Hlost Hb. pose proof (units st) as Hu. rewrite HFs in Hu at 1.
  specialize (Hu Hr) as (Hu & HF & _). unfold silk_control.
  eapply (must_bind _ _ (fun '(ci, r) => (ci = 1 \/ ci = 2) /\ (r = 8000 \/ r = 12000 \/ r = 16000))).
  { destruct lost; [apply must_ok; by apply Hlost|].
    destruct (Z.eqb_spec m MODE_SILK_ONLY) as [Hm|]; [|apply must_ok; tauto].
    destruct (Hb eq_refl Hm) as [->|[->| ->]]; cbn; tauto. }
  intros [ci r] [Hci Hcr]. apply must_ok.
  set (c := Build_silk_DecControlStruct _ _ _ _ _ _ _).
  assert (Hpay : payloadSize_ms c = Z.max 10 (5 * k / 2)).
  { subst c. cbn [payloadSize_ms]. rewrite (payload_units st) by (done || (unfold silk_units, frame_units in Hk; lia) || by rewrite HFs).
    done. }
  assert (Hs : silk_samples c = if k <=? 4 then 4 * unit_size st else 8 * unit_size st).
  { unfold silk_samples. rewrite Hpay. cbn [API_sampleRate c]. rewrite Ha1, HF.
    assert (400 * unit_size st * 10 / 1000 = 4 * unit_size st) by
      (symmetry; apply (Z.div_unique_exact); lia).
    assert (400 * unit_size st * 20 / 1000 = 8 * unit_size st) by
      (symmetry; apply (Z.div_unique_exact); lia).
    replace (Z.max 10 (5 * k / 2) =? 10) with (k <=? 4)
      by (destruct Hk as [[->|[->|[->|[->|[->| ->]]]]]| ->]; reflexivity).
    destruct (k <=? 4); lia. }
  assert (HK : packet_frames c = if k <=? 4 then 1 else k / 8).
  { unfold packet_frames. rewrite Hpay. destruct Hk as [[->|[->|[->|[->|[->| ->]]]]]| ->]; reflexivity. }
  cbv zeta. rewrite Hs, HK. split; [|split; [done|split; [done|split; [done|]]]].
  - split_and!; [done|done| |subst c; cbn [nChannelsAPI]; lia|subst c; cbn [API_sampleRate]; by rewrite Ha1, HFs].
    rewrite Hpay. destruct Hk as [[->|[->|[->|[->|[->| ->]]]]]| ->]; vm_compute; auto.
  - destruct Hk as [[->|[->|[->|[->|[->| ->]]]]]| ->]; cbn [Z.leb Z.compare Pos.compare Pos.compare_cont];
      change (8 / 8) with 1; change (16 / 8) with 2; change (24 / 8) with 3; lia.
Qed.

Definition is_lost (data : option (list Z)) : bool := match data with None => true | Some _ => false end.

Lemma sat_silk_stage (st : decoder) data dec pcm p k m b fec accum :
  dec_inv rate st -> silk_units k -> In m [MODE_SILK_ONLY; MODE_HYBRID; MODE_CELT_ONLY] ->
  (is_lost data = true -> m <> MODE_CELT_ONLY -> silk_known st.(DecControl)) ->
  (is_lost data = false -> m = MODE_SILK_ONLY -> b = 1101 \/ b = 1102 \/ b = 1103) ->
  (accum = true -> 4 <= k) ->
  0 <= p -> p + k * unit_size st * st.(channels) <= len pcm ->
  must (silk_stage junk st data dec pcm p (k * unit_size st) m b (k * unit_size st) fec accum)
    (fun '(st', dec', pcm', pcm_silk, bad) =>
      dec_inv rate st' /\ kept st st' /\ prev_view st' = prev_view st /\ reads_on dec dec' /\
      (m <> MODE_CELT_ONLY \/ silk_known st.(DecControl) -> silk_known st'.(DecControl)) /\
      within pcm pcm' p (k * unit_size st * st.(channels)) /\
      (m <> MODE_CELT_ONLY -> accum = false -> k * unit_size st * st.(channels) <= len pcm_silk) /\
      (is_lost data = true \/ fec = true -> bad = false)).
Proof.
  intros Hinv Hk Hm Hlost Hb Hacc Hp Hroom. pose proof (di_rate _ _ Hinv) as [HFs Hr].
  pose proof (di_channels _ _ Hinv) as Hch. pose proof (units st) as Hu.
  rewrite HFs in Hu at 1. specialize (Hu Hr) as (Hu & _ & _ & _ & HF10 & _).
  assert (Hk0 : 1 <= k <= 24) by (unfold silk_units, frame_units in Hk; lia).
  unfold silk_stage. cbv zeta.
  destruct (Z.eqb_spec m MODE_CELT_ONLY) as [Hc|Hc]; cbn [negb andb].
  { apply must_ok. split_and!; try done. by intros [?|?]. }
  set (st1 := if prev_mode st =? MODE_CELT_ONLY then _ else st).
  assert (Hk1 : kept_all st st1) by (subst st1; by destruct (prev_mode st =? MODE_CELT_ONLY)).
  assert (Hi1 : dec_inv rate st1) by (by eapply kept_all_inv).
  assert (E1 : DecControl st1 = DecControl st) by (subst st1; by destruct (prev_mode st =? MODE_CELT_ONLY)).
  pose proof (kept_fields _ _ (proj1 Hk1)) as (C1 & C2 & _ & _ & _ & _ & C7 & _).
  fold (is_lost data).
  replace (k * unit_size st) with (k * unit_size st1) by (by rewrite C7).
  eapply must_bind; [apply (sat_silk_control st1 (is_lost data) m b k); rewrite ?E1; auto|].
  intros c (Hok & Hkn & Hca & Hcf & HK & HKs & HK1). rewrite C7 in *.
  set (K := packet_frames c) in *.
  set (st2 := set_control c st1).
  assert (Hk2 : kept st st2) by (apply (kept_trans _ st1); [apply Hk1|done]).
  assert (Hp2 : prev_view st2 = prev_view st) by (destruct Hk1 as (_ & E & _); by rewrite <- E).
  assert (Hi2 : dec_inv rate st2).
  { destruct Hi1. subst st2. split; try done.
    - cbn [DecControl set_control]. destruct Hok as (_ & _ & [->|[->|[->| ->]]] & _); cbn; tauto.
    - by right. }
  assert (Hlf : is_lost data = true \/ fec = true -> (if is_lost data then 1 else 2 * b2z fec) <> 0)
    by (destruct (is_lost data), fec; cbn; intuition lia).
  assert (Hs0 : 0 < silk_samples c) by nia.
  assert (Hcall : forall out q, 0 <= q -> q + Z.max (4 * unit_size st) (k * unit_size st) * channels st <= len out ->
    must (silk_calls (Z.to_nat (k * unit_size st)) st2 dec out q (k * unit_size st)
           (if is_lost data then 1 else 2 * b2z fec) 0) (fun '(st', dec', out', bad) =>
      kept_all st2 st' /\ reads_on dec dec' /\
      within out out' q (Z.max (4 * unit_size st) (k * unit_size st) * channels st) /\
      ((if is_lost data then 1 else 2 * b2z fec) <> 0 -> bad = false))).
  { intros out q Hq Hout. rewrite <- HKs in Hout |- *. replace (channels st) with (channels st2) in Hout |- * by exact C1.
    apply (sat_silk_calls _ st2 dec out q _ _ 0 (silk_samples c) K); try done; try nia.
    split_and!; try done; try lia. }
  assert (Hpost : forall st', kept_all st2 st' ->
    dec_inv rate st' /\ kept st st' /\ prev_view st' = prev_view st /\ silk_known (DecControl st')).
  { intros st' Hk'. split_and!; [by eapply kept_all_inv|by eapply kept_trans, Hk'|destruct Hk' as (_ & -> & _); done|].
    destruct Hk' as (_ & _ & E). injection E as F1 F2 F3 F4 F5. unfold silk_known in *.
    change (DecControl st2) with c in *. by rewrite F2, F4. }
  destruct accum.
  - specialize (Hacc eq_refl). rewrite Z.max_r in Hcall by nia.
    eapply must_bind; [by apply (Hcall pcm p)|]. intros [[[st' dec'] pcm'] bad] (Hk' & Hr' & Hw' & Hbad).
    destruct (Hpost _ Hk') as (P1 & P2 & P3 & P4). apply must_ok. split_and!; auto. done.
  - cbn [negb]. rewrite HF10.
    assert (0 <= Z.max (4 * unit_size st) (k * unit_size st) * channels st) by (apply Z.mul_nonneg_nonneg; lia).
    eapply must_bind; [apply (Hcall _ 0); rewrite ?len_repeat_Z by done; lia|].
    intros [[[st' dec'] pcm_silk] bad] (Hk' & Hr' & [Hw' _] & Hbad). rewrite len_repeat_Z in Hw' by done.
    destruct (Hpost _ Hk') as (P1 & P2 & P3 & P4). apply must_ok. split_and!; auto with opus; nia.
Qed.

(** ** CELT *)

Lemma inv_units (st : decoder) :
  dec_inv rate st ->
  20 <= unit_size st <= 120 /\ 1 <= st.(channels) <= 2 /\ st.(Fs) = 400 * unit_size st /\
  F2_5 st = unit_size st /\ F5 st = 2 * unit_size st /\ F10 st = 4 * unit_size st /\ F20 st = 8 * unit_size st /\
  st.(Fs) / 25 * 3 = 48 * unit_size st /\ unit_size st * (48000 / st.(Fs)) = 120 /\ unit_size st = rate / 400.
Proof.
  intros [[HFs Hr] Hch _ _ _ _ _ _ _]. pose proof (units st) as Hu. rewrite HFs in Hu at 1.
  specialize (Hu Hr) as (? & ? & ? & ? & ? & ? & ? & ?). split_and!; try done; try lia. unfold unit_size. by rewrite HFs.
Qed.

(** The requests of the driver are accepted: [MUST_SUCCEED] holds. *)
Lemma sat_ctl request (st : decoder) :
  celt_ctl_ret std_nbEBands request = OPUS_OK -> must (must_ctl request st) (fun st' => kept_all st st').
Proof. intros E. unfold must_ctl, celt_decoder_ctl. rewrite E. done. Qed.

Lemma sat_celt_call (st : decoder) data n pcm p size dec accum :
  0 <= p -> 0 <= size * st.(channels) -> p + size * st.(channels) <= len pcm ->
  must (celt_call st data n pcm p size dec accum) (fun '(st', pcm', o) =>
    kept_all st st' /\ within pcm pcm' p (size * st.(channels)) /\
    (data = None -> 0 <= n <= 1275 -> celt_frame rate size -> o.(co_ret) = size)).
Proof.
  intros Hp Hs Hl. unfold celt_call. eapply must_bind; [by apply sat_load|]. cbv beta. intros block Hb. cbv zeta.
  set (o := celt_decode_with_ec _ _ _ _ _ _ _).
  assert (Ho : len (co_pcm o) = size * channels st) by (rewrite <- Hb; apply celt_writes).
  eapply must_bind; [apply sat_store; lia|]. cbv beta. intros pcm' Hw. rewrite Ho in Hw. apply must_ok.
  split_and!; [done|done|]. intros -> Hn Hf. by apply celt_conceals.
Qed.

Lemma sat_celt_stage (st : decoder) data n dec pcm pcm_silk p k m fec accum red c2s :
  dec_inv rate st -> silk_units k -> (m <> MODE_SILK_ONLY -> k = 1 \/ k = 2 \/ k = 4 \/ k = 8) ->
  0 <= n <= 1275 -> 0 <= p -> p + k * unit_size st * st.(channels) <= len pcm ->
  (m <> MODE_CELT_ONLY -> accum = false -> k * unit_size st * st.(channels) <= len pcm_silk) ->
  must (celt_stage st data n dec pcm pcm_silk p (k * unit_size st) m fec accum red c2s) (fun '(st', dec', pcm', ret) =>
    kept_all st st' /\ within pcm pcm' p (k * unit_size st * st.(channels)) /\
    (is_lost data = true \/ fec = true -> 0 <= ret)).
Proof.
  intros Hinv Hk Hm Hn Hp Hl Hs. destruct (inv_units st Hinv) as (Hu & Hch & _ & HF2 & _ & _ & HF20 & _ & _ & Hrate).
  assert (1 <= k <= 24) by (unfold silk_units, frame_units in Hk; lia).
  assert (Hn0 : 0 <= k * unit_size st * channels st) by nia.
  unfold celt_stage.
  eapply (must_bind _ _ (fun '(st', dec', pcm', ret) => kept_all st st' /\
    within pcm pcm' p (k * unit_size st * channels st) /\ (is_lost data = true \/ fec = true -> 0 <= ret))).
  { destruct (Z.eqb_spec m MODE_SILK_ONLY) as [Hms|Hms]; cbn [negb].
    - eapply (must_bind _ _ (fun pcm' => within pcm pcm' p (k * unit_size st * channels st))).
      { destruct accum; cbn [negb]; [by apply must_ok|].
        eapply must_impl; [apply sat_store; rewrite ?len_repeat_Z; done|]. cbv beta. intros pcm'.
        by rewrite len_repeat_Z. }
      intros pcm1 [E1 Hw1]. destruct (_ && _); [|apply must_ok; split_and!; done || lia].
      eapply must_bind; [by apply sat_ctl|]. cbv beta. intros st1 Hk1.
      pose proof (kept_fields _ _ (proj1 Hk1)) as (C1 & _ & _ & _ & _ & _ & _ & F1 & _).
      eapply must_bind; [apply sat_celt_call; rewrite ?C1, ?F1, ?HF2; nia|].
      intros [[st' pcm'] o] (Hk' & Hw' & _). rewrite C1, F1, HF2 in Hw'.
      apply must_ok. split_and!; [by eapply kept_all_trans| |lia]. eapply within_trans; [by split|]. eapply within_sub; [exact Hw'|lia|nia].
    - specialize (Hm Hms). cbv zeta.
      eapply (must_bind _ _ (fun st1 => kept_all st st1)); [destruct (_ && _); [by apply sat_ctl|by apply must_ok]|].
      intros st1 Hk1.
      assert (C1 : channels st1 = channels st) by apply (kept_fields _ _ (proj1 Hk1)).
      rewrite HF20, Z.min_r by nia.
      eapply must_bind; [apply sat_celt_call; rewrite ?C1; done|].
      intros [[st' pcm'] o] (Hk' & Hw' & Hret). rewrite C1 in Hw'. apply must_ok. split_and!; [|done|].
      + by eapply kept_all_trans.
      + intros Hlost. rewrite Hret; [nia| |done|unfold celt_frame; rewrite <- Hrate; lia].
        destruct fec; [done|]. destruct Hlost as [Hd|]; [|done]. by destruct data. }
  intros [[[st1 dec1] pcm1] ret] (Hk1 & [E1 Hw1] & Hr1).
  assert (C1 : channels st1 = channels st) by apply (kept_fields _ _ (proj1 Hk1)).
  destruct (Z.eqb_spec m MODE_CELT_ONLY) as [|Hc], accum; cbn [negb andb]; try (apply must_ok; by split_and!).
  rewrite C1. specialize (Hs Hc eq_refl).
  eapply must_bind; [apply sat_load; lia|]. cbv beta. intros x Hx.
  eapply must_bind; [apply sat_load; lia|]. cbv beta. intros y Hy.
  assert (Hz : len (zip_with (fun a b => SAT16 (ADD32 a b)) x y) = k * unit_size st * channels st).
  { unfold len in *. rewrite length_zip_with. lia. }
  eapply must_bind; [apply sat_store; rewrite ?Hz; lia|]. cbv beta. intros pcm' Hw'. rewrite Hz in Hw'.
  apply must_ok. split_and!; [done| |done]. eapply within_trans; [by split|done].
Qed.

(** ** Fades *)

Lemma sat_fade_to (st : decoder) a i b j pcm q :
  dec_inv rate st -> 0 <= i -> 0 <= j -> 0 <= q ->
  i + unit_size st * st.(channels) <= len a -> j + unit_size st * st.(channels) <= len b ->
  q + unit_size st * st.(channels) <= len pcm ->
  must (fade_to st a i b j pcm q) (fun pcm' => within pcm pcm' q (unit_size st * st.(channels))).
Proof.
  intros Hinv Hi Hj Hq Ha Hb Hl. destruct (inv_units st Hinv) as (Hu & Hch & HF & HF2 & _ & _ & _ & _ & Hw & _).
  unfold fade_to. rewrite HF2. cbv zeta.
  eapply must_bind; [apply sat_load; nia|]. cbv beta. intros x Hx.
  eapply must_bind; [apply sat_load; nia|]. cbv beta. intros y Hy.
  eapply must_bind; [apply sat_smooth_fade; try done; lia|]. cbv beta. intros z Hz. rewrite <- Hz.
  apply sat_store; lia.
Qed.

Lemma sat_copy_start (st : decoder) a pcm p :
  dec_inv rate st -> 0 <= p -> unit_size st * st.(channels) <= len a -> p + unit_size st * st.(channels) <= len pcm ->
  must (copy_start st a pcm p) (fun pcm' => within pcm pcm' p (unit_size st * st.(channels))).
Proof.
  intros Hinv Hp Ha Hl. destruct (inv_units st Hinv) as (Hu & Hch & _ & HF2 & _).
  unfold copy_start. rewrite HF2. eapply must_bind; [apply sat_load; nia|]. cbv beta. intros x Hx. rewrite <- Hx.
  apply sat_store; lia.
Qed.

(** The first 5 ms: a copy and a fade. *)
Lemma sat_copy_fade (st : decoder) a pcm p n :
  dec_inv rate st -> 0 <= p -> 2 * unit_size st <= n ->
  2 * unit_size st * st.(channels) <= len a -> p + n * st.(channels) <= len pcm ->
  must (pcm ← copy_start st a pcm p;
       fade_to st a (st.(channels) * F2_5 st) pcm (p + st.(channels) * F2_5 st) pcm (p + st.(channels) * F2_5 st))
    (fun pcm' => within pcm pcm' p (n * st.(channels))).
Proof.
  intros Hinv Hp Hn Ha Hl. destruct (inv_units st Hinv) as (Hu & Hch & _ & HF2 & _). rewrite HF2.
  eapply must_bind; [apply sat_copy_start; done || nia|]. cbv beta. intros pcm1 Hw1. pose proof Hw1 as [E1 _].
  eapply must_impl; [apply sat_fade_to; done || nia|]. cbv beta. intros pcm2 Hw2.
  eapply within_trans; (eapply within_sub; [eassumption|nia|nia]).
Qed.

Lemma sat_redundant_frame (st : decoder) l n rb :
  dec_inv rate st -> 0 <= n -> 0 <= rb -> n + rb <= len l ->
  must (redundant_frame junk st (Some l) n rb) (fun '(st', audio, _) =>
    kept_all st st' /\ len audio = 2 * unit_size st * st.(channels)).
Proof.
  intros Hinv Hn Hrb Hl. destruct (inv_units st Hinv) as (Hu & Hch & _ & _ & HF5 & _).
  unfold redundant_frame. eapply must_bind; [by apply sat_ctl|]. cbv beta. intros st1 Hk1.
  pose proof (kept_fields _ _ (proj1 Hk1)) as (C1 & _ & _ & _ & _ & _ & _ & _ & F1 & _).
  eapply must_bind; [by apply sat_load|]. cbv beta. intros x _. rewrite F1, C1, HF5.
  assert (0 <= 2 * unit_size st * channels st) by nia.
  eapply must_bind; [apply sat_celt_call; rewrite ?C1, ?len_repeat_Z; done || lia|].
  intros [[st2 audio] o] (Hk2 & [E _] & _). rewrite len_repeat_Z in E by done.
  eapply must_bind; [by apply sat_ctl|]. cbv beta. intros st3 Hk3. apply must_ok.
  split; [|done]. eapply kept_all_trans; [exact Hk1|]. by eapply kept_all_trans.
Qed.

Lemma sat_gain_stage (st : decoder) pcm p n :
  0 <= p -> 0 <= n * st.(channels) -> p + n * st.(channels) <= len pcm ->
  must (gain_stage st pcm p n) (fun pcm' => within pcm pcm' p (n * st.(channels))).
Proof.
  intros Hp Hn Hl. unfold gain_stage. destruct (_ =? 0); [by apply must_ok|]. cbv zeta.
  eapply must_bind; [by apply sat_load|]. cbv beta. intros x Hx.
  assert (Hm : len (map (fun v => i16 (SATURATE (MULT16_32_P16 v
    (celt_exp2 (i16 (MULT16_16_P15 21771 (decode_gain st))))) 32767)) x) = n * channels st)
    by (unfold len in *; rewrite length_map; lia).
  eapply must_impl; [apply sat_store; rewrite ?Hm; lia|]. cbv beta. intros pcm'. by rewrite Hm.
Qed.
End Stages.
