(* ===== verification/OpusDecodeFrame.v ===== *)
(** * [opus_decode_frame] and [opus_decode_native] are safe

    The stages put together: a frame of a packet gives its samples or an error,
    concealment never fails, nothing outside the frame's samples is written, and
    two levels of recursion are enough.  The parameters in the first byte of a packet are
    ones the frame decoder accepts, and the loops over frames and over concealed pieces fill
    exactly what they announce: the three assertions of the source hold.  Section Fill runs concealment on two
    buffers side by side: the samples it leaves do not depend on what the buffers held. *)

From S2P Require Import Prelude FixedPoint Memory Packet PacketProofs EntropyInterface.
From S2P Require Import RepackCat RangeCoder EntCode RangeSafe OpusDecode OpusDecodeProofs.

Section FrameSafe.
Context {rate : Z} `{L : SynthesisLaws rate SILK CELT} (junk : Z) (junk_dec : ec_ctx).
Abbreviation decoder := (OpusDecoder SILK CELT).
Abbreviation frame_fun := (decoder -> option (list Z) -> Z -> list Z -> Z -> Z -> bool -> res (decoder * list Z * Z)).

(** What a call for a lost frame of at most [lim] times 2.5 ms gives: a piece of
    it, and all of it when its size is one that frames have. *)
Definition plc_post (st : decoder) (pcm : list Z) (p k kf : Z) : decoder * list Z * Z -> Prop :=
  fun '(st', pcm', ret) =>
    dec_inv rate st' /\ kept st st' /\ (silk_known st.(DecControl) -> silk_known st'.(DecControl)) /\
    within pcm pcm' p (k * unit_size st * st.(channels)) /\
    exists j, ret = j * unit_size st /\ 1 <= j <= Z.min k kf /\ (frame_units (Z.min k kf) -> j = Z.min k kf).
Definition plc_spec (lim : Z) (rec : frame_fun) : Prop :=
  forall st pcm p k kf n, dec_inv rate st -> frame_units kf -> st.(frame_size) = kf * unit_size st ->
    1 <= k <= lim -> 0 <= p -> 0 <= n <= 1 -> p + k * unit_size st * st.(channels) <= len pcm ->
    must (rec st None n pcm p (k * unit_size st) false) (plc_post st pcm p k kf).

Lemma redundancy_stage_ok data dec n m fec :
  (is_lost data = false -> dec_ok dec /\ 1 <= ec_tell dec) -> 0 <= n ->
  let '(_, n', red, _, rb) := redundancy_stage data dec n m fec in
  0 <= n' <= n /\
  (red = true -> is_lost data = false /\ m <> MODE_CELT_ONLY /\ 2 <= rb /\ 1 <= n' /\ n' + rb = n).
Proof.
  intros Hd Hn. unfold redundancy_stage.
  destruct (negb fec && negb (m =? MODE_CELT_ONLY) && match data with None => false | Some _ => true end &&
    (ec_tell dec + 17 + 20 * b2z (m =? MODE_HYBRID) <=? 8 * n)) eqn:Ec; [|split; [lia|done]].
  rewrite !andb_true_iff, !negb_true_iff, Z.eqb_neq, Z.leb_le in Ec. destruct Ec as (((_ & Hm) & Hs) & Ht).
  assert (Hl : is_lost data = false) by (by destruct data).
  destruct (Hd Hl) as [Hok Ht1]. pose proof (redundancy_header_ok dec n m Hok Ht1 Ht) as H1.
  destruct (redundancy_header dec n m) as [[[[dec' n'] red] c2s] rb]. destruct H1 as [H1 H2].
  split; [done|]. intros Hr. specialize (H2 Hr). split_and!; tauto.
Qed.

Lemma sat_conceal rec (st : decoder) on k :
  plc_spec 8 rec -> dec_inv rate st -> 1 <= k ->
  st.(frame_size) = k * unit_size st ->
  must (conceal junk rec st on (k * unit_size st)) (fun '(st', buf) =>
    dec_inv rate st' /\ kept st st' /\ (silk_known st.(DecControl) -> silk_known st'.(DecControl)) /\
    (on = true -> len buf = 2 * unit_size st * st.(channels))).
Proof.
  intros Hrec Hinv Hk Hf. destruct (inv_units st Hinv) as (Hu & Hch & _ & _ & HF5 & _).
  unfold conceal. destruct on; [|by apply must_ok]. rewrite HF5.
  assert (0 <= 2 * unit_size st * channels st) by nia.
  replace (Z.min (2 * unit_size st) (k * unit_size st)) with (Z.min 2 k * unit_size st) by nia.
  destruct (di_frame _ _ Hinv) as (kf & Hkf & Ef).
  eapply must_bind; [apply (Hrec st _ 0 (Z.min 2 k) kf 0); try done; rewrite ?len_repeat_Z; try done; nia|].
  intros [[st' buf] ret] (Hi & Hkept & Hkn & [El _] & _). rewrite len_repeat_Z in El by done.
  apply must_ok. by split_and!.
Qed.

Lemma inv_set_prev r m red (st : decoder) :
  dec_inv rate st -> In m [MODE_SILK_ONLY; MODE_HYBRID; MODE_CELT_ONLY] ->
  (m <> MODE_CELT_ONLY -> silk_known st.(DecControl)) -> dec_inv rate (set_prev r m red st).
Proof.
  intros [] Hm Hk. split; try done.
  - cbn [prev_mode set_prev]. by right.
  - cbn [prev_mode set_prev DecControl]. intros [->| ->]; apply Hk; done.
Qed.

Lemma sat_transition_stage (st : decoder) pcm p k transition buf :
  dec_inv rate st -> 1 <= k -> 0 <= p -> p + k * unit_size st * st.(channels) <= len pcm ->
  (transition = true -> len buf = 2 * unit_size st * st.(channels)) ->
  must (transition_stage st pcm p (k * unit_size st) transition buf)
    (fun pcm' => within pcm pcm' p (k * unit_size st * st.(channels))).
Proof.
  intros Hinv Hk Hp Hl Hb. destruct (inv_units st Hinv) as (Hu & Hch & _ & HF2 & HF5 & _).
  unfold transition_stage. destruct transition; [|by apply must_ok]. specialize (Hb eq_refl). cbv zeta.
  rewrite HF5. destruct (Z.geb_spec (k * unit_size st) (2 * unit_size st)).
  - apply (sat_copy_fade (rate := rate)); done || nia.
  - eapply must_impl; [apply (sat_fade_to (rate := rate)); rewrite ?HF2; done || nia|]. cbv beta. intros pcm' Hw. eapply within_sub; [done|nia|nia].
Qed.

(** ** The whole frame *)

(** The frame to decode: lost, or of a packet whose parameters the decoder holds. *)
Definition frame_case (st : decoder) (data : option (list Z)) (n m b k : Z) : Prop :=
  match data with
  | None => b = 0 /\ 0 <= n <= 1 /\ silk_units k /\ (m <> MODE_CELT_ONLY -> silk_known st.(DecControl)) /\
            (m <> MODE_SILK_ONLY -> k = 1 \/ k = 2 \/ k = 4 \/ k = 8)
  | Some l => n = len l /\ bytes l /\ 2 <= n <= 1275 /\ st.(frame_size) = k * unit_size st /\
              params_ok (unit_size st) m b (k * unit_size st)
  end.

Definition frame_post (st : decoder) (data : option (list Z)) (pcm : list Z) (p m k : Z) : decoder * list Z * Z -> Prop :=
  fun '(st', pcm', ret) =>
    dec_inv rate st' /\ kept st st' /\ (silk_known st.(DecControl) -> silk_known st'.(DecControl)) /\
    within pcm pcm' p (k * unit_size st * st.(channels)) /\
    (ret = k * unit_size st \/ ret < 0 /\ data <> None).

Lemma frame_case_units st data n m b k :
  dec_inv rate st -> frame_case st data n m b k ->
  silk_units k /\ (m <> MODE_SILK_ONLY -> k = 1 \/ k = 2 \/ k = 4 \/ k = 8) /\
  (is_lost data = true -> m <> MODE_CELT_ONLY -> silk_known st.(DecControl)) /\
  (is_lost data = false -> m = MODE_SILK_ONLY -> b = 1101 \/ b = 1102 \/ b = 1103) /\
  (is_lost data = false -> m <> MODE_CELT_ONLY -> 4 <= k) /\
  0 <= n <= 1275 /\ (b = 0 \/ 1101 <= b <= 1105).
Proof.
  intros Hinv. destruct (inv_units st Hinv) as (Hu & _). unfold frame_case, silk_units, frame_units, params_ok.
  unfold MODE_SILK_ONLY, MODE_HYBRID, MODE_CELT_ONLY.
  destruct data as [l|]; cbn [is_lost].
  - intros (Hn & Hb & Hn2 & Hf & Hp).
    destruct Hp as [(-> & ? & Hk)|[(-> & ? & Hk)|(-> & ? & Hk)]]; split_and!; try done; try lia; nia.
  - intros (-> & Hn & Hk & Hs & Hm). split_and!; done || lia.
Qed.

Lemma sat_endband (st : decoder) b :
  b = 0 \/ 1101 <= b <= 1105 ->
  must (if negb (b =? 0) then e ← endband b; must_ctl (CELT_SET_END_BAND e) st else Ok st)
    (fun st' => kept_all st st').
Proof.
  intros Hb. destruct (Z.eqb_spec b 0); [by apply must_ok|]. cbn [negb]. unfold endband.
  assert (Hc : b = 1101 \/ b = 1102 \/ b = 1103 \/ b = 1104 \/ b = 1105) by lia.
  destruct Hc as [->|[->|[->|[->| ->]]]]; done.
Qed.

Lemma kept_uc (st st' : decoder) : kept st st' -> unit_size st' = unit_size st /\ channels st' = channels st.
Proof. intros Hk. by destruct (kept_fields _ _ Hk) as (? & _ & _ & _ & _ & _ & ? & _). Qed.

(** From the redundant frame on. *)
Section Rest.
Context (st0 : decoder) (data : option (list Z)) (p k m b : Z).
Hypothesis (Hm : In m [MODE_SILK_ONLY; MODE_HYBRID; MODE_CELT_ONLY]).
Abbreviation u := (unit_size st0).
Abbreviation ch := (channels st0).
(** The state behind any of the stages. *)
Definition stage_inv (st : decoder) : Prop :=
  dec_inv rate st /\ kept st0 st /\ (m <> MODE_CELT_ONLY -> silk_known st.(DecControl)) /\
  (silk_known st0.(DecControl) -> silk_known st.(DecControl)).

Lemma stage_inv_kept st st' : stage_inv st -> kept_all st st' -> stage_inv st'.
Proof.
  intros (Hi & Hk & Hn & Hs) Ha. pose proof Ha as (Hk' & _ & Hc).
  assert (Hkn : silk_known (DecControl st) -> silk_known (DecControl st')).
  { injection Hc as E1 E2 E3 E4 E5. unfold silk_known. by rewrite E2, E4. }
  split_and!; [by eapply kept_all_inv|by eapply kept_trans|auto|auto].
Qed.

Lemma stage_inv_units st : stage_inv st -> dec_inv rate st /\ unit_size st = u /\ channels st = ch /\ F2_5 st = u.
Proof.
  intros (Hi & Hk & _). destruct (kept_uc _ _ Hk) as [E1 E2]. destruct (inv_units st Hi) as (_ & _ & _ & HF & _).
  split_and!; congruence.
Qed.

(** The redundant frame lies in the packet. *)
Definition red_ok (red : bool) (n rb : Z) : Prop :=
  red = true -> match data with Some l => 0 <= n /\ 0 <= rb /\ n + rb <= len l | None => False end.

Lemma sat_redundant st n rb red :
  stage_inv st -> red_ok red n rb -> red = true ->
  must (redundant_frame junk st data n rb) (fun '(st', audio, _) =>
    stage_inv st' /\ kept_all st st' /\ len audio = 2 * u * ch).
Proof.
  intros Hs Hr ->. specialize (Hr eq_refl). destruct data as [l|]; [|done]. destruct Hr as (H1 & H2 & H3).
  destruct (stage_inv_units _ Hs) as (Hi & U & C & _).
  eapply must_impl; [by apply (sat_redundant_frame (rate := rate))|].
  intros [[st' audio] r] (Hk' & El). rewrite U, C in El. split_and!; [by eapply stage_inv_kept|done|done].
Qed.

(** The redundant frame of a change to CELT and its fade at the end. *)
Lemma sat_redundant_end st n rb pcm (red c2s : bool) audio rng0 h :
  stage_inv st -> h = channels st * F2_5 st -> 1 <= k -> (red = true -> 2 <= k) -> 0 <= p ->
  p + k * u * ch <= len pcm -> red_ok red n rb -> (red && c2s = true -> len audio = 2 * u * ch) ->
  must (if red && negb c2s then
         st ← must_ctl CELT_RESET_STATE st;
         '(st, redundant_audio, redundant_rng) ← redundant_frame junk st data n rb;
         let q := p + st.(channels) * (k * u - F2_5 st) in
         pcm ← fade_to st pcm q redundant_audio h pcm q;
         Ok (st, pcm, redundant_audio, redundant_rng)
       else Ok (st, pcm, audio, rng0))
    (fun '(st', pcm', audio', _) => stage_inv st' /\ within pcm pcm' p (k * u * ch) /\
       (red && c2s = true -> len audio' = 2 * u * ch)).
Proof.
  intros Hs -> Hk1 Hk Hp Hl Hred Haud. destruct (stage_inv_units st Hs) as (Hi & U & C & F).
  destruct (inv_units st Hi) as (Hu & Hch & _). rewrite U in Hu. rewrite C in Hch.
  destruct red, c2s; cbn [andb negb] in *; try (apply must_ok; by split_and!). specialize (Hk eq_refl).
  eapply must_bind; [by apply sat_ctl|]. cbv beta. intros st0' Hk0. apply (stage_inv_kept _ _ Hs) in Hk0 as Hs0.
  eapply must_bind; [by apply (sat_redundant st0' n rb true)|].
  intros [[st' audio'] r] (Hs' & Hk' & El). destruct (stage_inv_units st' Hs') as (Hi' & U' & C' & F').
  cbv zeta. rewrite F', C', F, C.
  eapply must_bind; [apply (sat_fade_to (rate := rate)); rewrite ?U', ?C'; done || nia|]. cbv beta.
  intros pcm' Hw. rewrite U', C' in Hw. apply must_ok. split_and!; try done. eapply within_sub; [done|nia|nia].
Qed.

Lemma sat_rest st dec n pcm pcm_silk fec accum trans red c2s rb buf :
  stage_inv st -> silk_units k -> (m <> MODE_SILK_ONLY -> k = 1 \/ k = 2 \/ k = 4 \/ k = 8) ->
  b = 0 \/ 1101 <= b <= 1105 -> 0 <= n <= 1275 -> 0 <= p -> p + k * u * ch <= len pcm ->
  (m <> MODE_CELT_ONLY -> accum = false -> k * u * ch <= len pcm_silk) ->
  red_ok red n rb -> (red = true -> 4 <= k) -> (trans = true -> len buf = 2 * u * ch) ->
  must (decode_frame_rest junk st data dec n pcm pcm_silk p (k * u) m b fec accum trans red c2s rb buf) (fun '(st', pcm', ret) =>
    stage_inv st' /\ within pcm pcm' p (k * u * ch) /\ (ret = k * u \/ ret < 0 /\ is_lost data = false)).
Proof.
  intros Hs Hk Hkm Hb Hn Hp Hl Hsilk Hred Hrk Htr. unfold decode_frame_rest. cbv zeta.
  assert (1 <= k <= 24) by (unfold silk_units, frame_units in Hk; lia).
  eapply must_bind; [by apply sat_endband|]. cbv beta. intros st1 Hk1.
  apply (stage_inv_kept _ _ Hs) in Hk1 as Hs1. clear Hs st Hk1.
  eapply must_bind; [apply sat_ctl|].
  { destruct (di_stream _ _ (proj1 Hs1)) as [-> | ->]; done. }
  cbv beta. intros st2 Hk2. apply (stage_inv_kept _ _ Hs1) in Hk2 as Hs2.
  eapply (must_bind _ _ (fun '(st', audio, _) => stage_inv st' /\ (red && c2s = true -> len audio = 2 * u * ch))).
  { destruct red, c2s; cbn [andb]; try (by apply must_ok).
    eapply must_impl; [by apply (sat_redundant st2 n rb true)|].
    intros [[st' audio] r] (H1 & _ & H2). done. }
  intros [[st3 audio] rng3] (Hs3 & Haud).
  eapply must_bind; [apply sat_ctl; by destruct (m =? MODE_CELT_ONLY)|]. cbv beta. intros st4 Hk4.
  apply (stage_inv_kept _ _ Hs3) in Hk4 as Hs4.
  destruct (stage_inv_units _ Hs4) as (Hi4 & U4 & C4 & _).
  rewrite <- U4, <- C4 in Hsilk, Hl.
  eapply must_bind; [rewrite <- U4; by apply (sat_celt_stage (rate := rate))|].
  intros [[[st5' dec5] pcm5] ret] (Hk5 & Hw5 & Hret). rewrite U4, C4 in Hw5, Hl.
  assert (Hs5' : stage_inv st5') by (by eapply stage_inv_kept). pose proof Hw5 as [L5 _].
  eapply must_bind; [by apply sat_ctl|]. cbv beta. intros st5 Hk5'. apply (stage_inv_kept _ _ Hs5') in Hk5' as Hs5.
  eapply must_bind; [apply (sat_redundant_end st5); try done; [lia|intros Hrt; specialize (Hrk Hrt); lia|lia]|].
  intros [[[st6 pcm6] audio6] rng6] (Hs6 & Hw6 & Haud6). pose proof Hw6 as [L6 _].
  destruct (stage_inv_units _ Hs6) as (Hi6 & U6 & C6 & F6). destruct (stage_inv_units _ Hs5) as (_ & U5 & C5 & F5').
  destruct (inv_units st6 Hi6) as (Hu & Hch & _). rewrite U6 in Hu. rewrite C6 in Hch.
  replace (channels st5 * F2_5 st5) with (channels st6 * F2_5 st6) by congruence.
  eapply (must_bind _ _ (fun pcm' => within pcm6 pcm' p (k * u * ch))).
  { destruct (red && c2s) eqn:Er; cbn [andb]; [|by apply must_ok].
    destruct (negb _ || _); [|by apply must_ok]. specialize (Haud6 eq_refl). apply andb_true_iff in Er as [-> _].
    specialize (Hrk eq_refl). rewrite <- C6. apply (sat_copy_fade (rate := rate)); rewrite ?U6, ?C6; done || nia. }
  intros pcm7 Hw7. pose proof Hw7 as [L7 _].
  eapply must_bind; [rewrite <- U6; apply (sat_transition_stage st6); rewrite ?U6, ?C6; try done; lia|]. cbv beta.
  intros pcm8 Hw8. rewrite U6, C6 in Hw8. pose proof Hw8 as [L8 _].
  eapply must_bind; [apply sat_gain_stage; rewrite ?C6; [done|nia|lia]|]. cbv beta. intros pcm9 Hw9. rewrite C6 in Hw9.
  apply must_ok. split_and!.
  - destruct Hs6 as (H1 & H2 & H3 & H4). split_and!; [by apply inv_set_prev|done|done|done].
  - do 4 (eapply within_trans; [eassumption|]). done.
  - destruct (Z.ltb_spec ret 0); [right|by left]. split; [done|]. destruct (is_lost data); [|done].
    specialize (Hret (or_introl eq_refl)). lia.
Qed.
End Rest.

(** A frame that is there may ask for the concealment of at most 5 ms. *)
Lemma sat_main rec (st : decoder) data n pcm p fsize k fec m b :
  (is_lost data = false -> plc_spec 8 rec) -> dec_inv rate st ->
  In m [MODE_SILK_ONLY; MODE_HYBRID; MODE_CELT_ONLY] -> frame_case st data n m b k -> k * unit_size st <= fsize -> (4 * unit_size st <= fsize -> m <> MODE_CELT_ONLY -> 4 <= k) ->
  0 <= p -> p + k * unit_size st * st.(channels) <= len pcm ->
  must (decode_frame_main junk junk_dec rec st data n pcm p fsize fec (k * unit_size st) m b)
    (frame_post st data pcm p m k).
Proof.
  intros Hrec Hinv Hm Hcase Hfs Hacc Hp Hl.
  destruct (frame_case_units _ _ _ _ _ _ Hinv Hcase) as (Hk & Hkm & Hkn & Hb & Hk4 & Hn & Hb0).
  destruct (inv_units st Hinv) as (Hu & Hch & _ & _ & _ & HF10 & _).
  assert (Hk1 : 1 <= k <= 24) by (unfold silk_units, frame_units in Hk; lia).
  unfold decode_frame_main. cbv zeta. set (tr := _ && _ && _).
  assert (Htr : tr = true -> is_lost data = false) by (subst tr; by destruct data).
  eapply (must_bind _ _ (fun '(st', buf) => dec_inv rate st' /\ kept st st' /\
    (silk_known st.(DecControl) -> silk_known st'.(DecControl)) /\
    (tr && (m =? MODE_CELT_ONLY) = true -> len buf = 2 * unit_size st * channels st))).
  { destruct (tr && (m =? MODE_CELT_ONLY)) eqn:Et; [|apply must_ok; split_and!; done].
    apply andb_true_iff in Et as [Et _]. specialize (Htr Et). destruct data as [l|]; [|done].
    apply sat_conceal; [by apply Hrec|done|lia|]. by destruct Hcase as (_ & _ & _ & ? & _). }
  intros [st1 buf1] (Hi1 & Hk1' & Hkn1 & Hbuf1). destruct (kept_uc _ _ Hk1') as [U1 C1].
  destruct (Z.gtb_spec (k * unit_size st) fsize); [lia|].
  set (dec := match data with None => _ | Some _ => _ end).
  set (accum := negb (m =? MODE_CELT_ONLY) && (fsize >=? F10 st)).
  rewrite <- U1, <- C1 in Hl.
  eapply must_bind; [rewrite <- U1; apply (sat_silk_stage (rate := rate)); auto|].
  { subst accum. rewrite andb_true_iff, negb_true_iff, Z.eqb_neq, HF10, Z.geb_le. intros [Ha1 Ha2]. auto. }
  intros [[[[st2 dec2] pcm2] pcm_silk] bad] (Hi2 & Hk2 & Hp2 & Hro & Hkn2 & Hw2 & Hsz & Hbad).
  rewrite U1, C1 in Hw2, Hsz, Hl. assert (Hk02 : kept st st2) by (by eapply kept_trans).
  destruct bad.
  { assert (Hnl : is_lost data = false) by (destruct (is_lost data); [by discriminate Hbad; left|done]).
    apply must_ok. split_and!; try done; [auto|]. right. split; [done|]. by destruct data. }
  pose proof (redundancy_stage_ok data dec2 n m fec) as Hred.
  destruct (redundancy_stage data dec2 n m fec) as [[[[dec3 n3] red] c2s] rb].
  destruct Hred as [Hn3 Hred]; [|lia|].
  { intros Hnl. subst dec. destruct data as [l|]; [|done]. destruct Hcase as (-> & Hbl & _).
    destruct (Hro (dec_init_safe l (len l) Hbl ltac:(lia))) as [Hok Ht]. rewrite tell_init in Ht. done. }
  eapply (must_bind _ _ (fun '(st', buf) => dec_inv rate st' /\ kept st st' /\
    (silk_known st2.(DecControl) -> silk_known st'.(DecControl)) /\
    (tr && negb red = true -> len buf = 2 * unit_size st * channels st))).
  { destruct (kept_uc _ _ Hk02) as [U2 C2].
    destruct (tr && negb red) eqn:Et; cbn [andb]; [|apply must_ok; split_and!; done].
    apply andb_true_iff in Et as [Et _]. rewrite Et in Hbuf1. specialize (Htr Et).
    destruct (m =? MODE_CELT_ONLY); cbn [negb andb] in *; [apply must_ok; split_and!; auto|].
    destruct data as [l|]; [|done]. rewrite <- U2.
    eapply must_impl; [apply (sat_conceal rec st2 true k); [by apply Hrec|done|lia|]|].
    - destruct (kept_fields _ _ Hk02) as (_ & _ & _ & _ & _ & -> & -> & _). by destruct Hcase as (_ & _ & _ & ? & _).
    - intros [st' buf] (H1 & H2 & H3 & H4). rewrite C2 in H4. split_and!; [done|by eapply kept_trans|done|done]. }
  intros [st3 buf3] (Hi3 & Hk3 & Hkn3 & Hbuf3). pose proof Hw2 as [L2 _].
  eapply must_impl; [apply (sat_rest st); try done|].
  - split_and!; auto.
  - lia.
  - lia.
  - intros Hr. destruct (Hred Hr) as (Hnl & _ & H1 & H2 & H3). destruct data as [l|]; [|done].
    destruct Hcase as (-> & _). lia.
  - intros Hr. destruct (Hred Hr) as (Hnl & Hmc & _). auto.
  - intros [[st' pcm'] ret] ((H1 & H2 & H3 & H4) & Hw & Hret). split_and!; auto.
    + by eapply within_trans.
    + destruct Hret as [|[Hr Hnl]]; [by left|]. right. split; [done|]. by destruct data.
Qed.

(** ** Concealment *)

Lemma sat_pieces rec fuel (st : decoder) pcm p k :
  plc_spec 8 rec -> dec_inv rate st -> 1 <= k <= Z.of_nat fuel -> 0 <= p ->
  p + k * unit_size st * st.(channels) <= len pcm ->
  must (plc_pieces rec fuel st pcm p (k * unit_size st)) (fun '(st', pcm', ret) =>
    dec_inv rate st' /\ kept st st' /\ (silk_known st.(DecControl) -> silk_known st'.(DecControl)) /\
    within pcm pcm' p (k * unit_size st * st.(channels)) /\ ret = 0).
Proof.
  intros Hrec. revert st pcm p k. induction fuel as [|fuel IH]; intros st pcm p k Hinv Hk Hp Hl; [lia|].
  cbn [plc_pieces]. destruct (inv_units st Hinv) as (Hu & Hch & _ & _ & _ & _ & HF20 & _). rewrite HF20.
  replace (Z.min (k * unit_size st) (8 * unit_size st)) with (Z.min k 8 * unit_size st) by nia.
  destruct (di_frame _ _ Hinv) as (kf & Hkf & Ef).
  eapply must_bind; [apply (Hrec st pcm p (Z.min k 8) kf 0); done || nia|].
  intros [[st1 pcm1] ret] (Hi1 & Hk1 & Hs1 & Hw1 & j & -> & Hj & _).
  destruct (kept_uc _ _ Hk1) as [U1 C1].
  apply (within_sub _ _ _ _ p (k * unit_size st * channels st)) in Hw1; [|lia|nia].
  destruct (Z.ltb_spec (j * unit_size st) 0); [nia|]. cbv zeta.
  destruct (Z.gtb_spec (k * unit_size st - j * unit_size st) 0); [|apply must_ok; by split_and!].
  rewrite C1. replace (k * unit_size st - j * unit_size st) with ((k - j) * unit_size st1) by nia.
  assert (j < k) by nia. pose proof Hw1 as [L1 _].
  eapply must_impl; [apply IH; [done|lia|nia|rewrite U1, C1; nia]|].
  intros [[st2 pcm2] ret] (Hi2 & Hk2 & Hs2 & Hw2 & ->). rewrite U1, C1 in Hw2. split_and!; auto.
  - by eapply kept_trans.
  - eapply within_trans; [done|]. eapply within_sub; [done|nia|nia].
Qed.

(** The size that concealment gives, in units of 2.5 ms. *)
Definition plc_units (m k : Z) : Z :=
  if k <? 8 then if k >? 4 then 4 else if negb (m =? MODE_SILK_ONLY) && (k =? 3) then 2 else k else k.

Lemma plc_units_ok m k :
  1 <= k <= 8 ->
  let j := plc_units m k in
  1 <= j <= k /\ silk_units j /\ (m <> MODE_SILK_ONLY -> j = 1 \/ j = 2 \/ j = 4 \/ j = 8) /\
  (4 <= k -> 4 <= j) /\ (frame_units k -> j = k).
Proof.
  intros Hk. unfold plc_units, silk_units, frame_units. cbv zeta. destruct (Z.ltb_spec k 8); [|lia].
  destruct (Z.gtb_spec k 4); [lia|]. destruct (Z.eqb_spec m MODE_SILK_ONLY); cbn [negb andb]; [lia|].
  destruct (Z.eqb_spec k 3); lia.
Qed.

Lemma plc_audiosize_units (st : decoder) m k :
  dec_inv rate st -> 1 <= k -> plc_audiosize st m (k * unit_size st) = plc_units m k * unit_size st.
Proof.
  intros Hinv Hk. destruct (inv_units st Hinv) as (Hu & _ & _ & _ & HF5 & HF10 & HF20 & _).
  unfold plc_audiosize, plc_units. rewrite HF5, HF10, HF20.
  destruct (Z.ltb_spec (k * unit_size st) (8 * unit_size st)), (Z.ltb_spec k 8); try nia.
  destruct (Z.gtb_spec (k * unit_size st) (4 * unit_size st)), (Z.gtb_spec k 4); try nia.
  destruct (negb _); [|done]. cbn [andb].
  destruct (Z.gtb_spec (k * unit_size st) (2 * unit_size st)),
    (Z.ltb_spec (k * unit_size st) (4 * unit_size st)), (Z.eqb_spec k 3); cbn [andb]; try nia.
Qed.

Lemma sat_body_lost rec (st : decoder) data n pcm p k kf fec :
  (8 < k -> plc_spec 8 rec) -> dec_inv rate st -> frame_units kf -> st.(frame_size) = kf * unit_size st ->
  1 <= k -> 0 <= p -> 0 <= n <= 1 -> p + k * unit_size st * st.(channels) <= len pcm ->
  must (decode_frame_body junk junk_dec rec st data n pcm p (k * unit_size st) fec) (plc_post st pcm p k kf).
Proof.
  intros Hrec Hinv Hkf Ef Hk Hp Hn Hl.
  destruct (inv_units st Hinv) as (Hu & Hch & _ & HF2 & _ & _ & HF20 & H48 & _).
  unfold decode_frame_body. rewrite HF2, H48. destruct (Z.ltb_spec (k * unit_size st) (unit_size st)); [nia|].
  cbv zeta. destruct (Z.leb_spec n 1); [|lia]. rewrite Ef.
  assert (Hkf' : 1 <= kf <= 24) by (unfold frame_units in Hkf; lia).
  set (k0 := Z.min k kf). assert (Hk0 : 1 <= k0 <= 24 /\ k0 <= k) by lia.
  replace (Z.min (Z.min (k * unit_size st) (48 * unit_size st)) (kf * unit_size st)) with (k0 * unit_size st) by nia.
  set (m := if prev_redundancy st then MODE_CELT_ONLY else prev_mode st).
  assert (Hsub : k0 * unit_size st * channels st <= k * unit_size st * channels st) by nia.
  destruct (Z.eqb_spec m 0) as [|Hm0].
  { assert (0 <= k0 * unit_size st * channels st) by nia.
    eapply must_bind; [apply sat_store; rewrite ?len_repeat_Z; done || lia|]. cbv beta. intros pcm' Hw.
    rewrite len_repeat_Z in Hw by done. apply must_ok. split_and!; try done.
    - eapply within_sub; [done|lia|lia].
    - exists k0. split_and!; done || lia. }
  rewrite HF20. destruct (Z.gtb_spec (k0 * unit_size st) (8 * unit_size st)).
  { assert (8 < k0) by nia.
    eapply must_bind; [apply sat_pieces; auto; [apply Hrec; lia|nia|lia]|].
    intros [[st' pcm'] ret] (Hi & Hkp & Hs & Hw & ->). apply must_ok. split_and!; auto.
    - eapply within_sub; [done|lia|lia].
    - exists k0. split_and!; done || lia. }
  assert (Hk8 : k0 <= 8) by nia. rewrite plc_audiosize_units by (done || lia).
  destruct (plc_units_ok m k0 ltac:(lia)) as (Hj & Hju & Hjm & Hj4 & Hjk). set (j := plc_units m k0) in *.
  assert (Hm : In m [MODE_SILK_ONLY; MODE_HYBRID; MODE_CELT_ONLY]).
  { subst m. destruct (prev_redundancy st); [cbn; tauto|]. by destruct (di_prev _ _ Hinv). }
  assert (Hj1 : j * unit_size st <= k0 * unit_size st) by (apply Z.mul_le_mono_nonneg_r; lia).
  assert (Hj2 : j * unit_size st * channels st <= k0 * unit_size st * channels st)
    by (apply Z.mul_le_mono_nonneg_r; lia).
  eapply must_impl; [apply sat_main; try done|].
  - split_and!; try done; try lia. intros Hmc. apply (di_silk _ _ Hinv). subst m.
    destruct (prev_redundancy st); [done|]. destruct Hm as [E|[E|[E|[]]]]; [by left|by right|congruence].
  - intros Hq _. apply Hj4. apply (Z.mul_le_mono_pos_r _ _ (unit_size st)); lia.
  - lia.
  - intros [[st' pcm'] ret] (P1 & P2 & P3 & Hw & Hret). split_and!; auto.
    + eapply within_sub; [done|lia|lia].
    + destruct Hret as [->|[_ []]]; [|done]. exists j. split_and!; auto; lia.
Qed.

Lemma plc_spec_1 : plc_spec 8 (opus_decode_frame junk junk_dec 1).
Proof. intros st pcm p k kf n Hinv Hkf Ef Hk Hp Hn Hl. apply sat_body_lost; done || lia. Qed.

(** A lost frame, or one of at most one byte, of any duration. *)
Lemma sat_frame_lost (st : decoder) data n pcm p k kf fec :
  dec_inv rate st -> frame_units kf -> st.(frame_size) = kf * unit_size st ->
  1 <= k -> 0 <= p -> 0 <= n <= 1 -> p + k * unit_size st * st.(channels) <= len pcm ->
  must (opus_decode_frame junk junk_dec 2 st data n pcm p (k * unit_size st) fec) (plc_post st pcm p k kf).
Proof. intros. apply sat_body_lost; try done. intros _. apply plc_spec_1. Qed.

(** A frame of a packet. *)
Lemma sat_frame_data (st : decoder) l pcm p fsize k fec :
  dec_inv rate st -> bytes l -> 2 <= len l <= 1275 -> st.(frame_size) = k * unit_size st ->
  params_ok (unit_size st) st.(mode) st.(bandwidth) (k * unit_size st) ->
  k * unit_size st <= fsize -> 0 <= p -> p + k * unit_size st * st.(channels) <= len pcm ->
  must (opus_decode_frame junk junk_dec 2 st (Some l) (len l) pcm p fsize fec)
    (frame_post st (Some l) pcm p st.(mode) k).
Proof.
  intros Hinv Hb Hn Ef Hpar Hf Hp Hl. destruct (inv_units st Hinv) as (Hu & Hch & _ & HF2 & _ & _ & _ & H48 & _).
  assert (Hc : frame_case st (Some l) (len l) (mode st) (bandwidth st) k) by (unfold frame_case; split_and!; done || lia).
  destruct (frame_case_units _ _ _ _ _ _ Hinv Hc) as (Hk & _ & _ & _ & Hk4 & _).
  assert (1 <= k <= 24) by (unfold silk_units, frame_units in Hk; lia).
  cbn [opus_decode_frame]. unfold decode_frame_body. rewrite HF2, H48.
  destruct (Z.ltb_spec fsize (unit_size st)); [nia|]. cbv zeta. destruct (Z.leb_spec (len l) 1); [lia|]. rewrite Ef.
  apply sat_main; try done.
  - intros _. apply plc_spec_1.
  - destruct Hpar as [(-> & _)|[(-> & _)|(-> & _)]]; cbn; tauto.
  - nia.
  - auto.
Qed.
End FrameSafe.

(** ** The first byte of a packet *)

Definition toc_mode (toc : Z) : Z :=
  if negb (Z.land toc 0x80 =? 0) then MODE_CELT_ONLY
  else if Z.land toc 0x60 =? 0x60 then MODE_HYBRID else MODE_SILK_ONLY.

(** The duration of a frame in units of 2.5 ms. *)
Definition toc_units (toc : Z) : Z := samples_per_frame toc 48000 / 120.

(** [params_ok] decided, for rates in units of [u]. *)
Definition params_okb (m b k : Z) : bool :=
  (m =? MODE_SILK_ONLY) && ((b =? 1101) || (b =? 1102) || (b =? 1103)) && ((k =? 4) || (k =? 8) || (k =? 16) || (k =? 24))
  || (m =? MODE_HYBRID) && ((b =? 1104) || (b =? 1105)) && ((k =? 4) || (k =? 8))
  || (m =? MODE_CELT_ONLY) && ((b =? 1101) || (b =? 1103) || (b =? 1104) || (b =? 1105))
     && ((k =? 1) || (k =? 2) || (k =? 4) || (k =? 8)).

Lemma params_okb_ok u m b k : params_okb m b k = true -> params_ok u m b (k * u) /\ frame_units k.
Proof.
  unfold params_okb, params_ok, frame_units. rewrite !orb_true_iff, !andb_true_iff, !orb_true_iff, !Z.eqb_eq.
  intros [[[[Hm Hb] Hk]|[[Hm Hb] Hk]]|[[Hm Hb] Hk]]; (split; [|lia]);
    [left|right; left|right; right]; (split; [done|]; split; [tauto|]); destruct_or! Hk; subst k; lia.
Qed.

(** The packet's parameters at every rate. *)
Definition toc_bandwidth (toc : Z) : Z :=
  match opus_packet_get_bandwidth [toc] with Ok b => b | _ => 0 end.

Lemma toc_units_rate toc rate :
  0 <= toc < 256 -> In rate rates ->
  samples_per_frame toc rate = toc_units toc * (rate / 400) /\
  params_okb (toc_mode toc) (toc_bandwidth toc) (toc_units toc) = true.
Proof.
  intros Ht Hr.
  assert (H : forall r, In r rates -> zforall 256 0 (fun toc => (samples_per_frame toc r =? toc_units toc * (r / 400)) &&
    params_okb (toc_mode toc) (toc_bandwidth toc) (toc_units toc)) = true).
  { intros r [<-|[<-|[<-|[<-|[<-|[]]]]]]; by vm_compute. }
  pose proof (zforall_spec 256 0 _ toc (H rate Hr) ltac:(lia)) as E. cbv beta in E.
  apply andb_true_iff in E as [E1 E2]. by apply Z.eqb_eq in E1.
Qed.

Lemma get_bandwidth_toc data : 1 <= len data -> opus_packet_get_bandwidth data = Ok (toc_bandwidth data.[0]).
Proof. intros H. unfold opus_packet_get_bandwidth, toc_bandwidth. by rewrite get_ok by lia. Qed.

(** What the driver reads from the first byte. *)
Lemma packet_params data rate :
  bytes data -> 1 <= len data -> In rate rates ->
  let toc := data.[0] in
  opus_packet_get_mode data = Ok (toc_mode toc) /\ opus_packet_get_bandwidth data = Ok (toc_bandwidth toc) /\
  opus_packet_get_samples_per_frame data rate = Ok (toc_units toc * (rate / 400)) /\
  (exists c, opus_packet_get_nb_channels data = Ok c /\ (c = 1 \/ c = 2)) /\
  params_ok (rate / 400) (toc_mode toc) (toc_bandwidth toc) (toc_units toc * (rate / 400)) /\
  frame_units (toc_units toc).
Proof.
  intros Hb Hl Hr. cbv zeta. destruct (toc_units_rate data.[0] rate (bytes_rd data 0 Hb) Hr) as [E1 E2].
  destruct (params_okb_ok (rate / 400) _ _ _ E2) as [Hp Hk].
  unfold opus_packet_get_mode, opus_packet_get_samples_per_frame, opus_packet_get_nb_channels.
  rewrite get_bandwidth_toc, !get_ok by lia. cbn [mbind res_bind].
  split_and!; try done; [by rewrite E1|]. eexists. split; [done|]. destruct (negb _); tauto.
Qed.

(** ** States between frames *)

Section Native.
Context {rate : Z} `{L : SynthesisLaws rate SILK CELT} (junk : Z) (junk_dec : ec_ctx).
Abbreviation decoder := (OpusDecoder SILK CELT).

(** What decoding never changes. *)
Definition options_view (st : decoder) := (st.(channels), st.(Fs), st.(decode_gain), st.(complexity)).

Lemma kept_options st st' : kept st st' -> options_view st' = options_view st.
Proof. unfold kept, frame_view, options_view. intros E. injection E as E1 E2 E3 E4 E5 E6 E7 E8 E9. congruence. Qed.

Lemma inv_set_duration v (st : decoder) : dec_inv rate st -> dec_inv rate (set_duration v st).
Proof. by intros []. Qed.

Lemma inv_set_packet m b k s (st : decoder) :
  dec_inv rate st -> frame_units k -> s = 1 \/ s = 2 -> dec_inv rate (set_packet m b (k * unit_size st) s st).
Proof. intros [] Hk Hs. split; try done. by exists k. Qed.

(** ** Concealment of any duration *)

(** The samples, the duration and what is left of the state. *)
Definition lost_post (st : decoder) (pcm : list Z) (p K : Z) : decoder * list Z * Z -> Prop :=
  fun '(st', pcm', ret) =>
    dec_inv rate st' /\ options_view st' = options_view st /\ mode st' = mode st /\
    within pcm pcm' p (K * unit_size st * st.(channels)) /\
    ret = K * unit_size st /\ st'.(last_packet_duration) = ret.

Lemma sat_plc_loop fuel (st : decoder) pcm p K c :
  dec_inv rate st -> 0 <= c < K -> K - c <= Z.of_nat fuel -> 0 <= p ->
  p + K * unit_size st * st.(channels) <= len pcm ->
  must (plc_loop junk junk_dec fuel st pcm p (K * unit_size st) (c * unit_size st)) (lost_post st pcm p K).
Proof.
  revert st pcm c. induction fuel as [|fuel IH]; intros st pcm c Hinv Hc Hf Hp Hl; [lia|]. cbn [plc_loop].
  destruct (inv_units st Hinv) as (Hu & Hch & _). destruct (di_frame _ _ Hinv) as (kf & Hkf & Ef).
  replace (K * unit_size st - c * unit_size st) with ((K - c) * unit_size st) by lia.
  assert (Hkf1 : 1 <= kf) by (unfold frame_units in Hkf; lia).
  eapply must_bind; [apply (sat_frame_lost junk junk_dec st None 0 pcm _ (K - c) kf false); try done; try lia; nia|].
  intros [[st1 pcm1] ret] (Hi1 & Hk1 & _ & Hw1 & j & -> & Hj & _).
  destruct (kept_uc _ _ Hk1) as [U1 C1]. pose proof (kept_options _ _ Hk1) as O1.
  assert (Hm1 : mode st1 = mode st) by apply (kept_fields _ _ Hk1).
  apply (within_sub _ _ _ _ p (K * unit_size st * channels st)) in Hw1; [|nia|nia].
  destruct (Z.ltb_spec (j * unit_size st) 0); [nia|]. cbv zeta.
  replace (c * unit_size st + j * unit_size st) with ((c + j) * unit_size st) by lia.
  destruct (Z.ltb_spec ((c + j) * unit_size st) (K * unit_size st)).
  - assert (c + j < K) by nia. rewrite <- U1. pose proof Hw1 as [L1 _].
    eapply must_impl; [apply (IH st1 pcm1 (c + j)); try done; try lia; rewrite U1, C1; lia|].
    intros [[st2 pcm2] ret] (Hi2 & O2 & Hm2 & Hw2 & -> & Hd). rewrite U1, C1 in Hw2. rewrite U1 in *.
    split_and!; try done; try congruence. by eapply within_trans.
  - assert (c + j = K) as -> by nia. rewrite Z.eqb_refl. cbn [negb]. apply must_ok.
    split_and!; try done. by apply inv_set_duration.
Qed.

Lemma sat_decode_lost (st : decoder) pcm p K :
  dec_inv rate st -> 1 <= K -> 0 <= p -> p + K * unit_size st * st.(channels) <= len pcm ->
  must (decode_lost junk junk_dec st pcm p (K * unit_size st)) (lost_post st pcm p K).
Proof.
  intros Hinv HK Hp Hl. destruct (inv_units st Hinv) as (Hu & Hch & _). unfold decode_lost.
  change (Fs st / 400) with (unit_size st). rewrite Z.rem_mul by lia. cbn [Z.eqb negb].
  apply (sat_plc_loop _ st pcm p K 0); try done; try lia. nia.
Qed.

(** ** Frames of a packet *)

(** An empty frame conceals what the packet announces, whatever the buffer has
    room for. *)
Lemma frame_lost_room (st : decoder) data n pcm p fsize kf fec :
  dec_inv rate st -> 1 <= kf <= 48 -> st.(frame_size) = kf * unit_size st -> n <= 1 -> kf * unit_size st <= fsize ->
  opus_decode_frame junk junk_dec 2 st data n pcm p fsize fec =
  opus_decode_frame junk junk_dec 2 st data n pcm p (kf * unit_size st) fec.
Proof.
  intros Hinv Hkf Ef Hn Hf. destruct (inv_units st Hinv) as (Hu & _ & _ & HF2 & _ & _ & _ & H48 & _).
  cbn [opus_decode_frame]. unfold decode_frame_body. rewrite HF2, H48, Ef.
  destruct (Z.ltb_spec fsize (unit_size st)), (Z.ltb_spec (kf * unit_size st) (unit_size st)); try nia.
  cbv zeta. destruct (Z.leb_spec n 1); [|lia].
  replace (Z.min (Z.min fsize (48 * unit_size st)) (kf * unit_size st)) with (kf * unit_size st) by nia.
  by replace (Z.min (Z.min (kf * unit_size st) (48 * unit_size st)) (kf * unit_size st)) with (kf * unit_size st) by nia.
Qed.

Lemma sat_frame (st : decoder) l pcm p fsize k fec :
  dec_inv rate st -> bytes l -> len l <= 1275 -> st.(frame_size) = k * unit_size st -> frame_units k ->
  params_ok (unit_size st) st.(mode) st.(bandwidth) (k * unit_size st) ->
  k * unit_size st <= fsize -> 0 <= p -> p + k * unit_size st * st.(channels) <= len pcm ->
  must (opus_decode_frame junk junk_dec 2 st (Some l) (len l) pcm p fsize fec) (fun '(st', pcm', ret) =>
    dec_inv rate st' /\ kept st st' /\ within pcm pcm' p (k * unit_size st * st.(channels)) /\
    (ret = k * unit_size st \/ ret < 0)).
Proof.
  intros Hinv Hb Hn Ef Hk Hpar Hf Hp Hl. pose proof (len_nonneg l).
  assert (1 <= k <= 24) by (unfold frame_units in Hk; lia).
  destruct (decide (len l <= 1)).
  - rewrite (frame_lost_room st _ _ _ _ _ k) by (done || lia).
    eapply must_impl; [apply (sat_frame_lost junk junk_dec st (Some l) (len l) pcm p k k fec); try done; lia|].
    intros [[st' pcm'] ret] (Hi & Hkp & _ & Hw & j & -> & _ & Hj). rewrite Z.min_id in Hj.
    split_and!; try done. left. by rewrite Hj.
  - eapply must_impl; [apply (sat_frame_data junk junk_dec st l pcm p fsize k fec); try done; lia|].
    intros [[st' pcm'] ret] (Hi & Hkp & _ & Hw & Hret). split_and!; try done. tauto.
Qed.

(** The next frame's bytes. *)
Lemma load_frame packet sd r i :
  bytes packet -> parse_ok packet sd r -> 0 <= i < r.(pr_count) ->
  exists l, load packet r.(pr_frames).[i] r.(pr_size).[i] = Ok l /\ bytes l /\ len l = r.(pr_size).[i] /\ len l <= 1275.
Proof.
  intros Hb Hr Hi. destruct (parsed_inside _ _ _ Hr i Hi) as [H1 H2]. pose proof (po_sizes _ _ _ Hr i Hi) as H3.
  destruct (po_inside _ _ _ Hr) as [H4 H5]. destruct (po_padding _ _ _ Hr) as [_ H6].
  pose proof (sat_load packet r.(pr_frames).[i] r.(pr_size).[i] ltac:(lia) ltac:(lia) ltac:(lia)) as Hs.
  unfold load in *. destruct (Z.leb_spec r.(pr_size).[i] 0).
  { exists []. split_and!; try done; unfold len; cbn; try lia. constructor. }
  destruct (_ && _); [|done]. eexists. split; [done|]. cbn in Hs. split_and!; [by apply bytes_slice|done|lia].
Qed.

(** What frames of [k] units leave of the state and the samples: [c] frames are
    behind us. *)
Definition frames_post (st : decoder) (pcm : list Z) (p k count : Z) : decoder * list Z * Z -> Prop :=
  fun '(st', pcm', ret) =>
    dec_inv rate st' /\ options_view st' = options_view st /\
    within pcm pcm' p (count * k * unit_size st * st.(channels)) /\
    (ret < 0 \/ ret = count * k * unit_size st /\ st'.(last_packet_duration) = ret /\ mode st' = mode st).

Lemma sat_decode_frames packet sd r n (st : decoder) pcm p fsize k i d :
  bytes packet -> parse_ok packet sd r -> 0 <= i -> i + Z.of_nat n = r.(pr_count) ->
  ((0 < n)%nat -> d = r.(pr_frames).[i]) ->
  dec_inv rate st -> st.(frame_size) = k * unit_size st -> frame_units k ->
  params_ok (unit_size st) st.(mode) st.(bandwidth) (k * unit_size st) ->
  r.(pr_count) * k * unit_size st <= fsize -> 0 <= p ->
  p + r.(pr_count) * k * unit_size st * st.(channels) <= len pcm ->
  must (decode_frames junk junk_dec n i packet d r.(pr_size) st pcm p fsize
         (k * unit_size st) (i * k * unit_size st)) (frames_post st pcm p k r.(pr_count)).
Proof.
  intros Hb Hr. revert st pcm i d. induction n as [|n IH]; intros st pcm i d Hi0 Hin Hd Hinv Ef Hk Hpar Hf Hp Hl; cbn [decode_frames].
  { apply must_ok. replace i with r.(pr_count) in * by lia. split_and!; try done; [by apply inv_set_duration|by right]. }
  destruct (inv_units st Hinv) as (Hu & Hch & _). assert (Hk1 : 1 <= k <= 24) by (unfold frame_units in Hk; lia).
  rewrite (Hd ltac:(lia)). destruct (load_frame packet sd r i Hb Hr ltac:(lia)) as (l & -> & Hbl & Hll & Hl2).
  cbn [mbind res_bind]. rewrite <- Hll.
  assert (Hs : (i + 1) * k * unit_size st <= r.(pr_count) * k * unit_size st)
    by (do 2 (apply Z.mul_le_mono_nonneg_r; [lia|]); lia).
  assert (Hs' : (i + 1) * k * unit_size st * channels st <= r.(pr_count) * k * unit_size st * channels st)
    by (apply Z.mul_le_mono_nonneg_r; lia).
  assert (H0 : 0 <= i * k * unit_size st * channels st) by (repeat apply Z.mul_nonneg_nonneg; lia).
  eapply must_bind; [apply (sat_frame st l pcm _ _ k false); try done; lia|].
  intros [[st1 pcm1] ret] (Hi1 & Hk1' & Hw1 & Hret).
  apply (within_sub _ _ _ _ p (r.(pr_count) * k * unit_size st * channels st)) in Hw1; [|lia|lia].
  pose proof (kept_options _ _ Hk1') as O1. destruct (kept_uc _ _ Hk1') as [U1 C1].
  destruct (Z.ltb_spec ret 0) as [Hneg|Hpos]; [apply must_ok; split_and!; try done; by left|].
  destruct Hret as [->|]; [|lia]. rewrite Z.eqb_refl. cbn [negb].
  pose proof (kept_fields _ _ Hk1') as (_ & _ & _ & B1 & M1 & F1 & _). pose proof Hw1 as [L1 _].
  replace (i * k * unit_size st + k * unit_size st) with ((i + 1) * k * unit_size st1) by (rewrite U1; lia).
  specialize (IH st1 pcm1 (i + 1) (r.(pr_frames).[i] + r.(pr_size).[i]) ltac:(lia) ltac:(lia)).
  rewrite U1, C1, F1, B1, M1 in IH.
  specialize (IH ltac:(intros; by rewrite (po_next _ _ _ Hr) by lia) Hi1 Ef Hk Hpar Hf Hp ltac:(lia)).
  rewrite Hll, U1. eapply must_impl; [exact IH|].
  intros [[st2 pcm2] ret] (Hi2 & O2 & Hw2 & Hret2). rewrite U1, C1 in Hw2. rewrite U1, M1 in Hret2.
  split_and!; [done|congruence|by eapply within_trans|done].
Qed.

(** ** Redundancy *)

Definition fec_post (st : decoder) (pcm : list Z) (p fsize : Z) : decoder * list Z * Z -> Prop :=
  fun '(st', pcm', ret) =>
    dec_inv rate st' /\ options_view st' = options_view st /\ within pcm pcm' p (fsize * st.(channels)) /\
    (ret < 0 \/ ret = fsize /\ st'.(last_packet_duration) = ret).

Lemma sat_decode_fec packet sd r (st : decoder) pcm p K k m b s :
  bytes packet -> parse_ok packet sd r -> dec_inv rate st -> frame_units k ->
  params_ok (unit_size st) m b (k * unit_size st) -> s = 1 \/ s = 2 -> 1 <= K -> 0 <= p ->
  p + K * unit_size st * st.(channels) <= len pcm ->
  must (decode_fec_packet junk junk_dec st packet r.(pr_payload_offset) r.(pr_size) pcm p (K * unit_size st) m b
         (k * unit_size st) s) (fec_post st pcm p (K * unit_size st)).
Proof.
  intros Hb Hr Hinv Hk Hpar Hs HK Hp Hl. destruct (inv_units st Hinv) as (Hu & Hch & _).
  assert (Hk1 : 1 <= k <= 24) by (unfold frame_units in Hk; lia). unfold decode_fec_packet.
  destruct (_ || _ || _) eqn:Ec.
  { eapply must_impl; [by apply sat_decode_lost|].
    intros [[st' pcm'] ret] (H1 & H2 & _ & H4 & -> & H6). split_and!; try done. by right. }
  apply orb_false_iff in Ec as [Ec _]. apply orb_false_iff in Ec as [Ec _]. apply Z.ltb_ge in Ec. cbv zeta.
  assert (HkK : k <= K) by nia.
  eapply (must_bind _ _ (fun '(st', pcm', ret) => dec_inv rate st' /\ options_view st' = options_view st /\
    within pcm pcm' p (K * unit_size st * channels st) /\ 0 <= ret)).
  { destruct (Z.eqb_spec (K * unit_size st - k * unit_size st) 0); cbn [negb]; [apply must_ok; split_and!; done|].
    replace (K * unit_size st - k * unit_size st) with ((K - k) * unit_size st) by lia.
    eapply must_bind; [apply (sat_decode_lost st pcm p (K - k)); try done; nia|].
    intros [[st' pcm'] ret] (H1 & H2 & _ & H4 & -> & H6).
    destruct (Z.ltb_spec ((K - k) * unit_size st) 0); [nia|]. rewrite Z.eqb_refl. cbn [negb].
    apply must_ok. split_and!; try done. eapply within_sub; [done|lia|nia]. }
  intros [[st1 pcm1] ret] (Hi1 & O1 & Hw1 & Hret). destruct (Z.ltb_spec ret 0); [lia|].
  assert (E1 : unit_size st1 = unit_size st /\ channels st1 = channels st)
    by (unfold unit_size; injection O1 as -> -> _ _; done).
  destruct E1 as [U1 C1]. set (st2 := set_packet _ _ _ _ _).
  assert (Hi2 : dec_inv rate st2) by (subst st2; rewrite <- U1; by apply inv_set_packet).
  pose proof (po_count _ _ _ Hr). destruct (po_first _ _ _ Hr) as [_ <-].
  destruct (load_frame packet sd r 0 Hb Hr ltac:(lia)) as (l & -> & Hbl & Hll & Hl2).
  cbn [mbind res_bind]. rewrite <- Hll. change (channels st2) with (channels st1). rewrite C1. pose proof Hw1 as [L1 _].
  assert (U2 : unit_size st2 = unit_size st) by exact U1.
  assert (C2 : channels st2 = channels st) by exact C1.
  assert (Hroom : p + channels st * (K * unit_size st - k * unit_size st) + k * unit_size st * channels st
    = p + K * unit_size st * channels st) by lia.
  assert (0 <= channels st * (K * unit_size st - k * unit_size st)) by nia.
  eapply must_bind; [apply (sat_frame st2 l pcm1 _ _ k true); rewrite ?U2, ?C2; try done; lia|].
  intros [[st3 pcm3] ret3] (Hi3 & Hk3 & Hw3 & Hret3). rewrite U2, C2 in Hw3.
  apply (within_sub _ _ _ _ p (K * unit_size st * channels st)) in Hw3; [|lia|lia].
  assert (O3 : options_view st3 = options_view st) by (rewrite (kept_options _ _ Hk3); exact O1).
  assert (Hw : within pcm pcm3 p (K * unit_size st * channels st)) by (by eapply within_trans).
  destruct (Z.ltb_spec ret3 0); apply must_ok; split_and!; try done; [by left|by apply inv_set_duration|by right].
Qed.

(** ** The whole call *)

(** The duration that [opus_packet_get_nb_samples] announces. *)
Lemma nb_samples_parsed packet sd r :
  bytes packet -> 1 <= len packet -> parse_ok packet sd r -> In rate rates ->
  opus_packet_get_nb_samples packet (len packet) rate = Ok (r.(pr_count) * toc_units packet.[0] * (rate / 400)).
Proof.
  intros Hb Hl Hr Hrate. destruct (packet_params packet rate Hb Hl Hrate) as (_ & _ & Hs & _).
  unfold opus_packet_get_nb_samples. rewrite (po_nb _ _ _ Hr), Hs. cbn [mbind res_bind]. cbv zeta.
  pose proof (po_dur _ _ _ Hr) as Hd. pose proof (po_count _ _ _ Hr).
  destruct (toc_units_rate packet.[0] 48000 (bytes_rd packet 0 Hb) ltac:(cbn; tauto)) as [E _]. rewrite E in Hd.
  change (48000 / 400) with 120 in Hd.
  assert (rate = 400 * (rate / 400) /\ 0 < rate / 400)
    by (destruct Hrate as [<-|[<-|[<-|[<-|[<-|[]]]]]]; vm_compute; done).
  destruct (Z.gtb_spec (pr_count r * (toc_units packet.[0] * (rate / 400)) * 25) (rate * 3)); [nia|].
  by rewrite Z.mul_assoc.
Qed.

Definition native_post (st : decoder) (packet pcm : list Z) (p fsize fec : Z) : decoder * list Z * Z * Z -> Prop :=
  fun '(st', pcm', ret, off) =>
    dec_inv rate st' /\ options_view st' = options_view st /\ within pcm pcm' p (fsize * st.(channels)) /\
    (ret < 0 \/
     0 < ret <= fsize /\ st'.(last_packet_duration) = ret /\ 0 < off <= len packet /\
     (fec = 1 -> ret = fsize) /\ (fec = 0 -> opus_packet_get_nb_samples packet (len packet) st.(Fs) = Ok ret)).

Lemma sat_native (st : decoder) packet pcm p fsize fec sd size :
  dec_inv rate st -> bytes packet -> 1 <= len packet -> room packet (len size) -> 0 < fsize -> 0 <= p ->
  p + fsize * st.(channels) <= len pcm ->
  must (opus_decode_native junk junk_dec st (Some packet) (len packet) pcm p fsize fec sd size)
    (native_post st packet pcm p fsize fec).
Proof.
  intros Hinv Hb Hl Hroom Hf Hp Hpcm. destruct (inv_units st Hinv) as (Hu & Hch & _ & _ & _ & _ & _ & _ & _ & Hrate).
  destruct (di_rate _ _ Hinv) as [HFs Hr]. unfold opus_decode_native. cbv zeta.
  destruct ((fec <? 0) || (fec >? 1)) eqn:Efec; [apply must_ok; split_and!; try done; by left|].
  assert (Hfec : fec = 0 \/ fec = 1) by lia. destruct (Z.eqb_spec (len packet) 0); [lia|]. cbn [orb].
  rewrite orb_false_r. change (Fs st / 400) with (unit_size st).
  destruct (negb (fec =? 0) && negb (Z.rem fsize (unit_size st) =? 0)) eqn:Erem;
    [apply must_ok; split_and!; try done; by left|].
  destruct (Z.ltb_spec (len packet) 0); [lia|].
  destruct (packet_params packet rate Hb Hl Hr) as (E1 & E2 & E3 & (c & E4 & Hc) & Hpar & Hku). rewrite <- Hrate in Hpar, E3.
  rewrite E1, E2, HFs, E3, E4. cbn [mbind res_bind]. set (k := toc_units packet.[0]) in *.
  assert (Hk1 : 1 <= k <= 24) by (unfold frame_units in Hku; lia).
  pose proof (sat_parse_impl packet sd size Hb Hroom) as Hparse.
  destruct (opus_packet_parse_impl packet (len packet) sd size) as [r|code|]; [|apply must_ok; split_and!; try done; by left|done].
  destruct Hparse as [Hok Hsz]. pose proof (po_count _ _ _ Hok) as Hcnt. destruct (po_inside _ _ _ Hok) as [I1 I2].
  destruct (po_padding _ _ _ Hok) as [I3 I4]. pose proof (parsed_inside _ _ _ Hok 0 ltac:(lia)) as [I5 I6].
  pose proof (po_sizes _ _ _ Hok 0 ltac:(lia)) as I7.
  destruct (Z.eqb_spec fec 0) as [->|Hf0]; cbn [negb andb] in *.
  - destruct (Z.gtb_spec (pr_count r * (k * unit_size st)) fsize); [apply must_ok; split_and!; try done; by left|].
    set (st1 := set_packet _ _ _ _ _).
    assert (Hi1 : dec_inv rate st1) by (by apply inv_set_packet).
    pose proof (sat_decode_frames packet sd r (Z.to_nat (pr_count r)) st1 pcm p fsize k 0 r.(pr_payload_offset)) as Hd.
    change (unit_size st1) with (unit_size st) in Hd. change (channels st1) with (channels st) in Hd.
    eapply must_bind; [apply Hd; try done; try lia|].
    { intros _. by destruct (po_first _ _ _ Hok). }
    { assert (r.(pr_count) * k * unit_size st * channels st <= fsize * channels st) by nia. lia. }
    intros [[st2 pcm2] ret] (Q1 & Q2 & Hw & Hret). change (unit_size st1) with (unit_size st) in *.
    change (channels st1) with (channels st) in *. apply must_ok. split_and!; try done.
    + eapply within_sub; [exact Hw|lia|nia].
    + destruct Hret as [|(-> & Hdur & _)]; [by left|right]. split_and!; try done; try nia; try lia.
      intros _. rewrite HFs, Hrate. by apply (nb_samples_parsed packet sd r).
  - assert (fec = 1) as -> by lia. apply negb_false_iff, Z.eqb_eq in Erem.
    rewrite Z.rem_mod_nonneg in Erem by lia.
    assert (EK : fsize = fsize / unit_size st * unit_size st) by (pose proof (Z.div_mod fsize (unit_size st)); lia).
    set (K := fsize / unit_size st) in *. rewrite EK in *.
    eapply must_bind; [apply (sat_decode_fec packet sd r st pcm p K k); try done; nia|].
    intros [[st2 pcm2] ret] (Q1 & Q2 & Hw & Hret). apply must_ok. split_and!; try done.
    destruct Hret as [|(-> & Hdur)]; [by left|right]. split_and!; try done; lia.
Qed.
End Native.

(** * Concealment decides every sample

    Two runs with other contents of the output, and of the temporary buffers, end in the same state and
    with the same samples where the frame is.  What comes out is therefore written by
    the call, all of it. *)

Definition both {A B} (m1 : res A) (m2 : res B) (R : A -> B -> Prop) : Prop :=
  match m1, m2 with Ok x, Ok y => R x y | _, _ => False end.

Lemma both_bind {A A' B B'} (m1 : res A) (m2 : res A') (f1 : A -> res B) (f2 : A' -> res B') R S :
  both m1 m2 R -> (forall x y, R x y -> both (f1 x) (f2 y) S) -> both (m1 ≫= f1) (m2 ≫= f2) S.
Proof. intros Hm Hf. destruct m1, m2; first [by apply Hf|done]. Qed.

Lemma both_impl {A B} (m1 : res A) (m2 : res B) (R S : A -> B -> Prop) :
  both m1 m2 R -> (forall x y, R x y -> S x y) -> both m1 m2 S.
Proof. intros Hm H. destruct m1, m2; first [by apply H|done]. Qed.

Lemma both_must {A B} (m1 : res A) (m2 : res B) R P Q :
  both m1 m2 R -> must m1 P -> must m2 Q -> both m1 m2 (fun x y => R x y /\ P x /\ Q y).
Proof. by destruct m1, m2. Qed.

Lemma both_same {A} (m : res A) P : must m P -> both m m (fun x y => y = x /\ P x).
Proof. by destruct m. Qed.

(** The [n] samples from [p] on agree. *)
Definition same_on (p n : Z) (a b : list Z) : Prop := forall i, p <= i < p + n -> a.[i] = b.[i].

Lemma both_store a b p l q n :
  0 <= p -> p + len l <= len a -> p + len l <= len b ->
  (forall i, q <= i < q + n -> i < p \/ p + len l <= i -> a.[i] = b.[i]) ->
  both (store a p l) (store b p l) (fun a' b' => same_on q n a' b' /\ len a' = len a /\ len b' = len b).
Proof.
  intros Hp Ha Hb Hs. rewrite !store_ok by done. cbn [both]. split_and!; [|by apply len_splice..].
  intros i Hi. destruct (decide (p <= i < p + len l)).
  - by rewrite !rd_splice_in by done.
  - rewrite !rd_splice_out by (done || lia). apply Hs; lia.
Qed.

Lemma both_load a b p n :
  0 <= p -> 0 <= n -> p + n <= len a -> p + n <= len b -> same_on p n a b ->
  both (load a p n) (load b p n) (fun x y => y = x /\ len x = n).
Proof.
  intros Hp Hn Ha Hb Hs. unfold load. destruct (Z.leb_spec n 0).
  { cbn. split; [done|]. unfold len. cbn. lia. }
  destruct (Z.leb_spec 0 p), (Z.leb_spec (p + n) (len a)), (Z.leb_spec (p + n) (len b)); try lia.
  cbn. split; [|by apply len_slice]. apply rd_ext; [by rewrite !len_slice|].
  rewrite len_slice by done. intros i Hi. rewrite !rd_slice by done. symmetry. apply Hs. lia.
Qed.

Section Fill.
Context {rate : Z} `{L : SynthesisLaws rate SILK CELT} (junk junk' : Z) (junk_dec : ec_ctx).
Abbreviation decoder := (OpusDecoder SILK CELT).

(** SILK: the samples from [a] on agree up to where it goes on. *)
Lemma both_silk_calls fuel (st : decoder) dec out out' a q n lost_flag j s K :
  silk_at st j K -> st.(DecControl).(nChannelsAPI) = st.(channels) ->
  s = silk_samples st.(DecControl) -> 0 < s -> 0 <= j * s < n ->
  j * s + K * s >= n -> j * s + (K - 1) * s < n -> K <= Z.of_nat fuel -> lost_flag <> 0 ->
  0 <= q -> q + K * s * st.(channels) <= len out -> q + K * s * st.(channels) <= len out' ->
  a <= q -> same_on a (q - a) out out' ->
  both (silk_calls fuel st dec out q n lost_flag (j * s)) (silk_calls fuel st dec out' q n lost_flag (j * s))
    (fun '(st1, dec1, o1, bad1) '(st2, dec2, o2, bad2) => (st2, dec2, bad2) = (st1, dec1, bad1) /\
       same_on a (q - a + (n - j * s) * st.(channels)) o1 o2).
Proof.
  intros Hat Hapi Hs Hs0 Hd HK1 HK2 Hf Hlost Hq Hroom Hroom' Haq Hsame.
  revert st dec out out' q j K Hat Hapi Hs Hd HK1 HK2 Hf Hq Hroom Hroom' Haq Hsame.
  induction fuel as [|fuel IH]; intros st dec out out' q j K Hat Hapi Hs Hd HK1 HK2 Hf Hq Hroom Hroom' Haq Hsame;
    cbn [silk_calls]; [exfalso; nia|].
  assert (E0 : (j * s =? 0) = (j =? 0)) by (destruct (Z.eqb_spec j 0); nia). rewrite E0.
  pose proof (silk_at_turn st j K Hat) as Ht. pose proof Hat as (Hok & Hj & HK & _).
  pose proof (silk_room st.(silk_dec) st.(DecControl) lost_flag (j =? 0) dec Ht) as Hr.
  pose proof (silk_writes st.(silk_dec) st.(DecControl) lost_flag (j =? 0) dec Ht) as Hw.
  pose proof (silk_count st.(silk_dec) st.(DecControl) lost_flag (j =? 0) dec Ht) as Hn.
  assert (Hff : negb ((silk_Decode st.(silk_dec) st.(DecControl) lost_flag (j =? 0) dec).(so_ret) =? 0) = true -> j = 0).
  { destruct (Z.eqb_spec j 0); [done|]. by rewrite silk_fails_first. }
  pose proof (silk_at_next st j K lost_flag dec Hat) as Hnext. cbv zeta in Hnext |- *.
  set (o := silk_Decode _ _ _ _ _) in *. set (st1 := set_control _ _) in *.
  assert (Hc1 : channels st1 = channels st) by done.
  rewrite Hapi in Hr, Hw. assert (Hch : 1 <= channels st <= 2) by (destruct Hok as (_&_&_&?&_); lia).
  rewrite <- Hs in Hr, Hw, Hn. pose proof (len_nonneg (so_samples o)) as Hl0.
  eapply both_bind; [apply (both_store _ _ _ _ a (q - a + len (so_samples o))); try nia|].
  { intros i Hi Ho. apply Hsame. lia. }
  cbv beta. intros o1 o2 (Hs1 & L1 & L2). destruct (Z.eqb_spec lost_flag 0); [done|].
  destruct (negb (so_ret o =? 0)) eqn:Ebad; cbn [andb].
  - specialize (Hff eq_refl). subst j. rewrite Hc1.
    eapply both_bind; [eapply both_bind; [apply (both_store _ _ _ _ a (q - a + n * channels st)); rewrite ?len_repeat_Z by nia; nia || idtac|]|].
    { intros i Hi Ho. apply Hs1. lia. }
    + cbv beta. intros b1 b2 (Hb & _). instantiate (1 := fun x y => exists b1 b2, x = (n, b1) /\ y = (n, b2) /\
        same_on a (q - a + n * channels st) b1 b2). by exists b1, b2.
    + intros x y (b1 & b2 & -> & -> & Hb). cbv iota. destruct (Z.ltb_spec (0 * s + n) n); [lia|].
      split; [done|]. intros i Hi. apply Hb. lia.
  - cbn [mbind res_bind]. apply negb_false_iff, Z.eqb_eq in Ebad. rewrite (Hn Ebad). specialize (Hw Ebad). rewrite Hw in Hs1.
    replace (j * s + s) with ((j + 1) * s) by lia. destruct (Z.ltb_spec ((j + 1) * s) n).
    + rewrite Hc1. eapply both_impl; [apply (IH st1 _ o1 o2 (q + s * channels st) (j + 1) (K - 1)); try done; try nia|].
      * apply Hnext; [nia|done].
      * intros i Hi. apply Hs1. lia.
      * intros [[[st2 dec2] b1] bad] [[[st3 dec3] b2] bad'] [E Hb]. split; [exact E|]. intros i Hi. apply Hb. rewrite Hc1. lia.
    + split; [done|]. intros i Hi. apply Hs1. nia.
Qed.

Lemma both_silk_stage (st : decoder) dec pcm pcm' p k m b fec accum :
  dec_inv rate st -> silk_units k -> (m <> MODE_CELT_ONLY -> silk_known st.(DecControl)) -> (accum = true -> 4 <= k) ->
  0 <= p -> p + k * unit_size st * st.(channels) <= len pcm -> p + k * unit_size st * st.(channels) <= len pcm' ->
  both (silk_stage junk st None dec pcm p (k * unit_size st) m b (k * unit_size st) fec accum)
    (silk_stage junk' st None dec pcm' p (k * unit_size st) m b (k * unit_size st) fec accum)
    (fun '(st1, dec1, o1, s1, bad1) '(st2, dec2, o2, s2, bad2) => (st2, dec2, bad2) = (st1, dec1, bad1) /\
       (m <> MODE_CELT_ONLY -> if accum then same_on p (k * unit_size st * st.(channels)) o1 o2
                               else same_on 0 (k * unit_size st * st.(channels)) s1 s2)).
Proof.
  intros Hinv Hk Hkn Hacc Hp Hroom Hroom'. destruct (inv_units st Hinv) as (Hu & Hch & _ & _ & _ & HF10 & _).
  assert (Hk0 : 1 <= k <= 24) by (unfold silk_units, frame_units in Hk; lia). unfold silk_stage. cbv zeta.
  destruct (Z.eqb_spec m MODE_CELT_ONLY) as [Hc|Hc]; cbn [negb andb]; [by split|]. specialize (Hkn Hc).
  set (st1 := if prev_mode st =? MODE_CELT_ONLY then _ else st).
  assert (Hk1 : kept_all st st1) by (subst st1; by destruct (prev_mode st =? MODE_CELT_ONLY)).
  assert (Hi1 : dec_inv rate st1) by (by eapply kept_all_inv).
  assert (E1 : DecControl st1 = DecControl st) by (subst st1; by destruct (prev_mode st =? MODE_CELT_ONLY)).
  pose proof (kept_fields _ _ (proj1 Hk1)) as (C1 & C2 & _ & _ & _ & _ & C7 & _).
  replace (k * unit_size st) with (k * unit_size st1) by (by rewrite C7).
  eapply both_bind; [apply both_same, (sat_silk_control (rate := rate) st1 true m b k); rewrite ?E1; done|]. cbv beta.
  intros c c' (-> & Hok & _ & Hca & _ & HK & HKs & HK1). rewrite C7 in *. set (K := packet_frames c) in *.
  set (st2 := set_control c st1). assert (Hs0 : 0 < silk_samples c) by nia.
  assert (Hcall : forall out out' q, 0 <= q ->
    q + Z.max (4 * unit_size st) (k * unit_size st) * channels st <= len out ->
    q + Z.max (4 * unit_size st) (k * unit_size st) * channels st <= len out' ->
    both (silk_calls (Z.to_nat (k * unit_size st)) st2 dec out q (k * unit_size st) 1 0)
      (silk_calls (Z.to_nat (k * unit_size st)) st2 dec out' q (k * unit_size st) 1 0)
      (fun '(st1, dec1, o1, bad1) '(st2, dec2, o2, bad2) => (st2, dec2, bad2) = (st1, dec1, bad1) /\
         same_on q (k * unit_size st * channels st) o1 o2)).
  { intros out out' q Hq H1 H2. rewrite <- HKs in H1, H2.
    replace (channels st) with (channels st2) in H1, H2 |- * by exact C1.
    eapply both_impl; [apply (both_silk_calls _ st2 dec out out' q q _ 1 0 (silk_samples c) K); try done; try nia|].
    - split_and!; try done; try lia.
    - intros i Hi. lia.
    - intros [[[a1 a2] a3] a4] [[[b1 b2] b3] b4] [E Hb]. split; [exact E|]. intros i Hi. apply Hb. lia. }
  destruct accum.
  - specialize (Hacc eq_refl). eapply both_bind; [apply (Hcall pcm pcm' p); nia|].
    intros [[[a1 a2] a3] a4] [[[b1 b2] b3] b4] [E Hb]. injection E as -> -> ->. by split.
  - cbn [negb]. rewrite HF10.
    assert (0 <= Z.max (4 * unit_size st) (k * unit_size st) * channels st) by (apply Z.mul_nonneg_nonneg; lia).
    eapply both_bind; [apply (Hcall _ _ 0); rewrite ?len_repeat_Z by done; lia|].
    intros [[[a1 a2] a3] a4] [[[b1 b2] b3] b4] [E Hb]. injection E as -> -> ->. by split.
Qed.

(** CELT on a block of the output: it writes it all, or adds to samples that agree. *)
Lemma both_celt_call (st : decoder) data n pcm pcm' p size dec accum q m :
  0 <= p -> 0 <= size * st.(channels) -> p + size * st.(channels) <= len pcm -> p + size * st.(channels) <= len pcm' ->
  (same_on p (size * st.(channels)) pcm pcm' \/ accum = false /\ data = None /\ 0 <= n <= 1275 /\ celt_frame rate size) ->
  (forall i, q <= i < q + m -> i < p \/ p + size * st.(channels) <= i -> pcm.[i] = pcm'.[i]) ->
  both (celt_call st data n pcm p size dec accum) (celt_call st data n pcm' p size dec accum)
    (fun '(st1, p1, o1) '(st2, p2, o2) => (st2, o2) = (st1, o1) /\ same_on q m p1 p2 /\ len p1 = len pcm /\ len p2 = len pcm').
Proof.
  intros Hp Hs Hl Hl' Hblock Hout. unfold celt_call.
  eapply (both_bind _ _ _ _ (fun x y => celt_decode_with_ec st.(celt_dec) data n y size dec accum =
    celt_decode_with_ec st.(celt_dec) data n x size dec accum /\ len x = size * channels st)).
  { destruct Hblock as [Hsame|(-> & -> & Hn & Hf)].
    - eapply both_impl; [by apply both_load|]. by intros x y [-> Hx].
    - pose proof (sat_load pcm p (size * channels st) Hp Hs Hl) as H1.
      pose proof (sat_load pcm' p (size * channels st) Hp Hs Hl') as H2.
      destruct (load pcm p _) as [x| |], (load pcm' p _) as [y| |]; try done. cbn in *.
      split; [|done]. apply celt_overwrites; try done. lia. }
  cbv beta zeta. intros x y [-> Hx]. set (o := celt_decode_with_ec _ _ _ _ _ _ _).
  assert (Ho : len (co_pcm o) = size * channels st) by (rewrite <- Hx; apply celt_writes).
  eapply both_bind; [apply (both_store _ _ _ _ q m); rewrite ?Ho; done|].
  cbv beta. intros p1 p2 (H1 & H2 & H3). by split_and!.
Qed.

Lemma both_celt_stage (st : decoder) n dec pcm pcm' sb sb' p k m fec (accum : bool) :
  dec_inv rate st -> silk_units k -> (m <> MODE_SILK_ONLY -> k = 1 \/ k = 2 \/ k = 4 \/ k = 8) ->
  0 <= n <= 1275 -> 0 <= p -> let N := k * unit_size st * st.(channels) in
  p + N <= len pcm -> p + N <= len pcm' ->
  (m <> MODE_CELT_ONLY -> if accum then same_on p N pcm pcm' else same_on 0 N sb sb' /\ N <= len sb /\ N <= len sb') ->
  (accum = true -> m <> MODE_CELT_ONLY) ->
  both (celt_stage st None n dec pcm sb p (k * unit_size st) m fec accum false false)
    (celt_stage st None n dec pcm' sb' p (k * unit_size st) m fec accum false false)
    (fun '(st1, dec1, o1, r1) '(st2, dec2, o2, r2) => (st2, dec2, r2) = (st1, dec1, r1) /\ same_on p N o1 o2).
Proof.
  intros Hinv Hk Hm Hn Hp N Hl Hl' Hs Hacc. destruct (inv_units st Hinv) as (Hu & Hch & _ & HF2 & _ & _ & HF20 & _ & _ & Hrate).
  assert (1 <= k <= 24) by (unfold silk_units, frame_units in Hk; lia).
  assert (Hn0 : 0 <= N) by (subst N; nia). unfold celt_stage.
  eapply (both_bind _ _ _ _ (fun '(st1, dec1, o1, r1) '(st2, dec2, o2, r2) => (st2, dec2, r2) = (st1, dec1, r1) /\
    kept_all st st1 /\ same_on p N o1 o2 /\ len o1 = len pcm /\ len o2 = len pcm')).
  { destruct (Z.eqb_spec m MODE_SILK_ONLY) as [Hms|Hms]; cbn [negb].
    - eapply (both_bind _ _ _ _ (fun o1 o2 => same_on p N o1 o2 /\ len o1 = len pcm /\ len o2 = len pcm')).
      { destruct accum; cbn [negb]; [split_and!; try done; apply Hs; by rewrite Hms|].
        apply both_store; rewrite ?len_repeat_Z by done; try done. lia. }
      intros o1 o2 (H1 & L1 & L2). rewrite andb_true_r. destruct (prev_mode st =? MODE_HYBRID); [|by split_and!].
      eapply both_bind; [apply both_same; by apply sat_ctl|]. cbv beta. intros st1 st1' (-> & Hk1).
      pose proof (kept_fields _ _ (proj1 Hk1)) as (C1 & _ & _ & _ & _ & _ & _ & F1 & _).
      eapply both_bind; [eapply both_must; [apply (both_celt_call st1 _ _ o1 o2 p _ _ _ p N)| |]|]; rewrite ?C1, ?F1, ?HF2, ?L1, ?L2;
        try (done || (subst N; nia)).
      + left. intros i Hi. apply H1. subst N. nia.
      + intros i Hi _. by apply H1.
      + apply (sat_celt_call (rate := rate)); rewrite ?C1, ?F1, ?HF2, ?L1; subst N; nia.
      + apply (sat_celt_call (rate := rate)); rewrite ?C1, ?F1, ?HF2, ?L2; subst N; nia.
      + intros [[a1 a2] a3] [[b1 b2] b3] ((E & Hb & M1 & M2) & (Ka & _) & _). injection E as -> ->.
        split_and!; try done; try lia. by eapply kept_all_trans.
    - specialize (Hm Hms). cbv zeta.
      eapply both_bind; [apply both_same; instantiate (1 := fun st1 => kept_all st st1); destruct (_ && _); [by apply sat_ctl|by apply must_ok]|].
      cbv beta. intros st1 st1' (-> & Hk1).
      assert (C1 : channels st1 = channels st) by apply (kept_fields _ _ (proj1 Hk1)).
      rewrite HF20, Z.min_r by nia. replace (if fec then None else None) with (@None (list Z)) by (by destruct fec).
      eapply both_bind; [eapply both_must; [apply (both_celt_call st1 None n pcm pcm' p (k * unit_size st) _ _ p N)| |]|]; rewrite ?C1; try done.
      + destruct accum; [left; by apply Hs, Hacc|right]. split_and!; try done; try lia. unfold celt_frame. rewrite <- Hrate. lia.
      + fold N. intros i Hi Ho. lia.
      + apply (sat_celt_call (rate := rate)); rewrite ?C1; done.
      + apply (sat_celt_call (rate := rate)); rewrite ?C1; done.
      + intros [[a1 a2] a3] [[b1 b2] b3] ((E & Hb & M1 & M2) & (Ka & _) & _). injection E as -> ->.
        split_and!; try done. by eapply kept_all_trans. }
  intros [[[a1 a2] a3] a4] [[[b1 b2] b3] b4] (E & Hk1 & Hb & M1 & M2). injection E as -> -> ->.
  assert (C1 : channels a1 = channels st) by apply (kept_fields _ _ (proj1 Hk1)).
  destruct (Z.eqb_spec m MODE_CELT_ONLY) as [|Hc], accum; cbn [negb andb]; try (by split).
  rewrite C1. fold N. specialize (Hs Hc) as (Hs1 & Hs2 & Hs3).
  eapply both_bind; [apply both_load; try done; lia|]. cbv beta. intros x x' (-> & Hx).
  eapply both_bind; [apply both_load; try done; lia|]. cbv beta. intros y y' (-> & Hy).
  assert (Hz : len (zip_with (fun a b => SAT16 (ADD32 a b)) x y) = N) by (unfold len in *; rewrite length_zip_with; lia).
  eapply both_bind; [apply (both_store _ _ _ _ p N); rewrite ?Hz; try done; lia|]. cbv beta. intros o1 o2 (H1 & _). by split.
Qed.

Lemma both_gain (st : decoder) pcm pcm' p n :
  let N := n * st.(channels) in
  0 <= p -> 0 <= N -> p + N <= len pcm -> p + N <= len pcm' -> same_on p N pcm pcm' ->
  both (gain_stage st pcm p n) (gain_stage st pcm' p n) (same_on p N).
Proof.
  intros N Hp Hn Hl Hl' Hs. unfold gain_stage. destruct (_ =? 0); [done|]. cbv zeta. fold N.
  eapply both_bind; [by apply both_load|]. cbv beta. intros x x' (-> & Hx).
  set (l := map _ x). assert (Hm : len l = N) by (unfold l, len in *; rewrite length_map; lia).
  eapply both_impl; [apply (both_store _ _ _ _ p N); rewrite ?Hm; try done; lia|]. cbv beta. by intros o1 o2 (H1 & _).
Qed.

Lemma both_rest (st : decoder) dec n pcm pcm' sb sb' p k m fec (accum : bool) :
  dec_inv rate st -> silk_units k -> (m <> MODE_SILK_ONLY -> k = 1 \/ k = 2 \/ k = 4 \/ k = 8) ->
  0 <= n <= 1275 -> 0 <= p -> let N := k * unit_size st * st.(channels) in
  p + N <= len pcm -> p + N <= len pcm' ->
  (m <> MODE_CELT_ONLY -> if accum then same_on p N pcm pcm' else same_on 0 N sb sb' /\ N <= len sb /\ N <= len sb') ->
  (accum = true -> m <> MODE_CELT_ONLY) ->
  both (decode_frame_rest junk st None dec n pcm sb p (k * unit_size st) m 0 fec accum false false false 0 [])
    (decode_frame_rest junk' st None dec n pcm' sb' p (k * unit_size st) m 0 fec accum false false false 0 [])
    (fun '(st1, o1, r1) '(st2, o2, r2) => (st2, r2) = (st1, r1) /\ same_on p N o1 o2).
Proof.
  intros Hinv Hk Hm Hn Hp N Hl Hl' Hs Hacc. unfold decode_frame_rest. cbv zeta. cbn [Z.eqb negb andb mbind res_bind].
  eapply both_bind; [apply both_same, sat_ctl; by destruct (di_stream _ _ Hinv) as [-> | ->]|]. cbv beta. intros st1 y (-> & Hk1).
  eapply both_bind; [apply both_same, sat_ctl; by destruct (m =? MODE_CELT_ONLY)|]. cbv beta. intros st2 y (-> & Hk2).
  assert (Hk12 : kept_all st st2) by (by eapply kept_all_trans). clear st1 Hk1 Hk2.
  assert (Hi2 : dec_inv rate st2) by (by eapply kept_all_inv). destruct (kept_uc _ _ (proj1 Hk12)) as [U2 C2].
  destruct (inv_units st Hinv) as (Hu & Hch & _). assert (1 <= k <= 24) by (unfold silk_units, frame_units in Hk; lia).
  assert (EN : k * unit_size st2 * channels st2 = N) by (rewrite U2, C2; done).
  assert (HN : 0 <= N) by (subst N; nia).
  pose proof (both_celt_stage st2 n dec pcm pcm' sb sb' p k m fec accum Hi2 Hk Hm Hn Hp) as Hc. cbv zeta in Hc. rewrite EN in Hc.
  specialize (Hc Hl Hl' Hs Hacc).
  assert (Hsil : m <> MODE_CELT_ONLY -> accum = false -> k * unit_size st2 * channels st2 <= len sb).
  { intros H1 H2. rewrite EN. specialize (Hs H1). rewrite H2 in Hs. apply Hs. }
  assert (Hsil' : m <> MODE_CELT_ONLY -> accum = false -> k * unit_size st2 * channels st2 <= len sb').
  { intros H1 H2. rewrite EN. specialize (Hs H1). rewrite H2 in Hs. apply Hs. }
  rewrite <- U2. eapply both_bind; [eapply both_must; [exact Hc| |]|].
  { apply (sat_celt_stage (rate := rate)); try done; by rewrite EN. }
  { apply (sat_celt_stage (rate := rate)); try done; by rewrite EN. }
  intros [[[a1 a2] a3] a4] [[[b1 b2] b3] b4] ((E & Hb) & (Ka & [La _] & _) & (_ & [Lb _] & _)). injection E as -> -> ->.
  eapply both_bind; [apply both_same, sat_ctl; done|]. cbv beta. intros st3 y (-> & Hk3).
  assert (Hk23 : kept_all st2 st3) by (by eapply kept_all_trans). destruct (kept_uc _ _ (proj1 Hk23)) as [U3 C3].
  assert (EN3 : k * unit_size st2 * channels st3 = N) by (by rewrite C3).
  cbn [mbind res_bind]. unfold transition_stage. cbn [mbind res_bind].
  eapply both_bind; [apply both_gain; rewrite ?EN3; try done; lia|]. cbv beta. rewrite EN3. intros o1 o2 Ho. by split.
Qed.

Lemma both_main rec rec' (st : decoder) n pcm pcm' p fsize k fec m :
  dec_inv rate st -> frame_case st None n m 0 k -> k * unit_size st <= fsize ->
  (4 * unit_size st <= fsize -> m <> MODE_CELT_ONLY -> 4 <= k) ->
  0 <= p -> let N := k * unit_size st * st.(channels) in p + N <= len pcm -> p + N <= len pcm' ->
  In m [MODE_SILK_ONLY; MODE_HYBRID; MODE_CELT_ONLY] ->
  both (decode_frame_main junk junk_dec rec st None n pcm p fsize fec (k * unit_size st) m 0)
    (decode_frame_main junk' junk_dec rec' st None n pcm' p fsize fec (k * unit_size st) m 0)
    (fun '(st1, o1, r1) '(st2, o2, r2) => (st2, r2) = (st1, r1) /\ same_on p N o1 o2).
Proof.
  intros Hinv Hcase Hfs Hacc Hp N Hl Hl' Hm.
  destruct (frame_case_units _ _ _ _ _ _ Hinv Hcase) as (Hk & Hkm & Hkn & Hb & Hk4 & Hn & _). specialize (Hkn eq_refl).
  destruct (inv_units st Hinv) as (Hu & Hch & _ & _ & _ & HF10 & _).
  assert (1 <= k <= 24) by (unfold silk_units, frame_units in Hk; lia).
  unfold decode_frame_main. cbv zeta. cbn [andb]. unfold conceal. cbn [mbind res_bind].
  destruct (Z.gtb_spec (k * unit_size st) fsize); [lia|].
  set (accum := negb (m =? MODE_CELT_ONLY) && (fsize >=? F10 st)).
  assert (Ha : accum = true -> m <> MODE_CELT_ONLY /\ 4 <= k).
  { subst accum. rewrite andb_true_iff, negb_true_iff, Z.eqb_neq, HF10, Z.geb_le. intros [Ha1 Ha2]. auto. }
  eapply both_bind; [eapply both_must; [apply both_silk_stage; try done; apply Ha| |]|].
  { apply (sat_silk_stage (rate := rate)); auto. apply Ha. }
  { apply (sat_silk_stage (rate := rate)); auto. apply Ha. }
  intros [[[[a1 a2] a3] a4] a5] [[[[b1 b2] b3] b4] b5]
    ((E & Hs) & (Hi & Hk1 & _ & _ & _ & [La _] & Hsa & Hbad) & (_ & _ & _ & _ & _ & [Lb _] & Hsb & _)). injection E as -> -> ->.
  rewrite (Hbad (or_introl eq_refl)). unfold redundancy_stage. rewrite andb_false_r. cbn [andb negb mbind res_bind].
  destruct (kept_uc _ _ Hk1) as [U1 C1]. rewrite <- U1. subst N. rewrite <- U1, <- C1 in *.
  apply both_rest; try done; try lia; [|apply Ha].
  intros Hmc. specialize (Hs Hmc). destruct accum; [done|]. by split_and!; [|apply Hsa|apply Hsb].
Qed.

(** What a call for a lost frame leaves is decided by the state. *)
Definition plc_both (lim : Z) (rec rec' : decoder -> option (list Z) -> Z -> list Z -> Z -> Z -> bool -> res (decoder * list Z * Z)) : Prop :=
  forall st pcm pcm' p k kf n, dec_inv rate st -> frame_units kf -> st.(frame_size) = kf * unit_size st ->
    1 <= k <= lim -> 0 <= p -> 0 <= n <= 1 ->
    p + k * unit_size st * st.(channels) <= len pcm -> p + k * unit_size st * st.(channels) <= len pcm' ->
    both (rec st None n pcm p (k * unit_size st) false) (rec' st None n pcm' p (k * unit_size st) false)
      (fun '(st1, o1, r1) '(st2, o2, r2) => (st2, r2) = (st1, r1) /\ same_on p (r1 * st.(channels)) o1 o2).

(** The pieces one behind the other: what agrees from [a] on grows. *)
Lemma both_pieces rec rec' fuel (st : decoder) pcm pcm' a p k :
  plc_spec (rate := rate) 8 rec -> plc_spec (rate := rate) 8 rec' -> plc_both 8 rec rec' ->
  dec_inv rate st -> 1 <= k <= Z.of_nat fuel -> 0 <= p ->
  p + k * unit_size st * st.(channels) <= len pcm -> p + k * unit_size st * st.(channels) <= len pcm' ->
  a <= p -> same_on a (p - a) pcm pcm' ->
  both (plc_pieces rec fuel st pcm p (k * unit_size st)) (plc_pieces rec' fuel st pcm' p (k * unit_size st))
    (fun '(st1, o1, r1) '(st2, o2, r2) => (st2, r2) = (st1, r1) /\ same_on a (p - a + k * unit_size st * st.(channels)) o1 o2).
Proof.
  intros Hrec Hrec' Hb. revert st pcm pcm' p k. induction fuel as [|fuel IH]; intros st pcm pcm' p k Hinv Hk Hp Hl Hl' Ha Hs; [lia|].
  cbn [plc_pieces]. destruct (inv_units st Hinv) as (Hu & Hch & _ & _ & _ & _ & HF20 & _). rewrite HF20.
  replace (Z.min (k * unit_size st) (8 * unit_size st)) with (Z.min k 8 * unit_size st) by nia.
  destruct (di_frame _ _ Hinv) as (kf & Hkf & Ef).
  eapply both_bind; [eapply both_must; [apply (Hb st pcm pcm' p (Z.min k 8) kf 0)|apply (Hrec st pcm p (Z.min k 8) kf 0)|
    apply (Hrec' st pcm' p (Z.min k 8) kf 0)]|]; try (done || nia).
  intros [[st1 o1] ret] [[st2 o2] ret2] ((E & Hsm) & (Hi1 & Hk1 & _ & [L1 W1] & j & Ej & Hj & _) & (_ & _ & _ & [L2 W2] & _)).
  injection E as -> ->. subst ret. destruct (kept_uc _ _ Hk1) as [U1 C1].
  destruct (Z.ltb_spec (j * unit_size st) 0); [nia|]. cbv zeta. rewrite C1.
  assert (Hgrow : same_on a (p + j * unit_size st * channels st - a) o1 o2).
  { intros i Hi. destruct (decide (i < p)); [rewrite W1, W2 by lia; apply Hs; lia|]. apply Hsm. lia. }
  destruct (Z.gtb_spec (k * unit_size st - j * unit_size st) 0).
  - replace (k * unit_size st - j * unit_size st) with ((k - j) * unit_size st1) by nia.
    assert (j < k) by nia. assert (0 <= j * unit_size st * channels st) by nia.
    eapply both_impl; [apply (IH st1 o1 o2); [done|lia|nia|rewrite U1, C1; nia|rewrite U1, C1; nia|lia|done]|].
    intros [[a1 a2] a3] [[b1 b2] b3] [E Hq]. split; [exact E|]. intros i Hi. apply Hq. rewrite U1, C1. nia.
  - split; [done|]. intros i Hi. apply Hgrow. nia.
Qed.

Lemma both_body_lost rec rec' (st : decoder) n pcm pcm' p k kf :
  (8 < k -> plc_spec (rate := rate) 8 rec /\ plc_spec (rate := rate) 8 rec' /\ plc_both 8 rec rec') ->
  dec_inv rate st -> frame_units kf -> st.(frame_size) = kf * unit_size st ->
  1 <= k -> 0 <= p -> 0 <= n <= 1 ->
  p + k * unit_size st * st.(channels) <= len pcm -> p + k * unit_size st * st.(channels) <= len pcm' ->
  both (decode_frame_body junk junk_dec rec st None n pcm p (k * unit_size st) false)
    (decode_frame_body junk' junk_dec rec' st None n pcm' p (k * unit_size st) false)
    (fun '(st1, o1, r1) '(st2, o2, r2) => (st2, r2) = (st1, r1) /\ same_on p (r1 * st.(channels)) o1 o2).
Proof.
  intros Hrec Hinv Hkf Ef Hk Hp Hn Hl Hl'.
  destruct (inv_units st Hinv) as (Hu & Hch & _ & HF2 & _ & _ & HF20 & H48 & _).
  unfold decode_frame_body. rewrite HF2, H48. destruct (Z.ltb_spec (k * unit_size st) (unit_size st)); [nia|].
  cbv zeta. destruct (Z.leb_spec n 1); [|lia]. rewrite Ef.
  assert (Hkf' : 1 <= kf <= 24) by (unfold frame_units in Hkf; lia).
  set (k0 := Z.min k kf). assert (Hk0 : 1 <= k0 <= 24 /\ k0 <= k) by lia.
  replace (Z.min (Z.min (k * unit_size st) (48 * unit_size st)) (kf * unit_size st)) with (k0 * unit_size st) by nia.
  set (m := if prev_redundancy st then MODE_CELT_ONLY else prev_mode st).
  assert (Hsub : k0 * unit_size st * channels st <= k * unit_size st * channels st) by nia.
  destruct (Z.eqb_spec m 0) as [|Hm0].
  { assert (0 <= k0 * unit_size st * channels st) by nia.
    eapply both_bind; [apply (both_store _ _ _ _ p (k0 * unit_size st * channels st)); rewrite ?len_repeat_Z by done; lia|].
    cbv beta. intros o1 o2 (Ho & _). by split. }
  rewrite HF20. destruct (Z.gtb_spec (k0 * unit_size st) (8 * unit_size st)).
  { assert (8 < k0) by nia. destruct (Hrec ltac:(lia)) as (R1 & R2 & R3).
    eapply both_bind; [eapply both_must; [apply (both_pieces rec rec' _ st pcm pcm' p p k0); try done; try nia|
      apply (sat_pieces (rate := rate) rec); try done; nia|apply (sat_pieces (rate := rate) rec'); try done; nia]|].
    - intros i Hi. lia.
    - intros [[a1 a2] a3] [[b1 b2] b3] ((E & Hs) & (_ & _ & _ & _ & E0) & _). injection E as -> ->. subst a3.
      cbn [Z.ltb Z.compare]. split; [done|]. intros i Hi. apply Hs. lia. }
  assert (Hk8 : k0 <= 8) by nia. rewrite (plc_audiosize_units (rate := rate)) by (done || lia).
  destruct (plc_units_ok m k0 ltac:(lia)) as (Hj & Hju & Hjm & Hj4 & _). set (j := plc_units m k0) in *.
  assert (Hm : In m [MODE_SILK_ONLY; MODE_HYBRID; MODE_CELT_ONLY]).
  { subst m. destruct (prev_redundancy st); [cbn; tauto|]. by destruct (di_prev _ _ Hinv). }
  assert (Hj1 : j * unit_size st <= k0 * unit_size st) by (apply Z.mul_le_mono_nonneg_r; lia).
  assert (Hj2 : j * unit_size st * channels st <= k0 * unit_size st * channels st)
    by (apply Z.mul_le_mono_nonneg_r; lia).
  assert (Hc : frame_case st None n m 0 j).
  { split_and!; try done; try lia. intros Hmc. apply (di_silk _ _ Hinv). subst m.
    destruct (prev_redundancy st); [done|]. destruct Hm as [E|[E|[E|[]]]]; [by left|by right|congruence]. }
  assert (H4 : 4 * unit_size st <= k0 * unit_size st -> m <> MODE_CELT_ONLY -> 4 <= j).
  { intros Hq _. apply Hj4. apply (Z.mul_le_mono_pos_r _ _ (unit_size st)); lia. }
  eapply both_impl; [eapply both_must; [apply both_main; try done; lia|
    apply (sat_main (rate := rate) junk junk_dec rec st None n pcm p _ j); try done; lia|
    apply (sat_main (rate := rate) junk' junk_dec rec' st None n pcm' p _ j); try done; lia]|].
  intros [[a1 a2] a3] [[b1 b2] b3] ((E & Hs) & (_ & _ & _ & _ & Hret) & _). injection E as -> ->.
  split; [done|]. destruct Hret as [->|[_ []]]; done.
Qed.

Lemma both_frame_lost (st : decoder) pcm pcm' p k kf :
  dec_inv rate st -> frame_units kf -> st.(frame_size) = kf * unit_size st -> 1 <= k -> 0 <= p ->
  p + k * unit_size st * st.(channels) <= len pcm -> p + k * unit_size st * st.(channels) <= len pcm' ->
  both (opus_decode_frame junk junk_dec 2 st None 0 pcm p (k * unit_size st) false)
    (opus_decode_frame junk' junk_dec 2 st None 0 pcm' p (k * unit_size st) false)
    (fun '(st1, o1, r1) '(st2, o2, r2) => (st2, r2) = (st1, r1) /\ same_on p (r1 * st.(channels)) o1 o2).
Proof.
  intros Hinv Hkf Ef Hk Hp Hl Hl'. apply (both_body_lost _ _ st 0 pcm pcm' p k kf); try done.
  intros _. split_and!; [apply plc_spec_1..|].
  intros st0 pcm0 pcm0' p0 k0 kf0 n0 H0 H1 H2 H3 H4 H5 H6 H7.
  apply (both_body_lost _ _ st0 n0 pcm0 pcm0' p0 k0 kf0); try done; lia.
Qed.

(** [c] units of [K] are behind us, and agree. *)
Lemma both_plc_loop fuel (st : decoder) pcm pcm' p K c :
  dec_inv rate st -> 0 <= c < K -> K - c <= Z.of_nat fuel -> 0 <= p ->
  p + K * unit_size st * st.(channels) <= len pcm -> p + K * unit_size st * st.(channels) <= len pcm' ->
  same_on p (c * unit_size st * st.(channels)) pcm pcm' ->
  both (plc_loop junk junk_dec fuel st pcm p (K * unit_size st) (c * unit_size st))
    (plc_loop junk' junk_dec fuel st pcm' p (K * unit_size st) (c * unit_size st))
    (fun '(st1, o1, r1) '(st2, o2, r2) => (st2, r2) = (st1, r1) /\ same_on p (K * unit_size st * st.(channels)) o1 o2).
Proof.
  revert st pcm pcm' c. induction fuel as [|fuel IH]; intros st pcm pcm' c Hinv Hc Hf Hp Hl Hl' Hs; [lia|]. cbn [plc_loop].
  destruct (inv_units st Hinv) as (Hu & Hch & _). destruct (di_frame _ _ Hinv) as (kf & Hkf & Ef).
  replace (K * unit_size st - c * unit_size st) with ((K - c) * unit_size st) by lia.
  set (q := p + c * unit_size st * channels st). assert (Hq : 0 <= q) by (subst q; nia).
  assert (Hql : q + (K - c) * unit_size st * channels st <= len pcm) by (subst q; nia).
  assert (Hql' : q + (K - c) * unit_size st * channels st <= len pcm') by (subst q; nia).
  eapply both_bind; [eapply both_must; [apply (both_frame_lost st pcm pcm' q (K - c) kf)|
    apply (sat_frame_lost junk junk_dec st None 0 pcm q (K - c) kf false)|
    apply (sat_frame_lost junk' junk_dec st None 0 pcm' q (K - c) kf false)]|]; try (done || lia).
  intros [[st1 o1] ret] [[st2 o2] ret2] ((E & Hsm) & (Hi1 & Hk1 & _ & [L1 W1] & j & Ej & Hj & _) & (_ & _ & _ & [L2 W2] & _)).
  injection E as -> ->. subst ret. destruct (kept_uc _ _ Hk1) as [U1 C1].
  destruct (Z.ltb_spec (j * unit_size st) 0); [nia|]. cbv zeta.
  replace (c * unit_size st + j * unit_size st) with ((c + j) * unit_size st) by lia.
  assert (Hgrow : same_on p ((c + j) * unit_size st * channels st) o1 o2).
  { intros i Hi. destruct (decide (i < q)); [rewrite W1, W2 by lia; apply Hs; subst q; lia|]. apply Hsm. subst q. lia. }
  destruct (Z.ltb_spec ((c + j) * unit_size st) (K * unit_size st)).
  - assert (c + j < K) by nia. rewrite <- U1. rewrite <- U1, <- C1 in Hgrow.
    eapply both_impl; [apply (IH st1 o1 o2 (c + j)); try done; try lia; rewrite U1, C1; lia|].
    intros [[a1 a2] a3] [[b1 b2] b3] [E Hb]. rewrite C1 in Hb. by split.
  - assert (c + j = K) as E by nia. rewrite E in *. rewrite Z.eqb_refl. cbn [negb]. by split.
Qed.

(** So one block of samples comes out, whatever the buffers held. *)
Lemma lost_block (st : decoder) K :
  dec_inv rate st -> 1 <= K ->
  forall pcm0, K * unit_size st * st.(channels) <= len pcm0 ->
  forall st0 o0 r0, decode_lost junk junk_dec st pcm0 0 (K * unit_size st) = Ok (st0, o0, r0) ->
  forall pcm, K * unit_size st * st.(channels) <= len pcm ->
  decode_lost junk' junk_dec st pcm 0 (K * unit_size st) =
    Ok (st0, splice pcm 0 (slice o0 0 (K * unit_size st * st.(channels))), r0).
Proof.
  intros Hinv HK pcm0 H0 st0 o0 r0 E0 pcm H1. destruct (inv_units st Hinv) as (Hu & Hch & _).
  pose proof (sat_decode_lost junk junk_dec st pcm0 0 K Hinv HK ltac:(lia) ltac:(lia)) as S0.
  pose proof (sat_decode_lost junk' junk_dec st pcm 0 K Hinv HK ltac:(lia) ltac:(lia)) as S1. rewrite E0 in S0.
  assert (Hb : both (decode_lost junk junk_dec st pcm0 0 (K * unit_size st)) (decode_lost junk' junk_dec st pcm 0 (K * unit_size st))
    (fun '(st1, o1, r1) '(st2, o2, r2) => (st2, r2) = (st1, r1) /\ same_on 0 (K * unit_size st * st.(channels)) o1 o2)).
  { unfold decode_lost. change (Fs st / 400) with (unit_size st). rewrite Z.rem_mul by lia. cbn [Z.eqb negb].
    apply (both_plc_loop _ st pcm0 pcm 0 K 0); try done; try lia; [nia|]. intros i Hi. lia. }
  rewrite E0 in Hb. destruct (decode_lost junk' junk_dec st pcm 0 _) as [[[st1 o1] r1]|c|]; [|done|done].
  cbn [both must] in *. destruct Hb as [E Hs]. injection E as -> ->. do 3 f_equal.
  destruct S0 as (_ & _ & _ & [L0 _] & _). destruct S1 as (_ & _ & _ & [L1 W1] & _).
  set (N := K * unit_size st * channels st) in *. assert (HN : 0 <= N) by (subst N; nia).
  assert (Ls : len (slice o0 0 N) = N) by (apply len_slice; lia).
  apply rd_ext; [rewrite len_splice; lia|]. intros i Hi. destruct (decide (i < N)).
  - rewrite rd_splice_in, rd_slice by lia. rewrite <- Hs by lia. f_equal. lia.
  - rewrite rd_splice_out by lia. apply W1. lia.
Qed.
End Fill.
