(* ===== verification/OpusProps.v ===== *)
(** * Properties of the Opus decoder and of the packet headers it reads

    A decoder is created, controlled and given packets in any order
    ([reachable]); from every such state it is safe on every packet. *)

From S2P Require Import Prelude FixedPoint Memory Packet PacketProofs EntropyInterface.
From S2P Require Import RangeCoder RangeSafe OpusDecode OpusDecodeProofs OpusDecodeFrame.

(** ** Decoders *)

Section Reachable.
Context {rate : Z} `{L : SynthesisLaws rate SILK CELT} (junk : Z) (junk_dec : ec_ctx).
Abbreviation decoder := (OpusDecoder SILK CELT).

(** The states after [opus_decoder_init] and any calls of [opus_decoder_ctl] and
    [opus_decode], with packets and without, errors included. *)
Inductive reachable : decoder -> Prop :=
| reach_init silk celt chans st : opus_decoder_init silk celt rate chans = Ok st -> reachable st
| reach_ctl st request st' ret out : reachable st -> opus_decoder_ctl st request = (st', ret, out) -> reachable st'
| reach_decode st packet pcm fsize fec st' pcm' ret :
    reachable st -> bytes packet -> fsize * st.(channels) <= len pcm ->
    opus_decode junk junk_dec st (Some packet) (len packet) pcm fsize fec (repeat 0 48) = Ok (st', pcm', ret) ->
    reachable st'
| reach_lost st pcm fsize fec st' pcm' ret :
    reachable st -> fsize * st.(channels) <= len pcm ->
    opus_decode junk junk_dec st None 0 pcm fsize fec (repeat 0 48) = Ok (st', pcm', ret) -> reachable st'.

Lemma init_inv silk celt chans (st : decoder) : opus_decoder_init silk celt rate chans = Ok st -> dec_inv rate st.
Proof.
  unfold opus_decoder_init. destruct (_ || _) eqn:Ec; [done|]. intros [= <-].
  apply orb_false_iff in Ec as [Ef Ech].
  assert (Hr : In rate rates).
  { rewrite !andb_false_iff, !negb_false_iff, !Z.eqb_eq in Ef. cbn. destruct_or! Ef; subst rate; tauto. }
  rewrite andb_false_iff, !negb_false_iff, !Z.eqb_eq in Ech.
  split; cbn [OpusDecode.Fs channels stream_channels DecControl prev_mode frame_size API_sampleRate nChannelsAPI
    payloadSize_ms nChannelsInternal internalSampleRate]; try done; try (cbn; tauto).
  - intros [H1|H1]; discriminate.
  - exists 1. split; [by left|]. unfold unit_size. cbn [OpusDecode.Fs]. lia.
Qed.

Lemma ctl_inv (st : decoder) request : dec_inv rate st -> dec_inv rate (opus_decoder_ctl st request).1.1.
Proof.
  intros Hinv. destruct request; cbn [opus_decoder_ctl celt_decoder_ctl fst]; try done;
    try (destruct (_ || _); cbn [fst]; [done|]; unfold celt_decoder_ctl; cbn [fst]; try destruct (_ =? _));
    try by destruct Hinv.
  - destruct Hinv as [H1 H2 H3 H4 H5 H6 H7 H8 H9].
    split; cbn [OpusDecode.Fs channels stream_channels DecControl prev_mode frame_size]; try done; try (cbn; tauto).
    + intros [E|E]; discriminate.
    + exists 1. split; [by left|]. unfold unit_size. cbn [OpusDecode.Fs]. lia.
  - by destruct (_ =? _).
Qed.

(** A lost packet. *)
Lemma sat_native_lost (st : decoder) pcm fsize fec :
  dec_inv rate st -> 0 < fsize -> fsize * st.(channels) <= len pcm ->
  must (opus_decode_native junk junk_dec st None 0 pcm 0 fsize fec false (repeat 0 48)) (fun '(st', pcm', ret, _) =>
    dec_inv rate st' /\ options_view st' = options_view st /\ within pcm pcm' 0 (fsize * st.(channels)) /\
    (if ((fec =? 0) || (fec =? 1)) && (Z.rem fsize (st.(Fs) / 400) =? 0)
     then ret = fsize /\ st'.(last_packet_duration) = fsize else ret = OPUS_BAD_ARG /\ st' = st)).
Proof.
  intros Hinv Hf Hl. destruct (inv_units st Hinv) as (Hu & Hch & _). unfold opus_decode_native. cbv zeta.
  destruct (Z.ltb_spec fec 0), (Z.gtb_spec fec 1), (Z.eqb_spec fec 0), (Z.eqb_spec fec 1); try lia; cbn [orb andb negb];
    try (apply must_ok; by split_and!);
    (change (Fs st / 400) with (unit_size st); destruct (Z.eqb_spec (Z.rem fsize (unit_size st)) 0) as [Er|]; cbn [negb];
      [|apply must_ok; by split_and!]; rewrite Z.rem_mod_nonneg in Er by lia;
     assert (EK : fsize = fsize / unit_size st * unit_size st) by (pose proof (Z.div_mod fsize (unit_size st)); lia);
     rewrite EK; eapply must_bind; [apply (sat_decode_lost junk junk_dec st pcm 0); try done; nia|];
     intros [[st' pcm'] ret] (Q1 & Q2 & _ & Hw & -> & Hd); apply must_ok; by split_and!).
Qed.

(** An empty packet is a lost packet. *)
Lemma native_empty (st : decoder) packet pcm p fsize fec sd size :
  opus_decode_native junk junk_dec st (Some packet) 0 pcm p fsize fec sd size =
  opus_decode_native junk junk_dec st None 0 pcm p fsize fec sd size.
Proof. unfold opus_decode_native. cbn [Z.eqb orb]. done. Qed.

Lemma reachable_inv st : reachable st -> dec_inv rate st.
Proof.
  induction 1 as [silk celt chans st Hi|st request st' ret out _ IH Hc|st packet pcm fsize fec st' pcm' ret _ IH Hb Hl Hd
    |st pcm fsize fec st' pcm' ret _ IH Hl Hd].
  - by eapply init_inv.
  - pose proof (ctl_inv st request IH) as H1. by rewrite Hc in H1.
  - unfold opus_decode in Hd. destruct (Z.leb_spec fsize 0); [by simplify_eq/=|].
    destruct packet as [|x packet'].
    { rewrite (native_empty st []) in Hd. pose proof (sat_native_lost st pcm fsize fec IH ltac:(lia) Hl) as Hs.
      destruct (opus_decode_native _ _ _ _ _ _ _ _ _ _ _) as [[[[a b] c] d]|?|]; [|done|done].
      cbn in Hd. simplify_eq. by destruct Hs. }
    pose proof (sat_native junk junk_dec st (x :: packet') pcm 0 fsize fec false (repeat 0 48) IH Hb) as Hs.
    destruct (opus_decode_native _ _ _ _ _ _ _ _ _ _ _) as [[[[a b] c] d]|?|]; [|done|done].
    cbn in Hd. simplify_eq.
    apply Hs; try lia; [unfold len; cbn [length]; lia|]. intros c _ Hc. change (len (repeat 0 48)) with 48. lia.
  - unfold opus_decode in Hd. destruct (Z.leb_spec fsize 0); [by simplify_eq/=|].
    pose proof (sat_native_lost st pcm fsize fec IH ltac:(lia) Hl) as Hs.
    destruct (opus_decode_native _ _ _ _ _ _ _ _ _ _ _) as [[[[a b] c] d]|?|]; [|done|done].
    cbn in Hd. simplify_eq. by destruct Hs.
Qed.
End Reachable.

(** The assertions follow from the invariant. *)
Lemma inv_validate {SILK CELT} rate (st : OpusDecoder SILK CELT) : dec_inv rate st -> validate_opus_decoder st = true.
Proof.
  intros [[HF Hr] Hch Hs [Ha1 Ha2] Hp Hi _ _ _]. unfold validate_opus_decoder. cbv zeta.
  rewrite !andb_true_iff, !orb_true_iff, !Z.eqb_eq. rewrite HF in *. unfold silk_known in Hi. cbn in Hr, Hp.
  split_and!; clear - Hr Hch Hs Ha1 Ha2 Hp Hi; lia.
Qed.

(** A synthesis that decodes silence, for concrete runs. *)
#[export] Instance silence : Synthesis unit unit := {|
  silk_ResetDecoder s := s;
  silk_Decode s c _ _ dec :=
    {| so_state := s; so_dec := dec; so_prevPitchLag := 0; so_ret := 0; so_nSamplesOut := silk_samples c;
       so_samples := repeat 0 (Z.to_nat (silk_samples c * c.(nChannelsAPI))) |};
  celt_update _ s := s;
  celt_get_phase_inversion_disabled _ := 0;
  celt_get_pitch _ := 0;
  celt_get_final_range _ := 0;
  celt_decode_with_ec s _ _ block size dec accum :=
    {| co_state := s; co_dec := match dec with Some d => d | None => ec_dec_init [] 0 end; co_ret := size;
       co_pcm := if accum then block else repeat 0 (Z.to_nat (len block)) |}
|}.

#[export] Instance silence_laws rate : SynthesisLaws rate (H := silence).
Proof.
  assert (Hlen : forall c, control_ok c ->
    len (repeat 0 (Z.to_nat (silk_samples c * c.(nChannelsAPI)))) = silk_samples c * c.(nChannelsAPI)).
  { intros c (_ & _ & _ & Hn & Hr). apply len_repeat_Z. apply Z.mul_nonneg_nonneg; [|lia]. unfold silk_samples.
    apply Z.div_pos; [|lia]. destruct Hr as [<-|[<-|[<-|[<-|[<-|[]]]]]]; destruct (_ =? 10); lia. }
  split; try done.
  - intros s c lost first dec [Hok _]. cbn [silk_Decode silence so_samples]. rewrite (Hlen c Hok). lia.
  - intros s c lost first dec [Hok _] _. cbn [silk_Decode silence so_samples]. exact (Hlen c Hok).
  - intros s data n block size dec accum. cbn [celt_decode_with_ec silence co_pcm].
    destruct accum; [done|]. apply len_repeat_Z. unfold len. lia.
  - intros s n block block' size dec Hn Hf Hl. cbn [celt_decode_with_ec silence]. f_equal.
    by replace (len block') with (len block).
Qed.

Section Decoder.
Context {rate : Z} `{L : SynthesisLaws rate SILK CELT} (junk : Z) (junk_dec : ec_ctx).

(** (C7) A decoder in any state that calls of the API can bring it to, given any bytes as a packet and
    a buffer of [frame_size] samples per channel: no access of the driver is outside the packet, the sample buffer or
    a temporary buffer, none of its assertions fails ([celt_assert], and [MUST_SUCCEED] on every request to the CELT decoder),
    and the recursion ends.  The call returns an error, or, decoding ([fec = 0]), the duration of the packet, or, recovering a lost
    packet ([fec = 1]), the frame size it was asked for; that fits the buffer and
    is remembered; the new state passes [validate_opus_decoder].  This holds for all SILK and CELT decoders that keep [SynthesisLaws]:
    they write within their frames, report how many samples, and read on in the packet. *)
Theorem decoder_safe st packet pcm frame_size fec :
  reachable (rate := rate) junk junk_dec st -> bytes packet -> 1 <= len packet -> 0 < frame_size ->
  frame_size * st.(channels) <= len pcm ->
  must (opus_decode junk junk_dec st (Some packet) (len packet) pcm frame_size fec (repeat 0 48))
    (fun '(st', pcm', ret) =>
       validate_opus_decoder st' = true /\ within pcm pcm' 0 (frame_size * st.(channels)) /\
       (ret < 0 \/
        0 < ret <= frame_size /\ st'.(last_packet_duration) = ret /\ (fec = 1 -> ret = frame_size) /\
        (fec = 0 -> opus_packet_get_nb_samples packet (len packet) st.(Fs) = Ok ret))).
Proof.
  intros Hr Hb Hl Hf Hp. apply reachable_inv in Hr as Hinv. unfold opus_decode.
  destruct (Z.leb_spec frame_size 0); [lia|].
  eapply must_bind; [apply (sat_native junk junk_dec st packet); try done; try lia|].
  { intros c _ Hc. change (len (repeat 0 48)) with 48. lia. }
  intros [[[st' pcm'] ret] off] (Hi & _ & Hw & Hret). apply must_ok. split_and!; [by eapply inv_validate|done|].
  destruct Hret as [|(? & ? & _ & ? & ?)]; [by left|by right].
Qed.

End Decoder.

(** A new mono decoder at 8 kHz. *)
Definition decoder_8k : OpusDecoder unit unit :=
  {| silk_dec := tt; celt_dec := tt; channels := 1; Fs := 8000;
     DecControl := {| nChannelsAPI := 1; nChannelsInternal := 0; API_sampleRate := 8000; internalSampleRate := 0;
                      payloadSize_ms := 0; prevPitchLag := 0; enable_deep_plc := false |};
     decode_gain := 0; complexity := 0; stream_channels := 1; bandwidth := 0; mode := 0; prev_mode := 0;
     frame_size := 20; prev_redundancy := false; last_packet_duration := 0; rangeFinal := 0 |}.

Lemma decoder_8k_reachable : reachable (rate := 8000) 0 (ec_dec_init [] 0) decoder_8k.
Proof. apply (reach_init _ _ tt tt 1). reflexivity. Qed.

Lemma decoder_safe_witness :
  must (opus_decode 0 (ec_dec_init [] 0) decoder_8k (Some [9; 1; 2; 3; 4; 5; 6]) (len [9; 1; 2; 3; 4; 5; 6]) (repeat 5 320)
          320 0 (repeat 0 48))
    (fun '(st', pcm', ret) =>
       validate_opus_decoder st' = true /\ within (repeat 5 320) pcm' 0 (320 * decoder_8k.(channels)) /\
       (ret < 0 \/
        0 < ret <= 320 /\ st'.(last_packet_duration) = ret /\ (0 = 1 -> ret = 320) /\
        (0 = 0 -> opus_packet_get_nb_samples [9; 1; 2; 3; 4; 5; 6] (len [9; 1; 2; 3; 4; 5; 6]) decoder_8k.(Fs) = Ok ret))).
Proof.
  exact (decoder_safe (rate := 8000) 0 (ec_dec_init [] 0) decoder_8k [9; 1; 2; 3; 4; 5; 6] (repeat 5 320) 320 0
    decoder_8k_reachable ltac:(repeat constructor; lia) ltac:(vm_compute; discriminate) ltac:(lia)
    ltac:(vm_compute; discriminate)).
Defined.

Section Conceal.
Context {rate : Z} `{L : SynthesisLaws rate SILK CELT} (junk : Z) (junk_dec : ec_ctx).

(** (C15) Concealment is total and fills its buffer: a reachable decoder told that a packet is lost, with a duration that is a
    multiple of 2.5 ms, ends with success, whatever frames it decoded before, by as many frames as it takes, and writes every sample of that
    duration and no other: the samples and the new state depend on the decoder alone, not on what the buffer held or
    the temporary buffers contained.  With another duration it refuses and stays as it was.  This holds for all SILK and CELT decoders that keep
    [SynthesisLaws]: when they conceal, CELT returns its frame size and overwrites its block or adds to it, and SILK writes the samples it reports. *)
Theorem decoder_conceals st frame_size fec :
  reachable (rate := rate) junk junk_dec st -> 0 < frame_size -> fec = 0 \/ fec = 1 ->
  if Z.rem frame_size (st.(Fs) / 400) =? 0 then
    exists st' out, len out = frame_size * st.(channels) /\ st'.(last_packet_duration) = frame_size /\
      forall junk' pcm, frame_size * st.(channels) <= len pcm ->
        opus_decode junk' junk_dec st None 0 pcm frame_size fec (repeat 0 48) = Ok (st', splice pcm 0 out, frame_size)
  else forall pcm, opus_decode junk junk_dec st None 0 pcm frame_size fec (repeat 0 48) = Ok (st, pcm, OPUS_BAD_ARG).
Proof.
  intros Hr Hf Hfec. apply reachable_inv in Hr as Hinv. destruct (inv_units st Hinv) as (Hu & Hch & _).
  unfold opus_decode, opus_decode_native. destruct (Z.leb_spec frame_size 0); [lia|]. cbv zeta.
  replace ((fec <? 0) || (fec >? 1)) with false by (symmetry; destruct Hfec as [-> | ->]; done).
  rewrite orb_true_r. cbn [andb orb Z.eqb]. change (Fs st / 400) with (unit_size st).
  destruct (Z.eqb_spec (Z.rem frame_size (unit_size st)) 0) as [Er|]; cbn [negb]; [|done].
  rewrite Z.rem_mod_nonneg in Er by lia.
  assert (EK : frame_size = frame_size / unit_size st * unit_size st) by (pose proof (Z.div_mod frame_size (unit_size st)); lia).
  set (K := frame_size / unit_size st) in *. assert (HK : 1 <= K) by nia. rewrite EK.
  set (N := K * unit_size st * channels st). assert (HN : 0 <= N) by (subst N; nia).
  set (pcm0 := repeat 0 (Z.to_nat N)). assert (L0 : len pcm0 = N) by (by apply len_repeat_Z).
  pose proof (sat_decode_lost junk junk_dec st pcm0 0 K Hinv HK ltac:(lia) ltac:(rewrite L0; fold N; lia)) as Hs.
  destruct (decode_lost junk junk_dec st pcm0 0 (K * unit_size st)) as [[[st' o] ret]|c|] eqn:E0; [|done|done].
  destruct Hs as (_ & _ & _ & [Lo _] & Eret & Hdur). exists st', (slice o 0 N).
  split_and!; [apply len_slice; lia|congruence|]. intros junk' pcm Hl.
  rewrite (lost_block junk junk' junk_dec st K Hinv HK pcm0 ltac:(fold N; lia) st' o ret E0 pcm Hl). cbn [mbind res_bind].
  fold N. by rewrite Eret.
Qed.
End Conceal.

Lemma decoder_conceals_witness :
  exists st' out, len out = 300 /\ st'.(last_packet_duration) = 300 /\
    forall junk' pcm, 300 <= len pcm ->
      opus_decode junk' (ec_dec_init [] 0) decoder_8k None 0 pcm 300 1 (repeat 0 48) = Ok (st', splice pcm 0 out, 300).
Proof.
  exact (decoder_conceals (rate := 8000) 0 (ec_dec_init [] 0) decoder_8k 300 1
    decoder_8k_reachable ltac:(lia) ltac:(by right)).
Defined.

(** A run: a packet of two 20 ms frames of silence, the second one empty. *)
Example decode_two_frames :
  match opus_decode 0 (ec_dec_init [] 0) decoder_8k (Some [10; 2; 7; 7]) 4 (repeat 5 330) 330 0 (repeat 0 48) with
  | Ok (st', pcm', ret) => ret = 320 /\ st'.(prev_mode) = MODE_SILK_ONLY /\ pcm' = repeat 0 320 ++ repeat 5 10
  | _ => False
  end.
Proof. by vm_compute. Qed.
