(* ===== verification/OpusControl.v ===== *)
(** * Decisions of the Opus encoder (src/opus_encoder.c)

    The functions with which [opus_encode_native] chooses what a packet holds: its
    first byte, the frame size, the rates, redundancy and discontinuous
    transmission. *)

From S2P Require Import Prelude FixedPoint Memory Packet SilkMath.

Definition OPUS_AUTO : Z := -1000.
Definition OPUS_BITRATE_MAX : Z := -1.
Definition OPUS_BANDWIDTH_NARROWBAND : Z := 1101.
Definition OPUS_BANDWIDTH_MEDIUMBAND : Z := 1102.
Definition OPUS_BANDWIDTH_SUPERWIDEBAND : Z := 1104.
Definition OPUS_FRAMESIZE_ARG : Z := 5000.
Definition OPUS_FRAMESIZE_2_5_MS : Z := 5001.
Definition OPUS_FRAMESIZE_40_MS : Z := 5005.
Definition OPUS_FRAMESIZE_120_MS : Z := 5009.

(** ** The first byte *)

(** [while (framerate < 400)]: the frame rate and the period. *)
Definition toc_period (framerate : Z) : Z * Z :=
  while_fuel 32 (fun t => t.1 <? 400) (fun t => (Z.shiftl t.1 1, t.2 + 1)) (framerate, 0).

Definition gen_toc (mode framerate bandwidth channels : Z) : Z :=
  let period := (toc_period framerate).2 in
  let toc :=
    if mode =? MODE_SILK_ONLY then
      let toc := u8 (Z.shiftl (bandwidth - OPUS_BANDWIDTH_NARROWBAND) 5) in
      u8 (Z.lor toc (Z.shiftl (period - 2) 3))
    else if mode =? MODE_CELT_ONLY then
      let tmp := bandwidth - OPUS_BANDWIDTH_MEDIUMBAND in
      let tmp := if tmp <? 0 then 0 else tmp in
      let toc := u8 (Z.lor 0x80 (Z.shiftl tmp 5)) in
      u8 (Z.lor toc (Z.shiftl period 3))
    else
      let toc := u8 (Z.lor 0x60 (Z.shiftl (bandwidth - OPUS_BANDWIDTH_SUPERWIDEBAND) 4)) in
      u8 (Z.lor toc (Z.shiftl (period - 2) 3)) in
  u8 (Z.lor toc (Z.shiftl (b2z (channels =? 2)) 2)).

(** ** The frame size *)

(** The size if it is one of the nine durations; the products are [int]s. *)
Definition frame_size_check (frame_size Fs new_size : Z) : Z :=
  if new_size >? frame_size then -1
  else if negb (i32 (400 * new_size) =? Fs) && negb (i32 (200 * new_size) =? Fs) && negb (i32 (100 * new_size) =? Fs)
    && negb (i32 (50 * new_size) =? Fs) && negb (i32 (25 * new_size) =? Fs) && negb (i32 (50 * new_size) =? 3 * Fs)
    && negb (i32 (50 * new_size) =? 4 * Fs) && negb (i32 (50 * new_size) =? 5 * Fs)
    && negb (i32 (50 * new_size) =? 6 * Fs)
  then -1 else new_size.

Definition frame_size_select (frame_size variable_duration Fs : Z) : Z :=
  if frame_size <? Fs / 400 then -1
  else if variable_duration =? OPUS_FRAMESIZE_ARG then frame_size_check frame_size Fs frame_size
  else if (variable_duration >=? OPUS_FRAMESIZE_2_5_MS) && (variable_duration <=? OPUS_FRAMESIZE_120_MS) then
    if variable_duration <=? OPUS_FRAMESIZE_40_MS
    then frame_size_check frame_size Fs (Z.shiftl (Fs / 400) (variable_duration - OPUS_FRAMESIZE_2_5_MS))
    else frame_size_check frame_size Fs ((variable_duration - OPUS_FRAMESIZE_2_5_MS - 2) * Fs / 50)
  else -1.

(** ** Rates *)

Definition user_bitrate_to_bitrate (Fs channels user_bitrate_bps frame_size max_data_bytes : Z) : Z :=
  let frame_size := if frame_size =? 0 then Fs / 400 else frame_size in
  if user_bitrate_bps =? OPUS_AUTO then i32 (Z.quot (60 * Fs) frame_size + Fs * channels)
  else if user_bitrate_bps =? OPUS_BITRATE_MAX then Z.quot (i32 (max_data_bytes * 8 * Fs)) frame_size
  else user_bitrate_bps.

Definition hybrid_rate_table : list (list Z) :=
  [[0; 0; 0; 0; 0];
   [12000; 10000; 10000; 11000; 11000];
   [16000; 13500; 13500; 15000; 15000];
   [20000; 16000; 16000; 18000; 18000];
   [24000; 18000; 18000; 21000; 21000];
   [32000; 22000; 22000; 28000; 28000];
   [64000; 38000; 38000; 50000; 50000]].
Definition rate_row (i : Z) : list Z := nth (Z.to_nat i) hybrid_rate_table [].

(** [for (i=1;i<N;i++)]: the first row above [rate], or [N]. *)
Fixpoint rate_search (n : nat) (i rate : Z) : Z :=
  match n with
  | O => i
  | S n => if (rate_row i).[0] >? rate then i else rate_search n (i + 1) rate
  end.

Definition compute_silk_rate_for_hybrid (rate bandwidth : Z) (frame20ms vbr fec : bool) (channels : Z) : Z :=
  let rate := Z.quot rate channels in
  let entry := 1 + b2z frame20ms + 2 * b2z fec in
  let i := rate_search 6 1 rate in
  let silk_rate :=
    if i =? 7 then (rate_row 6).[entry] + Z.quot (rate - (rate_row 6).[0]) 2
    else
      let lo := (rate_row (i - 1)).[entry] in
      let hi := (rate_row i).[entry] in
      let x0 := (rate_row (i - 1)).[0] in
      let x1 := (rate_row i).[0] in
      Z.quot (i32 (lo * (x1 - rate) + hi * (rate - x0))) (x1 - x0) in
  let silk_rate := if negb vbr then silk_rate + 100 else silk_rate in
  let silk_rate := if bandwidth =? OPUS_BANDWIDTH_SUPERWIDEBAND then silk_rate + 300 else silk_rate in
  let silk_rate := silk_rate * channels in
  if (channels =? 2) && (rate >=? 12000) then silk_rate - 1000 else silk_rate.

Definition compute_equiv_rate (bitrate channels frame_rate : Z) (vbr : bool) (mode complexity loss : Z) : Z :=
  let equiv := bitrate in
  let equiv := if frame_rate >? 50 then equiv - (40 * channels + 20) * (frame_rate - 50) else equiv in
  let equiv := if negb vbr then equiv - Z.quot equiv 12 else equiv in
  let equiv := Z.quot (i32 (equiv * (90 + complexity))) 100 in
  if (mode =? MODE_SILK_ONLY) || (mode =? MODE_HYBRID) then
    let equiv := if complexity <? 2 then Z.quot (equiv * 4) 5 else equiv in
    equiv - Z.quot (i32 (equiv * loss)) (6 * loss + 10)
  else if mode =? MODE_CELT_ONLY then
    if complexity <? 5 then Z.quot (equiv * 9) 10 else equiv
  else equiv - Z.quot (i32 (equiv * loss)) (12 * loss + 20).

(** ** Redundancy *)

Definition compute_redundancy_bytes (max_data_bytes bitrate_bps frame_rate channels : Z) : Z :=
  let base_bits := 40 * channels + 20 in
  let redundancy_rate := bitrate_bps + base_bits * (200 - frame_rate) in
  let redundancy_rate := Z.quot (3 * redundancy_rate) 2 in
  let redundancy_bytes := Z.quot redundancy_rate 1600 in
  let available_bits := max_data_bytes * 8 - 2 * base_bits in
  let redundancy_bytes_cap :=
    Z.quot (Z.quot (i32 (available_bits * 240)) (240 + Z.quot 48000 frame_rate) + base_bits) 8 in
  let redundancy_bytes := Z.min redundancy_bytes redundancy_bytes_cap in
  if redundancy_bytes >? 4 + 8 * channels then Z.min 257 redundancy_bytes else 0.

Definition fec_thresholds : list Z :=
  [12000; 1000; 14000; 1000; 16000; 1000; 20000; 1000; 22000; 1000].

(** The rate above which a bandwidth can carry redundancy. *)
Definition fec_threshold (PacketLoss_perc last_fec bandwidth : Z) : Z :=
  let thres := fec_thresholds.[2 * (bandwidth - OPUS_BANDWIDTH_NARROWBAND)] in
  let hysteresis := fec_thresholds.[2 * (bandwidth - OPUS_BANDWIDTH_NARROWBAND) + 1] in
  let thres := if last_fec =? 1 then thres - hysteresis else thres in
  let thres := if last_fec =? 0 then thres + hysteresis else thres in
  silk_SMULWB (silk_MUL thres (125 - Z.min PacketLoss_perc 25)) 655.

(** [for (;;)]: the decision and the bandwidth at which the loop ends, [None] when
    it breaks. *)
Fixpoint fec_loop (fuel : nat) (PacketLoss_perc last_fec bandwidth rate : Z) : option (Z * Z) :=
  match fuel with
  | O => None
  | S fuel =>
      if rate >? fec_threshold PacketLoss_perc last_fec bandwidth then Some (1, bandwidth)
      else if PacketLoss_perc <=? 5 then Some (0, bandwidth)
      else if bandwidth >? OPUS_BANDWIDTH_NARROWBAND
      then fec_loop fuel PacketLoss_perc last_fec (bandwidth - 1) rate
      else None
  end.

(** The decision and the new bandwidth. *)
Definition decide_fec (useInBandFEC PacketLoss_perc last_fec mode bandwidth rate : Z) : Z * Z :=
  if (useInBandFEC =? 0) || (PacketLoss_perc =? 0) || (mode =? MODE_CELT_ONLY) then (0, bandwidth)
  else
    match fec_loop (Z.to_nat (bandwidth - OPUS_BANDWIDTH_NARROWBAND + 1)) PacketLoss_perc last_fec bandwidth rate with
    | Some r => r
    | None => (0, bandwidth)
    end.

(** ** Discontinuous transmission *)

Definition NB_SPEECH_FRAMES_BEFORE_DTX : Z := 10.
Definition MAX_CONSECUTIVE_DTX : Z := 20.

(** The decision and [*nb_no_activity_ms_Q1]. *)
Definition decide_dtx_mode (activity : bool) (nb_no_activity_ms_Q1 frame_size_ms_Q1 : Z) : bool * Z :=
  if negb activity then
    let nb := nb_no_activity_ms_Q1 + frame_size_ms_Q1 in
    if nb >? NB_SPEECH_FRAMES_BEFORE_DTX * 20 * 2 then
      if nb <=? (NB_SPEECH_FRAMES_BEFORE_DTX + MAX_CONSECUTIVE_DTX) * 20 * 2 then (true, nb)
      else (false, NB_SPEECH_FRAMES_BEFORE_DTX * 20 * 2)
    else (false, nb)
  else (false, 0).
