(* ===== verification/OpusDecide.v ===== *)
(** * What the Opus encoder puts into a packet (src/opus_encoder.c)

    The decisions of [opus_encode_native], from the rate to the size of the
    frames that are coded: the packets without content that it sends when there is
    no room, the number of channels, the mode, the bandwidth, and the split into
    frames.  What the signal analysis found is part of the input. *)

From S2P Require Import Prelude FixedPoint Memory Packet OpusControl.

Definition OPUS_APPLICATION_VOIP : Z := 2048.
Definition OPUS_APPLICATION_AUDIO : Z := 2049.
Definition OPUS_APPLICATION_RESTRICTED_LOWDELAY : Z := 2051.
Definition OPUS_SIGNAL_VOICE : Z := 3001.
Definition OPUS_SIGNAL_MUSIC : Z := 3002.
Definition OPUS_BANDWIDTH_WIDEBAND : Z := 1103.
Definition OPUS_BANDWIDTH_FULLBAND : Z := 1105.

(** ** The encoder *)

(** The settings, as [opus_encoder_init] and [opus_encoder_ctl] leave them. *)
Record enc_settings := {
  es_Fs : Z;
  es_channels : Z;
  es_application : Z;
  es_force_channels : Z;
  es_signal_type : Z;
  es_user_bandwidth : Z;
  es_max_bandwidth : Z;
  es_user_forced_mode : Z;
  es_use_vbr : bool;
  es_user_bitrate_bps : Z;
  es_fec_config : Z;
  es_useInBandFEC : bool;
  es_packetLossPercentage : Z;
  es_complexity : Z;
  es_use_dtx : bool;
  es_lfe : bool
}.

(** What one packet leaves to the next. *)
Record enc_state := {
  stream_channels : Z;
  mode : Z;
  prev_mode : Z;
  prev_channels : Z;
  bandwidth : Z;
  auto_bandwidth : Z;
  first : bool;
  toMono : bool;
  LBRR_coded : Z;
  allowBandwidthSwitch : bool;
  inWBmodeWithoutVariableLP : bool
}.

(** What is known of the signal: [st->voice_ratio], [st->detected_bandwidth], the
    width of the stereo image and whether the analysis can drive DTX. *)
Record enc_signal := {
  voice_ratio : Z;
  detected_bandwidth : Z;
  stereo_width : Z;
  general_dtx : bool
}.

(** ** Rate *)

(** The rate and the bytes of the packet: [(st->bitrate_bps, cbr_bytes,
    max_data_bytes)]. *)
Definition packet_rate (s : enc_settings) (frame_size max_data_bytes : Z) : Z * Z * Z :=
  let bitrate_bps :=
    user_bitrate_to_bitrate s.(es_Fs) s.(es_channels) s.(es_user_bitrate_bps) frame_size max_data_bytes in
  if negb s.(es_use_vbr) then
    let frame_rate12 := Z.quot (12 * s.(es_Fs)) frame_size in
    let cbr_bytes :=
      Z.min (Z.quot (Z.quot (i32 (12 * bitrate_bps)) 8 + Z.quot frame_rate12 2) frame_rate12) max_data_bytes in
    (Z.quot (i32 (i32 (cbr_bytes * frame_rate12) * 8)) 12, cbr_bytes, Z.max 1 cbr_bytes)
  else (bitrate_bps, -1, max_data_bytes).

Definition no_room (max_data_bytes bitrate_bps frame_rate : Z) : bool :=
  (max_data_bytes <? 3) || (bitrate_bps <? 3 * frame_rate * 8)
  || (frame_rate <? 50) && ((max_data_bytes * frame_rate <? 300) || (bitrate_bps <? 2400)).

(** The packet of one or two bytes that asks the decoder to conceal. *)
Definition plc_packet (mode bandwidth stream_channels frame_rate out_data_bytes : Z) : list Z :=
  let bw := if bandwidth =? 0 then OPUS_BANDWIDTH_NARROWBAND else bandwidth in
  let tocmode := if mode =? 0 then MODE_SILK_ONLY else mode in
  let tocmode := if frame_rate >? 100 then MODE_CELT_ONLY else tocmode in
  let '(frame_rate, packet_code) :=
    if (frame_rate =? 25) && negb (tocmode =? MODE_SILK_ONLY) then (50, 1) else (frame_rate, 0) in
  let '(tocmode, frame_rate, packet_code, num_multiframes) :=
    if frame_rate <=? 16 then
      if (out_data_bytes =? 1) || ((tocmode =? MODE_SILK_ONLY) && negb (frame_rate =? 10)) then
        (MODE_SILK_ONLY, if frame_rate =? 12 then 25 else 16, b2z (frame_rate <=? 12), 0)
      else (tocmode, 50, 3, Z.quot 50 frame_rate)
    else (tocmode, frame_rate, packet_code, 0) in
  let bw :=
    if (tocmode =? MODE_SILK_ONLY) && (bw >? OPUS_BANDWIDTH_WIDEBAND) then OPUS_BANDWIDTH_WIDEBAND
    else if (tocmode =? MODE_CELT_ONLY) && (bw =? OPUS_BANDWIDTH_MEDIUMBAND) then OPUS_BANDWIDTH_NARROWBAND
    else if (tocmode =? MODE_HYBRID) && (bw <=? OPUS_BANDWIDTH_SUPERWIDEBAND) then OPUS_BANDWIDTH_SUPERWIDEBAND
    else bw in
  let d0 := u8 (Z.lor (gen_toc tocmode frame_rate bw stream_channels) packet_code) in
  if packet_code =? 3 then [d0; u8 num_multiframes] else [d0].

(** ** Channels *)

Definition voice_estimate (s : enc_settings) (g : enc_signal) : Z :=
  if s.(es_signal_type) =? OPUS_SIGNAL_VOICE then 127
  else if s.(es_signal_type) =? OPUS_SIGNAL_MUSIC then 0
  else if g.(voice_ratio) >=? 0 then
    let voice_est := Z.shiftr (g.(voice_ratio) * 327) 8 in
    if s.(es_application) =? OPUS_APPLICATION_AUDIO then Z.min voice_est 115 else voice_est
  else if s.(es_application) =? OPUS_APPLICATION_VOIP then 115 else 48.

Definition stereo_voice_threshold : Z := 19000.
Definition stereo_music_threshold : Z := 17000.

Definition choose_channels (s : enc_settings) (stream_channels voice_est equiv_rate : Z) : Z :=
  if negb (s.(es_force_channels) =? OPUS_AUTO) && (s.(es_channels) =? 2) then s.(es_force_channels)
  else if s.(es_channels) =? 2 then
    let threshold := stereo_music_threshold
      + Z.shiftr (voice_est * voice_est * (stereo_voice_threshold - stereo_music_threshold)) 14 in
    let threshold := if stream_channels =? 2 then threshold - 1000 else threshold + 1000 in
    if equiv_rate >? threshold then 2 else 1
  else s.(es_channels).

(** ** Mode *)

Definition mode_threshold (s : enc_settings) (prev_mode width voice_est : Z) : Z :=
  let mode_voice := MULT16_32_Q15 (Q15ONE - width) 64000 + MULT16_32_Q15 width 44000 in
  let mode_music := MULT16_32_Q15 (Q15ONE - width) 10000 + MULT16_32_Q15 width 10000 in
  let threshold := mode_music + Z.shiftr (voice_est * voice_est * (mode_voice - mode_music)) 14 in
  let threshold := if s.(es_application) =? OPUS_APPLICATION_VOIP then threshold + 8000 else threshold in
  if prev_mode =? MODE_CELT_ONLY then threshold - 4000
  else if prev_mode >? 0 then threshold + 4000 else threshold.

(** "Mode selection depending on application and signal type" *)
Definition choose_mode (s : enc_settings) (prev_mode : Z) (g : enc_signal)
    (voice_est equiv_rate frame_size frame_rate max_data_bytes : Z) : Z :=
  if s.(es_application) =? OPUS_APPLICATION_RESTRICTED_LOWDELAY then MODE_CELT_ONLY
  else if s.(es_user_forced_mode) =? OPUS_AUTO then
    let mode := if equiv_rate >=? mode_threshold s prev_mode g.(stereo_width) voice_est
                then MODE_CELT_ONLY else MODE_SILK_ONLY in
    let mode := if s.(es_useInBandFEC) && (s.(es_packetLossPercentage) >? Z.shiftr (128 - voice_est) 4)
                   && (negb (s.(es_fec_config) =? 2) || (voice_est >? 25))
                then MODE_SILK_ONLY else mode in
    let useDTX := s.(es_use_dtx) && negb g.(general_dtx) in
    let mode := if useDTX && (voice_est >? 100) then MODE_SILK_ONLY else mode in
    if max_data_bytes <? Z.quot ((if frame_rate >? 50 then 9000 else 6000) * frame_size) (s.(es_Fs) * 8)
    then MODE_CELT_ONLY else mode
  else s.(es_user_forced_mode).

(** "Override the chosen mode to make sure we meet the requested frame size", and
    the change of mode: the mode, [redundancy], [celt_to_silk] and [to_celt]. *)
Definition change_mode (s : enc_settings) (prev_mode mode frame_size : Z) : Z * bool * bool * bool :=
  let mode := if negb (mode =? MODE_CELT_ONLY) && (frame_size <? s.(es_Fs) / 100) then MODE_CELT_ONLY else mode in
  let mode := if s.(es_lfe) then MODE_CELT_ONLY else mode in
  if (prev_mode >? 0) &&
     (negb (mode =? MODE_CELT_ONLY) && (prev_mode =? MODE_CELT_ONLY)
      || (mode =? MODE_CELT_ONLY) && negb (prev_mode =? MODE_CELT_ONLY)) then
    let celt_to_silk := negb (mode =? MODE_CELT_ONLY) in
    if negb celt_to_silk then
      if frame_size >=? s.(es_Fs) / 100 then (prev_mode, true, celt_to_silk, true)
      else (mode, false, celt_to_silk, false)
    else (mode, true, celt_to_silk, false)
  else (mode, false, false, false).

(** The delayed change to mono: [stream_channels] and [toMono]. *)
Definition delay_mono (e : enc_state) (channels mode : Z) : Z * bool :=
  if (channels =? 1) && (e.(prev_channels) =? 2) && negb e.(toMono)
     && negb (mode =? MODE_CELT_ONLY) && negb (e.(prev_mode) =? MODE_CELT_ONLY)
  then (2, true) else (channels, false).

(** ** Bandwidth *)

Definition mono_voice_bandwidth_thresholds : list Z := [9000; 700; 9000; 700; 13500; 1000; 14000; 2000].
Definition mono_music_bandwidth_thresholds : list Z := [9000; 700; 9000; 700; 11000; 1000; 12000; 2000].
Definition stereo_voice_bandwidth_thresholds : list Z := [9000; 700; 9000; 700; 13500; 1000; 14000; 2000].
Definition stereo_music_bandwidth_thresholds : list Z := [9000; 700; 9000; 700; 11000; 1000; 12000; 2000].

(** [bandwidth_thresholds[i]], interpolated between voice and music. *)
Definition bandwidth_threshold (s : enc_settings) (voice_est i : Z) : Z :=
  let '(voice, music) :=
    if (s.(es_channels) =? 2) && negb (s.(es_force_channels) =? 1)
    then (stereo_voice_bandwidth_thresholds, stereo_music_bandwidth_thresholds)
    else (mono_voice_bandwidth_thresholds, mono_music_bandwidth_thresholds) in
  music.[i] + Z.shiftr (voice_est * voice_est * (voice.[i] - music.[i])) 14.

(** [do ... while (--bandwidth>OPUS_BANDWIDTH_NARROWBAND)] *)
Fixpoint bandwidth_loop (fuel : nat) (s : enc_settings) (e : enc_state) (voice_est equiv_rate bandwidth : Z) : Z :=
  match fuel with
  | O => bandwidth
  | S fuel =>
      let threshold := bandwidth_threshold s voice_est (2 * (bandwidth - OPUS_BANDWIDTH_MEDIUMBAND)) in
      let hysteresis := bandwidth_threshold s voice_est (2 * (bandwidth - OPUS_BANDWIDTH_MEDIUMBAND) + 1) in
      let threshold :=
        if negb e.(first) then
          if e.(auto_bandwidth) >=? bandwidth then threshold - hysteresis else threshold + hysteresis
        else threshold in
      if equiv_rate >=? threshold then bandwidth
      else
        let bandwidth := bandwidth - 1 in
        if bandwidth >? OPUS_BANDWIDTH_NARROWBAND then bandwidth_loop fuel s e voice_est equiv_rate bandwidth else bandwidth
  end.

(** "Automatic (rate-dependent) bandwidth selection": [bandwidth] and
    [auto_bandwidth]. *)
Definition choose_bandwidth (s : enc_settings) (e : enc_state) (mode voice_est equiv_rate : Z) : Z * Z :=
  if (mode =? MODE_CELT_ONLY) || e.(first) || e.(allowBandwidthSwitch) then
    let b := bandwidth_loop 4 s e voice_est equiv_rate OPUS_BANDWIDTH_FULLBAND in
    let b := if b =? OPUS_BANDWIDTH_MEDIUMBAND then OPUS_BANDWIDTH_WIDEBAND else b in
    (if negb e.(first) && negb (mode =? MODE_CELT_ONLY) && negb e.(inWBmodeWithoutVariableLP)
        && (b >? OPUS_BANDWIDTH_WIDEBAND) then OPUS_BANDWIDTH_WIDEBAND else b, b)
  else (e.(bandwidth), e.(auto_bandwidth)).

(** The limits of the settings, of the rate and of the sampling rate. *)
Definition limit_bandwidth (s : enc_settings) (mode max_rate b : Z) : Z :=
  let b := if b >? s.(es_max_bandwidth) then s.(es_max_bandwidth) else b in
  let b := if negb (s.(es_user_bandwidth) =? OPUS_AUTO) then s.(es_user_bandwidth) else b in
  let b := if negb (mode =? MODE_CELT_ONLY) && (max_rate <? 15000) then Z.min b OPUS_BANDWIDTH_WIDEBAND else b in
  let b := if (s.(es_Fs) <=? 24000) && (b >? OPUS_BANDWIDTH_SUPERWIDEBAND) then OPUS_BANDWIDTH_SUPERWIDEBAND else b in
  let b := if (s.(es_Fs) <=? 16000) && (b >? OPUS_BANDWIDTH_WIDEBAND) then OPUS_BANDWIDTH_WIDEBAND else b in
  let b := if (s.(es_Fs) <=? 12000) && (b >? OPUS_BANDWIDTH_MEDIUMBAND) then OPUS_BANDWIDTH_MEDIUMBAND else b in
  if (s.(es_Fs) <=? 8000) && (b >? OPUS_BANDWIDTH_NARROWBAND) then OPUS_BANDWIDTH_NARROWBAND else b.

(** "Use detected bandwidth to reduce the encoded bandwidth." *)
Definition detect_bandwidth (s : enc_settings) (g : enc_signal) (mode equiv_rate channels b : Z) : Z :=
  if negb (g.(detected_bandwidth) =? 0) && (s.(es_user_bandwidth) =? OPUS_AUTO) then
    let celt := mode =? MODE_CELT_ONLY in
    let min_detected :=
      if (equiv_rate <=? 18000 * channels) && celt then OPUS_BANDWIDTH_NARROWBAND
      else if (equiv_rate <=? 24000 * channels) && celt then OPUS_BANDWIDTH_MEDIUMBAND
      else if equiv_rate <=? 30000 * channels then OPUS_BANDWIDTH_WIDEBAND
      else if equiv_rate <=? 44000 * channels then OPUS_BANDWIDTH_SUPERWIDEBAND
      else OPUS_BANDWIDTH_FULLBAND in
    Z.min b (Z.max g.(detected_bandwidth) min_detected)
  else b.

(** "CELT mode doesn't support mediumband", and the choice between SILK and
    hybrid: the mode and the bandwidth. *)
Definition settle_mode (s : enc_settings) (mode b : Z) : Z * Z :=
  let b := if (mode =? MODE_CELT_ONLY) && (b =? OPUS_BANDWIDTH_MEDIUMBAND) then OPUS_BANDWIDTH_WIDEBAND else b in
  let b := if s.(es_lfe) then OPUS_BANDWIDTH_NARROWBAND else b in
  let mode := if (mode =? MODE_SILK_ONLY) && (b >? OPUS_BANDWIDTH_WIDEBAND) then MODE_HYBRID else mode in
  let mode := if (mode =? MODE_HYBRID) && (b <=? OPUS_BANDWIDTH_WIDEBAND) then MODE_SILK_ONLY else mode in
  (mode, b).

(** ** Frames *)

(** The size and the number of the frames that are coded. *)
Definition split_frames (Fs mode frame_size : Z) : Z * Z :=
  if (frame_size >? Fs / 50) && negb (mode =? MODE_SILK_ONLY) || (frame_size >? 3 * Fs / 50) then
    let enc_frame_size :=
      if mode =? MODE_SILK_ONLY then
        if frame_size =? 2 * Fs / 25 then Fs / 25
        else if frame_size =? 3 * Fs / 25 then 3 * Fs / 50
        else Fs / 50
      else Fs / 50 in
    (enc_frame_size, frame_size / enc_frame_size)
  else (frame_size, 1).

(** ** All decisions *)

Record decision := {
  dc_state : enc_state;
  dc_redundancy : bool;
  dc_celt_to_silk : bool;
  dc_to_celt : bool;
  dc_equiv_rate : Z;
  dc_enc_frame_size : Z;
  dc_nb_frames : Z
}.

(** From "Equivalent 20-ms rate for mode/channel/bandwidth decisions" on. *)
Definition encode_decide (s : enc_settings) (e : enc_state) (g : enc_signal) (frame_size max_data_bytes bitrate_bps : Z)
    : decision :=
  let frame_rate := s.(es_Fs) / frame_size in
  let max_rate := frame_rate * max_data_bytes * 8 in
  let equiv channels m :=
    compute_equiv_rate bitrate_bps channels frame_rate s.(es_use_vbr) m s.(es_complexity) s.(es_packetLossPercentage) in
  let voice_est := voice_estimate s g in
  let channels := choose_channels s e.(stream_channels) voice_est (equiv s.(es_channels) 0) in
  let m := choose_mode s e.(prev_mode) g voice_est (equiv channels 0) frame_size frame_rate max_data_bytes in
  let '(m, redundancy, celt_to_silk, to_celt) := change_mode s e.(prev_mode) m frame_size in
  let '(channels, mono) := delay_mono e channels m in
  let equiv_rate := equiv channels m in
  let '(b, auto) := choose_bandwidth s e m voice_est equiv_rate in
  let b := limit_bandwidth s m max_rate b in
  let b := detect_bandwidth s g m equiv_rate channels b in
  let '(lbrr, b) := decide_fec (b2z s.(es_useInBandFEC)) s.(es_packetLossPercentage) e.(LBRR_coded) m b equiv_rate in
  let '(m, b) := settle_mode s m b in
  let '(enc_frame_size, nb_frames) := split_frames s.(es_Fs) m frame_size in
  {| dc_state := {| stream_channels := channels; mode := m; prev_mode := e.(prev_mode);
                    prev_channels := e.(prev_channels); bandwidth := b; auto_bandwidth := auto; first := e.(first);
                    toMono := mono; LBRR_coded := lbrr; allowBandwidthSwitch := e.(allowBandwidthSwitch);
                    inWBmodeWithoutVariableLP := e.(inWBmodeWithoutVariableLP) |};
     dc_redundancy := redundancy; dc_celt_to_silk := celt_to_silk; dc_to_celt := to_celt;
     dc_equiv_rate := equiv_rate; dc_enc_frame_size := enc_frame_size; dc_nb_frames := nb_frames |}.

(** ** The packet as a whole *)

(** What [opus_encode_native] does with its arguments: an error, a packet without
    content and the length it is padded to, or frames to code. *)
Inductive encode_plan :=
| PlanError (code : Z)
| PlanPacket (packet : list Z) (length : Z)
| PlanFrames (d : decision) (max_data_bytes bitrate_bps : Z).

Definition opus_encode_plan (s : enc_settings) (e : enc_state) (g : enc_signal) (frame_size out_data_bytes : Z)
    : encode_plan :=
  let max_data_bytes := Z.min 1276 out_data_bytes in
  if (frame_size <=? 0) || (max_data_bytes <=? 0) then PlanError OPUS_BAD_ARG
  else if (max_data_bytes =? 1) && (s.(es_Fs) =? frame_size * 10) then PlanError OPUS_BUFFER_TOO_SMALL
  else
    let '(bitrate_bps, _, max_data_bytes) := packet_rate s frame_size max_data_bytes in
    let frame_rate := s.(es_Fs) / frame_size in
    if no_room max_data_bytes bitrate_bps frame_rate then
      let packet := plc_packet e.(mode) e.(bandwidth) e.(stream_channels) frame_rate out_data_bytes in
      let ret := Prelude.len packet in
      let max_data_bytes := Z.max max_data_bytes ret in
      PlanPacket packet (if negb s.(es_use_vbr) then max_data_bytes else ret)
    else PlanFrames (encode_decide s e g frame_size max_data_bytes bitrate_bps) max_data_bytes bitrate_bps.

(** [opus_encode] and [opus_encode_float] up to the same point. *)
Definition opus_encode_begin (s : enc_settings) (e : enc_state) (g : enc_signal)
    (variable_duration analysis_frame_size out_data_bytes : Z) : encode_plan :=
  opus_encode_plan s e g (frame_size_select analysis_frame_size variable_duration s.(es_Fs)) out_data_bytes.
