(* ===== verification/OpusEncoder.v ===== *)
(** * The state of the Opus encoder between calls (src/opus_encoder.c)

    [struct OpusEncoder] with its initialisation, every request of
    [opus_encoder_ctl] (but for those of neural models and the pointer to the
    static mode), and what coding a packet leaves behind in the fields that the
    decisions of the next packet read. *)

From S2P Require Import Prelude FixedPoint Memory Packet OpusControl OpusDecide.

Definition OPUS_FRAMESIZE_5_MS : Z := 5002.
Definition OPUS_FRAMESIZE_10_MS : Z := 5003.
Definition OPUS_FRAMESIZE_20_MS : Z := 5004.
Definition OPUS_FRAMESIZE_60_MS : Z := 5006.
Definition OPUS_FRAMESIZE_80_MS : Z := 5007.
Definition OPUS_FRAMESIZE_100_MS : Z := 5008.

(** ** The encoders inside *)

(** What [opus_encoder_ctl] uses of the SILK and the CELT encoder: [celt_] are
    the requests it passes on, [silk_noSpeechCounter] and
    [silk_prev_decode_only_middle] the fields it reads. *)
Class EncoderParts (SILK CELT : Type) := {
  silk_InitEncoder : SILK;
  silk_noSpeechCounter : SILK -> Z -> Z;
  silk_prev_decode_only_middle : SILK -> Z;
  celt_enc_reset_state : CELT -> CELT;
  celt_enc_set_complexity : Z -> CELT -> CELT;
  celt_enc_set_packet_loss : Z -> CELT -> CELT;
  celt_enc_set_phase_inversion_disabled : Z -> CELT -> CELT;
  celt_enc_get_phase_inversion_disabled : CELT -> Z;
  celt_enc_set_lfe : Z -> CELT -> CELT;
  celt_enc_set_energy_mask : option (list Z) -> CELT -> CELT
}.

(** The fields of [struct OpusEncoder] (and of its [silk_mode]) that are read
    between packets; the settings and the state of the decisions are the records
    of OpusDecide.v. *)
Record OpusEncoder (SILK CELT : Type) := Mk_OpusEncoder {
  oe_silk : SILK;
  oe_celt : CELT;
  oe_settings : enc_settings;
  oe_state : enc_state;
  oe_delay_compensation : Z;
  oe_voice_ratio : Z;
  oe_vbr_constraint : Z;
  oe_variable_duration : Z;
  oe_lsb_depth : Z;
  oe_energy_masking : option (list Z);
  oe_prev_framesize : Z;
  oe_nb_no_activity_ms_Q1 : Z;
  oe_rangeFinal : Z;
  oe_useDTX : bool;
  oe_useCBR : bool;
  oe_reducedDependency : Z;
  oe_maxInternalSampleRate : Z;
  oe_nChannelsInternal : Z
}.
Arguments Mk_OpusEncoder {_ _} _ _ _ _ _ _ _ _ _ _ _ _ _ _ _ _ _ _.
Arguments oe_silk {_ _} _.
Arguments oe_celt {_ _} _.
Arguments oe_settings {_ _} _.
Arguments oe_state {_ _} _.
Arguments oe_delay_compensation {_ _} _.
Arguments oe_voice_ratio {_ _} _.
Arguments oe_vbr_constraint {_ _} _.
Arguments oe_variable_duration {_ _} _.
Arguments oe_lsb_depth {_ _} _.
Arguments oe_energy_masking {_ _} _.
Arguments oe_prev_framesize {_ _} _.
Arguments oe_nb_no_activity_ms_Q1 {_ _} _.
Arguments oe_rangeFinal {_ _} _.
Arguments oe_useDTX {_ _} _.
Arguments oe_useCBR {_ _} _.
Arguments oe_reducedDependency {_ _} _.
Arguments oe_maxInternalSampleRate {_ _} _.
Arguments oe_nChannelsInternal {_ _} _.

(** ** Assignments to single settings *)

Definition set_application (v : Z) (s : enc_settings) : enc_settings :=
  {| es_Fs := s.(es_Fs); es_channels := s.(es_channels); es_application := v;
     es_force_channels := s.(es_force_channels); es_signal_type := s.(es_signal_type);
     es_user_bandwidth := s.(es_user_bandwidth); es_max_bandwidth := s.(es_max_bandwidth);
     es_user_forced_mode := s.(es_user_forced_mode); es_use_vbr := s.(es_use_vbr);
     es_user_bitrate_bps := s.(es_user_bitrate_bps); es_fec_config := s.(es_fec_config);
     es_useInBandFEC := s.(es_useInBandFEC); es_packetLossPercentage := s.(es_packetLossPercentage);
     es_complexity := s.(es_complexity); es_use_dtx := s.(es_use_dtx); es_lfe := s.(es_lfe) |}.
Definition set_bitrate (v : Z) (s : enc_settings) : enc_settings :=
  {| es_Fs := s.(es_Fs); es_channels := s.(es_channels); es_application := s.(es_application);
     es_force_channels := s.(es_force_channels); es_signal_type := s.(es_signal_type);
     es_user_bandwidth := s.(es_user_bandwidth); es_max_bandwidth := s.(es_max_bandwidth);
     es_user_forced_mode := s.(es_user_forced_mode); es_use_vbr := s.(es_use_vbr); es_user_bitrate_bps := v;
     es_fec_config := s.(es_fec_config); es_useInBandFEC := s.(es_useInBandFEC);
     es_packetLossPercentage := s.(es_packetLossPercentage); es_complexity := s.(es_complexity);
     es_use_dtx := s.(es_use_dtx); es_lfe := s.(es_lfe) |}.
Definition set_force_channels (v : Z) (s : enc_settings) : enc_settings :=
  {| es_Fs := s.(es_Fs); es_channels := s.(es_channels); es_application := s.(es_application);
     es_force_channels := v; es_signal_type := s.(es_signal_type);
     es_user_bandwidth := s.(es_user_bandwidth); es_max_bandwidth := s.(es_max_bandwidth);
     es_user_forced_mode := s.(es_user_forced_mode); es_use_vbr := s.(es_use_vbr);
     es_user_bitrate_bps := s.(es_user_bitrate_bps); es_fec_config := s.(es_fec_config);
     es_useInBandFEC := s.(es_useInBandFEC); es_packetLossPercentage := s.(es_packetLossPercentage);
     es_complexity := s.(es_complexity); es_use_dtx := s.(es_use_dtx); es_lfe := s.(es_lfe) |}.
Definition set_max_bandwidth (v : Z) (s : enc_settings) : enc_settings :=
  {| es_Fs := s.(es_Fs); es_channels := s.(es_channels); es_application := s.(es_application);
     es_force_channels := s.(es_force_channels); es_signal_type := s.(es_signal_type);
     es_user_bandwidth := s.(es_user_bandwidth); es_max_bandwidth := v;
     es_user_forced_mode := s.(es_user_forced_mode); es_use_vbr := s.(es_use_vbr);
     es_user_bitrate_bps := s.(es_user_bitrate_bps); es_fec_config := s.(es_fec_config);
     es_useInBandFEC := s.(es_useInBandFEC); es_packetLossPercentage := s.(es_packetLossPercentage);
     es_complexity := s.(es_complexity); es_use_dtx := s.(es_use_dtx); es_lfe := s.(es_lfe) |}.
Definition set_user_bandwidth (v : Z) (s : enc_settings) : enc_settings :=
  {| es_Fs := s.(es_Fs); es_channels := s.(es_channels); es_application := s.(es_application);
     es_force_channels := s.(es_force_channels); es_signal_type := s.(es_signal_type);
     es_user_bandwidth := v; es_max_bandwidth := s.(es_max_bandwidth);
     es_user_forced_mode := s.(es_user_forced_mode); es_use_vbr := s.(es_use_vbr);
     es_user_bitrate_bps := s.(es_user_bitrate_bps); es_fec_config := s.(es_fec_config);
     es_useInBandFEC := s.(es_useInBandFEC); es_packetLossPercentage := s.(es_packetLossPercentage);
     es_complexity := s.(es_complexity); es_use_dtx := s.(es_use_dtx); es_lfe := s.(es_lfe) |}.
Definition set_use_dtx (v : bool) (s : enc_settings) : enc_settings :=
  {| es_Fs := s.(es_Fs); es_channels := s.(es_channels); es_application := s.(es_application);
     es_force_channels := s.(es_force_channels); es_signal_type := s.(es_signal_type);
     es_user_bandwidth := s.(es_user_bandwidth); es_max_bandwidth := s.(es_max_bandwidth);
     es_user_forced_mode := s.(es_user_forced_mode); es_use_vbr := s.(es_use_vbr);
     es_user_bitrate_bps := s.(es_user_bitrate_bps); es_fec_config := s.(es_fec_config);
     es_useInBandFEC := s.(es_useInBandFEC); es_packetLossPercentage := s.(es_packetLossPercentage);
     es_complexity := s.(es_complexity); es_use_dtx := v; es_lfe := s.(es_lfe) |}.
Definition set_complexity (v : Z) (s : enc_settings) : enc_settings :=
  {| es_Fs := s.(es_Fs); es_channels := s.(es_channels); es_application := s.(es_application);
     es_force_channels := s.(es_force_channels); es_signal_type := s.(es_signal_type);
     es_user_bandwidth := s.(es_user_bandwidth); es_max_bandwidth := s.(es_max_bandwidth);
     es_user_forced_mode := s.(es_user_forced_mode); es_use_vbr := s.(es_use_vbr);
     es_user_bitrate_bps := s.(es_user_bitrate_bps); es_fec_config := s.(es_fec_config);
     es_useInBandFEC := s.(es_useInBandFEC); es_packetLossPercentage := s.(es_packetLossPercentage);
     es_complexity := v; es_use_dtx := s.(es_use_dtx); es_lfe := s.(es_lfe) |}.
Definition set_fec (v : Z) (s : enc_settings) : enc_settings :=
  {| es_Fs := s.(es_Fs); es_channels := s.(es_channels); es_application := s.(es_application);
     es_force_channels := s.(es_force_channels); es_signal_type := s.(es_signal_type);
     es_user_bandwidth := s.(es_user_bandwidth); es_max_bandwidth := s.(es_max_bandwidth);
     es_user_forced_mode := s.(es_user_forced_mode); es_use_vbr := s.(es_use_vbr);
     es_user_bitrate_bps := s.(es_user_bitrate_bps); es_fec_config := v; es_useInBandFEC := negb (v =? 0);
     es_packetLossPercentage := s.(es_packetLossPercentage); es_complexity := s.(es_complexity);
     es_use_dtx := s.(es_use_dtx); es_lfe := s.(es_lfe) |}.
Definition set_loss (v : Z) (s : enc_settings) : enc_settings :=
  {| es_Fs := s.(es_Fs); es_channels := s.(es_channels); es_application := s.(es_application);
     es_force_channels := s.(es_force_channels); es_signal_type := s.(es_signal_type);
     es_user_bandwidth := s.(es_user_bandwidth); es_max_bandwidth := s.(es_max_bandwidth);
     es_user_forced_mode := s.(es_user_forced_mode); es_use_vbr := s.(es_use_vbr);
     es_user_bitrate_bps := s.(es_user_bitrate_bps); es_fec_config := s.(es_fec_config);
     es_useInBandFEC := s.(es_useInBandFEC); es_packetLossPercentage := v;
     es_complexity := s.(es_complexity); es_use_dtx := s.(es_use_dtx); es_lfe := s.(es_lfe) |}.
Definition set_use_vbr (v : bool) (s : enc_settings) : enc_settings :=
  {| es_Fs := s.(es_Fs); es_channels := s.(es_channels); es_application := s.(es_application);
     es_force_channels := s.(es_force_channels); es_signal_type := s.(es_signal_type);
     es_user_bandwidth := s.(es_user_bandwidth); es_max_bandwidth := s.(es_max_bandwidth);
     es_user_forced_mode := s.(es_user_forced_mode); es_use_vbr := v;
     es_user_bitrate_bps := s.(es_user_bitrate_bps); es_fec_config := s.(es_fec_config);
     es_useInBandFEC := s.(es_useInBandFEC); es_packetLossPercentage := s.(es_packetLossPercentage);
     es_complexity := s.(es_complexity); es_use_dtx := s.(es_use_dtx); es_lfe := s.(es_lfe) |}.
Definition set_signal (v : Z) (s : enc_settings) : enc_settings :=
  {| es_Fs := s.(es_Fs); es_channels := s.(es_channels); es_application := s.(es_application);
     es_force_channels := s.(es_force_channels); es_signal_type := v;
     es_user_bandwidth := s.(es_user_bandwidth); es_max_bandwidth := s.(es_max_bandwidth);
     es_user_forced_mode := s.(es_user_forced_mode); es_use_vbr := s.(es_use_vbr);
     es_user_bitrate_bps := s.(es_user_bitrate_bps); es_fec_config := s.(es_fec_config);
     es_useInBandFEC := s.(es_useInBandFEC); es_packetLossPercentage := s.(es_packetLossPercentage);
     es_complexity := s.(es_complexity); es_use_dtx := s.(es_use_dtx); es_lfe := s.(es_lfe) |}.
Definition set_forced_mode (v : Z) (s : enc_settings) : enc_settings :=
  {| es_Fs := s.(es_Fs); es_channels := s.(es_channels); es_application := s.(es_application);
     es_force_channels := s.(es_force_channels); es_signal_type := s.(es_signal_type);
     es_user_bandwidth := s.(es_user_bandwidth); es_max_bandwidth := s.(es_max_bandwidth);
     es_user_forced_mode := v; es_use_vbr := s.(es_use_vbr); es_user_bitrate_bps := s.(es_user_bitrate_bps);
     es_fec_config := s.(es_fec_config); es_useInBandFEC := s.(es_useInBandFEC);
     es_packetLossPercentage := s.(es_packetLossPercentage); es_complexity := s.(es_complexity);
     es_use_dtx := s.(es_use_dtx); es_lfe := s.(es_lfe) |}.
Definition set_lfe (v : bool) (s : enc_settings) : enc_settings :=
  {| es_Fs := s.(es_Fs); es_channels := s.(es_channels); es_application := s.(es_application);
     es_force_channels := s.(es_force_channels); es_signal_type := s.(es_signal_type);
     es_user_bandwidth := s.(es_user_bandwidth); es_max_bandwidth := s.(es_max_bandwidth);
     es_user_forced_mode := s.(es_user_forced_mode); es_use_vbr := s.(es_use_vbr);
     es_user_bitrate_bps := s.(es_user_bitrate_bps); es_fec_config := s.(es_fec_config);
     es_useInBandFEC := s.(es_useInBandFEC); es_packetLossPercentage := s.(es_packetLossPercentage);
     es_complexity := s.(es_complexity); es_use_dtx := s.(es_use_dtx); es_lfe := v |}.

(** ** Requests *)

Inductive encoder_getter :=
| GET_APPLICATION | GET_BITRATE | GET_FORCE_CHANNELS | GET_MAX_BANDWIDTH | GET_BANDWIDTH | GET_DTX | GET_COMPLEXITY
| GET_INBAND_FEC | GET_PACKET_LOSS_PERC | GET_VBR | GET_VOICE_RATIO | GET_VBR_CONSTRAINT | GET_SIGNAL | GET_LOOKAHEAD
| GET_SAMPLE_RATE | GET_FINAL_RANGE | GET_LSB_DEPTH | GET_EXPERT_FRAME_DURATION | GET_PREDICTION_DISABLED
| GET_PHASE_INVERSION_DISABLED | GET_IN_DTX.

(** [ENC_GET] says whether the pointer for the result is null. *)
Inductive encoder_request :=
| ENC_GET (what : encoder_getter) (null : bool)
| ENC_SET_APPLICATION (value : Z)
| ENC_SET_BITRATE (value : Z)
| ENC_SET_FORCE_CHANNELS (value : Z)
| ENC_SET_MAX_BANDWIDTH (value : Z)
| ENC_SET_BANDWIDTH (value : Z)
| ENC_SET_DTX (value : Z)
| ENC_SET_COMPLEXITY (value : Z)
| ENC_SET_INBAND_FEC (value : Z)
| ENC_SET_PACKET_LOSS_PERC (value : Z)
| ENC_SET_VBR (value : Z)
| ENC_SET_VOICE_RATIO (value : Z)
| ENC_SET_VBR_CONSTRAINT (value : Z)
| ENC_SET_SIGNAL (value : Z)
| ENC_SET_LSB_DEPTH (value : Z)
| ENC_SET_EXPERT_FRAME_DURATION (value : Z)
| ENC_SET_PREDICTION_DISABLED (value : Z)
| ENC_SET_PHASE_INVERSION_DISABLED (value : Z)
| ENC_RESET_STATE
| ENC_SET_FORCE_MODE (value : Z)
| ENC_SET_LFE (value : Z)
| ENC_SET_ENERGY_MASK (value : option (list Z))
| ENC_UNKNOWN.

Section Encoder.
Context `{EncoderParts SILK CELT}.
Abbreviation encoder := (OpusEncoder SILK CELT).

Definition with_settings (v : enc_settings) (st : encoder) : encoder :=
  Mk_OpusEncoder st.(oe_silk) st.(oe_celt) v st.(oe_state) st.(oe_delay_compensation) st.(oe_voice_ratio)
    st.(oe_vbr_constraint) st.(oe_variable_duration) st.(oe_lsb_depth) st.(oe_energy_masking) st.(oe_prev_framesize)
    st.(oe_nb_no_activity_ms_Q1) st.(oe_rangeFinal) st.(oe_useDTX) st.(oe_useCBR) st.(oe_reducedDependency)
    st.(oe_maxInternalSampleRate) st.(oe_nChannelsInternal).
Definition with_celt (v : CELT) (st : encoder) : encoder :=
  Mk_OpusEncoder st.(oe_silk) v st.(oe_settings) st.(oe_state) st.(oe_delay_compensation) st.(oe_voice_ratio)
    st.(oe_vbr_constraint) st.(oe_variable_duration) st.(oe_lsb_depth) st.(oe_energy_masking) st.(oe_prev_framesize)
    st.(oe_nb_no_activity_ms_Q1) st.(oe_rangeFinal) st.(oe_useDTX) st.(oe_useCBR) st.(oe_reducedDependency)
    st.(oe_maxInternalSampleRate) st.(oe_nChannelsInternal).
Definition with_max_rate (v : Z) (st : encoder) : encoder :=
  Mk_OpusEncoder st.(oe_silk) st.(oe_celt) st.(oe_settings) st.(oe_state) st.(oe_delay_compensation) st.(oe_voice_ratio)
    st.(oe_vbr_constraint) st.(oe_variable_duration) st.(oe_lsb_depth) st.(oe_energy_masking) st.(oe_prev_framesize)
    st.(oe_nb_no_activity_ms_Q1) st.(oe_rangeFinal) st.(oe_useDTX) st.(oe_useCBR) st.(oe_reducedDependency) v
    st.(oe_nChannelsInternal).
(** The settings that no decision reads: voice ratio, VBR constraint, frame
    duration, bit depth, energy mask, CBR of SILK and prediction. *)
Definition with_options (vr vc vd ld : Z) (mask : option (list Z)) (cbr : bool) (rd : Z) (st : encoder) : encoder :=
  Mk_OpusEncoder st.(oe_silk) st.(oe_celt) st.(oe_settings) st.(oe_state) st.(oe_delay_compensation) vr vc vd ld mask
    st.(oe_prev_framesize) st.(oe_nb_no_activity_ms_Q1) st.(oe_rangeFinal) st.(oe_useDTX) cbr rd
    st.(oe_maxInternalSampleRate) st.(oe_nChannelsInternal).

(** The state that is cleared by initialisation and reset; of [silk_mode] the
    fields [toMono], [LBRR_coded], [allowBandwidthSwitch] and
    [inWBmodeWithoutVariableLP] outlive a reset. *)
Definition fresh_state (channels : Z) (mono : bool) (lbrr : Z) (allow wb : bool) : enc_state :=
  {| stream_channels := channels; mode := MODE_HYBRID; prev_mode := 0; prev_channels := 0;
     bandwidth := OPUS_BANDWIDTH_FULLBAND; auto_bandwidth := 0; first := true; toMono := mono; LBRR_coded := lbrr;
     allowBandwidthSwitch := allow; inWBmodeWithoutVariableLP := wb |}.

Definition opus_encoder_init (celt : CELT) (Fs channels application : Z) : res encoder :=
  if (negb (Fs =? 48000) && negb (Fs =? 24000) && negb (Fs =? 16000) && negb (Fs =? 12000) && negb (Fs =? 8000))
     || (negb (channels =? 1) && negb (channels =? 2))
     || (negb (application =? OPUS_APPLICATION_VOIP) && negb (application =? OPUS_APPLICATION_AUDIO)
         && negb (application =? OPUS_APPLICATION_RESTRICTED_LOWDELAY))
  then Err OPUS_BAD_ARG
  else Ok {| oe_silk := silk_InitEncoder; oe_celt := celt_enc_set_complexity 9 celt;
             oe_settings := {| es_Fs := Fs; es_channels := channels; es_application := application;
               es_force_channels := OPUS_AUTO; es_signal_type := OPUS_AUTO; es_user_bandwidth := OPUS_AUTO;
               es_max_bandwidth := OPUS_BANDWIDTH_FULLBAND; es_user_forced_mode := OPUS_AUTO; es_use_vbr := true;
               es_user_bitrate_bps := OPUS_AUTO; es_fec_config := 0; es_useInBandFEC := false;
               es_packetLossPercentage := 0; es_complexity := 9; es_use_dtx := false; es_lfe := false |};
             oe_state := fresh_state channels false 0 false false;
             oe_delay_compensation := Fs / 250; oe_voice_ratio := -1; oe_vbr_constraint := 1;
             oe_variable_duration := OPUS_FRAMESIZE_ARG; oe_lsb_depth := 24; oe_energy_masking := None;
             oe_prev_framesize := 0; oe_nb_no_activity_ms_Q1 := 0; oe_rangeFinal := 0; oe_useDTX := false;
             oe_useCBR := false; oe_reducedDependency := 0; oe_maxInternalSampleRate := 16000;
             oe_nChannelsInternal := channels |}.

(** Whether the last frame was not sent. *)
Definition in_dtx (st : encoder) : Z :=
  let pm := st.(oe_state).(prev_mode) in
  if st.(oe_useDTX) && ((pm =? MODE_SILK_ONLY) || (pm =? MODE_HYBRID)) then
    let value := silk_noSpeechCounter st.(oe_silk) 0 >=? NB_SPEECH_FRAMES_BEFORE_DTX in
    b2z (if value && (st.(oe_nChannelsInternal) =? 2) && (silk_prev_decode_only_middle st.(oe_silk) =? 0)
         then silk_noSpeechCounter st.(oe_silk) 1 >=? NB_SPEECH_FRAMES_BEFORE_DTX else value)
  else if st.(oe_settings).(es_use_dtx) then b2z (st.(oe_nb_no_activity_ms_Q1) >=? NB_SPEECH_FRAMES_BEFORE_DTX * 20 * 2)
  else 0.

Definition enc_get (st : encoder) (what : encoder_getter) : Z :=
  let s := st.(oe_settings) in
  match what with
  | GET_APPLICATION => s.(es_application)
  | GET_BITRATE =>
      user_bitrate_to_bitrate s.(es_Fs) s.(es_channels) s.(es_user_bitrate_bps) st.(oe_prev_framesize) 1276
  | GET_FORCE_CHANNELS => s.(es_force_channels)
  | GET_MAX_BANDWIDTH => s.(es_max_bandwidth)
  | GET_BANDWIDTH => st.(oe_state).(bandwidth)
  | GET_DTX => b2z s.(es_use_dtx)
  | GET_COMPLEXITY => s.(es_complexity)
  | GET_INBAND_FEC => s.(es_fec_config)
  | GET_PACKET_LOSS_PERC => s.(es_packetLossPercentage)
  | GET_VBR => b2z s.(es_use_vbr)
  | GET_VOICE_RATIO => st.(oe_voice_ratio)
  | GET_VBR_CONSTRAINT => st.(oe_vbr_constraint)
  | GET_SIGNAL => s.(es_signal_type)
  | GET_LOOKAHEAD =>
      s.(es_Fs) / 400 + (if s.(es_application) =? OPUS_APPLICATION_RESTRICTED_LOWDELAY then 0 else st.(oe_delay_compensation))
  | GET_SAMPLE_RATE => s.(es_Fs)
  | GET_FINAL_RANGE => st.(oe_rangeFinal)
  | GET_LSB_DEPTH => st.(oe_lsb_depth)
  | GET_EXPERT_FRAME_DURATION => st.(oe_variable_duration)
  | GET_PREDICTION_DISABLED => st.(oe_reducedDependency)
  | GET_PHASE_INVERSION_DISABLED => celt_enc_get_phase_inversion_disabled st.(oe_celt)
  | GET_IN_DTX => in_dtx st
  end.

Definition is_application (v : Z) : bool :=
  (v =? OPUS_APPLICATION_VOIP) || (v =? OPUS_APPLICATION_AUDIO) || (v =? OPUS_APPLICATION_RESTRICTED_LOWDELAY).

Definition is_frame_duration (v : Z) : bool :=
  (v =? OPUS_FRAMESIZE_ARG) || (v =? OPUS_FRAMESIZE_2_5_MS) || (v =? OPUS_FRAMESIZE_5_MS) || (v =? OPUS_FRAMESIZE_10_MS)
  || (v =? OPUS_FRAMESIZE_20_MS) || (v =? OPUS_FRAMESIZE_40_MS) || (v =? OPUS_FRAMESIZE_60_MS)
  || (v =? OPUS_FRAMESIZE_80_MS) || (v =? OPUS_FRAMESIZE_100_MS) || (v =? OPUS_FRAMESIZE_120_MS).

Definition bitrate_of (channels value : Z) : option Z :=
  if (value =? OPUS_AUTO) || (value =? OPUS_BITRATE_MAX) then Some value
  else if value <=? 0 then None
  else if value <=? 500 then Some 500
  else if value >? 300000 * channels then Some (300000 * channels) else Some value.

Definition silk_max_rate (bandwidth : Z) : Z :=
  if bandwidth =? OPUS_BANDWIDTH_NARROWBAND then 8000
  else if bandwidth =? OPUS_BANDWIDTH_MEDIUMBAND then 12000 else 16000.

Definition encoder_reset (st : encoder) : encoder :=
  let e := st.(oe_state) in
  Mk_OpusEncoder silk_InitEncoder (celt_enc_reset_state st.(oe_celt)) st.(oe_settings)
    (fresh_state st.(oe_settings).(es_channels) e.(toMono) e.(LBRR_coded) e.(allowBandwidthSwitch)
       e.(inWBmodeWithoutVariableLP))
    st.(oe_delay_compensation) st.(oe_voice_ratio) st.(oe_vbr_constraint) st.(oe_variable_duration) st.(oe_lsb_depth)
    None 0 0 0 st.(oe_useDTX) st.(oe_useCBR) st.(oe_reducedDependency) st.(oe_maxInternalSampleRate)
    st.(oe_nChannelsInternal).

(** The encoder, the return value and what the pointer of the request gets. *)
Definition opus_encoder_ctl (st : encoder) (request : encoder_request) : encoder * Z * option Z :=
  let s := st.(oe_settings) in
  let bad_arg := (st, OPUS_BAD_ARG, None) in
  let ok st' := (st', OPUS_OK, None) in
  let flag (v : Z) (st' : encoder) := if (v <? 0) || (v >? 1) then bad_arg else ok st' in
  let options vr vc vd ld mask cbr rd := with_options vr vc vd ld mask cbr rd st in
  let '(vr, vc, vd, ld, mask, cbr, rd) :=
    (st.(oe_voice_ratio), st.(oe_vbr_constraint), st.(oe_variable_duration), st.(oe_lsb_depth), st.(oe_energy_masking),
     st.(oe_useCBR), st.(oe_reducedDependency)) in
  match request with
  | ENC_GET what null => if null then bad_arg else (st, OPUS_OK, Some (enc_get st what))
  | ENC_SET_APPLICATION v =>
      if negb (is_application v) || (negb st.(oe_state).(first) && negb (s.(es_application) =? v)) then bad_arg
      else ok (with_settings (set_application v s) st)
  | ENC_SET_BITRATE v =>
      match bitrate_of s.(es_channels) v with
      | None => bad_arg
      | Some v => ok (with_settings (set_bitrate v s) st)
      end
  | ENC_SET_FORCE_CHANNELS v =>
      if ((v <? 1) || (v >? s.(es_channels))) && negb (v =? OPUS_AUTO) then bad_arg
      else ok (with_settings (set_force_channels v s) st)
  | ENC_SET_MAX_BANDWIDTH v =>
      if (v <? OPUS_BANDWIDTH_NARROWBAND) || (v >? OPUS_BANDWIDTH_FULLBAND) then bad_arg
      else ok (with_max_rate (silk_max_rate v) (with_settings (set_max_bandwidth v s) st))
  | ENC_SET_BANDWIDTH v =>
      if ((v <? OPUS_BANDWIDTH_NARROWBAND) || (v >? OPUS_BANDWIDTH_FULLBAND)) && negb (v =? OPUS_AUTO) then bad_arg
      else ok (with_max_rate (silk_max_rate v) (with_settings (set_user_bandwidth v s) st))
  | ENC_SET_DTX v => flag v (with_settings (set_use_dtx (negb (v =? 0)) s) st)
  | ENC_SET_COMPLEXITY v =>
      if (v <? 0) || (v >? 10) then bad_arg
      else ok (with_celt (celt_enc_set_complexity v st.(oe_celt)) (with_settings (set_complexity v s) st))
  | ENC_SET_INBAND_FEC v =>
      if (v <? 0) || (v >? 2) then bad_arg else ok (with_settings (set_fec v s) st)
  | ENC_SET_PACKET_LOSS_PERC v =>
      if (v <? 0) || (v >? 100) then bad_arg
      else ok (with_celt (celt_enc_set_packet_loss v st.(oe_celt)) (with_settings (set_loss v s) st))
  | ENC_SET_VBR v =>
      flag v (with_settings (set_use_vbr (negb (v =? 0)) s) (options vr vc vd ld mask (v =? 0) rd))
  | ENC_SET_VOICE_RATIO v =>
      if (v <? -1) || (v >? 100) then bad_arg else ok (options v vc vd ld mask cbr rd)
  | ENC_SET_VBR_CONSTRAINT v => flag v (options vr v vd ld mask cbr rd)
  | ENC_SET_SIGNAL v =>
      if negb (v =? OPUS_AUTO) && negb (v =? OPUS_SIGNAL_VOICE) && negb (v =? OPUS_SIGNAL_MUSIC) then bad_arg
      else ok (with_settings (set_signal v s) st)
  | ENC_SET_LSB_DEPTH v =>
      if (v <? 8) || (v >? 24) then bad_arg else ok (options vr vc vd v mask cbr rd)
  | ENC_SET_EXPERT_FRAME_DURATION v =>
      if negb (is_frame_duration v) then bad_arg else ok (options vr vc v ld mask cbr rd)
  | ENC_SET_PREDICTION_DISABLED v => flag v (options vr vc vd ld mask cbr v)
  | ENC_SET_PHASE_INVERSION_DISABLED v =>
      flag v (with_celt (celt_enc_set_phase_inversion_disabled v st.(oe_celt)) st)
  | ENC_RESET_STATE => ok (encoder_reset st)
  | ENC_SET_FORCE_MODE v =>
      if ((v <? MODE_SILK_ONLY) || (v >? MODE_CELT_ONLY)) && negb (v =? OPUS_AUTO) then bad_arg
      else ok (with_settings (set_forced_mode v s) st)
  | ENC_SET_LFE v =>
      ok (with_celt (celt_enc_set_lfe v st.(oe_celt)) (with_settings (set_lfe (negb (v =? 0)) s) st))
  | ENC_SET_ENERGY_MASK v =>
      ok (with_celt (celt_enc_set_energy_mask v st.(oe_celt)) (options vr vc vd ld v cbr rd))
  | ENC_UNKNOWN => (st, OPUS_UNIMPLEMENTED, None)
  end.

(** ** What a packet leaves behind *)

Definition with_state (v : enc_state) (st : encoder) : encoder :=
  Mk_OpusEncoder st.(oe_silk) st.(oe_celt) st.(oe_settings) v st.(oe_delay_compensation) st.(oe_voice_ratio)
    st.(oe_vbr_constraint) st.(oe_variable_duration) st.(oe_lsb_depth) st.(oe_energy_masking) st.(oe_prev_framesize)
    st.(oe_nb_no_activity_ms_Q1) st.(oe_rangeFinal) st.(oe_useDTX) st.(oe_useCBR) st.(oe_reducedDependency)
    st.(oe_maxInternalSampleRate) st.(oe_nChannelsInternal).
Definition with_coded (silk : SILK) (celt : CELT) (framesize no_activity range max_rate nint : Z) (cbr : bool) (st : encoder)
    : encoder :=
  Mk_OpusEncoder silk celt st.(oe_settings) st.(oe_state) st.(oe_delay_compensation) st.(oe_voice_ratio)
    st.(oe_vbr_constraint) st.(oe_variable_duration) st.(oe_lsb_depth) st.(oe_energy_masking) framesize no_activity range
    st.(oe_useDTX) cbr st.(oe_reducedDependency) max_rate nint.
Definition with_request (silk_dtx : bool) (vr range : Z) (st : encoder) : encoder :=
  Mk_OpusEncoder st.(oe_silk) st.(oe_celt) st.(oe_settings) st.(oe_state) st.(oe_delay_compensation) vr
    st.(oe_vbr_constraint) st.(oe_variable_duration) st.(oe_lsb_depth) st.(oe_energy_masking) st.(oe_prev_framesize)
    st.(oe_nb_no_activity_ms_Q1) range silk_dtx st.(oe_useCBR) st.(oe_reducedDependency) st.(oe_maxInternalSampleRate)
    st.(oe_nChannelsInternal).

Definition with_mono (mono : bool) (e : enc_state) : enc_state :=
  {| stream_channels := e.(stream_channels); mode := e.(mode); prev_mode := e.(prev_mode);
     prev_channels := e.(prev_channels); bandwidth := e.(bandwidth); auto_bandwidth := e.(auto_bandwidth);
     first := e.(first); toMono := mono; LBRR_coded := e.(LBRR_coded);
     allowBandwidthSwitch := e.(allowBandwidthSwitch); inWBmodeWithoutVariableLP := e.(inWBmodeWithoutVariableLP) |}.
Definition with_prev (m c : Z) (f : bool) (e : enc_state) : enc_state :=
  {| stream_channels := e.(stream_channels); mode := e.(mode); prev_mode := m;
     prev_channels := c; bandwidth := e.(bandwidth); auto_bandwidth := e.(auto_bandwidth);
     first := f; toMono := e.(toMono); LBRR_coded := e.(LBRR_coded);
     allowBandwidthSwitch := e.(allowBandwidthSwitch); inWBmodeWithoutVariableLP := e.(inWBmodeWithoutVariableLP) |}.
Definition with_status (allow wb : bool) (e : enc_state) : enc_state :=
  {| stream_channels := e.(stream_channels); mode := e.(mode); prev_mode := e.(prev_mode);
     prev_channels := e.(prev_channels); bandwidth := e.(bandwidth); auto_bandwidth := e.(auto_bandwidth);
     first := e.(first); toMono := e.(toMono); LBRR_coded := e.(LBRR_coded);
     allowBandwidthSwitch := allow; inWBmodeWithoutVariableLP := wb |}.

(** How the coding of a frame went: [fo_coded]
    (it got as far as the mode of the next frame: no coder failed and SILK did not suppress the
    frame), [fo_ret] (what [opus_encode_frame_native] returns unless the general DTX suppresses the frame:
    the bytes of the frame or an error), what the analysis finds in this frame of a packet of several
    ([fo_general_dtx]: it is valid or the frame is silence) and the activity, and what the coders left. *)
Record frame_outcome := {
  fo_coded : bool;
  fo_ret : Z;
  fo_general_dtx : bool;
  fo_activity : bool;
  fo_silk : SILK;
  fo_celt : CELT;
  fo_allowBandwidthSwitch : bool;
  fo_inWBmodeWithoutVariableLP : bool;
  fo_maxInternalSampleRate : Z;
  fo_useCBR : bool;
  fo_range : Z
}.

(** [2*1000*frame_size/st->Fs]: how long a frame lasts, in half milliseconds. *)
Definition frame_ms_Q1 (frame_size : Z) (st : encoder) : Z := 2 * 1000 * frame_size / st.(oe_settings).(es_Fs).

(** The frames whose transmission the general DTX decides, those it suppresses, and the bytes returned: the first byte
    alone for a suppressed frame. *)
Definition dtx_decides (general_dtx : bool) (o : frame_outcome) (st : encoder) : bool :=
  o.(fo_coded) && (st.(oe_settings).(es_use_dtx) && general_dtx).
Definition frame_dtx (frame_size : Z) (o : frame_outcome) (st : encoder) : bool * Z :=
  decide_dtx_mode o.(fo_activity) st.(oe_nb_no_activity_ms_Q1) (frame_ms_Q1 frame_size st).
Definition frame_suppressed (frame_size : Z) (general_dtx : bool) (o : frame_outcome) (st : encoder) : bool :=
  dtx_decides general_dtx o st && (frame_dtx frame_size o st).1.
Definition frame_ret (frame_size : Z) (general_dtx : bool) (o : frame_outcome) (st : encoder) : Z :=
  if frame_suppressed frame_size general_dtx o st then 1 else o.(fo_ret).

(** The end of [opus_encode_frame_native]; SILK reports its status when it runs. *)
Definition frame_end (to_celt : bool) (frame_size : Z) (general_dtx : bool) (o : frame_outcome) (st : encoder) : encoder :=
  let e := st.(oe_state) in
  let silk := negb (e.(mode) =? MODE_CELT_ONLY) in
  let e := if silk then with_status o.(fo_allowBandwidthSwitch) o.(fo_inWBmodeWithoutVariableLP) e else e in
  let max_rate := if silk then o.(fo_maxInternalSampleRate) else st.(oe_maxInternalSampleRate) in
  let cbr := if silk then o.(fo_useCBR) else st.(oe_useCBR) in
  let nint := if silk then e.(stream_channels) else st.(oe_nChannelsInternal) in
  if o.(fo_coded) then
    let e := with_prev (if to_celt then MODE_CELT_ONLY else e.(mode)) e.(stream_channels) false e in
    let nb := if dtx_decides general_dtx o st then (frame_dtx frame_size o st).2 else 0 in
    let range := if frame_suppressed frame_size general_dtx o st then 0 else o.(fo_range) in
    with_state e (with_coded o.(fo_silk) o.(fo_celt) frame_size nb range max_rate nint cbr st)
  else
    with_state e (with_coded o.(fo_silk) o.(fo_celt) st.(oe_prev_framesize) st.(oe_nb_no_activity_ms_Q1) o.(fo_range)
      max_rate nint cbr st).

(** What is seen of a frame from outside: how long it lasts, whether the general DTX decides on it,
    whether the signal is active, and the bytes sent for it. *)
Record frame_event := {
  fe_ms_Q1 : Z;
  fe_general : bool;
  fe_activity : bool;
  fe_ret : Z
}.
Definition event_of (frame_size : Z) (general_dtx : bool) (o : frame_outcome) (st : encoder) : frame_event :=
  {| fe_ms_Q1 := frame_ms_Q1 frame_size st; fe_general := dtx_decides general_dtx o st;
     fe_activity := o.(fo_activity); fe_ret := frame_ret frame_size general_dtx o st |}.

(** [for (i=0;i<nb_frames;i++)], with the outcome of each frame; [false] when a
    frame fails. *)
Fixpoint multi_frames (outcomes : list frame_outcome) (to_celt : bool) (frame_size : Z) (st : encoder)
    : bool * list frame_event * encoder :=
  match outcomes with
  | [] => (true, [], st)
  | o :: rest =>
      let frame_to_celt := to_celt && match rest with [] => true | _ => false end in
      let st := with_state (with_mono false st.(oe_state)) st in
      let ev := event_of frame_size o.(fo_general_dtx) o st in
      let st := frame_end frame_to_celt frame_size o.(fo_general_dtx) o st in
      if ev.(fe_ret) <? 0 then (false, [ev], st)
      else let '(done_all, evs, st) := multi_frames rest to_celt frame_size st in (done_all, ev :: evs, st)
  end.

(** The frames of a call of [opus_encode] and the encoder after it, given what the analysis found in the signal and how the
    frames went, one outcome for each. *)
Definition opus_encode_frames (st : encoder) (g : enc_signal) (analysis_frame_size out_data_bytes : Z)
    (outcomes : list frame_outcome) : list frame_event * encoder :=
  let s := st.(oe_settings) in
  match opus_encode_begin s st.(oe_state) g st.(oe_variable_duration) analysis_frame_size out_data_bytes with
  | PlanError _ => ([], with_request st.(oe_useDTX) st.(oe_voice_ratio) 0 st)
  | PlanPacket _ _ => ([], with_request st.(oe_useDTX) g.(voice_ratio) 0 st)
  | PlanFrames d _ _ =>
      let st := with_state d.(dc_state)
        (with_request (s.(es_use_dtx) && negb g.(general_dtx)) g.(voice_ratio) 0 st) in
      if d.(dc_nb_frames) =? 1 then
        match outcomes with
        | o :: _ => ([event_of d.(dc_enc_frame_size) g.(general_dtx) o st],
                     frame_end d.(dc_to_celt) d.(dc_enc_frame_size) g.(general_dtx) o st)
        | [] => ([], st)
        end
      else
        let e := st.(oe_state) in
        let bak_to_mono := e.(toMono) in
        let st := if bak_to_mono then with_settings (set_force_channels 1 s) st
                  else with_state (with_prev e.(prev_mode) e.(stream_channels) e.(first) e) st in
        let '(done_all, evs, st) :=
          multi_frames (take (Z.to_nat d.(dc_nb_frames)) outcomes) d.(dc_to_celt) d.(dc_enc_frame_size) st in
        (evs, if done_all then with_state (with_mono bak_to_mono st.(oe_state)) st else st)
  end.
Definition opus_encode_state (st : encoder) (g : enc_signal) (analysis_frame_size out_data_bytes : Z)
    (outcomes : list frame_outcome) : encoder :=
  (opus_encode_frames st g analysis_frame_size out_data_bytes outcomes).2.

(** A sequence of calls of the API, and the frames that leave it. *)
Inductive enc_call :=
| CallCtl (request : encoder_request)
| CallEncode (g : enc_signal) (size out_data_bytes : Z) (outcomes : list frame_outcome).

Fixpoint enc_calls (calls : list enc_call) (st : encoder) : list frame_event * encoder :=
  match calls with
  | [] => ([], st)
  | CallCtl request :: calls => enc_calls calls (opus_encoder_ctl st request).1.1
  | CallEncode g size out_data_bytes outcomes :: calls =>
      let '(evs, st) := opus_encode_frames st g size out_data_bytes outcomes in
      let '(evs', st) := enc_calls calls st in (evs ++ evs', st)
  end.
End Encoder.
Arguments frame_outcome : clear implicits.
Arguments enc_call : clear implicits.
