(* ===== verification/OpusEncodeProofs.v ===== *)
(** * Proofs about the decisions of the Opus encoder

    Discontinuous transmission starts and pauses in time, the frame size is one of
    the nine of the format, redundancy stays within its limits, and forward error
    correction is used only where the rate carries it.  The first byte that
    [gen_toc] makes is read back by the decoder, packets without content last as long as
    the frame, and every decision stays in the range of what a packet can announce. *)

From S2P Require Import Prelude FixedPoint Memory Packet PacketProofs RepackCat PacketProps SilkMath.
From S2P Require Import OpusDecode OpusDecodeProofs OpusDecodeFrame OpusEncoder OpusControl OpusDecide.

(** ** Discontinuous transmission *)

Lemma dtx_silent_step nb d : decide_dtx_mode false nb d =
  if nb + d <=? 400 then (false, nb + d) else if nb + d <=? 1200 then (true, nb + d) else (false, 400).
Proof.
  unfold decide_dtx_mode, NB_SPEECH_FRAMES_BEFORE_DTX, MAX_CONSECUTIVE_DTX. cbv zeta. cbn [negb].
  change (10 * 20 * 2) with 400. change ((10 + 20) * 20 * 2) with 1200. rewrite Z.gtb_ltb.
  by destruct (Z.leb_spec (nb + d) 400), (Z.ltb_spec 400 (nb + d)); try lia.
Qed.

Lemma dtx_range a nb d : 0 <= nb <= 1200 -> 0 <= d -> 0 <= (decide_dtx_mode a nb d).2 <= 1200.
Proof. intros Hn Hd. destruct a; [done|]. rewrite dtx_silent_step. repeat case_match; cbn [snd]; lia. Qed.

(** Frames as they leave an encoder: the counter after each. *)
Inductive dtx_step (nb : Z) (e : frame_event) : Z -> Prop :=
| step_general : fe_general e = true ->
    (fe_ret e = 1 <-> (decide_dtx_mode (fe_activity e) nb (fe_ms_Q1 e)).1 = true) ->
    dtx_step nb e (decide_dtx_mode (fe_activity e) nb (fe_ms_Q1 e)).2
| step_restart : fe_general e = false -> dtx_step nb e 0
| step_keep : fe_general e = false -> dtx_step nb e nb.
Inductive dtx_trace : Z -> list frame_event -> Z -> Prop :=
| trace_nil nb : dtx_trace nb [] nb
| trace_cons nb e nb1 l nb2 : 0 < fe_ms_Q1 e <= 120 -> dtx_step nb e nb1 -> dtx_trace nb1 l nb2 -> dtx_trace nb (e :: l) nb2.

Lemma trace_app nb l1 nb1 l2 nb2 : dtx_trace nb l1 nb1 -> dtx_trace nb1 l2 nb2 -> dtx_trace nb (l1 ++ l2) nb2.
Proof. induction 1; [done|]. intros H2. cbn. econstructor; eauto. Qed.
Lemma trace_split nb l1 l2 nb2 : dtx_trace nb (l1 ++ l2) nb2 -> exists nb1, dtx_trace nb l1 nb1 /\ dtx_trace nb1 l2 nb2.
Proof.
  revert nb. induction l1 as [|e l1 IH]; intros nb Ht; [exists nb; split; [constructor|done]|].
  inversion Ht as [|nb' e' nb1 l nb'' He Hs Hr]; subst. destruct (IH nb1 Hr) as (nb3 & H1 & H2).
  exists nb3. split; [by econstructor|done].
Qed.

Lemma step_range nb e nb1 : 0 <= nb <= 1200 -> 0 <= fe_ms_Q1 e -> dtx_step nb e nb1 -> 0 <= nb1 <= 1200.
Proof. intros Hn Hd Hs. inversion Hs; subst; [by apply dtx_range|lia|done]. Qed.
Lemma trace_range nb l nb1 : 0 <= nb <= 1200 -> dtx_trace nb l nb1 -> 0 <= nb1 <= 1200.
Proof. intros Hn Ht. induction Ht as [|nb e nb1 l nb2 Hd Hs _ IH]; [done|]. apply IH.
  apply (step_range nb e nb1); [done|lia|done]. Qed.

(** The frames on which the general DTX decides: without activity, and suppressed; the duration of frames. *)
Definition idle (e : frame_event) : Prop := fe_general e = true /\ fe_activity e = false.
Definition suppressed (e : frame_event) : Prop := fe_general e = true /\ fe_ret e = 1.
Definition total_ms_Q1 (l : list frame_event) : Z := foldr (fun e t => fe_ms_Q1 e + t) 0 l.

(** A step in a run of frames without activity, and one that suppresses. *)
Lemma idle_step nb e nb1 : idle e -> dtx_step nb e nb1 ->
  suppressed e /\ nb1 = nb + fe_ms_Q1 e \/
  ~ suppressed e /\ (nb + fe_ms_Q1 e <= 400 /\ nb1 = nb + fe_ms_Q1 e \/ 1200 < nb + fe_ms_Q1 e /\ nb1 = 400).
Proof.
  intros [Hg Ha] Hs. unfold suppressed. inversion Hs as [Hg' Hr|Hg'|Hg']; subst; [|congruence..].
  rewrite Ha, dtx_silent_step in *.
  destruct (Z.leb_spec (nb + fe_ms_Q1 e) 400), (Z.leb_spec (nb + fe_ms_Q1 e) 1200); cbn [fst snd] in *;
    try lia; intuition (try lia; congruence).
Qed.
Lemma suppressed_step nb e nb1 : suppressed e -> dtx_step nb e nb1 ->
  fe_activity e = false /\ 400 < nb + fe_ms_Q1 e <= 1200 /\ nb1 = nb + fe_ms_Q1 e.
Proof.
  intros [Hg Hr] Hs. inversion Hs as [Hg' H1|Hg'|Hg']; subst; [|congruence..]. apply H1 in Hr. clear H1 Hs.
  destruct (fe_activity e); [done|]. rewrite dtx_silent_step in *.
  destruct (Z.leb_spec (nb + fe_ms_Q1 e) 400), (Z.leb_spec (nb + fe_ms_Q1 e) 1200); cbn [fst snd] in *; try done; split_and!; lia.
Qed.
Lemma any_step nb e nb1 : 0 <= nb -> 0 < fe_ms_Q1 e -> dtx_step nb e nb1 -> 0 <= nb1 <= nb + fe_ms_Q1 e.
Proof.
  intros Hn Hd Hs. inversion Hs; subst; [|lia..]. destruct (fe_activity e); [cbn; lia|].
  rewrite dtx_silent_step. repeat case_match; cbn [snd]; lia.
Qed.

(** From a counter up to 400, a frame is suppressed once 400 is passed. *)
Lemma trace_starts_low nb l nb1 : dtx_trace nb l nb1 -> 0 <= nb <= 400 -> Forall idle l -> 400 < nb + total_ms_Q1 l ->
  Exists suppressed l.
Proof.
  induction 1 as [nb|nb e nb1 l nb2 Hd Hs Ht IH]; intros Hn Hi Hl; [cbn in Hl; lia|]. cbn [total_ms_Q1 foldr] in Hl.
  fold (total_ms_Q1 l) in Hl. apply Forall_cons_1 in Hi as [He Hi].
  destruct (idle_step nb e nb1 He Hs) as [[H1 _]|[_ [[H1 H2]|[H1 _]]]]; [by left| |lia]. right. apply IH; [lia|done|lia].
Qed.
(** From any counter. *)
Lemma trace_starts nb l nb1 : dtx_trace nb l nb1 -> 0 <= nb <= 1200 -> Forall idle l -> 400 < total_ms_Q1 l ->
  Exists suppressed l.
Proof.
  intros Ht Hn Hi Hl. destruct (Z.leb_spec nb 400) as [H4|H4]; [by eapply trace_starts_low; [done|lia|done|lia]|].
  inversion Ht as [|nb' e nb2 l' nb3 Hd Hs Hr]; subst; [cbn in Hl; lia|]. apply Forall_cons_1 in Hi as [He Hi].
  destruct (idle_step nb e nb2 He Hs) as [[H1 _]|[_ [[H1 _]|[_ ->]]]]; [by left|lia|]. right.
  cbn [total_ms_Q1 foldr] in Hl. fold (total_ms_Q1 l') in Hl. eapply trace_starts_low; [done|lia|done|lia].
Qed.
(** Suppressed frames in a row. *)
Lemma trace_pauses nb l nb1 : dtx_trace nb l nb1 -> nb <= 1200 -> Forall suppressed l ->
  nb1 = nb + total_ms_Q1 l /\ nb1 <= 1200.
Proof.
  induction 1 as [nb|nb e nb1 l nb2 Hd Hs Ht IH]; intros Hn Hi; [cbn; lia|]. apply Forall_cons_1 in Hi as [He Hi].
  destruct (suppressed_step nb e nb1 He Hs) as (_ & H1 & ->). destruct (IH ltac:(lia) Hi) as [H2 H3].
  cbn [total_ms_Q1 foldr]. fold (total_ms_Q1 l). lia.
Qed.
(** The counter counts no more than the time that passed. *)
Lemma trace_counts nb l nb1 : dtx_trace nb l nb1 -> 0 <= nb -> 0 <= nb1 <= nb + total_ms_Q1 l.
Proof.
  induction 1 as [nb|nb e nb1 l nb2 Hd Hs Ht IH]; intros Hn; [cbn; lia|].
  destruct (any_step nb e nb1 Hn ltac:(lia) Hs). cbn [total_ms_Q1 foldr]. fold (total_ms_Q1 l). lia.
Qed.
Lemma total_app l1 l2 : total_ms_Q1 (l1 ++ l2) = total_ms_Q1 l1 + total_ms_Q1 l2.
Proof. induction l1 as [|e l1 IH]; [done|]. cbn [total_ms_Q1 foldr app]. fold (total_ms_Q1 (l1 ++ l2)). fold (total_ms_Q1 l1). lia. Qed.

(** ** The frame size *)

Definition frame_units : list Z := [1; 2; 4; 8; 16; 24; 32; 40; 48].

(** The products of the check do not overflow for up to 2^31 / 400 samples. *)
Lemma frame_size_select_ok Fs frame_size duration n :
  In Fs [48000; 24000; 16000; 12000; 8000] -> 400 * frame_size < 2 ^ 31 ->
  frame_size_select frame_size duration Fs = n -> n <> -1 ->
  n <= frame_size /\ exists k, In k frame_units /\ n = k * (Fs / 400).
Proof.
  intros HF Hs. unfold frame_size_select. destruct (Z.ltb_spec frame_size (Fs / 400)) as [|H0]; [congruence|].
  assert (Hc : forall m, 0 < m -> frame_size_check frame_size Fs m = n -> n <> -1 -> n <= frame_size /\ exists k, In k frame_units /\ n = k * (Fs / 400)).
  { intros m Hm. unfold frame_size_check. rewrite Z.gtb_ltb. destruct (Z.ltb_spec frame_size m); [congruence|].
    rewrite !i32_small by lia. match goal with |- context [if ?b then _ else _] => destruct b eqn:E1 end; [congruence|].
    intros <- _. split; [done|]. rewrite !andb_false_iff, !negb_false_iff, !Z.eqb_eq in E1.
    assert (Hk : exists k, In k frame_units /\ 400 * m = k * Fs).
    { unfold frame_units. destruct E1 as [[[[[[[[E1|E1]|E1]|E1]|E1]|E1]|E1]|E1]|E1];
        [exists 1|exists 2|exists 4|exists 8|exists 16|exists 24|exists 32|exists 40|exists 48]; (split; [cbn; tauto|lia]). }
    destruct Hk as (k & Hk & E2). exists k. split; [done|].
    assert (E3 : Fs = 400 * (Fs / 400)) by (destruct HF as [<-|[<-|[<-|[<-|[<-|[]]]]]]; reflexivity). nia. }
  assert (HF' : 8000 <= Fs) by (destruct HF as [<-|[<-|[<-|[<-|[<-|[]]]]]]; lia).
  assert (Hu : 20 <= Fs / 400) by (apply Z.div_le_lower_bound; lia).
  destruct (duration =? OPUS_FRAMESIZE_ARG); [apply Hc; lia|].
  destruct ((duration >=? OPUS_FRAMESIZE_2_5_MS) && (duration <=? OPUS_FRAMESIZE_120_MS)) eqn:E1; [|congruence].
  unfold OPUS_FRAMESIZE_2_5_MS, OPUS_FRAMESIZE_120_MS, OPUS_FRAMESIZE_40_MS in *.
  destruct (Z.leb_spec duration 5005); apply Hc; [|apply Z.div_str_pos; nia].
  rewrite Z.shiftl_mul_pow2 by lia. assert (1 <= 2 ^ (duration - 5001)) by (change 1 with (2 ^ 0); apply Z.pow_le_mono_r; lia). nia.
Qed.

(** Beyond, they do: 268435576 samples pass for 2.5 ms at 48 kHz, since 400 times
    that number is 48000 modulo 2^32. *)
Lemma frame_size_overflow : frame_size_select 268435576 OPUS_FRAMESIZE_ARG 48000 = 268435576.
Proof. by vm_compute. Qed.

(** ** Redundancy *)

(** Redundancy is not used or has room for its frame; its bytes leave room in the
    packet, and fit the field of 8 bits in which a hybrid frame codes them. *)
Lemma redundancy_bytes_ok max_data_bytes bitrate_bps frame_rate channels :
  0 <= max_data_bytes <= 1276 -> 1 <= frame_rate <= 400 -> channels = 1 \/ channels = 2 ->
  let n := compute_redundancy_bytes max_data_bytes bitrate_bps frame_rate channels in
  n = 0 \/ 4 + 8 * channels < n <= 257 /\ n < max_data_bytes.
Proof.
  intros Hm Hf Hc n. unfold n, compute_redundancy_bytes. cbv zeta.
  match goal with |- context [Z.min ?a ?b >? _] => set (rate := a); set (cap := b) end.
  rewrite Z.gtb_ltb. destruct (Z.ltb_spec (4 + 8 * channels) (Z.min rate cap)); [right|by left].
  enough (cap < max_data_bytes) by lia. assert (Hcap : 4 + 8 * channels < cap) by lia. clearbody rate. subst cap.
  rewrite i32_small in * by lia. rewrite (Z.quot_div_nonneg 48000) in * by lia.
  assert (Hq : 0 <= 48000 / frame_rate) by dlia. set (q := 48000 / frame_rate) in *. clearbody q.
  destruct (Z.leb_spec 0 (max_data_bytes * 8 - 2 * (40 * channels + 20))) as [Ha|Ha].
  - rewrite (Z.quot_div_nonneg (_ * 240)) in * by lia.
    set (a := max_data_bytes * 8 - 2 * (40 * channels + 20)) in *.
    assert (0 <= a * 240 / (240 + q) <= a) by (split; [apply Z.div_pos; lia|apply Z.div_le_upper_bound; nia]).
    rewrite Z.quot_div_nonneg by lia. dlia.
  - exfalso. set (a := max_data_bytes * 8 - 2 * (40 * channels + 20)) in *.
    assert (Z.quot (a * 240) (240 + q) <= 0) by (apply Z.quot_le_upper_bound; lia).
    set (b := Z.quot (a * 240) (240 + q)) in *. clearbody a b.
    assert (Z.quot (b + (40 * channels + 20)) 8 <= 4 + 8 * channels); [|lia].
    transitivity (Z.quot (40 * channels + 20) 8); [apply Z.quot_le_mono; lia|]. destruct Hc as [-> | ->]; vm_compute; congruence.
Qed.

(** ** Forward error correction *)

Definition fec_carried (loss last rate bandwidth b : Z) : Prop :=
  fec_threshold loss last b < rate /\ 1101 <= b <= bandwidth /\
  forall b', b < b' <= bandwidth -> 5 < loss /\ rate <= fec_threshold loss last b'.

Lemma fec_loop_ok loss last rate n : forall bandwidth, 1101 <= bandwidth ->
  match fec_loop n loss last bandwidth rate with
  | Some (fec, b) => fec = 1 /\ fec_carried loss last rate bandwidth b \/
      fec = 0 /\ loss <= 5 /\ b = bandwidth /\ rate <= fec_threshold loss last b
  | None => bandwidth < 1101 + Z.of_nat n -> forall b, 1101 <= b <= bandwidth -> rate <= fec_threshold loss last b
  end.
Proof.
  induction n as [|n IH]; intros bw Hb; cbn [fec_loop]; [lia|]. rewrite !Z.gtb_ltb.
  destruct (Z.ltb_spec (fec_threshold loss last bw) rate) as [Ht|Ht].
  { left. split; [done|]. split; [done|]. split; [lia|]. intros b' Hb'. lia. }
  destruct (Z.leb_spec loss 5); [by right|]. unfold OPUS_BANDWIDTH_NARROWBAND in *.
  destruct (Z.ltb_spec 1101 bw).
  - specialize (IH (bw - 1) ltac:(lia)). destruct (fec_loop _ _ _ _ _) as [[fec b]|].
    + destruct IH as [[-> (H1 & H2 & H3)]|(_ & ? & _)]; [left|lia]. split; [done|]. split; [done|]. split; [lia|].
      intros b' Hb'. destruct (Z.eq_dec b' bw) as [->|]; [done|apply H3; lia].
    + intros Hn b Hb'. destruct (Z.eq_dec b bw) as [->|]; [done|apply IH; lia].
  - intros _ b Hb'. by replace b with bw by lia.
Qed.

(** Where it can be used, forward error correction is used at the widest
    bandwidth, from the current one down, that the rate carries (at the current
    one only, if at most 5% is lost), and the bandwidth changes for nothing else. *)
Lemma decide_fec_ok loss last mode bandwidth rate :
  loss <> 0 -> mode <> MODE_CELT_ONLY -> 1101 <= bandwidth ->
  let '(fec, b) := decide_fec 1 loss last mode bandwidth rate in
  fec = 1 /\ fec_carried loss last rate bandwidth b \/
  fec = 0 /\ b = bandwidth /\ forall b', 1101 <= b' <= bandwidth -> loss <= 5 /\ b' <> bandwidth \/ rate <= fec_threshold loss last b'.
Proof.
  intros Hl Hm Hb. unfold decide_fec. apply Z.eqb_neq in Hl as ->. apply Z.eqb_neq in Hm as ->. cbn [Z.eqb orb].
  unfold OPUS_BANDWIDTH_NARROWBAND.
  pose proof (fec_loop_ok loss last rate (Z.to_nat (bandwidth - 1101 + 1)) bandwidth Hb) as H.
  destruct (fec_loop _ _ _ _ _) as [[fec b]|].
  - destruct H as [H|(-> & H1 & -> & H2)]; [by left|right]. split; [done|]. split; [done|]. intros b' Hb'.
    destruct (Z.eq_dec b' bandwidth) as [->|]; [by right|by left].
  - right. split; [done|]. split; [done|]. intros b' Hb'. right. apply H; lia.
Qed.

(** ** The first byte *)

Definition units_list : list Z := [1; 2; 4; 8; 16; 24].
Definition bandwidths : list Z := [1101; 1102; 1103; 1104; 1105].
Definition modes : list Z := [MODE_SILK_ONLY; MODE_HYBRID; MODE_CELT_ONLY].

(** The byte says what it was made of. *)
Definition toc_check (m b k c : Z) : bool :=
  let toc := gen_toc m (400 / k) b c in
  negb (params_okb m b k) ||
  ((0 <=? toc) && (toc <? 256) && (Z.land toc 3 =? 0) && (toc_mode toc =? m) && (toc_bandwidth toc =? b)
   && (toc_units toc =? k) && ((if negb (Z.land toc 4 =? 0) then 2 else 1) =? c)).

Lemma params_okb_domain m b k : params_okb m b k = true -> In m modes /\ In b bandwidths /\ In k units_list.
Proof.
  unfold params_okb, modes, bandwidths, units_list.
  rewrite !orb_true_iff, !andb_true_iff, !orb_true_iff, !Z.eqb_eq. cbn [In]. lia.
Qed.

Lemma gen_toc_check m b k c :
  params_okb m b k = true -> c = 1 \/ c = 2 -> toc_check m b k c = true.
Proof.
  intros Hp Hc. destruct (params_okb_domain _ _ _ Hp) as (Hm & Hb & Hk).
  assert (Hall : forallb (fun m => forallb (fun b => forallb (fun k => toc_check m b k 1 && toc_check m b k 2) units_list)
    bandwidths) modes = true) by (by vm_compute).
  rewrite forallb_forall in Hall. specialize (Hall m Hm). rewrite forallb_forall in Hall. specialize (Hall b Hb).
  rewrite forallb_forall in Hall. specialize (Hall k Hk). apply andb_true_iff in Hall as [H1 H2].
  by destruct Hc as [-> | ->].
Qed.

Lemma frame_rate_units rate k : In rate rates -> In k [1; 2; 4; 8; 16; 24; 32; 40; 48] -> rate / (k * (rate / 400)) = 400 / k.
Proof.
  intros Hr Hk. repeat (destruct Hr as [<-|Hr]; [repeat (destruct Hk as [<-|Hk]; [reflexivity|]); destruct Hk|]).
  destruct Hr.
Qed.

(** What the decoder reads from a packet that begins with the byte. *)
Lemma gen_toc_read rate m b k c payload :
  In rate rates -> params_okb m b k = true -> c = 1 \/ c = 2 ->
  let toc := gen_toc m (rate / (k * (rate / 400))) b c in
  0 <= toc < 256 /\ Z.land toc 3 = 0 /\
  opus_packet_get_mode (toc :: payload) = Ok m /\ opus_packet_get_bandwidth (toc :: payload) = Ok b /\
  opus_packet_get_nb_channels (toc :: payload) = Ok c /\
  forall rate', In rate' rates -> opus_packet_get_samples_per_frame (toc :: payload) rate' = Ok (k * (rate' / 400)).
Proof.
  intros Hr Hp Hc. destruct (params_okb_domain _ _ _ Hp) as (_ & _ & Hk). cbv zeta.
  rewrite frame_rate_units by (done || (cbn in *; tauto)).
  pose proof (gen_toc_check m b k c Hp Hc) as H. unfold toc_check in H. cbv zeta in H. rewrite Hp in H. cbn [negb orb] in H.
  set (toc := gen_toc m (400 / k) b c) in *.
  rewrite !andb_true_iff, !Z.leb_le, Z.ltb_lt, !Z.eqb_eq in H.
  destruct H as ((((((H1 & H2) & H3) & H4) & H5) & H6) & H7).
  assert (Hl : 1 <= len (toc :: payload)) by (unfold len; cbn [length]; lia).
  rewrite get_bandwidth_toc by done. unfold opus_packet_get_mode, opus_packet_get_nb_channels, opus_packet_get_samples_per_frame.
  rewrite !(get_ok (toc :: payload) 0) by lia. change ((toc :: payload).[0]) with toc. cbn [mbind res_bind].
  split_and!; [done|done|done|by rewrite <- H4|by rewrite H5|by rewrite H7|].
  intros rate' Hr'.   destruct (toc_units_rate toc rate' ltac:(lia) Hr') as [-> _]. by rewrite H6.
Qed.

(** ** Packets without content *)

(** The durations of packets in units of 2.5 ms, and the frame size from the
    arguments. *)
Definition all_units : list Z := [1; 2; 4; 8; 16; 24; 32; 40; 48].

(** A packet of empty frames that last [k] units. *)
Definition plc_check (rate m b c k odb : Z) : bool :=
  let packet := plc_packet m b c (400 / k) odb in
  forallb (fun x => (0 <=? x) && (x <? 256)) packet && (len packet <=? odb) &&
  match opus_packet_parse packet (len packet) no_sizes, opus_packet_get_nb_samples packet (len packet) rate with
  | Ok r, Ok n => (n =? k * (rate / 400)) && forallb (Z.eqb 0) r.(pr_size) && (r.(pr_padding_len) =? 0)
  | _, _ => false
  end.

Lemma plc_packet_room m b c fr odb :
  1 <= odb -> plc_packet m b c fr odb = plc_packet m b c fr (if odb =? 1 then 1 else 2).
Proof. intros H. unfold plc_packet. by destruct (odb =? 1). Qed.

Lemma plc_packet_check rate m b c k odb :
  In rate rates -> In m (0 :: modes) -> In b (0 :: bandwidths) -> c = 1 \/ c = 2 -> In k all_units -> 1 <= odb ->
  ~ (odb = 1 /\ k = 40) -> plc_check rate m b c k odb = true.
Proof.
  intros Hr Hm Hb Hc Hk Ho Hn.
  assert (H2 : plc_check rate m b c k (if odb =? 1 then 1 else 2) = true).
  { assert (Hall : forallb (fun r => forallb (fun m => forallb (fun b => forallb (fun k =>
      forallb (fun c => plc_check r m b c k 2 && ((k =? 40) || plc_check r m b c k 1)) [1; 2]) all_units)
      (0 :: bandwidths)) (0 :: modes)) rates = true) by (by vm_compute).
    rewrite forallb_forall in Hall. specialize (Hall rate Hr). rewrite forallb_forall in Hall. specialize (Hall m Hm).
    rewrite forallb_forall in Hall. specialize (Hall b Hb). rewrite forallb_forall in Hall. specialize (Hall k Hk).
    rewrite forallb_forall in Hall. specialize (Hall c ltac:(cbn; lia)). apply andb_true_iff in Hall as [Ha Hb'].
    destruct (Z.eqb_spec odb 1); [|done]. destruct (Z.eqb_spec k 40); [tauto|done]. }
  unfold plc_check in *. rewrite plc_packet_room by done. destruct (Z.eqb_spec odb 1) as [->|]; [done|].
  cbv zeta in *. rewrite !andb_true_iff, Z.leb_le in *. destruct H2 as [[H3 H4] H5]. split; [split; [done|lia]|done].
Qed.

(** ** Decisions *)

Record settings_ok (s : enc_settings) : Prop := {
  so_rate : In s.(es_Fs) rates;
  so_channels : s.(es_channels) = 1 \/ s.(es_channels) = 2;
  so_force : s.(es_force_channels) = OPUS_AUTO \/ 1 <= s.(es_force_channels) <= s.(es_channels);
  so_user_bandwidth : s.(es_user_bandwidth) = OPUS_AUTO \/ 1101 <= s.(es_user_bandwidth) <= 1105;
  so_max_bandwidth : 1101 <= s.(es_max_bandwidth) <= 1105;
  so_forced_mode : s.(es_user_forced_mode) = OPUS_AUTO \/ In s.(es_user_forced_mode) modes
}.

Record state_ok (e : enc_state) : Prop := {
  to_channels : e.(OpusDecide.stream_channels) = 1 \/ e.(OpusDecide.stream_channels) = 2;
  to_mode : In e.(OpusDecide.mode) modes;
  to_prev : In e.(OpusDecide.prev_mode) (0 :: modes);
  to_bandwidth : 1101 <= e.(OpusDecide.bandwidth) <= 1105
}.

Definition signal_ok (g : enc_signal) : Prop :=
  g.(detected_bandwidth) = 0 \/ 1101 <= g.(detected_bandwidth) <= 1105.

Lemma choose_channels_ok s c v r :
  settings_ok s -> choose_channels s c v r = 1 \/ choose_channels s c v r = 2.
Proof.
  intros [_ Hc Hf _ _ _]. unfold choose_channels.
  destruct (Z.eqb_spec (es_force_channels s) OPUS_AUTO), (Z.eqb_spec (es_channels s) 2); cbn [negb andb]; try done;
    [destruct (_ >? _); tauto|lia].
Qed.

Lemma choose_mode_ok s p g v r f fr md : settings_ok s -> In (choose_mode s p g v r f fr md) modes.
Proof.
  intros [_ _ _ _ _ Hm]. unfold choose_mode, modes in *. cbv zeta.
  destruct (_ =? OPUS_APPLICATION_RESTRICTED_LOWDELAY); [cbn; tauto|].
  destruct (Z.eqb_spec (es_user_forced_mode s) OPUS_AUTO); [|tauto].
  repeat (match goal with |- context [if ?b then _ else _] => destruct b end; try (cbn; tauto)).
Qed.

(** Only CELT codes less than 10 ms. *)
Lemma change_mode_ok s p m k :
  settings_ok s -> In p (0 :: modes) -> In m modes ->
  let m' := (change_mode s p m (k * (es_Fs s / 400))).1.1.1 in
  In m' modes /\ (m' <> MODE_CELT_ONLY -> 4 <= k).
Proof.
  intros Hs Hp Hm. cbv zeta. unfold change_mode.
  assert (Hr : es_Fs s / 100 = 4 * (es_Fs s / 400) /\ 0 < es_Fs s / 400)
    by (destruct (so_rate _ Hs) as [<-|[<-|[<-|[<-|[<-|[]]]]]]; by vm_compute).
  destruct Hr as [-> Hu].
  set (m1 := if _ && _ then MODE_CELT_ONLY else m).
  assert (H1 : In m1 modes /\ (m1 <> MODE_CELT_ONLY -> 4 <= k)).
  { subst m1. destruct (Z.eqb_spec m MODE_CELT_ONLY); cbn [negb andb]; [split; [done|congruence]|].
    destruct (Z.ltb_spec (k * (es_Fs s / 400)) (4 * (es_Fs s / 400))); [split; [cbn; tauto|congruence]|].
    split; [done|]. intros _. nia. }
  set (m2 := if es_lfe s then _ else m1).
  assert (H2 : In m2 modes /\ (m2 <> MODE_CELT_ONLY -> 4 <= k))
    by (subst m2; destruct (es_lfe s); [split; [cbn; tauto|congruence]|done]).
  destruct (Z.gtb_spec p 0); cbn [andb]; [|done].
  destruct (_ || _); [|done]. destruct (negb (negb _)); [|done].
  destruct (Z.geb_spec (k * (es_Fs s / 400)) (4 * (es_Fs s / 400))); cbn [fst]; [|done].
  split; [|intros _; nia]. destruct Hp as [<-|]; [lia|done].
Qed.

Lemma bandwidth_loop_range fuel s e v r b :
  1102 <= b <= 1105 -> 1101 <= bandwidth_loop fuel s e v r b <= 1105.
Proof.
  revert b. induction fuel as [|fuel IH]; intros b Hb; cbn [bandwidth_loop]; [lia|]. cbv zeta.
  match goal with |- context [if ?c then b else _] => destruct c end; [lia|]. unfold OPUS_BANDWIDTH_NARROWBAND.
  destruct (Z.gtb_spec (b - 1) 1101); [apply IH; lia|lia].
Qed.

Lemma choose_bandwidth_ok s e m v r : state_ok e -> 1101 <= (choose_bandwidth s e m v r).1 <= 1105.
Proof.
  intros He. unfold choose_bandwidth. destruct (_ || _ || _); cbn [fst]; [|apply (to_bandwidth _ He)].
  pose proof (bandwidth_loop_range 4 s e v r 1105 ltac:(lia)) as Hb. unfold OPUS_BANDWIDTH_FULLBAND.
  unfold OPUS_BANDWIDTH_MEDIUMBAND, OPUS_BANDWIDTH_WIDEBAND.
  destruct (_ =? 1102); [destruct (_ && _); lia|]. destruct (_ && _); lia.
Qed.

Lemma limit_bandwidth_ok s m r b : settings_ok s -> 1101 <= b <= 1105 -> 1101 <= limit_bandwidth s m r b <= 1105.
Proof.
  intros [_ _ _ Hu Hm _] Hb. unfold limit_bandwidth. cbv zeta.
  unfold OPUS_BANDWIDTH_WIDEBAND, OPUS_BANDWIDTH_SUPERWIDEBAND, OPUS_BANDWIDTH_MEDIUMBAND, OPUS_BANDWIDTH_NARROWBAND.
  set (b1 := if b >? _ then _ else b). assert (H1 : 1101 <= b1 <= 1105) by (subst b1; destruct (_ >? _); lia).
  set (b2 := if negb (es_user_bandwidth s =? _) then _ else b1).
  assert (H2 : 1101 <= b2 <= 1105).
  { subst b2. destruct (Z.eqb_spec (es_user_bandwidth s) OPUS_AUTO); cbn [negb]; [done|tauto]. }
  set (b3 := if _ && (r <? 15000) then _ else b2). assert (H3 : 1101 <= b3 <= 1105) by (subst b3; destruct (_ && _); lia).
  clearbody b3. repeat (match goal with |- context [if ?c && (?x >? ?y) then _ else _] =>
    lazymatch x with context [if _ then _ else _] => fail | _ => destruct (c && (x >? y)) end end); lia.
Qed.

Lemma detect_bandwidth_ok s g m r c b : signal_ok g -> 1101 <= b <= 1105 -> 1101 <= detect_bandwidth s g m r c b <= 1105.
Proof.
  intros Hg Hb. unfold detect_bandwidth.
  destruct (Z.eqb_spec (detected_bandwidth g) 0); cbn [negb andb]; [done|].
  destruct Hg as [|Hg]; [done|]. destruct (_ =? _); [|done]. lia.
Qed.

Lemma fec_loop_range fuel l f b r x c : fec_loop fuel l f b r = Some (x, c) -> 1101 <= b -> 1101 <= c <= b.
Proof.
  revert b. induction fuel as [|fuel IH]; intros b; cbn [fec_loop]; [done|].
  destruct (_ >? fec_threshold _ _ _); [intros [= _ <-]; lia|]. destruct (_ <=? 5); [intros [= _ <-]; lia|].
  unfold OPUS_BANDWIDTH_NARROWBAND. destruct (Z.gtb_spec b 1101); [|done]. intros Hl Hb.
  specialize (IH _ Hl ltac:(lia)). lia.
Qed.

Lemma decide_fec_range u l f m b r : 1101 <= b -> 1101 <= (decide_fec u l f m b r).2 <= b.
Proof.
  intros Hb. unfold decide_fec. destruct (_ || _ || _); cbn [snd]; [lia|].
  destruct (fec_loop _ _ _ _ _) as [[x c]|] eqn:E; cbn [snd]; [|lia]. by apply fec_loop_range in E.
Qed.

Lemma settle_mode_ok s m b :
  In m modes -> 1101 <= b <= 1105 ->
  let '(m', b') := settle_mode s m b in
  1101 <= b' <= 1105 /\ (m' = MODE_CELT_ONLY <-> m = MODE_CELT_ONLY) /\ In m' modes /\
  (m' = MODE_SILK_ONLY -> b' <= 1103) /\ (m' = MODE_HYBRID -> 1104 <= b') /\
  (m' = MODE_CELT_ONLY -> b' <> 1102).
Proof.
  intros Hm Hb. unfold settle_mode. cbv zeta.
  unfold OPUS_BANDWIDTH_WIDEBAND, OPUS_BANDWIDTH_MEDIUMBAND, OPUS_BANDWIDTH_NARROWBAND.
  set (b1 := if _ && (b =? 1102) then 1103 else b).
  set (b2 := if es_lfe s then 1101 else b1).
  assert (H2 : 1101 <= b2 <= 1105 /\ (m = MODE_CELT_ONLY -> b2 <> 1102)).
  { subst b2 b1. destruct (es_lfe s); [lia|]. destruct (Z.eqb_spec m MODE_CELT_ONLY); cbn [andb]; [|lia].
    destruct (Z.eqb_spec b 1102); lia. }
  clearbody b2. destruct H2 as [H2 H3].
  destruct Hm as [<-|[<-|[<-|[]]]]; unfold modes, MODE_SILK_ONLY, MODE_HYBRID, MODE_CELT_ONLY in *; cbn [Z.eqb Pos.eqb andb];
    destruct (Z.gtb_spec b2 1103), (Z.leb_spec b2 1103); try lia; cbn [Z.eqb Pos.eqb andb In]; lia.
Qed.

(** The coded frames are of a size that the mode has, and make up the packet. *)
Lemma split_frames_ok rate m b k :
  In rate rates -> In k all_units -> In m modes -> (m <> MODE_CELT_ONLY -> 4 <= k) -> 1101 <= b <= 1105 ->
  (m = MODE_SILK_ONLY -> b <= 1103) -> (m = MODE_HYBRID -> 1104 <= b) -> (m = MODE_CELT_ONLY -> b <> 1102) ->
  exists kf, (split_frames rate m (k * (rate / 400))).1 = kf * (rate / 400) /\
    (split_frames rate m (k * (rate / 400))).2 * kf = k /\ params_okb m b kf = true.
Proof.
  intros Hr Hk Hm Hk4 Hb H1 H2 H3.
  assert (Hkf : exists kf, (split_frames rate m (k * (rate / 400))).1 = kf * (rate / 400) /\
    (split_frames rate m (k * (rate / 400))).2 * kf = k /\
    (m = MODE_SILK_ONLY -> kf = 4 \/ kf = 8 \/ kf = 16 \/ kf = 24) /\ (m = MODE_HYBRID -> kf = 4 \/ kf = 8) /\
    (m = MODE_CELT_ONLY -> kf = 1 \/ kf = 2 \/ kf = 4 \/ kf = 8)).
  { exists ((split_frames rate m (k * (rate / 400))).1 / (rate / 400)).
    clear H1 H2 H3 Hb. unfold MODE_CELT_ONLY in Hk4.
    destruct Hm as [<-|[<-|[<-|[]]]]; unfold MODE_SILK_ONLY, MODE_HYBRID, MODE_CELT_ONLY in *;
      repeat (destruct Hr as [<-|Hr]; [repeat (destruct Hk as [<-|Hk]; [clear Hk || idtac; try (specialize (Hk4 ltac:(lia)); lia);
        vm_compute; intuition congruence|]); destruct Hk|]); destruct Hr. }
  destruct Hkf as (kf & E1 & E2 & K1 & K2 & K3). exists kf. split_and!; [done|done|].
  unfold params_okb. destruct Hm as [E|[E|[E|[]]]]; rewrite <- E in *; unfold MODE_SILK_ONLY, MODE_HYBRID, MODE_CELT_ONLY in *;
    cbn [Z.eqb Pos.eqb andb orb]; lia.
Qed.

Lemma encode_decide_ok s e g k md br :
  settings_ok s -> state_ok e -> signal_ok g -> In k all_units ->
  let d := encode_decide s e g (k * (es_Fs s / 400)) md br in
  state_ok d.(dc_state) /\
  exists kf, d.(dc_enc_frame_size) = kf * (es_Fs s / 400) /\ d.(dc_nb_frames) * kf = k /\
    params_okb d.(dc_state).(OpusDecide.mode) d.(dc_state).(OpusDecide.bandwidth) kf = true.
Proof.
  intros Hs He Hg Hk. unfold encode_decide. cbv zeta.
  pose proof (choose_channels_ok s (OpusDecide.stream_channels e) (voice_estimate s g)
    (compute_equiv_rate br (es_channels s) (es_Fs s / (k * (es_Fs s / 400))) (es_use_vbr s) 0 (es_complexity s)
       (es_packetLossPercentage s)) Hs) as Hc.
  set (c := choose_channels _ _ _ _) in *. clearbody c.
  set (fr := es_Fs s / (k * (es_Fs s / 400))). set (equiv := compute_equiv_rate br c fr _ 0 _ _).
  pose proof (choose_mode_ok s (OpusDecide.prev_mode e) g (voice_estimate s g) equiv (k * (es_Fs s / 400)) fr md Hs) as Hm.
  set (m := choose_mode _ _ _ _ _ _ _ _) in *. clearbody m.
  pose proof (change_mode_ok s (OpusDecide.prev_mode e) m k Hs (to_prev _ He) Hm) as H1. cbv zeta in H1.
  destruct (change_mode s _ m _) as [[[m1 red] c2s] tc]. cbn [fst] in H1. destruct H1 as [Hm1 Hk4].
  assert (Hd : (delay_mono e c m1).1 = 1 \/ (delay_mono e c m1).1 = 2)
    by (unfold delay_mono; destruct (_ && _ && _ && _ && _); tauto).
  destruct (delay_mono e c m1) as [c1 mono]. cbn [fst] in Hd.
  set (er := compute_equiv_rate br c1 _ _ m1 _ _).
  pose proof (choose_bandwidth_ok s e m1 (voice_estimate s g) er He) as Hb.
  destruct (choose_bandwidth s e m1 _ er) as [b auto]. cbn [fst] in Hb.
  apply (limit_bandwidth_ok s m1 (fr * md * 8) b Hs) in Hb. set (b1 := limit_bandwidth _ _ _ _) in *.
  apply (detect_bandwidth_ok s g m1 er c1 b1 Hg) in Hb. set (b2 := detect_bandwidth _ _ _ _ _ _) in *.
  pose proof (decide_fec_range (b2z (es_useInBandFEC s)) (es_packetLossPercentage s) (LBRR_coded e) m1 b2 er ltac:(lia)) as Hf.
  destruct (decide_fec _ _ _ _ b2 er) as [lbrr b3]. cbn [snd] in Hf.
  pose proof (settle_mode_ok s m1 b3 Hm1 ltac:(lia)) as H2. destruct (settle_mode s m1 b3) as [m2 b4].
  destruct H2 as (Hb4 & Hiff & Hm2 & S1 & S2 & S3).
  destruct (split_frames_ok (es_Fs s) m2 b4 k (so_rate _ Hs) Hk Hm2) as (kf & E1 & E2 & E3); try done; [tauto|].
  destruct (split_frames _ m2 _) as [efs nf]. cbn [fst snd] in E1, E2.
  split; [|by exists kf]. split; cbn [dc_state OpusDecide.stream_channels OpusDecide.mode OpusDecide.prev_mode OpusDecide.bandwidth];
    try done. apply (to_prev _ He).
Qed.

(** A packet without content lasts as long as the frame and fits the buffer. *)
Lemma plc_packet_ok rate e k odb :
  In rate rates -> state_ok e -> In k all_units -> 1 <= odb -> ~ (odb = 1 /\ k = 40) ->
  let packet := plc_packet e.(OpusDecide.mode) e.(OpusDecide.bandwidth) e.(OpusDecide.stream_channels) (400 / k) odb in
  bytes packet /\ len packet <= odb /\ opus_packet_get_nb_samples packet (len packet) rate = Ok (k * (rate / 400)) /\
  exists r, opus_packet_parse packet (len packet) no_sizes = Ok r /\ Forall (eq 0) r.(pr_size) /\ r.(pr_padding_len) = 0.
Proof.
  intros Hr He Hk Ho Hn. cbv zeta.
  assert (Hb : In (OpusDecide.bandwidth e) (0 :: bandwidths))
    by (pose proof (to_bandwidth _ He); unfold bandwidths; cbn [In]; lia).
  pose proof (plc_packet_check rate _ _ _ k odb Hr (or_intror (to_mode _ He)) Hb (to_channels _ He) Hk Ho Hn) as Hp.
  unfold plc_check in Hp. cbv zeta in Hp. set (packet := plc_packet _ _ _ _ _) in *.
  destruct (opus_packet_parse packet (len packet) no_sizes) as [r| |]; [|by rewrite andb_false_r in Hp..].
  destruct (opus_packet_get_nb_samples packet (len packet) rate) as [n0| |]; [|by rewrite andb_false_r in Hp..].
  rewrite !andb_true_iff, Z.leb_le, !Z.eqb_eq in Hp. destruct Hp as [[Hby Hl] [[-> Hz] Hpad]].
  split_and!; [by apply bytes_dec|done|done|]. exists r. split_and!; [done| |done].
  rewrite forallb_forall in Hz. apply List.Forall_forall. intros x Hx. by apply Z.eqb_eq, Hz.
Qed.

Lemma packet_rate_room s fs n : 1 <= n -> 1 <= (packet_rate s fs n).2 <= n.
Proof. intros Hn. unfold packet_rate. cbv zeta. destruct (negb (es_use_vbr s)); cbn [snd]; lia. Qed.

Lemma no_room_false md br fr : no_room md br fr = false -> 3 <= md.
Proof.
  unfold no_room. intros En. apply orb_false_iff in En as [En _]. apply orb_false_iff in En as [En _].
  by apply Z.ltb_ge in En.
Qed.

(** What the plan for a frame of [n] samples promises. *)
Definition plan_announced (s : enc_settings) (n out_data_bytes : Z) (plan : encode_plan) : Prop :=
  match plan with
  | PlanError c => c < 0 /\ (n = -1 \/ out_data_bytes <= 0 \/ out_data_bytes = 1 /\ n = es_Fs s / 10)
  | PlanPacket packet length =>
      bytes packet /\ len packet <= length <= out_data_bytes /\
      opus_packet_get_nb_samples packet (len packet) (es_Fs s) = Ok n /\
      exists r, opus_packet_parse packet (len packet) no_sizes = Ok r /\
        Forall (eq 0) r.(pr_size) /\ r.(pr_padding_len) = 0
  | PlanFrames d max_data_bytes _ =>
      let e' := d.(dc_state) in
      state_ok e' /\ 3 <= max_data_bytes <= 1276 /\
      d.(dc_nb_frames) * d.(dc_enc_frame_size) = n /\
      forall payload,
        let packet := gen_toc e'.(OpusDecide.mode) (es_Fs s / d.(dc_enc_frame_size)) e'.(OpusDecide.bandwidth)
                        e'.(OpusDecide.stream_channels) :: payload in
        opus_packet_get_mode packet = Ok e'.(OpusDecide.mode) /\
        opus_packet_get_bandwidth packet = Ok e'.(OpusDecide.bandwidth) /\
        opus_packet_get_nb_channels packet = Ok e'.(OpusDecide.stream_channels) /\
        opus_packet_get_samples_per_frame packet (es_Fs s) = Ok d.(dc_enc_frame_size)
  end.

Lemma encode_plan_ok s e g k out_data_bytes :
  settings_ok s -> state_ok e -> signal_ok g -> In k all_units ->
  let u := es_Fs s / 400 in
  plan_announced s (k * u) out_data_bytes (opus_encode_plan s e g (k * u) out_data_bytes).
Proof.
  intros Hs He Hg Hk. cbv zeta. pose proof (so_rate _ Hs) as Hr.
  assert (Hu : 20 <= es_Fs s / 400 /\ es_Fs s = 400 * (es_Fs s / 400))
    by (destruct Hr as [<-|[<-|[<-|[<-|[<-|[]]]]]]; vm_compute; intuition congruence).
  assert (Hk1 : 1 <= k <= 48) by (unfold all_units in Hk; cbn in Hk; lia).
  unfold plan_announced, opus_encode_plan. cbv zeta.
  destruct (Z.leb_spec (k * (es_Fs s / 400)) 0); [nia|]. cbn [orb].
  destruct (Z.leb_spec (Z.min 1276 out_data_bytes) 0); [split; [done|tauto || lia]|].
  destruct ((Z.min 1276 out_data_bytes =? 1) && (es_Fs s =? k * (es_Fs s / 400) * 10)) eqn:E1.
  { apply andb_true_iff in E1 as [E1 E2]. split; [done|right; right]. split; [lia|]. symmetry. apply Z.eqb_eq in E2. rewrite E2 at 1. by apply Z.div_mul. }
  assert (Hodb : ~ (out_data_bytes = 1 /\ k = 40)).
  { intros [-> ->]. cbn [Z.min Z.compare Pos.compare Pos.compare_cont Z.eqb Pos.eqb andb] in E1. lia. }
  pose proof (packet_rate_room s (k * (es_Fs s / 400)) (Z.min 1276 out_data_bytes) ltac:(lia)) as Hmd.
  destruct (packet_rate s _ _) as [[br cbr] md]. cbn [snd] in Hmd.
  rewrite frame_rate_units by done. destruct (no_room md br (400 / k)) eqn:En.
  - destruct (plc_packet_ok (es_Fs s) e k out_data_bytes Hr He Hk ltac:(lia) Hodb) as (P1 & P2 & P3 & P4).
    split_and!; try done; destruct (negb (es_use_vbr s)); lia.
  - apply no_room_false in En. destruct (encode_decide_ok s e g k md br Hs He Hg Hk) as (He' & kf & E2 & E3 & E4).
    set (d := encode_decide _ _ _ _ _ _) in *. clearbody d. rewrite E2.
    split_and!; [done|done|lia|nia|]. intros payload.
    destruct (gen_toc_read (es_Fs s) (OpusDecide.mode (dc_state d)) (OpusDecide.bandwidth (dc_state d)) kf
      (OpusDecide.stream_channels (dc_state d)) payload Hr E4 (to_channels _ He')) as (_ & _ & R1 & R2 & R3 & R4).
    split_and!; [done|done|done|by apply R4].
Qed.
