(* ===== verification/OpusEncodeProps.v ===== *)
(** * Properties of the Opus encoder

    The encoders that calls of the API can lead to, with their invariant, what
    they announce in a packet, and when they stop transmission. *)

From S2P Require Import Prelude FixedPoint Memory Packet PacketProofs RepackCat PacketProps SilkMath.
From S2P Require Import OpusDecode OpusDecodeProofs OpusDecodeFrame OpusControl OpusEncodeProofs OpusDecide OpusEncoder.

(** ** Encoders that calls of the API lead to *)

Section Reachable.
Context `{EncoderParts SILK CELT}.
Abbreviation encoder := (OpusEncoder SILK CELT).

Inductive enc_reachable : encoder -> Prop :=
| reach_init celt Fs channels application st :
    opus_encoder_init celt Fs channels application = Ok st -> enc_reachable st
| reach_ctl st request : enc_reachable st -> enc_reachable (OpusEncoder.opus_encoder_ctl st request).1.1
| reach_encode st g size out_data_bytes outcomes :
    enc_reachable st -> signal_ok g -> 0 <= size -> 400 * size < 2 ^ 31 ->
    enc_reachable (opus_encode_state st g size out_data_bytes outcomes).

Record enc_inv (st : encoder) : Prop := {
  ev_settings : settings_ok (oe_settings st);
  ev_state : state_ok (oe_state st);
  ev_dtx : 0 <= oe_nb_no_activity_ms_Q1 st <= 1200
}.

Lemma enc_init_inv celt Fs channels application st :
  opus_encoder_init celt Fs channels application = Ok st -> enc_inv st.
Proof.
  unfold opus_encoder_init.
  match goal with |- context [if ?b then _ else _] => destruct b eqn:E1 end; [done|]. intros [= <-].
  rewrite !orb_false_iff, !andb_false_iff, !negb_false_iff, !Z.eqb_eq in E1. destruct E1 as [[HF Hc] _].
  split; [split| |]; cbn; unfold OPUS_BANDWIDTH_FULLBAND; try lia; try (by left).
  split; cbn; unfold OPUS_BANDWIDTH_FULLBAND; try lia; tauto.
Qed.

(** Settings that a request may leave. *)
Lemma inv_settings st v : enc_inv st -> settings_ok v -> enc_inv (with_settings v st).
Proof. intros [H1 H2 H3] Hv. by split. Qed.
Lemma inv_celt st v : enc_inv st -> enc_inv (with_celt v st).
Proof. intros [H1 H2 H3]. by split. Qed.
Lemma inv_max_rate st v : enc_inv st -> enc_inv (with_max_rate v st).
Proof. intros [H1 H2 H3]. by split. Qed.
Lemma inv_options st a b c d e f g : enc_inv st -> enc_inv (with_options a b c d e f g st).
Proof. intros [H1 H2 H3]. by split. Qed.

Lemma reset_inv st : enc_inv st -> enc_inv (encoder_reset st).
Proof.
  intros [H1 H2 H3]. split; [done| |cbn; lia]. destruct H1.
  split; cbn; unfold OPUS_BANDWIDTH_FULLBAND; try lia; tauto.
Qed.

Ltac bounded E1 := rewrite ?orb_false_iff, ?andb_false_iff, ?orb_false_iff, ?negb_false_iff, ?Z.gtb_ltb, ?Z.ltb_ge, ?Z.eqb_eq in E1.

Lemma enc_ctl_inv st request : enc_inv st -> enc_inv (OpusEncoder.opus_encoder_ctl st request).1.1.
Proof.
  intros Hi. pose proof Hi as [[S1 S2 S3 S4 S5 S6] _ _].
  destruct request; cbn [OpusEncoder.opus_encoder_ctl fst];
    repeat (match goal with |- context [if ?b then _ else _] => let E1 := fresh "E" in destruct b eqn:E1; cbn [fst]; bounded E1 end);
    repeat case_match; cbn [fst];
    repeat (apply inv_celt || apply inv_max_rate || apply inv_options || (apply inv_settings; [|split; cbn]));
    try done; try (by apply reset_inv);
    unfold OPUS_BANDWIDTH_NARROWBAND, OPUS_BANDWIDTH_FULLBAND, OPUS_AUTO, MODE_SILK_ONLY, MODE_CELT_ONLY, MODE_HYBRID in *; try lia.
Qed.

Lemma state_status a b e : state_ok e -> state_ok (with_status a b e).
Proof. intros []. by split. Qed.
Lemma state_mono m e : state_ok e -> state_ok (with_mono m e).
Proof. intros []. by split. Qed.
Lemma state_prev m c f e : state_ok e -> In m (0 :: modes) -> state_ok (with_prev m c f e).
Proof. intros [] Hm. by split. Qed.
Lemma inv_state st e : enc_inv st -> state_ok e -> enc_inv (with_state e st).
Proof. intros [] He. by split. Qed.

Lemma frame_end_inv to_celt n dtx o st : 0 <= n -> enc_inv st -> enc_inv (frame_end to_celt n dtx o st).
Proof.
  intros Hn Hi. pose proof Hi as [Hs He Hd]. unfold frame_end. cbv zeta.
  set (e := if negb _ then _ else _). assert (H1 : state_ok e) by (unfold e; case_match; [by apply state_status|done]).
  clearbody e. destruct (fo_coded o).
  - apply inv_state; [|apply state_prev; [done|destruct to_celt; cbn; [tauto|right; apply (to_mode _ H1)]]].
    split; [done|done|]. cbn. destruct (dtx_decides _ _ _); [|lia]. apply dtx_range; [done|]. unfold frame_ms_Q1.
    pose proof (so_rate _ Hs) as Hr. apply Z.div_pos; [lia|]. unfold rates in Hr. cbn in Hr. lia.
  - apply inv_state; [|done]. by split.
Qed.

Lemma multi_frames_inv outcomes to_celt n : forall st, 0 <= n -> enc_inv st ->
  enc_inv (multi_frames outcomes to_celt n st).2.
Proof.
  induction outcomes as [|o rest IH]; intros st Hn Hi; cbn [multi_frames]; [done|]. cbv zeta.
  pose proof Hi as [Hs He Hd]. set (st1 := frame_end _ _ _ _ _).
  assert (H1 : enc_inv st1) by (apply frame_end_inv; [done|]; apply inv_state; [done|by apply state_mono]).
  clearbody st1. destruct (_ <? 0); [done|]. specialize (IH st1 Hn H1).
  by destruct (multi_frames rest to_celt n st1) as [[? ?] ?].
Qed.

Lemma set_force_mono s : settings_ok s -> settings_ok (set_force_channels 1 s).
Proof. intros []. split; cbn; try done. right. lia. Qed.

(** The sizes of frames: 2.5 to 60 ms. *)
Definition frame_of (rate n : Z) : Prop := exists k, In k units_list /\ n = k * (rate / 400).
Lemma frame_of_ms rate n : In rate rates -> frame_of rate n -> 0 <= n /\ 0 < 2 * 1000 * n / rate <= 120.
Proof.
  intros Hr (k & Hk & ->). unfold units_list in Hk. destruct Hr as [<-|[<-|[<-|[<-|[<-|[]]]]]];
    destruct Hk as [<-|[<-|[<-|[<-|[<-|[<-|[]]]]]]]; vm_compute; intuition congruence.
Qed.

(** What is known of the decision where frames are coded. *)
Lemma encode_begin_frames s e g duration size out d md br :
  settings_ok s -> state_ok e -> signal_ok g -> 400 * size < 2 ^ 31 ->
  opus_encode_begin s e g duration size out = PlanFrames d md br ->
  state_ok d.(dc_state) /\ frame_of (es_Fs s) d.(dc_enc_frame_size).
Proof.
  intros Hs He Hg Hz. unfold opus_encode_begin. set (n := frame_size_select size duration (es_Fs s)).
  destruct (Z.eq_dec n (-1)) as [E1|E1]; [by rewrite E1|].
  destruct (frame_size_select_ok (es_Fs s) size duration n (so_rate _ Hs) Hz eq_refl E1) as (_ & k & Hk & ->).
  pose proof (encode_plan_ok s e g k out Hs He Hg Hk) as Hp. cbv zeta in Hp. intros E2. rewrite E2 in Hp.
  destruct Hp as (H1 & _ & H2 & _). split; [done|].
  clear -H2 E2 Hs Hk He Hg. unfold opus_encode_plan in E2. cbv zeta in E2.
  repeat (case_match; try done). injection E2 as <- _ _.
  match goal with |- context [encode_decide _ _ _ _ ?a ?b] => destruct (encode_decide_ok s e g k a b Hs He Hg Hk) as (_ & kf & -> & H5 & H6) end.
  apply params_okb_domain in H6 as (_ & _ & H6). by exists kf.
Qed.

Lemma encode_state_inv st g size out outcomes :
  signal_ok g -> 0 <= size -> 400 * size < 2 ^ 31 -> enc_inv st -> enc_inv (opus_encode_state st g size out outcomes).
Proof.
  intros Hg Hz0 Hz Hi. pose proof Hi as [Hs He Hd]. unfold opus_encode_state, opus_encode_frames. cbv zeta.
  destruct (opus_encode_begin _ _ _ _ _ _) as [c|packet n|d md br] eqn:Ep; [by split|by split|].
  destruct (encode_begin_frames _ _ _ _ _ _ _ _ _ Hs He Hg Hz Ep) as [H1 H2].
  apply (frame_of_ms _ _ (so_rate _ Hs)) in H2 as [H2 _].
  set (st1 := with_state (dc_state d) _). assert (Hi1 : enc_inv st1) by (by split).
  assert (E1 : oe_settings st1 = oe_settings st) by done. clearbody st1.
  destruct (dc_nb_frames d =? 1).
  { destruct outcomes; [done|]. by apply frame_end_inv. }
  set (st2 := if toMono _ then _ else _). assert (Hi2 : enc_inv st2).
  { pose proof Hi1 as [Hs1 He1 _]. unfold st2. destruct (toMono (oe_state st1)).
    - apply inv_settings; [done|by apply set_force_mono].
    - apply inv_state; [done|]. apply state_prev; [done|apply (to_prev _ He1)]. }
  clearbody st2. pose proof (multi_frames_inv (take (Z.to_nat (dc_nb_frames d)) outcomes) (dc_to_celt d)
    (dc_enc_frame_size d) st2 H2 Hi2) as Hi3.
  destruct (multi_frames _ _ _ _) as [[[] evs] st3]; [|done]. cbn [snd] in Hi3 |- *. pose proof Hi3 as [_ He3 _].
  apply inv_state; [done|by apply state_mono].
Qed.

Lemma enc_reachable_inv st : enc_reachable st -> enc_inv st.
Proof.
  induction 1 as [celt Fs channels application st Hi|st request _ IH|st g size out outcomes _ IH Hg Hz0 Hz];
    [by eapply enc_init_inv|by apply enc_ctl_inv|by apply encode_state_inv].
Qed.

(** (C9) The encoder never announces what it does not code: in every state that initialisation, requests and
    packets can lead to, for any signal, number of samples and buffer, [opus_encode] either fails (a number
    of samples that is no frame size, an empty buffer, or 100 ms in one byte), or sends a packet of empty
    frames that lasts exactly the frame size and fits the buffer, or settles on a mode, a bandwidth and a
    frame size that belong together, whose frames make up the frame size, and that every decoder, at any
    rate, reads back from the first byte [gen_toc] with the number of channels; and it never takes more
    samples than it is given. *)
Theorem encode_plan_announced (st : encoder) g size out_data_bytes :
  enc_reachable st -> signal_ok g -> 400 * size < 2 ^ 31 ->
  let s := oe_settings st in
  let n := frame_size_select size (oe_variable_duration st) (es_Fs s) in
  (n = -1 \/ 0 < n <= size) /\
  plan_announced s n out_data_bytes (opus_encode_begin s (oe_state st) g (oe_variable_duration st) size out_data_bytes).
Proof.
  intros Hst Hg Hz s n. destruct (enc_reachable_inv st Hst) as [Hs He _]. fold s in Hs.
  unfold opus_encode_begin. fold n. destruct (Z.eq_dec n (-1)) as [E1|E1].
  - rewrite E1. split; [by left|]. unfold opus_encode_plan. cbv zeta. cbn [Z.leb Z.compare orb]. split; [done|by left].
  - destruct (frame_size_select_ok (es_Fs s) size (oe_variable_duration st) n (so_rate _ Hs) Hz eq_refl E1) as (Hn & k & Hk & E2).
    split; [right|rewrite E2; by apply encode_plan_ok]. split; [|done].
    pose proof (so_rate _ Hs) as Hr. assert (20 <= es_Fs s / 400)
      by (destruct Hr as [<-|[<-|[<-|[<-|[<-|[]]]]]]; vm_compute; congruence).
    unfold frame_units in Hk. cbn in Hk. nia.
Qed.

(** ** The frames of a sequence of calls *)

(** A coded frame that is not suppressed has a first byte and at least one more, or fails. *)
Definition outcome_ok (o : frame_outcome SILK CELT) : Prop := fo_coded o = true -> fo_ret o < 0 \/ 2 <= fo_ret o.
(** Requests other than a reset, and packets. *)
Definition call_ok (c : enc_call SILK CELT) : Prop :=
  match c with
  | CallCtl request => request <> ENC_RESET_STATE
  | CallEncode g size _ outcomes => signal_ok g /\ 0 <= size /\ 400 * size < 2 ^ 31 /\ Forall outcome_ok outcomes
  end.

Lemma frame_end_keeps to_celt n dtx o (st : encoder) : oe_settings (frame_end to_celt n dtx o st) = oe_settings st.
Proof. unfold frame_end. cbv zeta. by destruct (fo_coded o). Qed.

Lemma frame_end_step to_celt n dtx o (st : encoder) : outcome_ok o ->
  dtx_step (oe_nb_no_activity_ms_Q1 st) (event_of n dtx o st) (oe_nb_no_activity_ms_Q1 (frame_end to_celt n dtx o st)).
Proof.
  intros Ho. unfold frame_end. cbv zeta. destruct (dtx_decides dtx o st) eqn:Ed.
  - pose proof Ed as Ec. apply andb_true_iff in Ec as [Ec _]. rewrite Ec. cbn.
    apply (step_general (oe_nb_no_activity_ms_Q1 st) (event_of n dtx o st)); [done|].
    cbn. unfold frame_ret, frame_suppressed, frame_dtx. rewrite Ed. cbn [andb].
    destruct ((decide_dtx_mode _ _ _).1); [done|]. destruct (Ho Ec); (split; [lia|done]).
  - destruct (fo_coded o); cbn; [by apply step_restart|by apply step_keep].
Qed.

Lemma multi_frames_trace outcomes to_celt n : forall st : encoder, In (es_Fs (oe_settings st)) rates -> frame_of (es_Fs (oe_settings st)) n ->
  Forall outcome_ok outcomes ->
  let '(_, evs, st') := multi_frames outcomes to_celt n st in
  dtx_trace (oe_nb_no_activity_ms_Q1 st) evs (oe_nb_no_activity_ms_Q1 st').
Proof.
  induction outcomes as [|o rest IH]; intros st Hr Hn Ho; cbn [multi_frames]; [constructor|]. cbv zeta.
  apply Forall_cons_1 in Ho as [Ho Hrest]. set (st0 := with_state _ st).
  change (oe_nb_no_activity_ms_Q1 st) with (oe_nb_no_activity_ms_Q1 st0).
  assert (Hn0 : frame_of (es_Fs (oe_settings st0)) n) by done. assert (Hr0 : In (es_Fs (oe_settings st0)) rates) by done.
  clearbody st0. set (c := to_celt && _). pose proof (frame_end_step c n (fo_general_dtx o) o st0 Ho) as Hs.
  assert (Hm : 0 < fe_ms_Q1 (event_of n (fo_general_dtx o) o st0) <= 120) by (by apply frame_of_ms).
  pose proof (frame_end_keeps c n (fo_general_dtx o) o st0) as Ek.
  destruct (_ <? 0); [by econstructor; [| |constructor]|].
  specialize (IH (frame_end c n (fo_general_dtx o) o st0)). rewrite Ek in IH. specialize (IH Hr0 Hn0 Hrest).
  destruct (multi_frames rest to_celt n _) as [[? ?] ?]. by econstructor.
Qed.

Lemma encode_frames_trace st g size out outcomes :
  signal_ok g -> 400 * size < 2 ^ 31 -> enc_inv st -> Forall outcome_ok outcomes ->
  let '(evs, st') := opus_encode_frames st g size out outcomes in
  dtx_trace (oe_nb_no_activity_ms_Q1 st) evs (oe_nb_no_activity_ms_Q1 st').
Proof.
  intros Hg Hz [Hs He Hd] Ho. unfold opus_encode_frames. cbv zeta.
  destruct (opus_encode_begin _ _ _ _ _ _) as [c|packet n|d md br] eqn:Ep; [constructor|constructor|].
  destruct (encode_begin_frames _ _ _ _ _ _ _ _ _ Hs He Hg Hz Ep) as [_ H2].
  assert (Hr : In (es_Fs (oe_settings st)) rates) by apply (so_rate _ Hs).
  set (st1 := with_state (dc_state d) _). change (oe_nb_no_activity_ms_Q1 st) with (oe_nb_no_activity_ms_Q1 st1).
  assert (E1 : oe_settings st = oe_settings st1) by done. rewrite E1 in *. clearbody st1. clear E1.
  destruct (dc_nb_frames d =? 1).
  { destruct outcomes as [|o rest]; [constructor|]. apply Forall_cons_1 in Ho as [Ho _].
    eapply trace_cons; [by apply frame_of_ms|by apply frame_end_step|constructor]. }
  set (st2 := if toMono _ then _ else _).
  assert (E2 : oe_nb_no_activity_ms_Q1 st2 = oe_nb_no_activity_ms_Q1 st1 /\ es_Fs (oe_settings st2) = es_Fs (oe_settings st1))
    by (unfold st2; by destruct (toMono _)).
  clearbody st2. destruct E2 as [<- E2]. rewrite <- E2 in Hr, H2.
  pose proof (multi_frames_trace (take (Z.to_nat (dc_nb_frames d)) outcomes) (dc_to_celt d) (dc_enc_frame_size d) st2 Hr H2
    ltac:(by apply Forall_take)) as Ht.
  by destruct (multi_frames _ _ _ _) as [[[] evs] st3].
Qed.

Lemma ctl_keeps_count (st : encoder) request : request <> ENC_RESET_STATE ->
  oe_nb_no_activity_ms_Q1 (OpusEncoder.opus_encoder_ctl st request).1.1 = oe_nb_no_activity_ms_Q1 st.
Proof. intros Hr. destruct request; cbn [OpusEncoder.opus_encoder_ctl fst]; try done; by repeat case_match. Qed.

Lemma calls_trace calls : forall st, enc_inv st -> Forall call_ok calls ->
  let '(evs, st') := enc_calls calls st in
  dtx_trace (oe_nb_no_activity_ms_Q1 st) evs (oe_nb_no_activity_ms_Q1 st').
Proof.
  induction calls as [|[request|g size out outcomes] calls IH]; intros st Hi Hc; cbn [enc_calls]; [constructor|..];
    apply Forall_cons_1 in Hc as [H1 Hc].
  - rewrite <- (ctl_keeps_count st request H1). apply IH; [by apply enc_ctl_inv|done].
  - destruct H1 as (Hg & Hz0 & Hz & Ho). pose proof (encode_state_inv st g size out outcomes Hg Hz0 Hz Hi) as Hi1.
    pose proof (encode_frames_trace st g size out outcomes Hg Hz Hi Ho) as H1. unfold opus_encode_state in Hi1.
    destruct (opus_encode_frames st g size out outcomes) as [evs st1]. cbn [snd] in Hi1.
    specialize (IH st1 Hi1 Hc). destruct (enc_calls calls st1) as [evs' st2]. by eapply trace_app.
Qed.

(** (C18) The general DTX goes on and off in time.  Take any encoder that calls can lead to, any further calls (packets of
    one or several frames, of any sizes, and requests in between, resets apart), and any frames that follow each other in what is
    sent; durations count half milliseconds.  (1) Of frames without activity on which the general DTX decides and that last more than 200 ms
    together, one is suppressed: [opus_encode_frame_native] sends its first byte alone.  (2) Frames suppressed in a row last
    less than 400 ms after the first of them, then one is sent whole.  (3) Within 200 ms after a frame with activity none is suppressed, and
    (4) a frame with activity never is.  The general DTX decides where DTX is on and the analysis is valid or the signal is
    silence; elsewhere SILK runs a DTX of its own. *)
Theorem dtx_live (st : encoder) calls before window after st' :
  enc_reachable st -> Forall call_ok calls -> enc_calls calls st = (before ++ window ++ after, st') ->
  (Forall idle window -> 400 < total_ms_Q1 window -> Exists suppressed window) /\
  (forall e w, window = e :: w -> Forall suppressed window -> total_ms_Q1 w < 800) /\
  (forall e w e', window = e :: w ++ [e'] -> fe_general e = true -> fe_activity e = true ->
     total_ms_Q1 (w ++ [e']) <= 400 -> ~ suppressed e') /\
  (forall e, In e window -> suppressed e -> fe_activity e = false).
Proof.
  intros Hst Hc E. apply enc_reachable_inv in Hst as Hi. destruct Hi as [_ _ Hn].
  pose proof (calls_trace calls st (enc_reachable_inv st Hst) Hc) as Ht. rewrite E in Ht.
  apply trace_split in Ht as (nb & Hb & Ht). apply trace_split in Ht as (nb2 & Ht & _).
  apply (trace_range _ _ _ Hn) in Hb. clear E Hn. split_and!.
  - by apply (trace_starts nb _ nb2).
  - intros e w -> Hs. apply Forall_cons_1 in Hs as [He Hw]. inversion Ht as [|? ? nb1 ? ? Hd H1 Hr]; subst.
    destruct (suppressed_step nb e nb1 He H1) as (_ & H2 & ->). destruct (trace_pauses _ _ _ Hr ltac:(lia) Hw). lia.
  - intros e w e' -> Hg Ha Hl Hs'. inversion Ht as [|? ? nb1 ? ? Hd H1 Hr]; subst.
    inversion H1 as [Hg' _|Hg'|Hg']; subst; [|congruence..]. rewrite Ha in Hr. cbn in Hr.
    apply trace_split in Hr as (nb3 & H3 & H4). apply trace_counts in H3; [|lia]. rewrite total_app in Hl. cbn in Hl.
    inversion H4 as [|? ? nb4 ? ? Hd' H5 _]; subst. destruct (suppressed_step nb3 e' nb4 Hs' H5) as (_ & H6 & _). lia.
  - intros e He Hs. apply in_split in He as (l1 & l2 & ->). apply trace_split in Ht as (nb1 & _ & Ht).
    inversion Ht as [|? ? nb3 ? ? Hd H1 _]; subst. by destruct (suppressed_step nb1 e nb3 Hs H1).
Qed.
End Reachable.

(** ** Examples *)

(** Coders without signal processing. *)
#[export] Instance plain_parts : EncoderParts unit unit := {|
  silk_InitEncoder := tt; silk_noSpeechCounter := fun _ _ => 0; silk_prev_decode_only_middle := fun _ => 0;
  celt_enc_reset_state := fun c => c; celt_enc_set_complexity := fun _ c => c; celt_enc_set_packet_loss := fun _ c => c;
  celt_enc_set_phase_inversion_disabled := fun _ c => c; celt_enc_get_phase_inversion_disabled := fun _ => 0;
  celt_enc_set_lfe := fun _ c => c; celt_enc_set_energy_mask := fun _ c => c |}.

Definition speech_signal : enc_signal :=
  {| voice_ratio := -1; detected_bandwidth := 0; stereo_width := 0; general_dtx := true |}.
Definition coded_frame : frame_outcome unit unit :=
  {| fo_coded := true; fo_ret := 40; fo_general_dtx := true; fo_activity := false; fo_silk := tt; fo_celt := tt;
     fo_allowBandwidthSwitch := true; fo_inWBmodeWithoutVariableLP := true; fo_maxInternalSampleRate := 16000;
     fo_useCBR := false; fo_range := 0 |}.

Definition request (st : OpusEncoder unit unit) (r : encoder_request) : OpusEncoder unit unit :=
  (OpusEncoder.opus_encoder_ctl st r).1.1.
Definition new_encoder : OpusEncoder unit unit :=
  match opus_encoder_init tt 48000 2 OPUS_APPLICATION_VOIP as r
    return match r with Ok _ => OpusEncoder unit unit | _ => unit end
  with Ok st => st | _ => tt end.

(** 20 ms at 48 kb/s in stereo, then 100 ms at 16 kb/s. *)
Definition speech_encoder : OpusEncoder unit unit :=
  opus_encode_state (request (request new_encoder (ENC_SET_DTX 1)) (ENC_SET_BITRATE 48000)) speech_signal 960 1500 [coded_frame].
Definition slow_encoder : OpusEncoder unit unit :=
  opus_encode_state (request speech_encoder (ENC_SET_BITRATE 16000)) speech_signal 4800 1500 (repeat coded_frame 5).
(** And 20 ms at 128 kb/s. *)
Definition fast_encoder : OpusEncoder unit unit :=
  opus_encode_state (request slow_encoder (ENC_SET_BITRATE 128000)) speech_signal 960 1500 [coded_frame].

Lemma speech_signal_ok : signal_ok speech_signal.
Proof. by left. Qed.
Lemma slow_encoder_reachable : enc_reachable slow_encoder.
Proof.
  apply reach_encode; [|apply speech_signal_ok|done..]. apply (reach_ctl _ (ENC_SET_BITRATE 16000)).
  apply reach_encode; [|apply speech_signal_ok|done..]. apply (reach_ctl _ (ENC_SET_BITRATE 48000)).
  apply (reach_ctl _ (ENC_SET_DTX 1)).
  by apply (reach_init tt 48000 2 OPUS_APPLICATION_VOIP).
Qed.

(** A packet of several frames in which the encoder goes from stereo to mono
    overwrites the setting of the user ([st->force_channels = 1]) and nothing
    restores it: a rate that suffices for stereo is coded in mono from then on. *)
Lemma mono_forever :
  enc_get speech_encoder GET_FORCE_CHANNELS = OPUS_AUTO /\ enc_get slow_encoder GET_FORCE_CHANNELS = 1 /\
  enc_reachable slow_encoder /\ OpusDecide.stream_channels (oe_state fast_encoder) = 1.
Proof. split_and!; try (by vm_compute). apply slow_encoder_reachable. Qed.

(** The encoder in slow speech is asked for 60 ms in a large and in a tiny buffer. *)
Lemma encode_plan_announced_witness :
  let s := oe_settings slow_encoder in
  let n := frame_size_select 2880 (oe_variable_duration slow_encoder) (es_Fs s) in
  n = 2880 /\ (n = -1 \/ 0 < n <= 2880) /\
  plan_announced s n 1500
    (opus_encode_begin s (oe_state slow_encoder) speech_signal (oe_variable_duration slow_encoder) 2880 1500).
Proof.
  split; [vm_compute; reflexivity|].
  exact (encode_plan_announced slow_encoder speech_signal 2880 1500 slow_encoder_reachable speech_signal_ok eq_refl).
Defined.

Example slow_plans :
  let plan n := opus_encode_begin (oe_settings slow_encoder) (oe_state slow_encoder) speech_signal OPUS_FRAMESIZE_ARG 2880 n in
  match plan 1500, plan 2 with
  | PlanFrames d md _, PlanPacket packet n => (dc_enc_frame_size d, dc_nb_frames d, md, packet, n)
  | _, _ => (0, 0, 0, [], 0)
  end = (960, 3, 1276, [124 + 3; 3], 2).
Proof. vm_compute. reflexivity. Qed.

(** A frame with activity, then ten packets of 60 ms without: 200 ms are sent whole, 400 ms are suppressed. *)
Definition active_frame : frame_outcome unit unit :=
  {| fo_coded := true; fo_ret := 40; fo_general_dtx := true; fo_activity := true; fo_silk := tt; fo_celt := tt;
     fo_allowBandwidthSwitch := true; fo_inWBmodeWithoutVariableLP := true; fo_maxInternalSampleRate := 16000;
     fo_useCBR := false; fo_range := 0 |}.
Definition quiet_calls : list (enc_call unit unit) :=
  CallEncode speech_signal 960 1500 [active_frame] :: repeat (CallEncode speech_signal 2880 1500 (repeat coded_frame 3)) 11.
Definition sent_frame (activity : bool) (n : Z) : frame_event :=
  {| fe_ms_Q1 := 40; fe_general := true; fe_activity := activity; fe_ret := n |}.
Definition whole : list frame_event := repeat (sent_frame false 40) 10.
Definition pause : list frame_event := repeat (sent_frame false 1) 20.
Definition rest : list frame_event := [sent_frame false 40; sent_frame false 1; sent_frame false 1].

Lemma quiet_calls_ok : Forall call_ok quiet_calls.
Proof.
  assert (Ho : outcome_ok active_frame /\ outcome_ok coded_frame) by (split; intros _; right; cbn; lia).
  destruct Ho as [H1 H2]. unfold quiet_calls. constructor.
  - cbn [call_ok]. split_and!; [apply speech_signal_ok|done|done|by repeat constructor].
  - apply Forall_forall. intros c Hc. apply repeat_spec in Hc as ->.
    cbn [call_ok]. split_and!; [apply speech_signal_ok|done|done|by repeat constructor].
Qed.
Lemma quiet_run :
  (enc_calls quiet_calls slow_encoder).1 = [sent_frame true 40] ++ (whole ++ pause) ++ rest.
Proof. vm_compute. reflexivity. Qed.

(** One of the idle frames is suppressed, the pause is as long as it may be, and none is suppressed in the 200 ms before. *)
Lemma dtx_live_witness :
  Exists suppressed (whole ++ pause) /\ total_ms_Q1 (tail pause) < 800 /\ ~ suppressed (sent_frame false 40).
Proof.
  pose (st' := (enc_calls quiet_calls slow_encoder).2).
  assert (E : enc_calls quiet_calls slow_encoder = ([sent_frame true 40] ++ (whole ++ pause) ++ rest, st'))
    by (rewrite <- quiet_run; apply surjective_pairing).
  split_and!.
  - apply (dtx_live slow_encoder quiet_calls [sent_frame true 40] (whole ++ pause) rest st' slow_encoder_reachable
      quiet_calls_ok E); [repeat constructor|vm_compute; reflexivity].
  - destruct (dtx_live slow_encoder quiet_calls ([sent_frame true 40] ++ whole) pause rest st' slow_encoder_reachable
      quiet_calls_ok E) as (_ & H2 & _). apply (H2 (sent_frame false 1)); [reflexivity|repeat constructor].
  - destruct (dtx_live slow_encoder quiet_calls [] (sent_frame true 40 :: whole) (pause ++ rest) st' slow_encoder_reachable
      quiet_calls_ok E) as (_ & _ & H3 & _).
    apply (H3 (sent_frame true 40) (repeat (sent_frame false 40) 9)); [reflexivity..|vm_compute; discriminate].
Defined.
