(* ===== verification/Multistream.v ===== *)
(** * Channel layouts and the multistream decoder
    (src/opus_multistream.c, src/opus_multistream_decoder.c)

    A multistream packet is one packet for each stream, all but the last
    self-delimited; the layout says which channels of the output each stream
    (stereo for the coupled ones) goes to. *)

From S2P Require Import Prelude FixedPoint Memory Packet MathOps OpusDecode.
From S2P Require Import RangeCoder.

(** ** Layouts *)

(** [mapping] holds the first [nb_channels] bytes of the array. *)
Record ChannelLayout := {
  nb_channels : Z;
  nb_streams : Z;
  nb_coupled_streams : Z;
  mapping : list Z
}.

Definition validate_layout (layout : ChannelLayout) : bool :=
  let max_channel := layout.(nb_streams) + layout.(nb_coupled_streams) in
  if max_channel >? 255 then false
  else forallb (fun m => negb ((m >=? max_channel) && negb (m =? 255))) (take (Z.to_nat layout.(nb_channels)) layout.(mapping)).

(** [for (;i<layout->nb_channels;i++)]: the next channel that maps to [target]. *)
Fixpoint find_channel (n : nat) (i target : Z) (mapping : list Z) : Z :=
  match n with
  | O => -1
  | S n => if mapping.[i] =? target then i else find_channel n (i + 1) target mapping
  end.

Definition next_channel (layout : ChannelLayout) (target prev : Z) : Z :=
  let i := if prev <? 0 then 0 else prev + 1 in
  find_channel (Z.to_nat (layout.(nb_channels) - i)) i target layout.(mapping).

Definition get_left_channel (layout : ChannelLayout) (stream_id prev : Z) : Z := next_channel layout (stream_id * 2) prev.
Definition get_right_channel (layout : ChannelLayout) (stream_id prev : Z) : Z :=
  next_channel layout (stream_id * 2 + 1) prev.
Definition get_mono_channel (layout : ChannelLayout) (stream_id prev : Z) : Z :=
  next_channel layout (stream_id + layout.(nb_coupled_streams)) prev.

(** ** Output *)

(** The loop of [opus_copy_channel_out_short]: [src] is the source with the index
    of its first sample, [None] for a null pointer. *)
Fixpoint copy_samples (n : nat) (i : Z) (dst : list Z) (dst_stride dst_channel : Z) (src : option (list Z * Z)) (src_stride : Z)
    : res (list Z) :=
  match n with
  | O => Ok dst
  | S n =>
      x ← match src with Some (buf, o) => get buf (o + i * src_stride) | None => Ok 0 end;
      dst ← put dst (i * dst_stride + dst_channel) x;
      copy_samples n (i + 1) dst dst_stride dst_channel src src_stride
  end.

Definition opus_copy_channel_out_short (dst : list Z) (dst_stride dst_channel : Z) (src : option (list Z * Z))
    (src_stride frame_size : Z) : res (list Z) :=
  copy_samples (Z.to_nat frame_size) 0 dst dst_stride dst_channel src src_stride.

(** [while ( (chan = next(prev)) != -1)]: the copies to all channels that [next] gives. *)
Fixpoint copy_channels (fuel : nat) (layout : ChannelLayout) (next : Z -> Z) (prev : Z) (pcm : list Z)
    (src : list Z * Z) (src_stride frame_size : Z) : res (list Z) :=
  match fuel with
  | O => Fault
  | S fuel =>
      let chan := next prev in
      if chan =? -1 then Ok pcm
      else
        pcm ← opus_copy_channel_out_short pcm layout.(nb_channels) chan (Some src) src_stride frame_size;
        copy_channels fuel layout next chan pcm src src_stride frame_size
  end.

(** What stream [s] contributes. *)
Definition copy_stream (layout : ChannelLayout) (s : Z) (pcm buf : list Z) (frame_size : Z) : res (list Z) :=
  let fuel := S (Z.to_nat layout.(nb_channels)) in
  if s <? layout.(nb_coupled_streams) then
    pcm ← copy_channels fuel layout (get_left_channel layout s) (-1) pcm (buf, 0) 2 frame_size;
    copy_channels fuel layout (get_right_channel layout s) (-1) pcm (buf, 1) 2 frame_size
  else copy_channels fuel layout (get_mono_channel layout s) (-1) pcm (buf, 0) 1 frame_size.

(** "Handle muted channels" *)
Fixpoint mute_channels (n : nat) (c : Z) (layout : ChannelLayout) (pcm : list Z) (frame_size : Z) : res (list Z) :=
  match n with
  | O => Ok pcm
  | S n =>
      pcm ← (if layout.(mapping).[c] =? 255
             then opus_copy_channel_out_short pcm layout.(nb_channels) c None 0 frame_size else Ok pcm);
      mute_channels n (c + 1) layout pcm frame_size
  end.

(** ** Packets *)

(** The streams of a packet from stream [s] on, which must all last equally long. *)
Fixpoint packet_validate_from (n : nat) (s : Z) (data : list Z) (nb_streams Fs samples : Z) : res Z :=
  match n with
  | O => Ok samples
  | S n =>
      if len data <=? 0 then Err OPUS_INVALID_PACKET
      else
        r ← opus_packet_parse_impl data (len data) (negb (s =? nb_streams - 1)) (repeat 0 48);
        tmp_samples ← match opus_packet_get_nb_samples data r.(pr_packet_offset) Fs with
                      | Ok x => Ok x | Err c => Ok c | Fault => Fault end;
        if negb (s =? 0) && negb (samples =? tmp_samples) then Err OPUS_INVALID_PACKET
        else packet_validate_from n (s + 1) (drop (Z.to_nat r.(pr_packet_offset)) data) nb_streams Fs tmp_samples
  end.

Definition opus_multistream_packet_validate (data : list Z) (nb_streams Fs : Z) : res Z :=
  packet_validate_from (Z.to_nat nb_streams) 0 data nb_streams Fs 0.

(** ** The decoder *)

Record OpusMSDecoder (SILK CELT : Type) := {
  ms_layout : ChannelLayout;
  ms_decoders : list (OpusDecoder SILK CELT)
}.
Arguments ms_layout {_ _} _.
Arguments ms_decoders {_ _} _.
Arguments Build_OpusMSDecoder {_ _} _ _.

Section Multistream.
Context `{Synthesis SILK CELT} (junk : Z) (junk_dec : ec_ctx).
Abbreviation decoder := (OpusDecoder SILK CELT).
Abbreviation ms_decoder := (OpusMSDecoder SILK CELT).

(** The decoders from stream [i] on: stereo for coupled streams, then mono. *)
Fixpoint init_decoders (n : nat) (i coupled_streams Fs : Z) (silk : SILK) (celt : CELT) : res (list decoder) :=
  match n with
  | O => Ok []
  | S n =>
      d ← opus_decoder_init silk celt Fs (if i <? coupled_streams then 2 else 1);
      l ← init_decoders n (i + 1) coupled_streams Fs silk celt;
      Ok (d :: l)
  end.

Definition opus_multistream_decoder_init (silk : SILK) (celt : CELT) (Fs channels streams coupled_streams : Z)
    (map : list Z) : res ms_decoder :=
  if (channels >? 255) || (channels <? 1) || (coupled_streams >? streams) || (streams <? 1) || (coupled_streams <? 0)
     || (streams >? 255 - coupled_streams) then Err OPUS_BAD_ARG
  else
    map ← load map 0 channels;
    let layout := {| nb_channels := channels; nb_streams := streams; nb_coupled_streams := coupled_streams;
                     mapping := map |} in
    if negb (validate_layout layout) then Err OPUS_BAD_ARG
    else
      l ← init_decoders (Z.to_nat streams) 0 coupled_streams Fs silk celt;
      Ok (Build_OpusMSDecoder layout l).

(** [for (s=0;s<st->layout.nb_streams;s++)]: the decoders left to run, the
    samples, and the frame size or the result ([<= 0]) with which the call returns. *)
Fixpoint ms_decode_streams (l : list decoder) (s : Z) (layout : ChannelLayout) (data buf pcm : list Z) (frame_size decode_fec : Z)
    (do_plc : bool) : res (list decoder * list Z * Z) :=
  match l with
  | [] => Ok ([], pcm, frame_size)
  | dec :: rest =>
      if negb do_plc && (len data <=? 0) then Ok (l, pcm, OPUS_INTERNAL_ERROR)
      else
        '(dec, buf, ret, packet_offset) ←
          opus_decode_native junk junk_dec dec (Some data) (len data) buf 0 frame_size decode_fec
            (negb (s =? layout.(nb_streams) - 1)) (repeat 0 48);
        let data := if negb do_plc then drop (Z.to_nat packet_offset) data else data in
        if ret <=? 0 then Ok (dec :: rest, pcm, ret)
        else
          pcm ← copy_stream layout s pcm buf ret;
          '(rest, pcm, ret) ← ms_decode_streams rest (s + 1) layout data buf pcm ret decode_fec do_plc;
          Ok (dec :: rest, pcm, ret)
  end.

Definition ms_rate (st : ms_decoder) : Z := match st.(ms_decoders) with d :: _ => d.(Fs) | [] => 0 end.

(** [opus_multistream_decode], with 16-bit output. *)
Definition opus_multistream_decode (st : ms_decoder) (data pcm : list Z) (frame_size decode_fec : Z)
    : res (ms_decoder * list Z * Z) :=
  if frame_size <=? 0 then Ok (st, pcm, OPUS_BAD_ARG)
  else
    let layout := st.(ms_layout) in
    let Fs := ms_rate st in
    let frame_size := Z.min frame_size (Fs / 25 * 3) in
    let buf := repeat junk (Z.to_nat (2 * frame_size)) in
    let do_plc := len data =? 0 in
    if negb do_plc && (len data <? 2 * layout.(nb_streams) - 1) then Ok (st, pcm, OPUS_INVALID_PACKET)
    else
      let run :=
        '(l, pcm, ret) ← ms_decode_streams st.(ms_decoders) 0 layout data buf pcm frame_size decode_fec do_plc;
        let st := Build_OpusMSDecoder layout l in
        if ret <=? 0 then Ok (st, pcm, ret)
        else
          pcm ← mute_channels (Z.to_nat layout.(nb_channels)) 0 layout pcm ret;
          Ok (st, pcm, ret) in
      if do_plc then run
      else
        match opus_multistream_packet_validate data layout.(nb_streams) Fs with
        | Fault => Fault
        | Err c => Ok (st, pcm, c)
        | Ok ret =>
            if ret <? 0 then Ok (st, pcm, ret)
            else if ret >? frame_size then Ok (st, pcm, OPUS_BUFFER_TOO_SMALL)
            else run
        end.

(** ** Requests *)

(** A request to all streams, up to the first that refuses it. *)
Fixpoint ctl_streams (l : list decoder) (request : decoder_request) : list decoder * Z :=
  match l with
  | [] => ([], OPUS_OK)
  | d :: rest =>
      let '(d, ret, _) := opus_decoder_ctl d request in
      if negb (ret =? OPUS_OK) then (d :: rest, ret)
      else let '(rest, ret) := ctl_streams rest request in (d :: rest, ret)
  end.

(** [MS_STREAM] is a request to the decoder that
    OPUS_MULTISTREAM_GET_DECODER_STATE_REQUEST gave access to. *)
Inductive ms_request :=
| MS_ALL (request : decoder_request)
| MS_STREAM (stream_id : Z) (request : decoder_request).

Definition opus_multistream_decoder_ctl (st : ms_decoder) (request : ms_request) : ms_decoder * Z * option Z :=
  let l := st.(ms_decoders) in
  match request with
  | MS_STREAM stream_id request =>
      if (stream_id <? 0) || (stream_id >=? st.(ms_layout).(nb_streams)) then (st, OPUS_BAD_ARG, None)
      else
        match l !! Z.to_nat stream_id with
        | None => (st, OPUS_BAD_ARG, None)
        | Some d =>
            let '(d, ret, out) := opus_decoder_ctl d request in
            (Build_OpusMSDecoder st.(ms_layout) (<[Z.to_nat stream_id := d]> l), ret, out)
        end
  | MS_ALL request =>
      match request with
      | DEC_GET_BANDWIDTH | DEC_GET_SAMPLE_RATE | DEC_GET_GAIN | DEC_GET_LAST_PACKET_DURATION
      | DEC_GET_PHASE_INVERSION_DISABLED =>
          match l with
          | [] => (st, OPUS_BAD_ARG, None)
          | d :: _ => let '(_, ret, out) := opus_decoder_ctl d request in (st, ret, out)
          end
      | DEC_GET_FINAL_RANGE => (st, OPUS_OK, Some (fold_left (fun v d => Z.lxor v d.(rangeFinal)) l 0))
      | DEC_RESET_STATE | DEC_SET_GAIN _ | DEC_SET_PHASE_INVERSION_DISABLED _ =>
          let '(l, ret) := ctl_streams l request in (Build_OpusMSDecoder st.(ms_layout) l, ret, None)
      | _ => (st, OPUS_UNIMPLEMENTED, None)
      end
  end.
End Multistream.
