(* ===== verification/MultistreamProofs.v ===== *)
(** * Proofs about the multistream decoder

    The search for channels is exhaustive, copies change one channel only, and
    the streams of a validated packet last equally long. *)

From S2P Require Import Prelude FixedPoint Memory Packet PacketProofs RepackCat EntropyInterface.
From S2P Require Import RangeCoder RangeSafe OpusDecode OpusDecodeProofs OpusDecodeFrame OpusProps Multistream.

(** ** Channels *)

Lemma find_channel_spec n : forall i target map, 0 <= i ->
  let r := find_channel n i target map in
  (r = -1 /\ forall j, i <= j < i + Z.of_nat n -> map.[j] <> target) \/
  (i <= r < i + Z.of_nat n /\ map.[r] = target /\ forall j, i <= j < r -> map.[j] <> target).
Proof.
  induction n as [|n IH]; intros i target map Hi; cbn [find_channel]; [left; split; [done|lia]|].
  destruct (Z.eqb_spec map.[i] target) as [E|E].
  - right. split_and!; [lia|lia|done|lia].
  - destruct (IH (i + 1) target map ltac:(lia)) as [[-> H]|(H1 & H2 & H3)]; [left|right].
    + split; [done|]. intros j Hj. destruct (Z.eq_dec j i) as [->|]; [done|apply H; lia].
    + split_and!; [lia|lia|done|]. intros j Hj. destruct (Z.eq_dec j i) as [->|]; [done|apply H3; lia].
Qed.

Lemma next_channel_spec layout target prev : -1 <= prev <= layout.(nb_channels) ->
  let r := next_channel layout target prev in
  (r = -1 /\ forall c, prev < c < layout.(nb_channels) -> layout.(mapping).[c] <> target) \/
  (prev < r < layout.(nb_channels) /\ layout.(mapping).[r] = target /\
   forall c, prev < c < r -> layout.(mapping).[c] <> target).
Proof.
  intros Hp. unfold next_channel. cbv zeta.
  assert (E : (if prev <? 0 then 0 else prev + 1) = prev + 1) by (destruct (Z.ltb_spec prev 0); lia). rewrite E.
  destruct (find_channel_spec (Z.to_nat (nb_channels layout - (prev + 1))) (prev + 1) target (mapping layout) ltac:(lia))
    as [[-> H]|(H1 & H2 & H3)]; [left|right].
  - split; [done|]. intros c Hc. apply H. lia.
  - split_and!; [lia|lia|done|]. intros c Hc. apply H3. lia.
Qed.

(** ** Copies *)

(** Two samples at the same place are the same sample of the same channel. *)
Lemma place_inj stride j c j' c' : 0 <= c < stride -> 0 <= c' < stride ->
  j * stride + c = j' * stride + c' -> j = j' /\ c = c'.
Proof. intros Hc Hc' E. assert (j = j') by nia. subst. lia. Qed.

Definition source (src : option (list Z * Z)) (src_stride j : Z) : Z :=
  match src with Some (buf, o) => buf.[o + j * src_stride] | None => 0 end.

Definition source_ok (src : option (list Z * Z)) (src_stride n : Z) : Prop :=
  match src with Some (buf, o) => 0 <= o /\ 0 <= src_stride /\ forall j, 0 <= j < n -> o + j * src_stride < len buf | None => True end.

Lemma copy_samples_spec stride chan src ss m n : forall i dst,
  0 <= chan < stride -> 0 <= i -> i + Z.of_nat n = m -> m * stride <= len dst -> source_ok src ss m ->
  must (copy_samples n i dst stride chan src ss) (fun dst' => len dst' = len dst /\
    forall j c, 0 <= c < stride -> dst'.[j * stride + c] =
      if (c =? chan) && (i <=? j) && (j <? m) then source src ss j else dst.[j * stride + c]).
Proof.
  induction n as [|n IH]; intros i dst Hc Hi Hm Hl Hs; cbn [copy_samples].
  { apply must_ok. split; [done|]. intros j c Hc'. destruct (Z.leb_spec i j), (Z.ltb_spec j m); try lia;
      by rewrite ?andb_false_r. }
  assert (Ex : match src with Some (buf, o) => get buf (o + i * ss) | None => Ok 0 end = Ok (source src ss i)).
  { unfold source. destruct src as [[buf o]|]; [|done]. destruct Hs as (H1 & H2 & H3).
    apply get_ok. specialize (H3 i ltac:(lia)). nia. }
  rewrite Ex. cbn [mbind res_bind]. unfold put.
  assert (Hr : 0 <= i * stride + chan < len dst) by nia.
  destruct (Z.leb_spec 0 (i * stride + chan)), (Z.ltb_spec (i * stride + chan) (len dst)); try lia. cbn [andb mbind res_bind].
  specialize (IH (i + 1) (dst.[i * stride + chan <- source src ss i]) Hc ltac:(lia) ltac:(lia)).
  rewrite len_wr in IH. specialize (IH Hl Hs). unfold must in *.
  destruct (copy_samples n (i + 1) _ _ _ _ _) as [dst'|?|]; [|done|done]. destruct IH as [L H2]. split; [done|].
  intros j c Hc'. rewrite H2 by done. destruct (Z.eqb_spec c chan) as [->|Hne]; cbn [andb].
  - destruct (Z.eq_dec i j) as [->|Hij].
    + destruct (Z.leb_spec (j + 1) j), (Z.leb_spec j j), (Z.ltb_spec j m); try lia. cbn [andb]. by apply rd_wr_eq.
    + rewrite rd_wr_ne by (intros E; apply Hij; by destruct (place_inj stride i chan j chan)).
      destruct (Z.leb_spec (i + 1) j), (Z.leb_spec i j); try lia; done.
  - apply rd_wr_ne. intros E. destruct (place_inj stride i chan j c); congruence.
Qed.

Lemma copy_out_spec dst stride chan src ss n :
  0 <= chan < stride -> 0 <= n -> n * stride <= len dst -> source_ok src ss n ->
  must (opus_copy_channel_out_short dst stride chan src ss n) (fun dst' => len dst' = len dst /\
    forall j c, 0 <= c < stride -> 0 <= j -> dst'.[j * stride + c] =
      if (c =? chan) && (j <? n) then source src ss j else dst.[j * stride + c]).
Proof.
  intros Hc Hn Hl Hs. unfold opus_copy_channel_out_short.
  pose proof (copy_samples_spec stride chan src ss n (Z.to_nat n) 0 dst Hc ltac:(lia) ltac:(lia) Hl Hs) as H.
  unfold must in *. destruct (copy_samples _ _ _ _ _ _ _) as [dst'|?|]; [|done|done]. destruct H as [L H]. split; [done|].
  intros j c Hc' Hj. rewrite H by done. destruct (Z.leb_spec 0 j); [|lia]. by rewrite andb_true_r.
Qed.

Lemma copy_channels_spec layout target src ss n fuel : forall prev pcm,
  -1 <= prev < layout.(nb_channels) -> layout.(nb_channels) - prev <= Z.of_nat fuel ->
  0 <= n -> n * layout.(nb_channels) <= len pcm -> source_ok (Some src) ss n ->
  must (copy_channels fuel layout (next_channel layout target) prev pcm src ss n) (fun pcm' => len pcm' = len pcm /\
    forall j c, 0 <= c < layout.(nb_channels) -> 0 <= j -> pcm'.[j * layout.(nb_channels) + c] =
      if (prev <? c) && (layout.(mapping).[c] =? target) && (j <? n) then source (Some src) ss j
      else pcm.[j * layout.(nb_channels) + c]).
Proof.
  induction fuel as [|fuel IH]; intros prev pcm Hp Hf Hn Hl Hs; [lia|]. cbn [copy_channels]. cbv zeta.
  destruct (next_channel_spec layout target prev ltac:(lia)) as [[-> H1]|(H1 & H2 & H3)].
  - cbn [Z.eqb Pos.eqb]. apply must_ok. split; [done|]. intros j c Hc Hj.
    destruct (Z.ltb_spec prev c); [|done]. destruct (Z.eqb_spec (mapping layout).[c] target); [|done].
    exfalso. apply (H1 c); [lia|done].
  - set (chan := next_channel layout target prev) in *. destruct (Z.eqb_spec chan (-1)); [lia|].
    eapply must_bind; [by apply copy_out_spec; [lia|..]|]. intros pcm1 [L1 E1].
    pose proof (IH chan pcm1 ltac:(lia) ltac:(lia) Hn ltac:(lia) Hs) as H4. unfold must in *.
    destruct (copy_channels fuel _ _ _ _ _ _ _) as [pcm2|?|]; [|done|done]. destruct H4 as [L2 E2]. split; [lia|].
    intros j c Hc Hj. rewrite E2, E1 by done.
    destruct (Z.ltb_spec chan c), (Z.ltb_spec prev c), (Z.eqb_spec c chan); try lia; cbn [andb]; try done.
    + subst c. rewrite H2, Z.eqb_refl. done.
    + destruct (Z.eqb_spec (mapping layout).[c] target); [|done]. exfalso. apply (H3 c); [lia|done].
Qed.

(** What stream [s] with the samples [buf] puts into channel [c]. *)
Definition stream_part (layout : ChannelLayout) (s : Z) (buf : list Z) (c j : Z) : option Z :=
  let m := layout.(mapping).[c] in
  if s <? layout.(nb_coupled_streams) then
    if m =? s * 2 then Some buf.[j * 2] else if m =? s * 2 + 1 then Some buf.[1 + j * 2] else None
  else if m =? s + layout.(nb_coupled_streams) then Some buf.[j] else None.

Lemma copy_stream_spec layout s pcm buf n :
  1 <= layout.(nb_channels) -> 0 <= n -> n * layout.(nb_channels) <= len pcm ->
  n * (if s <? layout.(nb_coupled_streams) then 2 else 1) <= len buf ->
  must (copy_stream layout s pcm buf n) (fun pcm' => len pcm' = len pcm /\
    forall j c, 0 <= c < layout.(nb_channels) -> 0 <= j -> pcm'.[j * layout.(nb_channels) + c] =
      match stream_part layout s buf c j with
      | Some v => if j <? n then v else pcm.[j * layout.(nb_channels) + c]
      | None => pcm.[j * layout.(nb_channels) + c]
      end).
Proof.
  intros Hc Hn Hl Hb. unfold copy_stream, stream_part, get_left_channel, get_right_channel, get_mono_channel. cbv zeta.
  destruct (s <? nb_coupled_streams layout).
  - eapply must_bind; [apply copy_channels_spec; [lia|lia|lia|lia|cbn; split_and!; lia]|]. intros pcm1 [L1 E1].
    pose proof (copy_channels_spec layout (s * 2 + 1) (buf, 1) 2 n (S (Z.to_nat (nb_channels layout))) (-1) pcm1
      ltac:(lia) ltac:(lia) Hn ltac:(lia) ltac:(cbn; split_and!; lia)) as H2.
    unfold must in *. destruct (copy_channels _ _ _ _ _ _ _ _) as [pcm2|?|]; [|done|done]. destruct H2 as [L2 E2].
    split; [lia|]. intros j c Hc' Hj. rewrite E2, E1 by done. cbn [source]. rewrite Z.add_0_l.
    destruct (Z.ltb_spec (-1) c); [|lia]. cbn [andb].
    destruct (Z.eqb_spec (mapping layout).[c] (s * 2)), (Z.eqb_spec (mapping layout).[c] (s * 2 + 1)); try lia; cbn [andb]; done.
  - pose proof (copy_channels_spec layout (s + nb_coupled_streams layout) (buf, 0) 1 n (S (Z.to_nat (nb_channels layout))) (-1) pcm
      ltac:(lia) ltac:(lia) Hn Hl ltac:(cbn; split_and!; lia)) as H2.
    unfold must in *. destruct (copy_channels _ _ _ _ _ _ _ _) as [pcm2|?|]; [|done|done]. destruct H2 as [L2 E2].
    split; [lia|]. intros j c Hc' Hj. rewrite E2 by done. cbn [source]. rewrite Z.add_0_l, Z.mul_1_r.
    destruct (Z.ltb_spec (-1) c); [|lia]. cbn [andb].
    by destruct (Z.eqb_spec (mapping layout).[c] (s + nb_coupled_streams layout)); cbn [andb].
Qed.

Lemma mute_spec layout n k : forall c0 pcm,
  0 <= c0 -> c0 + Z.of_nat k = layout.(nb_channels) -> 0 <= n -> n * layout.(nb_channels) <= len pcm ->
  must (mute_channels k c0 layout pcm n) (fun pcm' => len pcm' = len pcm /\
    forall j c, 0 <= c < layout.(nb_channels) -> 0 <= j -> pcm'.[j * layout.(nb_channels) + c] =
      if (c0 <=? c) && (layout.(mapping).[c] =? 255) && (j <? n) then 0 else pcm.[j * layout.(nb_channels) + c]).
Proof.
  induction k as [|k IH]; intros c0 pcm Hc Hk Hn Hl; cbn [mute_channels].
  { apply must_ok. split; [done|]. intros j c Hc' Hj. by destruct (Z.leb_spec c0 c); [lia|]. }
  eapply (must_bind _ _ (fun pcm1 => len pcm1 = len pcm /\ forall j c, 0 <= c < nb_channels layout -> 0 <= j ->
    pcm1.[j * nb_channels layout + c] = if (c =? c0) && (layout.(mapping).[c] =? 255) && (j <? n) then 0
      else pcm.[j * nb_channels layout + c])).
  { destruct (Z.eqb_spec (mapping layout).[c0] 255) as [E|E].
    - pose proof (copy_out_spec pcm (nb_channels layout) c0 None 0 n ltac:(lia) Hn Hl ltac:(done)) as H1. unfold must in *.
      destruct (opus_copy_channel_out_short _ _ _ _ _ _) as [pcm1|?|]; [|done|done]. destruct H1 as [L1 E1]. split; [done|].
      intros j c Hc' Hj. rewrite E1 by done. destruct (Z.eqb_spec c c0) as [->|]; [|done]. by rewrite E.
    - apply must_ok. split; [done|]. intros j c Hc' Hj. destruct (Z.eqb_spec c c0) as [->|]; [|done].
      by apply Z.eqb_neq in E as ->. }
  intros pcm1 [L1 E1]. pose proof (IH (c0 + 1) pcm1 ltac:(lia) ltac:(lia) Hn ltac:(lia)) as H2. unfold must in *.
  destruct (mute_channels _ _ _ _ _) as [pcm2|?|]; [|done|done]. destruct H2 as [L2 E2]. split; [lia|].
  intros j c Hc' Hj. rewrite E2, E1 by done.
  destruct (Z.leb_spec (c0 + 1) c), (Z.leb_spec c0 c), (Z.eqb_spec c c0); try lia; cbn [andb]; try done.
Qed.

(** ** Streams of a packet *)

(** The duration of a stream is in the bytes that belong to it. *)
Lemma nb_frames_prefix data sd r : 1 <= len data -> parse_ok data sd r ->
  opus_packet_get_nb_frames data r.(pr_packet_offset) = opus_packet_get_nb_frames data (len data).
Proof.
  intros Hl Hr. pose proof (po_nb _ _ _ Hr) as Hn. rewrite nb_frames_eq in Hn by done.
  destruct (po_inside _ _ _ Hr) as [I1 I2]. destruct (po_padding _ _ _ Hr) as [I3 I4]. pose proof (po_count _ _ _ Hr) as Hc.
  pose proof (parsed_inside _ _ _ Hr 0 ltac:(lia)) as [I5 I6].
  pose proof (po_sizes _ _ _ Hr 0 ltac:(lia)) as I7. destruct (po_first _ _ _ Hr) as [I8 I9].
  assert (Ho : pr_payload_offset r <= pr_packet_offset r) by lia.
  rewrite nb_frames_eq by done. unfold opus_packet_get_nb_frames.
  destruct (Z.ltb_spec (pr_packet_offset r) 1); [lia|]. rewrite (get_ok data 0) by lia. cbn [mbind res_bind].
  destruct (Z.land data.[0] 3 =? 0); [done|]. destruct (negb (Z.land data.[0] 3 =? 3)); [done|].
  destruct (Z.ltb_spec (len data) 2); [done|].
  assert (H2 : 2 <= pr_packet_offset r).
  { destruct sd; [|rewrite (po_total _ _ _ Hr); [lia|done]]. destruct (po_header _ _ _ Hr) as (cbr & _ & Hh).
    assert (0 <= hdrto (pr_size r) (Z.to_nat (pr_count r - 1))).
    { clear. generalize (Z.to_nat (pr_count r - 1)). intros k. induction k as [|k IH]; cbn [hdrto]; [lia|].
      unfold size_bytes. destruct (_ >=? 252); cbn [b2z]; lia. }
    unfold size_bytes in *.
    destruct (_ <=? 2), cbr, (_ >=? 252); cbn [b2z] in *; lia. }
  destruct (Z.ltb_spec (pr_packet_offset r) 2); [lia|]. rewrite (get_ok data 1) by lia. done.
Qed.

Lemma nb_samples_prefix data sd r Fs : 1 <= len data -> parse_ok data sd r ->
  opus_packet_get_nb_samples data r.(pr_packet_offset) Fs = opus_packet_get_nb_samples data (len data) Fs.
Proof. intros Hl Hr. unfold opus_packet_get_nb_samples. by rewrite (nb_frames_prefix data sd r Hl Hr). Qed.

Section Streams.
Context {rate : Z} `{L : SynthesisLaws rate SILK CELT} (junk : Z) (junk_dec : ec_ctx).
Abbreviation decoder := (OpusDecoder SILK CELT).
Context (layout : ChannelLayout) (fec : Z).

(** The decoder returns where the next stream begins. *)
Lemma native_offset (st : decoder) data buf fsize sd size st' buf' ret off r :
  1 <= len data -> opus_packet_parse_impl data (len data) sd size = Ok r ->
  opus_decode_native junk junk_dec st (Some data) (len data) buf 0 fsize fec sd size = Ok (st', buf', ret, off) ->
  0 < ret -> off = r.(pr_packet_offset).
Proof.
  intros Hl Hr. unfold opus_decode_native. cbv zeta.
  destruct (_ || (fec >? 1)); [intros [= <- <- <- <-]; done|].
  destruct (Z.eqb_spec (len data) 0); [lia|]. cbn [orb].
  destruct (_ && _); [intros [= <- <- <- <-]; done|]. destruct (Z.ltb_spec (len data) 0); [lia|].
  destruct (opus_packet_get_mode data) as [m|?|]; [|done..]. cbn [mbind res_bind].
  destruct (opus_packet_get_bandwidth data) as [b|?|]; [|done..]. cbn [mbind res_bind].
  destruct (opus_packet_get_samples_per_frame data (Fs st)) as [k|?|]; [|done..]. cbn [mbind res_bind].
  destruct (opus_packet_get_nb_channels data) as [c|?|]; [|done..]. cbn [mbind res_bind]. rewrite Hr.
  destruct (negb (fec =? 0)).
  - destruct (decode_fec_packet _ _ _ _ _ _ _ _ _ _ _ _ _) as [[[a1 a2] a3]|?|]; [|done..]. intros [= <- <- <- <-]. done.
  - destruct (_ >? fsize); [intros [= <- <- <- <-]; done|].
    destruct (decode_frames _ _ _ _ _ _ _ _ _ _ _ _) as [[[a1 a2] a3]|?|]; [|done..]. intros [= <- <- <- <-]. done.
Qed.

(** The streams of [data] from [s] on, decoded in turn into one buffer: the
    decoders and the samples of each after it, and the frame size. *)
Inductive decoded : list decoder -> Z -> list Z -> list Z -> Z -> list decoder -> list (list Z) -> Z -> Prop :=
| decoded_nil s data buf fsize : decoded [] s data buf fsize [] [] fsize
| decoded_cons d rest s data buf fsize d' buf' ret off rest' bufs n :
    opus_decode_native junk junk_dec d (Some data) (len data) buf 0 fsize fec (negb (s =? layout.(nb_streams) - 1)) (repeat 0 48)
      = Ok (d', buf', ret, off) ->
    0 < ret -> decoded rest (s + 1) (drop (Z.to_nat off) data) buf' ret rest' bufs n ->
    decoded (d :: rest) s data buf fsize (d' :: rest') (buf' :: bufs) n.

Definition stream_channels_of (s : Z) : Z := if s <? layout.(nb_coupled_streams) then 2 else 1.
Fixpoint streams_inv (l : list decoder) (s : Z) : Prop :=
  match l with
  | [] => True
  | d :: rest => dec_inv rate d /\ d.(channels) = stream_channels_of s /\ streams_inv rest (s + 1)
  end.

(** What the streams from [s] on put into channel [c]. *)
Fixpoint part_of (bufs : list (list Z)) (s c j : Z) : option Z :=
  match bufs with
  | [] => None
  | b :: rest => match part_of rest (s + 1) c j with Some v => Some v | None => stream_part layout s b c j end
  end.

Lemma native_lost_sd (st : decoder) data pcm fsize sd size :
  opus_decode_native junk junk_dec st (Some data) 0 pcm 0 fsize fec sd size =
  opus_decode_native junk junk_dec st None 0 pcm 0 fsize fec false size.
Proof. unfold opus_decode_native. cbn [Z.eqb orb]. done. Qed.

Lemma validate_later k : forall s data nbs Fs samples v, 0 < s ->
  packet_validate_from k s data nbs Fs samples = Ok v -> v = samples.
Proof.
  induction k as [|k IH]; intros s data nbs Fs samples v Hs; cbn [packet_validate_from]; [congruence|].
  destruct (len data <=? 0); [done|]. destruct (opus_packet_parse_impl _ _ _ _) as [r|?|]; [|done..]. cbn [mbind res_bind].
  destruct (match opus_packet_get_nb_samples _ _ _ with Ok x => Ok x | Err c => Ok c | Fault => Fault end) as [x|?|]; [|done..].
  cbn [mbind res_bind]. destruct (Z.eqb_spec s 0); [lia|]. cbn [negb andb].
  destruct (Z.eqb_spec samples x) as [->|]; [|done]. cbn [negb]. apply IH. lia.
Qed.

(** A validated stream: it parses, and lasts as long as the packet. *)
Lemma validate_step k s data nbs samples v : 0 <= s -> bytes data ->
  packet_validate_from (S k) s data nbs rate samples = Ok v ->
  1 <= len data /\ exists r, opus_packet_parse_impl data (len data) (negb (s =? nbs - 1)) (repeat 0 48) = Ok r /\
    (opus_packet_get_nb_samples data (len data) rate = Ok v \/ forall x, opus_packet_get_nb_samples data (len data) rate <> Ok x) /\
    packet_validate_from k (s + 1) (drop (Z.to_nat r.(pr_packet_offset)) data) nbs rate v = Ok v.
Proof.
  intros Hs Hb. cbn [packet_validate_from]. destruct (Z.leb_spec (len data) 0); [done|]. intros Hv. split; [lia|].
  assert (Hroom : room data (len (repeat 0 48))) by (intros c _ Hc; change (len (repeat 0 48)) with 48; lia).
  pose proof (sat_parse_impl data (negb (s =? nbs - 1)) (repeat 0 48) Hb Hroom) as Hp.
  destruct (opus_packet_parse_impl _ _ _ _) as [r|?|]; [|done..]. destruct Hp as [Hp _]. exists r. split; [done|].
  cbn [mbind res_bind] in Hv. rewrite (nb_samples_prefix data _ r rate ltac:(lia) Hp) in Hv.
  destruct (opus_packet_get_nb_samples data (len data) rate) as [x|x|]; cbn [mbind res_bind] in Hv; [| |done];
    (destruct (_ && _) eqn:E1; [done|]; pose proof (validate_later k (s + 1) _ _ _ _ _ ltac:(lia) Hv) as ->);
    (split; [|done]); [by left|by right].
Qed.

(** Validation never faults. *)
Lemma validate_sat k : forall s data nbs samples, bytes data ->
  sat (packet_validate_from k s data nbs rate samples) (fun _ => True).
Proof.
  induction k as [|k IH]; intros s data nbs samples Hb; cbn [packet_validate_from]; [done|].
  destruct (Z.leb_spec (len data) 0); [done|].
  assert (Hroom : room data (len (repeat 0 48))) by (intros c _ Hc; change (len (repeat 0 48)) with 48; lia).
  eapply sat_bind; [apply (sat_parse_impl data (negb (s =? nbs - 1)) (repeat 0 48) Hb Hroom)|]. intros r [Hp _].
  rewrite (nb_samples_prefix data _ r rate ltac:(lia) Hp).
  assert (Hs : exists x, match opus_packet_get_nb_samples data (len data) rate with Ok x => Ok x | Err c => Ok c | Fault => Fault end = Ok x).
  { unfold opus_packet_get_nb_samples. rewrite (po_nb _ _ _ Hp). cbn [mbind res_bind].
    unfold opus_packet_get_samples_per_frame. rewrite get_ok by lia. cbn [mbind res_bind]. cbv zeta.
    destruct (_ >? _); by eexists. }
  destruct Hs as [x ->]. cbn [mbind res_bind]. destruct (_ && _); [done|]. apply IH. by apply Forall_drop.
Qed.

Definition streams_post (l : list decoder) (s : Z) (data buf pcm : list Z) (fsize : Z) : list decoder * list Z * Z -> Prop :=
  fun '(l', pcm', ret) =>
    streams_inv l' s /\ length l' = length l /\ len pcm' = len pcm /\
    (ret < 0 \/ 0 < ret <= fsize /\ (0 < s -> ret = fsize) /\ exists bufs,
       decoded l s data buf fsize l' bufs ret /\
       forall j c, 0 <= c < layout.(nb_channels) -> 0 <= j -> pcm'.[j * layout.(nb_channels) + c] =
         match part_of bufs s c j with
         | Some v => if j <? ret then v else pcm.[j * layout.(nb_channels) + c]
         | None => pcm.[j * layout.(nb_channels) + c]
         end).

(** One stream. *)
Lemma stream_native (d : decoder) s data buf fsize (plc : bool) k samples v :
  dec_inv rate d -> 0 <= s -> bytes data -> 0 < fsize -> fsize * d.(channels) <= len buf ->
  (if plc then data = [] else packet_validate_from (S k) s data layout.(nb_streams) rate samples = Ok v /\
     (fec = 0 -> 0 < s -> fsize = v)) ->
  negb plc && (len data <=? 0) = false /\
  must (opus_decode_native junk junk_dec d (Some data) (len data) buf 0 fsize fec (negb (s =? layout.(nb_streams) - 1)) (repeat 0 48))
    (fun '(d', buf', ret, off) =>
       dec_inv rate d' /\ d'.(channels) = d.(channels) /\ len buf' = len buf /\
       (ret < 0 \/ 0 < ret <= fsize /\ (0 < s -> ret = fsize) /\
        if plc then True else
          packet_validate_from k (s + 1) (drop (Z.to_nat off) data) layout.(nb_streams) rate v = Ok v /\
          (fec = 0 -> ret = v))).
Proof.
  intros Hd Hs Hb Hf Hbuf Hmode. destruct plc.
  - subst data. split; [done|]. change (len []) with 0. rewrite native_lost_sd.
    pose proof (sat_native_lost junk junk_dec d buf fsize fec Hd Hf Hbuf) as H1. unfold must in *.
    destruct (opus_decode_native _ _ _ _ _ _ _ _ _ _ _) as [[[[d' buf'] ret] off]|?|]; [|done..].
    destruct H1 as (Q1 & Q2 & [Q3 _] & Q4). unfold options_view in Q2. injection Q2 as Q2 _ _ _. split_and!; try done.
    destruct (_ && _); [right|left]; destruct Q4 as [-> _]; [|done]. split_and!; try done; lia.
  - destruct Hmode as [Hv Hfs]. destruct (validate_step k s data _ _ v Hs Hb Hv) as (Hl & r & Hr & Hn & Hv').
    split; [cbn [negb andb]; lia|].
    pose proof (sat_native junk junk_dec d data buf 0 fsize fec (negb (s =? nb_streams layout - 1)) (repeat 0 48) Hd Hb Hl) as H1.
    assert (Hroom : room data (len (repeat 0 48))) by (intros c _ Hc; change (len (repeat 0 48)) with 48; lia).
    specialize (H1 Hroom Hf ltac:(lia) ltac:(lia)). unfold must in *.
    destruct (opus_decode_native _ _ _ _ _ _ _ _ _ _ _) as [[[[d' buf'] ret] off]|?|] eqn:E1; [|done..].
    destruct H1 as (Q1 & Q2 & [Q3 _] & Q4). unfold options_view in Q2. injection Q2 as Q2 _ _ _. split_and!; try done.
    destruct Q4 as [|(Q4 & _ & Q5 & Q6 & Q7)]; [by left|right].
    pose proof (native_offset d data buf fsize _ _ d' buf' ret off r Hl Hr E1 ltac:(lia)) as ->.
    rewrite (proj1 (di_rate _ _ Hd)) in Q7.
    assert (Hret : fec = 0 -> ret = v).
    { intros Hf0. specialize (Q7 Hf0). destruct Hn as [Hn|Hn]; [congruence|]. by destruct (Hn ret). }
    split_and!; try done; [lia|lia|]. intros Hs0.
    assert (Hfec : fec = 0 \/ fec = 1).
    { unfold opus_decode_native in E1. destruct ((fec <? 0) || (fec >? 1)) eqn:E2; [injection E1 as _ _ <- _; unfold OPUS_BAD_ARG in Q4; lia|lia]. }
    destruct Hfec as [->|Hf1]; [rewrite Hfs, Hret; done|by apply Q6].
Qed.

Lemma streams_spec (plc : bool) l : forall s data buf pcm fsize samples v,
  1 <= layout.(nb_channels) -> streams_inv l s -> 0 <= s -> s + Z.of_nat (length l) = layout.(nb_streams) -> bytes data ->
  0 < fsize -> 2 * fsize <= len buf -> fsize * layout.(nb_channels) <= len pcm ->
  (if plc then data = [] else packet_validate_from (length l) s data layout.(nb_streams) rate samples = Ok v /\
     (fec = 0 -> 0 < s -> fsize = v)) ->
  must (ms_decode_streams junk junk_dec l s layout data buf pcm fsize fec plc) (streams_post l s data buf pcm fsize).
Proof.
  induction l as [|d rest IH]; intros s data buf pcm fsize samples v Hc Hl Hs Hn Hb Hf Hbuf Hpcm Hmode; cbn [ms_decode_streams].
  { apply must_ok. split_and!; try done. right. split_and!; [lia|lia|done|]. exists []. split; [constructor|done]. }
  destruct Hl as (Hd & Hch & Hrest). cbn [length] in Hn, Hmode.
  assert (Hch2 : d.(channels) = 1 \/ d.(channels) = 2) by (apply (di_channels _ _ Hd)).
  destruct (stream_native d s data buf fsize plc (length rest) samples v Hd Hs Hb Hf ltac:(nia) Hmode) as [-> Hnat].
  destruct (opus_decode_native _ _ _ _ _ _ _ _ _ _ _) as [[[[d' buf'] ret] off]|?|] eqn:E1; [|done..].
  destruct Hnat as (Q1 & Q2 & Q3 & Q4). cbn [mbind res_bind]. cbv zeta.
  destruct Q4 as [Q4|(Q4 & Q5 & Q6)].
  { destruct (Z.leb_spec ret 0); [|lia]. apply must_ok.
    assert (streams_inv (d' :: rest) s) by (cbn [streams_inv]; split_and!; [done|congruence|done]).
    split_and!; try done. by left. }
  destruct (Z.leb_spec ret 0); [lia|].
  eapply must_bind.
  { apply (copy_stream_spec layout s pcm buf' ret); [done|lia|nia|]. fold (stream_channels_of s). rewrite <- Hch, Q3. nia. }
  intros pcm1 [L1 E2].
  set (data1 := if negb plc then drop (Z.to_nat off) data else data).
  assert (Ed : data1 = drop (Z.to_nat off) data).
  { unfold data1. destruct plc; [|done]. cbn [negb]. rewrite Hmode. by rewrite drop_nil. }
  assert (Hb1 : bytes data1) by (rewrite Ed; by apply Forall_drop).
  assert (Hm1 : if plc then data1 = [] else packet_validate_from (length rest) (s + 1) data1 (nb_streams layout) rate v = Ok v /\
     (fec = 0 -> 0 < s + 1 -> ret = v)).
  { rewrite Ed. destruct plc; [rewrite Hmode; apply drop_nil|]. destruct Q6 as [Q6 Q7]. split; [done|auto]. }
  pose proof (IH (s + 1) data1 buf' pcm1 ret v v Hc Hrest ltac:(lia) ltac:(lia) Hb1 ltac:(lia) ltac:(lia) ltac:(nia) Hm1) as H2.
  eapply must_bind; [exact H2|]. intros [[rest' pcm2] ret2] (R1 & R2 & R3 & R4). apply must_ok.
  assert (streams_inv (d' :: rest') s) by (cbn [streams_inv]; split_and!; [done|congruence|done]).
  split_and!; [done|cbn [length]; lia|lia|].
  destruct R4 as [R4|(R4 & R5 & bufs & R6 & R7)]; [by left|right]. specialize (R5 ltac:(lia)). subst ret2.
  split_and!; [lia|lia|done|]. exists (buf' :: bufs). split; [econstructor; [exact E1|lia|by rewrite <- Ed]|].
  intros j c Hc' Hj. rewrite R7, E2 by done. cbn [part_of]. destruct (part_of bufs (s + 1) c j) as [w|]; [|done].
  destruct (Z.ltb_spec j ret); [done|]. by destruct (stream_part layout s buf' c j).
Qed.
End Streams.
