(* ===== verification/MultistreamProps.v ===== *)
(** * Properties of the multistream decoder and of channel layouts *)

From S2P Require Import Prelude FixedPoint Memory Packet PacketProofs EntropyInterface.
From S2P Require Import RangeCoder RangeSafe OpusDecode OpusDecodeProofs OpusDecodeFrame OpusProps.
From S2P Require Import Multistream MultistreamProofs.

(** ** Routing *)

Record layout_ok (l : ChannelLayout) : Prop := {
  lo_channels : 1 <= l.(nb_channels) <= 255;
  lo_coupled : 0 <= l.(nb_coupled_streams) <= l.(nb_streams);
  lo_streams : 1 <= l.(nb_streams);
  lo_max : l.(nb_streams) + l.(nb_coupled_streams) <= 255;
  lo_len : len l.(mapping) = l.(nb_channels);
  lo_mapping : forall c, 0 <= c < l.(nb_channels) ->
    0 <= l.(mapping).[c] < l.(nb_streams) + l.(nb_coupled_streams) \/ l.(mapping).[c] = 255
}.

(** The stream that carries the audio [m] of a layout, and a sample of it. *)
Definition owner (l : ChannelLayout) (m : Z) : Z :=
  if m <? 2 * l.(nb_coupled_streams) then m / 2 else m - l.(nb_coupled_streams).
Definition sample_of (l : ChannelLayout) (m : Z) (buf : list Z) (j : Z) : Z :=
  if m <? 2 * l.(nb_coupled_streams) then buf.[j * 2 + m mod 2] else buf.[j].

(** What a listener hears: sample [j] of channel [c], given the samples of all
    streams; 255 is a muted channel. *)
Definition output_sample (l : ChannelLayout) (bufs : list (list Z)) (c j : Z) : Z :=
  let m := l.(mapping).[c] in
  if m =? 255 then 0 else sample_of l m (nth (Z.to_nat (owner l m)) bufs []) j.

Lemma stream_part_owner l s buf c j : layout_ok l -> 0 <= s < l.(nb_streams) -> 0 <= c < l.(nb_channels) ->
  stream_part l s buf c j =
  if negb (l.(mapping).[c] =? 255) && (s =? owner l l.(mapping).[c]) then Some (sample_of l l.(mapping).[c] buf j) else None.
Proof.
  intros Hl Hs Hc. destruct Hl as [_ Hco _ Hmx _ Hm]. specialize (Hm c Hc). unfold stream_part, owner, sample_of. cbv zeta.
  set (m := (mapping l).[c]) in *. clearbody m.
  destruct (Z.ltb_spec s (nb_coupled_streams l)), (Z.ltb_spec m (2 * nb_coupled_streams l)), (Z.eqb_spec m 255); try lia; cbn [negb andb].
  - pose proof (Z.div_mod m 2 ltac:(lia)). pose proof (Z.mod_pos_bound m 2 ltac:(lia)).
    destruct (Z.eqb_spec m (s * 2)), (Z.eqb_spec m (s * 2 + 1)), (Z.eqb_spec s (m / 2)); try lia; [| |done].
    + replace (m mod 2) with 0 by lia. by rewrite Z.add_0_r.
    + replace (m mod 2) with 1 by lia. by rewrite Z.add_comm.
  - destruct (Z.eqb_spec m (s * 2)), (Z.eqb_spec m (s * 2 + 1)); try lia. done.
  - destruct (Z.eqb_spec m (s * 2)), (Z.eqb_spec m (s * 2 + 1)), (Z.eqb_spec s (m - nb_coupled_streams l)); try lia; done.
  - destruct (Z.eqb_spec m (s + nb_coupled_streams l)), (Z.eqb_spec s (m / 2)); try lia; [|done].
    pose proof (Z.div_mod m 2 ltac:(lia)). pose proof (Z.mod_pos_bound m 2 ltac:(lia)). lia.
  - destruct (Z.eqb_spec m (s + nb_coupled_streams l)); [lia|done].
  - destruct (Z.eqb_spec m (s + nb_coupled_streams l)), (Z.eqb_spec s (m - nb_coupled_streams l)); try lia; done.
Qed.

Lemma part_of_owner l c j bufs : layout_ok l -> 0 <= c < l.(nb_channels) ->
  forall s, 0 <= s -> s + Z.of_nat (length bufs) <= l.(nb_streams) ->
  part_of l bufs s c j =
  let m := l.(mapping).[c] in
  if negb (m =? 255) && (s <=? owner l m) && (owner l m <? s + Z.of_nat (length bufs))
  then Some (sample_of l m (nth (Z.to_nat (owner l m - s)) bufs []) j) else None.
Proof.
  intros Hl Hc. cbv zeta. set (m := (mapping l).[c]). induction bufs as [|b rest IH]; intros s Hs Hn; cbn [part_of length].
  { destruct (Z.leb_spec s (owner l m)), (Z.ltb_spec (owner l m) (s + Z.of_nat 0)); try lia; by rewrite ?andb_false_r. }
  cbn [length] in Hn. rewrite IH, stream_part_owner by (done || lia). fold m.
  destruct (m =? 255); cbn [negb andb]; [done|].
  destruct (Z.leb_spec (s + 1) (owner l m)), (Z.leb_spec s (owner l m)), (Z.ltb_spec (owner l m) (s + 1 + Z.of_nat (length rest))),
    (Z.ltb_spec (owner l m) (s + Z.of_nat (S (length rest)))), (Z.eqb_spec s (owner l m)); try lia; cbn [andb]; try done.
  - do 2 f_equal. replace (Z.to_nat (owner l m - s)) with (S (Z.to_nat (owner l m - (s + 1)))) by lia. done.
  - by replace (Z.to_nat (owner l m - s)) with O by lia.
Qed.

(** All streams together fill every channel that is not muted. *)
Lemma part_of_all l c j bufs : layout_ok l -> 0 <= c < l.(nb_channels) -> Z.of_nat (length bufs) = l.(nb_streams) ->
  part_of l bufs 0 c j = if l.(mapping).[c] =? 255 then None else Some (output_sample l bufs c j).
Proof.
  intros Hl Hc Hn. rewrite part_of_owner by (done || lia). cbv zeta. unfold output_sample. cbv zeta.
  pose proof (lo_mapping _ Hl c Hc) as Hm. destruct (Z.eqb_spec (mapping l).[c] 255); [done|]. cbn [negb andb].
  assert (Ho : 0 <= owner l (mapping l).[c] < nb_streams l).
  { pose proof (lo_coupled _ Hl). unfold owner. destruct (Z.ltb_spec (mapping l).[c] (2 * nb_coupled_streams l)); [|lia]. dlia. }
  destruct (Z.leb_spec 0 (owner l (mapping l).[c])), (Z.ltb_spec (owner l (mapping l).[c]) (0 + Z.of_nat (length bufs))); try lia.
  cbn [andb]. by rewrite Z.sub_0_r.
Qed.

(** What the initialisations check is enough. *)
Lemma checked_layout map chans streams coupled m : bytes map ->
  1 <= chans <= 255 -> 0 <= coupled <= streams -> 1 <= streams -> load map 0 chans = Ok m ->
  let layout := {| nb_channels := chans; nb_streams := streams; nb_coupled_streams := coupled; mapping := m |} in
  validate_layout layout = true -> layout_ok layout.
Proof.
  intros Hb Hc Hs H1 E2 layout E3.
  assert (Hm : bytes m /\ len m = chans).
  { revert E2. unfold load. destruct (Z.leb_spec chans 0); [lia|].
    destruct ((0 <=? 0) && (0 + chans <=? len map)) eqn:E6; [|done]. intros [= <-]. split.
    - unfold slice. by apply Forall_take, Forall_drop.
    - apply len_slice; lia. }
  destruct Hm as [Hm1 Hm2]. unfold validate_layout in E3. cbn [layout nb_channels nb_streams nb_coupled_streams mapping] in E3. cbv zeta in E3.
  destruct (Z.gtb_spec (streams + coupled) 255); [done|].
  split; cbn [layout nb_channels nb_streams nb_coupled_streams mapping]; try lia.
  intros c Hc'. rewrite forallb_forall in E3.
  rewrite take_ge in E3 by (unfold len in Hm2; lia).
  specialize (E3 m.[c]). pose proof (bytes_rd m c Hm1).
  assert (Hin : In m.[c] m). { unfold rd. destruct (Z.ltb_spec c 0); [lia|]. apply nth_In. unfold len in Hm2. lia. }
  specialize (E3 Hin). apply negb_true_iff, andb_false_iff in E3. lia.
Qed.

(** ** Decoders that calls of the API lead to *)

Section Reachable.
Context {rate : Z} `{L : SynthesisLaws rate SILK CELT} (junk : Z) (junk_dec : ec_ctx).
Abbreviation decoder := (OpusDecoder SILK CELT).
Abbreviation ms_decoder := (OpusMSDecoder SILK CELT).

Inductive ms_reachable : ms_decoder -> Prop :=
| ms_reach_init silk celt channels streams coupled_streams map st : bytes map ->
    opus_multistream_decoder_init silk celt rate channels streams coupled_streams map = Ok st -> ms_reachable st
| ms_reach_ctl st request : ms_reachable st -> ms_reachable (opus_multistream_decoder_ctl st request).1.1
| ms_reach_decode st data pcm fsize fec st' pcm' ret :
    ms_reachable st -> bytes data -> fsize * st.(ms_layout).(nb_channels) <= len pcm ->
    opus_multistream_decode junk junk_dec st data pcm fsize fec = Ok (st', pcm', ret) -> ms_reachable st'.

Record ms_inv (st : ms_decoder) : Prop := {
  mi_layout : layout_ok st.(ms_layout);
  mi_count : Z.of_nat (length st.(ms_decoders)) = st.(ms_layout).(nb_streams);
  mi_streams : streams_inv (rate := rate) st.(ms_layout) st.(ms_decoders) 0
}.

Lemma init_streams layout silk celt n : forall i (l : list decoder), 0 <= i ->
  init_decoders n i layout.(nb_coupled_streams) rate silk celt = Ok l ->
  length l = n /\ streams_inv (rate := rate) layout l i.
Proof.
  induction n as [|n IH]; intros i l Hi; cbn [init_decoders]; [by intros [= <-]|].
  destruct (opus_decoder_init silk celt rate (if i <? nb_coupled_streams layout then 2 else 1)) as [d|?|] eqn:E1; [|done..].
  cbn [mbind res_bind]. destruct (init_decoders n (i + 1) _ _ _ _) as [l'|?|] eqn:E2; [|done..]. intros [= <-].
  destruct (IH (i + 1) l' ltac:(lia) E2) as [<- H2]. split; [done|]. cbn [streams_inv]. split_and!; [|unfold stream_channels_of|done].
  - by apply (OpusProps.init_inv silk celt _ d E1).
  - revert E1. unfold opus_decoder_init. destruct (_ || _); [done|]. by intros [= <-].
Qed.

Lemma ms_init_inv silk celt chans streams coupled map (st : ms_decoder) : bytes map ->
  opus_multistream_decoder_init silk celt rate chans streams coupled map = Ok st -> ms_inv st.
Proof.
  intros Hb. unfold opus_multistream_decoder_init.
  match goal with |- context [if ?b then _ else _] => destruct b eqn:E1 end; [done|].
  rewrite !orb_false_iff in E1.
  destruct (load map 0 chans) as [m|?|] eqn:E2; [|done..]. cbn [mbind res_bind]. cbv zeta.
  set (layout := {| nb_channels := chans; nb_streams := streams; nb_coupled_streams := coupled; mapping := m |}).
  destruct (validate_layout layout) eqn:E3; [|done]. cbn [negb].
  destruct (init_decoders _ _ _ _ _ _) as [l|?|] eqn:E4; [|done..]. intros [= <-].
  destruct (init_streams layout silk celt (Z.to_nat streams) 0 l ltac:(lia) E4) as [E5 H5].
  split; [|cbn; lia|done]. apply (checked_layout map); done || lia.
Qed.

Lemma ctl_channels (d : decoder) request : channels (opus_decoder_ctl d request).1.1 = channels d.
Proof. by destruct request; cbn [opus_decoder_ctl fst]; repeat (destruct (_ || _)); unfold celt_decoder_ctl; repeat (destruct (_ =? _)). Qed.

Lemma ctl_streams_inv layout request (l : list decoder) : forall s, streams_inv (rate := rate) layout l s ->
  streams_inv (rate := rate) layout (ctl_streams l request).1 s /\ length (ctl_streams l request).1 = length l.
Proof.
  induction l as [|d rest IH]; intros s; cbn [ctl_streams]; [done|]. intros (H1 & H2 & H3).
  pose proof (OpusProps.ctl_inv d request H1) as Hi. pose proof (ctl_channels d request) as Hc.
  destruct (opus_decoder_ctl d request) as [[d' ret] out]. cbn [fst] in *.
  destruct (negb (ret =? OPUS_OK)); cbn [fst streams_inv length]; [split_and!; try done; congruence|].
  destruct (IH (s + 1) H3) as [H4 H5]. destruct (ctl_streams rest request) as [rest' ret'].
  cbn [fst streams_inv length] in *. split_and!; try done; congruence.
Qed.

Lemma streams_inv_insert layout (d d0 : decoder) l : forall s i, streams_inv (rate := rate) layout l s -> l !! i = Some d0 ->
  dec_inv rate d -> channels d = channels d0 -> streams_inv (rate := rate) layout (<[i := d]> l) s.
Proof.
  induction l as [|x rest IH]; intros s i Hl Hi Hd Hc; [done|]. destruct Hl as (H1 & H2 & H3).
  destruct i as [|i]; cbn in Hi |- *; [simplify_eq; split_and!; try done; congruence|]. split_and!; try done. by apply IH.
Qed.

Lemma streams_lookup layout (l : list decoder) : forall s i d, streams_inv (rate := rate) layout l s -> l !! i = Some d -> dec_inv rate d.
Proof.
  induction l as [|x rest IH]; intros s i d Hl Hi; [done|]. destruct Hl as (H1 & _ & H3).
  destruct i; cbn in Hi; [by simplify_eq|by eapply IH].
Qed.

Lemma ms_ctl_inv (st : ms_decoder) request : ms_inv st -> ms_inv (opus_multistream_decoder_ctl st request).1.1.
Proof.
  intros Hst. pose proof Hst as [H1 H2 H3]. destruct request as [r|i r]; cbn [opus_multistream_decoder_ctl]; cbv zeta.
  - assert (Hall : ms_inv (let '(l, ret) := ctl_streams (ms_decoders st) r in (Build_OpusMSDecoder (ms_layout st) l, ret, None : option Z)).1.1).
    { destruct (ctl_streams_inv (ms_layout st) r (ms_decoders st) 0 H3) as [H4 H5].
      destruct (ctl_streams (ms_decoders st) r) as [l ret]. cbn [fst] in *. split; cbn; [done|lia|done]. }
    destruct r; try exact Hall; try done; by destruct (ms_decoders st).
  - destruct (_ || _); [done|]. destruct (ms_decoders st !! Z.to_nat i) as [d|] eqn:E1; [|done].
    pose proof (OpusProps.ctl_inv d r (streams_lookup _ _ _ _ _ H3 E1)) as Hi. pose proof (ctl_channels d r) as Hc.
    destruct (opus_decoder_ctl d r) as [[d' ret] out]. cbn [fst] in *. split; cbn; [done|by rewrite length_insert|].
    by eapply streams_inv_insert.
Qed.

Lemma decoded_length layout fec l s data buf fsize l' bufs n :
  decoded junk junk_dec layout fec l s data buf fsize l' bufs n -> length bufs = length l.
Proof. induction 1; cbn [length]; congruence. Qed.

Definition ms_post (st : ms_decoder) (data pcm : list Z) (fsize fec : Z) : ms_decoder * list Z * Z -> Prop :=
  fun '(st', pcm', ret) =>
    let layout := st.(ms_layout) in
    ms_inv st' /\ st'.(ms_layout) = layout /\ len pcm' = len pcm /\
    (ret < 0 \/ 0 < ret <= fsize /\ exists bufs,
       let size := Z.min fsize (rate / 25 * 3) in
       decoded junk junk_dec layout fec st.(ms_decoders) 0 data (repeat junk (Z.to_nat (2 * size))) size st'.(ms_decoders) bufs ret /\
       forall c j, 0 <= c < layout.(nb_channels) -> 0 <= j ->
         pcm'.[j * layout.(nb_channels) + c] =
         if j <? ret then output_sample layout bufs c j else pcm.[j * layout.(nb_channels) + c]).

Lemma ms_rate_inv (st : ms_decoder) : ms_inv st -> ms_rate st = rate.
Proof.
  intros [H1 H2 H3]. pose proof (lo_streams _ H1). unfold ms_rate. destruct (ms_decoders st) as [|d rest]; [cbn in H2; lia|].
  destruct H3 as (Hd & _). apply (di_rate _ _ Hd).
Qed.

Lemma ms_run (st : ms_decoder) data pcm fsize fec (plc : bool) v :
  ms_inv st -> bytes data -> 0 < fsize -> fsize * st.(ms_layout).(nb_channels) <= len pcm ->
  (if plc then data = [] else packet_validate_from (length st.(ms_decoders)) 0 data st.(ms_layout).(nb_streams) rate 0 = Ok v) ->
  let layout := st.(ms_layout) in
  let size := Z.min fsize (rate / 25 * 3) in
  must ('(l, pcm, ret) ← ms_decode_streams junk junk_dec st.(ms_decoders) 0 layout data (repeat junk (Z.to_nat (2 * size))) pcm size fec plc;
        let st := Build_OpusMSDecoder layout l in
        if ret <=? 0 then Ok (st, pcm, ret)
        else pcm ← mute_channels (Z.to_nat layout.(nb_channels)) 0 layout pcm ret; Ok (st, pcm, ret))
    (ms_post st data pcm fsize fec).
Proof.
  intros [H1 H2 H3] Hb Hf Hl Hmode layout size. fold layout in H1, H2, H3, Hl, Hmode.
  pose proof (lo_channels _ H1) as Hc. pose proof (lo_streams _ H1) as Hn.
  assert (Hr : In rate rates). { destruct (ms_decoders st) as [|d rest]; [cbn in H2; lia|]. destruct H3 as (Hd & _). apply (di_rate _ _ Hd). }
  assert (Hr3 : 0 < rate / 25 * 3) by (clear -Hr; destruct Hr as [<-|[<-|[<-|[<-|[<-|[]]]]]]; by vm_compute).
  assert (Hs : 0 < size <= fsize) by (unfold size; lia).
  assert (Hm : if plc then data = [] else packet_validate_from (length (ms_decoders st)) 0 data (nb_streams layout) rate 0 = Ok v /\
    (fec = 0 -> 0 < 0 -> size = v)) by (destruct plc; [done|split; [done|lia]]).
  eapply must_bind.
  { apply (streams_spec junk junk_dec layout fec plc (ms_decoders st) 0 data (repeat junk (Z.to_nat (2 * size))) pcm size 0 v);
      try done; try lia; [rewrite len_repeat_Z; lia|nia]. }
  intros [[l' pcm1] ret] (R1 & R2 & R3 & R4). cbv zeta. destruct R4 as [R4|(R4 & _ & bufs & R6 & R7)].
  { destruct (Z.leb_spec ret 0); [|lia]. apply must_ok. split_and!; try done; [split; cbn; [done|lia|done]|by left]. }
  destruct (Z.leb_spec ret 0); [lia|].
  eapply must_bind; [apply (mute_spec layout ret (Z.to_nat (nb_channels layout)) 0 pcm1); lia || nia|].
  intros pcm2 [L2 E2]. apply must_ok. split_and!; try done; [split; cbn; [done|lia|done]|lia|]. right. split; [lia|].
  exists bufs. cbv zeta. fold size. split; [exact R6|]. intros c j Hc' Hj. rewrite E2, R7 by done.
  rewrite part_of_all by (done || (rewrite (decoded_length _ _ _ _ _ _ _ _ _ _ R6); lia)).
  destruct (Z.leb_spec 0 c); [|lia]. cbn [andb]. destruct (Z.eqb_spec (mapping layout).[c] 255) as [E|E]; cbn [andb]; [|done].
  unfold output_sample. cbv zeta. fold layout. rewrite E, Z.eqb_refl. done.
Qed.

Lemma ms_decode_spec (st : ms_decoder) data pcm fsize fec :
  ms_inv st -> bytes data -> 0 < fsize -> fsize * st.(ms_layout).(nb_channels) <= len pcm ->
  must (opus_multistream_decode junk junk_dec st data pcm fsize fec) (ms_post st data pcm fsize fec).
Proof.
  intros Hst Hb Hf Hl. unfold opus_multistream_decode. destruct (Z.leb_spec fsize 0); [lia|]. cbv zeta.
  rewrite (ms_rate_inv st Hst). pose proof Hst as [H1 H2 H3].
  assert (Hfail : forall c, c < 0 -> ms_post st data pcm fsize fec (st, pcm, c)) by (intros c Hc; split_and!; try done; by left).
  destruct (_ && _); [by apply must_ok, Hfail|].
  destruct (Z.eqb_spec (len data) 0) as [E1|E1].
  - apply (ms_run st data pcm fsize fec true 0); try done. destruct data; [done|]. unfold len in E1. cbn in E1. lia.
  - unfold opus_multistream_packet_validate. rewrite <- H2, Nat2Z.id.
    pose proof (validate_sat (rate := rate) (length (ms_decoders st)) 0 data (Z.of_nat (length (ms_decoders st))) 0 Hb) as Hv.
    destruct (packet_validate_from _ _ _ _ _ _) as [v|c|] eqn:E2; [|by apply must_ok, Hfail|done].
    destruct (Z.ltb_spec v 0); [by apply must_ok, Hfail|]. destruct (_ >? _); [by apply must_ok, Hfail|].
    rewrite H2 in E2. exact (ms_run st data pcm fsize fec false v Hst Hb Hf Hl E2).
Qed.

Lemma ms_reachable_inv (st : ms_decoder) : ms_reachable st -> ms_inv st.
Proof.
  induction 1 as [silk celt chans streams coupled map st Hb Hi|st request _ IH|st data pcm fsize fec st' pcm' ret _ IH Hb Hl Hd].
  - by eapply ms_init_inv.
  - by apply ms_ctl_inv.
  - destruct (Z.leb_spec fsize 0) as [Hf|Hf].
    + unfold opus_multistream_decode in Hd. destruct (Z.leb_spec fsize 0); [by simplify_eq|lia].
    + pose proof (ms_decode_spec st data pcm fsize fec IH Hb Hf Hl) as Hs. rewrite Hd in Hs. by destruct Hs.
Qed.

(** (C13) A multistream decoder in any state that calls of the API can bring it to, given any bytes as a packet (none:
    a lost packet) and a buffer of [frame_size] samples per channel: no access is outside the packet or a buffer; the
    call returns an error, or a number of samples at most [frame_size] such that every channel of the output holds what
    the stream its mapping names decoded (left or right for a coupled stream, silence for 255), whatever the mapping,
    and nothing is written beyond. *)
Theorem multistream_routes st data pcm frame_size fec :
  ms_reachable st -> bytes data -> 0 < frame_size -> frame_size * st.(ms_layout).(nb_channels) <= len pcm ->
  must (opus_multistream_decode junk junk_dec st data pcm frame_size fec) (fun '(st', pcm', ret) =>
    let layout := st.(ms_layout) in
    st'.(ms_layout) = layout /\ len pcm' = len pcm /\
    (ret < 0 \/ 0 < ret <= frame_size /\ exists bufs,
       let size := Z.min frame_size (rate / 25 * 3) in
       decoded junk junk_dec layout fec st.(ms_decoders) 0 data (repeat junk (Z.to_nat (2 * size))) size
         st'.(ms_decoders) bufs ret /\
       forall c j, 0 <= c < layout.(nb_channels) -> 0 <= j ->
         pcm'.[j * layout.(nb_channels) + c] =
         if j <? ret then output_sample layout bufs c j else pcm.[j * layout.(nb_channels) + c])).
Proof.
  intros Hst Hb Hf Hl. eapply must_impl; [exact (ms_decode_spec st data pcm frame_size fec (ms_reachable_inv st Hst) Hb Hf Hl)|].
  intros [[st' pcm'] ret] (_ & Hpost). exact Hpost.
Qed.
End Reachable.

(** Two streams at 8 kHz, the first one stereo, on five channels: right, the
    mono stream, a muted channel, left, and the mono stream again. *)
Definition ms_8k : OpusMSDecoder unit unit :=
  match opus_multistream_decoder_init tt tt 8000 5 2 1 [1; 2; 255; 0; 2] with
  | Ok st => st
  | _ => Build_OpusMSDecoder (Build_ChannelLayout 0 0 0 []) []
  end.

Lemma ms_8k_reachable : ms_reachable (H := silence) (rate := 8000) 0 (ec_dec_init [] 0) ms_8k.
Proof.
  apply (ms_reach_init (H := silence) _ _ tt tt 5 2 1 [1; 2; 255; 0; 2]); [repeat constructor; lia|reflexivity].
Qed.

Definition ms_packet : list Z := [12; 2; 7; 7; 8; 1].

Lemma multistream_routes_witness :
  must (opus_multistream_decode 0 (ec_dec_init [] 0) ms_8k ms_packet (repeat 5 1000) 200 0) (fun '(st', pcm', ret) =>
    let layout := ms_8k.(ms_layout) in
    st'.(ms_layout) = layout /\ len pcm' = len (repeat 5 1000) /\
    (ret < 0 \/ 0 < ret <= 200 /\ exists bufs,
       let size := Z.min 200 (8000 / 25 * 3) in
       decoded 0 (ec_dec_init [] 0) layout 0 ms_8k.(ms_decoders) 0 ms_packet (repeat 0 (Z.to_nat (2 * size))) size
         st'.(ms_decoders) bufs ret /\
       forall c j, 0 <= c < layout.(nb_channels) -> 0 <= j ->
         pcm'.[j * layout.(nb_channels) + c] =
         if j <? ret then output_sample layout bufs c j else (repeat 5 1000).[j * layout.(nb_channels) + c])).
Proof.
  exact (multistream_routes (rate := 8000) 0 (ec_dec_init [] 0) ms_8k ms_packet (repeat 5 1000) 200 0 ms_8k_reachable
    ltac:(repeat constructor; lia) ltac:(lia) ltac:(vm_compute; discriminate)).
Defined.

(** A run, in which both streams last 20 ms. *)
Example ms_decode_run :
  match opus_multistream_decode (H := silence) 0 (ec_dec_init [] 0) ms_8k ms_packet (repeat 5 1000) 200 0 with
  | Ok (st', pcm', ret) => ret = 160 /\ pcm' = repeat 0 800 ++ repeat 5 200
  | _ => False
  end.
Proof. by vm_compute. Qed.
