(* ===== verification/MsEncoder.v ===== *)
(** * The multistream encoder (src/opus_multistream_encoder.c)

    Layouts of the mapping families, the rates of the streams, and the packet:
    each stream is encoded from its channels and its packet is rewritten behind the
    ones before it, self-delimited but for the last.  How a stream is encoded is
    the class [StreamEncode]; the surround analysis is an input. *)

From S2P Require Import Prelude FixedPoint Memory Packet MathOps Repacketizer OpusControl OpusDecide OpusEncoder Multistream.

(** ** Layouts *)

Inductive MappingType := MAPPING_TYPE_NONE | MAPPING_TYPE_SURROUND | MAPPING_TYPE_AMBISONICS.

Definition is_surround (t : MappingType) : bool := match t with MAPPING_TYPE_SURROUND => true | _ => false end.
Definition is_ambisonics (t : MappingType) : bool := match t with MAPPING_TYPE_AMBISONICS => true | _ => false end.

(** The streams and the coupled streams, [None] for a refusal. *)
Definition validate_ambisonics (nb_channels : Z) : option (Z * Z) :=
  if (nb_channels <? 1) || (nb_channels >? 227) then None
  else
    let order_plus_one := isqrt32 nb_channels in
    let acn_channels := order_plus_one * order_plus_one in
    let nondiegetic_channels := nb_channels - acn_channels in
    if negb (nondiegetic_channels =? 0) && negb (nondiegetic_channels =? 2) then None
    else Some (acn_channels + b2z (negb (nondiegetic_channels =? 0)), b2z (negb (nondiegetic_channels =? 0))).

(** Every stream has channels to encode. *)
Fixpoint validate_from (n : nat) (s : Z) (layout : ChannelLayout) : bool :=
  match n with
  | O => true
  | S n =>
      if s <? layout.(nb_coupled_streams) then
        if get_left_channel layout s (-1) =? -1 then false
        else if get_right_channel layout s (-1) =? -1 then false
        else validate_from n (s + 1) layout
      else if get_mono_channel layout s (-1) =? -1 then false
      else validate_from n (s + 1) layout
  end.
Definition validate_encoder_layout (layout : ChannelLayout) : bool :=
  validate_from (Z.to_nat layout.(nb_streams)) 0 layout.

Definition vorbis_mappings : list (Z * Z * list Z) :=
  [(1, 0, [0]); (1, 1, [0; 1]); (2, 1, [0; 2; 1]); (2, 2, [0; 1; 2; 3]); (3, 2, [0; 4; 1; 2; 3]);
   (4, 2, [0; 4; 1; 2; 3; 5]); (4, 3, [0; 4; 1; 2; 3; 5; 6]); (5, 3, [0; 6; 1; 2; 3; 4; 5; 7])].

(** The numbers [0], [1], ... below [n]. *)
Definition zseq (n : Z) : list Z := map Z.of_nat (seq 0 (Z.to_nat n)).

(** What a mapping family prescribes: streams, coupled streams, mapping, LFE stream. *)
Definition family_layout (channels mapping_family : Z) : res (Z * Z * list Z * Z) :=
  if mapping_family =? 0 then
    if channels =? 1 then Ok (1, 0, [0], -1)
    else if channels =? 2 then Ok (1, 1, [0; 1], -1)
    else Err OPUS_UNIMPLEMENTED
  else if (mapping_family =? 1) && (channels <=? 8) && (channels >=? 1) then
    let '(streams, coupled_streams, mapping) := nth (Z.to_nat (channels - 1)) vorbis_mappings (0, 0, []) in
    Ok (streams, coupled_streams, mapping, if channels >=? 6 then streams - 1 else -1)
  else if mapping_family =? 255 then Ok (channels, 0, zseq channels, -1)
  else if mapping_family =? 2 then
    match validate_ambisonics channels with
    | None => Err OPUS_BAD_ARG
    | Some (streams, coupled_streams) =>
        Ok (streams, coupled_streams,
            map (Z.add (coupled_streams * 2)) (zseq (streams - coupled_streams)) ++ zseq (coupled_streams * 2), -1)
    end
  else Err OPUS_UNIMPLEMENTED.

(** ** The encoder *)

Record OpusMSEncoder (SILK CELT : Type) := {
  me_layout : ChannelLayout;
  me_lfe_stream : Z;
  me_application : Z;
  me_variable_duration : Z;
  me_mapping_type : MappingType;
  me_bitrate_bps : Z;
  me_encoders : list (OpusEncoder SILK CELT)
}.
Arguments me_layout {_ _} _.
Arguments me_lfe_stream {_ _} _.
Arguments me_application {_ _} _.
Arguments me_variable_duration {_ _} _.
Arguments me_mapping_type {_ _} _.
Arguments me_bitrate_bps {_ _} _.
Arguments me_encoders {_ _} _.
Arguments Build_OpusMSEncoder {_ _} _ _ _ _ _ _ _.

(** [opus_encode_native] of one stream: 16-bit samples, the frame size and the
    room for the packet. *)
Class StreamEncode (SILK CELT : Type) := {
  stream_encode : OpusEncoder SILK CELT -> list Z -> Z -> Z -> OpusEncoder SILK CELT * res (list Z)
}.

Section MsEncoder.
Context `{EncoderParts SILK CELT} `{!StreamEncode SILK CELT} (junk : Z).
Abbreviation encoder := (OpusEncoder SILK CELT).
Abbreviation ms_encoder := (OpusMSEncoder SILK CELT).

Definition ctl (enc : encoder) (request : encoder_request) : encoder := (opus_encoder_ctl enc request).1.1.

(** ** Creation *)

Fixpoint init_encoders (n : nat) (i coupled_streams Fs application lfe_stream : Z) (celt : CELT) : res (list encoder) :=
  match n with
  | O => Ok []
  | S n =>
      e ← opus_encoder_init celt Fs (if i <? coupled_streams then 2 else 1) application;
      let e := if i =? lfe_stream then ctl e (ENC_SET_LFE 1) else e in
      l ← init_encoders n (i + 1) coupled_streams Fs application lfe_stream celt;
      Ok (e :: l)
  end.

Definition opus_multistream_encoder_init_impl (celt : CELT) (Fs channels streams coupled_streams : Z) (map : list Z)
    (application lfe_stream : Z) (mapping_type : MappingType) : res ms_encoder :=
  if (channels >? 255) || (channels <? 1) || (coupled_streams >? streams) || (streams <? 1) || (coupled_streams <? 0)
     || (streams >? 255 - coupled_streams) || (streams + coupled_streams >? channels) then Err OPUS_BAD_ARG
  else
    map ← load map 0 channels;
    let layout := {| nb_channels := channels; nb_streams := streams; nb_coupled_streams := coupled_streams;
                     mapping := map |} in
    let lfe_stream := if is_surround mapping_type then lfe_stream else -1 in
    if negb (validate_layout layout) then Err OPUS_BAD_ARG
    else if negb (validate_encoder_layout layout) then Err OPUS_BAD_ARG
    else if is_ambisonics mapping_type && match validate_ambisonics channels with None => true | Some _ => false end
    then Err OPUS_BAD_ARG
    else
      l ← init_encoders (Z.to_nat streams) 0 coupled_streams Fs application lfe_stream celt;
      Ok {| me_layout := layout; me_lfe_stream := lfe_stream; me_application := application;
            me_variable_duration := OPUS_FRAMESIZE_ARG; me_mapping_type := mapping_type; me_bitrate_bps := OPUS_AUTO;
            me_encoders := l |}.

Definition opus_multistream_encoder_init (celt : CELT) (Fs channels streams coupled_streams : Z) (mapping : list Z)
    (application : Z) : res ms_encoder :=
  opus_multistream_encoder_init_impl celt Fs channels streams coupled_streams mapping application (-1) MAPPING_TYPE_NONE.

Definition opus_multistream_surround_encoder_init (celt : CELT) (Fs channels mapping_family application : Z)
    : res ms_encoder :=
  if (channels >? 255) || (channels <? 1) then Err OPUS_BAD_ARG
  else
    '(streams, coupled_streams, mapping, lfe_stream) ← family_layout channels mapping_family;
    let mapping_type :=
      if (channels >? 2) && (mapping_family =? 1) then MAPPING_TYPE_SURROUND
      else if mapping_family =? 2 then MAPPING_TYPE_AMBISONICS else MAPPING_TYPE_NONE in
    opus_multistream_encoder_init_impl celt Fs channels streams coupled_streams mapping application lfe_stream mapping_type.

(** ** Rates *)

Definition surround_rate_allocation (st : ms_encoder) (frame_size Fs : Z) : list Z :=
  let layout := st.(me_layout) in
  let nb_lfe := b2z (negb (st.(me_lfe_stream) =? -1)) in
  let nb_coupled := layout.(nb_coupled_streams) in
  let nb_uncoupled := layout.(nb_streams) - nb_coupled - nb_lfe in
  let nb_normal := 2 * nb_coupled + nb_uncoupled in
  let channel_offset := 40 * Z.max 50 (Fs / frame_size) in
  let bitrate :=
    if st.(me_bitrate_bps) =? OPUS_AUTO then nb_normal * (channel_offset + Fs + 10000) + 8000 * nb_lfe
    else if st.(me_bitrate_bps) =? OPUS_BITRATE_MAX then nb_normal * 300000 + nb_lfe * 128000
    else st.(me_bitrate_bps) in
  let lfe_offset := Z.min (Z.quot bitrate 20) 3000 + 15 * Z.max 50 (Fs / frame_size) in
  let stream_offset := Z.quot (Z.quot (bitrate - channel_offset * nb_normal - lfe_offset * nb_lfe) nb_normal) 2 in
  let stream_offset := Z.max 0 (Z.min 20000 stream_offset) in
  let coupled_ratio := 512 in
  let lfe_ratio := 32 in
  let total := Z.shiftl nb_uncoupled 8 + coupled_ratio * nb_coupled + nb_lfe * lfe_ratio in
  let channel_rate :=
    Z.quot (256 * (bitrate - lfe_offset * nb_lfe - stream_offset * (nb_coupled + nb_uncoupled) - channel_offset * nb_normal)) total in
  map (fun i =>
    if i <? layout.(nb_coupled_streams) then
      2 * channel_offset + Z.max 0 (stream_offset + Z.shiftr (channel_rate * coupled_ratio) 8)
    else if negb (i =? st.(me_lfe_stream)) then channel_offset + Z.max 0 (stream_offset + channel_rate)
    else Z.max 0 (lfe_offset + Z.shiftr (channel_rate * lfe_ratio) 8)) (zseq layout.(nb_streams)).

Definition ambisonics_rate_allocation (st : ms_encoder) (frame_size Fs : Z) : list Z :=
  let layout := st.(me_layout) in
  let nb_channels := layout.(nb_streams) + layout.(nb_coupled_streams) in
  let total_rate :=
    if st.(me_bitrate_bps) =? OPUS_AUTO then
      (layout.(nb_coupled_streams) + layout.(nb_streams)) * (Fs + 60 * Fs / frame_size) + layout.(nb_streams) * 15000
    else if st.(me_bitrate_bps) =? OPUS_BITRATE_MAX then nb_channels * 320000
    else st.(me_bitrate_bps) in
  let per_stream_rate := Z.quot total_rate layout.(nb_streams) in
  map (fun _ => per_stream_rate) (zseq layout.(nb_streams)).

(** The rates of the streams; their sum is the return value. *)
Definition rate_allocation (st : ms_encoder) (frame_size Fs : Z) : list Z :=
  map (Z.max 500) (if is_ambisonics st.(me_mapping_type) then ambisonics_rate_allocation st frame_size Fs
                   else surround_rate_allocation st frame_size Fs).

(** What a stream is told before a packet. *)
Definition prepare_stream (st : ms_encoder) (frame_size Fs s bitrate : Z) (enc : encoder) : encoder :=
  let n := st.(me_layout).(nb_channels) in
  let enc := ctl enc (ENC_SET_BITRATE bitrate) in
  if is_surround st.(me_mapping_type) then
    let equiv_rate := st.(me_bitrate_bps) in
    let equiv_rate := if frame_size * 50 <? Fs then equiv_rate - 60 * (Fs / frame_size - 50) * n else equiv_rate in
    let enc := ctl enc (ENC_SET_BANDWIDTH
      (if equiv_rate >? 10000 * n then OPUS_BANDWIDTH_FULLBAND
       else if equiv_rate >? 7000 * n then OPUS_BANDWIDTH_SUPERWIDEBAND
       else if equiv_rate >? 5000 * n then OPUS_BANDWIDTH_WIDEBAND else OPUS_BANDWIDTH_NARROWBAND)) in
    if s <? st.(me_layout).(nb_coupled_streams)
    then ctl (ctl enc (ENC_SET_FORCE_MODE MODE_CELT_ONLY)) (ENC_SET_FORCE_CHANNELS 2) else enc
  else if is_ambisonics st.(me_mapping_type) then ctl enc (ENC_SET_FORCE_MODE MODE_CELT_ONLY)
  else enc.

Fixpoint prepare_streams (st : ms_encoder) (frame_size Fs s : Z) (bitrates : list Z) (l : list encoder) : list encoder :=
  match l with
  | [] => []
  | enc :: rest =>
      prepare_stream st frame_size Fs s bitrates.[s] enc :: prepare_streams st frame_size Fs (s + 1) bitrates rest
  end.

(** ** Input *)

(** [opus_copy_channel_in_short] to [dst] from [o] on. *)
Fixpoint copy_in (n : nat) (i : Z) (dst : list Z) (o dst_stride : Z) (src : list Z) (src_stride src_channel : Z) : res (list Z) :=
  match n with
  | O => Ok dst
  | S n =>
      x ← get src (i * src_stride + src_channel);
      dst ← put dst (o + i * dst_stride) x;
      copy_in n (i + 1) dst o dst_stride src src_stride src_channel
  end.
Definition opus_copy_channel_in_short (dst : list Z) (o dst_stride : Z) (src : list Z) (src_stride src_channel frame_size : Z)
    : res (list Z) := copy_in (Z.to_nat frame_size) 0 dst o dst_stride src src_stride src_channel.

(** The samples of stream [s] and the channels they are from (the second is [-1] for mono). *)
Definition stream_input (layout : ChannelLayout) (s : Z) (buf pcm : list Z) (frame_size : Z) : res (list Z * Z * Z) :=
  if s <? layout.(nb_coupled_streams) then
    let left_ := get_left_channel layout s (-1) in
    let right_ := get_right_channel layout s (-1) in
    buf ← opus_copy_channel_in_short buf 0 2 pcm layout.(nb_channels) left_ frame_size;
    buf ← opus_copy_channel_in_short buf 1 2 pcm layout.(nb_channels) right_ frame_size;
    Ok (buf, left_, right_)
  else
    let chan := get_mono_channel layout s (-1) in
    buf ← opus_copy_channel_in_short buf 0 1 pcm layout.(nb_channels) chan frame_size;
    Ok (buf, chan, -1).

(** The energy masks of its channels. *)
Definition stream_mask (bandSMR : list Z) (c1 c2 : Z) : res (list Z) :=
  a ← load bandSMR (21 * c1) 21;
  if c2 =? -1 then Ok a else b ← load bandSMR (21 * c2) 21; Ok (a ++ b).

(** ** The packet *)

Definition MS_FRAME_TMP : Z := 6 * 1275 + 12.

Definition smallest_packet (nb_streams frame_size Fs : Z) : Z :=
  nb_streams * 2 - 1 + (if Fs / frame_size =? 10 then nb_streams else 0).

(** The room that a constant bit rate leaves. *)
Definition cbr_room (st : ms_encoder) (vbr : bool) (frame_size Fs rate_sum max_data_bytes : Z) : Z :=
  if vbr then max_data_bytes
  else if st.(me_bitrate_bps) =? OPUS_AUTO then Z.min max_data_bytes (Z.quot (3 * rate_sum) (3 * 8 * Fs / frame_size))
  else if negb (st.(me_bitrate_bps) =? OPUS_BITRATE_MAX) then
    Z.min max_data_bytes (Z.max (smallest_packet st.(me_layout).(nb_streams) frame_size Fs)
      (Z.quot (3 * st.(me_bitrate_bps)) (3 * 8 * Fs / frame_size)))
  else max_data_bytes.

(** What stream [s] may use: all that the streams behind it do not need. *)
Definition stream_room (nb_streams s frame_size Fs left_ : Z) : Z :=
  let curr_max := left_ - Z.max 0 (2 * (nb_streams - s - 1) - 1) in
  let curr_max := if Fs / frame_size =? 10 then curr_max - (nb_streams - s - 1) else curr_max in
  Z.min curr_max MS_FRAME_TMP.

(** "Repacketizer will add one or two bytes for self-delimited frames" *)
Definition encode_room (nb_streams s curr_max : Z) : Z :=
  if negb (s =? nb_streams - 1) then curr_max - (if curr_max >? 253 then 2 else 1) else curr_max.

(** The packet of one stream, in [tmp_data] (a block behind the output), rewritten at
    [tot_size] of [data].  The code does not look at the result of the last call: an
    error in it, which would move the output backwards, is a fault here. *)
Definition pack_stream (packet data : list Z) (tot_size max_data_bytes : Z) (self_delimited pad : bool) : res (list Z * Z) :=
  let n := Prelude.len data in
  '(rp, ret) ← opus_repacketizer_cat (data ++ packet) (opus_repacketizer_init rp_alloc) n (Prelude.len packet);
  if negb (ret =? OPUS_OK) then Err OPUS_INTERNAL_ERROR
  else
    match opus_repacketizer_out_range_impl (data ++ packet) rp 0 (opus_repacketizer_get_nb_frames rp) tot_size
            (max_data_bytes - tot_size) self_delimited pad [] with
    | Ok (mem, ret) => Ok (take (Z.to_nat n) mem, ret)
    | Err _ | Fault => Fault
    end.

(** The streams from [s] on: the encoders, the output and the size or the error.  A packet
    must fit [tmp_data]. *)
Fixpoint ms_encode_streams (l : list encoder) (s : Z) (st : ms_encoder) (bandSMR pcm buf data : list Z)
    (frame_size Fs max_data_bytes tot_size : Z) (vbr : bool) : res (list encoder * list Z * Z) :=
  match l with
  | [] => Ok ([], data, tot_size)
  | enc :: rest =>
      let n := st.(me_layout).(nb_streams) in
      '(buf, c1, c2) ← stream_input st.(me_layout) s buf pcm frame_size;
      enc ← (if is_surround st.(me_mapping_type)
             then mask ← stream_mask bandSMR c1 c2; Ok (ctl enc (ENC_SET_ENERGY_MASK (Some mask))) else Ok enc);
      let curr_max := encode_room n s (stream_room n s frame_size Fs (max_data_bytes - tot_size)) in
      let enc := if negb vbr && (s =? n - 1) then ctl enc (ENC_SET_BITRATE (curr_max * (8 * Fs / frame_size))) else enc in
      match stream_encode enc buf frame_size curr_max with
      | (_, Fault) => Fault
      | (enc, Err c) => Ok (enc :: rest, data, c)
      | (enc, Ok packet) =>
          if Prelude.len packet >? MS_FRAME_TMP then Fault
          else
          match pack_stream packet data tot_size max_data_bytes (negb (s =? n - 1)) (negb vbr && (s =? n - 1)) with
          | Fault => Fault
          | Err c => Ok (enc :: rest, data, c)
          | Ok (data, k) =>
              '(rest, data, ret) ← ms_encode_streams rest (s + 1) st bandSMR pcm buf data frame_size Fs max_data_bytes
                                     (tot_size + k) vbr;
              Ok (enc :: rest, data, ret)
          end
      end
  end.

Definition with_encoders (l : list encoder) (st : ms_encoder) : ms_encoder :=
  {| me_layout := st.(me_layout); me_lfe_stream := st.(me_lfe_stream); me_application := st.(me_application);
     me_variable_duration := st.(me_variable_duration); me_mapping_type := st.(me_mapping_type);
     me_bitrate_bps := st.(me_bitrate_bps); me_encoders := l |}.

(** [opus_multistream_encode] of 16-bit samples; [data] is the output, all of which may be used. *)
Definition opus_multistream_encode (st : ms_encoder) (bandSMR pcm : list Z) (analysis_frame_size : Z) (data : list Z)
    : res (ms_encoder * list Z * Z) :=
  match st.(me_encoders) with
  | [] => Fault
  | first :: _ =>
      let Fs := enc_get first GET_SAMPLE_RATE in
      let vbr := negb (enc_get first GET_VBR =? 0) in
      let max_data_bytes := Prelude.len data in
      let frame_size := frame_size_select analysis_frame_size st.(me_variable_duration) Fs in
      if frame_size <=? 0 then Ok (st, data, OPUS_BAD_ARG)
      else if max_data_bytes <? smallest_packet st.(me_layout).(nb_streams) frame_size Fs
      then Ok (st, data, OPUS_BUFFER_TOO_SMALL)
      else
        let buf := repeat junk (Z.to_nat (2 * frame_size)) in
        let bitrates := rate_allocation st frame_size Fs in
        let max_data_bytes := cbr_room st vbr frame_size Fs (foldr Z.add 0 bitrates) max_data_bytes in
        let l := prepare_streams st frame_size Fs 0 bitrates st.(me_encoders) in
        '(l, data, ret) ← ms_encode_streams l 0 st bandSMR pcm buf data frame_size Fs max_data_bytes 0 vbr;
        Ok (with_encoders l st, data, ret)
  end.

(** ** Requests *)

(** [MSE_STREAM] is a request to the encoder that
    OPUS_MULTISTREAM_GET_ENCODER_STATE_REQUEST gave access to. *)
Inductive mse_request :=
| MSE_ALL (request : encoder_request)
| MSE_STREAM (stream_id : Z) (request : encoder_request).

(** A request to all streams, up to the first that refuses it. *)
Fixpoint enc_ctl_streams (l : list encoder) (request : encoder_request) : list encoder * Z :=
  match l with
  | [] => ([], OPUS_OK)
  | e :: rest =>
      let '(e, ret, _) := opus_encoder_ctl e request in
      if negb (ret =? OPUS_OK) then (e :: rest, ret)
      else let '(rest, ret) := enc_ctl_streams rest request in (e :: rest, ret)
  end.

Definition with_rate (v : Z) (st : ms_encoder) : ms_encoder :=
  {| me_layout := st.(me_layout); me_lfe_stream := st.(me_lfe_stream); me_application := st.(me_application);
     me_variable_duration := st.(me_variable_duration); me_mapping_type := st.(me_mapping_type);
     me_bitrate_bps := v; me_encoders := st.(me_encoders) |}.
Definition with_duration (v : Z) (st : ms_encoder) : ms_encoder :=
  {| me_layout := st.(me_layout); me_lfe_stream := st.(me_lfe_stream); me_application := st.(me_application);
     me_variable_duration := v; me_mapping_type := st.(me_mapping_type);
     me_bitrate_bps := st.(me_bitrate_bps); me_encoders := st.(me_encoders) |}.

Definition ms_get (st : ms_encoder) (what : encoder_getter) (null : bool) : ms_encoder * Z * option Z :=
  let l := st.(me_encoders) in
  match what with
  | GET_BITRATE =>
      if null then (st, OPUS_BAD_ARG, None)
      else (st, OPUS_OK, Some (foldr Z.add 0 (map (fun e => enc_get e GET_BITRATE) l)))
  | GET_FINAL_RANGE =>
      if null then (st, OPUS_BAD_ARG, None)
      else (st, OPUS_OK, Some (fold_left (fun v e => Z.lxor v (enc_get e GET_FINAL_RANGE)) l 0))
  | GET_EXPERT_FRAME_DURATION =>
      if null then (st, OPUS_BAD_ARG, None) else (st, OPUS_OK, Some st.(me_variable_duration))
  | GET_MAX_BANDWIDTH | GET_IN_DTX => (st, OPUS_UNIMPLEMENTED, None)
  | _ =>
      match l with
      | [] => (st, OPUS_BAD_ARG, None)
      | e :: _ => let '(_, ret, out) := opus_encoder_ctl e (ENC_GET what null) in (st, ret, out)
      end
  end.

Definition opus_multistream_encoder_ctl (st : ms_encoder) (request : mse_request) : ms_encoder * Z * option Z :=
  match request with
  | MSE_STREAM stream_id request =>
      if (stream_id <? 0) || (stream_id >=? st.(me_layout).(nb_streams)) then (st, OPUS_BAD_ARG, None)
      else
        match st.(me_encoders) !! Z.to_nat stream_id with
        | None => (st, OPUS_BAD_ARG, None)
        | Some e =>
            let '(e, ret, out) := opus_encoder_ctl e request in
            (with_encoders (<[Z.to_nat stream_id := e]> st.(me_encoders)) st, ret, out)
        end
  | MSE_ALL request =>
      match request with
      | ENC_SET_BITRATE value =>
          if negb (value =? OPUS_AUTO) && negb (value =? OPUS_BITRATE_MAX) then
            if value <=? 0 then (st, OPUS_BAD_ARG, None)
            else
              let n := st.(me_layout).(nb_channels) in
              (with_rate (Z.min (300000 * n) (Z.max (500 * n) value)) st, OPUS_OK, None)
          else (with_rate value st, OPUS_OK, None)
      | ENC_GET what null => ms_get st what null
      | ENC_SET_EXPERT_FRAME_DURATION value => (with_duration value st, OPUS_OK, None)
      | ENC_SET_VOICE_RATIO _ | ENC_SET_LFE _ | ENC_SET_ENERGY_MASK _ | ENC_UNKNOWN => (st, OPUS_UNIMPLEMENTED, None)
      | _ => let '(l, ret) := enc_ctl_streams st.(me_encoders) request in (with_encoders l st, ret, None)
      end
  end.
End MsEncoder.
