(* ===== verification/MsEncodeProps.v ===== *)
(** * Properties of the multistream encoder

    A packet of the multistream encoder carries the packets of its streams: the
    room it leaves for each stream is enough for the rewritten packet, so the call of the
    repacketizer whose result the code ignores never fails.  What the layouts of
    the mapping families send, a decoder with that layout puts back where it was. *)

From S2P Require Import Prelude FixedPoint MathOps Memory Packet PacketProofs PacketBuild Extensions ExtProofs Repacketizer RepackProofs RepackParse RepackCat RepackPad PacketProps SilkMath.
From S2P Require Import RangeCoder OpusDecode OpusDecodeProofs OpusDecodeFrame OpusControl OpusEncodeProofs Multistream MultistreamProofs MultistreamProps OpusDecide OpusEncoder OpusEncodeProps MsEncoder.

(** ** Packets with padding that carries nothing *)

(** The padding of frame [i] holds zeros. *)
Definition zero_padding (mem : list Z) (rp : OpusRepacketizer) : Prop :=
  forall i, 0 <= i < rp.(rp_nb_frames) -> rp.(rp_padding_len).[i] = 0 \/
    holds mem rp.(rp_paddings).[i] (repeat 0 (Z.to_nat rp.(rp_padding_len).[i])).

Lemma zero_parse mem rp i : rp_ok mem rp -> zero_padding mem rp -> 0 <= i < rp.(rp_nb_frames) ->
  opus_packet_extensions_parse mem rp.(rp_paddings).[i] rp.(rp_padding_len).[i] 0 = Ok [].
Proof.
  intros Hrp Hz Hi. destruct (ro_padding _ _ Hrp i Hi) as [Hn _]. destruct (Hz i Hi) as [->|Hh]; [done|].
  destruct (padding_parses mem mem rp.(rp_paddings).[i] [] rp.(rp_padding_len).[i]) as (l & E & Hl);
    [done|apply List.Forall_nil|rewrite exts_len_nil; done|].
  change (len (@nil opus_extension_data)) with 0 in E. rewrite E. by inversion Hl.
Qed.

Lemma zero_count mem rp n : bytes mem -> rp_ok mem rp -> zero_padding mem rp ->
  forall i total, 0 <= i -> i + Z.of_nat n <= rp.(rp_nb_frames) -> out_count n i mem rp total = Ok total.
Proof.
  intros Hm Hrp Hz. induction n as [|n IH]; intros i total Hi Hn; cbn [out_count]; [done|].
  pose proof (parse_padding_of mem rp 0 rp.(rp_nb_frames) Hm Hrp ltac:(lia) i 0 ltac:(lia)) as Hp.
  rewrite (zero_parse mem rp i) in Hp by (done || lia). destruct Hp as [_ ->]. cbn [len length Z.of_nat Z.gtb Z.compare].
  apply IH; lia.
Qed.

Lemma zero_gather mem rp n : rp_ok mem rp -> zero_padding mem rp ->
  forall i, 0 <= i -> i + Z.of_nat n <= rp.(rp_nb_frames) -> out_gather n i 0 mem rp 0 [] = Ok [].
Proof.
  intros Hrp Hz. induction n as [|n IH]; intros i Hi Hn; cbn [out_gather]; [done|].
  change (0 - len (@nil opus_extension_data)) with 0. rewrite (zero_parse mem rp i) by (done || lia). cbn [map app].
  apply IH; lia.
Qed.

(** Such padding is dropped. *)
Lemma zero_discard mem rp data maxlen sd pad : bytes mem -> rp_ok mem rp -> zero_padding mem rp -> 0 < rp.(rp_nb_frames) ->
  opus_repacketizer_out_range_impl mem rp 0 rp.(rp_nb_frames) data maxlen sd pad [] =
  opus_repacketizer_out_range_impl mem (discard_padding rp) 0 rp.(rp_nb_frames) data maxlen sd pad [].
Proof.
  intros Hm Hrp Hz Hn. destruct (discard_ok mem rp Hrp) as [Hrp' Hno].
  assert (Hz' : zero_padding mem (discard_padding rp)) by (intros i Hi; left; by apply Hno).
  unfold opus_repacketizer_out_range_impl. change (len (@nil opus_extension_data)) with 0.
  rewrite !Z.sub_0_r. change (rp_nb_frames (discard_padding rp)) with (rp_nb_frames rp).
  assert (Hr : 0 + Z.of_nat (Z.to_nat (rp_nb_frames rp)) <= rp_nb_frames rp) by lia.
  rewrite (zero_count mem rp), (zero_count mem (discard_padding rp)) by (done || lia). cbn [mbind res_bind].
  by rewrite (zero_gather mem rp), (zero_gather mem (discard_padding rp)) by (done || lia).
Qed.

(** ** A stream in the packet *)

(** The bytes that a self-delimited packet needs for the size of its last frame. *)
Definition sd_room (sd : bool) (n : Z) : Z := if sd then (if n >? 252 then 2 else 1) else 0.

(** A packet from a stream encoder, in the repacketizer, behind the output. *)
Lemma loaded_behind data packet rp r sd max tot :
  let mem := data ++ packet in
  bytes data -> bytes packet -> 1 <= len packet -> loaded mem (len data) (len packet) false rp r ->
  slice packet r.(pr_padding) r.(pr_padding_len) = repeat 0 (Z.to_nat r.(pr_padding_len)) ->
  tot <= max <= len data ->
  zero_padding mem rp /\ buffer_apart (discard_padding rp) 0 rp.(rp_nb_frames) tot (max - tot) /\
  len (plain_header rp.(rp_toc) sd (range_lens rp 0 rp.(rp_nb_frames))) + sumZ (range_lens rp 0 rp.(rp_nb_frames)) <=
    len packet + sd_room sd (len packet).
Proof.
  intros mem Hd Hp H1 Hl Hz Hm. pose proof (len_nonneg data) as Hld.
  assert (Lmem : len mem = len data + len packet) by apply len_app.
  assert (Hsl : slice mem (len data) (len packet) = packet).
  { pose proof (slice_mid data packet []) as E. by rewrite app_nil_r in E. }
  pose proof (ld_ok _ _ _ _ _ _ Hl) as Hrp. destruct (ld_nb _ _ _ _ _ _ Hl) as [Hnb Hc1].
  pose proof (ld_parse _ _ _ _ _ _ Hl) as Hpo. rewrite Hsl in Hpo.
  destruct (po_padding _ _ _ Hpo) as [_ Hpl]. destruct (po_inside _ _ _ Hpo) as [I1 I2].
  pose proof (parsed_inside _ _ _ Hpo 0 ltac:(lia)) as [I3 I4]. pose proof (po_sizes _ _ _ Hpo 0 ltac:(lia)) as I5.
  destruct (ld_padding _ _ _ _ _ _ Hl) as (P1 & P2 & P3). split_and!.
  - intros i Hi. destruct (Z.eq_dec i 0) as [->|]; [right|left; apply P3; lia].
    rewrite P1, P2. rewrite <- Hz. split_and!; [lia|rewrite len_slice; lia|].
    rewrite len_slice by lia. rewrite <- Hsl. by rewrite slice_slice by lia.
  - split.
    { intros i Hi Hpos. destruct (discard_ok mem rp Hrp) as [_ Hno]. specialize (Hno i Hi). lia. }
    intros i Hi. right. change (rp_frames (discard_padding rp)) with (rp_frames rp).
    destruct (lookup_lt_is_Some_2 (range_frames rp 0 rp.(rp_nb_frames)) (Z.to_nat i)) as [[f k] Hik].
    { pose proof (loaded_len _ _ _ _ _ _ Hl) as Lf. unfold len in Lf. lia. }
    destruct (range_lookup mem rp 0 rp.(rp_nb_frames) _ f k Hrp ltac:(lia) Hik) as (E & _ & _).
    destruct (ld_frames _ _ _ _ _ _ Hl _ f k Hik) as (Hlt & E2 & _). rewrite Z2Nat.id, Z.add_0_l in * by lia.
    destruct (parsed_inside _ _ _ Hpo i ltac:(lia)) as [? _]. lia.
  - destruct (loaded_plain mem (len data) (len packet) false rp r 0 H1 Hl Hld) as [_ Hmin].
    set (lens := range_lens rp 0 rp.(rp_nb_frames)) in *.
    assert (Hr : 0 <= 0 /\ 0 < rp.(rp_nb_frames) <= rp.(rp_nb_frames)) by lia.
    pose proof (range_ok mem rp 0 rp.(rp_nb_frames) Hrp Hr) as Hlo. fold lens in Hlo. pose proof Hlo as (Hfo & Hc & _).
    rewrite len_plain in Hmin |- * by done. change (len (sd_header false lens)) with 0 in Hmin.
    pose proof (sumZ_split lens ltac:(lia)) as Hsp. destruct (Forall_removelast _ lens ltac:(lia) Hfo) as [Hrl Hll].
    pose proof (sumZ_nonneg _ Hrl) as Hs0.
    pose proof (len_nonneg (vbr_header lens)).
    unfold sd_header, sd_room. destruct sd; [|change (len (@nil Z)) with 0; lia].
    rewrite len_encode_size. unfold size_bytes. destruct (Z.geb_spec (last_len lens) 252), (Z.gtb_spec (len packet) 252);
      cbn [b2z]; try lia. destruct (Z.leb_spec (len lens) 2); lia.
Qed.

Lemma splice_front data packet p l : 0 <= p -> p + len l <= len data ->
  take (Z.to_nat (len data)) (splice (data ++ packet) p l) = splice data p l.
Proof.
  intros Hp Hl. rewrite splice_app_l by done. apply take_app_length'. pose proof (len_splice data p l Hp Hl). unfold len in *. lia.
Qed.

Lemma pack_stream_spec packet data tot max sd pad r :
  bytes data -> bytes packet -> 1 <= len packet -> 0 <= tot -> tot <= max <= len data ->
  opus_packet_parse packet (len packet) no_sizes = Ok r ->
  slice packet r.(pr_padding) r.(pr_padding_len) = repeat 0 (Z.to_nat r.(pr_padding_len)) ->
  len packet + sd_room sd (len packet) <= max - tot ->
  must (pack_stream packet data tot max sd pad) (fun '(data', k) =>
    0 < k <= max - tot /\ (pad = true -> k = max - tot) /\ (pad = false -> k <= len packet + sd_room sd (len packet)) /\
    exists P, data' = splice data tot P /\ len P = k /\ bytes P /\
    forall tail, bytes tail -> (sd = false -> tail = []) ->
      exists r', opus_packet_parse_impl (P ++ tail) (len (P ++ tail)) sd no_sizes = Ok r' /\
        same_frames packet (P ++ tail) r r' /\ r'.(pr_packet_offset) = k).
Proof.
  intros Hd Hp H1 Ht Hm Hpar Hz Hroom. unfold pack_stream, opus_repacketizer_cat. cbv zeta. unfold opus_packet_parse in Hpar.
  set (mem := data ++ packet). pose proof (len_nonneg data) as Hld.
  assert (Hmem : bytes mem) by (by apply bytes_app).
  assert (Lmem : len mem = len data + len packet) by apply len_app.
  assert (Hsl : slice mem (len data) (len packet) = packet).
  { pose proof (slice_mid data packet []) as E. by rewrite app_nil_r in E. }
  pose proof (cat_fresh mem (len data) (len packet) false Hmem Hld ltac:(lia)) as Hc. rewrite Hsl in Hc. fold no_sizes in Hc.
  rewrite Hpar in Hc. destruct Hc as (rp & -> & Hl). cbn [mbind res_bind]. change (negb (OPUS_OK =? OPUS_OK)) with false. cbv iota.
  destruct (loaded_behind data packet rp r sd max tot Hd Hp H1 Hl Hz Hm) as (Hzp & Hba & Hmin).
  pose proof (ld_ok _ _ _ _ _ _ Hl) as Hrp. destruct (ld_nb _ _ _ _ _ _ Hl) as [Hnb Hc1].
  destruct (discard_ok mem rp Hrp) as [Hrp' Hno]. change (opus_repacketizer_get_nb_frames rp) with (rp_nb_frames rp).
  rewrite (zero_discard mem rp) by (done || lia).
  assert (Hr : 0 <= 0 /\ 0 < rp.(rp_nb_frames) <= (discard_padding rp).(rp_nb_frames)) by (cbn; lia).
  pose proof (out_repacks mem (discard_padding rp) tot (max - tot) 0 rp.(rp_nb_frames) sd pad [] Hmem Hrp' Hr Ht ltac:(lia)
    ltac:(lia) (proj1 Hba) (List.Forall_nil _) (buffer_clear mem (discard_padding rp) 0 rp.(rp_nb_frames) tot (max - tot) sd pad Hrp' Hr Hba)) as Ho.
  change (rp_toc (discard_padding rp)) with (rp_toc rp) in Ho.
  change (range_lens (discard_padding rp)) with (range_lens rp) in Ho.
  change (range_frames (discard_padding rp)) with (range_frames rp) in Ho.
  destruct (opus_repacketizer_out_range_impl _ _ _ _ _ _ _ _ _) as [[mem' k]|c|]; [|destruct Ho as [_ Ho]; specialize (Ho eq_refl Hno); lia|done].
  destruct Ho as (Hk & Hpad & exts & Hrk & Hex & Hplain & _). specialize (Hex eq_refl Hno). subst exts.
  pose proof (rk_ret _ _ _ _ _ _ _ _ Hrk) as Hk0. cbn [must]. split_and!; [lia|lia|done|intros E; specialize (Hplain E eq_refl); lia|].
  exists (slice mem' tot k). pose proof (rk_mem _ _ _ _ _ _ _ _ Hrk) as Emem.
  assert (Lm' : len mem' = len mem).
  { rewrite Emem. pose proof (len_slice_le mem' tot k ltac:(lia)). rewrite len_splice; lia. }
  assert (Ls : len (slice mem' tot k) = k) by (apply len_slice; lia). split_and!.
  - rewrite Emem at 1. apply splice_front; lia.
  - done.
  - apply (rk_bytes _ _ _ _ _ _ _ _ Hrk).
  - intros tail Hbt Htl. pose proof (loaded_len _ _ _ _ _ _ Hl) as Lf.
    destruct (rk_parse _ _ _ _ _ _ _ _ Hrk no_sizes tail) as (r' & E & R1 & R2 & R3 & R4); try done.
    { change (len no_sizes) with 48. pose proof (po_count _ _ _ (ld_parse _ _ _ _ _ _ Hl)). lia. }
    exists r'. split_and!; [done| |done]. split; [lia|by rewrite R2, (ld_toc _ _ _ _ _ _ Hl)|].
    intros i Hi. destruct (lookup_lt_is_Some_2 (range_frames rp 0 rp.(rp_nb_frames)) (Z.to_nat i)) as [[f n] Hik];
      [unfold len in *; lia|].
    rewrite <- (Z2Nat.id i) by lia. rewrite (R3 _ _ _ Hik).
    rewrite (loaded_bytes mem (len data) (len packet) false Hld ltac:(lia) rp r _ f n H1 Hl Hik). by rewrite Hsl.
Qed.

(** ** Input *)

Lemma copy_in_spec o stride src ss ch n : forall i dst,
  0 <= o < stride -> 0 <= ch < ss -> 0 <= i -> (i + Z.of_nat n) * ss <= len src -> (i + Z.of_nat n) * stride <= len dst ->
  must (copy_in n i dst o stride src ss ch) (fun dst' => len dst' = len dst /\
    forall j p, 0 <= p < stride -> 0 <= j -> dst'.[j * stride + p] =
      if (p =? o) && (i <=? j) && (j <? i + Z.of_nat n) then src.[j * ss + ch] else dst.[j * stride + p]).
Proof.
  induction n as [|n IH]; intros i dst Ho Hc Hi Hs Hd; cbn [copy_in].
  { split; [done|]. intros j p Hp Hj. destruct (Z.leb_spec i j), (Z.ltb_spec j (i + Z.of_nat 0)); try lia; by rewrite ?andb_false_r. }
  rewrite (get_ok src) by nia. cbn [mbind res_bind]. unfold put.
  destruct (Z.leb_spec 0 (o + i * stride)), (Z.ltb_spec (o + i * stride) (len dst)); try nia. cbn [andb mbind res_bind].
  eapply must_impl; [apply (IH (i + 1)); rewrite ?len_wr; lia || nia|]. intros dst' [L E]. rewrite len_wr in L.
  split; [done|]. intros j p Hp Hj. rewrite E by done.
  destruct (decide (j * stride + p = o + i * stride)) as [Ep|Ep].
  - destruct (place_inj stride j p i o Hp Ho ltac:(lia)) as [-> ->]. rewrite Z.eqb_refl. cbn [andb].
    destruct (Z.leb_spec (i + 1) i), (Z.leb_spec i i), (Z.ltb_spec i (i + Z.of_nat (S n))); try lia. cbn [andb].
    rewrite Ep, rd_wr_eq by nia. done.
  - rewrite rd_wr_ne by done. destruct (Z.eqb_spec p o) as [->|]; cbn [andb]; [|done].
    assert (j <> i) by (intros ->; apply Ep; lia).
    destruct (Z.leb_spec (i + 1) j), (Z.leb_spec i j), (Z.ltb_spec j (i + 1 + Z.of_nat n)), (Z.ltb_spec j (i + Z.of_nat (S n))); try lia; done.
Qed.

(** What a stream is given: the first channel of each mapping. *)
Definition stream_holds (l : ChannelLayout) (s : Z) (buf pcm : list Z) (fs : Z) : Prop :=
  forall c j, 0 <= c < l.(nb_channels) -> l.(mapping).[c] <> 255 -> owner l l.(mapping).[c] = s ->
    (forall c', 0 <= c' < c -> l.(mapping).[c'] <> l.(mapping).[c]) -> 0 <= j < fs ->
    sample_of l l.(mapping).[c] buf j = pcm.[j * l.(nb_channels) + c].

Lemma first_channel l m c : 0 <= c < l.(nb_channels) -> l.(mapping).[c] = m ->
  (forall c', 0 <= c' < c -> l.(mapping).[c'] <> m) -> next_channel l m (-1) = c.
Proof.
  intros Hc E Hf. destruct (next_channel_spec l m (-1) ltac:(lia)) as [[-> H1]|(H1 & H2 & H3)].
  - exfalso. apply (H1 c); [lia|done].
  - set (r := next_channel l m (-1)) in *. destruct (Z.lt_trichotomy r c) as [?|[?|?]]; [|done|].
    + exfalso. apply (Hf r); [lia|done].
    + exfalso. apply (H3 c); [lia|done].
Qed.

Lemma validate_from_spec l n : forall s, validate_from n s l = true -> forall s', s <= s' < s + Z.of_nat n ->
  if s' <? l.(nb_coupled_streams) then get_left_channel l s' (-1) <> -1 /\ get_right_channel l s' (-1) <> -1
  else get_mono_channel l s' (-1) <> -1.
Proof.
  induction n as [|n IH]; intros s Hv s' Hs; [lia|]. cbn [validate_from] in Hv.
  destruct (Z.eqb_spec (get_left_channel l s (-1)) (-1)), (Z.eqb_spec (get_right_channel l s (-1)) (-1)),
    (Z.eqb_spec (get_mono_channel l s (-1)) (-1)), (s <? nb_coupled_streams l) eqn:Es; try done;
    (destruct (Z.eq_dec s' s) as [->|]; [by rewrite Es|apply (IH (s + 1)); [done|lia]]).
Qed.

Lemma found_channel l m : 0 <= l.(nb_channels) -> next_channel l m (-1) <> -1 -> 0 <= next_channel l m (-1) < l.(nb_channels).
Proof. intros Hn H. destruct (next_channel_spec l m (-1) ltac:(lia)) as [[? _]|(? & _)]; lia. Qed.

Lemma stream_input_spec l s buf pcm fs :
  layout_ok l -> validate_encoder_layout l = true -> 0 <= s < l.(nb_streams) -> 0 <= fs ->
  2 * fs <= len buf -> fs * l.(nb_channels) <= len pcm ->
  must (stream_input l s buf pcm fs) (fun '(buf', c1, c2) => len buf' = len buf /\ stream_holds l s buf' pcm fs /\
    0 <= c1 < l.(nb_channels) /\ (c2 = -1 \/ 0 <= c2 < l.(nb_channels))).
Proof.
  intros Hl Hv Hs Hf Hb Hp. pose proof (lo_channels _ Hl) as Hn. unfold stream_input. cbv zeta. unfold opus_copy_channel_in_short.
  pose proof (validate_from_spec l _ 0 Hv s ltac:(lia)) as Hch. unfold get_left_channel, get_right_channel, get_mono_channel in *.
  assert (Hcov : forall c, 0 <= c < l.(nb_channels) -> l.(mapping).[c] <> 255 -> owner l l.(mapping).[c] = s ->
    0 <= (mapping l).[c] /\ if s <? nb_coupled_streams l then (mapping l).[c] = s * 2 \/ (mapping l).[c] = s * 2 + 1
    else (mapping l).[c] = s + nb_coupled_streams l).
  { intros c Hc Hne Ho. destruct (lo_mapping _ Hl c Hc) as [Hm|]; [|done]. split; [lia|]. unfold owner in Ho.
    pose proof (lo_coupled _ Hl). destruct (Z.ltb_spec (mapping l).[c] (2 * nb_coupled_streams l)), (Z.ltb_spec s (nb_coupled_streams l)); dlia. }
  destruct (Z.ltb_spec s (nb_coupled_streams l)) as [Hsc|Hsc].
  - destruct Hch as [C1 C2]. apply found_channel in C1, C2; try lia.
    eapply must_bind; [apply copy_in_spec; lia || nia|]. intros b1 [L1 E1].
    eapply must_bind; [apply copy_in_spec; lia || nia|]. intros b2 [L2 E2]. apply must_ok. split_and!; [lia| |lia|lia|by right].
    intros c j Hc Hne Ho Hfirst Hj. destruct (Hcov c Hc Hne Ho) as [Hm0 Hm]. unfold sample_of.
    destruct (Z.ltb_spec (mapping l).[c] (2 * nb_coupled_streams l)); [|lia].
    destruct Hm as [Hm|Hm].
    + replace ((mapping l).[c] mod 2) with 0 by (rewrite Hm; dlia). rewrite E2, E1 by lia. cbn [Z.eqb andb].
      destruct (Z.leb_spec 0 j), (Z.ltb_spec j (0 + Z.of_nat (Z.to_nat fs))); try lia. cbn [andb].
      rewrite (first_channel l (s * 2) c) by (done || (intros c' Hc'; rewrite <- Hm; by apply Hfirst)). done.
    + replace ((mapping l).[c] mod 2) with 1 by (rewrite Hm; dlia). rewrite E2 by lia. cbn [Z.eqb Pos.eqb andb].
      destruct (Z.leb_spec 0 j), (Z.ltb_spec j (0 + Z.of_nat (Z.to_nat fs))); try lia. cbn [andb].
      rewrite (first_channel l (s * 2 + 1) c) by (done || (intros c' Hc'; rewrite <- Hm; by apply Hfirst)). done.
  - apply found_channel in Hch; [|lia].
    eapply must_bind; [apply copy_in_spec; lia || nia|]. intros b1 [L1 E1]. apply must_ok. split_and!; [lia| |lia|lia|by left].
    intros c j Hc Hne Ho Hfirst Hj. destruct (Hcov c Hc Hne Ho) as [Hm0 Hm]. unfold sample_of.
    destruct (Z.ltb_spec (mapping l).[c] (2 * nb_coupled_streams l)); [lia|].
    rewrite <- (Z.mul_1_r j) at 1. rewrite <- (Z.add_0_r (j * 1)), E1 by lia. cbn [Z.eqb andb].
    destruct (Z.leb_spec 0 j), (Z.ltb_spec j (0 + Z.of_nat (Z.to_nat fs))); try lia. cbn [andb].
    rewrite (first_channel l (s + nb_coupled_streams l) c) by (done || (intros c' Hc'; rewrite <- Hm; by apply Hfirst)). done.
Qed.

(** ** Packets *)

(** The packets [ps] one behind the other, all but the last self-delimited. *)
Fixpoint carries (ps : list (list Z)) (data : list Z) : Prop :=
  match ps with
  | [] => data = []
  | p :: rest =>
      exists r r', opus_packet_parse p (len p) no_sizes = Ok r /\
        opus_packet_parse_impl data (len data) (match rest with [] => false | _ => true end) no_sizes = Ok r' /\
        same_frames p data r r' /\ carries rest (drop (Z.to_nat r'.(pr_packet_offset)) data)
  end.

Lemma spf_config rate toc : In rate rates -> 0 <= toc < 256 -> samples_per_frame toc rate = samples_per_frame (Z.land toc 0xFC) rate.
Proof.
  intros Hr Ht. pose proof (zforall_spec 256 0 (fun toc => forallb (fun rate =>
    samples_per_frame toc rate =? samples_per_frame (Z.land toc 0xFC) rate) rates) toc ltac:(by vm_compute) ltac:(lia)) as E.
  cbv beta in E. rewrite forallb_forall in E. by apply Z.eqb_eq, E.
Qed.

(** A packet that was rewritten lasts as long. *)
Lemma same_duration rate p data r r' sd fs :
  In rate rates -> bytes p -> bytes data -> 1 <= len p -> 1 <= len data ->
  parse_ok p false r -> parse_ok data sd r' -> same_frames p data r r' ->
  opus_packet_get_nb_samples p (len p) rate = Ok fs ->
  opus_packet_get_nb_samples data r'.(pr_packet_offset) rate = Ok fs.
Proof.
  intros Hr Hp Hd L1 L2 Hpo Hpo' [S1 S2 _]. rewrite (nb_samples_prefix data sd r' rate L2 Hpo').
  unfold opus_packet_get_nb_samples, opus_packet_get_samples_per_frame.
  rewrite (po_nb _ _ _ Hpo), (po_nb _ _ _ Hpo'), (get_ok p 0), (get_ok data 0), S1 by lia. cbn [mbind res_bind].
  rewrite (spf_config rate p.[0]), (spf_config rate data.[0]) by (done || by apply bytes_rd).
  rewrite <- (po_toc _ _ _ Hpo), <- (po_toc _ _ _ Hpo'), S2. done.
Qed.

Lemma parse_48 data sd r : bytes data -> 1 <= len data ->
  opus_packet_parse_impl data (len data) sd no_sizes = Ok r -> parse_ok data sd r.
Proof.
  intros Hb Hl E. pose proof (sat_parse_impl data sd no_sizes Hb) as Hs. rewrite E in Hs.
  apply Hs. intros c _ Hc. exact Hc.
Qed.

(** The decoder accepts what carries packets of equal duration. *)
Lemma carries_valid rate fs n ps : In rate rates -> forall s data samples,
  bytes data -> carries ps data -> s + len ps = n -> 0 <= s ->
  Forall (fun p => bytes p /\ 1 <= len p /\ opus_packet_get_nb_samples p (len p) rate = Ok fs) ps ->
  (0 < s \/ ps = [] -> samples = fs) -> packet_validate_from (length ps) s data n rate samples = Ok fs.
Proof.
  intros Hr. induction ps as [|p ps IH]; intros s data samples Hb Hc Hn Hs Hp Hsam; cbn [length packet_validate_from].
  { by rewrite Hsam by (by right). }
  apply Forall_cons_1 in Hp as [(B1 & B2 & B3) Hp]. destruct Hc as (r & r' & E1 & E2 & E3 & Hc).
  assert (Hl : 1 <= len data).
  { destruct data as [|x data']; [by destruct ps|]. unfold len. cbn [length]. lia. }
  destruct (Z.leb_spec (len data) 0); [lia|]. change (repeat 0 48) with no_sizes.
  assert (Esd : negb (s =? n - 1) = match ps with [] => false | _ => true end).
  { unfold len in Hn. destruct ps; cbn [length] in Hn; destruct (Z.eqb_spec s (n - 1)); try done; lia. }
  rewrite Esd, E2. cbn [mbind res_bind].
  pose proof (parse_48 p false r B1 B2 E1) as P1. pose proof (parse_48 data _ r' Hb Hl E2) as P2.
  rewrite (same_duration rate p data r r' _ fs Hr B1 Hb B2 Hl P1 P2 E3 B3). cbn [mbind res_bind].
  replace (negb (s =? 0) && negb (samples =? fs)) with false.
  2: { destruct (Z.eqb_spec s 0); [done|]. rewrite Hsam by (left; lia). by rewrite Z.eqb_refl. }
  apply IH; try done; try lia; [by apply Forall_drop|]. unfold len in *. cbn [length] in Hn. lia.
Qed.

(** ** All streams *)

(** What a stream encoder returns: a packet of the frame's duration in the room it has,
    padded, if at all, with zeros. *)
Record stream_packet (rate fs n : Z) (p : list Z) : Prop := {
  sp_bytes : bytes p;
  sp_len : 1 <= len p <= n;
  sp_duration : opus_packet_get_nb_samples p (len p) rate = Ok fs;
  sp_parse : exists r, opus_packet_parse p (len p) no_sizes = Ok r /\
    slice p r.(pr_padding) r.(pr_padding_len) = repeat 0 (Z.to_nat r.(pr_padding_len))
}.

Class StreamLaws (rate : Z) {SILK CELT : Type} `{EncoderParts SILK CELT} `{!StreamEncode SILK CELT} : Prop := {
  sl_rate : forall enc pcm fs n, es_Fs (oe_settings (stream_encode enc pcm fs n).1) = es_Fs (oe_settings enc);
  sl_packet : forall enc pcm k n, es_Fs (oe_settings enc) = rate -> In k all_units ->
    match (stream_encode enc pcm (k * (rate / 400)) n).2 with
    | Ok p => stream_packet rate (k * (rate / 400)) n p
    | Err c => c < 0
    | Fault => False
    end
}.

(** What the streams from [s] on need at least, and the least room for one. *)
Definition still_needed (n s fs rate : Z) : Z := if n <=? s then 0 else smallest_packet (n - s) fs rate.
Definition least (fs rate : Z) : Z := if rate / fs =? 10 then 2 else 1.

Lemma rooms n s fs rate left_ : 0 <= s < n -> let room := stream_room n s fs rate left_ in
  room <= left_ /\ left_ - room >= still_needed n (s + 1) fs rate /\
  encode_room n s room <= MS_FRAME_TMP /\
  (still_needed n s fs rate <= left_ -> least fs rate <= encode_room n s room) /\
  forall k, k <= encode_room n s room -> k + sd_room (negb (s =? n - 1)) k <= room.
Proof.
  intros Hs. cbv zeta. unfold stream_room, encode_room, still_needed, smallest_packet, least, sd_room, MS_FRAME_TMP.
  destruct (Z.eqb_spec (rate / fs) 10), (Z.eqb_spec s (n - 1)), (Z.leb_spec n s), (Z.leb_spec n (s + 1)); cbn [negb]; try lia;
    (split_and!; [lia|lia|..]);
    repeat match goal with |- context [?a >? ?b] => destruct (Z.gtb_spec a b) end; try lia;
    intros k Hk; repeat match goal with |- context [?a >? ?b] => destruct (Z.gtb_spec a b) end; lia.
Qed.

Lemma ctl_rate `{EncoderParts SILK CELT} (enc : OpusEncoder SILK CELT) request :
  es_Fs (oe_settings (ctl enc request)) = es_Fs (oe_settings enc).
Proof.
  unfold ctl. destruct request; cbn [OpusEncoder.opus_encoder_ctl fst];
    repeat match goal with |- context [if ?b then _ else _] => destruct b end; try done; by destruct (bitrate_of _ _).
Qed.

(** ** Mapping families *)

(** A layout in which every channel has a stream of its own, and every stream its channels. *)
Record transparent (l : ChannelLayout) : Prop := {
  tr_layout : layout_ok l;
  tr_valid : validate_layout l = true;
  tr_encoder : validate_encoder_layout l = true;
  tr_fits : l.(nb_streams) + l.(nb_coupled_streams) <= l.(nb_channels);
  tr_own : forall c, 0 <= c < l.(nb_channels) -> l.(mapping).[c] <> 255 /\
    forall c', 0 <= c' < l.(nb_channels) -> l.(mapping).[c'] = l.(mapping).[c] -> c' = c
}.

Lemma rd_zseq n c : 0 <= c < n -> (zseq n).[c] = c.
Proof.
  intros Hc. unfold zseq, rd. destruct (Z.ltb_spec c 0); [lia|].
  rewrite (nth_indep _ 0 (Z.of_nat 0)) by (rewrite length_map, length_seq; lia). rewrite map_nth, seq_nth; lia.
Qed.
Lemma len_zseq n : 0 <= n -> len (zseq n) = n.
Proof. intros Hn. unfold zseq, len. rewrite length_map, length_seq. lia. Qed.

Lemma validate_intro l n : forall s, 0 <= s -> 0 <= l.(nb_channels) ->
  (forall s' t, s <= s' < s + Z.of_nat n -> (if s' <? l.(nb_coupled_streams) then t = s' * 2 \/ t = s' * 2 + 1 else t = s' + l.(nb_coupled_streams)) ->
     exists c, 0 <= c < l.(nb_channels) /\ l.(mapping).[c] = t) -> validate_from n s l = true.
Proof.
  induction n as [|n IH]; intros s Hs Hn Ht; cbn [validate_from]; [done|].
  assert (Hfound : forall t, (exists c, 0 <= c < nb_channels l /\ (mapping l).[c] = t) -> (next_channel l t (-1) =? -1) = false).
  { intros t (c & Hc & Ec). destruct (next_channel_spec l t (-1) ltac:(lia)) as [[_ H1]|(H1 & _)]; [|lia].
    exfalso. apply (H1 c); [lia|done]. }
  assert (Hrest : validate_from n (s + 1) l = true) by (apply IH; [lia|done|]; intros s' t Hs'; apply Ht; lia).
  specialize (Ht s). unfold get_left_channel, get_right_channel, get_mono_channel. destruct (s <? nb_coupled_streams l).
  - rewrite !Hfound; [done|apply Ht; [lia|by right]|apply Ht; [lia|by left]].
  - rewrite Hfound; [done|]. by apply Ht; [lia|].
Qed.

(** Uncoupled streams first, then the coupled ones: families 2 and 255. *)
Lemma rotated_transparent n k : 1 <= n <= 255 -> 0 <= k -> 2 * k <= n -> 1 <= n - k ->
  let m := map (Z.add (k * 2)) (zseq (n - 2 * k)) ++ zseq (k * 2) in
  bytes m /\ len m = n /\ transparent (Build_ChannelLayout n (n - k) k m).
Proof.
  intros Hn Hk Hkn Hs m.
  assert (La : len (map (Z.add (k * 2)) (zseq (n - 2 * k))) = n - 2 * k).
  { unfold len. rewrite length_map. pose proof (len_zseq (n - 2 * k) ltac:(lia)) as E. unfold len in E. lia. }
  assert (Lm : len m = n) by (unfold m; rewrite len_app, La, len_zseq; lia).
  assert (Hrd : forall c, 0 <= c < n -> m.[c] = if c <? n - 2 * k then c + 2 * k else c - (n - 2 * k)).
  { intros c Hc. unfold m. destruct (Z.ltb_spec c (n - 2 * k)).
    - rewrite rd_app_l by lia. unfold rd. destruct (Z.ltb_spec c 0); [lia|].
      rewrite (nth_indep _ 0 (k * 2 + 0)) by (unfold len in La; lia). rewrite map_nth.
      pose proof (rd_zseq (n - 2 * k) c ltac:(lia)) as E. unfold rd in E. destruct (Z.ltb_spec c 0); [lia|]. lia.
    - replace c with (len (map (Z.add (k * 2)) (zseq (n - 2 * k))) + (c - (n - 2 * k))) at 1 by lia.
      rewrite rd_app_r by lia. apply rd_zseq. lia. }
  assert (Hin : forall x, In x m -> 0 <= x < n).
  { intros x Hx. apply (In_nth _ _ 0) in Hx as (i & Hi & <-). specialize (Hrd (Z.of_nat i) ltac:(unfold len in Lm; lia)).
    unfold rd in Hrd. destruct (Z.ltb_spec (Z.of_nat i) 0); [lia|]. rewrite Nat2Z.id in Hrd. rewrite Hrd.
    unfold len in Lm. destruct (Z.ltb_spec (Z.of_nat i) (n - 2 * k)); lia. }
  assert (Hb : bytes m) by (apply List.Forall_forall; intros x Hx; specialize (Hin x Hx); lia).
  assert (Hv : validate_layout (Build_ChannelLayout n (n - k) k m) = true).
  { unfold validate_layout. cbn [nb_channels nb_streams nb_coupled_streams mapping]. cbv zeta. destruct (Z.gtb_spec (n - k + k) 255); [lia|].
    apply forallb_forall. intros x Hx. assert (Hx' : In x m) by (rewrite <- (firstn_skipn (Z.to_nat n) m); apply in_or_app; by left).
    specialize (Hin x Hx'). destruct (Z.geb_spec x (n - k + k)); [lia|done]. }
  split_and!; [done|done|]. split; cbn [nb_channels nb_streams nb_coupled_streams mapping]; try done; try lia.
  - split; cbn [nb_channels nb_streams nb_coupled_streams mapping]; try lia. intros c Hc. left. rewrite Hrd by done.
    destruct (Z.ltb_spec c (n - 2 * k)); lia.
  - apply validate_intro; cbn [nb_channels nb_streams nb_coupled_streams mapping]; try lia. intros s t Hs' Ht.
    destruct (Z.ltb_spec s k).
    + exists (t + (n - 2 * k)). split; [lia|]. rewrite Hrd by lia. destruct (Z.ltb_spec (t + (n - 2 * k)) (n - 2 * k)); lia.
    + exists (t - 2 * k). split; [lia|]. rewrite Hrd by lia. destruct (Z.ltb_spec (t - 2 * k) (n - 2 * k)); lia.
  - intros c Hc. rewrite Hrd by done. split; [destruct (Z.ltb_spec c (n - 2 * k)); lia|]. intros c' Hc'. rewrite Hrd by done.
    destruct (Z.ltb_spec c (n - 2 * k)), (Z.ltb_spec c' (n - 2 * k)); lia.
Qed.

(** The small layouts of families 0 and 1, by evaluation. *)
Definition one_to_one (l : ChannelLayout) : bool :=
  let m := l.(mapping) in let cs := zseq l.(nb_channels) in
  (1 <=? l.(nb_channels)) && (l.(nb_channels) <=? 8) && (len m =? l.(nb_channels)) &&
  forallb (fun c => (0 <=? m.[c]) && (m.[c] <? 8) && forallb (fun c' => (c =? c') || negb (m.[c'] =? m.[c])) cs) cs &&
  validate_layout l && validate_encoder_layout l && (0 <=? l.(nb_coupled_streams)) && (l.(nb_coupled_streams) <=? l.(nb_streams)) &&
  (1 <=? l.(nb_streams)) && (l.(nb_streams) + l.(nb_coupled_streams) =? l.(nb_channels)) &&
  forallb (fun x => (0 <=? x) && (x <? l.(nb_channels))) m.

Lemma in_zseq n c : In c (zseq n) <-> 0 <= c < n.
Proof.
  unfold zseq. rewrite in_map_iff. split; [intros (k & <- & Hk); apply in_seq in Hk; lia|].
  intros Hc. exists (Z.to_nat c). split; [lia|]. apply in_seq. lia.
Qed.

Lemma one_to_one_transparent l : one_to_one l = true -> bytes l.(mapping) /\ len l.(mapping) = l.(nb_channels) /\ transparent l.
Proof.
  unfold one_to_one. cbv zeta. rewrite !andb_true_iff, !Z.leb_le, !Z.eqb_eq.
  intros [[[[[[[[[[H1 H2] H3] H4] H5] H6] H7] H8] H9] H10] H11]. rewrite forallb_forall in H4, H11.
  assert (Hm : forall c, 0 <= c < nb_channels l -> 0 <= (mapping l).[c] < nb_channels l).
  { intros c Hc. assert (Hin : In (mapping l).[c] (mapping l)).
    { unfold rd. destruct (Z.ltb_spec c 0); [lia|]. apply nth_In. unfold len in H3. lia. }
    specialize (H11 _ Hin). lia. }
  split_and!; [apply List.Forall_forall; intros x Hx; specialize (H11 x Hx); lia|done|].
  split; try done; try lia.
  - split; try lia. intros c Hc. left. specialize (Hm c Hc). lia.
  - intros c Hc. specialize (Hm c Hc). split; [lia|]. intros c' Hc' E. apply in_zseq in Hc. specialize (H4 c Hc).
    rewrite !andb_true_iff, forallb_forall in H4. destruct H4 as [_ H4]. apply in_zseq in Hc'. specialize (H4 c' Hc').
    rewrite E, Z.eqb_refl in H4. lia.
Qed.

Definition small_family (family channels : Z) : bool :=
  match family_layout channels family with
  | Ok (streams, coupled, m, _) => one_to_one (Build_ChannelLayout channels streams coupled m)
  | Err _ => true
  | Fault => false
  end.

Lemma small_families family channels : family = 0 \/ family = 1 -> 1 <= channels <= 255 -> small_family family channels = true.
Proof.
  intros Hf Hc. destruct (Z.leb_spec channels 8) as [H8|H8].
  - pose proof (zforall_spec 8 1 (fun c => small_family 0 c && small_family 1 c) channels ltac:(by vm_compute) ltac:(lia)) as E.
    cbv beta in E. apply andb_true_iff in E as [E0 E1]. by destruct Hf as [->| ->].
  - unfold small_family, family_layout. destruct Hf as [->| ->]; cbn [Z.eqb Pos.eqb].
    + destruct (Z.eqb_spec channels 1), (Z.eqb_spec channels 2); done || lia.
    + destruct (Z.leb_spec channels 8); [lia|done].
Qed.

(** Every family: its layout is transparent, or it has none. *)
Lemma family_transparent family channels : 1 <= channels <= 255 ->
  match family_layout channels family with
  | Ok (streams, coupled, m, _) =>
      bytes m /\ len m = channels /\ transparent (Build_ChannelLayout channels streams coupled m) /\
      (family = 2 -> validate_ambisonics channels <> None)
  | Err c => c < 0
  | Fault => False
  end.
Proof.
  intros Hc. destruct (decide (family = 0 \/ family = 1)) as [Hf|Hf].
  { pose proof (small_families family channels Hf Hc) as E. unfold small_family in E.
    assert (Herr : forall c, family_layout channels family = Err c -> c < 0).
    { intros c. unfold family_layout. repeat case_match; intros [= <-]; done. }
    destruct (family_layout channels family) as [[[[streams coupled] m] lfe]|c|]; [|by apply Herr|done].
    destruct (one_to_one_transparent _ E) as (E1 & E2 & E3). split_and!; try done. intros ->. by destruct Hf. }
  unfold family_layout. destruct (Z.eqb_spec family 0); [tauto|]. destruct (Z.eqb_spec family 1); [tauto|]. cbn [andb].
  destruct (Z.eqb_spec family 255).
  { destruct (rotated_transparent channels 0 Hc ltac:(lia) ltac:(lia) ltac:(lia)) as (E1 & E2 & E3).
    change (zseq (0 * 2)) with (@nil Z) in *. rewrite app_nil_r, Z.mul_0_l, !Z.sub_0_r in *.
    assert (Eid : map (Z.add 0) (zseq channels) = zseq channels) by (rewrite <- map_id; apply map_ext; intros; lia).
    rewrite Eid in *. split_and!; [done|done|done|]. intros ->. discriminate. }
  destruct (Z.eqb_spec family 2); [|done].
  destruct (validate_ambisonics channels) as [[streams coupled]|] eqn:Ea; [|done].
  assert (Hsc : streams + coupled = channels /\ 0 <= coupled /\ 2 * coupled <= channels /\ 1 <= streams).
  { unfold validate_ambisonics in Ea. destruct (_ || _); [done|]. cbv zeta in Ea.
    assert (Hsq : 0 <= isqrt32 channels * isqrt32 channels) by nia. set (a := isqrt32 channels * isqrt32 channels) in *.
    destruct (Z.eqb_spec (channels - a) 0), (Z.eqb_spec (channels - a) 2); cbn [negb andb b2z] in Ea; try done; try lia;
      injection Ea as <- <-; lia. }
  destruct Hsc as (Hsc & H0 & H2 & H1).
  destruct (rotated_transparent channels coupled Hc ltac:(lia) ltac:(lia) ltac:(lia)) as (E1 & E2 & E3).
  replace (channels - coupled) with streams in E3 by lia. replace (channels - 2 * coupled) with (streams - coupled) in * by lia.
  by split_and!.
Qed.

Section Streams.
Context {rate : Z} `{L : StreamLaws rate SILK CELT} (junk : Z).
Abbreviation encoder := (OpusEncoder SILK CELT).
Abbreviation ms_encoder := (OpusMSEncoder SILK CELT).

Definition at_rate (enc : encoder) : Prop := es_Fs (oe_settings enc) = rate.

Section Run.
Context (st : ms_encoder) (bandSMR pcm : list Z) (k max : Z) (vbr : bool).
Let layout := st.(me_layout).
Let n := layout.(nb_streams).
Let fs := k * (rate / 400).
Hypothesis Hrate : In rate rates.
Hypothesis Hlayout : layout_ok layout.
Hypothesis Hvalid : validate_encoder_layout layout = true.
Hypothesis Hk : In k all_units.
Hypothesis Hpcm : fs * layout.(nb_channels) <= len pcm.
Hypothesis Hmask : is_surround st.(me_mapping_type) = true -> 21 * layout.(nb_channels) <= len bandSMR.

(** The streams from [s] on were encoded from [bufs] into the packets [ps]. *)
Fixpoint encoded (s : Z) (bufs ps : list (list Z)) : Prop :=
  match bufs, ps with
  | [], [] => True
  | b :: bufs, p :: ps =>
      stream_holds layout s b pcm fs /\ (exists enc m, (stream_encode enc b fs m).2 = Ok p) /\ encoded (s + 1) bufs ps
  | _, _ => False
  end.

Definition encode_post (l : list encoder) (s : Z) (data : list Z) (tot : Z) : list encoder * list Z * Z -> Prop :=
  fun '(l', data', ret) =>
    Forall at_rate l' /\ length l' = length l /\ bytes data' /\ len data' = len data /\
    take (Z.to_nat tot) data' = take (Z.to_nat tot) data /\
    ((ret < 0 /\ exists enc b m, (stream_encode enc b fs m).2 = Err ret /\
        (still_needed n s fs rate <= max - tot -> least fs rate <= m)) \/
     (tot <= ret <= max /\ (vbr = false -> l <> [] -> ret = max) /\
      exists bufs ps, length ps = length l /\ encoded s bufs ps /\
        Forall (fun p => bytes p /\ 1 <= len p /\ opus_packet_get_nb_samples p (len p) rate = Ok fs) ps /\
        carries ps (slice data' tot (ret - tot)))).

(** What a stream sees of its masks. *)
Lemma mask_step (enc : encoder) c1 c2 : at_rate enc -> 0 <= c1 < layout.(nb_channels) -> c2 = -1 \/ 0 <= c2 < layout.(nb_channels) ->
  must (if is_surround st.(me_mapping_type)
        then mask ← stream_mask bandSMR c1 c2; Ok (ctl enc (ENC_SET_ENERGY_MASK (Some mask))) else Ok enc) at_rate.
Proof.
  intros He H1 H2. destruct (is_surround _) eqn:Es; [|done]. specialize (Hmask eq_refl).
  assert (Hld : forall c, 0 <= c < nb_channels layout -> load bandSMR (21 * c) 21 = Ok (slice bandSMR (21 * c) 21)) by
    (intros c Hc; apply load_ok; lia).
  unfold stream_mask. rewrite (Hld c1) by done. cbn [mbind res_bind]. destruct (Z.eqb_spec c2 (-1)); cbn [mbind res_bind].
  - cbn [must]. unfold at_rate. by rewrite ctl_rate.
  - rewrite Hld by lia. cbn [mbind res_bind must]. unfold at_rate. by rewrite ctl_rate.
Qed.

Lemma fs_pos : 0 <= fs.
Proof.
  unfold fs. unfold all_units in Hk. cbn in Hk. assert (0 <= rate / 400) by (apply Z.div_pos; unfold rates in Hrate; cbn in Hrate; lia). nia.
Qed.

Lemma packed_slice data data' P tot size :
  0 <= tot -> tot + len P <= len data -> len data' = len data -> len P <= size -> tot + size <= len data ->
  take (Z.to_nat (tot + len P)) data' = take (Z.to_nat (tot + len P)) (splice data tot P) ->
  slice data' tot size = P ++ slice data' (tot + len P) (size - len P) /\
  take (Z.to_nat tot) data' = take (Z.to_nat tot) data.
Proof.
  intros Ht Hp Hl Hs Hm E. pose proof (len_nonneg P).
  assert (Es : splice data tot P = (take (Z.to_nat tot) data ++ P) ++ drop (Z.to_nat (tot + len P)) data)
    by (unfold splice; by rewrite app_assoc).
  rewrite Es, take_app_length' in E by (unfold len in *; rewrite length_app, length_take; lia).
  assert (Ed : data' = take (Z.to_nat tot) data ++ P ++ drop (Z.to_nat (tot + len P)) data').
  { rewrite app_assoc, <- E. symmetry. apply take_drop. }
  set (D := drop (Z.to_nat (tot + len P)) data') in *.
  assert (Lt : length (take (Z.to_nat tot) data) = Z.to_nat tot) by (rewrite length_take; unfold len in *; lia).
  split; [|rewrite Ed; by apply take_app_length'].
  unfold slice. fold D. rewrite Ed, drop_app_length' by done.
  rewrite take_app. f_equal; [apply take_ge; unfold len in *; lia|]. f_equal. unfold len in *. lia.
Qed.

Lemma encode_streams_spec l : forall s buf data tot,
  Forall at_rate l -> 0 <= s -> s + len l = n -> bytes data -> 0 <= tot <= max -> max <= len data -> 2 * fs <= len buf ->
  must (ms_encode_streams l s st bandSMR pcm buf data fs rate max tot vbr) (encode_post l s data tot).
Proof.
  induction l as [|enc rest IH]; intros s buf data tot Hl Hs Hn Hd Ht Hm Hb; cbn [ms_encode_streams].
  { apply must_ok. split_and!; try done. right. split; [lia|]. split; [done|]. exists [], []. rewrite Z.sub_diag.
    split_and!; try done. }
  apply Forall_cons_1 in Hl as [He Hl]. fold layout. fold n. cbv zeta.
  assert (Hn' : s + 1 + len rest = n) by (unfold len in *; cbn [length] in Hn; lia).
  assert (Hsn : 0 <= s < n) by (pose proof (len_nonneg rest); lia).
  eapply must_bind; [apply (stream_input_spec layout s buf pcm fs); try done; apply fs_pos|].
  intros [[buf1 c1] c2] (Lb & Hh & Hc1 & Hc2). cbn beta iota.
  eapply must_bind; [apply (mask_step enc c1 c2 He Hc1 Hc2)|]. intros enc1 He1.
  destruct (rooms n s fs rate (max - tot) Hsn) as (R1 & R2 & R3 & R4 & R5).
  set (room := stream_room n s fs rate (max - tot)) in *. set (m := encode_room n s room) in *.
  set (enc2 := if negb vbr && (s =? n - 1) then _ else _).
  assert (He2 : at_rate enc2) by (unfold enc2, at_rate; destruct (_ && _); [by rewrite ctl_rate|done]). clearbody enc2.
  pose proof (sl_rate (rate := rate) enc2 buf1 fs m) as Hr'. pose proof (sl_packet (rate := rate) enc2 buf1 k m He2 Hk) as Hp. fold fs in Hp.
  destruct (stream_encode enc2 buf1 fs m) as [enc3 [p|c|]] eqn:Eenc; cbn [fst snd] in Hr', Hp; [| |done].
  2: { apply must_ok. split_and!; try done; [apply List.Forall_cons; [unfold at_rate in *; congruence|done]|].
       left. split; [done|]. exists enc2, buf1, m. rewrite Eenc. by split. }
  destruct Hp as [Q1 Q2 Q3 (r & Q4 & Q5)]. destruct (Z.gtb_spec (len p) MS_FRAME_TMP); [lia|].
  specialize (R5 (len p) ltac:(lia)).
  pose proof (pack_stream_spec p data tot max (negb (s =? n - 1)) (negb vbr && (s =? n - 1)) r Hd Q1 ltac:(lia) ltac:(lia) ltac:(lia) Q4 Q5 ltac:(lia)) as Hpk.
  destruct (pack_stream _ _ _ _ _ _) as [[data1 size]|?|]; [|done|done].
  destruct Hpk as (K1 & K2 & K3 & P & -> & LP & BP & Hpar). subst size.
  assert (Lsp : len (splice data tot P) = len data) by (apply len_splice; lia).
  assert (Bsp : bytes (splice data tot P)) by (unfold splice; repeat apply bytes_app; [by apply Forall_take|done|by apply Forall_drop]).
  eapply must_bind; [apply (IH (s + 1) buf1 (splice data tot P) (tot + len P)); try done; lia|].
  intros [[l' data'] ret] (W1 & W2 & W3 & W4 & W5 & W6). apply must_ok. rewrite Lsp in W4.
  destruct (packed_slice data data' P tot (len P) ltac:(lia) ltac:(lia) W4 ltac:(lia) ltac:(lia) W5) as [_ W7].
  split_and!; try done; [apply List.Forall_cons; [unfold at_rate in *; congruence|done]|cbn [length]; lia|].
  destruct W6 as [(W6 & e & b & m' & E1 & E2)|(W6 & W8 & bufs & ps & N1 & N2 & N3 & N4)]; [left; split; [done|]|right].
  - exists e, b, m'. split; [done|]. intros Hneed. apply E2. clear Hpar. destruct (negb vbr && (s =? n - 1)) eqn:Epad; [|lia].
    unfold still_needed. apply andb_true_iff in Epad as [_ Epad]. destruct (Z.leb_spec n (s + 1)); lia.
  - split; [lia|]. split.
    { intros Ev _. destruct rest as [|e0 rest']; [|by apply W8]. specialize (K2 ltac:(rewrite Ev; cbn [negb andb]; unfold len in Hn'; cbn [length] in Hn'; lia)).
      destruct ps; [|done]. lia. }
    exists (buf1 :: bufs), (p :: ps). split_and!; [cbn [length]; lia| | |].
    + split_and!; [done| |done]. exists enc2, m. by rewrite Eenc.
    + apply List.Forall_cons; [by split_and!; [|lia|]|done].
    + destruct (packed_slice data data' P tot (ret - tot) ltac:(lia) ltac:(lia) W4 ltac:(lia) ltac:(lia) W5) as [-> _].
      replace (ret - tot - len P) with (ret - (tot + len P)) by lia. set (tail := slice data' (tot + len P) (ret - (tot + len P))) in *.
      assert (Esd : negb (s =? n - 1) = match ps with [] => false | _ => true end).
      { unfold len in Hn'. destruct ps, rest; try done; cbn [length] in Hn'; destruct (Z.eqb_spec s (n - 1)); try done; lia. }
      destruct (Hpar tail) as (r' & E1 & E2 & E3); [by apply bytes_slice|rewrite Esd; by destruct ps|].
      exists r, r'. rewrite <- Esd. split_and!; try done. rewrite E3.
      by rewrite drop_app_length' by (unfold len; lia).
Qed.
End Run.

(** ** Encoders that calls of the API lead to *)

Record me_inv (st : ms_encoder) : Prop := {
  me_rate : In rate rates;
  me_layout_ok : layout_ok st.(me_layout);
  me_valid : validate_encoder_layout st.(me_layout) = true;
  me_count : len st.(me_encoders) = st.(me_layout).(nb_streams);
  me_at_rate : Forall at_rate st.(me_encoders)
}.

Lemma init_encoders_spec celt application lfe coupled n : forall i (l : list encoder),
  init_encoders n i coupled rate application lfe celt = Ok l ->
  length l = n /\ Forall at_rate l /\ ((0 < n)%nat -> In rate rates).
Proof.
  induction n as [|n IH]; intros i l; cbn [init_encoders]; [intros [= <-]; split_and!; [done|done|lia]|].
  destruct (opus_encoder_init celt rate _ application) as [e|?|] eqn:E1; [|done..]. cbn [mbind res_bind].
  destruct (init_encoders n (i + 1) _ _ _ _ _) as [l'|?|] eqn:E2; [|done..]. intros [= <-].
  destruct (IH (i + 1) l' E2) as (<- & H2 & _).
  assert (He : at_rate e /\ In rate rates).
  { revert E1. unfold opus_encoder_init. match goal with |- context [if ?b then _ else _] => destruct b eqn:E3 end; [done|].
    intros [= <-]. split; [done|]. rewrite !orb_false_iff, !andb_false_iff, !negb_false_iff, !Z.eqb_eq in E3. unfold rates. cbn. lia. }
  destruct He as [He Hr]. split_and!; [done| |done]. apply List.Forall_cons; [|done].
  destruct (i =? lfe); [unfold at_rate; by rewrite ctl_rate|done].
Qed.

Lemma me_init_inv celt chans streams coupled map application lfe t (st : ms_encoder) : bytes map ->
  opus_multistream_encoder_init_impl celt rate chans streams coupled map application lfe t = Ok st ->
  me_inv st /\ nb_channels (me_layout st) = chans /\ nb_streams (me_layout st) = streams /\
  nb_coupled_streams (me_layout st) = coupled /\ load map 0 chans = Ok (mapping (me_layout st)).
Proof.
  intros Hb. unfold opus_multistream_encoder_init_impl.
  match goal with |- context [if ?b then _ else _] => destruct b eqn:E1 end; [done|]. rewrite !orb_false_iff in E1.
  destruct (load map 0 chans) as [m|?|] eqn:E2; [|done..]. cbn [mbind res_bind]. cbv zeta.
  set (layout := {| nb_channels := chans |}).
  destruct (validate_layout layout) eqn:E3; [|done]. destruct (validate_encoder_layout layout) eqn:E4; [|done]. cbn [negb].
  destruct (is_ambisonics t && _); [done|]. destruct (init_encoders _ _ _ _ _ _ _) as [l|?|] eqn:E5; [|done..]. intros [= <-].
  destruct (init_encoders_spec celt application _ coupled _ 0 l E5) as (N1 & N2 & N3). split; [|done].
  split; cbn [me_layout me_encoders]; try done; [apply N3; lia|apply (checked_layout map); done || lia|unfold len; cbn; lia].
Qed.

Lemma enc_ctl_streams_rate request (l : list encoder) : Forall at_rate l ->
  Forall at_rate (enc_ctl_streams l request).1 /\ length (enc_ctl_streams l request).1 = length l.
Proof.
  induction 1 as [|e rest He Hr IH]; cbn [enc_ctl_streams]; [done|].
  pose proof (ctl_rate e request) as Hc. unfold ctl in Hc.
  destruct (OpusEncoder.opus_encoder_ctl e request) as [[e' ret] out]. cbn [fst] in *.
  assert (He' : at_rate e') by (unfold at_rate in *; congruence).
  destruct (negb _); cbn [fst length]; [split; [by apply List.Forall_cons|done]|].
  destruct (enc_ctl_streams rest request) as [rest' ret']. cbn [fst length] in *.
  destruct IH as [I1 I2]. split; [by apply List.Forall_cons|lia].
Qed.

Lemma me_with_encoders (st : ms_encoder) l : me_inv st -> Forall at_rate l -> length l = length st.(me_encoders) -> me_inv (with_encoders l st).
Proof. intros [H1 H2 H3 H4 H5] Hl Hn. split; cbn; try done. unfold len in *. lia. Qed.

Lemma me_ctl_inv (st : ms_encoder) request : me_inv st -> me_inv (opus_multistream_encoder_ctl st request).1.1.
Proof.
  intros Hst. pose proof Hst as [H1 H2 H3 H4 H5]. destruct request as [r|i r]; cbn [opus_multistream_encoder_ctl].
  - assert (Hall : me_inv (let '(l, ret) := enc_ctl_streams (me_encoders st) r in (with_encoders l st, ret, None : option Z)).1.1).
    { destruct (enc_ctl_streams_rate r (me_encoders st) H5) as [I1 I2].
      destruct (enc_ctl_streams (me_encoders st) r) as [l ret]. cbn [fst] in *. by apply me_with_encoders. }
    destruct r as [what null| | | | | | | | | | | | | | | | | | | | | | ]; try exact Hall; cbn [fst]; try done.
    + unfold ms_get. destruct what; try destruct null; try done;
        (destruct (me_encoders st); [done|]; by destruct (OpusEncoder.opus_encoder_ctl _ _) as [[? ?] ?]).
    + destruct (_ && _); [destruct (_ <=? _)|]; done.
  - destruct (_ || _); [done|]. destruct (me_encoders st !! Z.to_nat i) as [e|] eqn:E1; [|done].
    pose proof (ctl_rate e r) as Hc. unfold ctl in Hc. destruct (OpusEncoder.opus_encoder_ctl e r) as [[e' ret] out]. cbn [fst] in *.
    apply me_with_encoders; [done| |by rewrite length_insert].
    apply Forall_insert; [done|]. rewrite Forall_lookup in H5. specialize (H5 _ _ E1). unfold at_rate in *. congruence.
Qed.

(** The states after an initialisation and any requests and calls of [opus_multistream_encode]. *)
Inductive mse_reachable : ms_encoder -> Prop :=
| mse_init celt chans streams coupled map application st : bytes map ->
    opus_multistream_encoder_init celt rate chans streams coupled map application = Ok st -> mse_reachable st
| mse_family celt chans family application st :
    opus_multistream_surround_encoder_init celt rate chans family application = Ok st -> mse_reachable st
| mse_ctl st request : mse_reachable st -> mse_reachable (opus_multistream_encoder_ctl st request).1.1
| mse_encode st bandSMR pcm size data st' data' ret :
    mse_reachable st -> bytes data -> 400 * size < 2 ^ 31 -> size * st.(me_layout).(nb_channels) <= len pcm ->
    (is_surround st.(me_mapping_type) = true -> 21 * st.(me_layout).(nb_channels) <= len bandSMR) ->
    opus_multistream_encode junk st bandSMR pcm size data = Ok (st', data', ret) -> mse_reachable st'.

(** Whether the rate varies, and the room for a packet. *)
Definition ms_vbr (st : ms_encoder) : bool :=
  match st.(me_encoders) with e :: _ => negb (enc_get e GET_VBR =? 0) | [] => true end.
Definition ms_room (st : ms_encoder) (fs max : Z) : Z :=
  cbr_room st (ms_vbr st) fs rate (foldr Z.add 0 (rate_allocation st fs rate)) max.

Definition ms_encode_post (st : ms_encoder) (pcm : list Z) (size : Z) (data : list Z) : ms_encoder * list Z * Z -> Prop :=
  fun '(st', data', ret) =>
    let n := st.(me_layout).(nb_streams) in
    let fs := frame_size_select size st.(me_variable_duration) rate in
    let smallest := smallest_packet n fs rate in
    st'.(me_layout) = st.(me_layout) /\ len data' = len data /\
    ((ret < 0 /\ (fs <= 0 \/ len data < smallest \/
        exists enc b m, (stream_encode enc b fs m).2 = Err ret /\ (smallest <= ms_room st fs (len data) -> least fs rate <= m))) \/
     (0 < ret <= len data /\ (ms_vbr st = false -> ret = ms_room st fs (len data)) /\
      exists bufs ps, len ps = n /\
        encoded st pcm (fs / (rate / 400)) 0 bufs ps /\ carries ps (take (Z.to_nat ret) data') /\
        opus_multistream_packet_validate (take (Z.to_nat ret) data') n rate = Ok fs)).

Lemma prepare_rate (st : ms_encoder) fs rates0 (l : list encoder) : Forall at_rate l ->
  forall s, Forall at_rate (prepare_streams st fs rate s rates0 l) /\ length (prepare_streams st fs rate s rates0 l) = length l.
Proof.
  induction 1 as [|e rest He _ IH]; intros s; cbn [prepare_streams]; [done|]. destruct (IH (s + 1)) as [I1 I2].
  split; [|cbn [length]; lia]. apply List.Forall_cons; [|done]. unfold prepare_stream, at_rate. cbv zeta.
  repeat match goal with |- context [if ?b then _ else _] => destruct b end; by rewrite ?ctl_rate.
Qed.

Lemma room_bounds (st : ms_encoder) fs max : 0 < fs -> 1 <= st.(me_layout).(nb_streams) -> In rate rates -> 0 <= max -> 0 <= ms_room st fs max <= max.
Proof.
  intros Hf Hn Hr Hm. unfold ms_room, cbr_room.
  assert (Hsum : 0 <= foldr Z.add 0 (rate_allocation st fs rate)).
  { unfold rate_allocation. generalize (if is_ambisonics (me_mapping_type st) then ambisonics_rate_allocation st fs rate else surround_rate_allocation st fs rate).
    intros l. induction l as [|x l IH]; [done|]. change (0 <= Z.max 500 x + foldr Z.add 0 (map (Z.max 500) l)). apply Z.add_nonneg_nonneg; [clear; lia|exact IH]. }
  assert (Hd : 0 <= 3 * 8 * rate / fs) by (apply Z.div_pos; [unfold rates in Hr; cbn in Hr; lia|lia]).
  assert (Hs : 0 <= smallest_packet (nb_streams (me_layout st)) fs rate) by (unfold smallest_packet; destruct (_ =? 10); lia).
  destruct (ms_vbr st); [lia|]. destruct (_ =? OPUS_AUTO); [|destruct (negb _); lia].
  destruct (Z.eq_dec (3 * 8 * rate / fs) 0) as [->|]; [rewrite Z.quot_0_r_ext by done; lia|]. pose proof (Z.quot_pos (3 * foldr Z.add 0 (rate_allocation st fs rate)) (3 * 8 * rate / fs)). lia.
Qed.

Lemma ms_encode_spec (st : ms_encoder) bandSMR pcm size data :
  me_inv st -> bytes data -> 400 * size < 2 ^ 31 -> size * st.(me_layout).(nb_channels) <= len pcm ->
  (is_surround st.(me_mapping_type) = true -> 21 * st.(me_layout).(nb_channels) <= len bandSMR) ->
  must (opus_multistream_encode junk st bandSMR pcm size data) (fun r => me_inv r.1.1 /\ ms_encode_post st pcm size data r).
Proof.
  intros Hst Hd Hz Hpcm Hmask. pose proof Hst as [Hr Hlay Hval Hcnt Hat]. pose proof (lo_streams _ Hlay) as Hn1. pose proof (lo_channels _ Hlay) as Hch.
  unfold opus_multistream_encode. destruct (me_encoders st) as [|e0 rest0] eqn:Ee.
  { unfold len in Hcnt. cbn in Hcnt. lia. }
  assert (He0 : enc_get e0 GET_SAMPLE_RATE = rate) by (apply Forall_cons_1 in Hat as [H0 _]; exact H0).
  rewrite He0. cbv zeta. pose proof (len_nonneg data) as Hld.
  set (fs := frame_size_select size (me_variable_duration st) rate).
  destruct (Z.leb_spec fs 0) as [Hfs|Hfs].
  { apply must_ok. split; [done|]. split_and!; try done. left. split; [done|]. left. exact Hfs. }
  destruct (Z.ltb_spec (len data) (smallest_packet (nb_streams (me_layout st)) fs rate)) as [Hsm|Hsm].
  { apply must_ok. split; [done|]. split_and!; try done. left. split; [done|]. right. left. exact Hsm. }
  destruct (frame_size_select_ok rate size (me_variable_duration st) fs Hr Hz eq_refl ltac:(lia)) as (Hle & k & Hk & Efs).
  destruct (prepare_rate st fs (rate_allocation st fs rate) (e0 :: rest0) Hat 0) as [P1 P2].
  set (l := prepare_streams _ _ _ _ _ _) in *.
  assert (Evbr : negb (enc_get e0 GET_VBR =? 0) = ms_vbr st) by (unfold ms_vbr; by rewrite Ee).
  rewrite Evbr. fold (ms_room st fs (len data)). set (max := ms_room st fs (len data)).
  assert (Hmax : 0 <= max <= len data) by (apply room_bounds; done || lia).
  assert (Hln : 0 + len l = nb_streams (me_layout st)) by (unfold len in *; lia).
  assert (Hfp : 0 <= fs * nb_channels (me_layout st) <= len pcm) by nia.
  rewrite Efs in *. set (q := rate / 400) in *. assert (Hq : 0 < q) by (clear -Hr; unfold rates in Hr; cbn in Hr; subst q; destruct_or! Hr; subst rate; done).
  eapply must_bind.
  { apply (encode_streams_spec st bandSMR pcm k max (ms_vbr st) Hr Hlay Hval Hk ltac:(fold q; lia) Hmask l 0); try done; try lia. fold q. rewrite len_repeat_Z; lia. }
  intros [[l' data'] ret] (W1 & W2 & W3 & W4 & _ & W6). apply must_ok. cbn [fst].
  split.
  { apply me_with_encoders; [done|done|]. rewrite Ee. unfold len in *. lia. }
  assert (Ek : fs / q = k) by (rewrite Efs; apply Z.div_mul; lia).
  unfold ms_encode_post. fold fs max. fold q. cbv zeta. rewrite Ek. split_and!; [done|done|]. fold q in W6. rewrite <- Efs in W6.
  rewrite Z.sub_0_r in W6. destruct W6 as [(W6 & e & b & m & E1 & E2)|(W6 & W7 & bufs & ps & N1 & N2 & N3 & N4)].
  - left. split; [done|]. right. right. exists e, b, m. split; [done|]. intros Hneed. apply E2. unfold still_needed.
    destruct (Z.leb_spec (nb_streams (me_layout st)) 0); [lia|]. by rewrite Z.sub_0_r.
  - right. rewrite !Z.sub_0_r in N4. change (slice data' 0 ret) with (take (Z.to_nat ret) data') in N4.
    assert (Hlp : len ps = nb_streams (me_layout st)) by (unfold len in *; lia).
    assert (Hbt : bytes (take (Z.to_nat ret) data')) by (by apply Forall_take).
    assert (Hret : 0 < ret).
    { destruct (Z.ltb_spec 0 ret); [done|]. replace ret with 0 in N4 by lia. destruct ps as [|p ps]; [unfold len in Hlp; cbn in Hlp; lia|].
      destruct N4 as (r & r' & _ & E & _). by destruct ps. }
    split; [lia|]. split; [intros Ev; apply W7; [done|]; intros ->; unfold len in Hln; cbn in Hln; lia|].
    exists bufs, ps. split_and!; try done. unfold opus_multistream_packet_validate.
    replace (Z.to_nat (nb_streams (me_layout st))) with (length ps) by (unfold len in Hlp; lia).
    apply carries_valid; try done. intros [?|Hps]; [lia|]. subst ps. unfold len in Hlp. cbn in Hlp. lia.
Qed.

Lemma mse_reachable_inv (st : ms_encoder) : mse_reachable st -> me_inv st.
Proof.
  induction 1 as [celt chans streams coupled map application st Hb E|celt chans family application st E|st request _ IH
    |st bandSMR pcm size data st' data' ret _ IH Hd Hz Hp Hm E].
  - by apply (me_init_inv _ _ _ _ _ _ _ _ st Hb E).
  - unfold opus_multistream_surround_encoder_init in E.
    destruct (_ || _) eqn:E1; [done|]. rewrite orb_false_iff in E1.
    pose proof (family_transparent family chans ltac:(lia)) as Hf.
    destruct (family_layout chans family) as [[[[streams coupled] m] lfe]|c|]; [|done|done]. cbn [mbind res_bind] in E.
    destruct Hf as (Hb & _). by apply (me_init_inv _ _ _ _ _ _ _ _ st Hb E).
  - by apply me_ctl_inv.
  - pose proof (ms_encode_spec st bandSMR pcm size data IH Hd Hz Hp Hm) as Hs. rewrite E in Hs. apply Hs.
Qed.
End Streams.

Section Encode.
Context {rate : Z} `{L : StreamLaws rate SILK CELT} (junk : Z).

(** (C30) A multistream encoder in any state that calls of the API can bring it to, given a frame and a buffer: no access
    is outside the samples, the masks or the buffer, and no call of the repacketizer (whose result is not checked)
    fails.  The call refuses the frame size or the buffer, or reports the error of a stream encoder that had the room it
    needs, or returns the size of a packet (all of the room at constant bit rate) in which a parser finds, one behind the
    other, the frames that the stream encoders made of their channels, and which the multistream decoder accepts as one
    frame of the right duration. *)
Theorem multistream_packet_carries st bandSMR pcm size data :
  mse_reachable (rate := rate) junk st -> bytes data -> 400 * size < 2 ^ 31 -> size * st.(me_layout).(nb_channels) <= len pcm ->
  (is_surround st.(me_mapping_type) = true -> 21 * st.(me_layout).(nb_channels) <= len bandSMR) ->
  must (opus_multistream_encode junk st bandSMR pcm size data) (fun '(st', data', ret) =>
    let n := st.(me_layout).(nb_streams) in
    let fs := frame_size_select size st.(me_variable_duration) rate in
    let smallest := smallest_packet n fs rate in
    let room := ms_room (rate := rate) st fs (len data) in
    st'.(me_layout) = st.(me_layout) /\ len data' = len data /\
    ((ret < 0 /\ (fs <= 0 \/ len data < smallest \/
        exists enc b m, (stream_encode enc b fs m).2 = Err ret /\ (smallest <= room -> least fs rate <= m))) \/
     (0 < ret <= len data /\ (ms_vbr st = false -> ret = room) /\
      exists bufs ps, len ps = n /\
        encoded (rate := rate) st pcm (fs / (rate / 400)) 0 bufs ps /\ carries ps (take (Z.to_nat ret) data') /\
        opus_multistream_packet_validate (take (Z.to_nat ret) data') n rate = Ok fs))).
Proof.
  intros Hst Hd Hz Hp Hm. eapply must_impl; [exact (ms_encode_spec junk st bandSMR pcm size data (mse_reachable_inv junk st Hst) Hd Hz Hp Hm)|].
  intros [[st' data'] ret] (_ & Hpost). exact Hpost.
Qed.
End Encode.

(** Stream encoders that send packets without content. *)
Definition concealing_packet (Fs fs n : Z) : list Z :=
  plc_packet MODE_HYBRID OPUS_BANDWIDTH_FULLBAND 1 (Fs / fs) n.
#[export] Instance concealing : StreamEncode unit unit := {|
  stream_encode enc _ fs n :=
    (enc, if n <? least fs (es_Fs (oe_settings enc)) then Err OPUS_BUFFER_TOO_SMALL
          else Ok (concealing_packet (es_Fs (oe_settings enc)) fs n))
|}.

#[export] Instance concealing_laws : StreamLaws 8000.
Proof.
  split; [done|]. intros enc pcm k n E Hk. cbn [stream_encode concealing snd]. rewrite E.
  destruct (Z.ltb_spec n (least (k * (8000 / 400)) 8000)) as [|Hn]; [done|].
  assert (Hs : state_ok (fresh_state 1 false 0 false false)).
  { split; cbn; unfold OPUS_BANDWIDTH_FULLBAND; try lia; tauto. }
  assert (Hdiv : 8000 / (k * (8000 / 400)) = 400 / k).
  { unfold all_units in Hk. cbn in Hk. destruct_or! Hk; subst k; done. }
  assert (Hl : 1 <= n /\ ~ (n = 1 /\ k = 40)).
  { unfold least in Hn. rewrite Hdiv in Hn. split; [destruct (_ =? _); lia|]. intros [-> ->]. done. }
  destruct (plc_packet_ok 8000 (fresh_state 1 false 0 false false) k n ltac:(unfold rates; cbn; tauto) Hs Hk (proj1 Hl) (proj2 Hl))
    as (P1 & P2 & P3 & r & P4 & P5 & P6).
  unfold concealing_packet. rewrite Hdiv. cbn [fresh_state OpusDecide.mode OpusDecide.bandwidth OpusDecide.stream_channels] in *.
  split; try done.
  - split; [|done]. destruct (plc_packet _ _ _ _ _); [done|]. unfold len. cbn [length]. lia.
  - exists r. split; [done|]. rewrite P6. done.
Qed.

(** 5.1 surround at 8 kHz. *)
Definition surround_8k : OpusMSEncoder unit unit :=
  match opus_multistream_surround_encoder_init tt 8000 6 1 OPUS_APPLICATION_AUDIO with
  | Ok st => st
  | _ => Build_OpusMSEncoder (Build_ChannelLayout 0 0 0 []) 0 0 0 MAPPING_TYPE_NONE 0 []
  end.

Lemma surround_8k_reachable : mse_reachable (rate := 8000) 0 surround_8k.
Proof. apply (mse_family 0 tt 6 1 OPUS_APPLICATION_AUDIO). reflexivity. Qed.

Lemma multistream_packet_carries_witness :
  must (opus_multistream_encode 0 surround_8k (repeat 0 126) (repeat 7 960) 160 (repeat 0 100)) (fun '(st', data', ret) =>
    let n := surround_8k.(me_layout).(nb_streams) in
    let fs := frame_size_select 160 surround_8k.(me_variable_duration) 8000 in
    let smallest := smallest_packet n fs 8000 in
    let room := ms_room (rate := 8000) surround_8k fs (len (repeat 0 100)) in
    st'.(me_layout) = surround_8k.(me_layout) /\ len data' = len (repeat 0 100) /\
    ((ret < 0 /\ (fs <= 0 \/ len (repeat 0 100) < smallest \/
        exists enc b m, (stream_encode enc b fs m).2 = Err ret /\ (smallest <= room -> least fs 8000 <= m))) \/
     (0 < ret <= len (repeat 0 100) /\ (ms_vbr surround_8k = false -> ret = room) /\
      exists bufs ps, len ps = n /\
        encoded (rate := 8000) surround_8k (repeat 7 960) (fs / (8000 / 400)) 0 bufs ps /\ carries ps (take (Z.to_nat ret) data') /\
        opus_multistream_packet_validate (take (Z.to_nat ret) data') n 8000 = Ok fs))).
Proof.
  exact (multistream_packet_carries (rate := 8000) 0 surround_8k (repeat 0 126) (repeat 7 960) 160 (repeat 0 100) surround_8k_reachable
    ltac:(apply bytes_repeat; lia) ltac:(lia) ltac:(vm_compute; discriminate) ltac:(vm_compute; discriminate)).
Defined.

(** A run: four packets without content, the last one not delimited. *)
Example surround_run :
  match opus_multistream_encode 0 surround_8k (repeat 0 126) (repeat 7 960) 160 (repeat 0 100) with
  | Ok (_, data', ret) => ret = 7 /\ take 7 data' = [120; 0; 120; 0; 120; 0; 120] /\
      opus_multistream_packet_validate (take 7 data') 4 8000 = Ok 160
  | _ => False
  end.
Proof. by vm_compute. Qed.

(** ** Families *)

(** What the encoder takes from channel [c], a decoder with the same layout puts into channel [c]. *)
Lemma transparent_routes l bufs pcm fs : transparent l ->
  (forall s, 0 <= s < l.(nb_streams) -> stream_holds l s (nth (Z.to_nat s) bufs []) pcm fs) ->
  forall c j, 0 <= c < l.(nb_channels) -> 0 <= j < fs -> output_sample l bufs c j = pcm.[j * l.(nb_channels) + c].
Proof.
  intros [Hl _ _ _ Hown] Hh c j Hc Hj. destruct (Hown c Hc) as [Hne Hinj]. unfold output_sample. cbv zeta.
  destruct (Z.eqb_spec (mapping l).[c] 255); [done|].
  assert (Ho : 0 <= owner l (mapping l).[c] < nb_streams l).
  { pose proof (lo_coupled _ Hl). destruct (lo_mapping _ Hl c Hc) as [Hm|]; [|done]. unfold owner.
    destruct (Z.ltb_spec (mapping l).[c] (2 * nb_coupled_streams l)); [|lia]. dlia. }
  apply (Hh _ Ho c j Hc Hne eq_refl); [|done]. intros c' Hc' E. specialize (Hinj c' ltac:(lia) E). lia.
Qed.

Lemma init_encoders_ok `{EncoderParts SILK CELT} celt Fs application lfe coupled n : forall i, In Fs rates -> is_application application = true ->
  exists l : list (OpusEncoder SILK CELT), init_encoders n i coupled Fs application lfe celt = Ok l.
Proof.
  induction n as [|n IH]; intros i HF Ha; cbn [init_encoders]; [by eexists|].
  assert (E : exists e, opus_encoder_init celt Fs (if i <? coupled then 2 else 1) application = Ok e).
  { unfold opus_encoder_init. match goal with |- context [if ?b then Err _ else _] => destruct b eqn:Eb end; [|by eexists]. exfalso.
    unfold is_application in Ha. unfold rates in HF. cbn in HF.
    revert Ha Eb. destruct (application =? OPUS_APPLICATION_VOIP), (application =? OPUS_APPLICATION_AUDIO),
      (application =? OPUS_APPLICATION_RESTRICTED_LOWDELAY), (i <? coupled); try done; intros _;
      destruct_or! HF; subst Fs; done. }
  destruct E as [e ->]. cbn [mbind res_bind]. destruct (IH (i + 1) HF Ha) as [l ->]. cbn [mbind res_bind]. by eexists.
Qed.

Lemma init_decoders_ok `{Synthesis SILK CELT} silk celt Fs coupled n : forall i, In Fs rates ->
  exists l : list (OpusDecode.OpusDecoder SILK CELT), init_decoders n i coupled Fs silk celt = Ok l.
Proof.
  induction n as [|n IH]; intros i HF; cbn [init_decoders]; [by eexists|].
  assert (E : exists d : OpusDecode.OpusDecoder SILK CELT, opus_decoder_init silk celt Fs (if i <? coupled then 2 else 1) = Ok d).
  { unfold opus_decoder_init. match goal with |- context [if ?b then Err _ else _] => destruct b eqn:Eb end; [|by eexists]. exfalso.
    unfold rates in HF. cbn in HF. revert Eb. destruct (i <? coupled); destruct_or! HF; subst Fs; done. }
  destruct E as [d ->]. cbn [mbind res_bind]. destruct (IH (i + 1) HF) as [l ->]. cbn [mbind res_bind]. by eexists.
Qed.

Section Families.
Context `{EncoderParts SILK CELT} `{Synthesis DSILK DCELT} (celt : CELT) (dsilk : DSILK) (dcelt : DCELT).

(** (C6) For every mapping family and number of channels, [opus_multistream_surround_encoder_init] refuses only what the
    family does not define; otherwise the decoder can be created with the layout of the encoder, and takes every
    channel back to where it was: if the buffers hold what the encoder gives to each stream, sample [j] of
    channel [c] of the output is that of channel [c] of the input. *)
Theorem family_layouts_roundtrip Fs channels family application :
  In Fs rates -> is_application application = true -> 1 <= channels <= 255 ->
  match opus_multistream_surround_encoder_init celt Fs channels family application with
  | Ok st =>
      let l := st.(me_layout) in
      l.(nb_channels) = channels /\
      (exists dec, opus_multistream_decoder_init dsilk dcelt Fs channels l.(nb_streams) l.(nb_coupled_streams) l.(mapping) = Ok dec /\
         dec.(ms_layout) = l) /\
      forall bufs pcm frame_size,
        (forall s, 0 <= s < l.(nb_streams) -> stream_holds l s (nth (Z.to_nat s) bufs []) pcm frame_size) ->
        forall c j, 0 <= c < channels -> 0 <= j < frame_size -> output_sample l bufs c j = pcm.[j * channels + c]
  | Err c => family_layout channels family = Err c
  | Fault => False
  end.
Proof.
  intros HF Ha Hc. unfold opus_multistream_surround_encoder_init.
  destruct (Z.gtb_spec channels 255), (Z.ltb_spec channels 1); try lia. cbn [orb].
  pose proof (family_transparent family channels Hc) as Hf.
  destruct (family_layout channels family) as [[[[streams coupled] m] lfe]|c|]; [|done|done]. cbn [mbind res_bind]. cbv zeta.
  destruct Hf as (Hb & Lm & Htr & Ham). pose proof Htr as [Hl Hv He Hfit _].
  pose proof (lo_coupled _ Hl) as T1. pose proof (lo_streams _ Hl) as T2. pose proof (lo_max _ Hl) as T3.
  cbn [nb_channels nb_streams nb_coupled_streams mapping] in *.
  set (t := if (channels >? 2) && (family =? 1) then _ else _).
  assert (Eload : load m 0 channels = Ok m).
  { rewrite load_ok by lia. unfold slice. f_equal. apply take_ge. unfold len in Lm. change (drop (Z.to_nat 0) m) with m. lia. }
  unfold opus_multistream_encoder_init_impl, opus_multistream_decoder_init. rewrite Eload.
  destruct (Z.gtb_spec channels 255), (Z.ltb_spec channels 1), (Z.gtb_spec coupled streams), (Z.ltb_spec streams 1), (Z.ltb_spec coupled 0),
    (Z.gtb_spec streams (255 - coupled)), (Z.gtb_spec (streams + coupled) channels); try lia. cbn [orb mbind res_bind]. cbv zeta.
  rewrite Hv, He. cbn [negb].
  replace (is_ambisonics t && match validate_ambisonics channels with Some _ => false | None => true end) with false.
  2: { subst t. destruct ((channels >? 2) && (family =? 1)); [done|]. destruct (Z.eqb_spec family 2) as [E2|]; [|done]. specialize (Ham E2).
       by destruct (validate_ambisonics channels). }
  destruct (init_encoders_ok celt Fs application (if is_surround t then lfe else -1) coupled (Z.to_nat streams) 0 HF Ha) as [le ->].
  cbn [mbind res_bind me_layout nb_channels nb_streams nb_coupled_streams mapping].
  destruct (init_decoders_ok dsilk dcelt Fs coupled (Z.to_nat streams) 0 HF) as [ld Eld].
  split_and!; [done| |].
  - destruct (Z.gtb_spec coupled streams), (Z.ltb_spec streams 1), (Z.ltb_spec coupled 0), (Z.gtb_spec streams (255 - coupled)); try lia.
    cbn [orb]. rewrite Eload. cbn [mbind res_bind]. rewrite Hv. cbn [negb]. rewrite Eld. cbn [mbind res_bind]. eexists. split; reflexivity.
  - intros bufs pcm fs Hh c j Hc' Hj. by apply (transparent_routes _ bufs pcm fs Htr).
Qed.
End Families.

Lemma family_layouts_roundtrip_witness :
  exists st, opus_multistream_surround_encoder_init tt 8000 6 1 OPUS_APPLICATION_AUDIO = Ok st /\
    forall bufs pcm frame_size,
      (forall s, 0 <= s < st.(me_layout).(nb_streams) -> stream_holds st.(me_layout) s (nth (Z.to_nat s) bufs []) pcm frame_size) ->
      forall c j, 0 <= c < 6 -> 0 <= j < frame_size -> output_sample st.(me_layout) bufs c j = pcm.[j * 6 + c].
Proof.
  pose proof (family_layouts_roundtrip (H := plain_parts) (H0 := OpusProps.silence) tt tt tt 8000 6 1 OPUS_APPLICATION_AUDIO
    ltac:(unfold rates; cbn; tauto) ltac:(reflexivity) ltac:(lia)) as Hf.
  exists surround_8k. split; [reflexivity|].
  change (opus_multistream_surround_encoder_init tt 8000 6 1 OPUS_APPLICATION_AUDIO) with (Ok surround_8k) in Hf. exact (proj2 (proj2 Hf)).
Defined.

(** With the rate left to the encoder (OPUS_AUTO) the code compares the negative constant with the rates of the bandwidths:
    every stream of a surround encoder is set to narrowband, although its rate would carry more. *)
Lemma auto_surround_narrowband (st : OpusMSEncoder unit unit) fs Fs s bitrate (enc : OpusEncoder unit unit) :
  is_surround st.(me_mapping_type) = true -> st.(me_bitrate_bps) = OPUS_AUTO -> 0 <= st.(me_layout).(nb_channels) -> Fs <= fs * 50 ->
  es_user_bandwidth (oe_settings (prepare_stream st fs Fs s bitrate enc)) = OPUS_BANDWIDTH_NARROWBAND.
Proof.
  intros Ht Hb Hn Hf. unfold prepare_stream. cbv zeta. rewrite Ht, Hb. destruct (Z.ltb_spec (fs * 50) Fs); [lia|].
  change OPUS_AUTO with (-1000). destruct (Z.gtb_spec (-1000) (10000 * nb_channels (me_layout st))), (Z.gtb_spec (-1000) (7000 * nb_channels (me_layout st))),
    (Z.gtb_spec (-1000) (5000 * nb_channels (me_layout st))); try lia.
  set (e := ctl (ctl enc _) _).
  assert (He : es_user_bandwidth (oe_settings e) = OPUS_BANDWIDTH_NARROWBAND) by reflexivity. clearbody e.
  assert (Hkeep : forall e v, es_user_bandwidth (oe_settings (ctl e (ENC_SET_FORCE_MODE v))) = es_user_bandwidth (oe_settings e) /\
    es_user_bandwidth (oe_settings (ctl e (ENC_SET_FORCE_CHANNELS v))) = es_user_bandwidth (oe_settings e)).
  { intros e' v. unfold ctl. cbn [OpusEncoder.opus_encoder_ctl].
    split; match goal with |- context [if ?b then _ else _] => destruct b end; done. }
  destruct (s <? nb_coupled_streams (me_layout st)); [|exact He]. by rewrite (proj2 (Hkeep _ _)), (proj1 (Hkeep _ _)).
Qed.
